(* ===== verification/_CoqProject ===== *)
-Q . S2P
Prelude.v
Abi.v
Errors.v
Enums.v
Netip.v
NetipText.v
Sockaddr.v
Options.v
OptionCodecs.v
MsgInfo.v
Notification.v
Accumulator.v
Config.v
Close.v
CloseSpec.v
Term.v
Endpoint.v
Addr.v
Recv.v
ReadMsg.v
Traps.v
Sys.v
Resolve.v
Apply.v
ConnOptions.v
Mutex.v
OptionLock.v
Send.v
Sockets.v
CloseOps.v
Conns.v
ConnLocks.v
Dial.v
Listeners.v
Endpoints.v
EndpointRecv.v
EndpointLocks.v
Stubs.v
Unsupported.v
Hosts.v
