(* ===== verification/Prelude.v ===== *)
(** * go-sctp: a verification development

    The program (src/) is a Go package for SCTP sockets on Linux: one-to-one
    connections (Conn), listeners, and one-to-many endpoints (Endpoint),
    each one descriptor and the Linux SCTP socket API underneath.  Its parts:

    - the kernel ABI: constants, struct offsets and sizes (abi.go, and the
      two abi_u64align files), the enumerations (enums.go);
    - codecs between Go values and the kernel's structs: addresses
      (sockaddr.go), option values (options.go), control messages of sends
      and receives (msginfo.go), notifications (notification.go);
    - the settings of a socket before it exists (config.go), resolved and
      checked into an ordered list of operations;
    - the state a descriptor carries while it is used: the close state
      machine (close.go), the association-error latch (term_linux.go), the
      reassembly of split notifications (notification.go);
    - the receive and send paths, options, listeners and constructors that
      make the system calls (the other _linux.go files), and the stubs of
      other platforms (unsupported.go).

    The codecs are pure; Conn and Endpoint call them around each system
    call.  Every read feeds the accumulator and the latch, every send the
    latch, and every close the state machine; config.go's operations reach
    the descriptor before it is bound.

    ** Files

    - [Prelude]: Go outcomes (return, error or panic), slices as lists with
      explicit bounds, byte orders, machine widths, and the automation.
    - [Abi] (abi.go): every constant, as a function of the target ([Arch]:
      word size, alignment of 64-bit fields, byte order), and each struct
      with its fields.
    - [Errors] (errors.go): error values, errors.Is and errors.Join, opError
      and its relatives.
    - [Enums] (enums.go): the enumerations, their tables and String methods.
    - [Netip], [NetipText]: net/netip addresses, their text, decimal numbers
      and the splitting of strings (standard library).
    - [Sockaddr] (sockaddr.go): encodeAddr, encodeAddrs, decodeAddr,
      decodeAddrs, the zones and their cache.
    - [Options], [OptionCodecs] (options.go, the durations of config.go):
      option values, their checks and their structs.
    - [MsgInfo] (msginfo.go): appendSendCmsgs, parseRecvCmsgs.
    - [Notification], [Accumulator] (notification.go): ParseNotification,
      and notificationAccumulator.
    - [Config] (config.go): Config.prepare.
    - [Close] (close.go): the lifecycle, as threads over a shared state.
    - [CloseSpec] (the comments of close.go): what the lifecycle promises,
      as an abstract machine that [Close] implements.
    - [Term] (term_linux.go): termState.
    - [Endpoint] (endpoint.go): association ids and the receive-side check.
    - [Addr], [Resolve] (addr.go): networks, the normal form and the text of
      an address; ResolveAddr over a resolver that is a parameter.
    - [Recv] (recv_linux.go): recvState, its callback attempt, recvNext,
      RecvMsg and Read, over [Accumulator], [Term], [MsgInfo] and
      [Notification]; the results of recvmsg and of the poller are a script.
    - [ReadMsg] (recv_linux.go): ReadMsg, its assembly buffer and the
      notifications inside a message, over [Recv]; the shared buffers.
    - [Traps] (syscall_linux_386.go, syscall_linux_other.go): the raw calls,
      direct and through socketcall.
    - [Sys] (socket_linux.go, syscall_linux_other.go): computations that
      make system calls, the option calls of a socket, the storage layout,
      getAddrs, and the families and local addresses of a socket.
    - [Apply] (config_linux.go, the defaults of send_linux.go): applyConfig
      over the operations of [Config], and the AUTH keys.
    - [ConnOptions] (options_linux.go, options_ext_linux.go, the defaults of
      send_linux.go, Subscribe of recv_linux.go): the option methods of Conn
      over the codecs of [Options] and [OptionCodecs].
    - [Mutex]: computations cut at their system calls, run at the same time
      under one mutex.
    - [OptionLock] (options_linux.go): the calls under optMu.
    - [Send] (send_linux.go): the checks of SendMsg, and sendState: its
      storage, its lock and the ownership of the write deadline, as threads
      over a shared state, with the latch of [Term].
    - [Sockets] (socket_linux.go): the operating system as the package sees
      it ([Host]), opening, wrapping and adopting descriptors, and the
      program logic of the files below: a ledger of the descriptors held,
      and weakest preconditions ([runs]) over it.
    - [CloseOps] (close_linux.go, close.go): closeOps as an interface with
      its promise (a type class), sockCloseOps as an instance, and the
      lifecycle of [Close] run over it.
    - [Conns] (conn.go, conn_linux.go, close_linux.go): newConn, the address
      snapshots, bind changes, FileConn, Close, Abort and Shutdown.
    - [ConnLocks] (recv_linux.go, conn_linux.go): the calls under subMu and
      under bindMu.
    - [Dial] (dial_linux.go), [Listeners] (listener.go, listener_linux.go).
    - [Endpoints], [EndpointRecv] (endpoint.go, endpoint_linux.go): the
      one-to-many socket, its own instance of closeOps, and its reads.
    - [EndpointLocks] (endpoint_linux.go): recvNext and PeelOff at the same
      time, with recv.mu and recordMu, one system call a step.
    - [Stubs], [Unsupported] (unsupported.go): the methods and the
      constructors of other platforms.
    - [Hosts]: a concrete [Host], on which the theorems about [Host] are
      applied.

    ** How the code is modelled

    A Go function is a Rocq function of the same name.  One that can fail or
    panic returns [out error A]: an index or slice bound out of range, and
    an explicit panic, is the outcome [Panic], so that a theorem that a
    function never panics is about every slice expression in it.  A byte
    slice is a list of bytes; a buffer a function writes is an argument and
    a result.  An integer is a [Z], reduced to its width where the code
    converts it.  A pointer or slice that may be nil is an option.  State a
    method changes is a record it takes and returns; the concurrent calls of
    the lifecycle, the sends of a descriptor, the reads and PeelOffs of an
    Endpoint and the calls under optMu, subMu and bindMu are threads that take
    one atomic step at a time, in any order.  The message of an error is its format string.

    What the code takes from outside is a parameter: the target ([Arch]),
    the host's interface table ([ZoneEnv]), Go's error text and its
    captured poll error ([ClosingSentinel]), the growth of a slice's
    capacity ([SliceGrowth]), and the kernel's getsockopt and setsockopt
    ([Kernel]: a state and an answer for each call), the whole operating
    system ([Host], for the functions that open and close descriptors), the
    name resolver ([Resolver]) and the traps ([Traps]).  Elsewhere the kernel's
    answers are inputs: bytes for a decoder, results of closeOps for the
    lifecycle, errnos for the latch, and a script of recvmsg and poller
    results for a read.

    ** What the theorems show

    - Codecs: decoding is total on every byte string, with no panic and no
      read past the end; encoding writes exactly the kernel's struct, inside
      the buffer and nowhere else, and refuses exactly what does not fit;
      and each pair is a round trip ([MsgInfo], [Notification], [Sockaddr],
      [Options], [OptionCodecs], [Endpoint]).  The struct layouts follow
      from the C rules on every target ([Abi]).
    - Reassembly ([Accumulator]) is independent of how a record is split and
      bounded in memory.
    - Configuration ([Config]): prepare accepts exactly the Configs a
      field-by-field predicate describes and returns their snapshot; the
      order, uniqueness and AUTH bound of the operations follow.
    - Closing ([Close]): for every interleaving, one release, no double
      close of a channel, at most one startShutdown of all Shutdowns over the
      whole history, forward-only states, and termination, with a bound
      on the polls of a graceful close; and [CloseSpec]: every step is at
      most one act of the abstract machine, with the same results, so that
      at most one call ever reports a failure of the close.
    - The latch ([Term]): after any operations it holds the first failure
      they showed, and every later read and send reports that one.
    - Reading ([Recv]): for every script of system-call results, RecvMsg and
      Read never panic, stay within the buffer, leave no record half read
      and wait only while nothing has ended; a notification is read whole
      whatever its pieces, returned in the caller's pieces with EOR on the
      last, refused when malformed, and aborts the connection when cut.
    - Whole messages ([ReadMsg]): ReadMsg returns the concatenation of the
      pieces, cut at max, whatever their sizes; a message cut short is
      reported and aborts the connection, unless the kernel abandoned it at
      a record boundary; the shared buffers are lent to one call at a time.
    - Options ([ConnOptions]): for every kernel, each of the option methods
      never panics, makes no call on a closed connection, calls only its own
      option with a struct of its size that names the association, wraps an
      error once, and ends with the call it is for; a partial change of the
      thresholds keeps the others; Subscribe changes one type.  Concurrent
      changes of the path settings are the methods one after the other, so
      none is lost ([OptionLock]); and so are concurrent Subscribe calls, and
      concurrent BindAdd and BindRemove calls with the snapshots they leave
      ([ConnLocks]).
    - Settings on a socket ([Apply]): applyConfig makes exactly the calls of
      the prepared operations, in order, up to the first refusal, which it
      names by field; the two defaults of a send do not disturb each other;
      a key is installed only after AUTH is on.
    - Address lists ([Sys]): getAddrs finds a list of any size the kernel
      can report, in at most four calls.
    - Sending ([Send]): for every interleaving, each sendmsg carries what its
      own caller gave, with the defaults the descriptor had then, and loses
      its destination only after the kernel refused it for an association
      that had ended; a message is queued at most once, and the result says
      whether it was; the write deadline is the caller's whenever no send is in
      progress; a failed send names what came first; and a waiting send that
      a shutdown, a context or a deadline should end can return although the
      descriptor never becomes writable.
    - Descriptors ([CloseOps], [Dial], [Endpoints]): whatever the kernel, the
      poller and Config.Control do, a Dial, Listen, Accept, PeelOff, FileConn,
      FileListener, ListenEndpoint or OpenEndpoint that fails has closed
      each descriptor it opened exactly once, and one that succeeds has
      handed over exactly one; a Close or Abort returns, and closes the
      descriptor once, for every implementation of closeOps.
    - Setting up ([Conns], [Dial], [Listeners]): what newConn takes from
      SCTP_STATUS; that a Dial succeeds only on evidence of the association
      and not on a connection to itself; that a Listener listens only when
      its settings are applied and its addresses bound; and which bind
      changes reach the kernel, with which bytes.
    - Endpoints ([Endpoints], [EndpointRecv]): the list of associations is
      whole or refused, in at most 17 calls, as long as the length the kernel
      reports fits an int (on a 32-bit target a longer one gets past the
      check and the slice panics, as [Hosts] shows); ending an association names
      that one and no other; each is asked to shut down once; and no message
      is handed over without the one record that names the association it
      belongs to.  Concurrent
      reads are the atomic ones in the order they release recv.mu, PeelOff
      never comes between two pieces of a notification, and does not wait
      for an idle reader ([EndpointLocks]).
    - Addresses as text ([NetipText], [Resolve]): what an Addr prints
      resolves to it; what resolves is in plain form and fits the family;
      names are looked up in order, and none after a failure, whatever the
      resolver answers.
    - Other ways in ([Traps], [Unsupported]): socketcall makes the direct
      calls, and a Config is refused alike on every platform.
    - Errors and text ([Errors], [Enums], [Addr]): one wrap per operation,
      errors.Is through it, injective names, families that fit.

    ** Bounds and fuel

    The walks over control messages take the buffer's length plus one as
    fuel: each turn drops at least a header.  The loops of decoders are
    structural, in a count the code has checked.  An execution of the
    lifecycle is a sequence of steps of any length; its bound is a theorem.
    The loops of a read take the length of the script plus one: each turn
    uses an entry, and [recv_safe] shows that the fuel never runs out.
    getAddrs takes four turns: its buffer grows from 4 KiB to 256 KiB; the
    query for associations 17: from 16 ids to 2^20.  A close is driven for as
    many steps as [steps_left] of [Close] counts, which its grace period
    bounds.  The wake-ups of a wait ([wakes]) and the connections an Accept
    passes over ([tries]) are arguments: a call still at it after them is
    neither a success nor a failure, and the theorems cover every number.
    An IPv6 address has eight groups, so its parser takes eight turns.
    No integer is bounded beyond its Go type.

    ** Not modelled

    Reads and sends on a connection are modelled over their own state (the
    script of [Recv], the threads of [Send]), not inside a [Host]: a close
    that runs while a read waits is an answer of the poller there.  The
    other mutexes (the receive lock of a Conn, the bindMu of a Listener and
    an Endpoint, the latch's own, ctxsync.Mutex) appear as the atomicity of
    what they guard, as [EndpointLocks], [OptionLock] and [ConnLocks] justify
    for theirs; their fairness does not.  A callback given to SyscallConn may do anything and is no thread
    of these models.  Test hooks are nil.  Every operation of the package
    that changes state has a definition; the lines of src/ outside the map
    are comments, declarations of types and imports, and doc.go.  The
    examples and the test tools have no logic of the package. *)
From Stdlib Require Import ZArith Lia Bool.
From stdpp Require Import base list option gmap strings.
From coqutil Require Import Byte Word.LittleEndianList.

Declare Scope sctp_scope.
Delimit Scope sctp_scope with sctp.
Global Open Scope Z_scope.

(** ** Outcomes of a Go call

    [Ret] is a normal return, [Err] a return with a non-nil error (the
    other results of the call are then the zero values the code returns
    beside it), and [Panic] a run-time panic: an index or a slice bound
    out of range, or an explicit [panic].  Keeping panics as values makes
    the absence of panics a theorem instead of an assumption. *)
Inductive out (E A : Type) : Type :=
| Ret (a : A)
| Err (e : E)
| Panic.
Arguments Ret {E A} a.
Arguments Err {E A} e.
Arguments Panic {E A}.

#[global] Instance out_ret {E} : MRet (out E) := fun A a => Ret a.
#[global] Instance out_bind {E} : MBind (out E) := fun A B k m =>
  match m with Ret a => k a | Err e => Err e | Panic => Panic end.

(** The call returns, with or without an error: it does not panic. *)
Definition safe {E A} (m : out E A) : Prop :=
  match m with Panic => False | _ => True end.

(** ** Byte orders, as encoding/binary has them *)
Inductive byteorder := LittleEndian | BigEndian.

Definition byteorder_eqb (a b : byteorder) : bool :=
  match a, b with
  | LittleEndian, LittleEndian | BigEndian, BigEndian => true
  | _, _ => false
  end.

#[global] Instance byteorder_eq_dec : EqDecision byteorder.
Proof. solve_decision. Defined.

Definition bytes := list byte.

(** Go's [len]. *)
Definition len {A} (l : list A) : Z := Z.of_nat (length l).

(** The [n] bytes of [b] from offset [off], fewer when [b] ends first. *)
Definition sub {A} (b : list A) (off n : Z) : list A :=
  take (Z.to_nat n) (drop (Z.to_nat off) b).

(** [b] with the bytes [v] written over it from offset [off]. *)
Definition splice {A} (b : list A) (off : Z) (v : list A) : list A :=
  take (Z.to_nat off) b ++ v ++ drop (Z.to_nat off + length v) b.

(** [uint_of o b] is the unsigned number the whole of [b] spells in order
    [o], and [bytes_of o n v] the [n] bytes that spell [v] modulo 2^(8n). *)
Definition uint_of (o : byteorder) (b : bytes) : Z :=
  match o with LittleEndian => le_combine b | BigEndian => le_combine (rev b) end.

Definition bytes_of (o : byteorder) (n : nat) (v : Z) : bytes :=
  match o with LittleEndian => le_split n v | BigEndian => rev (le_split n v) end.

(** ** Slices

    [b[lo:hi]] and [b[lo:]].  A slice expression is checked against the
    length here; the one place the code slices up to the capacity
    ([appendSendCmsgs]) models its buffer by the capacity instead. *)
Definition slice {E A} (b : list A) (lo hi : Z) : out E (list A) :=
  if (0 <=? lo) && (lo <=? hi) && (hi <=? len b)
  then Ret (sub b lo (hi - lo)) else Panic.

Definition slice_from {E A} (b : list A) (lo : Z) : out E (list A) :=
  slice b lo (len b).

(** [order.UintN(b)] of the [n] bytes at the head of [b]. *)
Definition get {E} (o : byteorder) (n : nat) (b : bytes) : out E Z :=
  if Z.of_nat n <=? len b then Ret (uint_of o (take n b)) else Panic.

(** [order.UintN(b[off:])]. *)
Definition get_at {E} (o : byteorder) (n : nat) (b : bytes) (off : Z) : out E Z :=
  s ← slice_from b off; get o n s.

(** [order.PutUintN(b[off:], v)]. *)
Definition put_at {E} (o : byteorder) (n : nat) (b : bytes) (off v : Z) : out E bytes :=
  if (0 <=? off) && (off + Z.of_nat n <=? len b)
  then Ret (splice b off (bytes_of o n v)) else Panic.

(** [copy(b[off:off+len(v)], v)]: the code always gives [copy] a
    destination of at least the source's length at these call sites. *)
Definition copy_at {E} (b : bytes) (off : Z) (v : bytes) : out E bytes :=
  if (0 <=? off) && (off + len v <=? len b) then Ret (splice b off v) else Panic.

(** [clear(b[lo:hi])]. *)
Definition zeros (n : Z) : bytes := replicate (Z.to_nat n) Byte.x00.

Definition clear_at {E} (b : bytes) (lo hi : Z) : out E bytes :=
  if (0 <=? lo) && (lo <=? hi) && (hi <=? len b)
  then Ret (splice b lo (zeros (hi - lo))) else Panic.

(** [for i := range n { x[i] = order.UintN(b[off+N*i:]) }] and its write
    side, [for i, v := range vs { order.PutUintN(b[off+N*i:], v) }]. *)
Fixpoint get_list {E} (o : byteorder) (n : nat) (b : bytes) (off : Z) (count : nat) : out E (list Z) :=
  match count with
  | O => Ret []
  | S count =>
      v ← get_at o n b off;
      vs ← get_list o n b (off + Z.of_nat n) count;
      Ret (v :: vs)
  end.

Fixpoint put_list {E} (o : byteorder) (n : nat) (b : bytes) (off : Z) (vs : list Z) : out E bytes :=
  match vs with
  | [] => Ret b
  | v :: vs => b ← put_at o n b off v; put_list o n b (off + Z.of_nat n) vs
  end.

(** ** Fixed-width integers *)
Definition u8 (v : Z) : Z := v mod 2 ^ 8.
Definition u16 (v : Z) : Z := v mod 2 ^ 16.
Definition u32 (v : Z) : Z := v mod 2 ^ 32.
Definition u64 (v : Z) : Z := v mod 2 ^ 64.

(** [int32(v)] of an unsigned 32-bit [v], two's complement. *)
Definition i32 (v : Z) : Z := let w := u32 v in if w <? 2 ^ 31 then w else w - 2 ^ 32.

Definition is_u16 (v : Z) : Prop := 0 <= v < 2 ^ 16.
Definition is_u32 (v : Z) : Prop := 0 <= v < 2 ^ 32.
Definition is_u64 (v : Z) : Prop := 0 <= v < 2 ^ 64.
Definition is_i32 (v : Z) : Prop := - 2 ^ 31 <= v < 2 ^ 31.

Definition MaxUint16 : Z := 65535.
Definition MaxInt32 : Z := 2147483647.
Definition MaxUint32 : Z := 4294967295.

(** Go's [x &^ y]. *)
Definition andnot (x y : Z) : Z := Z.ldiff x y.

(** [flags & bit != 0]. *)
Definition has_bits (flags bit : Z) : bool := negb (Z.land flags bit =? 0).

(** ** Lemmas on [len], [sub] and [splice] *)
Create HintDb sctp.
Create Rewrite HintDb sctp_len.

Lemma len_nonneg {A} (l : list A) : 0 <= len l.
Proof. unfold len. lia. Qed.

Lemma len_app {A} (l k : list A) : len (l ++ k) = len l + len k.
Proof. unfold len. rewrite length_app. lia. Qed.

Lemma len_nil {A} : len (@nil A) = 0.
Proof. done. Qed.

Lemma len_cons {A} (x : A) l : len (x :: l) = 1 + len l.
Proof. unfold len. simpl. lia. Qed.

Lemma len_zero {A} (l : list A) : len l = 0 -> l = [].
Proof. unfold len. destruct l; simpl; [done | lia]. Qed.

Lemma len_sub {A} (b : list A) off n :
  0 <= off -> 0 <= n -> off + n <= len b -> len (sub b off n) = n.
Proof. unfold len, sub. intros. rewrite length_take, length_drop. lia. Qed.

Lemma len_sub_le {A} (b : list A) off n : 0 <= n -> len (sub b off n) <= n.
Proof. unfold len, sub. intros. rewrite length_take. lia. Qed.

Lemma len_drop {A} (b : list A) (n : nat) :
  Z.of_nat n <= len b -> len (drop n b) = len b - Z.of_nat n.
Proof. unfold len. rewrite length_drop. lia. Qed.

Lemma len_zeros n : 0 <= n -> len (zeros n) = n.
Proof. unfold len, zeros. intros. rewrite length_replicate. lia. Qed.

Lemma len_splice {A} (b : list A) off v :
  0 <= off -> off + len v <= len b -> len (splice b off v) = len b.
Proof.
  unfold len, splice. intros.
  rewrite !length_app, length_take, length_drop. lia.
Qed.

Lemma sub_full {A} (b : list A) n : len b <= n -> sub b 0 n = b.
Proof. unfold sub, len. intros. rewrite drop_0. apply take_ge. lia. Qed.

Lemma sub_0 {A} (b : list A) off : sub b off 0 = [].
Proof. done. Qed.

Lemma sub_sub {A} (b : list A) o1 n1 o2 n2 :
  0 <= o1 -> 0 <= o2 -> 0 <= n2 -> o2 + n2 <= n1 ->
  sub (sub b o1 n1) o2 n2 = sub b (o1 + o2) n2.
Proof.
  unfold sub. intros. rewrite skipn_firstn_comm, firstn_firstn, drop_drop.
  rewrite Nat.min_l by lia. f_equal. f_equal. lia.
Qed.

Lemma sub_take {A} (b : list A) (k : nat) off n :
  0 <= off -> 0 <= n -> off + n <= Z.of_nat k -> sub (take k b) off n = sub b off n.
Proof.
  unfold sub. intros. rewrite skipn_firstn_comm, firstn_firstn. f_equal. lia.
Qed.

Lemma sub_drop {A} (b : list A) (k : nat) off n :
  0 <= off -> sub (drop k b) off n = sub b (Z.of_nat k + off) n.
Proof. unfold sub. intros. rewrite drop_drop. repeat f_equal. lia. Qed.

Lemma sub_app_l {A} (l k : list A) off n :
  0 <= off -> 0 <= n -> off + n <= len l -> sub (l ++ k) off n = sub l off n.
Proof.
  unfold sub, len. intros. rewrite drop_app_le by lia.
  rewrite take_app_le; [done | rewrite length_drop; lia].
Qed.

Lemma sub_app_r {A} (l k : list A) off n :
  len l <= off -> sub (l ++ k) off n = sub k (off - len l) n.
Proof.
  unfold sub, len. intros. rewrite drop_app_ge by lia. repeat f_equal. lia.
Qed.

Lemma sub_splice_same {A} (b : list A) off v :
  0 <= off -> off + len v <= len b -> sub (splice b off v) off (len v) = v.
Proof.
  unfold sub, splice, len. intros.
  rewrite drop_app_ge by (rewrite length_take; lia).
  rewrite length_take, Nat.min_l, Nat.sub_diag, drop_0 by lia.
  rewrite take_app_le by lia. apply take_ge. lia.
Qed.

Lemma sub_splice_before {A} (b : list A) off v o n :
  0 <= o -> 0 <= n -> o + n <= off -> off + len v <= len b ->
  sub (splice b off v) o n = sub b o n.
Proof.
  intros. unfold splice. rewrite sub_app_l.
  - apply sub_take; lia.
  - lia.
  - lia.
  - unfold len in *. rewrite length_take. lia.
Qed.

Lemma sub_splice_after {A} (b : list A) off v o n :
  0 <= off -> off + len v <= o -> off + len v <= len b ->
  sub (splice b off v) o n = sub b o n.
Proof.
  intros. unfold splice.
  rewrite sub_app_r by (unfold len in *; rewrite length_take; lia).
  rewrite sub_app_r by (unfold len in *; rewrite length_take; lia).
  rewrite sub_drop by (unfold len in *; rewrite length_take; lia).
  f_equal. unfold len in *. rewrite length_take. lia.
Qed.

Lemma splice_all {A} (b v : list A) : len v = len b -> splice b 0 v = v.
Proof.
  unfold splice, len. intros. simpl. rewrite drop_ge by lia. apply app_nil_r.
Qed.

Lemma sub_split {A} (b : list A) off n m :
  0 <= off -> 0 <= n -> 0 <= m -> sub b off (n + m) = sub b off n ++ sub b (off + n) m.
Proof.
  unfold sub. intros.
  rewrite Z2Nat.inj_add by lia. rewrite <- take_take_drop, drop_drop.
  do 3 f_equal. lia.
Qed.

(** ** Lemmas on byte orders *)
Lemma length_bytes_of o n v : length (bytes_of o n v) = n.
Proof. destruct o; simpl; [| rewrite length_rev]; apply length_le_split. Qed.

Lemma len_bytes_of o n v : len (bytes_of o n v) = Z.of_nat n.
Proof. unfold len. by rewrite length_bytes_of. Qed.

Lemma uint_of_bytes_of o n v : uint_of o (bytes_of o n v) = v mod 2 ^ (8 * Z.of_nat n).
Proof.
  rewrite Z.mul_comm. destruct o; simpl; [| rewrite rev_involutive]; apply le_combine_split.
Qed.

Lemma bytes_of_uint_of o b : bytes_of o (length b) (uint_of o b) = b.
Proof.
  destruct o; simpl; [apply split_le_combine |].
  rewrite <- (rev_involutive b) at 3. f_equal.
  rewrite <- (length_rev b). apply split_le_combine.
Qed.

Lemma uint_of_bound o b : 0 <= uint_of o b < 2 ^ (8 * len b).
Proof.
  unfold len. destruct o; simpl; [apply le_combine_bound |].
  rewrite <- (length_rev b). apply le_combine_bound.
Qed.

Lemma bytes_of_inj o n v w :
  0 <= v < 2 ^ (8 * Z.of_nat n) -> 0 <= w < 2 ^ (8 * Z.of_nat n) ->
  bytes_of o n v = bytes_of o n w -> v = w.
Proof.
  intros Hv Hw H. apply (f_equal (uint_of o)) in H.
  rewrite !uint_of_bytes_of, !Z.mod_small in H; done.
Qed.

(** ** Reads and writes in range *)
Lemma slice_ok {E A} (b : list A) lo hi :
  0 <= lo -> lo <= hi -> hi <= len b -> slice (E:=E) b lo hi = Ret (sub b lo (hi - lo)).
Proof.
  intros. unfold slice.
  rewrite !(proj2 (Z.leb_le _ _)) by lia. done.
Qed.

Lemma get_at_ok {E} o n b off :
  0 <= off -> off + Z.of_nat n <= len b ->
  get_at (E:=E) o n b off = Ret (uint_of o (sub b off (Z.of_nat n))).
Proof.
  intros. unfold get_at, slice_from. rewrite slice_ok by lia. simpl.
  unfold get. rewrite (proj2 (Z.leb_le _ _)) by (rewrite len_sub; lia).
  do 2 f_equal. unfold sub. rewrite firstn_firstn, Nat2Z.id.
  f_equal. unfold len in *. lia.
Qed.

Lemma get_ok {E} o n b :
  Z.of_nat n <= len b -> get (E:=E) o n b = Ret (uint_of o (sub b 0 (Z.of_nat n))).
Proof.
  intros. unfold get. rewrite (proj2 (Z.leb_le _ _)) by lia.
  unfold sub. by rewrite Nat2Z.id, drop_0.
Qed.

Lemma put_at_ok {E} o n b off v :
  0 <= off -> off + Z.of_nat n <= len b ->
  put_at (E:=E) o n b off v = Ret (splice b off (bytes_of o n v)).
Proof.
  intros. unfold put_at. rewrite !(proj2 (Z.leb_le _ _)) by lia. done.
Qed.

Lemma copy_at_ok {E} b off v :
  0 <= off -> off + len v <= len b -> copy_at (E:=E) b off v = Ret (splice b off v).
Proof.
  intros. unfold copy_at. rewrite !(proj2 (Z.leb_le _ _)) by lia. done.
Qed.

Lemma clear_at_ok {E} b lo hi :
  0 <= lo -> lo <= hi -> hi <= len b ->
  clear_at (E:=E) b lo hi = Ret (splice b lo (zeros (hi - lo))).
Proof.
  intros. unfold clear_at. rewrite !(proj2 (Z.leb_le _ _)) by lia. done.
Qed.

(** The widths the code reads: Uint16, Uint32, Uint64. *)
Lemma get2_ok {E} o b off :
  0 <= off -> off + 2 <= len b -> get_at (E:=E) o 2 b off = Ret (uint_of o (sub b off 2)).
Proof. exact (get_at_ok o 2 b off). Qed.

Lemma get4_ok {E} o b off :
  0 <= off -> off + 4 <= len b -> get_at (E:=E) o 4 b off = Ret (uint_of o (sub b off 4)).
Proof. exact (get_at_ok o 4 b off). Qed.

Lemma get8_ok {E} o b off :
  0 <= off -> off + 8 <= len b -> get_at (E:=E) o 8 b off = Ret (uint_of o (sub b off 8)).
Proof. exact (get_at_ok o 8 b off). Qed.

Lemma uint_of_2 o v : uint_of o (bytes_of o 2 v) = u16 v.
Proof. exact (uint_of_bytes_of o 2 v). Qed.

Lemma uint_of_4 o v : uint_of o (bytes_of o 4 v) = u32 v.
Proof. exact (uint_of_bytes_of o 4 v). Qed.

Lemma uint_of_8 o v : uint_of o (bytes_of o 8 v) = u64 v.
Proof. exact (uint_of_bytes_of o 8 v). Qed.

Lemma uint_of_range o b n : len b = n -> 0 <= uint_of o b < 2 ^ (8 * n).
Proof. intros <-. apply uint_of_bound. Qed.

(** ** Integers *)
Lemma i32_u32 v : is_i32 v -> i32 (u32 v) = v.
Proof.
  unfold is_i32, i32, u32. intros. rewrite Z.mod_mod by lia.
  destruct (decide (0 <= v)).
  - rewrite Z.mod_small by lia. destruct (Z.ltb_spec v (2^31)); lia.
  - replace (v mod 2 ^ 32) with (v + 2 ^ 32).
    + destruct (Z.ltb_spec (v + 2^32) (2^31)); lia.
    + rewrite <- (Z.mod_add v 1) by lia. rewrite Z.mod_small; lia.
Qed.

Lemma i32_range v : is_i32 (i32 v).
Proof.
  unfold is_i32, i32, u32. pose proof (Z.mod_pos_bound v (2^32)) as H.
  destruct (Z.ltb_spec (v mod 2^32) (2^31)); lia.
Qed.

Lemma u32_small v : is_u32 v -> u32 v = v.
Proof. unfold is_u32, u32. intros. by apply Z.mod_small. Qed.

Lemma has_bits_lor a b c : has_bits (Z.lor a b) c = has_bits a c || has_bits b c.
Proof.
  unfold has_bits. rewrite Z.land_lor_distr_l.
  destruct (Z.eqb_spec (Z.lor (Z.land a c) (Z.land b c)) 0) as [H | H].
  - apply Z.lor_eq_0_iff in H as [-> ->]. done.
  - destruct (Z.eqb_spec (Z.land a c) 0) as [Ha | Ha], (Z.eqb_spec (Z.land b c) 0) as [Hb | Hb];
      try done. rewrite Ha, Hb in H. done.
Qed.

Lemma has_bits_u32 a c : 0 <= c < 2 ^ 32 -> has_bits (u32 a) c = has_bits a c.
Proof.
  intros Hc. unfold has_bits, u32. do 2 f_equal. rewrite <- Z.land_ones by lia.
  rewrite <- Z.land_assoc. f_equal. rewrite Z.land_comm, Z.land_ones by lia.
  by apply Z.mod_small.
Qed.

Lemma u16_small v : is_u16 v -> u16 v = v.
Proof. unfold is_u16, u16. intros. by apply Z.mod_small. Qed.

(** ** Outcomes *)
Lemma safe_bind {E A B} (m : out E A) (k : A -> out E B) :
  safe m -> (forall a, m = Ret a -> safe (k a)) -> safe (m ≫= k).
Proof. destruct m; simpl; auto. Qed.

Lemma bind_Ret_inv {E A B} (m : out E A) (k : A -> out E B) b :
  m ≫= k = Ret b -> exists a, m = Ret a /\ k a = Ret b.
Proof. destruct m; simpl; [eauto | done | done]. Qed.

(** [next] runs the continuation of a call that returned. *)
Ltac next := cbn [mbind out_bind mret out_ret].

(** ** The width of what is read *)
Lemma get_at_width {E} o n b off v : get_at (E:=E) o n b off = Ret v -> 0 <= v < 2 ^ (8 * Z.of_nat n).
Proof.
  intros (t & _ & H)%bind_Ret_inv. unfold get in H. destruct (Z.leb_spec (Z.of_nat n) (len t)) as [Hl |]; [| done]. injection H as <-.
  pose proof (uint_of_bound o (take n t)) as Hb. unfold len in *. rewrite length_take in Hb. by replace (Z.of_nat (n `min` length t)) with (Z.of_nat n) in Hb by lia.
Qed.

Lemma get_list_width {E} o n b off count vs :
  get_list (E:=E) o n b off count = Ret vs -> Forall (fun v => 0 <= v < 2 ^ (8 * Z.of_nat n)) vs.
Proof.
  revert off vs. induction count as [| count IH]; intros off vs; cbn [get_list]; [by intros [= <-] |].
  intros (v & Hv%get_at_width & (l & Hl & [= <-])%bind_Ret_inv)%bind_Ret_inv. eauto.
Qed.

(** ** Adjacent writes

    The code writes a struct's fields at increasing, adjacent offsets: each
    write extends the written part [l] and consumes the rest [r]. *)
Lemma splice_at {A} (l r v : list A) off :
  off = len l -> splice (l ++ r) off v = (l ++ v) ++ drop (length v) r.
Proof.
  intros ->. unfold splice, len. rewrite Nat2Z.id.
  rewrite take_app_le, take_ge by lia. rewrite drop_app_ge by lia.
  rewrite app_assoc. do 2 f_equal. lia.
Qed.

Lemma put_at_app {E} o n (l r : bytes) off v :
  off = len l -> Z.of_nat n <= len r ->
  put_at (E:=E) o n (l ++ r) off v = Ret ((l ++ bytes_of o n v) ++ drop n r).
Proof.
  intros -> H. rewrite put_at_ok by (rewrite ?len_app; pose proof (len_nonneg l); lia).
  by rewrite splice_at, length_bytes_of.
Qed.

Lemma copy_at_app {E} (l r v : bytes) off :
  off = len l -> len v <= len r ->
  copy_at (E:=E) (l ++ r) off v = Ret ((l ++ v) ++ drop (length v) r).
Proof.
  intros -> H. rewrite copy_at_ok by (rewrite ?len_app; pose proof (len_nonneg l); lia).
  by rewrite splice_at.
Qed.

Lemma clear_at_app {E} (l r : bytes) lo hi :
  lo = len l -> lo <= hi -> hi - lo <= len r ->
  clear_at (E:=E) (l ++ r) lo hi = Ret ((l ++ zeros (hi - lo)) ++ drop (Z.to_nat (hi - lo)) r).
Proof.
  intros -> H1 H2. rewrite clear_at_ok by (rewrite ?len_app; pose proof (len_nonneg l); lia).
  rewrite splice_at by done. unfold zeros at 2. by rewrite length_replicate.
Qed.

Lemma sub_whole {A} (v : list A) off n : off = 0 -> n = len v -> sub v off n = v.
Proof. intros -> ->. by apply sub_full. Qed.

Lemma len_drop_Z {A} (b : list A) (n : nat) : len (drop n b) = Z.max 0 (len b - Z.of_nat n).
Proof. unfold len. rewrite length_drop. lia. Qed.

Lemma len_take {A} (b : list A) (n : nat) : len (take n b) = Z.min (Z.of_nat n) (len b).
Proof. unfold len. rewrite length_take. lia. Qed.

Lemma len_length {A} (b : list A) n : len b = Z.of_nat n -> length b = n.
Proof. unfold len. lia. Qed.

Lemma of_nat_length {A} (b : list A) : Z.of_nat (length b) = len b.
Proof. done. Qed.

#[export] Hint Resolve len_nonneg : sctp.
#[export] Hint Rewrite @len_app @len_nil @len_cons len_bytes_of @len_drop_Z @len_take @of_nat_length : sctp_len.

Arguments len {A} l : simpl never.
Arguments sub {A} b off n : simpl never.
Arguments splice {A} b off v : simpl never.
Arguments bytes_of o n v : simpl never.
Arguments uint_of o b : simpl never.
Arguments zeros n : simpl never.

(** ** Writes at scattered offsets

    What a write leaves: the length, the field it wrote, and every part of
    the buffer that does not overlap the field. *)
Definition frame {A} (b b' : list A) (off n : Z) : Prop :=
  len b' = len b /\
  forall x m, 0 <= x -> 0 <= m -> x + m <= off \/ off + n <= x -> sub b' x m = sub b x m.

Lemma frame_refl {A} (b : list A) off n : frame b b off n.
Proof. by split. Qed.

Lemma splice_frame {A} (b v : list A) off n :
  0 <= off -> len v <= n -> off + len v <= len b -> frame b (splice b off v) off n.
Proof.
  intros. split; [by apply len_splice |]. intros x m Hx Hm [Hd | Hd].
  - apply sub_splice_before; lia.
  - apply sub_splice_after; lia.
Qed.

Lemma put_at_frame {E} o n b off v :
  0 <= off -> off + Z.of_nat n <= len b ->
  exists b', put_at (E:=E) o n b off v = Ret b' /\ frame b b' off (Z.of_nat n) /\
             uint_of o (sub b' off (Z.of_nat n)) = v mod 2 ^ (8 * Z.of_nat n).
Proof.
  intros H0 Hl. rewrite put_at_ok by done. eexists. split; [done |].
  split; [apply splice_frame; rewrite ?len_bytes_of; lia |].
  rewrite <- (len_bytes_of o n v) at 1. rewrite sub_splice_same by (rewrite ?len_bytes_of; lia).
  apply uint_of_bytes_of.
Qed.

Lemma le_combine_zeros k : le_combine (replicate k Byte.x00) = 0.
Proof.
  induction k as [| k IH]; [done |].
  change (Z.lor (byte.unsigned Byte.x00) (Z.shiftl (le_combine (replicate k Byte.x00)) 8) = 0).
  by rewrite IH.
Qed.

Lemma uint_of_zeros o n : uint_of o (zeros n) = 0.
Proof.
  unfold uint_of, zeros. destruct o; [apply le_combine_zeros |].
  rewrite rev_alt. change (rev_append (replicate (Z.to_nat n) Byte.x00) []) with
    (reverse (replicate (Z.to_nat n) Byte.x00)).
  rewrite reverse_replicate. apply le_combine_zeros.
Qed.

Lemma sub_zeros off m n : 0 <= off -> 0 <= m -> off + m <= n -> sub (zeros n) off m = zeros m.
Proof.
  intros. unfold sub, zeros. rewrite drop_replicate, take_replicate. f_equal. lia.
Qed.

(** ** Writes into a cleared area *)
Lemma zeros_add a b : 0 <= a -> 0 <= b -> zeros (a + b) = zeros a ++ zeros b.
Proof.
  intros. unfold zeros. rewrite Z2Nat.inj_add by lia. apply replicate_add.
Qed.

Lemma drop_zeros (n : nat) k r :
  Z.of_nat n <= k -> drop n (zeros k ++ r) = zeros (k - Z.of_nat n) ++ r.
Proof.
  intros. unfold zeros. rewrite drop_app_le by (rewrite length_replicate; lia).
  rewrite drop_replicate. do 2 f_equal. lia.
Qed.

Lemma put_at_zeros {E} o n (l r : bytes) off k v :
  off = len l -> Z.of_nat n <= k ->
  put_at (E:=E) o n (l ++ zeros k ++ r) off v =
  Ret ((l ++ bytes_of o n v) ++ zeros (k - Z.of_nat n) ++ r).
Proof.
  intros Ho Hk. rewrite put_at_app; [| done |].
  - by rewrite drop_zeros.
  - rewrite len_app, len_zeros by lia. pose proof (len_nonneg r). lia.
Qed.

(** ** Lists of numbers *)
Definition bytes_of_list (o : byteorder) (n : nat) (vs : list Z) : bytes :=
  concat (map (bytes_of o n) vs).

Lemma len_bytes_of_list o n vs : len (bytes_of_list o n vs) = Z.of_nat n * len vs.
Proof.
  induction vs as [| v vs IH]; [unfold bytes_of_list, len; simpl; lia |].
  unfold bytes_of_list in *. simpl. rewrite len_app, IH, len_bytes_of, len_cons. lia.
Qed.

Lemma put_list_app {E} o n (vs : list Z) : forall (l r : bytes) off,
  off = len l -> Z.of_nat n * len vs <= len r ->
  put_list (E:=E) o n (l ++ r) off vs =
  Ret ((l ++ bytes_of_list o n vs) ++ drop (n * length vs) r).
Proof.
  induction vs as [| v vs IH]; intros l r off Hoff Hr; simpl.
  { unfold bytes_of_list. simpl. by rewrite Nat.mul_0_r, drop_0, app_nil_r. }
  rewrite len_cons in Hr. pose proof (len_nonneg vs).
  rewrite put_at_app by (first [done | nia]). next.
  rewrite IH by (rewrite ?len_app, ?len_bytes_of, ?len_drop_Z; nia).
  unfold bytes_of_list. simpl. rewrite drop_drop, <- !app_assoc.
  replace (n * S (length vs))%nat with (n + n * length vs)%nat by lia. done.
Qed.

Lemma get_list_ok {E} o n count : forall b off,
  0 <= off -> off + Z.of_nat n * Z.of_nat count <= len b ->
  exists vs, get_list (E:=E) o n b off count = Ret vs /\ length vs = count /\
    Forall (fun v => 0 <= v < 2 ^ (8 * Z.of_nat n)) vs.
Proof.
  induction count as [| count IH]; intros b off H0 Hl; simpl; [exists []; auto |].
  rewrite get_at_ok by lia. next. destruct (IH b (off + Z.of_nat n)) as (vs & -> & Hn & Hf); [lia | lia |].
  next. eexists. split; [done |]. simpl. split; [lia |].
  constructor; [| done]. apply uint_of_range. apply len_sub; lia.
Qed.

Lemma get_list_encoded {E} o n vs : forall (l r : bytes) off,
  off = len l -> Forall (fun v => 0 <= v < 2 ^ (8 * Z.of_nat n)) vs ->
  get_list (E:=E) o n (l ++ bytes_of_list o n vs ++ r) off (length vs) = Ret vs.
Proof.
  induction vs as [| v vs IH]; intros l r off Hoff Hf; simpl; [done |].
  inversion_clear Hf as [| ? ? Hv Hvs]. unfold bytes_of_list. simpl. rewrite <- app_assoc.
  pose proof (len_nonneg l). pose proof (len_nonneg r).
  pose proof (len_nonneg (concat (map (bytes_of o n) vs))).
  rewrite get_at_ok by (rewrite ?len_app, ?len_bytes_of; lia). next.
  rewrite sub_app_r, sub_app_l, sub_whole by (rewrite ?len_bytes_of; lia).
  specialize (IH (l ++ bytes_of o n v) r (off + Z.of_nat n)). rewrite <- app_assoc in IH.
  unfold bytes_of_list in IH. rewrite IH by (rewrite ?len_app, ?len_bytes_of; auto; lia).
  next. by rewrite uint_of_bytes_of, Z.mod_small.
Qed.

(** [solve_len] decides the bounds of slices once the constants are numbers. *)
Ltac solve_len :=
  autorewrite with sctp_len in *; rewrite ?len_zeros in * by lia;
  repeat match goal with
         | |- context [len ?l] => lazymatch goal with
                                  | _ : 0 <= len l |- _ => fail
                                  | _ => pose proof (len_nonneg l)
                                  end
         end; lia.

(** [read_field] finds the field at a constant offset of a concatenation. *)
Ltac read_field :=
  repeat first [ rewrite sub_app_l by solve_len
               | rewrite sub_app_r by solve_len ];
  rewrite ?sub_whole by solve_len.
