(* ===== verification/Abi.v ===== *)
(** * Kernel numbers and struct layouts (src/abi.go)

    Every constant of abi.go under its own name, in the file's order: the
    ones that do not depend on the target first, then the ones that follow
    the word size.  The target is the class [Arch]: [wordSize]
    (bits.UintSize / 8), [u64Align] (the abi_u64align_*.go pair) and the
    host byte order behind binary.NativeEndian; [ArchOk] lists the
    combinations Go and Linux SCTP support.

    abi.go states each C struct in a comment (field names with their sizes)
    and then pins the offsets as constants.  The descriptors [struct_*]
    translate those comments, and [abi_layout] proves that every pinned
    offset and size is what the C layout rules give on every target. *)
From Stdlib Require Import ZArith Lia.
From stdpp Require Import base list.
From S2P Require Import Prelude.

(** ** The target *)
Class Arch := {
  wordSize : Z;
  u64Align : Z;
  NativeEndian : byteorder;
}.

Class ArchOk (A : Arch) : Prop := {
  wordSize_cases : wordSize = 4 \/ wordSize = 8;
  u64Align_cases : u64Align = 8 \/ (u64Align = 4 /\ wordSize = 4);
}.

Definition amd64 : Arch := {| wordSize := 8; u64Align := 8; NativeEndian := LittleEndian |}.
Definition i386 : Arch := {| wordSize := 4; u64Align := 4; NativeEndian := LittleEndian |}.
Definition arm : Arch := {| wordSize := 4; u64Align := 8; NativeEndian := LittleEndian |}.
Definition s390x : Arch := {| wordSize := 8; u64Align := 8; NativeEndian := BigEndian |}.

#[export] Instance amd64_ok : ArchOk amd64.
Proof. split; simpl; lia. Qed.
#[export] Instance i386_ok : ArchOk i386.
Proof. split; simpl; lia. Qed.
#[export] Instance arm_ok : ArchOk arm.
Proof. split; simpl; lia. Qed.
#[export] Instance s390x_ok : ArchOk s390x.
Proof. split; simpl; lia. Qed.

(** ** Constants that do not depend on the target *)
Definition afInet : Z := 2.
Definition afInet6 : Z := 10.
Definition ipprotoSCTP : Z := 132.
Definition assocScopeFuture : Z := 0.
Definition assocScopeCurrent : Z := 1.
Definition assocScopeAll : Z := 2.
Definition optRTOInfo : Z := 0.
Definition optAssocInfo : Z := 1.
Definition optInitMsg : Z := 2.
Definition optNoDelay : Z := 3.
Definition optAutoClose : Z := 4.
Definition optSetPeerPrimaryAddr : Z := 5.
Definition optPrimaryAddr : Z := 6.
Definition optAdaptationLayer : Z := 7.
Definition optDisableFragments : Z := 8.
Definition optPeerAddrParams : Z := 9.
Definition optWantMappedV4Addr : Z := 12.
Definition optMaxSeg : Z := 13.
Definition optStatus : Z := 14.
Definition optGetPeerAddrInfo : Z := 15.
Definition optDelayedAckTime : Z := 16.
Definition optContext : Z := 17.
Definition optFragmentInterleave : Z := 18.
Definition optPartialDeliveryPoint : Z := 19.
Definition optMaxBurst : Z := 20.
Definition optAuthChunk : Z := 21.
Definition optHMACIdent : Z := 22.
Definition optAuthKey : Z := 23.
Definition optAuthActiveKey : Z := 24.
Definition optAuthDeleteKey : Z := 25.
Definition optPeerAuthChunks : Z := 26.
Definition optLocalAuthChunks : Z := 27.
Definition optGetAssocNumber : Z := 28.
Definition optGetAssocIDList : Z := 29.
Definition optAutoAsconf : Z := 30.
Definition optRecvRcvInfo : Z := 32.
Definition optRecvNxtInfo : Z := 33.
Definition optDefaultSndInfo : Z := 34.
Definition optAuthDeactivateKey : Z := 35.
Definition optReusePort : Z := 36.
Definition optPathThresholds : Z := 37.
Definition optPathThresholdsProbe : Z := 31.
Definition optSockoptBindxAdd : Z := 100.
Definition optSockoptBindxRemove : Z := 101.
Definition optGetPeerAddrs : Z := 108.
Definition optGetLocalAddrs : Z := 109.
Definition optSockoptConnectx3 : Z := 111.
Definition optGetAssocStats : Z := 112.
Definition optPRSupported : Z := 113.
Definition optDefaultPRInfo : Z := 114.
Definition optPRAssocStatus : Z := 115.
Definition optPRStreamStatus : Z := 116.
Definition optReconfigSupported : Z := 117.
Definition optEnableStreamReset : Z := 118.
Definition optResetStreams : Z := 119.
Definition optResetAssoc : Z := 120.
Definition optAddStreams : Z := 121.
Definition optSockoptPeeloffFlags : Z := 122.
Definition optStreamScheduler : Z := 123.
Definition optStreamSchedulerValue : Z := 124.
Definition optInterleavingSupported : Z := 125.
Definition optEvent : Z := 127.
Definition optASCONFSupported : Z := 128.
Definition optAuthSupported : Z := 129.
Definition optECNSupported : Z := 130.
Definition optExposePotentiallyFailedState : Z := 131.
Definition optRemoteUDPEncapsPort : Z := 132.
Definition optPLPMTUDProbeInterval : Z := 133.
Definition cmsgSndInfo : Z := 2.
Definition cmsgRcvInfo : Z := 3.
Definition cmsgNxtInfo : Z := 4.
Definition cmsgPrInfo : Z := 5.
Definition cmsgAuthInfo : Z := 6.
Definition sndFlagUnordered : Z := Z.shiftl 1 0.
Definition sndFlagAddrOver : Z := Z.shiftl 1 1.
Definition sndFlagAbort : Z := Z.shiftl 1 2.
Definition sndFlagSackImmediately : Z := Z.shiftl 1 3.
Definition sndFlagPRAll : Z := Z.shiftl 1 7.
Definition msgNotification : Z := 0x8000.
Definition sndFlagEOF : Z := 0x200.
Definition msgCtrunc : Z := 0x08.
Definition msgEOR : Z := 0x80.
Definition prPolicyMask : Z := 0x0030.
Definition sizeSockaddrIn : Z := 16.
Definition sockaddrInFamilyOff : Z := 0.
Definition sockaddrInPortOff : Z := 2.
Definition sockaddrInAddrOff : Z := 4.
Definition sizeSockaddrIn6 : Z := 28.
Definition sockaddrIn6FamilyOff : Z := 0.
Definition sockaddrIn6PortOff : Z := 2.
Definition sockaddrIn6FlowInfoOff : Z := 4.
Definition sockaddrIn6AddrOff : Z := 8.
Definition sockaddrIn6ScopeIDOff : Z := 24.
Definition sizeSockaddrStorage : Z := 128.
Definition cmsghdrLenOff : Z := 0.
Definition sizeSndInfo : Z := 16.
Definition sndInfoStreamOff : Z := 0.
Definition sndInfoFlagsOff : Z := 2.
Definition sndInfoPPIDOff : Z := 4.
Definition sndInfoContextOff : Z := 8.
Definition sndInfoAssocIDOff : Z := 12.
Definition sizePrInfo : Z := 8.
Definition prInfoPolicyOff : Z := 0.
Definition prInfoValueOff : Z := 4.
Definition sizeAuthInfo : Z := 2.
Definition authInfoKeyNumberOff : Z := 0.
Definition sizeRcvInfo : Z := 28.
Definition rcvInfoStreamOff : Z := 0.
Definition rcvInfoSSNOff : Z := 2.
Definition rcvInfoFlagsOff : Z := 4.
Definition rcvInfoPPIDOff : Z := 8.
Definition rcvInfoTSNOff : Z := 12.
Definition rcvInfoCumTSNOff : Z := 16.
Definition rcvInfoContextOff : Z := 20.
Definition rcvInfoAssocIDOff : Z := 24.
Definition sizeNxtInfo : Z := 16.
Definition nxtInfoStreamOff : Z := 0.
Definition nxtInfoFlagsOff : Z := 2.
Definition nxtInfoPPIDOff : Z := 4.
Definition nxtInfoLengthOff : Z := 8.
Definition nxtInfoAssocIDOff : Z := 12.
Definition notificationHeaderSize : Z := 8.
Definition notificationTypeOff : Z := 0.
Definition notificationFlagsOff : Z := 2.
Definition notificationLengthOff : Z := 4.
Definition sizeAssocChange : Z := 20.
Definition assocChangeTypeOff : Z := 0.
Definition assocChangeFlagsOff : Z := 2.
Definition assocChangeLengthOff : Z := 4.
Definition assocChangeStateOff : Z := 8.
Definition assocChangeErrorOff : Z := 10.
Definition assocChangeOutStreamsOff : Z := 12.
Definition assocChangeInStreamsOff : Z := 14.
Definition assocChangeAssocIDOff : Z := 16.
Definition assocChangeInfoOff : Z := 20.
Definition sizePAddrChange : Z := 148.
Definition paddrChangeTypeOff : Z := 0.
Definition paddrChangeFlagsOff : Z := 2.
Definition paddrChangeLengthOff : Z := 4.
Definition paddrChangeAddrOff : Z := 8.
Definition paddrChangeStateOff : Z := 136.
Definition paddrChangeErrorOff : Z := 140.
Definition paddrChangeAssocIDOff : Z := 144.
Definition sizeRemoteError : Z := 16.
Definition remoteErrorTypeOff : Z := 0.
Definition remoteErrorFlagsOff : Z := 2.
Definition remoteErrorLengthOff : Z := 4.
Definition remoteErrorErrorOff : Z := 8.
Definition remoteErrorAssocIDOff : Z := 12.
Definition remoteErrorDataOff : Z := 16.
Definition sizeShutdownEvent : Z := 12.
Definition shutdownEventTypeOff : Z := 0.
Definition shutdownEventFlagsOff : Z := 2.
Definition shutdownEventLengthOff : Z := 4.
Definition shutdownEventAssocIDOff : Z := 8.
Definition sizeAdaptationEvent : Z := 16.
Definition adaptationEventTypeOff : Z := 0.
Definition adaptationEventFlagsOff : Z := 2.
Definition adaptationEventLengthOff : Z := 4.
Definition adaptationEventIndicationOff : Z := 8.
Definition adaptationEventAssocIDOff : Z := 12.
Definition sizePDAPIEvent : Z := 24.
Definition pdapiEventTypeOff : Z := 0.
Definition pdapiEventFlagsOff : Z := 2.
Definition pdapiEventLengthOff : Z := 4.
Definition pdapiEventIndicationOff : Z := 8.
Definition pdapiEventAssocIDOff : Z := 12.
Definition pdapiEventStreamOff : Z := 16.
Definition pdapiEventSeqOff : Z := 20.
Definition sizeAuthKeyEvent : Z := 20.
Definition authKeyEventTypeOff : Z := 0.
Definition authKeyEventFlagsOff : Z := 2.
Definition authKeyEventLengthOff : Z := 4.
Definition authKeyEventKeyNumberOff : Z := 8.
Definition authKeyEventAltKeyNumberOff : Z := 10.
Definition authKeyEventIndicationOff : Z := 12.
Definition authKeyEventAssocIDOff : Z := 16.
Definition sizeSenderDryEvent : Z := 12.
Definition senderDryEventTypeOff : Z := 0.
Definition senderDryEventFlagsOff : Z := 2.
Definition senderDryEventLengthOff : Z := 4.
Definition senderDryEventAssocIDOff : Z := 8.
Definition sizeStreamResetEvent : Z := 12.
Definition streamResetEventTypeOff : Z := 0.
Definition streamResetEventFlagsOff : Z := 2.
Definition streamResetEventLengthOff : Z := 4.
Definition streamResetEventAssocIDOff : Z := 8.
Definition streamResetEventStreamsOff : Z := 12.
Definition sizeAssocResetEvent : Z := 20.
Definition assocResetEventTypeOff : Z := 0.
Definition assocResetEventFlagsOff : Z := 2.
Definition assocResetEventLengthOff : Z := 4.
Definition assocResetEventAssocIDOff : Z := 8.
Definition assocResetEventLocalTSNOff : Z := 12.
Definition assocResetEventRemoteTSNOff : Z := 16.
Definition sizeStreamChangeEvent : Z := 16.
Definition streamChangeEventTypeOff : Z := 0.
Definition streamChangeEventFlagsOff : Z := 2.
Definition streamChangeEventLengthOff : Z := 4.
Definition streamChangeEventAssocIDOff : Z := 8.
Definition streamChangeEventInStreamsOff : Z := 12.
Definition streamChangeEventOutStreamsOff : Z := 14.
Definition sizeSendFailedEvent : Z := 32.
Definition sendFailedEventTypeOff : Z := 0.
Definition sendFailedEventFlagsOff : Z := 2.
Definition sendFailedEventLengthOff : Z := 4.
Definition sendFailedEventErrorOff : Z := 8.
Definition sendFailedEventInfoOff : Z := 12.
Definition sendFailedEventAssocIDOff : Z := 28.
Definition sendFailedEventDataOff : Z := 32.
Definition pdapiFlagUnordered : Z := 0x1.
Definition sendFailedFlagSent : Z := 1.
Definition streamResetFlagIncoming : Z := 0x0001.
Definition streamResetFlagOutgoing : Z := 0x0002.
Definition streamResetFlagDenied : Z := 0x0004.
Definition streamResetFlagFailed : Z := 0x0008.
Definition assocResetFlagDenied : Z := 0x0004.
Definition assocResetFlagFailed : Z := 0x0008.
Definition streamChangeFlagDenied : Z := 0x0004.
Definition streamChangeFlagFailed : Z := 0x0008.
Definition dataChunkFlagLastFragment : Z := 0x01.
Definition dataChunkFlagFirstFragment : Z := 0x02.
Definition dataChunkFlagUnordered : Z := 0x04.
Definition sizeInitMsg : Z := 8.
Definition initMsgOutStreamsOff : Z := 0.
Definition initMsgMaxInStreamsOff : Z := 2.
Definition initMsgMaxAttemptsOff : Z := 4.
Definition initMsgMaxInitTimeoOff : Z := 6.
Definition sizeRTOInfo : Z := 16.
Definition rtoInfoAssocIDOff : Z := 0.
Definition rtoInfoInitialOff : Z := 4.
Definition rtoInfoMaxOff : Z := 8.
Definition rtoInfoMinOff : Z := 12.
Definition sizeAssocInfo : Z := 20.
Definition assocInfoAssocIDOff : Z := 0.
Definition assocInfoMaxRetransOff : Z := 4.
Definition assocInfoPeerDestinationsOff : Z := 6.
Definition assocInfoPeerRwndOff : Z := 8.
Definition assocInfoLocalRwndOff : Z := 12.
Definition assocInfoCookieLifeOff : Z := 16.
Definition sizeDelayedSACK : Z := 12.
Definition delayedSACKAssocIDOff : Z := 0.
Definition delayedSACKDelayOff : Z := 4.
Definition delayedSACKFrequencyOff : Z := 8.
Definition sizePathParams : Z := 156.
Definition pathParamsAssocIDOff : Z := 0.
Definition pathParamsAddressOff : Z := 4.
Definition pathParamsHBIntervalOff : Z := 132.
Definition pathParamsPathMaxRxtOff : Z := 136.
Definition pathParamsPathMTUOff : Z := 138.
Definition pathParamsSackDelayOff : Z := 142.
Definition pathParamsFlagsOff : Z := 146.
Definition pathParamsFlowLabelOff : Z := 150.
Definition pathParamsDSCPOff : Z := 154.
Definition sizePathInfo : Z := 152.
Definition pathInfoAssocIDOff : Z := 0.
Definition pathInfoAddressOff : Z := 4.
Definition pathInfoStateOff : Z := 132.
Definition pathInfoCwndOff : Z := 136.
Definition pathInfoSRTTOff : Z := 140.
Definition pathInfoRTOOff : Z := 144.
Definition pathInfoMTUOff : Z := 148.
Definition sizeStatus : Z := 176.
Definition statusAssocIDOff : Z := 0.
Definition statusStateOff : Z := 4.
Definition statusRWNDOff : Z := 8.
Definition statusUnackedOff : Z := 12.
Definition statusPendingOff : Z := 14.
Definition statusInStreamsOff : Z := 16.
Definition statusOutStreamsOff : Z := 18.
Definition statusFragmentationPointOff : Z := 20.
Definition statusPrimaryOff : Z := 24.
Definition sizePRStatus : Z := 24.
Definition prStatusAssocIDOff : Z := 0.
Definition prStatusStreamOff : Z := 4.
Definition prStatusPolicyOff : Z := 6.
Definition prStatusAbandonedUnsentOff : Z := 8.
Definition prStatusAbandonedSentOff : Z := 16.
Definition sizeDefaultPRInfo : Z := 12.
Definition defaultPRInfoAssocIDOff : Z := 0.
Definition defaultPRInfoValueOff : Z := 4.
Definition defaultPRInfoPolicyOff : Z := 8.
Definition sizeAuthKey : Z := 8.
Definition authKeyAssocIDOff : Z := 0.
Definition authKeyKeyNumberOff : Z := 4.
Definition authKeyKeyLengthOff : Z := 6.
Definition authKeyKeyOff : Z := 8.
Definition sizeAuthKeyID : Z := 8.
Definition authKeyIDAssocIDOff : Z := 0.
Definition authKeyIDKeyNumberOff : Z := 4.
Definition sizeHMACAlgo : Z := 4.
Definition hmacAlgoNumIdentsOff : Z := 0.
Definition hmacAlgoIdentsOff : Z := 4.
Definition sizeAuthChunks : Z := 8.
Definition authChunksAssocIDOff : Z := 0.
Definition authChunksNumChunksOff : Z := 4.
Definition authChunksChunksOff : Z := 8.
Definition sizeAssocIDs : Z := 4.
Definition assocIDsNumIDsOff : Z := 0.
Definition assocIDsIDsOff : Z := 4.
Definition sizeGetAddrs : Z := 8.
Definition getAddrsAssocIDOff : Z := 0.
Definition getAddrsAddrNumOff : Z := 4.
Definition getAddrsAddrsOff : Z := 8.
Definition sizeResetStreams : Z := 8.
Definition resetStreamsAssocIDOff : Z := 0.
Definition resetStreamsFlagsOff : Z := 4.
Definition resetStreamsNumStreamsOff : Z := 6.
Definition resetStreamsStreamListOff : Z := 8.
Definition sizeAddStreams : Z := 8.
Definition addStreamsAssocIDOff : Z := 0.
Definition addStreamsInStreamsOff : Z := 4.
Definition addStreamsOutStreamsOff : Z := 6.
Definition sizeStreamValue : Z := 8.
Definition streamValueAssocIDOff : Z := 0.
Definition streamValueStreamIDOff : Z := 4.
Definition streamValueValueOff : Z := 6.
Definition sizeEvent : Z := 8.
Definition eventAssocIDOff : Z := 0.
Definition eventTypeFieldOff : Z := 4.
Definition eventOnOff : Z := 6.
Definition sizeAssocValue : Z := 8.
Definition assocValueAssocIDOff : Z := 0.
Definition assocValueValueOff : Z := 4.
Definition sizePeeloffFlagsArg : Z := 12.
Definition peeloffFlagsArgAssocIDOff : Z := 0.
Definition peeloffFlagsArgSDOff : Z := 4.
Definition peeloffFlagsArgFlagsOff : Z := 8.
Definition sizePrim : Z := 132.
Definition primAssocIDOff : Z := 0.
Definition primAddrOff : Z := 4.
Definition sizeSetPeerPrim : Z := 132.
Definition setPeerPrimAssocIDOff : Z := 0.
Definition setPeerPrimAddrOff : Z := 4.
Definition sizeAuthChunk : Z := 1.
Definition sizeSetAdaptation : Z := 4.
Definition sizeInt : Z := 4.
Definition sizeAssocID : Z := 4.
Definition sppHBEnable : Z := Z.shiftl 1 0.
Definition sppHBDisable : Z := Z.shiftl 1 1.
Definition sppHBDemand : Z := Z.shiftl 1 2.
Definition sppPMTUDEnable : Z := Z.shiftl 1 3.
Definition sppPMTUDDisable : Z := Z.shiftl 1 4.
Definition sppSACKDelayEnable : Z := Z.shiftl 1 5.
Definition sppSACKDelayDisable : Z := Z.shiftl 1 6.
Definition sppHBTimeIsZero : Z := Z.shiftl 1 7.
Definition sppIPv6FlowLabel : Z := Z.shiftl 1 8.
Definition sppDSCP : Z := Z.shiftl 1 9.
Definition flowLabelMask : Z := 0xfffff.
Definition dscpMask : Z := 0xfc.
Definition minPathMTU : Z := 512.
Definition maxSACKDelayMS : Z := 500.
Definition minProbeIntervalMS : Z := 5000.
Definition maxHMACIdents : Z := 16.
Definition maxAuthChunkList : Z := 256.
Definition ssAddrOffsetKernel64 : Z := andnot (4 + 8 - 1) (8 - 1).
Definition ssTailOffsetKernel64 : Z := ssAddrOffsetKernel64 + sizeSockaddrStorage.
Definition udpEncapsAssocIDOff : Z := 0.
Definition udpEncapsAddressOffKernel64 : Z := ssAddrOffsetKernel64.
Definition sizeUDPEncapsKernel64 : Z := andnot (ssTailOffsetKernel64 + 2 + 8 - 1) (8 - 1).
Definition probeIntervalAssocIDOff : Z := 0.
Definition probeIntervalAddressOffKernel64 : Z := ssAddrOffsetKernel64.
Definition sizeProbeIntervalKernel64 : Z := andnot (ssTailOffsetKernel64 + 4 + 8 - 1) (8 - 1).
Definition pathThresholdsAssocIDOff : Z := 0.
Definition pathThresholdsAddressOffKernel64 : Z := ssAddrOffsetKernel64.
Definition sizePathThresholdsKernel64 : Z := andnot (ssTailOffsetKernel64 + 6 + 8 - 1) (8 - 1).
Definition assocStatsAssocIDOff : Z := 0.
Definition assocStatsAddrOffKernel64 : Z := ssAddrOffsetKernel64.
Definition sizeAssocStatsHeaderKernel64 : Z := andnot (ssTailOffsetKernel64 + 8 - 1) (8 - 1).
Definition sizeAssocStatsKernel64 : Z := sizeAssocStatsHeaderKernel64 + 15 * 8.
Definition udpEncapsPortOffKernel64 : Z := ssTailOffsetKernel64.
Definition probeIntervalIntervalOffKernel64 : Z := ssTailOffsetKernel64.
Definition pathThresholdsMaxRxtOffKernel64 : Z := ssTailOffsetKernel64.
Definition pathThresholdsPFThresholdOffKernel64 : Z := ssTailOffsetKernel64 + 2.
Definition pathThresholdsSwitchoverOffKernel64 : Z := ssTailOffsetKernel64 + 4.
Definition assocStatsMaxRTO : Z := 0.
Definition assocStatsISACKs : Z := 1.
Definition assocStatsOSACKs : Z := 2.
Definition assocStatsOPackets : Z := 3.
Definition assocStatsIPackets : Z := 4.
Definition assocStatsRtxChunks : Z := 5.
Definition assocStatsOutOfSeqTSNs : Z := 6.
Definition assocStatsIDupChunks : Z := 7.
Definition assocStatsGapCount : Z := 8.
Definition assocStatsOUODChunks : Z := 9.
Definition assocStatsIUODChunks : Z := 10.
Definition assocStatsOODChunks : Z := 11.
Definition assocStatsIODChunks : Z := 12.
Definition assocStatsOCtrlChunks : Z := 13.
Definition assocStatsICtrlChunks : Z := 14.
Definition assocStatsCounters : Z := 15.
Definition chunkTypeInit : Z := 1.
Definition chunkTypeInitAck : Z := 2.
Definition chunkTypeShutdownComplete : Z := 14.
Definition chunkTypeAuth : Z := 0x0f.
Definition chunkTypeASCONFAck : Z := 0x80.
Definition chunkTypeASCONF : Z := 0xc1.
Definition sctpNumChunkTypes : Z := 20.
Definition sctpAuthMaxChunks : Z := sctpNumChunkTypes - 4.

(** ** Constants that follow the word size *)
Section WordSize.
Context `{A : Arch}.

Definition ssAlign : Z := wordSize.
Definition ssAddrOffset : Z := andnot (4 + ssAlign - 1) (ssAlign - 1).
Definition ssTailOffset : Z := ssAddrOffset + sizeSockaddrStorage.
Definition sizeCmsghdr : Z := wordSize + 8.
Definition cmsghdrLevelOff : Z := wordSize.
Definition cmsghdrTypeOff : Z := wordSize + 4.
Definition udpEncapsAddressOff : Z := ssAddrOffset.
Definition udpEncapsPortOff : Z := ssTailOffset.
Definition sizeUDPEncaps : Z := andnot (ssTailOffset + 2 + ssAlign - 1) (ssAlign - 1).
Definition probeIntervalAddressOff : Z := ssAddrOffset.
Definition probeIntervalIntervalOff : Z := ssTailOffset.
Definition sizeProbeInterval : Z := andnot (ssTailOffset + 4 + ssAlign - 1) (ssAlign - 1).
Definition pathThresholdsAddressOff : Z := ssAddrOffset.
Definition pathThresholdsMaxRxtOff : Z := ssTailOffset.
Definition pathThresholdsPFThresholdOff : Z := ssTailOffset + 2.
Definition pathThresholdsSwitchoverOff : Z := ssTailOffset + 4.
Definition sizePathThresholds : Z := andnot (ssTailOffset + 6 + ssAlign - 1) (ssAlign - 1).
Definition assocStatsAddrOff : Z := ssAddrOffset.
Definition sizeAssocStatsHeader : Z := andnot (ssTailOffset + u64Align - 1) (u64Align - 1).
Definition sizeAssocStats : Z := sizeAssocStatsHeader + 15 * 8.
Definition sizePathThresholdsProbe : Z := andnot (ssTailOffset + 4 + ssAlign - 1) (ssAlign - 1).
End WordSize.

(** ** C struct layout

    A field is its size and alignment, with the offset abi.go pins for it
    ([None] for a field the package never reads or writes).  [place] lays
    fields out in order, each at the next multiple of its alignment, or with
    no padding in a packed struct; the size is rounded up to the struct's
    alignment, 4 for the structs declared packed, aligned(4). *)
Record cfield := CField { cf_size : Z; cf_align : Z; cf_off : option Z }.
Record cstruct := CStruct { cs_packed : bool; cs_fields : list cfield; cs_size : Z }.

Definition align_up (n a : Z) : Z := (n + a - 1) / a * a.

Fixpoint place (packed : bool) (off : Z) (fs : list cfield) : list Z * Z :=
  match fs with
  | [] => ([], off)
  | f :: fs =>
      let o := if packed then off else align_up off (cf_align f) in
      let '(os, e) := place packed (o + cf_size f) fs in (o :: os, e)
  end.

Definition struct_align (s : cstruct) : Z :=
  if cs_packed s then 4 else fold_right Z.max 1 (map cf_align (cs_fields s)).

(** The offsets and the size the C rules give. *)
Definition c_layout (s : cstruct) : list Z * Z :=
  let '(os, e) := place (cs_packed s) 0 (cs_fields s) in
  (os, align_up e (struct_align s)).

(** A pinned offset agrees with the computed one. *)
Definition pinned (f : cfield) (o : Z) : Prop :=
  match cf_off f with Some p => p = o | None => True end.

Definition layout_ok (s : cstruct) : Prop :=
  Forall2 pinned (cs_fields s) (fst (c_layout s)) /\ cs_size s = snd (c_layout s).

Definition F1 (o : Z) := CField 1 1 (Some o).
Definition F2 (o : Z) := CField 2 2 (Some o).
Definition F4 (o : Z) := CField 4 4 (Some o).
Definition F8 (o : Z) := CField 8 8 (Some o).
Definition pad2 := CField 2 2 None.
Definition pad1 (n : Z) := CField n 1 None.

Section Target.
Context `{A : Arch}.

(** A struct sockaddr_storage inside a packed struct, and one with its own
    alignment; a nested struct whose alignment is 4; a __u64 counter. *)
Definition packed_storage (o : Z) := CField sizeSockaddrStorage 4 (Some o).
Definition storage (o : Z) := CField sizeSockaddrStorage ssAlign (Some o).
Definition nested (n o : Z) := CField n 4 (Some o).
Definition counter (o : Z) := CField 8 u64Align (Some o).

Definition struct_sockaddr_in : cstruct := CStruct false
  [ F2 sockaddrInFamilyOff; F2 sockaddrInPortOff; F4 sockaddrInAddrOff; pad1 8 ]
  sizeSockaddrIn.
Definition struct_sockaddr_in6 : cstruct := CStruct false
  [ F2 sockaddrIn6FamilyOff; F2 sockaddrIn6PortOff; F4 sockaddrIn6FlowInfoOff;
    CField 16 4 (Some sockaddrIn6AddrOff); F4 sockaddrIn6ScopeIDOff ]
  sizeSockaddrIn6.
Definition struct_cmsghdr : cstruct := CStruct false
  [ CField wordSize wordSize (Some cmsghdrLenOff); F4 cmsghdrLevelOff; F4 cmsghdrTypeOff ]
  sizeCmsghdr.
Definition struct_sctp_sndinfo : cstruct := CStruct false
  [ F2 sndInfoStreamOff; F2 sndInfoFlagsOff; F4 sndInfoPPIDOff; F4 sndInfoContextOff;
    F4 sndInfoAssocIDOff ]
  sizeSndInfo.
Definition struct_sctp_prinfo : cstruct := CStruct false
  [ F2 prInfoPolicyOff; F4 prInfoValueOff ]
  sizePrInfo.
Definition struct_sctp_authinfo : cstruct := CStruct false
  [ F2 authInfoKeyNumberOff ]
  sizeAuthInfo.
Definition struct_sctp_rcvinfo : cstruct := CStruct false
  [ F2 rcvInfoStreamOff; F2 rcvInfoSSNOff; F2 rcvInfoFlagsOff; F4 rcvInfoPPIDOff;
    F4 rcvInfoTSNOff; F4 rcvInfoCumTSNOff; F4 rcvInfoContextOff; F4 rcvInfoAssocIDOff ]
  sizeRcvInfo.
Definition struct_sctp_nxtinfo : cstruct := CStruct false
  [ F2 nxtInfoStreamOff; F2 nxtInfoFlagsOff; F4 nxtInfoPPIDOff; F4 nxtInfoLengthOff;
    F4 nxtInfoAssocIDOff ]
  sizeNxtInfo.
Definition struct_notification_header : cstruct := CStruct false
  [ F2 notificationTypeOff; F2 notificationFlagsOff; F4 notificationLengthOff ]
  notificationHeaderSize.
Definition struct_sctp_assoc_change : cstruct := CStruct false
  [ F2 assocChangeTypeOff; F2 assocChangeFlagsOff; F4 assocChangeLengthOff;
    F2 assocChangeStateOff; F2 assocChangeErrorOff; F2 assocChangeOutStreamsOff;
    F2 assocChangeInStreamsOff; F4 assocChangeAssocIDOff; CField 0 1 (Some assocChangeInfoOff) ]
  sizeAssocChange.
Definition struct_sctp_paddr_change : cstruct := CStruct true
  [ F2 paddrChangeTypeOff; F2 paddrChangeFlagsOff; F4 paddrChangeLengthOff;
    packed_storage paddrChangeAddrOff; F4 paddrChangeStateOff; F4 paddrChangeErrorOff;
    F4 paddrChangeAssocIDOff ]
  sizePAddrChange.
Definition struct_sctp_remote_error : cstruct := CStruct false
  [ F2 remoteErrorTypeOff; F2 remoteErrorFlagsOff; F4 remoteErrorLengthOff;
    F2 remoteErrorErrorOff; F4 remoteErrorAssocIDOff; CField 0 1 (Some remoteErrorDataOff) ]
  sizeRemoteError.
Definition struct_sctp_shutdown_event : cstruct := CStruct false
  [ F2 shutdownEventTypeOff; F2 shutdownEventFlagsOff; F4 shutdownEventLengthOff;
    F4 shutdownEventAssocIDOff ]
  sizeShutdownEvent.
Definition struct_sctp_adaptation_event : cstruct := CStruct false
  [ F2 adaptationEventTypeOff; F2 adaptationEventFlagsOff; F4 adaptationEventLengthOff;
    F4 adaptationEventIndicationOff; F4 adaptationEventAssocIDOff ]
  sizeAdaptationEvent.
Definition struct_sctp_pdapi_event : cstruct := CStruct false
  [ F2 pdapiEventTypeOff; F2 pdapiEventFlagsOff; F4 pdapiEventLengthOff;
    F4 pdapiEventIndicationOff; F4 pdapiEventAssocIDOff; F4 pdapiEventStreamOff;
    F4 pdapiEventSeqOff ]
  sizePDAPIEvent.
Definition struct_sctp_authkey_event : cstruct := CStruct false
  [ F2 authKeyEventTypeOff; F2 authKeyEventFlagsOff; F4 authKeyEventLengthOff;
    F2 authKeyEventKeyNumberOff; F2 authKeyEventAltKeyNumberOff;
    F4 authKeyEventIndicationOff; F4 authKeyEventAssocIDOff ]
  sizeAuthKeyEvent.
Definition struct_sctp_sender_dry_event : cstruct := CStruct false
  [ F2 senderDryEventTypeOff; F2 senderDryEventFlagsOff; F4 senderDryEventLengthOff;
    F4 senderDryEventAssocIDOff ]
  sizeSenderDryEvent.
Definition struct_sctp_stream_reset_event : cstruct := CStruct false
  [ F2 streamResetEventTypeOff; F2 streamResetEventFlagsOff; F4 streamResetEventLengthOff;
    F4 streamResetEventAssocIDOff; CField 0 2 (Some streamResetEventStreamsOff) ]
  sizeStreamResetEvent.
Definition struct_sctp_assoc_reset_event : cstruct := CStruct false
  [ F2 assocResetEventTypeOff; F2 assocResetEventFlagsOff; F4 assocResetEventLengthOff;
    F4 assocResetEventAssocIDOff; F4 assocResetEventLocalTSNOff;
    F4 assocResetEventRemoteTSNOff ]
  sizeAssocResetEvent.
Definition struct_sctp_stream_change_event : cstruct := CStruct false
  [ F2 streamChangeEventTypeOff; F2 streamChangeEventFlagsOff;
    F4 streamChangeEventLengthOff; F4 streamChangeEventAssocIDOff;
    F2 streamChangeEventInStreamsOff; F2 streamChangeEventOutStreamsOff ]
  sizeStreamChangeEvent.
Definition struct_sctp_send_failed_event : cstruct := CStruct false
  [ F2 sendFailedEventTypeOff; F2 sendFailedEventFlagsOff; F4 sendFailedEventLengthOff;
    F4 sendFailedEventErrorOff; nested sizeSndInfo sendFailedEventInfoOff;
    F4 sendFailedEventAssocIDOff; CField 0 1 (Some sendFailedEventDataOff) ]
  sizeSendFailedEvent.
Definition struct_sctp_initmsg : cstruct := CStruct false
  [ F2 initMsgOutStreamsOff; F2 initMsgMaxInStreamsOff; F2 initMsgMaxAttemptsOff;
    F2 initMsgMaxInitTimeoOff ]
  sizeInitMsg.
Definition struct_sctp_rtoinfo : cstruct := CStruct false
  [ F4 rtoInfoAssocIDOff; F4 rtoInfoInitialOff; F4 rtoInfoMaxOff; F4 rtoInfoMinOff ]
  sizeRTOInfo.
Definition struct_sctp_assocparams : cstruct := CStruct false
  [ F4 assocInfoAssocIDOff; F2 assocInfoMaxRetransOff; F2 assocInfoPeerDestinationsOff;
    F4 assocInfoPeerRwndOff; F4 assocInfoLocalRwndOff; F4 assocInfoCookieLifeOff ]
  sizeAssocInfo.
Definition struct_sctp_sack_info : cstruct := CStruct false
  [ F4 delayedSACKAssocIDOff; F4 delayedSACKDelayOff; F4 delayedSACKFrequencyOff ]
  sizeDelayedSACK.
Definition struct_sctp_paddrparams : cstruct := CStruct true
  [ F4 pathParamsAssocIDOff; packed_storage pathParamsAddressOff;
    F4 pathParamsHBIntervalOff; F2 pathParamsPathMaxRxtOff; F4 pathParamsPathMTUOff;
    F4 pathParamsSackDelayOff; F4 pathParamsFlagsOff; F4 pathParamsFlowLabelOff;
    F1 pathParamsDSCPOff ]
  sizePathParams.
Definition struct_sctp_paddrinfo : cstruct := CStruct true
  [ F4 pathInfoAssocIDOff; packed_storage pathInfoAddressOff; F4 pathInfoStateOff;
    F4 pathInfoCwndOff; F4 pathInfoSRTTOff; F4 pathInfoRTOOff; F4 pathInfoMTUOff ]
  sizePathInfo.
Definition struct_sctp_status : cstruct := CStruct false
  [ F4 statusAssocIDOff; F4 statusStateOff; F4 statusRWNDOff; F2 statusUnackedOff;
    F2 statusPendingOff; F2 statusInStreamsOff; F2 statusOutStreamsOff;
    F4 statusFragmentationPointOff; nested sizePathInfo statusPrimaryOff ]
  sizeStatus.
Definition struct_sctp_prstatus : cstruct := CStruct false
  [ F4 prStatusAssocIDOff; F2 prStatusStreamOff; F2 prStatusPolicyOff;
    counter prStatusAbandonedUnsentOff; counter prStatusAbandonedSentOff ]
  sizePRStatus.
Definition struct_sctp_default_prinfo : cstruct := CStruct false
  [ F4 defaultPRInfoAssocIDOff; F4 defaultPRInfoValueOff; F2 defaultPRInfoPolicyOff ]
  sizeDefaultPRInfo.
Definition struct_sctp_authkey : cstruct := CStruct false
  [ F4 authKeyAssocIDOff; F2 authKeyKeyNumberOff; F2 authKeyKeyLengthOff;
    CField 0 1 (Some authKeyKeyOff) ]
  sizeAuthKey.
Definition struct_sctp_authkeyid : cstruct := CStruct false
  [ F4 authKeyIDAssocIDOff; F2 authKeyIDKeyNumberOff ]
  sizeAuthKeyID.
Definition struct_sctp_hmacalgo : cstruct := CStruct false
  [ F4 hmacAlgoNumIdentsOff; CField 0 2 (Some hmacAlgoIdentsOff) ]
  sizeHMACAlgo.
Definition struct_sctp_authchunks : cstruct := CStruct false
  [ F4 authChunksAssocIDOff; F4 authChunksNumChunksOff; CField 0 1 (Some authChunksChunksOff) ]
  sizeAuthChunks.
Definition struct_sctp_assoc_ids : cstruct := CStruct false
  [ F4 assocIDsNumIDsOff; CField 0 4 (Some assocIDsIDsOff) ]
  sizeAssocIDs.
Definition struct_sctp_getaddrs : cstruct := CStruct false
  [ F4 getAddrsAssocIDOff; F4 getAddrsAddrNumOff; CField 0 1 (Some getAddrsAddrsOff) ]
  sizeGetAddrs.
Definition struct_sctp_reset_streams : cstruct := CStruct false
  [ F4 resetStreamsAssocIDOff; F2 resetStreamsFlagsOff; F2 resetStreamsNumStreamsOff;
    CField 0 2 (Some resetStreamsStreamListOff) ]
  sizeResetStreams.
Definition struct_sctp_add_streams : cstruct := CStruct false
  [ F4 addStreamsAssocIDOff; F2 addStreamsInStreamsOff; F2 addStreamsOutStreamsOff ]
  sizeAddStreams.
Definition struct_sctp_stream_value : cstruct := CStruct false
  [ F4 streamValueAssocIDOff; F2 streamValueStreamIDOff; F2 streamValueValueOff ]
  sizeStreamValue.
Definition struct_sctp_event : cstruct := CStruct false
  [ F4 eventAssocIDOff; F2 eventTypeFieldOff; F1 eventOnOff ]
  sizeEvent.
Definition struct_sctp_assoc_value : cstruct := CStruct false
  [ F4 assocValueAssocIDOff; F4 assocValueValueOff ]
  sizeAssocValue.
Definition struct_sctp_peeloff_flags_arg : cstruct := CStruct false
  [ F4 peeloffFlagsArgAssocIDOff; F4 peeloffFlagsArgSDOff; F4 peeloffFlagsArgFlagsOff ]
  sizePeeloffFlagsArg.
Definition struct_sctp_prim : cstruct := CStruct true
  [ F4 primAssocIDOff; packed_storage primAddrOff ]
  sizePrim.
Definition struct_sctp_setpeerprim : cstruct := CStruct true
  [ F4 setPeerPrimAssocIDOff; packed_storage setPeerPrimAddrOff ]
  sizeSetPeerPrim.
Definition struct_sctp_udpencaps : cstruct := CStruct false
  [ F4 udpEncapsAssocIDOff; storage udpEncapsAddressOff; F2 udpEncapsPortOff ]
  sizeUDPEncaps.
Definition struct_sctp_probeinterval : cstruct := CStruct false
  [ F4 probeIntervalAssocIDOff; storage probeIntervalAddressOff;
    F4 probeIntervalIntervalOff ]
  sizeProbeInterval.
Definition struct_sctp_paddrthlds_v2 : cstruct := CStruct false
  [ F4 pathThresholdsAssocIDOff; storage pathThresholdsAddressOff;
    F2 pathThresholdsMaxRxtOff; F2 pathThresholdsPFThresholdOff;
    F2 pathThresholdsSwitchoverOff ]
  sizePathThresholds.
Definition struct_sctp_paddrthlds : cstruct := CStruct false
  [ CField 4 4 None; CField sizeSockaddrStorage ssAlign None; pad2; pad2 ]
  sizePathThresholdsProbe.
Definition struct_sctp_assoc_stats : cstruct := CStruct false
  [ F4 assocStatsAssocIDOff; storage assocStatsAddrOff;
    counter (sizeAssocStatsHeader + 8 * assocStatsMaxRTO);
    counter (sizeAssocStatsHeader + 8 * assocStatsISACKs);
    counter (sizeAssocStatsHeader + 8 * assocStatsOSACKs);
    counter (sizeAssocStatsHeader + 8 * assocStatsOPackets);
    counter (sizeAssocStatsHeader + 8 * assocStatsIPackets);
    counter (sizeAssocStatsHeader + 8 * assocStatsRtxChunks);
    counter (sizeAssocStatsHeader + 8 * assocStatsOutOfSeqTSNs);
    counter (sizeAssocStatsHeader + 8 * assocStatsIDupChunks);
    counter (sizeAssocStatsHeader + 8 * assocStatsGapCount);
    counter (sizeAssocStatsHeader + 8 * assocStatsOUODChunks);
    counter (sizeAssocStatsHeader + 8 * assocStatsIUODChunks);
    counter (sizeAssocStatsHeader + 8 * assocStatsOODChunks);
    counter (sizeAssocStatsHeader + 8 * assocStatsIODChunks);
    counter (sizeAssocStatsHeader + 8 * assocStatsOCtrlChunks);
    counter (sizeAssocStatsHeader + 8 * assocStatsICtrlChunks) ]
  sizeAssocStats.
Definition struct_sctp_udpencaps_kernel64 : cstruct := CStruct false
  [ CField 4 4 None; CField sizeSockaddrStorage 8 (Some udpEncapsAddressOffKernel64);
    F2 udpEncapsPortOffKernel64 ]
  sizeUDPEncapsKernel64.
Definition struct_sctp_probeinterval_kernel64 : cstruct := CStruct false
  [ CField 4 4 None; CField sizeSockaddrStorage 8 (Some probeIntervalAddressOffKernel64);
    F4 probeIntervalIntervalOffKernel64 ]
  sizeProbeIntervalKernel64.
Definition struct_sctp_paddrthlds_v2_kernel64 : cstruct := CStruct false
  [ CField 4 4 None; CField sizeSockaddrStorage 8 (Some pathThresholdsAddressOffKernel64);
    F2 pathThresholdsMaxRxtOffKernel64; F2 pathThresholdsPFThresholdOffKernel64;
    F2 pathThresholdsSwitchoverOffKernel64 ]
  sizePathThresholdsKernel64.
Definition struct_sctp_assoc_stats_kernel64 : cstruct := CStruct false
  [ CField 4 4 None; CField sizeSockaddrStorage 8 (Some assocStatsAddrOffKernel64);
    CField (8 * assocStatsCounters) 8 (Some sizeAssocStatsHeaderKernel64) ]
  sizeAssocStatsKernel64.

(** Every struct of abi.go. *)
Definition abi_structs : list cstruct :=
  [ struct_sockaddr_in;
    struct_sockaddr_in6;
    struct_cmsghdr;
    struct_sctp_sndinfo;
    struct_sctp_prinfo;
    struct_sctp_authinfo;
    struct_sctp_rcvinfo;
    struct_sctp_nxtinfo;
    struct_notification_header;
    struct_sctp_assoc_change;
    struct_sctp_paddr_change;
    struct_sctp_remote_error;
    struct_sctp_shutdown_event;
    struct_sctp_adaptation_event;
    struct_sctp_pdapi_event;
    struct_sctp_authkey_event;
    struct_sctp_sender_dry_event;
    struct_sctp_stream_reset_event;
    struct_sctp_assoc_reset_event;
    struct_sctp_stream_change_event;
    struct_sctp_send_failed_event;
    struct_sctp_initmsg;
    struct_sctp_rtoinfo;
    struct_sctp_assocparams;
    struct_sctp_sack_info;
    struct_sctp_paddrparams;
    struct_sctp_paddrinfo;
    struct_sctp_status;
    struct_sctp_prstatus;
    struct_sctp_default_prinfo;
    struct_sctp_authkey;
    struct_sctp_authkeyid;
    struct_sctp_hmacalgo;
    struct_sctp_authchunks;
    struct_sctp_assoc_ids;
    struct_sctp_getaddrs;
    struct_sctp_reset_streams;
    struct_sctp_add_streams;
    struct_sctp_stream_value;
    struct_sctp_event;
    struct_sctp_assoc_value;
    struct_sctp_peeloff_flags_arg;
    struct_sctp_prim;
    struct_sctp_setpeerprim;
    struct_sctp_udpencaps;
    struct_sctp_probeinterval;
    struct_sctp_paddrthlds_v2;
    struct_sctp_paddrthlds;
    struct_sctp_assoc_stats;
    struct_sctp_udpencaps_kernel64;
    struct_sctp_probeinterval_kernel64;
    struct_sctp_paddrthlds_v2_kernel64;
    struct_sctp_assoc_stats_kernel64 ].
End Target.

(** ** Unfolding the constants *)
Create HintDb abi.
#[export] Hint Unfold afInet afInet6 ipprotoSCTP assocScopeFuture assocScopeCurrent assocScopeAll optRTOInfo optAssocInfo : abi.
#[export] Hint Unfold optInitMsg optNoDelay optAutoClose optSetPeerPrimaryAddr optPrimaryAddr optAdaptationLayer optDisableFragments optPeerAddrParams : abi.
#[export] Hint Unfold optWantMappedV4Addr optMaxSeg optStatus optGetPeerAddrInfo optDelayedAckTime optContext optFragmentInterleave optPartialDeliveryPoint : abi.
#[export] Hint Unfold optMaxBurst optAuthChunk optHMACIdent optAuthKey optAuthActiveKey optAuthDeleteKey optPeerAuthChunks optLocalAuthChunks : abi.
#[export] Hint Unfold optGetAssocNumber optGetAssocIDList optAutoAsconf optRecvRcvInfo optRecvNxtInfo optDefaultSndInfo optAuthDeactivateKey optReusePort : abi.
#[export] Hint Unfold optPathThresholds optPathThresholdsProbe optSockoptBindxAdd optSockoptBindxRemove optGetPeerAddrs optGetLocalAddrs optSockoptConnectx3 optGetAssocStats : abi.
#[export] Hint Unfold optPRSupported optDefaultPRInfo optPRAssocStatus optPRStreamStatus optReconfigSupported optEnableStreamReset optResetStreams optResetAssoc : abi.
#[export] Hint Unfold optAddStreams optSockoptPeeloffFlags optStreamScheduler optStreamSchedulerValue optInterleavingSupported optEvent optASCONFSupported optAuthSupported : abi.
#[export] Hint Unfold optECNSupported optExposePotentiallyFailedState optRemoteUDPEncapsPort optPLPMTUDProbeInterval cmsgSndInfo cmsgRcvInfo cmsgNxtInfo cmsgPrInfo : abi.
#[export] Hint Unfold cmsgAuthInfo sndFlagUnordered sndFlagAddrOver sndFlagAbort sndFlagSackImmediately sndFlagPRAll msgNotification sndFlagEOF : abi.
#[export] Hint Unfold msgCtrunc msgEOR prPolicyMask sizeSockaddrIn sockaddrInFamilyOff sockaddrInPortOff sockaddrInAddrOff sizeSockaddrIn6 : abi.
#[export] Hint Unfold sockaddrIn6FamilyOff sockaddrIn6PortOff sockaddrIn6FlowInfoOff sockaddrIn6AddrOff sockaddrIn6ScopeIDOff sizeSockaddrStorage cmsghdrLenOff sizeSndInfo : abi.
#[export] Hint Unfold sndInfoStreamOff sndInfoFlagsOff sndInfoPPIDOff sndInfoContextOff sndInfoAssocIDOff sizePrInfo prInfoPolicyOff prInfoValueOff : abi.
#[export] Hint Unfold sizeAuthInfo authInfoKeyNumberOff sizeRcvInfo rcvInfoStreamOff rcvInfoSSNOff rcvInfoFlagsOff rcvInfoPPIDOff rcvInfoTSNOff : abi.
#[export] Hint Unfold rcvInfoCumTSNOff rcvInfoContextOff rcvInfoAssocIDOff sizeNxtInfo nxtInfoStreamOff nxtInfoFlagsOff nxtInfoPPIDOff nxtInfoLengthOff : abi.
#[export] Hint Unfold nxtInfoAssocIDOff notificationHeaderSize notificationTypeOff notificationFlagsOff notificationLengthOff sizeAssocChange assocChangeTypeOff assocChangeFlagsOff : abi.
#[export] Hint Unfold assocChangeLengthOff assocChangeStateOff assocChangeErrorOff assocChangeOutStreamsOff assocChangeInStreamsOff assocChangeAssocIDOff assocChangeInfoOff sizePAddrChange : abi.
#[export] Hint Unfold paddrChangeTypeOff paddrChangeFlagsOff paddrChangeLengthOff paddrChangeAddrOff paddrChangeStateOff paddrChangeErrorOff paddrChangeAssocIDOff sizeRemoteError : abi.
#[export] Hint Unfold remoteErrorTypeOff remoteErrorFlagsOff remoteErrorLengthOff remoteErrorErrorOff remoteErrorAssocIDOff remoteErrorDataOff sizeShutdownEvent shutdownEventTypeOff : abi.
#[export] Hint Unfold shutdownEventFlagsOff shutdownEventLengthOff shutdownEventAssocIDOff sizeAdaptationEvent adaptationEventTypeOff adaptationEventFlagsOff adaptationEventLengthOff adaptationEventIndicationOff : abi.
#[export] Hint Unfold adaptationEventAssocIDOff sizePDAPIEvent pdapiEventTypeOff pdapiEventFlagsOff pdapiEventLengthOff pdapiEventIndicationOff pdapiEventAssocIDOff pdapiEventStreamOff : abi.
#[export] Hint Unfold pdapiEventSeqOff sizeAuthKeyEvent authKeyEventTypeOff authKeyEventFlagsOff authKeyEventLengthOff authKeyEventKeyNumberOff authKeyEventAltKeyNumberOff authKeyEventIndicationOff : abi.
#[export] Hint Unfold authKeyEventAssocIDOff sizeSenderDryEvent senderDryEventTypeOff senderDryEventFlagsOff senderDryEventLengthOff senderDryEventAssocIDOff sizeStreamResetEvent streamResetEventTypeOff : abi.
#[export] Hint Unfold streamResetEventFlagsOff streamResetEventLengthOff streamResetEventAssocIDOff streamResetEventStreamsOff sizeAssocResetEvent assocResetEventTypeOff assocResetEventFlagsOff assocResetEventLengthOff : abi.
#[export] Hint Unfold assocResetEventAssocIDOff assocResetEventLocalTSNOff assocResetEventRemoteTSNOff sizeStreamChangeEvent streamChangeEventTypeOff streamChangeEventFlagsOff streamChangeEventLengthOff streamChangeEventAssocIDOff : abi.
#[export] Hint Unfold streamChangeEventInStreamsOff streamChangeEventOutStreamsOff sizeSendFailedEvent sendFailedEventTypeOff sendFailedEventFlagsOff sendFailedEventLengthOff sendFailedEventErrorOff sendFailedEventInfoOff : abi.
#[export] Hint Unfold sendFailedEventAssocIDOff sendFailedEventDataOff pdapiFlagUnordered sendFailedFlagSent streamResetFlagIncoming streamResetFlagOutgoing streamResetFlagDenied streamResetFlagFailed : abi.
#[export] Hint Unfold assocResetFlagDenied assocResetFlagFailed streamChangeFlagDenied streamChangeFlagFailed dataChunkFlagLastFragment dataChunkFlagFirstFragment dataChunkFlagUnordered sizeInitMsg : abi.
#[export] Hint Unfold initMsgOutStreamsOff initMsgMaxInStreamsOff initMsgMaxAttemptsOff initMsgMaxInitTimeoOff sizeRTOInfo rtoInfoAssocIDOff rtoInfoInitialOff rtoInfoMaxOff : abi.
#[export] Hint Unfold rtoInfoMinOff sizeAssocInfo assocInfoAssocIDOff assocInfoMaxRetransOff assocInfoPeerDestinationsOff assocInfoPeerRwndOff assocInfoLocalRwndOff assocInfoCookieLifeOff : abi.
#[export] Hint Unfold sizeDelayedSACK delayedSACKAssocIDOff delayedSACKDelayOff delayedSACKFrequencyOff sizePathParams pathParamsAssocIDOff pathParamsAddressOff pathParamsHBIntervalOff : abi.
#[export] Hint Unfold pathParamsPathMaxRxtOff pathParamsPathMTUOff pathParamsSackDelayOff pathParamsFlagsOff pathParamsFlowLabelOff pathParamsDSCPOff sizePathInfo pathInfoAssocIDOff : abi.
#[export] Hint Unfold pathInfoAddressOff pathInfoStateOff pathInfoCwndOff pathInfoSRTTOff pathInfoRTOOff pathInfoMTUOff sizeStatus statusAssocIDOff : abi.
#[export] Hint Unfold statusStateOff statusRWNDOff statusUnackedOff statusPendingOff statusInStreamsOff statusOutStreamsOff statusFragmentationPointOff statusPrimaryOff : abi.
#[export] Hint Unfold sizePRStatus prStatusAssocIDOff prStatusStreamOff prStatusPolicyOff prStatusAbandonedUnsentOff prStatusAbandonedSentOff sizeDefaultPRInfo defaultPRInfoAssocIDOff : abi.
#[export] Hint Unfold defaultPRInfoValueOff defaultPRInfoPolicyOff sizeAuthKey authKeyAssocIDOff authKeyKeyNumberOff authKeyKeyLengthOff authKeyKeyOff sizeAuthKeyID : abi.
#[export] Hint Unfold authKeyIDAssocIDOff authKeyIDKeyNumberOff sizeHMACAlgo hmacAlgoNumIdentsOff hmacAlgoIdentsOff sizeAuthChunks authChunksAssocIDOff authChunksNumChunksOff : abi.
#[export] Hint Unfold authChunksChunksOff sizeAssocIDs assocIDsNumIDsOff assocIDsIDsOff sizeGetAddrs getAddrsAssocIDOff getAddrsAddrNumOff getAddrsAddrsOff : abi.
#[export] Hint Unfold sizeResetStreams resetStreamsAssocIDOff resetStreamsFlagsOff resetStreamsNumStreamsOff resetStreamsStreamListOff sizeAddStreams addStreamsAssocIDOff addStreamsInStreamsOff : abi.
#[export] Hint Unfold addStreamsOutStreamsOff sizeStreamValue streamValueAssocIDOff streamValueStreamIDOff streamValueValueOff sizeEvent eventAssocIDOff eventTypeFieldOff : abi.
#[export] Hint Unfold eventOnOff sizeAssocValue assocValueAssocIDOff assocValueValueOff sizePeeloffFlagsArg peeloffFlagsArgAssocIDOff peeloffFlagsArgSDOff peeloffFlagsArgFlagsOff : abi.
#[export] Hint Unfold sizePrim primAssocIDOff primAddrOff sizeSetPeerPrim setPeerPrimAssocIDOff setPeerPrimAddrOff sizeAuthChunk sizeSetAdaptation : abi.
#[export] Hint Unfold sizeInt sizeAssocID sppHBEnable sppHBDisable sppHBDemand sppPMTUDEnable sppPMTUDDisable sppSACKDelayEnable : abi.
#[export] Hint Unfold sppSACKDelayDisable sppHBTimeIsZero sppIPv6FlowLabel sppDSCP flowLabelMask dscpMask minPathMTU maxSACKDelayMS : abi.
#[export] Hint Unfold minProbeIntervalMS maxHMACIdents maxAuthChunkList ssAddrOffsetKernel64 ssTailOffsetKernel64 udpEncapsAssocIDOff udpEncapsAddressOffKernel64 sizeUDPEncapsKernel64 : abi.
#[export] Hint Unfold probeIntervalAssocIDOff probeIntervalAddressOffKernel64 sizeProbeIntervalKernel64 pathThresholdsAssocIDOff pathThresholdsAddressOffKernel64 sizePathThresholdsKernel64 assocStatsAssocIDOff assocStatsAddrOffKernel64 : abi.
#[export] Hint Unfold sizeAssocStatsHeaderKernel64 sizeAssocStatsKernel64 udpEncapsPortOffKernel64 probeIntervalIntervalOffKernel64 pathThresholdsMaxRxtOffKernel64 pathThresholdsPFThresholdOffKernel64 pathThresholdsSwitchoverOffKernel64 assocStatsMaxRTO : abi.
#[export] Hint Unfold assocStatsISACKs assocStatsOSACKs assocStatsOPackets assocStatsIPackets assocStatsRtxChunks assocStatsOutOfSeqTSNs assocStatsIDupChunks assocStatsGapCount : abi.
#[export] Hint Unfold assocStatsOUODChunks assocStatsIUODChunks assocStatsOODChunks assocStatsIODChunks assocStatsOCtrlChunks assocStatsICtrlChunks assocStatsCounters chunkTypeInit : abi.
#[export] Hint Unfold chunkTypeInitAck chunkTypeShutdownComplete chunkTypeAuth chunkTypeASCONFAck chunkTypeASCONF sctpNumChunkTypes sctpAuthMaxChunks ssAlign : abi.
#[export] Hint Unfold ssAddrOffset ssTailOffset sizeCmsghdr cmsghdrLevelOff cmsghdrTypeOff udpEncapsAddressOff udpEncapsPortOff sizeUDPEncaps : abi.
#[export] Hint Unfold probeIntervalAddressOff probeIntervalIntervalOff sizeProbeInterval pathThresholdsAddressOff pathThresholdsMaxRxtOff pathThresholdsPFThresholdOff pathThresholdsSwitchoverOff sizePathThresholds : abi.
#[export] Hint Unfold assocStatsAddrOff sizeAssocStatsHeader sizeAssocStats sizePathThresholdsProbe : abi.

Ltac abi := autounfold with abi in *.

(** Case analysis on the target: the three layouts there are. *)
Ltac arch_cases A :=
  destruct (@wordSize_cases A _) as [?Hw | ?Hw];
  destruct (@u64Align_cases A _) as [?Hu | [?Hu ?Hw']];
  destruct A as [?w ?u ?o]; simpl in *; subst; try lia.

(** The layout check as a computation. *)
Definition pinnedb (f : cfield) (o : Z) : bool :=
  match cf_off f with Some p => p =? o | None => true end.

Fixpoint all_pinned (fs : list cfield) (os : list Z) : bool :=
  match fs, os with
  | [], [] => true
  | f :: fs, o :: os => pinnedb f o && all_pinned fs os
  | _, _ => false
  end.

Definition layout_okb (s : cstruct) : bool :=
  all_pinned (cs_fields s) (fst (c_layout s)) && (cs_size s =? snd (c_layout s)).

Lemma all_pinned_sound fs os : all_pinned fs os = true -> Forall2 pinned fs os.
Proof.
  revert os. induction fs as [| f fs IH]; intros [| o os]; simpl; try done.
  intros [Hf Hfs]%andb_prop. constructor; [| auto].
  unfold pinnedb, pinned in *. destruct (cf_off f); [by apply Z.eqb_eq | done].
Qed.

Lemma layout_okb_sound s : layout_okb s = true -> layout_ok s.
Proof.
  intros [H1 H2]%andb_prop. split; [by apply all_pinned_sound | by apply Z.eqb_eq].
Qed.

Lemma layouts_okb_sound ss : forallb layout_okb ss = true -> Forall layout_ok ss.
Proof.
  intros H. apply Forall_forall. intros s Hs. apply layout_okb_sound.
  rewrite forallb_forall in H. apply H. by apply list_elem_of_In.
Qed.

(** Every offset and size abi.go pins is the one the C layout rules give,
    on every target. *)
Theorem abi_layout (A : Arch) (Aok : ArchOk A) : Forall layout_ok abi_structs.
Proof. apply layouts_okb_sound. arch_cases A; vm_compute; reflexivity. Qed.

Lemma abi_layout_witness : Forall layout_ok (@abi_structs i386).
Proof. apply (abi_layout i386). apply i386_ok. Defined.
