(* ===== verification/Errors.v ===== *)
(** * Errors (src/errors.go)

    Go error values as an inductive type, errors.Is and errors.Join over
    them, and the functions of errors.go that wrap a cause once, with the
    operation it belongs to.

    An error message is kept as text only where the code looks at it
    (isFileClosingErr's fallback); a message the code formats is kept as
    its format string, without the arguments.  A nil error is [None]. *)
From Stdlib Require Import ZArith Lia Bool.
From stdpp Require Import base list option strings.
From S2P Require Import Prelude.

(** ** Error values *)

(** The package-level error variables: the ten of errors.go, then the
    standard library's that the code compares with. *)
Inductive sentinel :=
| ErrUnsupported | ErrMessageTooLong | ErrMessageInterrupted
| ErrNotificationTooLong | ErrShortNotification | ErrControlTruncated
| ErrInvalidRcvInfo | ErrMissingRcvInfo | ErrAssocListTooLarge | ErrInvalidAssocList
| EOF
| NetErrClosed
| OsErrClosed
| ErrFileClosing
| ErrDeadlineExceeded
| StdErrUnsupported
| ErrShortWrite
| Canceled
| DeadlineExceeded.

#[global] Instance sentinel_eq_dec : EqDecision sentinel.
Proof. solve_decision. Defined.

(** An error that is compared with [==]: a package-level variable or a
    syscall.Errno. *)
Inductive plain := Sentinel (s : sentinel) | Errno (n : Z).

#[global] Instance plain_eq_dec : EqDecision plain.
Proof. solve_decision. Defined.

(** [OpErr] is *net.OpError: a net.Addr is its String form, and a nil one
    is [None].  [SyscallErr] is *os.SyscallError, [Joined] the result of
    errors.Join, [Wrapf] of fmt.Errorf with one %w, and [Opaque] any other
    error, from a Control hook or a NotificationHandler. *)
Inductive error :=
| Plain (p : plain)
| InvalidArg (msg : string)
| UnsupportedErr (errno : Z)
| OpErr (op network : string) (source addr : option string) (cause : error)
| SyscallErr (call : string) (cause : error)
| Joined (errs : list error)
| Wrapf (msg : string) (cause : error)
| Opaque (msg : string).

Coercion Plain : plain >-> error.
Coercion Sentinel : sentinel >-> plain.

Definition EINVAL : Z := 22.
Definition EPIPE : Z := 32.
Definition ENOSYS : Z := 38.
Definition EPROTONOSUPPORT : Z := 93.
Definition ESOCKTNOSUPPORT : Z := 94.
Definition EOPNOTSUPP : Z := 95.
Definition ECONNABORTED : Z := 103.
Definition ECONNRESET : Z := 104.
Definition ENOTCONN : Z := 107.
Definition ETIMEDOUT : Z := 110.
Definition EAGAIN : Z := 11.

(** ** errors.Is and errors.Join *)

(** What one comparable error matches: itself; ErrUnsupported wraps
    errors.ErrUnsupported, and an Errno's own Is method matches
    errors.ErrUnsupported for ENOSYS and EOPNOTSUPP. *)
Definition plain_Is (p target : plain) : bool :=
  bool_decide (p = target) ||
  match p, target with
  | Sentinel ErrUnsupported, Sentinel StdErrUnsupported => true
  | Errno n, Sentinel StdErrUnsupported => (n =? ENOSYS) || (n =? EOPNOTSUPP)
  | _, _ => false
  end.

(** errors.Is against a comparable target, depth first through Unwrap. *)
Fixpoint errors_Is (err : error) (target : plain) : bool :=
  match err with
  | Plain p => plain_Is p target
  | InvalidArg _ => plain_Is (Errno EINVAL) target
  | UnsupportedErr n => plain_Is ErrUnsupported target || plain_Is (Errno n) target
  | OpErr _ _ _ _ e | SyscallErr _ e | Wrapf _ e => errors_Is e target
  | Joined es => existsb (fun e => errors_Is e target) es
  | Opaque _ => false
  end.

(** errors.As for a *syscall.Errno target. *)
Fixpoint errors_As (err : error) : option Z :=
  match err with
  | Plain (Errno n) | UnsupportedErr n => Some n
  | Plain (Sentinel _) | Opaque _ => None
  | InvalidArg _ => Some EINVAL
  | OpErr _ _ _ _ e | SyscallErr _ e | Wrapf _ e => errors_As e
  | Joined es =>
      (fix first (es : list error) : option Z :=
         match es with
         | [] => None
         | e :: es => match errors_As e with Some n => Some n | None => first es end
         end) es
  end.

Definition Is (err : option error) (target : plain) : bool :=
  match err with Some e => errors_Is e target | None => false end.

(** errors.Join drops nil errors, and is nil when nothing is left. *)
Definition errors_Join (errs : list (option error)) : option error :=
  match omap id errs with [] => None | es => Some (Joined es) end.

(** [err.(interface{ Unwrap() []error })] *)
Definition unwraps_many (e : error) : bool :=
  match e with Joined _ | UnsupportedErr _ => true | _ => false end.

(** ** Building errors *)
Definition invalidArg (format : string) : error := InvalidArg ("sctp: " +:+ format).

(** os.NewSyscallError: nil for a nil error. *)
Definition NewSyscallError (call : string) (err : option error) : option error :=
  SyscallErr call <$> err.

(** ** Error text

    The Error methods: only isFileClosingErr's fallback reads them.
    [strerror] is the table of syscall.Errno's texts. *)
Definition sentinel_text (s : sentinel) : string :=
  match s with
  | ErrUnsupported => "sctp: socket operation unsupported: unsupported operation"
  | ErrMessageTooLong => "sctp: message exceeds the requested maximum"
  | ErrMessageInterrupted => "sctp: could not reach end of message"
  | ErrNotificationTooLong => "sctp: notification exceeds the reassembly limit"
  | ErrShortNotification => "sctp: notification shorter than its fixed header"
  | ErrControlTruncated => "sctp: ancillary data truncated"
  | ErrInvalidRcvInfo => "sctp: SCTP_RCVINFO names no association"
  | ErrMissingRcvInfo => "sctp: endpoint data arrived without SCTP_RCVINFO"
  | ErrAssocListTooLarge => "sctp: association id list too large"
  | ErrInvalidAssocList => "sctp: association id list malformed"
  | EOF => "EOF"
  | NetErrClosed => "use of closed network connection"
  | OsErrClosed => "file already closed"
  | ErrFileClosing => "use of closed file"
  | ErrDeadlineExceeded => "i/o timeout"
  | StdErrUnsupported => "unsupported operation"
  | ErrShortWrite => "short write"
  | Canceled => "context canceled"
  | DeadlineExceeded => "context deadline exceeded"
  end.

(** [captured] says whether capturePipeClosingErr got the sentinel
    (fileClosingErrOnce's value is not nil). *)
Class ClosingSentinel := {
  captured : bool;
  strerror : Z -> string;
}.

Section Wrap.
Context `{CS : ClosingSentinel}.

Definition newline : string := String (Ascii.ascii_of_nat 10) EmptyString.

Fixpoint Error (e : error) : string :=
  match e with
  | Plain (Sentinel s) => sentinel_text s
  | Plain (Errno n) => strerror n
  | InvalidArg msg | Wrapf msg _ | Opaque msg => msg
  | UnsupportedErr n => "sctp: socket operation unsupported: " +:+ strerror n
  | OpErr op network source addr cause =>
      op +:+ (if bool_decide (network = "") then "" else " " +:+ network) +:+
      match source with Some a => " " +:+ a | None => "" end +:+
      match addr, source with
      | Some a, Some _ => "->" +:+ a
      | Some a, None => " " +:+ a
      | None, _ => ""
      end +:+ ": " +:+ Error cause
  | SyscallErr call cause => call +:+ ": " +:+ Error cause
  | Joined es =>
      (fix join (es : list error) : string :=
         match es with
         | [] => ""
         | [e] => Error e
         | e :: es => Error e +:+ newline +:+ join es
         end) es
  end.

(** The fallback's loop [for e := err; e != nil; e = errors.Unwrap(e)]. *)
Fixpoint closing_text (e : error) : bool :=
  bool_decide (Error e = "use of closed file") ||
  match e with
  | OpErr _ _ _ _ e | SyscallErr _ e | Wrapf _ e => closing_text e
  | InvalidArg _ => bool_decide (strerror EINVAL = "use of closed file")
  | _ => false
  end.

Definition isFileClosingErr (err : error) : bool :=
  if captured then errors_Is err ErrFileClosing else closing_text err.

(** ** Wrapping *)
Definition sameAddr (a b : option string) : bool :=
  match a, b with
  | None, None => true
  | Some a, Some b => bool_decide (a = b)
  | _, _ => false
  end.

Definition sameOpError (op network : string) (source addr : option string)
    (op' network' : string) (source' addr' : option string) : bool :=
  bool_decide (op = op') && bool_decide (network = network') &&
  sameAddr source source' && sameAddr addr addr'.

Definition closed_cause (err : error) : bool :=
  errors_Is err NetErrClosed || errors_Is err OsErrClosed || isFileClosingErr err.

Definition opError (op network : string) (source addr : option string)
    (err : option error) : option error :=
  match err with
  | None => None
  | Some (Plain (Sentinel EOF)) => Some (Plain EOF)
  | Some (OpErr op' network' source' addr' cause as e) =>
      if sameOpError op' network' source' addr' op network source addr
      then Some e else Some (OpErr op network source addr e)
  | Some e =>
      Some (OpErr op network source addr (if closed_cause e then Plain NetErrClosed else e))
  end.

Lemma opError_some op network source addr e : opError op network source addr (Some e) <> None.
Proof. destruct e as [[[] |] | | | | | | |]; cbn; try done. by destruct (sameOpError _ _ _ _ _ _ _ _). Qed.

Definition ioOpError (op network : string) (source addr : option string)
    (err : option error) : option error :=
  match err with
  | Some e => if unwraps_many e then Some (OpErr op network source addr e)
              else opError op network source addr err
  | None => opError op network source addr err
  end.

Definition optError (op call network : string) (source addr : option string)
    (err : option error) : option error :=
  opError op network source addr (NewSyscallError call err).
End Wrap.

Definition joinAbortCause (err aerr : option error) : option error :=
  match aerr with
  | None => err
  | Some e =>
      if errors_Is e NetErrClosed then errors_Join [err; Some (Plain NetErrClosed)]
      else match e with
           | OpErr _ _ _ _ cause => errors_Join [err; Some cause]
           | _ => errors_Join [err; aerr]
           end
  end.

(** ** Lemmas *)

(** The number of *net.OpError values on the deepest path of an error. *)
Fixpoint op_depth (e : error) : nat :=
  match e with
  | OpErr _ _ _ _ e => S (op_depth e)
  | SyscallErr _ e | Wrapf _ e => op_depth e
  | Joined es => fold_right Nat.max 0%nat (map op_depth es)
  | _ => 0%nat
  end.

Definition opt_depth (e : option error) : nat :=
  match e with Some e => op_depth e | None => 0%nat end.

Lemma plain_Is_refl p : plain_Is p p = true.
Proof. unfold plain_Is. by rewrite bool_decide_eq_true_2. Qed.

Lemma sameAddr_refl a : sameAddr a a = true.
Proof. destruct a; simpl; [by rewrite bool_decide_eq_true_2 | done]. Qed.

Lemma sameOpError_refl op network source addr :
  sameOpError op network source addr op network source addr = true.
Proof.
  unfold sameOpError. rewrite !sameAddr_refl, !bool_decide_eq_true_2 by done. done.
Qed.

Lemma sameAddr_true a b : sameAddr a b = true -> a = b.
Proof. destruct a, b; simpl; try done. intros ->%bool_decide_eq_true_1. done. Qed.

Lemma sameOpError_true op network source addr op' network' source' addr' :
  sameOpError op' network' source' addr' op network source addr = true ->
  op' = op /\ network' = network /\ source' = source /\ addr' = addr.
Proof.
  unfold sameOpError. intros [[[H1 H2]%andb_prop H3]%andb_prop H4]%andb_prop.
  apply bool_decide_eq_true_1 in H1, H2. auto using sameAddr_true.
Qed.

Definition is_OpErr (e : error) : bool := match e with OpErr _ _ _ _ _ => true | _ => false end.
Definition is_EOF (e : error) : bool := match e with Plain (Sentinel EOF) => true | _ => false end.

(** The causes opError replaces by net.ErrClosed. *)
Definition collapses `{ClosingSentinel} (e : error) : bool :=
  negb (is_OpErr e) && negb (is_EOF e) && closed_cause e.

Lemma opError_cases `{ClosingSentinel} op network source addr e :
  opError op network source addr (Some e) =
  if is_EOF e then Some (Plain EOF) else
  if collapses e then Some (OpErr op network source addr NetErrClosed) else
  match e with
  | OpErr op' network' source' addr' _ =>
      if sameOpError op' network' source' addr' op network source addr
      then Some e else Some (OpErr op network source addr e)
  | _ => Some (OpErr op network source addr e)
  end.
Proof.
  unfold collapses. destruct e as [[[]|]| | | | | | |]; simpl; try done;
    destruct (closed_cause _); done.
Qed.

Lemma errors_Join_Is es t : Is (errors_Join es) t = existsb (fun e => Is e t) es.
Proof.
  assert (H : existsb (fun e => Is e t) es = existsb (fun e => errors_Is e t) (omap id es)).
  { induction es as [| [e |] es IH]; simpl; [done | by rewrite IH | done]. }
  rewrite H. unfold errors_Join. destruct (omap id es) eqn:Hes; done.
Qed.

Lemma errors_Join_depth es :
  opt_depth (errors_Join es) = fold_right Nat.max 0%nat (map opt_depth es).
Proof.
  assert (H : fold_right Nat.max 0%nat (map opt_depth es) =
              fold_right Nat.max 0%nat (map op_depth (omap id es))).
  { induction es as [| [e |] es IH]; simpl; [done | by rewrite IH | done]. }
  rewrite H. unfold errors_Join. destruct (omap id es) eqn:Hes; done.
Qed.

(** ** Theorems *)
Section Properties.
Context `{CS : ClosingSentinel}.

(** opError never double-wraps: wrapping its own result again for the same
    operation returns that result unchanged. *)
Lemma opError_idempotent op network source addr err :
  opError op network source addr (opError op network source addr err) =
  opError op network source addr err.
Proof.
  destruct err as [e |]; [| done]. rewrite opError_cases.
  destruct (is_EOF e); [done |].
  destruct (collapses e); [simpl; by rewrite sameOpError_refl |].
  destruct e; simpl; rewrite ?sameOpError_refl; try done.
  destruct (sameOpError _ _ _ _ _ _ _ _) eqn:Hs; simpl; rewrite ?Hs, ?sameOpError_refl; done.
Qed.

(** What errors.Is finds through the wrap: io.EOF passes unwrapped; a
    closed-descriptor cause that is not itself a *net.OpError is exactly
    net.ErrClosed and nothing else; any other cause is found as before.
    The result, when it is not io.EOF, describes this very operation. *)
Theorem opError_spec op network source addr e :
  (forall t, Is (opError op network source addr (Some e)) t =
     if collapses e then plain_Is NetErrClosed t else errors_Is e t) /\
  (is_EOF e = false ->
   exists cause, opError op network source addr (Some e) =
                 Some (OpErr op network source addr cause)) /\
  (collapses e = true ->
   opError op network source addr (Some e) = Some (OpErr op network source addr NetErrClosed)).
Proof.
  rewrite opError_cases. split; [| split].
  - intros t. destruct (is_EOF e) eqn:Heof.
    + destruct e as [[[]|]| | | | | | |]; done.
    + destruct (collapses e); [done |].
      destruct e; try done. destruct (sameOpError _ _ _ _ _ _ _ _); done.
  - intros ->. destruct (collapses e); [eauto |].
    destruct e; eauto. destruct (sameOpError _ _ _ _ _ _ _ _) eqn:Hs; [| eauto].
    apply sameOpError_true in Hs as (-> & -> & -> & ->). eauto.
  - intros Hc. rewrite Hc. unfold collapses in Hc.
    destruct (is_EOF e); [by rewrite andb_false_r in Hc | done].
Qed.

(** A socket-option failure on a closed descriptor, in any of the three
    forms the standard library reports one, is one net.ErrClosed wrap, with
    no system call name left in it. *)
Lemma optError_closed op call network source addr e :
  closed_cause (SyscallErr call e) = true ->
  optError op call network source addr (Some e) =
  Some (OpErr op network source addr NetErrClosed).
Proof. unfold optError. simpl. intros ->. done. Qed.

(** A read interrupted by an Abort reports one *net.OpError: joining the
    abort's outcome and wrapping the result for the read nests no second
    one, although Abort's own error is a *net.OpError already. *)
Theorem joinAbortCause_single_op op network source addr e aerr :
  op_depth e = 0%nat ->
  (opt_depth aerr <= 1)%nat ->
  (forall a, aerr = Some a -> is_OpErr a = true \/ op_depth a = 0%nat) ->
  is_EOF e = false ->
  opt_depth (ioOpError op network source addr (joinAbortCause (Some e) aerr)) = 1%nat.
Proof.
  intros He Ha1 Ha2 Heof.
  assert (Hbase : opt_depth (ioOpError op network source addr (Some e)) = 1%nat).
  { unfold ioOpError. destruct (unwraps_many e); [simpl; by rewrite He |].
    rewrite opError_cases, Heof. destruct (collapses e); [done |].
    destruct e; simpl in *; congruence. }
  destruct aerr as [a |]; [| done]. unfold joinAbortCause.
  destruct (errors_Is a NetErrClosed); [simpl; by rewrite He |].
  destruct (Ha2 a eq_refl) as [Ho | Ho].
  - destruct a; try done. simpl in *. rewrite He. lia.
  - destruct a; simpl in *; rewrite ?He, ?Ho; done.
Qed.

(** Nothing of either error is lost to errors.Is by the join, save an
    abort error that matches net.ErrClosed, which counts as that alone. *)
Lemma joinAbortCause_Is err a t :
  Is (joinAbortCause err (Some a)) t =
  Is err t || (if errors_Is a NetErrClosed then plain_Is NetErrClosed t else errors_Is a t).
Proof.
  unfold joinAbortCause. destruct (errors_Is a NetErrClosed);
    [| destruct a]; rewrite errors_Join_Is; simpl; by rewrite ?orb_false_r.
Qed.
End Properties.

(** ** Witness *)
#[local] Instance go_runtime : ClosingSentinel := { captured := true; strerror := fun _ => "errno" }.

(** A read cut short by an Abort that itself failed with EPIPE. *)
Lemma joinAbortCause_single_op_witness :
  opt_depth (ioOpError "read" "sctp" None None
    (joinAbortCause (Some (Plain ErrShortNotification))
       (Some (OpErr "close" "sctp" None None (Plain (Errno EPIPE)))))) = 1%nat.
Proof.
  apply joinAbortCause_single_op; [reflexivity | vm_compute; constructor | | reflexivity].
  intros a [= <-]. left. reflexivity.
Defined.
