(* ===== verification/Enums.v ===== *)
(** * Enumerations (src/enums.go)

    The numbers, name tables and String methods of the package's
    enumerations.  A Go map literal is the association list of its entries,
    a String method that falls back to [Type(%d)] is [enum_String], and the
    three bit masks print through [joinBits].

    The theorems show that String loses nothing ([enum_String_injective])
    and that joinBits's loop prints exactly the set bits ([joinBits_spec]). *)
From Stdlib Require Import ZArith Lia Bool Ascii.
From stdpp Require Import base list option strings pretty.
From S2P Require Import Prelude.

(** ** Printing *)

(** [names[v]] of a map literal. *)
Fixpoint lookup_name (names : list (Z * string)) (v : Z) : option string :=
  match names with
  | [] => None
  | (k, name) :: names => if k =? v then Some name else lookup_name names v
  end.

Definition enum_String (names : list (Z * string)) (ty : string) (v : Z) : string :=
  match lookup_name names v with
  | Some name => name
  | None => ty +:+ "(" +:+ pretty v +:+ ")"
  end.

(** fmt's %x of a non-negative number; 16 digits hold a uint64. *)
Definition hex_digit (d : Z) : ascii :=
  ascii_of_N (Z.to_N (if d <? 10 then 48 + d else 87 + d)).

Fixpoint hex_digits (fuel : nat) (v : Z) (acc : string) : string :=
  match fuel with
  | O => acc
  | S fuel => let acc := String (hex_digit (v mod 16)) acc in
              if v / 16 =? 0 then acc else hex_digits fuel (v / 16) acc
  end.

Definition hex (v : Z) : string := hex_digits 16 v "".

(** joinBits: the loop over the named bits carries the builder's contents
    and the bits not named yet. *)
Definition write_sep (b : string) : string := if bool_decide (b = "") then b else b +:+ "|".

Fixpoint joinBits_loop (names : list (Z * string)) (b : string) (rem : Z) : string * Z :=
  match names with
  | [] => (b, rem)
  | (bit, name) :: names =>
      if negb (bit =? 0) && (Z.land rem bit =? bit)
      then joinBits_loop names (write_sep b +:+ name) (andnot rem bit)
      else joinBits_loop names b rem
  end.

Definition joinBits (v : Z) (names : list (Z * string)) : string :=
  let '(b, rem) := joinBits_loop names "" v in
  if negb (rem =? 0) || bool_decide (b = "")
  then write_sep b +:+ "0x" +:+ hex rem else b.

(** ** The enumerations *)

(** AssocID int32 *)

(** AssocState int32 *)
Definition StateEmpty : Z := 0.
Definition StateClosed : Z := 1.
Definition StateCookieWait : Z := 2.
Definition StateCookieEchoed : Z := 3.
Definition StateEstablished : Z := 4.
Definition StateShutdownPending : Z := 5.
Definition StateShutdownSent : Z := 6.
Definition StateShutdownReceived : Z := 7.
Definition StateShutdownAckSent : Z := 8.
Definition assocStateNames : list (Z * string) :=
  [ (StateEmpty, "StateEmpty");
    (StateClosed, "StateClosed");
    (StateCookieWait, "StateCookieWait");
    (StateCookieEchoed, "StateCookieEchoed");
    (StateEstablished, "StateEstablished");
    (StateShutdownPending, "StateShutdownPending");
    (StateShutdownSent, "StateShutdownSent");
    (StateShutdownReceived, "StateShutdownReceived");
    (StateShutdownAckSent, "StateShutdownAckSent") ].
Definition AssocState_String (v : Z) : string := enum_String assocStateNames "AssocState" v.

(** PathState int32 *)
Definition PathInactive : Z := 0.
Definition PathPotentiallyFailed : Z := 1.
Definition PathActive : Z := 2.
Definition PathUnconfirmed : Z := 3.
Definition PathUnknown : Z := 0xffff.
Definition pathStateNames : list (Z * string) :=
  [ (PathInactive, "PathInactive");
    (PathPotentiallyFailed, "PathPotentiallyFailed");
    (PathActive, "PathActive");
    (PathUnconfirmed, "PathUnconfirmed");
    (PathUnknown, "PathUnknown") ].
Definition PathState_String (v : Z) : string := enum_String pathStateNames "PathState" v.

(** PRPolicy uint16 *)
Definition PRNone : Z := 0x0000.
Definition PRTTL : Z := 0x0010.
Definition PRRtx : Z := 0x0020.
Definition PRPrio : Z := 0x0030.
Definition PRAll : Z := 0x0080.
Definition prPolicyNames : list (Z * string) :=
  [ (PRNone, "PRNone");
    (PRTTL, "PRTTL");
    (PRRtx, "PRRtx");
    (PRPrio, "PRPrio");
    (PRAll, "PRAll") ].
Definition PRPolicy_String (v : Z) : string := enum_String prPolicyNames "PRPolicy" v.

(** Scheduler uint32 *)
Definition SchedFCFS : Z := 0.
Definition SchedPrio : Z := 1.
Definition SchedRR : Z := 2.
Definition SchedFC : Z := 3.
Definition SchedWFQ : Z := 4.
Definition schedulerNames : list (Z * string) :=
  [ (SchedFCFS, "SchedFCFS");
    (SchedPrio, "SchedPrio");
    (SchedRR, "SchedRR");
    (SchedFC, "SchedFC");
    (SchedWFQ, "SchedWFQ") ].
Definition Scheduler_String (v : Z) : string := enum_String schedulerNames "Scheduler" v.

(** FragmentInterleave int32 *)
Definition InterleaveNone : Z := 0.
Definition InterleaveAssocs : Z := 1.
Definition InterleaveStreams : Z := 2.
Definition fragmentInterleaveNames : list (Z * string) :=
  [ (InterleaveNone, "InterleaveNone");
    (InterleaveAssocs, "InterleaveAssocs");
    (InterleaveStreams, "InterleaveStreams") ].
Definition FragmentInterleave_String (v : Z) : string := enum_String fragmentInterleaveNames "FragmentInterleave" v.

(** PFExposure uint32 *)
Definition PFExposeUnset : Z := 0.
Definition PFExposeDisabled : Z := 1.
Definition PFExposeEnabled : Z := 2.
Definition pfExposureNames : list (Z * string) :=
  [ (PFExposeUnset, "PFExposeUnset");
    (PFExposeDisabled, "PFExposeDisabled");
    (PFExposeEnabled, "PFExposeEnabled") ].
Definition PFExposure_String (v : Z) : string := enum_String pfExposureNames "PFExposure" v.

(** StreamResetMask uint32 *)
Definition EnableResetStreamReq : Z := 0x01.
Definition EnableResetAssocReq : Z := 0x02.
Definition EnableChangeAssocReq : Z := 0x04.
Definition streamResetMaskBits : list (Z * string) :=
  [ (EnableResetStreamReq, "EnableResetStreamReq");
    (EnableResetAssocReq, "EnableResetAssocReq");
    (EnableChangeAssocReq, "EnableChangeAssocReq") ].
Definition StreamResetMask_String (v : Z) : string := joinBits v streamResetMaskBits.

(** ResetDirection uint16 *)
Definition ResetIncoming : Z := 0x01.
Definition ResetOutgoing : Z := 0x02.
Definition resetDirectionBits : list (Z * string) :=
  [ (ResetIncoming, "ResetIncoming");
    (ResetOutgoing, "ResetOutgoing") ].
Definition ResetDirection_String (v : Z) : string := joinBits v resetDirectionBits.

(** HMACID uint16 *)
Definition HMACSHA1 : Z := 1.
Definition HMACSHA256 : Z := 3.
Definition hmacidNames : list (Z * string) :=
  [ (HMACSHA1, "HMACSHA1");
    (HMACSHA256, "HMACSHA256") ].
Definition HMACID_String (v : Z) : string := enum_String hmacidNames "HMACID" v.

(** ErrorCause uint16 *)
Definition CauseNone : Z := 0.
Definition CauseInvalidStream : Z := 1.
Definition CauseMissingParam : Z := 2.
Definition CauseStaleCookie : Z := 3.
Definition CauseOutOfResource : Z := 4.
Definition CauseUnresolvableAddr : Z := 5.
Definition CauseUnrecognizedChunk : Z := 6.
Definition CauseInvalidParam : Z := 7.
Definition CauseUnrecognizedParams : Z := 8.
Definition CauseNoUserData : Z := 9.
Definition CauseCookieInShutdown : Z := 10.
Definition CauseRestartNewAddrs : Z := 11.
Definition CauseUserAbort : Z := 12.
Definition CauseProtocolViolation : Z := 13.
Definition CauseRestartNewEncapPort : Z := 14.
Definition CauseDeleteLastAddr : Z := 0xa0.
Definition CauseResourceShortage : Z := 0xa1.
Definition CauseDeleteSourceAddr : Z := 0xa2.
Definition CauseIllegalASCONFAck : Z := 0xa3.
Definition CauseRequestRefused : Z := 0xa4.
Definition CauseUnsupportedHMAC : Z := 0x105.
Definition errorCauseIANANames : list (Z * string) :=
  [ (CauseNone, "No Error");
    (CauseInvalidStream, "Invalid Stream Identifier");
    (CauseMissingParam, "Missing Mandatory Parameter");
    (CauseStaleCookie, "Stale Cookie");
    (CauseOutOfResource, "Out of Resource");
    (CauseUnresolvableAddr, "Unresolvable Address");
    (CauseUnrecognizedChunk, "Unrecognized Chunk Type");
    (CauseInvalidParam, "Invalid Mandatory Parameter");
    (CauseUnrecognizedParams, "Unrecognized Parameters");
    (CauseNoUserData, "No User Data");
    (CauseCookieInShutdown, "Cookie Received While Shutting Down");
    (CauseRestartNewAddrs, "Restart of an Association with New Addresses");
    (CauseUserAbort, "User-Initiated Abort");
    (CauseProtocolViolation, "Protocol Violation");
    (CauseRestartNewEncapPort, "Restart of an Association with New Encapsulation Port");
    (CauseDeleteLastAddr, "Request to Delete Last Remaining IP Address");
    (CauseResourceShortage, "Operation Refused Due to Resource Shortage");
    (CauseDeleteSourceAddr, "Request to Delete Source IP Address");
    (CauseIllegalASCONFAck, "Association Aborted due to illegal ASCONF-ACK");
    (CauseRequestRefused, "Request refused - no authorization");
    (CauseUnsupportedHMAC, "Unsupported HMAC Identifier") ].
Definition ErrorCause_String (v : Z) : string := enum_String errorCauseIANANames "ErrorCause" v.

(** AbandonPolicy uint8 *)
Definition AbandonAbort : Z := 0.
Definition AbandonQuiet : Z := 1.
Definition abandonPolicyNames : list (Z * string) :=
  [ (AbandonAbort, "AbandonAbort");
    (AbandonQuiet, "AbandonQuiet") ].
Definition AbandonPolicy_String (v : Z) : string := enum_String abandonPolicyNames "AbandonPolicy" v.

(** SendFlags uint16 *)
Definition SendUnordered : Z := Z.shiftl 1 0.
Definition SendSACKImmediately : Z := Z.shiftl 1 3.
Definition sendFlagsBits : list (Z * string) :=
  [ (SendUnordered, "SendUnordered");
    (SendSACKImmediately, "SendSACKImmediately") ].
Definition SendFlags_String (v : Z) : string := joinBits v sendFlagsBits.

(** EventType uint16 *)
Definition EventAssocChange : Z := 0x8001.
Definition EventPeerAddrChange : Z := 0x8002.
Definition EventRemoteError : Z := 0x8004.
Definition EventShutdown : Z := 0x8005.
Definition EventPartialDelivery : Z := 0x8006.
Definition EventAdaptationIndication : Z := 0x8007.
Definition EventAuthentication : Z := 0x8008.
Definition EventSenderDry : Z := 0x8009.
Definition EventStreamReset : Z := 0x800a.
Definition EventAssocReset : Z := 0x800b.
Definition EventStreamChange : Z := 0x800c.
Definition EventSendFailed : Z := 0x800d.
Definition eventTypeNames : list (Z * string) :=
  [ (EventAssocChange, "EventAssocChange");
    (EventPeerAddrChange, "EventPeerAddrChange");
    (EventRemoteError, "EventRemoteError");
    (EventShutdown, "EventShutdown");
    (EventPartialDelivery, "EventPartialDelivery");
    (EventAdaptationIndication, "EventAdaptationIndication");
    (EventAuthentication, "EventAuthentication");
    (EventSenderDry, "EventSenderDry");
    (EventStreamReset, "EventStreamReset");
    (EventAssocReset, "EventAssocReset");
    (EventStreamChange, "EventStreamChange");
    (EventSendFailed, "EventSendFailed") ].
Definition EventType_String (v : Z) : string := enum_String eventTypeNames "EventType" v.

(** AssocChangeState uint16 *)
Definition AssocCommUp : Z := 0.
Definition AssocCommLost : Z := 1.
Definition AssocRestart : Z := 2.
Definition AssocShutdownComplete : Z := 3.
Definition AssocCantStart : Z := 4.
Definition assocChangeStateNames : list (Z * string) :=
  [ (AssocCommUp, "AssocCommUp");
    (AssocCommLost, "AssocCommLost");
    (AssocRestart, "AssocRestart");
    (AssocShutdownComplete, "AssocShutdownComplete");
    (AssocCantStart, "AssocCantStart") ].
Definition AssocChangeState_String (v : Z) : string := enum_String assocChangeStateNames "AssocChangeState" v.

(** AddrChangeState int32 *)
Definition AddrAvailable : Z := 0.
Definition AddrUnreachable : Z := 1.
Definition AddrRemoved : Z := 2.
Definition AddrAdded : Z := 3.
Definition AddrMadePrimary : Z := 4.
Definition AddrConfirmed : Z := 5.
Definition AddrPotentiallyFailed : Z := 6.
Definition addrChangeStateNames : list (Z * string) :=
  [ (AddrAvailable, "AddrAvailable");
    (AddrUnreachable, "AddrUnreachable");
    (AddrRemoved, "AddrRemoved");
    (AddrAdded, "AddrAdded");
    (AddrMadePrimary, "AddrMadePrimary");
    (AddrConfirmed, "AddrConfirmed");
    (AddrPotentiallyFailed, "AddrPotentiallyFailed") ].
Definition AddrChangeState_String (v : Z) : string := enum_String addrChangeStateNames "AddrChangeState" v.

(** AuthIndication uint32 *)
Definition AuthNewKey : Z := 0.
Definition AuthFreeKey : Z := 1.
Definition AuthNoAuth : Z := 2.
Definition authIndicationNames : list (Z * string) :=
  [ (AuthNewKey, "AuthNewKey");
    (AuthFreeKey, "AuthFreeKey");
    (AuthNoAuth, "AuthNoAuth") ].
Definition AuthIndication_String (v : Z) : string := enum_String authIndicationNames "AuthIndication" v.

(** AddrChangeReason int32 *)
Definition ReasonNone : Z := 0.
Definition ReasonFailedThreshold : Z := 1.
Definition ReasonReceivedSACK : Z := 2.
Definition ReasonHeartbeatSuccess : Z := 3.
Definition ReasonResponseToUserReq : Z := 4.
Definition ReasonInternalError : Z := 5.
Definition ReasonShutdownGuardExpires : Z := 6.
Definition ReasonPeerFaulty : Z := 7.
Definition addrChangeReasonNames : list (Z * string) :=
  [ (ReasonNone, "ReasonNone");
    (ReasonFailedThreshold, "ReasonFailedThreshold");
    (ReasonReceivedSACK, "ReasonReceivedSACK");
    (ReasonHeartbeatSuccess, "ReasonHeartbeatSuccess");
    (ReasonResponseToUserReq, "ReasonResponseToUserReq");
    (ReasonInternalError, "ReasonInternalError");
    (ReasonShutdownGuardExpires, "ReasonShutdownGuardExpires");
    (ReasonPeerFaulty, "ReasonPeerFaulty") ].
Definition AddrChangeReason_String (v : Z) : string := enum_String addrChangeReasonNames "AddrChangeReason" v.

(** ** Tables *)
Definition enum_tables : list (list (Z * string) * string) :=
  [ (assocStateNames, "AssocState");
    (pathStateNames, "PathState");
    (prPolicyNames, "PRPolicy");
    (schedulerNames, "Scheduler");
    (fragmentInterleaveNames, "FragmentInterleave");
    (pfExposureNames, "PFExposure");
    (hmacidNames, "HMACID");
    (errorCauseIANANames, "ErrorCause");
    (abandonPolicyNames, "AbandonPolicy");
    (eventTypeNames, "EventType");
    (assocChangeStateNames, "AssocChangeState");
    (addrChangeStateNames, "AddrChangeState");
    (authIndicationNames, "AuthIndication");
    (addrChangeReasonNames, "AddrChangeReason") ].

(** The three bit masks' tables. *)
Definition mask_tables : list (list (Z * string)) :=
  [ streamResetMaskBits; resetDirectionBits; sendFlagsBits ].

(** What joinBits promises: the names of the bits of [v] that have one, in
    table order, and the bits that have none as one hexadecimal number, all
    joined by bars; the number alone when no bit has a name. *)
Definition named_bits (v : Z) (names : list (Z * string)) : list (Z * string) :=
  List.filter (fun e => Z.land v (fst e) =? fst e) names.

Definition unnamed (v : Z) (names : list (Z * string)) : Z :=
  fold_left (fun rem e => andnot rem (fst e)) (named_bits v names) v.

Definition joinBits_ref (v : Z) (names : list (Z * string)) : string :=
  let set := map snd (named_bits v names) in
  String.concat "|"
    (set ++ (if negb (unnamed v names =? 0) || bool_decide (set = [])
             then ["0x" +:+ hex (unnamed v names)] else [])).

(** A table the masks may use: every bit is a power of two, each stands in
    the table once, and no name is empty. *)
Definition mask_table_ok (names : list (Z * string)) : bool :=
  bool_decide (NoDup (map fst names)) &&
  forallb (fun e => (0 <? fst e) && (2 ^ Z.log2 (fst e) =? fst e) &&
                    negb (bool_decide (snd e = ""))) names.

(** A table enum_String may use: no two numbers share a name, and no name
    looks like the fallback's text. *)
Definition enum_table_ok (t : list (Z * string) * string) : bool :=
  bool_decide (NoDup (map snd (fst t))) &&
  forallb (fun e => negb (String.prefix (snd t +:+ "(") (snd e))) (fst t).

(** ** Lemmas on strings *)
Lemma string_app_assoc a b c : (a +:+ b) +:+ c = a +:+ (b +:+ c).
Proof. induction a as [| x a IH]; [done | exact (f_equal (String x) IH)]. Qed.

Lemma string_app_nil a : a +:+ "" = a.
Proof. induction a as [| x a IH]; [done | exact (f_equal (String x) IH)]. Qed.

Lemma string_app_ne_l a b : a <> "" -> a +:+ b <> "".
Proof. by destruct a. Qed.

Lemma string_app_ne_r a b : b <> "" -> a +:+ b <> "".
Proof. by destruct a. Qed.

Lemma prefix_app a b : String.prefix a (a +:+ b) = true.
Proof.
  induction a as [| x a IH]; [by destruct b |]. 
  change (String.prefix (String x a) (String x (a +:+ b)) = true). simpl.
  destruct (Ascii.ascii_dec x x); [exact IH | done].
Qed.

Lemma app_paren_inj a b : a +:+ ")" = b +:+ ")" -> a = b.
Proof.
  revert b. induction a as [| x a IH]; intros [| y b] H; [done | | |];
    injection H as Hx H; subst.
  - by destruct b.
  - by destruct a.
  - f_equal. by apply IH.
Qed.

Lemma concat_snoc set x :
  set <> [] -> String.concat "|" (set ++ [x]) = String.concat "|" set +:+ "|" +:+ x.
Proof.
  induction set as [| y set IH]; [done |]. intros _.
  destruct set as [| z set]; [done |].
  change (y +:+ "|" +:+ String.concat "|" ((z :: set) ++ [x]) =
          (y +:+ "|" +:+ String.concat "|" (z :: set)) +:+ "|" +:+ x).
  rewrite IH by done. by rewrite !string_app_assoc.
Qed.

Lemma concat_ne set : set <> [] -> Forall (fun s => s <> "") set -> String.concat "|" set <> "".
Proof.
  intros Hs Hf. destruct set as [| x [| y set]]; [done | |];
    inversion Hf; simplify_eq; simpl; [done |]. by apply string_app_ne_l.
Qed.

Lemma write_sep_concat set x :
  Forall (fun s => s <> "") set ->
  write_sep (String.concat "|" set) +:+ x = String.concat "|" (set ++ [x]).
Proof.
  intros Hf. destruct (decide (set = [])) as [-> | Hs]; [done |].
  unfold write_sep. rewrite bool_decide_eq_false_2 by (by apply concat_ne).
  rewrite concat_snoc by done. by rewrite string_app_assoc.
Qed.

(** ** Lemmas on tables *)
Lemma lookup_name_elem names v s : lookup_name names v = Some s -> (v, s) ∈ names.
Proof.
  induction names as [| [k n] names IH]; simpl; [done |].
  destruct (Z.eqb_spec k v); intros; simplify_eq; [by left | right; auto].
Qed.

Lemma NoDup_snd_inj (names : list (Z * string)) v w s :
  NoDup (map snd names) -> (v, s) ∈ names -> (w, s) ∈ names -> v = w.
Proof.
  induction names as [| [k n] names IH]; simpl; [intros _ H; inversion H |].
  intros [Hn Hd]%NoDup_cons.
  assert (Hno : forall k', (k', n) ∈ names -> False).
  { intros k' H. apply Hn. apply list_elem_of_fmap. by exists (k', n). }
  rewrite !elem_of_cons. intros [Hv | Hv] [Hw | Hw]; simplify_eq; eauto; exfalso; eauto.
Qed.

Lemma fallback_ne names ty (v w : Z) s :
  enum_table_ok (names, ty) = true -> lookup_name names v = Some s ->
  s <> ty +:+ "(" +:+ pretty w +:+ ")".
Proof.
  intros [_ Hp]%andb_prop Hs%lookup_name_elem ->. rewrite forallb_forall in Hp.
  apply list_elem_of_In in Hs. specialize (Hp _ Hs). simpl in Hp.
  rewrite <- string_app_assoc, prefix_app in Hp. done.
Qed.

Lemma enum_String_inj names ty v w :
  enum_table_ok (names, ty) = true ->
  enum_String names ty v = enum_String names ty w -> v = w.
Proof.
  intros Hok. unfold enum_String.
  destruct (lookup_name names v) as [s |] eqn:Hv, (lookup_name names w) as [t |] eqn:Hw.
  - intros ->. pose proof Hok as [Hd _]%andb_prop. apply bool_decide_eq_true_1 in Hd.
    eauto using NoDup_snd_inj, lookup_name_elem.
  - intros ->. by edestruct (fallback_ne names ty v w).
  - intros <-. by edestruct (fallback_ne names ty w v).
  - intros H. apply (inj (String.append ty)) in H. simpl in H.
    injection H as H. apply app_paren_inj in H. by apply (inj pretty) in H.
Qed.

(** ** joinBits *)
Lemma pow2_bits p k : 0 <= p -> Z.testbit (2 ^ p) k = (p =? k).
Proof. intros. apply Z.pow2_bits_eqb; lia. Qed.

(** Clearing another power of two leaves the test of a bit unchanged. *)
Lemma andnot_other rem p q :
  0 <= p -> 0 <= q -> p <> q ->
  (Z.land (andnot rem (2 ^ p)) (2 ^ q) =? 2 ^ q) = (Z.land rem (2 ^ q) =? 2 ^ q).
Proof.
  intros. replace (Z.land (andnot rem (2 ^ p)) (2 ^ q)) with (Z.land rem (2 ^ q)); [done |].
  unfold andnot. apply Z.bits_inj'. intros k Hk.
  rewrite !Z.land_spec, Z.ldiff_spec, !pow2_bits by lia.
  destruct (Z.eqb_spec p k), (Z.eqb_spec q k); subst; rewrite ?andb_false_r, ?andb_true_r; done.
Qed.

Lemma filter_andnot rem bit names :
  0 < bit -> 2 ^ Z.log2 bit = bit -> bit ∉ map fst names -> mask_table_ok names = true ->
  named_bits (andnot rem bit) names = named_bits rem names.
Proof.
  intros Hb Hp Hn [_ Hok]%andb_prop. rewrite forallb_forall in Hok.
  unfold named_bits. apply List.filter_ext_in. intros [b s] Hin.
  specialize (Hok _ Hin). simpl in *.
  apply andb_prop in Hok as [[H0 H1]%andb_prop _].
  apply Z.eqb_eq in H1. apply Z.ltb_lt in H0. rewrite <- Hp, <- H1.
  apply andnot_other; try apply Z.log2_nonneg.
  intros E. apply Hn. apply list_elem_of_fmap. exists (b, s).
  split; [simpl; congruence | by apply list_elem_of_In].
Qed.

Lemma mask_table_ok_cons bit s names :
  mask_table_ok ((bit, s) :: names) = true ->
  0 < bit /\ 2 ^ Z.log2 bit = bit /\ s <> "" /\ (bit ∉ map fst names) /\
  mask_table_ok names = true.
Proof.
  unfold mask_table_ok. simpl. intros [Hd H]%andb_prop.
  apply andb_prop in H as [[[H0 H1]%andb_prop Hs]%andb_prop Hf].
  apply bool_decide_eq_true_1 in Hd. apply NoDup_cons in Hd as [Hn Hd].
  apply Z.ltb_lt in H0. apply Z.eqb_eq in H1. apply negb_true_iff, bool_decide_eq_false_1 in Hs.
  rewrite Hf, bool_decide_eq_true_2 by done. done.
Qed.

Lemma joinBits_loop_spec names done rem :
  mask_table_ok names = true -> Forall (fun s => s <> "") done ->
  joinBits_loop names (String.concat "|" done) rem =
  (String.concat "|" (done ++ map snd (named_bits rem names)), unnamed rem names).
Proof.
  revert done rem. induction names as [| [bit s] names IH]; intros done rem Hok Hd.
  { unfold unnamed. simpl. by rewrite app_nil_r. }
  apply mask_table_ok_cons in Hok as (Hb & Hp & Hs & Hn & Hok).
  unfold unnamed, named_bits. simpl. rewrite (proj2 (Z.eqb_neq bit 0)) by lia. simpl.
  destruct (Z.eqb_spec (Z.land rem bit) bit); [| by apply IH].
  rewrite write_sep_concat, IH by (try apply Forall_app; auto).
  rewrite <- app_assoc. unfold unnamed. simpl. by rewrite filter_andnot.
Qed.

Lemma named_bits_ne v names :
  mask_table_ok names = true -> Forall (fun s => s <> "") (map snd (named_bits v names)).
Proof.
  induction names as [| [bit s] names IH]; intros Hok; [constructor |].
  apply mask_table_ok_cons in Hok as (_ & _ & Hs & _ & Hok).
  unfold named_bits. simpl. destruct (Z.land v bit =? bit); simpl; [constructor |]; auto.
Qed.

Lemma joinBits_ok v names : mask_table_ok names = true -> joinBits v names = joinBits_ref v names.
Proof.
  intros Hok. unfold joinBits, joinBits_ref.
  change "" with (String.concat "|" []). rewrite joinBits_loop_spec by (auto; constructor).
  simpl. pose proof (named_bits_ne v names Hok) as Hne.
  destruct (decide (map snd (named_bits v names) = [])) as [E | E].
  - rewrite E. simpl. by rewrite !orb_true_r.
  - rewrite !(bool_decide_eq_false_2) by (try apply concat_ne; done).
    rewrite !orb_false_r. destruct (negb _); [by apply write_sep_concat | by rewrite app_nil_r].
Qed.

(** ** Theorems *)

(** String loses nothing: in each of the fifteen enumerations with a
    name table, two values with the same text are the same value, named or
    not. *)
Theorem enum_String_injective :
  Forall (fun t => forall v w, enum_String (fst t) (snd t) v = enum_String (fst t) (snd t) w -> v = w)
         enum_tables.
Proof.
  apply (Forall_impl (fun t => enum_table_ok t = true)).
  - repeat constructor.
  - intros [names ty] Hok v w. by apply enum_String_inj.
Qed.

(** joinBits prints a mask as its set bits' names and the rest in
    hexadecimal, for every value of the three masks. *)
Theorem joinBits_spec :
  Forall (fun names => forall v, joinBits v names = joinBits_ref v names) mask_tables.
Proof.
  apply (Forall_impl (fun t => mask_table_ok t = true)).
  - repeat constructor.
  - intros names Hok v. by apply joinBits_ok.
Qed.
