(* ===== verification/Netip.v ===== *)
(** * netip.Addr and decimal numbers

    The part of Go's net/netip and strconv the package uses.  An address is
    invalid (the zero netip.Addr), IPv4 with its 4 bytes, or IPv6 with its
    16 bytes and its zone, [""] for none.  netip keeps an IPv4-mapped
    address distinct from the plain one until Unmap. *)
From Stdlib Require Import ZArith Lia Bool Ascii.
From stdpp Require Import base list option strings pretty.
From coqutil Require Import Byte.
From S2P Require Import Prelude.

(** ** Addresses *)
Inductive Addr :=
| AddrZero
| Addr4 (b : bytes)
| Addr6 (b : bytes) (zone : string).

#[global] Instance byte_eq_dec : EqDecision byte.
Proof. intros x y. destruct (Byte.byte_eq_dec x y); [by left | by right]. Defined.

#[global] Instance Addr_eq_dec : EqDecision Addr.
Proof. solve_decision. Defined.

(** The byte arrays have their fixed lengths. *)
Definition addr_wf (ip : Addr) : Prop :=
  match ip with AddrZero => True | Addr4 b => len b = 4 | Addr6 b _ => len b = 16 end.

Definition IsValid (ip : Addr) : bool := match ip with AddrZero => false | _ => true end.
Definition Is4 (ip : Addr) : bool := match ip with Addr4 _ => true | _ => false end.
Definition Is6 (ip : Addr) : bool := match ip with Addr6 _ _ => true | _ => false end.
Definition Zone (ip : Addr) : string := match ip with Addr6 _ z => z | _ => "" end.

(** The 12 bytes before the IPv4 address in ::ffff:0:0/96. *)
Definition mapped_prefix : bytes := zeros 10 ++ [Byte.xff; Byte.xff].

Definition Is4In6 (ip : Addr) : bool :=
  match ip with Addr6 b _ => bool_decide (take 12 b = mapped_prefix) | _ => false end.

(** Unmap drops the zone of a mapped address with the mapping. *)
Definition Unmap (ip : Addr) : Addr :=
  match ip with
  | Addr6 b _ => if Is4In6 ip then Addr4 (drop 12 b) else ip
  | _ => ip
  end.

Definition WithZone (ip : Addr) (zone : string) : Addr :=
  match ip with Addr6 b _ => Addr6 b zone | _ => ip end.

Definition AddrFromSlice (b : bytes) : option Addr :=
  if len b =? 4 then Some (Addr4 b) else if len b =? 16 then Some (Addr6 b "") else None.

Definition As16 (ip : Addr) : bytes :=
  match ip with
  | AddrZero => zeros 16
  | Addr4 b => mapped_prefix ++ b
  | Addr6 b _ => b
  end.

(** As4 of an IPv4 address; the code calls it on nothing else. *)
Definition As4 (ip : Addr) : bytes :=
  match ip with Addr4 b => b | Addr6 b _ => drop 12 b | AddrZero => zeros 4 end.

Definition IPv6Unspecified : Addr := Addr6 (zeros 16) "".
Definition IPv4Unspecified : Addr := Addr4 (zeros 4).

Definition IsUnspecified (ip : Addr) : bool :=
  bool_decide (ip = IPv4Unspecified) || bool_decide (ip = IPv6Unspecified).

(** fe80::/10 and 169.254.0.0/16; a mapped address is judged as IPv4. *)
Definition IsLinkLocalUnicast (ip : Addr) : bool :=
  match Unmap ip with
  | Addr4 (b0 :: b1 :: _) => (byte.unsigned b0 =? 169) && (byte.unsigned b1 =? 254)
  | Addr6 (b0 :: b1 :: _) _ => (byte.unsigned b0 =? 0xfe) && (Z.land (byte.unsigned b1) 0xc0 =? 0x80)
  | _ => false
  end.

(** netip.AddrPort *)
Record AddrPort := AddrPortFrom { ap_addr : Addr; ap_port : Z }.

(** ** Decimal numbers *)
Definition is_digit (c : ascii) : bool :=
  let n := Z.of_N (N_of_ascii c) in (48 <=? n) && (n <=? 57).

Definition digit_value (c : ascii) : Z := Z.of_N (N_of_ascii c) - 48.

(** The value of a string of digits; [None] when one is not a digit. *)
Fixpoint decimal (acc : Z) (s : string) : option Z :=
  match s with
  | "" => Some acc
  | String c s => if is_digit c then decimal (10 * acc + digit_value c) s else None
  end.

(** strconv.ParseUint(s, 10, bits): at least one digit, no sign, and a
    value below 2^bits. *)
Definition ParseUint (s : string) (bits : Z) : option Z :=
  match s with
  | "" => None
  | _ => match decimal 0 s with
         | Some v => if v <? 2 ^ bits then Some v else None
         | None => None
         end
  end.

(** strconv.Atoi, for an int of [bits] bits: an optional sign and at least
    one digit. *)
Definition Atoi (s : string) (bits : Z) : option Z :=
  let '(neg, digits) :=
    match s with
    | String "-" s => (true, s)
    | String "+" s => (false, s)
    | _ => (false, s)
    end in
  match digits with
  | "" => None
  | _ => v ← decimal 0 digits;
         if neg then (if v <=? 2 ^ (bits - 1) then Some (- v) else None)
         else if v <? 2 ^ (bits - 1) then Some v else None
  end.

(** strings.TrimSpace of an ASCII string. *)
Definition is_space (c : ascii) : bool :=
  let n := Z.of_N (N_of_ascii c) in (n =? 32) || (9 <=? n) && (n <=? 13).
Fixpoint trim_left (s : string) : string :=
  match s with
  | String c s' => if is_space c then trim_left s' else s
  | "" => ""
  end.
Fixpoint trim_right (s : string) : string :=
  match s with
  | String c s => match trim_right s with
                  | "" => if is_space c then "" else String c ""
                  | s => String c s
                  end
  | "" => ""
  end.
Definition TrimSpace (s : string) : string := trim_right (trim_left s).

(** strconv.FormatUint(v, 10). *)
Definition FormatUint (v : Z) : string := pretty v.

(** ** Lemmas *)
Lemma Unmap_wf ip : addr_wf ip -> addr_wf (Unmap ip).
Proof.
  destruct ip as [| b | b z]; cbn [Unmap]; try done.
  destruct (Is4In6 _); [| done]. simpl. intros H. rewrite len_drop; lia.
Qed.

Lemma Unmap_not4In6 ip : Is4In6 (Unmap ip) = false.
Proof.
  destruct ip as [| b | b z]; [done | done |]. cbn [Unmap].
  destruct (Is4In6 (Addr6 b z)) eqn:E; done.
Qed.

Lemma Unmap_id ip : Is4In6 ip = false -> Unmap ip = ip.
Proof. destruct ip; cbn [Unmap]; try done. by intros ->. Qed.

Lemma Unmap_idem ip : Unmap (Unmap ip) = Unmap ip.
Proof. apply Unmap_id, Unmap_not4In6. Qed.

Lemma As16_len ip : addr_wf ip -> len (As16 ip) = 16.
Proof.
  destruct ip; cbn [As16 addr_wf]; try done.
  intros. rewrite len_app, H. done.
Qed.

(** A mapped address decodes from its 16 bytes back to the IPv4 one. *)
Lemma Unmap_As16_4 b : len b = 4 -> Unmap (Addr6 (As16 (Addr4 b)) "") = Addr4 b.
Proof.
  intros H. cbn [Unmap Is4In6 As16]. rewrite take_app_le by (vm_compute; lia).
  rewrite bool_decide_eq_true_2 by done. rewrite drop_app_ge by (vm_compute; lia).
  by rewrite drop_0.
Qed.
