(* ===== verification/NetipText.v ===== *)
(** * The text of an address (net/netip, net, strings)

    What addr.go uses of Go's standard library to read and write text:
    netip.ParseAddr and netip.Addr.String, net.SplitHostPort and
    strings.Split, translated from their documentation and sources.  A
    parser that fails is [None]: the code only looks whether there is an
    error.  A string is a sequence of bytes, as in Go.

    [ParseAddr_String] shows that the two are inverse on every address:
    the shortest form of IPv6, with its longest run of zeros left out, an
    IPv4-mapped address, and any zone. *)
From Stdlib Require Import ZArith Lia Bool Ascii.
From stdpp Require Import base list option strings pretty.
From coqutil Require Import Byte.
From S2P Require Import Prelude Enums Netip.

(** ** Strings *)
Fixpoint contains (c : ascii) (s : string) : bool :=
  match s with "" => false | String d s => Ascii.eqb c d || contains c s end.

(** Before and after the first [c], and the last one. *)
Fixpoint cut_first (c : ascii) (s : string) : option (string * string) :=
  match s with
  | "" => None
  | String d s => if Ascii.eqb c d then Some ("", s) else '(a, b) ← cut_first c s; Some (String d a, b)
  end.
Fixpoint cut_last (c : ascii) (s : string) : option (string * string) :=
  match s with
  | "" => None
  | String d s =>
      match cut_last c s with
      | Some (a, b) => Some (String d a, b)
      | None => if Ascii.eqb c d then Some ("", s) else None
      end
  end.

(** strings.Split with a separator of one byte: never empty. *)
Fixpoint Split (s : string) (sep : ascii) : list string :=
  match s with
  | "" => [""]
  | String c s =>
      if Ascii.eqb sep c then "" :: Split s sep
      else match Split s sep with e :: es => String c e :: es | [] => [String c ""] end
  end.

(** net.SplitHostPort: the port starts after the last colon; a host in
    brackets ends just before it, another one has no colon; no bracket
    anywhere else. *)
Definition SplitHostPort (hostport : string) : option (string * string) :=
  '(before, port) ← cut_last ":" hostport;
  match hostport with
  | String "[" rest =>
      '(host, after) ← cut_first "]" rest;
      if bool_decide (after = String ":" port) && negb (contains "[" rest) && negb (contains "]" after)
      then Some (host, port) else None
  | _ =>
      if contains ":" before || contains "[" hostport || contains "]" hostport then None else Some (before, port)
  end.

(** ** IPv4 *)
Definition string4 (b : bytes) : string := String.concat "." (pretty ∘ byte.unsigned <$> b).

(** parseIPv4Fields: the octets so far, the value and the number of digits
    of the one being read. *)
Fixpoint parseIPv4Fields (fields : bytes) (val digLen : Z) (s : string) : option bytes :=
  match s with
  | "" => if len fields <? 3 then None else Some (fields ++ [byte.of_Z val])
  | String c s =>
      if is_digit c then
        if (digLen =? 1) && (val =? 0) then None else
        let val := val * 10 + digit_value c in
        if 255 <? val then None else parseIPv4Fields fields val (digLen + 1) s
      else if Ascii.eqb c "." then
        if (digLen =? 0) || bool_decide (s = "") then None else
        if len fields =? 3 then None else parseIPv4Fields (fields ++ [byte.of_Z val]) 0 0 s
      else None
  end.
Definition parseIPv4 (s : string) : option Addr := Addr4 <$> parseIPv4Fields [] 0 0 s.

(** ** IPv6 *)
Fixpoint u16s (b : bytes) : list Z :=
  match b with
  | hi :: lo :: b => byte.unsigned hi * 256 + byte.unsigned lo :: u16s b
  | _ => []
  end.

Definition hex_digit (d : Z) : ascii :=
  default "0"%char (String.get (Z.to_nat d) "0123456789abcdef").
Definition hex_value (c : ascii) : option Z :=
  let n := Z.of_N (N_of_ascii c) in
  if (48 <=? n) && (n <=? 57) then Some (n - 48)
  else if (97 <=? n) && (n <=? 102) then Some (n - 87)
  else if (65 <=? n) && (n <=? 70) then Some (n - 55)
  else None.

(** appendHex: no leading zeros. *)
Definition appendHex (x : Z) : string :=
  let d k := hex_digit (x / 16 ^ k mod 16) in
  let s0 := String (d 0) "" in
  let s1 := if 16 <=? x then String (d 1) s0 else s0 in
  let s2 := if 256 <=? x then String (d 2) s1 else s1 in
  if 4096 <=? x then String (d 3) s2 else s2.

(** The first of the longest runs of at least two zero groups, from [i] on. *)
Fixpoint zero_run (gs : list Z) : nat :=
  match gs with g :: gs => if g =? 0 then S (zero_run gs) else O | [] => O end.
Fixpoint longest_run (i : nat) (gs : list Z) (best : option (nat * nat)) : option (nat * nat) :=
  match gs with
  | [] => best
  | _ :: gs' =>
      let l := zero_run gs in
      let so_far := match best with Some (a, b) => (b - a)%nat | None => O end in
      longest_run (S i) gs' (if (2 <=? l)%nat && (so_far <? l)%nat then Some (i, (i + l)%nat) else best)
  end.

Definition groups_text (gs : list Z) : string := String.concat ":" (appendHex <$> gs).

Definition string6 (b : bytes) : string :=
  let gs := u16s b in
  match longest_run 0 gs None with
  | Some (zs, ze) => groups_text (take zs gs) +:+ "::" +:+ groups_text (drop ze gs)
  | None => groups_text gs
  end.

Definition zone_text (zone : string) : string := if bool_decide (zone = "") then "" else "%" +:+ zone.

Definition Addr_String (ip : Addr) : string :=
  match ip with
  | AddrZero => "invalid IP"
  | Addr4 b => string4 b
  | Addr6 b zone => (if Is4In6 ip then "::ffff:" +:+ string4 (drop 12 b) else string6 b) +:+ zone_text zone
  end.

(** One hexadecimal field: the digits read, their value, the rest. *)
Fixpoint hex_field (off : nat) (acc : Z) (s : string) : option (nat * Z * string) :=
  match s with
  | String c s' =>
      match hex_value c with
      | Some d =>
          let acc := acc * 16 + d in
          if (3 <? off)%nat then None else if 65535 <? acc then None else hex_field (S off) acc s'
      | None => Some (off, acc, s)
      end
  | "" => Some (off, acc, "")
  end.

Definition two_bytes (x : Z) : bytes := [byte.of_Z (x / 256); byte.of_Z x].

(** The loop of parseIPv6: the bytes so far, where the ellipsis was, and
    what is left.  A turn adds two bytes, so eight turns end it. *)
Fixpoint parseIPv6_loop (turns : nat) (ip : bytes) (ellipsis : option nat) (s : string) : option (bytes * option nat * string) :=
  match turns with
  | O => Some (ip, ellipsis, s)
  | S turns =>
      '(off, acc, rest) ← hex_field 0 0 s;
      if (off =? 0)%nat then None else
      match rest with
      | "" => Some (ip ++ two_bytes acc, ellipsis, "")
      | String c rest =>
          if Ascii.eqb c "." then
            if bool_decide (ellipsis = None) && negb (len ip =? 12) then None else
            if 16 <? len ip + 4 then None else
            v4 ← parseIPv4Fields [] 0 0 s; Some (ip ++ v4, ellipsis, "")
          else if negb (Ascii.eqb c ":") then None else
          let ip := ip ++ two_bytes acc in
          match rest with
          | "" => None
          | String c' rest' =>
              if Ascii.eqb c' ":" then
                if bool_decide (is_Some ellipsis) then None else
                if bool_decide (rest' = "") then Some (ip, Some (length ip), "")
                else parseIPv6_loop turns ip (Some (length ip)) rest'
              else parseIPv6_loop turns ip ellipsis rest
          end
      end
  end.

(** The zeros the ellipsis stands for. *)
Definition expand (ip : bytes) (ellipsis : option nat) : option bytes :=
  match ellipsis with
  | Some e => if len ip <? 16 then Some (take e ip ++ zeros (16 - len ip) ++ drop e ip) else None
  | None => if len ip <? 16 then None else Some ip
  end.

(** What follows a leading ellipsis, or the whole without the zone. *)
Definition parseIPv6_from (zone : string) (ellipsis : option nat) (s : string) : option Addr :=
  '(ip, ellipsis, rest) ← parseIPv6_loop 8 [] ellipsis s;
  if negb (bool_decide (rest = "")) then None else
  ip ← expand ip ellipsis; Some (Addr6 ip zone).

Definition parseIPv6 (s : string) : option Addr :=
  '(s, zone) ← match cut_first "%" s with
               | Some (s, zone) => if bool_decide (zone = "") then None else Some (s, zone)
               | None => Some (s, "")
               end;
  match s with
  | String ":" (String ":" rest) =>
      if bool_decide (rest = "") then Some (WithZone IPv6Unspecified zone) else parseIPv6_from zone (Some O) rest
  | _ => parseIPv6_from zone None s
  end.

(** Which of the two, by the first byte that tells. *)
Fixpoint first_of (s : string) : option ascii :=
  match s with
  | "" => None
  | String c s => if Ascii.eqb c "." || Ascii.eqb c ":" || Ascii.eqb c "%" then Some c else first_of s
  end.
Definition ParseAddr (s : string) : option Addr :=
  c ← first_of s;
  if Ascii.eqb c "." then parseIPv4 s else if Ascii.eqb c ":" then parseIPv6 s else None.

(** ** Strings *)
Fixpoint all_chars (p : ascii -> bool) (s : string) : bool :=
  match s with "" => true | String c s => p c && all_chars p s end.

Lemma all_chars_app p a b : all_chars p (a +:+ b) = all_chars p a && all_chars p b.
Proof. induction a as [| c a IH]; [done |]. simpl. by rewrite IH, andb_assoc. Qed.

Lemma all_chars_impl (p q : ascii -> bool) s : (forall c, p c = true -> q c = true) -> all_chars p s = true -> all_chars q s = true.
Proof. intros Hpq. induction s as [| c s IH]; [done |]. simpl. rewrite !andb_true_iff. intros [? ?]. auto. Qed.

Lemma all_chars_concat p sep l : all_chars p sep = true -> Forall (fun s => all_chars p s = true) l -> all_chars p (String.concat sep l) = true.
Proof.
  intros Hs. induction 1 as [| s [| t l] Hs1 Hl IH]; [done | done |].
  change (String.concat sep (s :: t :: l)) with (s +:+ sep +:+ String.concat sep (t :: l)). by rewrite !all_chars_app, Hs1, Hs, IH.
Qed.

Lemma contains_free c s : contains c s = negb (all_chars (fun d => negb (Ascii.eqb c d)) s).
Proof. induction s as [| d s IH]; [done |]. simpl. rewrite IH, negb_andb, negb_involutive. done. Qed.

Lemma contains_false c p s : all_chars p s = true -> p c = false -> contains c s = false.
Proof.
  intros Hp Hc. rewrite contains_free. apply negb_false_iff. eapply all_chars_impl; [| exact Hp].
  intros d Hd. apply negb_true_iff, Ascii.eqb_neq. congruence.
Qed.

Lemma contains_app c a b : contains c (a +:+ b) = contains c a || contains c b.
Proof. induction a as [| d a IH]; [done |]. simpl. by rewrite IH, orb_assoc. Qed.

Lemma cut_first_app c a b : contains c a = false -> cut_first c (a +:+ String c b) = Some (a, b).
Proof.
  induction a as [| d a IH]; simpl; [by rewrite Ascii.eqb_refl |].
  rewrite orb_false_iff. intros [-> Ha]. by rewrite IH.
Qed.
Lemma cut_first_none c s : contains c s = false -> cut_first c s = None.
Proof. induction s as [| d s IH]; [done |]. simpl. rewrite orb_false_iff. intros [-> Hs]. by rewrite IH. Qed.
Lemma cut_last_none c s : contains c s = false -> cut_last c s = None.
Proof. induction s as [| d s IH]; [done |]. simpl. rewrite orb_false_iff. intros [-> Hs]. by rewrite IH. Qed.
Lemma cut_last_app c a b : contains c b = false -> cut_last c (a +:+ String c b) = Some (a, b).
Proof.
  intros Hb. induction a as [| d a IH]; simpl; [by rewrite cut_last_none, Ascii.eqb_refl | by rewrite IH].
Qed.

Lemma Split_none c s : contains c s = false -> Split s c = [s].
Proof. induction s as [| d s IH]; [done |]. simpl. rewrite orb_false_iff. intros [-> Hs]. by rewrite IH. Qed.
Lemma Split_app c a s : contains c a = false -> Split (a +:+ String c s) c = a :: Split s c.
Proof.
  induction a as [| d a IH]; simpl; [by rewrite Ascii.eqb_refl |].
  rewrite orb_false_iff. intros [-> Ha]. by rewrite IH.
Qed.
Lemma Split_concat c l : l <> [] -> Forall (fun s => contains c s = false) l -> Split (String.concat (String c "") l) c = l.
Proof.
  intros Hne H. induction H as [| s l Hs Hl IH]; [done |]. destruct l as [| t l]; [by apply Split_none |].
  change (String.concat (String c "") (s :: t :: l)) with (s +:+ String c (String.concat (String c "") (t :: l))).
  by rewrite Split_app, IH.
Qed.

Lemma SplitHostPort_plain host port :
  contains ":" host = false -> contains "[" host = false -> contains "]" host = false ->
  contains ":" port = false -> contains "[" port = false -> contains "]" port = false ->
  SplitHostPort (host +:+ ":" +:+ port) = Some (host, port).
Proof.
  intros H1 H2 H3 H4 H5 H6. unfold SplitHostPort. change (":" +:+ port) with (String ":" port). rewrite cut_last_app by done. cbn [mbind option_bind].
  rewrite H1, !contains_app, H2, H3. cbn [orb]. change (contains "[" (String ":" port)) with (contains "[" port).
  change (contains "]" (String ":" port)) with (contains "]" port). rewrite H5, H6.
  destruct host as [| c host]; [done |]. cbn [String.append]. destruct (Ascii.eqb_spec "[" c) as [<- | Hc]; [by simpl in H2 |].
  destruct c as [[] [] [] [] [] [] [] []]; done.
Qed.

Lemma SplitHostPort_bracketed host port :
  contains "]" host = false -> contains "[" host = false ->
  contains ":" port = false -> contains "[" port = false -> contains "]" port = false ->
  SplitHostPort ("[" +:+ host +:+ "]" +:+ ":" +:+ port) = Some (host, port).
Proof.
  intros H2 H3 H4 H5 H6. unfold SplitHostPort.
  change ("[" +:+ host +:+ "]" +:+ ":" +:+ port) with (String "[" (host +:+ String "]" (String ":" port))).
  assert (E : host +:+ String "]" (String ":" port) = (host +:+ "]") +:+ String ":" port) by (by rewrite string_app_assoc).
  assert (Hl : cut_last ":" (String "[" (host +:+ String "]" (String ":" port))) = Some (String "[" (host +:+ "]"), port))
    by (rewrite E; exact (cut_last_app ":" (String "[" (host +:+ "]")) port H4)).
  rewrite Hl.
  cbn [mbind option_bind]. rewrite cut_first_app by done. cbn [mbind option_bind]. rewrite bool_decide_eq_true_2 by done.
  rewrite contains_app, H3. change (contains "[" (String "]" (String ":" port))) with (contains "[" port).
  change (contains "]" (String ":" port)) with (contains "]" port). by rewrite H5, H6.
Qed.

(** ** Decimal numbers *)
Lemma pretty_N_char_digit n : (n < 10)%N -> is_digit (pretty_N_char n) = true /\ digit_value (pretty_N_char n) = Z.of_N n.
Proof.
  intros H. assert (Hk : (N.to_nat n < 10)%nat) by lia. rewrite <- (N2Nat.id n). revert Hk. generalize (N.to_nat n). intros k Hk.
  do 10 (destruct k as [| k]; [done |]). lia.
Qed.

Lemma decimal_pretty_go x s : decimal 0 (pretty_N_go x s) = decimal (Z.of_N x) s.
Proof.
  revert s. induction (N.lt_wf_0 x) as [x _ IH]; intros s. destruct (decide (x = 0)%N) as [-> | Hx]; [by rewrite pretty_N_go_0 |].
  rewrite pretty_N_go_step by lia. rewrite IH by (apply N.div_lt; lia). cbn [decimal].
  destruct (pretty_N_char_digit (x mod 10)) as [-> ->]; [by apply N.mod_lt |]. f_equal.
  rewrite N2Z.inj_div, N2Z.inj_mod. pose proof (Z.div_mod (Z.of_N x) 10). lia.
Qed.

Lemma all_digits_go x s : all_chars is_digit s = true -> all_chars is_digit (pretty_N_go x s) = true.
Proof.
  revert s. induction (N.lt_wf_0 x) as [x _ IH]; intros s Hs. destruct (decide (x = 0)%N) as [-> | Hx]; [by rewrite pretty_N_go_0 |].
  rewrite pretty_N_go_step by lia. apply IH; [apply N.div_lt; lia |]. cbn [all_chars]. rewrite Hs.
  by destruct (pretty_N_char_digit (x mod 10)) as [-> _]; [apply N.mod_lt |].
Qed.

Lemma pretty_nonneg z : 0 <= z -> pretty z = if decide (z = 0) then "0" else pretty_N_go (Z.to_N z) "".
Proof. intros H. destruct z as [| p | p]; [done | | lia]. done. Qed.

Lemma pretty_digits z : 0 <= z -> all_chars is_digit (pretty z) = true.
Proof. intros H. rewrite pretty_nonneg by done. case_decide; [done |]. by apply all_digits_go. Qed.

Lemma decimal_pretty z : 0 <= z -> decimal 0 (pretty z) = Some z.
Proof. intros H. rewrite pretty_nonneg by done. case_decide; [by subst |]. rewrite decimal_pretty_go. simpl. f_equal. lia. Qed.

Lemma ParseUint_pretty z bits : 0 <= z < 2 ^ bits -> ParseUint (pretty z) bits = Some z.
Proof.
  intros [H0 H1]. unfold ParseUint. rewrite decimal_pretty by done. rewrite (proj2 (Z.ltb_lt _ _) H1).
  pose proof (decimal_pretty z H0) as Hd. destruct (pretty z) eqn:E; [| done].
  destruct z; [done | | lia]. exfalso. revert E. rewrite pretty_nonneg, decide_False by lia. intros E.
  pose proof (decimal_pretty_go (Z.to_N (Z.pos p)) "") as Hg. rewrite E in Hg. simpl in Hg. congruence.
Qed.

(** ** IPv4 *)

(** The octet [b] read after [fs]. *)
Lemma parse_octet fs (b : byte) rest :
  exists n, 0 < n /\ parseIPv4Fields fs 0 0 (pretty (byte.unsigned b) +:+ rest) = parseIPv4Fields fs (byte.unsigned b) n rest.
Proof. destruct b; (exists 1; split; [done | reflexivity]) || (exists 2; split; [done | reflexivity]) || (exists 3; split; [done | reflexivity]). Qed.

Lemma parse_octet_dot fs b rest :
  rest <> "" -> len fs < 3 ->
  parseIPv4Fields fs 0 0 (pretty (byte.unsigned b) +:+ "." +:+ rest) = parseIPv4Fields (fs ++ [b]) 0 0 rest.
Proof.
  intros Hr Hf. destruct (parse_octet fs b ("." +:+ rest)) as (n & Hn & ->).
  change ("." +:+ rest) with (String "." rest). cbn [parseIPv4Fields]. change (is_digit ".") with false. change (Ascii.eqb "." ".") with true. cbv iota.
  rewrite (proj2 (Z.eqb_neq n 0)) by lia. rewrite bool_decide_eq_false_2 by done. cbn [orb].
  rewrite (proj2 (Z.eqb_neq _ _)) by lia. by rewrite byte.of_Z_unsigned.
Qed.

Lemma pretty_octet_ne (b : byte) rest : pretty (byte.unsigned b) +:+ rest <> "".
Proof. destruct b; discriminate. Qed.

Lemma parseIPv4Fields_string4 b : len b = 4 -> parseIPv4Fields [] 0 0 (string4 b) = Some b.
Proof.
  intros H. unfold len in H. assert (Hl : length b = 4%nat) by lia. clear H.
  destruct b as [| b0 [| b1 [| b2 [| b3 [|]]]]]; try discriminate Hl.
  unfold string4. cbn [fmap list_fmap String.concat compose].
  rewrite parse_octet_dot by (apply pretty_octet_ne || done). rewrite parse_octet_dot by (apply pretty_octet_ne || done).
  rewrite <- (string_app_nil (pretty (byte.unsigned b3))). rewrite parse_octet_dot by (apply pretty_octet_ne || done).
  destruct (parse_octet ([] ++ [b0] ++ [b1] ++ [b2]) b3 "") as (n & Hn & Hp). simpl in Hp |- *. rewrite Hp. simpl. by rewrite byte.of_Z_unsigned.
Qed.

(** ** Hexadecimal fields *)
Definition stops (s : string) : Prop := match s with "" => True | String c _ => hex_value c = None end.

Lemma hex_value_digit d : 0 <= d < 16 -> hex_value (hex_digit d) = Some d.
Proof.
  intros [H0 H1]. apply Z2Nat.inj_lt in H1; [| done | done]. rewrite <- (Z2Nat.id d) at 2 by done. unfold hex_digit. revert H1.
  generalize (Z.to_nat d). change (Z.to_nat 16) with 16%nat. intros n Hn. do 16 (destruct n as [| n]; [done |]). lia.
Qed.

Lemma hex_field_digit off acc d s :
  0 <= d < 16 -> (off <= 3)%nat -> acc * 16 + d <= 65535 ->
  hex_field off acc (String (hex_digit d) s) = hex_field (S off) (acc * 16 + d) s.
Proof.
  intros Hd Ho Ha. cbn [hex_field]. rewrite hex_value_digit by done. cbv zeta.
  rewrite (proj2 (Nat.ltb_ge _ _)) by lia. by rewrite (proj2 (Z.ltb_ge _ _)) by lia.
Qed.

Lemma hex_field_stops off acc s : stops s -> hex_field off acc s = Some (off, acc, s).
Proof. destruct s as [| c s]; [done |]. cbn [stops hex_field]. by intros ->. Qed.

Lemma append_String c s t : String c s +:+ t = String c (s +:+ t).
Proof. done. Qed.
Lemma append_nil t : "" +:+ t = t.
Proof. done. Qed.

Lemma hex_field_appendHex g rest :
  0 <= g < 65536 -> stops rest -> exists n, (0 < n)%nat /\ hex_field 0 0 (appendHex g +:+ rest) = Some (n, g, rest).
Proof.
  intros Hg Hr. unfold appendHex. change (16 ^ 0) with 1. change (16 ^ 1) with 16. change (16 ^ 2) with 256. change (16 ^ 3) with 4096.
  pose proof (Z.mod_pos_bound (g / 1) 16 ltac:(done)). pose proof (Z.mod_pos_bound (g / 16) 16 ltac:(done)).
  pose proof (Z.mod_pos_bound (g / 256) 16 ltac:(done)). pose proof (Z.mod_pos_bound (g / 4096) 16 ltac:(done)).
  assert (E : g / 4096 mod 16 * 4096 + g / 256 mod 16 * 256 + g / 16 mod 16 * 16 + g / 1 mod 16 = g) by (Z.to_euclidean_division_equations; lia).
  assert (E1 : g < 16 -> g / 16 mod 16 = 0) by (Z.to_euclidean_division_equations; lia).
  assert (E2 : g < 256 -> g / 256 mod 16 = 0) by (Z.to_euclidean_division_equations; lia).
  assert (E3 : g < 4096 -> g / 4096 mod 16 = 0) by (Z.to_euclidean_division_equations; lia).
  revert E E1 E2 E3. generalize dependent (g / 4096 mod 16). generalize dependent (g / 256 mod 16). generalize dependent (g / 16 mod 16).
  generalize dependent (g / 1 mod 16). intros d0 H0 d1 H1 d2 H2 d3 H3 E E1 E2 E3.
  cbv zeta. destruct (Z.leb_spec 16 g); destruct (Z.leb_spec 256 g); destruct (Z.leb_spec 4096 g); try lia; rewrite !append_String, append_nil;
    repeat (rewrite hex_field_digit by lia); rewrite hex_field_stops by done; eexists; (split; [| f_equal; f_equal; f_equal; lia]); lia.
Qed.

Definition is_hex (c : ascii) : bool := bool_decide (is_Some (hex_value c)).

Lemma appendHex_chars g : all_chars is_hex (appendHex g) = true.
Proof.
  unfold appendHex. assert (Hd : forall k, is_hex (hex_digit (g / 16 ^ k mod 16)) = true).
  { intros k. apply bool_decide_eq_true_2. rewrite hex_value_digit by (apply Z.mod_pos_bound; lia). by eexists. }
  cbv zeta. repeat case_match; cbn [all_chars]; by rewrite !Hd.
Qed.

Lemma appendHex_ne g rest : appendHex g +:+ rest <> "".
Proof. unfold appendHex. cbv zeta. repeat case_match; discriminate. Qed.

(** ** The groups of an IPv6 address *)
Definition u16_ok (g : Z) : Prop := 0 <= g < 65536.
Definition bytes_of (gs : list Z) : bytes := gs ≫= two_bytes.

Lemma bytes_of_cons g gs : bytes_of (g :: gs) = two_bytes g ++ bytes_of gs.
Proof. done. Qed.

Lemma two_bytes_u16 hi lo : two_bytes (byte.unsigned hi * 256 + byte.unsigned lo) = [hi; lo].
Proof.
  pose proof (byte.unsigned_range lo). unfold two_bytes. rewrite Z.div_add_l by lia. rewrite (Z.div_small (byte.unsigned lo)) by lia. rewrite Z.add_0_r.
  rewrite byte.of_Z_unsigned. repeat f_equal. apply byte.unsigned_inj. rewrite byte.unsigned_of_Z. unfold byte.wrap.
  rewrite Z.add_comm, Z.mod_add by lia. rewrite Z.mod_small by lia. done.
Qed.

Lemma u16s_ok k b : length b = (2 * k)%nat -> length (u16s b) = k /\ Forall u16_ok (u16s b) /\ bytes_of (u16s b) = b.
Proof.
  revert b. induction k as [| k IH]; intros b Hb.
  { destruct b; [| discriminate]. by repeat constructor. }
  destruct b as [| hi [| lo b]]; [discriminate | simpl in Hb; lia |]. destruct (IH b) as (H1 & H2 & H3); [simpl in Hb; lia |].
  cbn [u16s]. split; [simpl; lia |]. split.
  - constructor; [| done]. pose proof (byte.unsigned_range hi). pose proof (byte.unsigned_range lo). unfold u16_ok. lia.
  - by rewrite bytes_of_cons, two_bytes_u16, H3.
Qed.

Lemma bytes_of_length gs : length (bytes_of gs) = (2 * length gs)%nat.
Proof. induction gs as [| g gs IH]; [done |]. rewrite bytes_of_cons, length_app, IH. simpl. lia. Qed.

Lemma bytes_of_app gs gs' : bytes_of (gs ++ gs') = bytes_of gs ++ bytes_of gs'.
Proof. unfold bytes_of. by rewrite bind_app. Qed.

Lemma bytes_of_zeros n : bytes_of (replicate n 0) = zeros (2 * Z.of_nat n).
Proof.
  induction n as [| n IH]; [done |]. cbn [replicate]. rewrite bytes_of_cons, IH.
  replace (2 * Z.of_nat (S n)) with (2 + 2 * Z.of_nat n) by lia. by rewrite zeros_add by lia.
Qed.

(** ** The longest run of zeros *)
Definition is_run (gs : list Z) (r : option (nat * nat)) : Prop :=
  match r with
  | Some (a, b) => (a + 2 <= b <= length gs)%nat /\ take (b - a) (drop a gs) = replicate (b - a) 0
  | None => True
  end.

Lemma zero_run_spec gs : (zero_run gs <= length gs)%nat /\ take (zero_run gs) gs = replicate (zero_run gs) 0.
Proof.
  induction gs as [| g gs [IH1 IH2]]; [done |]. cbn [zero_run]. destruct (Z.eqb_spec g 0) as [-> |]; [| split; [lia | done]].
  split; [simpl; lia |]. cbn [take replicate]. by rewrite IH2.
Qed.

Lemma longest_run_is_run gs done best :
  is_run (done ++ gs) best -> is_run (done ++ gs) (longest_run (length done) gs best).
Proof.
  revert done best. induction gs as [| g gs IH]; intros done best Hb; [exact Hb |]. cbn [longest_run]. cbv zeta.
  replace (S (length done)) with (length (done ++ [g])) by (rewrite length_app; simpl; lia).
  replace (done ++ g :: gs) with ((done ++ [g]) ++ gs) in * by (by rewrite <- app_assoc). apply IH.
  destruct (_ && _) eqn:E; [| exact Hb]. apply andb_true_iff in E as [E _]. apply Nat.leb_le in E.
  destruct (zero_run_spec (g :: gs)) as [Hl Ht]. unfold is_run. rewrite <- app_assoc. cbn [app].
  replace (length done + zero_run (g :: gs) - length done)%nat with (zero_run (g :: gs)) by lia. split.
  - rewrite length_app. lia.
  - rewrite drop_app_length. exact Ht.
Qed.

Lemma run_split gs a b : is_run gs (Some (a, b)) -> gs = take a gs ++ replicate (b - a) 0 ++ drop b gs.
Proof.
  intros [Hb Ht]. rewrite <- Ht. rewrite <- (take_drop a gs) at 1. f_equal.
  rewrite <- (take_drop (b - a) (drop a gs)) at 1. f_equal. rewrite drop_drop. f_equal. lia.
Qed.

(** ** Reading groups *)
Lemma parse_field turns ip ell g rest :
  u16_ok g -> stops rest -> rest <> "" -> (forall s, rest <> String "." s) ->
  parseIPv6_loop (S turns) ip ell (appendHex g +:+ rest) =
    match rest with
    | String ":" (String c' rest') =>
        let ip := ip ++ two_bytes g in
        if Ascii.eqb c' ":" then
          if bool_decide (is_Some ell) then None else
          if bool_decide (rest' = "") then Some (ip, Some (length ip), "") else parseIPv6_loop turns ip (Some (length ip)) rest'
        else parseIPv6_loop turns ip ell (String c' rest')
    | _ => None
    end.
Proof.
  intros Hg Hr Hne Hdot. destruct (hex_field_appendHex g rest Hg Hr) as (n & Hn & E). cbn [parseIPv6_loop]. rewrite E. cbn [mbind option_bind].
  rewrite (proj2 (Nat.eqb_neq n 0)) by lia. destruct rest as [| c rest]; [done |].
  destruct (Ascii.eqb_spec c ".") as [-> |]; [by destruct (Hdot rest) |].
  destruct (Ascii.eqb_spec c ":") as [-> | Hc]; [by destruct rest |]. cbn [negb].
  destruct c as [[] [] [] [] [] [] [] []]; done.
Qed.

Lemma parse_last turns ip ell g :
  u16_ok g -> parseIPv6_loop (S turns) ip ell (appendHex g) = Some (ip ++ two_bytes g, ell, "").
Proof.
  intros Hg. rewrite <- (string_app_nil (appendHex g)). destruct (hex_field_appendHex g "" Hg I) as (n & Hn & E). cbn [parseIPv6_loop]. rewrite E.
  cbn [mbind option_bind]. by rewrite (proj2 (Nat.eqb_neq n 0)) by lia.
Qed.

(** The first byte of a group is not a colon. *)
Lemma appendHex_head g rest : exists c s, appendHex g +:+ rest = String c s /\ Ascii.eqb c ":" = false.
Proof.
  pose proof (appendHex_chars g) as Hc. pose proof (appendHex_ne g "") as Hne. rewrite string_app_nil in Hne.
  destruct (appendHex g) as [| c s]; [done |]. exists c, (s +:+ rest). split; [done |]. simpl in Hc. apply andb_true_iff in Hc as [Hc _].
  apply Ascii.eqb_neq. by intros ->.
Qed.

Lemma groups_text_cons g g' gs : groups_text (g :: g' :: gs) = appendHex g +:+ ":" +:+ groups_text (g' :: gs).
Proof. done. Qed.
Lemma groups_text_head g gs rest : exists s, groups_text (g :: gs) +:+ rest = appendHex g +:+ s.
Proof. destruct gs as [| g' gs]; [by eexists |]. rewrite groups_text_cons, !string_app_assoc. by eexists. Qed.

Lemma parse_more turns ip ell g g' gs rest :
  u16_ok g -> parseIPv6_loop (S turns) ip ell (appendHex g +:+ ":" +:+ groups_text (g' :: gs) +:+ rest) =
    parseIPv6_loop turns (ip ++ two_bytes g) ell (groups_text (g' :: gs) +:+ rest).
Proof.
  intros Hg. change (":" +:+ groups_text (g' :: gs) +:+ rest) with (String ":" (groups_text (g' :: gs) +:+ rest)).
  rewrite parse_field by done. destruct (groups_text_head g' gs rest) as [s ->]. destruct (appendHex_head g' s) as (c & s' & -> & Hc).
  cbv zeta. by rewrite Hc.
Qed.

Lemma parse_groups gs ip ell turns :
  gs <> [] -> Forall u16_ok gs -> (length gs <= turns)%nat ->
  parseIPv6_loop turns ip ell (groups_text gs) = Some (ip ++ bytes_of gs, ell, "").
Proof.
  intros Hne H. revert ip turns. induction H as [| g gs Hg Hgs IH]; intros ip turns Ht; [done |].
  destruct turns as [| turns]; [simpl in Ht; lia |]. rewrite bytes_of_cons, app_assoc. destruct gs as [| g' gs].
  { rewrite app_nil_r. by apply parse_last. }
  rewrite groups_text_cons, <- (string_app_nil (groups_text _)), parse_more by done. rewrite string_app_nil. apply IH; [done |]. simpl in *. lia.
Qed.

(** Groups before the ellipsis. *)
Lemma parse_before gs rest ip turns :
  gs <> [] -> Forall u16_ok gs -> (length gs <= turns)%nat ->
  parseIPv6_loop turns ip None (groups_text gs +:+ "::" +:+ rest) =
    let ip := ip ++ bytes_of gs in
    if bool_decide (rest = "") then Some (ip, Some (length ip), "")
    else parseIPv6_loop (turns - length gs) ip (Some (length ip)) rest.
Proof.
  intros Hne H. revert ip turns. induction H as [| g gs Hg Hgs IH]; intros ip turns Ht; [done |].
  destruct turns as [| turns]; [simpl in Ht; lia |]. rewrite bytes_of_cons, app_assoc. destruct gs as [| g' gs].
  { rewrite app_nil_r. change (groups_text [g]) with (appendHex g). change ("::" +:+ rest) with (String ":" (String ":" rest)).
    rewrite parse_field by done. cbv zeta. rewrite Ascii.eqb_refl, bool_decide_eq_false_2 by (by intros [? ?]). simpl. by rewrite Nat.sub_0_r. }
  rewrite groups_text_cons, !string_app_assoc, parse_more by done. rewrite IH by (done || (simpl in *; lia)). done.
Qed.

(** ** ParseAddr after String *)
Lemma cut_zone s zone :
  contains "%" s = false ->
  match cut_first "%" (s +:+ zone_text zone) with
  | Some (s, zone) => if bool_decide (zone = "") then None else Some (s, zone)
  | None => Some (s +:+ zone_text zone, "")
  end = Some (s, zone).
Proof.
  intros Hs. unfold zone_text. case_bool_decide as Hz.
  - subst. by rewrite string_app_nil, cut_first_none.
  - change ("%" +:+ zone) with (String "%" zone). rewrite cut_first_app by done. by rewrite bool_decide_eq_false_2.
Qed.

Lemma no_leading_ellipsis {X} c s (f : string -> X) (x : X) :
  Ascii.eqb c ":" = false -> match String c s with String ":" (String ":" rest) => f rest | _ => x end = x.
Proof. intros H. destruct c as [[] [] [] [] [] [] [] []]; try done. Qed.

Lemma parse_no_ellipsis zone s : (exists c s', s = String c s' /\ Ascii.eqb c ":" = false) -> contains "%" s = false ->
  parseIPv6 (s +:+ zone_text zone) = parseIPv6_from zone None s.
Proof.
  intros (c & s' & -> & Hc) Hs. unfold parseIPv6. rewrite cut_zone by done. cbn [mbind option_bind]. by apply no_leading_ellipsis.
Qed.

Lemma parse_leading_ellipsis zone s : contains "%" s = false ->
  parseIPv6 ("::" +:+ s +:+ zone_text zone) =
    if bool_decide (s = "") then Some (WithZone IPv6Unspecified zone) else parseIPv6_from zone (Some O) s.
Proof.
  intros Hs. unfold parseIPv6. rewrite <- string_app_assoc, cut_zone; [done |]. by rewrite contains_app, Hs.
Qed.

Definition is_text6 (c : ascii) : bool := is_hex c || Ascii.eqb c ":".

Lemma groups_text_chars gs : all_chars is_text6 (groups_text gs) = true.
Proof.
  apply all_chars_concat; [done |]. apply Forall_fmap, Forall_true. intros g. eapply all_chars_impl; [| apply appendHex_chars].
  intros c Hc. unfold is_text6. by rewrite Hc.
Qed.

Lemma string6_chars b : all_chars is_text6 (string6 b) = true.
Proof. unfold string6. cbv zeta. destruct (longest_run _ _ _) as [[a e] |]; rewrite ?all_chars_app, !groups_text_chars; done. Qed.

Lemma groups_text_nil gs : groups_text gs = "" -> gs = [].
Proof.
  destruct gs as [| g gs]; [done |]. intros H. destruct (groups_text_head g gs "") as [s Hs]. rewrite string_app_nil, H in Hs.
  by destruct (appendHex_ne g s).
Qed.

Lemma groups_text_colon g gs rest : exists c s, groups_text (g :: gs) +:+ rest = String c s /\ Ascii.eqb c ":" = false.
Proof. destruct (groups_text_head g gs rest) as [s ->]. apply appendHex_head. Qed.

(** The groups around the ellipsis, read back and expanded. *)
Lemma expand_run gs zs ze : length gs = 8%nat -> is_run gs (Some (zs, ze)) ->
  expand (bytes_of (take zs gs) ++ bytes_of (drop ze gs)) (Some (length (bytes_of (take zs gs)))) = Some (bytes_of gs).
Proof.
  intros Hl Hr. pose proof Hr as [Hb _]. rewrite (run_split gs zs ze Hr) at 4. unfold expand.
  rewrite !bytes_of_app, bytes_of_zeros, take_app_length, drop_app_length. unfold len. rewrite length_app, !bytes_of_length, length_take, length_drop, Hl.
  rewrite (proj2 (Z.ltb_lt _ _)) by lia. do 3 f_equal. f_equal. lia.
Qed.

Lemma parseIPv6_string6 b zone : len b = 16 -> parseIPv6 (string6 b +:+ zone_text zone) = Some (Addr6 b zone).
Proof.
  intros Hb. assert (Hl : length b = (2 * 8)%nat) by (unfold len in Hb; lia). destruct (u16s_ok 8 b Hl) as (Hg & Hok & Hbytes).
  pose proof (string6_chars b) as Hc. apply (contains_false "%") in Hc; [| done]. revert Hc. unfold string6. cbv zeta.
  pose proof (longest_run_is_run (u16s b) [] None I) as Hrun. cbn [app length] in Hrun.
  destruct (longest_run 0 (u16s b) None) as [[zs ze] |].
  - pose proof Hrun as [Hze _]. pose proof (expand_run (u16s b) zs ze Hg Hrun) as Hx. rewrite Hbytes in Hx.
    assert (Hd : Forall u16_ok (drop ze (u16s b))) by (by apply Forall_drop). assert (Ht : Forall u16_ok (take zs (u16s b))) by (by apply Forall_take).
    assert (Hld : length (drop ze (u16s b)) = (8 - ze)%nat) by (by rewrite length_drop, Hg).
    assert (Hlt : length (take zs (u16s b)) = zs) by (rewrite length_take, Hg; lia).
    revert Hx Hd Ht Hld Hlt. generalize (take zs (u16s b)) (drop ze (u16s b)). intros before after Hx Hd Ht Hld Hlt Hc.
    destruct before as [| g before].
    + change (groups_text [] +:+ "::" +:+ groups_text after) with ("::" +:+ groups_text after). rewrite string_app_assoc.
      rewrite contains_app in Hc. rewrite parse_leading_ellipsis by done. case_bool_decide as He.
      * apply groups_text_nil in He as ->. injection Hx as <-. done.
      * unfold parseIPv6_from. rewrite parse_groups; [| by intros -> | done | lia]. cbn [mbind option_bind app negb].
        rewrite bool_decide_eq_true_2 by done. cbn [negb]. cbn [bytes_of mbind list_bind app length] in Hx. rewrite Hx. done.
    + rewrite parse_no_ellipsis; [| apply groups_text_colon | done]. unfold parseIPv6_from.
      rewrite parse_before by (done || lia). cbv zeta. rewrite app_nil_l. case_bool_decide as He.
      * apply groups_text_nil in He as ->. cbn [mbind option_bind]. rewrite bool_decide_eq_true_2 by done. cbn [negb].
        rewrite app_nil_r in Hx. rewrite Hx. done.
      * rewrite parse_groups; [| by intros -> | done | lia]. cbn [mbind option_bind]. rewrite bool_decide_eq_true_2 by done. cbn [negb]. by rewrite Hx.
  - intros Hc. rewrite parse_no_ellipsis; [| | done].
    + unfold parseIPv6_from. rewrite parse_groups; [| by intros E; rewrite E in Hg | done | lia]. cbn [mbind option_bind app].
      rewrite bool_decide_eq_true_2 by done. cbn [negb expand]. rewrite Hbytes, Hb. done.
    + destruct (u16s b) as [| g gs]; [done |]. rewrite <- (string_app_nil (groups_text _)). apply groups_text_colon.
Qed.

Definition is_text4 (c : ascii) : bool := is_digit c || Ascii.eqb c ".".

Lemma string4_chars b : all_chars is_text4 (string4 b) = true.
Proof.
  apply all_chars_concat; [done |]. apply Forall_fmap, Forall_true. intros x. pose proof (byte.unsigned_range x).
  eapply all_chars_impl; [| apply pretty_digits; lia]. intros c Hc. unfold is_text4. by rewrite Hc.
Qed.

(** The byte that tells the form. *)
Lemma first_of_app p s rest : all_chars p s = true -> (forall c, p c = true -> first_of (String c "") = None) -> first_of (s +:+ rest) = first_of rest.
Proof.
  intros Hs Hp. induction s as [| c s IH]; [done |]. cbn [all_chars] in Hs. apply andb_true_iff in Hs as [Hc Hs].
  specialize (Hp c Hc). rewrite append_String. cbn [first_of] in *. destruct (_ || _ || _); [discriminate | auto].
Qed.

Lemma is_digit_plain c : is_digit c = true -> first_of (String c "") = None.
Proof. destruct c as [[] [] [] [] [] [] [] []]; done. Qed.
Lemma is_hex_plain c : is_hex c = true -> first_of (String c "") = None.
Proof. destruct c as [[] [] [] [] [] [] [] []]; done. Qed.

Lemma first_of_string6 b rest : len b = 16 -> first_of (string6 b +:+ rest) = Some ":"%char.
Proof.
  intros Hb. destruct (u16s_ok 8 b) as (Hg & _); [unfold len in Hb; lia |]. unfold string6. cbv zeta. revert Hg. generalize (u16s b). intros gs Hg.
  assert (Hcol : forall gs s, first_of (groups_text gs +:+ ":" +:+ s) = Some ":"%char).
  { intros [| g [| g' gs']] s; [done | |]; [change (groups_text [g]) with (appendHex g) | rewrite groups_text_cons, !string_app_assoc];
      by rewrite (first_of_app is_hex _ _ (appendHex_chars g) is_hex_plain). }
  destruct (longest_run 0 gs None) as [[zs ze] |].
  - rewrite string_app_assoc. change ("::" +:+ groups_text (drop ze gs)) with (":" +:+ ":" +:+ groups_text (drop ze gs)). rewrite !string_app_assoc. apply Hcol.
  - destruct gs as [| g [| g' gs]]; [done | done |]. rewrite groups_text_cons, !string_app_assoc. by rewrite (first_of_app is_hex _ _ (appendHex_chars g) is_hex_plain).
Qed.

Lemma first_of_string4 b rest : len b = 4 -> first_of (string4 b +:+ rest) = Some "."%char.
Proof.
  intros Hb. unfold len in Hb. destruct b as [| b0 [| b1 b]]; [simpl in Hb; lia .. |].
  change (string4 (b0 :: b1 :: b)) with (pretty (byte.unsigned b0) +:+ "." +:+ string4 (b1 :: b)). rewrite !string_app_assoc.
  pose proof (byte.unsigned_range b0). by rewrite (first_of_app is_digit _ _ (pretty_digits (byte.unsigned b0) ltac:(lia)) is_digit_plain).
Qed.

(** A field followed by a dot: the embedded IPv4 address. *)
Lemma parse_embedded turns ip v4 : len ip <= 12 -> len v4 = 4 ->
  parseIPv6_loop (S turns) ip (Some O) (string4 v4) = Some (ip ++ v4, Some O, "").
Proof.
  intros Hi Hv. cbn [parseIPv6_loop].
  assert (E : exists n acc s, hex_field 0 0 (string4 v4) = Some (S n, acc, String "." s)).
  { unfold len in Hv. destruct v4 as [| b0 [| b1 v4]]; [simpl in Hv; lia .. |]. unfold string4. cbn [fmap list_fmap String.concat compose].
    generalize (String.concat "." (pretty (byte.unsigned b1) :: list_fmap _ _ (pretty ∘ byte.unsigned) v4)). intros s. clear.
    destruct b0; by do 3 eexists. }
  destruct E as (n & acc & s & ->). cbn [mbind option_bind Nat.eqb]. change (Ascii.eqb "." ".") with true. cbv iota. cbn [bool_decide andb].
  rewrite bool_decide_eq_false_2 by done. cbn [andb]. rewrite (proj2 (Z.ltb_ge _ _)) by lia. by rewrite parseIPv4Fields_string4.
Qed.

Lemma parseIPv6_mapped b zone : len b = 16 -> Is4In6 (Addr6 b zone) = true ->
  parseIPv6 ("::ffff:" +:+ string4 (drop 12 b) +:+ zone_text zone) = Some (Addr6 b zone).
Proof.
  intros Hb Hm. assert (Hv : len (drop 12 b) = 4) by (rewrite len_drop; lia).
  cbn [Is4In6] in Hm. apply bool_decide_eq_true_1 in Hm. rewrite <- (take_drop 12 b) at 2. rewrite Hm. revert Hv. generalize (drop 12 b). intros v4 Hv.
  assert (Hc : contains "%" (string4 v4) = false) by (eapply contains_false; [apply string4_chars | done]).
  change ("::ffff:" +:+ string4 v4 +:+ zone_text zone) with ("::" +:+ ("ffff:" +:+ string4 v4) +:+ zone_text zone).
  rewrite parse_leading_ellipsis by (by rewrite contains_app, Hc). rewrite bool_decide_eq_false_2 by done. unfold parseIPv6_from.
  assert (E : parseIPv6_loop 8 [] (Some O) ("ffff:" +:+ string4 v4) = parseIPv6_loop 7 [Byte.xff; Byte.xff] (Some O) (string4 v4)).
  { change ("ffff:" +:+ string4 v4) with (appendHex 65535 +:+ String ":" (string4 v4)). rewrite parse_field by (done || (unfold u16_ok; lia)).
    pose proof (string4_chars v4) as Hd. pose proof (first_of_string4 v4 "" Hv) as Hf. cbv zeta.
    destruct (string4 v4) as [| c s]; [done |].
    destruct (Ascii.eqb_spec c ":") as [-> |]; [done | done]. }
  rewrite E, parse_embedded by (done || (rewrite !len_cons, len_nil; lia)). cbn [mbind option_bind]. rewrite bool_decide_eq_true_2 by done. cbn [negb].
  unfold expand. cbn [app]. rewrite !len_cons, Hv. by rewrite take_0, drop_0.
Qed.

Lemma ParseAddr_String ip : IsValid ip = true -> addr_wf ip -> ParseAddr (Addr_String ip) = Some ip.
Proof.
  destruct ip as [| b | b zone]; intros Hv Hwf; [done | |]; unfold ParseAddr, Addr_String; cbn [addr_wf] in Hwf.
  - rewrite <- (string_app_nil (string4 b)), first_of_string4 by done. cbn [mbind option_bind]. rewrite string_app_nil. unfold parseIPv4.
    change (Ascii.eqb "." ".") with true. cbv iota. by rewrite parseIPv4Fields_string4.
  - destruct (Is4In6 (Addr6 b zone)) eqn:Hm.
    + rewrite string_app_assoc. exact (parseIPv6_mapped b zone Hwf Hm).
    + rewrite first_of_string6 by done. by apply parseIPv6_string6.
Qed.
