(* ===== verification/Sockaddr.v ===== *)
(** * Socket addresses (src/sockaddr.go)

    The codec between netip addresses and the Linux sockaddr_in and
    sockaddr_in6 layouts, and the zone cache that resolves interface names.

    [ZoneEnv] is what the codec asks the host about zones: [zone_index] is
    the answer of zoneIndexes.index, [iface_name] that of
    net.InterfaceByIndex.  The cache behind zone_index is modelled at the
    end of the file, with its time and its interface table as inputs.

    The theorems: decoding never panics and reads only inside its buffer,
    encoding writes exactly one sockaddr and nothing else, what is encoded
    decodes to the same addresses in plain form, and the cache answers from
    a table no older than its TTL. *)
From Stdlib Require Import ZArith Lia Bool Ascii.
From stdpp Require Import base list option strings gmap.
From coqutil Require Import Byte.
From S2P Require Import Prelude Abi Errors Netip.

(** ** The errors of a malformed reply *)
Definition errNegativeSockaddrCount : error := InvalidArg "sctp: negative sockaddr count".
Definition errTooManySockaddrs : error :=
  InvalidArg "sctp: sockaddr count cannot fit in the buffer even at the smallest entry size".
Definition errShortSockaddrEntry : error :=
  InvalidArg "sctp: sockaddr entry runs past the end of the buffer".
Definition errUnknownSockaddrFamily : error :=
  InvalidArg "sctp: sockaddr entry names an address family this package does not decode".

(** ** Zones *)
Class ZoneEnv := {
  zone_index : string -> option Z;
  iface_name : Z -> option string;
}.

Fixpoint all_digits (s : string) : bool :=
  match s with "" => true | String c s => is_digit c && all_digits s end.

Definition isDecimal (s : string) : bool :=
  if bool_decide (s = "") then false else all_digits s.

Definition sockaddrSize (family : Z) : out error Z :=
  if family =? afInet then Ret sizeSockaddrIn
  else if family =? afInet6 then Ret sizeSockaddrIn6
  else Err (invalidArg "unknown address family %d").

Section Codec.
Context `{A : Arch} `{ZE : ZoneEnv}.

Definition encodeZone (zone : string) : out error Z :=
  if bool_decide (zone = "") then Ret 0 else
  match zone_index zone with
  | Some index =>
      if index <? 0 then Err (invalidArg "zone %q: interface index %d is negative")
      else Ret (u32 index)
  | None =>
      match ParseUint zone 32 with
      | None => Err (invalidArg "zone %q is not an interface name or a decimal index")
      | Some n =>
          if n =? 0 then Err (invalidArg "zone %q: a link-local address needs a non-zero scope id")
          else Ret (u32 n)
      end
  end.

(** [int(index)] is negative for a large index on a 32-bit target. *)
Definition to_int (v : Z) : Z := if wordSize =? 8 then v else i32 v.

Definition zoneName (index : Z) : string :=
  if index =? 0 then "" else
  let idx := to_int index in
  match (if (0 <? idx) && (u32 idx =? index) then iface_name idx else None) with
  | Some name => name
  | None => FormatUint index
  end.

(** ** Encoding *)

(** encodeAddr returns the destination with one sockaddr written at its
    start, and the sockaddr's size.  Every refusal comes before the first
    write. *)
Definition encodeAddr (dst : bytes) (family : Z) (ip : Addr) (port : Z) : out error (bytes * Z) :=
  if negb (IsValid ip) then Err (invalidArg "address is the zero netip.Addr") else
  let zone := Zone ip in
  let unmapped := Unmap ip in
  if family =? afInet then
    if negb (bool_decide (zone = ""))
    then Err (invalidArg "address %s has a zone but the socket family is AF_INET") else
    if negb (Is4 unmapped)
    then Err (invalidArg "address %s is not IPv4 for an AF_INET socket") else
    if len dst <? sizeSockaddrIn
    then Err (invalidArg "a %d byte buffer is too small for a %d byte sockaddr_in") else
    dst ← put_at NativeEndian 2 dst sockaddrInFamilyOff (u16 afInet);
    dst ← put_at BigEndian 2 dst sockaddrInPortOff port;
    dst ← copy_at dst sockaddrInAddrOff (As4 unmapped);
    dst ← clear_at dst (sockaddrInAddrOff + 4) sizeSockaddrIn;
    Ret (dst, sizeSockaddrIn)
  else if family =? afInet6 then
    if len dst <? sizeSockaddrIn6
    then Err (invalidArg "a %d byte buffer is too small for a %d byte sockaddr_in6") else
    scope ← (if negb (bool_decide (zone = "")) then
               if Is4 unmapped then Err (invalidArg "address %s has a zone but is IPv4") else
               if negb (IsLinkLocalUnicast unmapped)
               then Err (invalidArg "address %s has a zone but is not link-local") else
               encodeZone zone
             else Ret 0);
    let wire := if Is4 unmapped && IsUnspecified unmapped then IPv6Unspecified else unmapped in
    dst ← put_at NativeEndian 2 dst sockaddrIn6FamilyOff (u16 afInet6);
    dst ← put_at BigEndian 2 dst sockaddrIn6PortOff port;
    dst ← clear_at dst sockaddrIn6FlowInfoOff (sockaddrIn6FlowInfoOff + 4);
    dst ← copy_at dst sockaddrIn6AddrOff (As16 wire);
    dst ← put_at NativeEndian 4 dst sockaddrIn6ScopeIDOff scope;
    Ret (dst, sizeSockaddrIn6)
  else Err (invalidArg "unknown address family %d").

(** strings.TrimPrefix(err.Error(), "sctp: ") of encodeAddr's error, which
    is always an invalidArg. *)
Definition trim_sctp (e : error) : string :=
  match e with
  | InvalidArg (String _ (String _ (String _ (String _ (String _ (String _ msg)))))) => msg
  | _ => ""
  end.

(** The loop of encodeAddrs: entry [i] is encoded in its own slice of buf. *)
Fixpoint encodeAddrs_loop (buf : bytes) (i size family : Z) (ips : list Addr) (port : Z)
    : out error bytes :=
  match ips with
  | [] => Ret buf
  | ip :: ips =>
      entry ← slice buf (i * size) ((i + 1) * size);
      match encodeAddr entry family ip port with
      | Ret (entry, _) =>
          buf ← copy_at buf (i * size) entry;
          encodeAddrs_loop buf (i + 1) size family ips port
      | Err e => Err (invalidArg ("address %d: " +:+ trim_sctp e))
      | Panic => Panic
      end
  end.

Definition encodeAddrs (family : Z) (ips : list Addr) (port : Z) : out error bytes :=
  size ← sockaddrSize family;
  encodeAddrs_loop (zeros (len ips * size)) 0 size family ips port.

(** ** Decoding *)
Definition sockaddrEntrySize (b : bytes) (at_ : Z) : out error Z :=
  if (at_ <? 0) || (len b <? at_ + 2) then Err errShortSockaddrEntry else
  family ← get_at NativeEndian 2 b (at_ + sockaddrInFamilyOff);
  size ← (if family =? afInet then Ret sizeSockaddrIn
          else if family =? afInet6 then Ret sizeSockaddrIn6
          else Err errUnknownSockaddrFamily);
  if len b <? at_ + size then Err errShortSockaddrEntry else Ret size.

Definition decodeSockaddrEntry (b : bytes) : out error (Addr * Z) :=
  family ← get_at NativeEndian 2 b sockaddrInFamilyOff;
  port ← get_at BigEndian 2 b sockaddrInPortOff;
  if family =? afInet then
    a4 ← slice b sockaddrInAddrOff (sockaddrInAddrOff + 4);
    Ret (Addr4 a4, port)
  else
    a16 ← slice b sockaddrIn6AddrOff (sockaddrIn6AddrOff + 16);
    let ip := Addr6 a16 "" in
    if Is4In6 ip then Ret (Unmap ip, port) else
    if IsLinkLocalUnicast ip then
      scope ← get_at NativeEndian 4 b sockaddrIn6ScopeIDOff;
      Ret (if negb (scope =? 0) then WithZone ip (zoneName scope) else ip, port)
    else Ret (ip, port).

Definition decodeAddr (b : bytes) : out error AddrPort :=
  size ← sockaddrEntrySize b 0;
  entry ← slice b 0 size;
  '(ip, port) ← decodeSockaddrEntry entry;
  Ret (AddrPortFrom ip port).

(** decodeAddrs's first loop: every entry checked, nothing decoded. *)
Fixpoint check_entries (b : bytes) (n : nat) (at_ : Z) : out error Z :=
  match n with
  | O => Ret at_
  | S n => size ← sockaddrEntrySize b at_; check_entries b n (at_ + size)
  end.

(** Its second loop, which ignores sockaddrEntrySize's error (its size is
    then 0), and the ports of all the entries. *)
Fixpoint decode_entries (b : bytes) (n : nat) (at_ : Z) : out error (list (Addr * Z)) :=
  match n with
  | O => Ret []
  | S n =>
      size ← match sockaddrEntrySize b at_ with Err _ => Ret 0 | r => r end;
      entry ← slice b at_ (at_ + size);
      e ← decodeSockaddrEntry entry;
      es ← decode_entries b n (at_ + size);
      Ret (e :: es)
  end.

Definition decodeAddrs (b : bytes) (n : Z) : out error (list Addr * Z) :=
  if n <? 0 then Err errNegativeSockaddrCount else
  if n =? 0 then Ret ([], 0) else
  if len b / sizeSockaddrIn <? n then Err errTooManySockaddrs else
  _ ← check_entries b (Z.to_nat n) 0;
  es ← decode_entries b (Z.to_nat n) 0;
  Ret (map fst es, match es with (_, port) :: _ => port | [] => 0 end).
End Codec.

(** ** The zone cache

    Times are integers (nanoseconds); [fetched] is [None] before the first
    read.  index is two critical sections: the look under the read lock,
    and refresh under the write lock, between which another lookup may have
    run; [reply] is the interface table net.Interfaces returns, [None] when
    it fails, and [now'] the clock read after it. *)
Definition zoneCacheTTL : Z := 60 * 1000000000.

Record zoneCache := { byName : gmap string Z; fetched : option Z }.

Definition table_of (ift : list (string * Z)) : gmap string Z :=
  foldl (fun m e => <[fst e := snd e]> m) ∅ ift.

(** The first critical section: the answer, or [None] to go on to refresh. *)
Definition index_look (z : zoneCache) (now : Z) (name : string) : option (option Z) :=
  let hit := byName z !! name in
  let isfetched := bool_decide (is_Some (fetched z)) in
  let fresh := match fetched z with Some t => now - t <? zoneCacheTTL | None => false end in
  if (fresh && bool_decide (is_Some hit)) ||
     (isfetched && negb (bool_decide (is_Some hit)) && isDecimal name)
  then Some hit else None.

Definition refresh (z : zoneCache) (now : Z) (name : string)
    (reply : option (list (string * Z))) (now' : Z) : zoneCache * option Z :=
  if match fetched z with Some t => now <? t | None => false end
  then (z, byName z !! name)
  else
    let z := match reply with
             | Some ift => {| byName := table_of ift; fetched := Some now' |}
             | None => z
             end in
    (z, byName z !! name).

(** index, with [z1] the cache at the look and [z2] at the refresh. *)
Definition index (z1 z2 : zoneCache) (now : Z) (name : string)
    (reply : option (list (string * Z))) (now' : Z) : zoneCache * option Z :=
  match index_look z1 now name with
  | Some r => (z2, r)
  | None => refresh z2 now name reply now'
  end.

(** ** What the codec means *)
Section Spec.
Context `{A : Arch} `{ZE : ZoneEnv}.

(** The bytes of one sockaddr. *)
Definition sockaddr_in_bytes (port : Z) (a4 : bytes) : bytes :=
  bytes_of NativeEndian 2 afInet ++ bytes_of BigEndian 2 port ++ a4 ++ zeros 8.

Definition sockaddr_in6_bytes (port : Z) (a16 : bytes) (scope : Z) : bytes :=
  bytes_of NativeEndian 2 afInet6 ++ bytes_of BigEndian 2 port ++ zeros 4 ++ a16 ++
  bytes_of NativeEndian 4 scope.

(** The scope id an accepted address carries, 0 without a zone. *)
Definition scope_of (ip : Addr) : out error Z :=
  if bool_decide (Zone ip = "") then Ret 0 else encodeZone (Zone ip).

Definition scope_id (ip : Addr) : Z := match scope_of ip with Ret s => s | _ => 0 end.

(** The addresses a socket of the family accepts. *)
Definition accepts (family : Z) (ip : Addr) : bool :=
  if family =? afInet then bool_decide (Zone ip = "") && Is4 (Unmap ip)
  else (family =? afInet6) && IsValid ip &&
       (bool_decide (Zone ip = "") || (negb (Is4 (Unmap ip)) && IsLinkLocalUnicast (Unmap ip))).

(** The address the kernel is given for [ip]. *)
Definition wire_addr (ip : Addr) : Addr :=
  let u := Unmap ip in
  if Is4 u && IsUnspecified u then IPv6Unspecified else u.

Definition sockaddr_bytes (family : Z) (ip : Addr) (port : Z) : bytes :=
  if family =? afInet then sockaddr_in_bytes port (As4 (Unmap ip))
  else sockaddr_in6_bytes port (As16 (wire_addr ip)) (scope_id ip).

Definition sockaddr_len (family : Z) : Z :=
  if family =? afInet then sizeSockaddrIn else sizeSockaddrIn6.

(** What a decoder of those bytes reports: plain IPv4 for a mapped address,
    and a zone only on a link-local address with a scope id. *)
Definition decoded (family : Z) (ip : Addr) : Addr :=
  if family =? afInet then Unmap ip
  else match wire_addr ip with
       | Addr6 b _ =>
           if IsLinkLocalUnicast (Addr6 b "") && negb (scope_id ip =? 0)
           then Addr6 b (zoneName (scope_id ip)) else Addr6 b ""
       | a => a
       end.
End Spec.

(** ** Lemmas *)
Section Lemmas.
Context `{A : Arch} `{ZE : ZoneEnv}.

Lemma encodeZone_range zone s : encodeZone zone = Ret s -> is_u32 s.
Proof.
  unfold encodeZone, is_u32, u32. destruct (bool_decide _); [intros [= <-]; lia |].
  destruct (zone_index zone) as [i |].
  - destruct (i <? 0); [done |]. intros [= <-]. apply Z.mod_pos_bound. lia.
  - destruct (ParseUint zone 32) as [n |]; [| done]. destruct (n =? 0); [done |].
    intros [= <-]. apply Z.mod_pos_bound. lia.
Qed.

Lemma encodeZone_invalid zone e : encodeZone zone = Err e -> exists m, e = InvalidArg m.
Proof.
  unfold encodeZone, invalidArg. intros H.
  repeat case_match; simplify_eq; eauto.
Qed.

Lemma encodeZone_safe zone : safe (encodeZone zone).
Proof. unfold encodeZone. repeat case_match; done. Qed.

Lemma Unmap_Is4_zone ip b : Unmap ip = Addr4 b -> Zone (Unmap ip) = "".
Proof. by intros ->. Qed.

Lemma wire_addr_wf ip : addr_wf ip -> addr_wf (wire_addr ip).
Proof. intros. unfold wire_addr. destruct (_ && _); [done | by apply Unmap_wf]. Qed.

(** The writes of encodeAddr, once the address is accepted. *)
Lemma encodeAddr_inet dst ip port :
  addr_wf ip -> accepts afInet ip = true -> sizeSockaddrIn <= len dst ->
  encodeAddr dst afInet ip port =
  Ret (sockaddr_bytes afInet ip port ++ drop (Z.to_nat sizeSockaddrIn) dst, sizeSockaddrIn).
Proof.
  intros Hwf Hacc Hlen. unfold accepts in Hacc. rewrite Z.eqb_refl in Hacc.
  apply andb_prop in Hacc as [Hz H4]. apply Unmap_wf in Hwf.
  unfold encodeAddr. rewrite Z.eqb_refl, Hz, H4. unfold sockaddr_bytes. rewrite Z.eqb_refl.
  assert (Hv : IsValid ip = true) by (destruct ip; done).
  rewrite Hv. cbn [negb]. rewrite (proj2 (Z.ltb_ge _ _)) by done.
  destruct (Unmap ip) as [| b |] eqn:Hu; try done. cbn [As4] in *. simpl in Hwf.
  unfold sockaddr_in_bytes. abi. change (u16 2) with 2.
  rewrite (put_at_app NativeEndian 2 [] dst) by solve_len. next.
  rewrite put_at_app by solve_len. next. rewrite copy_at_app by solve_len. next.
  rewrite (clear_at_app _ _ 8 16) by solve_len. next.
  rewrite (len_length b 4), !drop_drop, <- !app_assoc by lia. done.
Qed.

Lemma encodeAddr_inet6 dst ip port scope :
  addr_wf ip -> accepts afInet6 ip = true -> scope_of ip = Ret scope ->
  sizeSockaddrIn6 <= len dst ->
  encodeAddr dst afInet6 ip port =
  Ret (sockaddr_bytes afInet6 ip port ++ drop (Z.to_nat sizeSockaddrIn6) dst, sizeSockaddrIn6).
Proof.
  intros Hwf Hacc Hs Hlen. unfold accepts in Hacc. simpl in Hacc.
  apply andb_prop in Hacc as [Hv Hz]. unfold encodeAddr, sockaddr_bytes.
  rewrite Hv. change (afInet6 =? afInet) with false. rewrite Z.eqb_refl. cbn [negb].
  rewrite (proj2 (Z.ltb_ge _ _)) by done.
  assert (Hsc : (if negb (bool_decide (Zone ip = "")) then
               if Is4 (Unmap ip) then Err (invalidArg "address %s has a zone but is IPv4") else
               if negb (IsLinkLocalUnicast (Unmap ip))
               then Err (invalidArg "address %s has a zone but is not link-local") else
               encodeZone (Zone ip)
             else Ret 0) = Ret scope).
  { unfold scope_of in Hs. destruct (bool_decide _); simpl in *; [done |].
    apply andb_prop in Hz as [Hz1 Hz2]. apply negb_true_iff in Hz1.
    rewrite Hz1, Hz2. simpl. done. }
  rewrite Hsc. next. fold (wire_addr ip). unfold scope_id. rewrite Hs.
  pose proof (As16_len _ (wire_addr_wf _ Hwf)) as Hb.
  unfold sockaddr_in6_bytes. abi. change (u16 10) with 10.
  rewrite (put_at_app NativeEndian 2 [] dst) by solve_len. next.
  rewrite put_at_app by solve_len. next. rewrite (clear_at_app _ _ 4 8) by solve_len. next.
  rewrite copy_at_app by solve_len. next. rewrite put_at_app by solve_len. next.
  rewrite (len_length (As16 (wire_addr ip)) 16), !drop_drop, <- !app_assoc by lia. done.
Qed.

Lemma len_sockaddr_bytes family ip port :
  addr_wf ip -> accepts family ip = true ->
  len (sockaddr_bytes family ip port) = sockaddr_len family.
Proof.
  intros Hwf Hacc. unfold sockaddr_bytes, accepts, sockaddr_len in *.
  destruct (family =? afInet).
  - apply andb_prop in Hacc as [_ H4]. apply Unmap_wf in Hwf.
    unfold sockaddr_in_bytes. destruct (Unmap ip); try done. simpl in *. abi. solve_len.
  - pose proof (As16_len _ (wire_addr_wf _ Hwf)). unfold sockaddr_in6_bytes. abi. solve_len.
Qed.

(** The three refusals. *)
Lemma encodeAddr_refused dst family ip port :
  accepts family ip = false -> exists m, encodeAddr dst family ip port = Err (InvalidArg m).
Proof.
  unfold accepts, encodeAddr, invalidArg. intros Hacc.
  destruct (IsValid ip) eqn:Hv; simpl; [| eauto].
  destruct (family =? afInet).
  - destruct (bool_decide _); simpl in *; [| eauto]. rewrite Hacc. simpl. eauto.
  - destruct (family =? afInet6); [| eauto]. destruct (len dst <? sizeSockaddrIn6); [eauto |].
    simpl in Hacc. destruct (bool_decide _); simpl in *; [done |].
    destruct (Is4 _); simpl in *; [eauto |]. rewrite Hacc. simpl. eauto.
Qed.

Lemma encodeAddr_short dst family ip port :
  accepts family ip = true -> len dst < sockaddr_len family ->
  exists m, encodeAddr dst family ip port = Err (InvalidArg m).
Proof.
  unfold accepts, encodeAddr, invalidArg, sockaddr_len. intros Hacc Hl.
  destruct (family =? afInet).
  - apply andb_prop in Hacc as [Hz H4]. rewrite Hz, H4, (proj2 (Z.ltb_lt _ _)) by done.
    destruct ip; try done; simpl; eauto.
  - destruct (family =? afInet6); [| done]. simpl in Hacc. apply andb_prop in Hacc as [Hv _].
    rewrite Hv, (proj2 (Z.ltb_lt _ _)) by done. simpl. eauto.
Qed.

Lemma encodeAddr_zone_err dst ip port e :
  accepts afInet6 ip = true -> scope_of ip = Err e -> sizeSockaddrIn6 <= len dst ->
  exists m, encodeAddr dst afInet6 ip port = Err (InvalidArg m).
Proof.
  unfold accepts, scope_of. simpl. intros [Hv Hz]%andb_prop Hs Hl.
  destruct (bool_decide _) eqn:Hb; [done |]. simpl in Hz.
  destruct (encodeZone_invalid _ _ Hs) as [m ->]. apply andb_prop in Hz as [Hz1 Hz2].
  apply negb_true_iff in Hz1. unfold encodeAddr. rewrite Hv, Hb, Hz1, Hz2, Hs. simpl.
  rewrite (proj2 (Z.ltb_ge _ _)) by done. simpl. eauto.
Qed.

Lemma scope_of_inet ip : accepts afInet ip = true -> scope_of ip = Ret 0.
Proof. unfold accepts, scope_of. simpl. by intros [-> _]%andb_prop. Qed.

Lemma scope_of_safe ip : safe (scope_of ip).
Proof. unfold scope_of. destruct (bool_decide _); [done | apply encodeZone_safe]. Qed.

Lemma accepts_family family ip : accepts family ip = true -> family = afInet \/ family = afInet6.
Proof.
  unfold accepts. destruct (Z.eqb_spec family afInet), (Z.eqb_spec family afInet6);
    simpl; auto; done.
Qed.

(** Every outcome of encodeAddr. *)
Lemma encodeAddr_outcome dst family ip port :
  addr_wf ip ->
  match encodeAddr dst family ip port with
  | Ret (dst', n) =>
      accepts family ip = true /\ (exists s, scope_of ip = Ret s) /\
      n = sockaddr_len family /\ n <= len dst /\
      dst' = sockaddr_bytes family ip port ++ drop (Z.to_nat n) dst
  | Err e =>
      (exists m, e = InvalidArg m) /\
      (accepts family ip = false \/ len dst < sockaddr_len family \/ exists e', scope_of ip = Err e')
  | Panic => False
  end.
Proof.
  intros Hwf. destruct (accepts family ip) eqn:Hacc.
  2: { destruct (encodeAddr_refused dst family ip port Hacc) as [m ->]. eauto. }
  destruct (Z.le_gt_cases (sockaddr_len family) (len dst)) as [Hl | Hl].
  2: { destruct (encodeAddr_short dst family ip port Hacc Hl) as [m ->]. eauto. }
  destruct (accepts_family _ _ Hacc) as [-> | ->].
  - rewrite encodeAddr_inet by done. eauto 10 using scope_of_inet.
  - destruct (scope_of ip) as [s | e |] eqn:Hs.
    + erewrite encodeAddr_inet6 by done. eauto 10.
    + destruct (encodeAddr_zone_err dst ip port e Hacc Hs Hl) as [m ->]. eauto 10.
    + pose proof (scope_of_safe ip) as Hsafe. by rewrite Hs in Hsafe.
Qed.

(** The size of an entry, and that it is inside the buffer. *)
Lemma sockaddrEntrySize_outcome b at_ :
  match sockaddrEntrySize b at_ with
  | Ret size => 0 <= at_ /\ at_ + size <= len b /\
      ((size = sizeSockaddrIn /\ uint_of NativeEndian (sub b at_ 2) = afInet) \/
       (size = sizeSockaddrIn6 /\ uint_of NativeEndian (sub b at_ 2) = afInet6))
  | Err e => e = errShortSockaddrEntry \/ e = errUnknownSockaddrFamily
  | Panic => False
  end.
Proof.
  unfold sockaddrEntrySize. abi.
  destruct (Z.ltb_spec at_ 0), (Z.ltb_spec (len b) (at_ + 2)); simpl; auto.
  rewrite get2_ok by lia. rewrite Z.add_0_r. next.
  destruct (Z.eqb_spec (uint_of NativeEndian (sub b at_ 2)) 2); next.
  - destruct (Z.ltb_spec (len b) (at_ + 16)); auto with lia.
  - destruct (Z.eqb_spec (uint_of NativeEndian (sub b at_ 2)) 10); next; [| auto].
    destruct (Z.ltb_spec (len b) (at_ + 28)); auto with lia.
Qed.

(** decodeSockaddrEntry on a validated entry. *)
Lemma decodeSockaddrEntry_ok b :
  (len b = sizeSockaddrIn /\ uint_of NativeEndian (sub b 0 2) = afInet) \/
  (len b = sizeSockaddrIn6 /\ uint_of NativeEndian (sub b 0 2) = afInet6) ->
  exists ip port, decodeSockaddrEntry b = Ret (ip, port) /\
    port = uint_of BigEndian (sub b 2 2) /\ addr_wf ip /\ Is4In6 ip = false.
Proof.
  unfold decodeSockaddrEntry. abi. intros [[Hl Hf] | [Hl Hf]];
    rewrite (get2_ok _ _ 0) by lia; next; rewrite (get2_ok _ _ 2) by lia; next;
    rewrite Hf; cbn [Z.eqb Pos.eqb].
  - rewrite slice_ok by lia. next. do 2 eexists. split; [done |].
    split; [done |]. simpl. rewrite len_sub by lia. done.
  - rewrite slice_ok by lia. next.
    destruct (Is4In6 _) eqn:H46.
    + do 2 eexists. split; [done |]. split; [done |]. split; [| apply Unmap_not4In6].
      apply Unmap_wf. simpl. rewrite len_sub by lia. done.
    + destruct (IsLinkLocalUnicast _).
      * rewrite get4_ok by lia. next. do 2 eexists. split; [done |]. split; [done |].
        destruct (negb _); simpl; (split; [rewrite len_sub by lia |]; done).
      * do 2 eexists. split; [done |]. split; [done |].
        simpl. split; [rewrite len_sub by lia |]; done.
Qed.

(** A whole entry read back. *)
Lemma decodeSockaddrEntry_encoded family ip port :
  addr_wf ip -> accepts family ip = true -> is_u16 port ->
  decodeSockaddrEntry (sockaddr_bytes family ip port) = Ret (decoded family ip, port).
Proof.
  intros Hwf Hacc Hp.
  assert (Hport : uint_of BigEndian (bytes_of BigEndian 2 port) = port).
  { by rewrite uint_of_2, u16_small. }
  destruct (accepts_family _ _ Hacc) as [-> | ->].
  - unfold accepts in Hacc. simpl in Hacc. apply andb_prop in Hacc as [_ H4].
    apply Unmap_wf in Hwf. unfold sockaddr_bytes, decoded. rewrite Z.eqb_refl.
    destruct (Unmap ip) as [| b |]; try done. cbn [As4]. simpl in Hwf.
    unfold decodeSockaddrEntry, sockaddr_in_bytes. abi.
    rewrite (get2_ok _ _ 0) by solve_len. next.
    rewrite (get2_ok _ _ 2) by solve_len. next. read_field.
    rewrite uint_of_2. change (u16 2 =? 2) with true. cbv iota. rewrite slice_ok by solve_len. next. read_field. by rewrite Hport.
  - pose proof (wire_addr_wf _ Hwf) as Hwf'. pose proof (As16_len _ Hwf') as Hb.
    unfold sockaddr_bytes, decoded. change (afInet6 =? afInet) with false. cbv iota.
    unfold decodeSockaddrEntry, sockaddr_in6_bytes. abi.
    rewrite (get2_ok _ _ 0) by solve_len. next.
    rewrite (get2_ok _ _ 2) by solve_len. next. read_field.
    rewrite uint_of_2. change (u16 10 =? 2) with false. cbv iota.
    rewrite slice_ok by solve_len. next. read_field. rewrite Hport.
    assert (Hsc : uint_of NativeEndian (bytes_of NativeEndian 4 (scope_id ip)) = scope_id ip).
    { rewrite uint_of_4. apply u32_small. unfold is_u32, scope_id, scope_of.
      destruct (bool_decide _); [lia |].
      destruct (encodeZone (Zone ip)) eqn:E; [| lia | lia]. by apply encodeZone_range in E. }
    unfold wire_addr in *. pose proof (Unmap_not4In6 ip) as Hn4.
    destruct (Unmap ip) as [| b | b z] eqn:Hu; simpl in Hwf'.
    + unfold accepts in Hacc. destruct ip as [| | b z]; try done.
      cbn [Unmap] in Hu. by destruct (Is4In6 (Addr6 b z)).
    + cbn [Is4 andb]. destruct (IsUnspecified (Addr4 b)); [done |]. cbn [andb] in *.
      replace (Is4In6 _) with true.
      * by rewrite (Unmap_As16_4 b Hwf').
      * symmetry. cbn. by rewrite bool_decide_eq_true_2.
    + cbn [Is4 andb As16] in *. change (Is4In6 (Addr6 b "")) with (Is4In6 (Addr6 b z)).
      rewrite Hn4. destruct (IsLinkLocalUnicast _); [| done].
      rewrite get4_ok by solve_len. next. read_field. rewrite Hsc.
      by destruct (scope_id ip =? 0).
Qed.

(** ** Packed arrays *)
Lemma sockaddr_bytes_family family ip port :
  accepts family ip = true ->
  exists r, sockaddr_bytes family ip port = bytes_of NativeEndian 2 family ++ r.
Proof.
  intros Hacc. unfold sockaddr_bytes, sockaddr_in_bytes, sockaddr_in6_bytes.
  destruct (accepts_family _ _ Hacc) as [-> | ->]; eexists; done.
Qed.

Lemma sockaddrEntrySize_encoded pre r family ip port :
  addr_wf ip -> accepts family ip = true ->
  sockaddrEntrySize (pre ++ sockaddr_bytes family ip port ++ r) (len pre) = Ret (sockaddr_len family).
Proof.
  intros Hwf Hacc. pose proof (len_sockaddr_bytes family ip port Hwf Hacc) as Hl.
  pose proof (len_nonneg pre). pose proof (len_nonneg r).
  destruct (sockaddr_bytes_family family ip port Hacc) as [r' Hr].
  assert (Hge : 2 <= sockaddr_len family) by (unfold sockaddr_len; destruct (_ =? _); abi; lia).
  unfold sockaddrEntrySize. rewrite !len_app, Hl.
  rewrite (proj2 (Z.ltb_ge (len pre) 0)), (proj2 (Z.ltb_ge _ (len pre + 2))) by lia. simpl.
  change sockaddrInFamilyOff with 0. rewrite Z.add_0_r, get2_ok by (rewrite ?len_app, ?Hl; lia).
  next. rewrite sub_app_r by lia. rewrite Hr, <- app_assoc. read_field.
  rewrite uint_of_2. rewrite u16_small.
  2: { destruct (accepts_family _ _ Hacc) as [-> | ->]; done. }
  destruct (accepts_family _ _ Hacc) as [-> | ->]; simpl;
    rewrite (proj2 (Z.ltb_ge _ _)); try done; unfold sockaddr_len; simpl; abi; lia.
Qed.

Lemma check_entries_encoded pre r family ips port :
  Forall (fun ip => addr_wf ip /\ accepts family ip = true) ips ->
  check_entries (pre ++ concat (map (fun ip => sockaddr_bytes family ip port) ips) ++ r)
    (length ips) (len pre) = Ret (len pre + len ips * sockaddr_len family).
Proof.
  intros Hf. revert pre. induction Hf as [| ip ips [Hwf Hacc] _ IH]; intros pre; simpl.
  { f_equal. rewrite (@len_nil Addr). lia. }
  rewrite <- app_assoc, sockaddrEntrySize_encoded by done. next.
  pose proof (len_sockaddr_bytes family ip port Hwf Hacc) as Hl.
  specialize (IH (pre ++ sockaddr_bytes family ip port)).
  rewrite len_app, Hl, <- app_assoc in IH. rewrite IH. f_equal. rewrite len_cons. lia.
Qed.

Lemma decode_entries_encoded pre r family ips port :
  Forall (fun ip => addr_wf ip /\ accepts family ip = true) ips -> is_u16 port ->
  decode_entries (pre ++ concat (map (fun ip => sockaddr_bytes family ip port) ips) ++ r)
    (length ips) (len pre) = Ret (map (fun ip => (decoded family ip, port)) ips).
Proof.
  intros Hf Hp. revert pre. induction Hf as [| ip ips [Hwf Hacc] _ IH]; intros pre; simpl; [done |].
  rewrite <- app_assoc, sockaddrEntrySize_encoded by done. next.
  pose proof (len_sockaddr_bytes family ip port Hwf Hacc) as Hl.
  assert (0 <= sockaddr_len family) by (rewrite <- Hl; apply len_nonneg).
  rewrite slice_ok by (rewrite ?len_app, ?Hl; solve_len). next.
  rewrite sub_app_r, sub_app_l, sub_whole by (rewrite ?Hl; solve_len).
  rewrite decodeSockaddrEntry_encoded by done. next.
  specialize (IH (pre ++ sockaddr_bytes family ip port)).
  rewrite len_app, Hl, <- app_assoc in IH. by rewrite IH.
Qed.

Lemma encodeAddrs_loop_outcome pre family ips port :
  Forall addr_wf ips -> family = afInet \/ family = afInet6 ->
  forall i, len pre = i * sockaddr_len family -> 0 <= i ->
  match encodeAddrs_loop (pre ++ zeros (len ips * sockaddr_len family)) i
          (sockaddr_len family) family ips port with
  | Ret buf => buf = pre ++ concat (map (fun ip => sockaddr_bytes family ip port) ips) /\
               Forall (fun ip => accepts family ip = true) ips
  | Err e => exists m, e = InvalidArg m
  | Panic => False
  end.
Proof.
  intros Hf Hfam. assert (Hs : 0 < sockaddr_len family) by (destruct Hfam as [-> | ->]; done).
  revert pre. induction Hf as [| ip ips Hwf _ IH]; intros pre i Hpre Hi; simpl.
  { split; [done | constructor]. }
  pose proof (len_nonneg ips) as Hn. set (size := sockaddr_len family) in *.
  assert (Htot : len (ip :: ips) * size = size + len ips * size) by (rewrite len_cons; lia).
  assert (0 <= len ips * size) by nia.
  rewrite slice_ok by (rewrite ?len_app, ?len_zeros by lia; nia). next.
  replace ((i + 1) * size - i * size) with size by lia.
  rewrite sub_app_r by lia. rewrite Hpre, Z.sub_diag.
  pose proof (encodeAddr_outcome (sub (zeros (len (ip :: ips) * size)) 0 size) family ip port Hwf)
    as Hout.
  destruct (encodeAddr _ family ip port) as [[entry n] | e |]; [| unfold invalidArg; eauto | done].
  destruct Hout as (Hacc & _ & -> & _ & ->). fold size.
  pose proof (len_sockaddr_bytes family ip port Hwf Hacc) as Hl. fold size in Hl.
  rewrite drop_ge, app_nil_r by (unfold sub; rewrite length_take; lia).
  rewrite copy_at_app by (rewrite ?Hl, ?len_zeros by lia; lia).
  next. specialize (IH (pre ++ sockaddr_bytes family ip port) (i + 1)).
  replace (drop _ (zeros _)) with (zeros (len ips * size)).
  2: { unfold zeros. rewrite drop_replicate. f_equal. unfold len in *. lia. }
  destruct (encodeAddrs_loop _ _ _ _ _ _); [| apply IH; rewrite ?len_app; lia ..].
  destruct IH as [-> Hall]; [rewrite len_app; lia | lia |].
  rewrite <- app_assoc. auto.
Qed.

Lemma encodeAddrs_outcome family ips port :
  Forall addr_wf ips ->
  match encodeAddrs family ips port with
  | Ret buf => buf = concat (map (fun ip => sockaddr_bytes family ip port) ips) /\
               Forall (fun ip => accepts family ip = true) ips /\ len buf = len ips * sockaddr_len family /\ 0 < sockaddr_len family
  | Err e => exists m, e = InvalidArg m
  | Panic => False
  end.
Proof.
  intros Hwf. unfold encodeAddrs.
  assert (Hfam : sockaddrSize family = Ret (sockaddr_len family) /\ (family = afInet \/ family = afInet6) \/
    sockaddrSize family = Err (invalidArg "unknown address family %d")).
  { unfold sockaddrSize, sockaddr_len. destruct (Z.eqb_spec family afInet); [auto |]. destruct (Z.eqb_spec family afInet6); auto. }
  destruct Hfam as [[-> Hfam] | ->]; next; [| by eexists].
  pose proof (encodeAddrs_loop_outcome [] family ips port Hwf Hfam 0 eq_refl ltac:(lia)) as Hl. cbn [app] in Hl.
  destruct (encodeAddrs_loop _ _ _ _ _ _) as [buf | e |]; [| done..]. destruct Hl as [-> Hacc]. split_and!; [done | done | |].
  - clear -Hwf Hacc. induction ips as [| ip ips IH]; [done |].
    apply Forall_cons in Hwf as [Hw Hwf]. apply Forall_cons in Hacc as [Ha Hacc].
    cbn [map concat]. rewrite len_app, IH, len_cons, (len_sockaddr_bytes family ip port) by done. lia.
  - by destruct Hfam as [-> | ->].
Qed.
End Lemmas.

(** ** Decoding *)
Section Decode.
Context `{A : Arch} `{ZE : ZoneEnv}.

(** The entry sockaddrEntrySize validated decodes. *)
Lemma decode_validated b at_ size :
  sockaddrEntrySize b at_ = Ret size ->
  exists ip port, decodeSockaddrEntry (sub b at_ size) = Ret (ip, port) /\
    port = uint_of BigEndian (sub b (at_ + 2) 2) /\
    addr_wf ip /\ Is4In6 ip = false /\ 0 <= at_ /\ 0 <= size /\ at_ + size <= len b.
Proof.
  intros Hs. pose proof (sockaddrEntrySize_outcome b at_) as Ho. rewrite Hs in Ho.
  destruct Ho as (Ha & Hl & Hsz). assert (H28 : 16 <= size) by (abi; lia).
  destruct (decodeSockaddrEntry_ok (sub b at_ size)) as (ip & port & Hd & Hp & Hwf & H4).
  - rewrite len_sub, sub_sub, Z.add_0_r by lia. intuition.
  - rewrite sub_sub in Hp by lia. exists ip, port. repeat split; auto; lia.
Qed.

Lemma decodeAddr_outcome b :
  match decodeAddr b with
  | Ret ap => addr_wf (ap_addr ap) /\ Is4In6 (ap_addr ap) = false
  | Err e => e = errShortSockaddrEntry \/ e = errUnknownSockaddrFamily
  | Panic => False
  end.
Proof.
  unfold decodeAddr. pose proof (sockaddrEntrySize_outcome b 0) as Ho.
  destruct (sockaddrEntrySize b 0) as [size | e |] eqn:Hs; next; [| done | done].
  destruct (decode_validated b 0 size Hs) as (ip & port & Hd & _ & Hwf & H4 & _ & ? & ?).
  rewrite slice_ok by lia. next. rewrite Z.sub_0_r, Hd. by next.
Qed.

(** In a field that holds either kind of sockaddr only the family can be
    wrong. *)
Lemma decodeAddr_family b : len b = 128 ->
  match decodeAddr b with
  | Ret _ => uint_of NativeEndian (sub b 0 2) = afInet \/ uint_of NativeEndian (sub b 0 2) = afInet6
  | Err e => e = errUnknownSockaddrFamily /\
             uint_of NativeEndian (sub b 0 2) <> afInet /\ uint_of NativeEndian (sub b 0 2) <> afInet6
  | Panic => False
  end.
Proof.
  intros Hl. unfold decodeAddr. pose proof (sockaddrEntrySize_outcome b 0) as Ho.
  destruct (sockaddrEntrySize b 0) as [size | e |] eqn:Hs; [| | done].
  - destruct (decode_validated b 0 size Hs) as (ip & port & Hdec & _ & _ & _ & _ & ? & ?).
    next. rewrite slice_ok by lia. next. rewrite Z.sub_0_r, Hdec. next. tauto.
  - next. revert Hs. unfold sockaddrEntrySize. rewrite Hl. abi. simpl. rewrite get2_ok by lia. next. rewrite Z.add_0_r.
    destruct (Z.eqb_spec (uint_of NativeEndian (sub b 0 2)) 2); next; [done |].
    destruct (Z.eqb_spec (uint_of NativeEndian (sub b 0 2)) 10); next; [done |]. by intros [= <-].
Qed.

Lemma decodeAddr_port b ap : decodeAddr b = Ret ap -> is_u16 (ap_port ap).
Proof.
  intros (size & _ & (entry & _ & ([ip port] & Hd & [= <-])%bind_Ret_inv)%bind_Ret_inv)%bind_Ret_inv. cbn [ap_port].
  apply bind_Ret_inv in Hd as (family & _ & Hd). apply bind_Ret_inv in Hd as (port' & Hp%get_at_width & Hd).
  assert (port' = port) as <-; [| exact Hp]. destruct (family =? afInet).
  - by apply bind_Ret_inv in Hd as (a4 & _ & [= _ <-]).
  - apply bind_Ret_inv in Hd as (a16 & _ & Hd). cbv zeta in Hd. destruct (Is4In6 _); [by injection Hd |].
    destruct (IsLinkLocalUnicast _); [by apply bind_Ret_inv in Hd as (scope & _ & [= _ <-]) | by injection Hd].
Qed.

Lemma decodeAddr_encoded family ip port r :
  addr_wf ip -> accepts family ip = true -> is_u16 port ->
  decodeAddr (sockaddr_bytes family ip port ++ r) = Ret (AddrPortFrom (decoded family ip) port).
Proof.
  intros Hwf Hacc Hp. unfold decodeAddr.
  pose proof (sockaddrEntrySize_encoded [] r family ip port Hwf Hacc) as Hs.
  change (len []) with 0 in Hs. simpl app in Hs. rewrite Hs. next.
  pose proof (len_sockaddr_bytes family ip port Hwf Hacc) as Hl.
  pose proof (len_nonneg (sockaddr_bytes family ip port)). pose proof (len_nonneg r).
  rewrite slice_ok by (rewrite ?len_app; lia). next.
  rewrite sub_app_l, sub_whole by lia. by rewrite decodeSockaddrEntry_encoded.
Qed.

(** The second walk of decodeAddrs follows the first. *)
Lemma check_decode b n at_ :
  match check_entries b n at_ with
  | Ret _ => exists es, decode_entries b n at_ = Ret es /\ length es = n /\
               Forall (fun e => addr_wf (fst e) /\ Is4In6 (fst e) = false) es
  | Err e => e = errShortSockaddrEntry \/ e = errUnknownSockaddrFamily
  | Panic => False
  end.
Proof.
  revert at_. induction n as [| n IH]; intros at_; simpl.
  { exists []. auto. }
  pose proof (sockaddrEntrySize_outcome b at_) as Ho.
  destruct (sockaddrEntrySize b at_) as [size | e |] eqn:Hs; next; [| done | done].
  destruct (decode_validated b at_ size Hs) as (ip & port & Hd & _ & Hwf & H4 & ? & ? & ?).
  specialize (IH (at_ + size)). destruct (check_entries b n (at_ + size)); [| done | done].
  destruct IH as (es & Hes & Hn & Hall).
  rewrite slice_ok by lia. next. replace (at_ + size - at_) with size by lia.
  rewrite Hd. next. rewrite Hes. next. eexists. split; [done |]. simpl.
  split; [congruence |]. by constructor.
Qed.

(** ** Theorems *)

Lemma decodeAddrs_outcome b n :
  match decodeAddrs b n with
  | Ret (ips, _) => len ips = n /\ n * sizeSockaddrIn <= len b /\
      Forall (fun ip => addr_wf ip /\ Is4In6 ip = false) ips
  | Err e => errors_Is e (Errno EINVAL) = true
  | Panic => False
  end.
Proof.
  unfold decodeAddrs. pose proof (len_nonneg b).
  destruct (Z.ltb_spec n 0); [done |].
  destruct (Z.eqb_spec n 0) as [-> |]; [split; [done | split; [lia | constructor]] |].
  destruct (Z.ltb_spec (len b / sizeSockaddrIn) n); [done |].
  pose proof (check_decode b (Z.to_nat n) 0) as Hc.
  destruct (check_entries b (Z.to_nat n) 0); next; [| destruct Hc as [-> | ->]; done | done].
  destruct Hc as (es & -> & Hn & Hall). next. split; [| split].
  - unfold len. rewrite length_map. lia.
  - abi. pose proof (Z.mul_div_le (len b) 16). lia.
  - apply Forall_map. done.
Qed.

(** decodeAddrs is total on any bytes and any count: it never panics,
    it either returns exactly the n addresses asked for, all well formed
    and in plain form (never IPv4-mapped), or fails with an error that
    matches EINVAL; a count the buffer cannot hold is always refused. *)
Theorem decodeAddrs_total b n :
  match decodeAddrs b n with
  | Ret (ips, _) => len ips = n /\ n * sizeSockaddrIn <= len b /\
      Forall (fun ip => addr_wf ip /\ Is4In6 ip = false) ips
  | Err e => errors_Is e (Errno EINVAL) = true
  | Panic => False
  end.
Proof. apply decodeAddrs_outcome. Qed.

Lemma decode_encodeAddrs family ips port buf rest
    (Hwf : Forall addr_wf ips) (Hp : is_u16 port)
    (Henc : encodeAddrs family ips port = Ret buf) :
  decodeAddrs (buf ++ rest) (len ips) =
  Ret (map (decoded family) ips, if bool_decide (ips = []) then 0 else port).
Proof.
  unfold encodeAddrs in Henc.
  assert (Hfam : (family = afInet \/ family = afInet6) /\
                 sockaddrSize family = Ret (sockaddr_len family)).
  { unfold sockaddrSize, sockaddr_len in *.
    destruct (Z.eqb_spec family afInet); [auto |].
    destruct (Z.eqb_spec family afInet6); [auto | done]. }
  destruct Hfam as [Hfam Hsz]. rewrite Hsz in Henc. cbn [mbind out_bind] in Henc.
  pose proof (encodeAddrs_loop_outcome [] family ips port Hwf Hfam 0 eq_refl (Z.le_refl 0)) as Ho.
  simpl app in Ho. rewrite Henc in Ho. destruct Ho as [-> Hacc].
  assert (Hall : Forall (fun ip => addr_wf ip /\ accepts family ip = true) ips).
  { apply Forall_and. auto. }
  assert (Hlen : len (concat (map (fun ip => sockaddr_bytes family ip port) ips)) =
                 len ips * sockaddr_len family).
  { clear -Hall. induction Hall as [| ip ips [H1 H2] _ IH]; [done |]. simpl.
    rewrite len_app, IH, len_sockaddr_bytes, len_cons by done. lia. }
  unfold decodeAddrs. pose proof (len_nonneg ips). pose proof (len_nonneg rest).
  rewrite (proj2 (Z.ltb_ge _ 0)) by lia.
  destruct ips as [| ip ips]; [done |]. rewrite (proj2 (Z.eqb_neq _ 0)) by (rewrite len_cons; solve_len).
  rewrite (proj2 (Z.ltb_ge _ _)).
  2: { apply Z.div_le_lower_bound; [done |]. rewrite len_app, Hlen.
       assert (sizeSockaddrIn <= sockaddr_len family) by (destruct Hfam as [-> | ->]; done). nia. }
  replace (Z.to_nat (len (ip :: ips))) with (length (ip :: ips)) by (unfold len; lia).
  pose proof (check_entries_encoded [] rest family _ port Hall) as Hck.
  pose proof (decode_entries_encoded [] rest family _ port Hall Hp) as Hdec.
  cbn [app] in Hck, Hdec. change (len []) with 0 in Hck, Hdec.
  rewrite Hck. next. rewrite Hdec. next. by rewrite map_map.
Qed.

(** C36 Round trip: addresses encodeAddrs accepts decode, from any buffer
    that starts with its output, to the same addresses in plain form, with
    the port: mapped IPv4 comes back as IPv4, the IPv4 wildcard of an
    AF_INET6 socket as ::, and a link-local address with the zone its scope
    id names. *)
Theorem sockaddr_roundtrip family ips port buf rest
    (Hwf : Forall addr_wf ips) (Hp : is_u16 port)
    (Henc : encodeAddrs family ips port = Ret buf) :
  decodeAddrs (buf ++ rest) (len ips) =
  Ret (map (decoded family) ips, if bool_decide (ips = []) then 0 else port).
Proof. by apply decode_encodeAddrs. Qed.

(** encodeAddr writes one sockaddr at the start of its buffer and
    changes nothing else, whatever the buffer held; it refuses, with an
    error matching EINVAL and before writing anything, exactly the
    addresses the family cannot carry, the zones that do not resolve and
    the buffers that are too short. *)
Theorem encodeAddr_spec dst family ip port (Hwf : addr_wf ip) :
  match encodeAddr dst family ip port with
  | Ret (dst', n) =>
      accepts family ip = true /\ n = sockaddr_len family /\
      dst' = sockaddr_bytes family ip port ++ drop (Z.to_nat n) dst /\ len dst' = len dst
  | Err e =>
      errors_Is e (Errno EINVAL) = true /\
      (accepts family ip = false \/ len dst < sockaddr_len family \/ exists e', scope_of ip = Err e')
  | Panic => False
  end.
Proof.
  pose proof (encodeAddr_outcome dst family ip port Hwf) as Ho.
  destruct (encodeAddr dst family ip port) as [[dst' n] | e |]; [| | done].
  - destruct Ho as (Hacc & _ & -> & Hn & ->). repeat split; auto.
    rewrite len_app, len_sockaddr_bytes by done.
    assert (0 <= sockaddr_len family)
      by (destruct (accepts_family _ _ Hacc) as [-> | ->]; done).
    rewrite len_drop; lia.
  - destruct Ho as [[m ->] Ho]. done.
Qed.
End Decode.

(** ** The zone cache *)
Lemma table_of_snoc ift e : table_of (ift ++ [e]) = <[fst e := snd e]> (table_of ift).
Proof. unfold table_of. by rewrite foldl_app. Qed.

Lemma table_of_elem ift name i : table_of ift !! name = Some i -> (name, i) ∈ ift.
Proof.
  revert name i. induction ift as [| [n j] ift IH] using rev_ind; intros name i.
  { unfold table_of. simpl. by rewrite lookup_empty. }
  rewrite table_of_snoc. simpl. rewrite lookup_insert_Some, elem_of_app.
  intros [[-> ->] | [_ H]]; [right; by left | left; auto].
Qed.

(** A lookup the cache answers without reading the interface table is
    answered from a table read less than a TTL ago, or is a decimal number
    that is no interface's name; any other lookup is answered from a table
    read since the lookup started, unless the host's table cannot be read,
    in which case the cache is left as it was.  The table holds the host's
    interfaces and nothing else. *)
Theorem zoneCache_index_spec z1 z2 now name reply now' z r :
  index z1 z2 now name reply now' = (z, r) ->
  match index_look z1 now name with
  | Some _ =>
      z = z2 /\ r = byName z1 !! name /\
      ((exists t, fetched z1 = Some t /\ now - t < zoneCacheTTL) \/
       (r = None /\ isDecimal name = true))
  | None =>
      r = byName z !! name /\
      ((z = z2 /\ (reply = None \/ exists t, fetched z2 = Some t /\ now < t)) \/
       (exists ift, reply = Some ift /\ byName z = table_of ift /\ fetched z = Some now' /\
        forall n i, byName z !! n = Some i -> (n, i) ∈ ift))
  end.
Proof.
  unfold index. destruct (index_look z1 now name) as [a |] eqn:Hl.
  - intros [= <- <-]. unfold index_look in Hl.
    destruct (_ || _) eqn:Hc; [| done]. injection Hl as <-. split; [done | split; [done |]].
    apply orb_true_iff in Hc as [[Hf _]%andb_prop | [[_ Hm]%andb_prop Hd]%andb_prop].
    + destruct (fetched z1) as [t |]; [| done]. apply Z.ltb_lt in Hf. eauto.
    + right. split; [| done]. apply negb_true_iff, bool_decide_eq_false_1 in Hm.
      by apply eq_None_not_Some.
  - unfold refresh. destruct (fetched z2) as [t |] eqn:Hf.
    + destruct (Z.ltb_spec now t); [intros [= <- <-]; eauto 10 |].
      destruct reply as [ift |]; intros [= <- <-]; split; eauto 10 using table_of_elem.
    + destruct reply as [ift |]; intros [= <- <-]; split; eauto 10 using table_of_elem.
Qed.

(** ** Witnesses *)

(** A host with one interface, eth0, of index 2. *)
Definition host_zones : ZoneEnv := {|
  zone_index := fun name => if bool_decide (name = "eth0") then Some 2 else None;
  iface_name := fun i => if i =? 2 then Some "eth0" else None;
|}.

(** fe80::1%eth0, ::ffff:127.0.0.1 and 0.0.0.0. *)
Definition sample_addrs : list Addr :=
  [ Addr6 (Byte.xfe :: Byte.x80 :: zeros 13 ++ [Byte.x01]) "eth0";
    Addr6 (mapped_prefix ++ [Byte.x7f; Byte.x00; Byte.x00; Byte.x01]) "";
    IPv4Unspecified ].

Lemma sockaddr_roundtrip_witness :
  exists buf, @encodeAddrs s390x host_zones afInet6 sample_addrs 4000 = Ret buf /\
  @decodeAddrs s390x host_zones (buf ++ [Byte.xff]) 3 =
  Ret ([ Addr6 (Byte.xfe :: Byte.x80 :: zeros 13 ++ [Byte.x01]) "eth0";
         Addr4 [Byte.x7f; Byte.x00; Byte.x00; Byte.x01]; IPv6Unspecified ], 4000).
Proof.
  eexists. split; [vm_compute; reflexivity |].
  refine (@sockaddr_roundtrip s390x host_zones afInet6 sample_addrs 4000 _ [Byte.xff] _ _ _).
  - repeat constructor.
  - unfold is_u16. lia.
  - vm_compute. reflexivity.
Defined.

Lemma encodeAddr_spec_witness :
  exists e, @encodeAddr amd64 host_zones (zeros 16) afInet6 IPv4Unspecified 1 = Err e /\
  errors_Is e (Errno EINVAL) = true.
Proof.
  pose proof (@encodeAddr_spec amd64 host_zones (zeros 16) afInet6 IPv4Unspecified 1 eq_refl) as H.
  vm_compute in H. eexists. split; [vm_compute; reflexivity | exact (proj1 H)].
Defined.

Lemma zoneCache_index_witness :
  snd (index {| byName := ∅; fetched := None |} {| byName := ∅; fetched := None |} 5 "eth0"
         (Some [("eth0", 2)]) 10) = Some 2.
Proof.
  etransitivity.
  - exact (proj1 (zoneCache_index_spec {| byName := ∅; fetched := None |}
      {| byName := ∅; fetched := None |} 5 "eth0" (Some [("eth0", 2)]) 10 _ _ eq_refl)).
  - vm_compute. reflexivity.
Defined.
