(* ===== verification/Options.v ===== *)
(** * Socket option values (src/options.go, src/config.go's durations)

    The value types of the typed socket options, the checks their arguments
    get before any system call, and the codecs that lay each value out in
    the kernel's struct and read it back.

    A pointer field that may be nil is an option; a time.Duration is its
    count of nanoseconds; a buffer argument is the slice the code cuts to
    the struct's size, and the result is that slice as written.  An encoder
    that fails half-way has written part of its buffer, which its callers
    throw away: the model returns the error alone.  In the text of an error
    the field name is spelled out, the other arguments are not. *)
From Stdlib Require Import ZArith Lia Bool.
From stdpp Require Import base list option strings.
From coqutil Require Import Byte.
From S2P Require Import Prelude Abi Errors Enums Netip Sockaddr.

(** ** Durations *)
Definition Millisecond : Z := 1000000.
Definition Second : Z := 1000000000.

Definition durationToMillis (field : string) (d limit : Z) : out error Z :=
  if MaxUint32 <? limit then Panic else
  if d <? 0 then Err (invalidArg (field +:+ " %s is negative")) else
  if negb (Z.rem d Millisecond =? 0)
  then Err (invalidArg (field +:+ " %s is not a whole number of milliseconds")) else
  let ms := Z.quot d Millisecond in
  if limit <? ms
  then Err (invalidArg (field +:+ " %s exceeds the kernel field's %d ms maximum")) else
  Ret (u32 ms).

Definition durationToSeconds (field : string) (d limit : Z) : out error Z :=
  if MaxUint32 <? limit then Panic else
  if d <? 0 then Err (invalidArg (field +:+ " %s is negative")) else
  if negb (Z.rem d Second =? 0)
  then Err (invalidArg (field +:+ " %s is not a whole number of seconds")) else
  let s := Z.quot d Second in
  if limit <? s
  then Err (invalidArg (field +:+ " %s exceeds the kernel field's %d s maximum")) else
  Ret (u32 s).

Definition millisToDuration (ms : Z) : Z := ms * Millisecond.

(** ** Value types *)
Record InitMsg := {
  im_OutStreams : Z; im_MaxInStreams : Z; im_MaxAttempts : Z; im_MaxInitTimeout : Z }.

Record RTOInfo := { rto_Initial : Z; rto_Max : Z; rto_Min : Z }.

Record AssocInfo := {
  ai_MaxRetrans : Z; ai_CookieLife : Z; ai_PeerDestinations : Z;
  ai_PeerRwnd : Z; ai_LocalRwnd : Z }.

Record DelayedSACK := { ds_Delay : Z; ds_Frequency : Z }.

Record PathParams := {
  pp_Heartbeat : option bool;
  pp_HeartbeatInterval : option Z;
  pp_PathMaxRetrans : option Z;
  pp_PMTUD : option bool;
  pp_PathMTU : option Z;
  pp_DelayedSACK : option bool;
  pp_SACKDelay : option Z;
  pp_IPv6FlowLabel : option Z;
  pp_DSCP : option Z;
}.

Record PathThresholds := {
  pt_PathMaxRetrans : option Z; pt_PFThreshold : option Z; pt_PrimarySwitchover : option Z }.

(** A zero netip.AddrPort, what an address that does not decode becomes. *)
Definition zeroAddrPort : AddrPort := AddrPortFrom AddrZero 0.

Record PathInfo := {
  pi_Addr : AddrPort; pi_State : Z; pi_Cwnd : Z; pi_SRTTTicks : Z; pi_RTO : Z; pi_MTU : Z }.

Record Status := {
  st_State : Z; st_PeerRwnd : Z; st_Unacked : Z; st_Pending : Z;
  st_InStreams : Z; st_OutStreams : Z; st_FragmentationPoint : Z; st_Primary : PathInfo }.

Record AssocStats := {
  as_MaxRTOTicks : Z; as_MaxRTOAddr : AddrPort;
  as_SACKsIn : Z; as_SACKsOut : Z; as_PacketsIn : Z; as_PacketsOut : Z;
  as_RetransChunks : Z; as_OutOfSeqTSNs : Z; as_DupChunksIn : Z; as_GapAcksIn : Z;
  as_UnorderedChunksIn : Z; as_UnorderedChunksOut : Z;
  as_OrderedChunksIn : Z; as_OrderedChunksOut : Z;
  as_ControlChunksIn : Z; as_ControlChunksOut : Z }.

Record PRStatus := { prs_AbandonedUnsent : Z; prs_AbandonedSent : Z }.

(** PrInfo, of msginfo.go. *)
Record PrInfo := { pr_Policy : Z; pr_TTL : Z; pr_Value : Z }.

(** ** PR-SCTP policies *)
Definition validatePrInfo (field : string) (pr : PrInfo) : option error :=
  if negb (andnot (pr_Policy pr) prPolicyMask =? 0) then
    if pr_Policy pr =? PRAll
    then Some (invalidArg (field +:+ ".Policy is PRAll, which RFC 7496 §§4.3-4.4 define only for a status query, not a per-message send"))
    else Some (invalidArg (field +:+ ".Policy %#04x is not a known PR-SCTP policy"))
  else if pr_Policy pr =? PRTTL then
    if negb (pr_Value pr =? 0)
    then Some (invalidArg (field +:+ ".Value belongs to PRRtx or PRPrio, not PRTTL; use TTL")) else
    if pr_TTL pr =? 0
    then Some (invalidArg (field +:+ ".TTL is zero: Linux abandons every message at once; use PRNone for no expiry")) else
    if pr_TTL pr <? 0 then Some (invalidArg (field +:+ ".TTL %s is negative")) else
    if negb (Z.rem (pr_TTL pr) Millisecond =? 0)
    then Some (invalidArg (field +:+ ".TTL %s is not a whole number of milliseconds")) else
    if MaxUint32 <? Z.quot (pr_TTL pr) Millisecond
    then Some (invalidArg (field +:+ ".TTL %s exceeds the uint32 millisecond range struct sctp_prinfo's pr_value carries"))
    else None
  else
    if negb (pr_TTL pr =? 0) then Some (invalidArg (field +:+ ".TTL belongs only to PRTTL")) else
    if (pr_Policy pr =? PRNone) && negb (pr_Value pr =? 0)
    then Some (invalidArg (field +:+ ".Value must be zero for PRNone")) else None.

Definition resolvePrInfo (pr : PrInfo) : Z * Z :=
  if pr_Policy pr =? PRNone then (u16 (pr_Policy pr), 0)
  else if pr_Policy pr =? PRTTL then (u16 (pr_Policy pr), u32 (Z.quot (pr_TTL pr) Millisecond))
  else (u16 (pr_Policy pr), pr_Value pr).

(** resolvePrInfo's inverse (send_linux.go). *)
Definition prInfoFromKernel (policy value : Z) : PrInfo :=
  let p := Z.land policy prPolicyMask in
  if p =? PRNone then {| pr_Policy := 0; pr_TTL := 0; pr_Value := 0 |}
  else if p =? PRTTL then {| pr_Policy := p; pr_TTL := value * Millisecond; pr_Value := 0 |}
  else {| pr_Policy := p; pr_TTL := 0; pr_Value := value |}.

(** ** Plain arguments *)
Definition uint32Arg (name : string) (v : Z) : out error Z :=
  if v <? 0 then Err (invalidArg (name +:+ ": %d is negative")) else
  if MaxUint32 <? v
  then Err (invalidArg (name +:+ ": %d exceeds the uint32 range the kernel field holds")) else
  Ret (u32 v).

Definition bufferSizeArg (name : string) (v : Z) : out error Z :=
  if v <=? 0 then Err (invalidArg (name +:+ ": the size must be positive, got %d")) else
  if MaxInt32 <? v
  then Err (invalidArg (name +:+ ": %d exceeds the int32 range SO_RCVBUF and SO_SNDBUF take")) else
  Ret v.

(** ** The word-size-dependent structs *)
Record sockaddrStorageLayout := {
  l_addrOff : Z;
  l_udpEncapsPortOff : Z; l_sizeUDPEncaps : Z;
  l_probeIntervalOff : Z; l_sizeProbeInterval : Z;
  l_thresholdsMaxRetransOff : Z; l_thresholdsPFOff : Z; l_thresholdsSwitchoverOff : Z;
  l_sizePathThresholds : Z;
  l_statsCountersOff : Z; l_sizeAssocStats : Z;
}.

Inductive storageLayoutChoice := storageLayoutUnknown | storageLayoutNative | storageLayoutKernel64.

Record thresholdValues := { tv_maxRetrans : Z; tv_pf : Z; tv_switchover : Z }.

Definition mergePathThresholds (cur : thresholdValues) (t : PathThresholds) (field : string)
    : out error thresholdValues :=
  cur ← match pt_PathMaxRetrans t with
        | Some v =>
            if v =? 0
            then Err (invalidArg (field +:+ ".PathMaxRetrans is 0, which Linux reads as leaving the value unchanged"))
            else Ret {| tv_maxRetrans := v; tv_pf := tv_pf cur; tv_switchover := tv_switchover cur |}
        | None => Ret cur
        end;
  let cur := match pt_PFThreshold t with
             | Some v => {| tv_maxRetrans := tv_maxRetrans cur; tv_pf := v;
                            tv_switchover := tv_switchover cur |}
             | None => cur
             end in
  let cur := match pt_PrimarySwitchover t with
             | Some v => {| tv_maxRetrans := tv_maxRetrans cur; tv_pf := tv_pf cur;
                            tv_switchover := v |}
             | None => cur
             end in
  Ret cur.

(** ** Scope candidates *)
Record scopeCandidates := { sc_first : Z; sc_n : Z }.

Definition sc_empty : scopeCandidates := {| sc_first := 0; sc_n := 0 |}.

Definition sc_add (c : scopeCandidates) (s : Z) : scopeCandidates :=
  if s =? 0 then c
  else if sc_n c =? 0 then {| sc_first := s; sc_n := 1 |}
  else if negb (s =? sc_first c) then {| sc_first := sc_first c; sc_n := 2 |}
  else c.

Definition sc_only (c : scopeCandidates) : Z := if sc_n c =? 1 then sc_first c else 0.

Definition isLinkLocal6 (ip : Addr) : bool :=
  Is6 ip && negb (Is4In6 ip) && IsLinkLocalUnicast ip.

(** ** Reset directions *)
Definition validateStatusPolicy (name : string) (p : Z) : option error :=
  if (p =? PRTTL) || (p =? PRRtx) || (p =? PRPrio) || (p =? PRAll) then None
  else Some (invalidArg (name +:+ ": policy %v is not PRTTL, PRRtx, PRPrio or PRAll")).

Definition onOff (on : bool) (enable disable : Z) : Z := if on then enable else disable.

Section Codecs.
Context `{A : Arch} `{ZE : ZoneEnv}.

Definition nativeStorageLayout : sockaddrStorageLayout := {|
  l_addrOff := ssAddrOffset;
  l_udpEncapsPortOff := udpEncapsPortOff;
  l_sizeUDPEncaps := sizeUDPEncaps;
  l_probeIntervalOff := probeIntervalIntervalOff;
  l_sizeProbeInterval := sizeProbeInterval;
  l_thresholdsMaxRetransOff := pathThresholdsMaxRxtOff;
  l_thresholdsPFOff := pathThresholdsPFThresholdOff;
  l_thresholdsSwitchoverOff := pathThresholdsSwitchoverOff;
  l_sizePathThresholds := sizePathThresholds;
  l_statsCountersOff := sizeAssocStatsHeader;
  l_sizeAssocStats := sizeAssocStats;
|}.

Definition kernel64StorageLayout : sockaddrStorageLayout := {|
  l_addrOff := ssAddrOffsetKernel64;
  l_udpEncapsPortOff := udpEncapsPortOffKernel64;
  l_sizeUDPEncaps := sizeUDPEncapsKernel64;
  l_probeIntervalOff := probeIntervalIntervalOffKernel64;
  l_sizeProbeInterval := sizeProbeIntervalKernel64;
  l_thresholdsMaxRetransOff := pathThresholdsMaxRxtOffKernel64;
  l_thresholdsPFOff := pathThresholdsPFThresholdOffKernel64;
  l_thresholdsSwitchoverOff := pathThresholdsSwitchoverOffKernel64;
  l_sizePathThresholds := sizePathThresholdsKernel64;
  l_statsCountersOff := sizeAssocStatsHeaderKernel64;
  l_sizeAssocStats := sizeAssocStatsKernel64;
|}.

(** selectStorageLayout, with the probe's outcome as an argument; the new
    cache value comes first. *)
Definition selectStorageLayout (cache : storageLayoutChoice) (probe : option error)
    : storageLayoutChoice * out error sockaddrStorageLayout :=
  match cache with
  | storageLayoutNative => (cache, Ret nativeStorageLayout)
  | storageLayoutKernel64 => (cache, Ret kernel64StorageLayout)
  | storageLayoutUnknown =>
      match probe with
      | None => (storageLayoutNative, Ret nativeStorageLayout)
      | Some e =>
          if errors_Is e (Errno EINVAL) then (storageLayoutKernel64, Ret kernel64StorageLayout)
          else (cache, Err e)
      end
  end.

(** [copy(b[off:off+n], v)] copies at most n bytes. *)
Definition copy_field (b : bytes) (off n : Z) (v : bytes) : out error bytes :=
  _ ← slice b off (off + n); copy_at b off (take (Z.to_nat n) v).

Definition storageHeader (l : sockaddrStorageLayout) (b : bytes) (assoc : Z) (addr : bytes)
    : out error bytes :=
  b ← clear_at b 0 (len b);
  b ← put_at NativeEndian 4 b 0 (u32 assoc);
  copy_field b (l_addrOff l) sizeSockaddrStorage addr.

Definition udpEncaps (l : sockaddrStorageLayout) (buf : bytes) (assoc : Z) (addr : bytes) (port : Z)
    : out error bytes :=
  b ← slice buf 0 (l_sizeUDPEncaps l);
  b ← storageHeader l b assoc addr;
  put_at BigEndian 2 b (l_udpEncapsPortOff l) port.

Definition udpEncapsPort (l : sockaddrStorageLayout) (b : bytes) : out error Z :=
  get_at BigEndian 2 b (l_udpEncapsPortOff l).

Definition probeInterval (l : sockaddrStorageLayout) (buf : bytes) (assoc : Z) (addr : bytes) (ms : Z)
    : out error bytes :=
  b ← slice buf 0 (l_sizeProbeInterval l);
  b ← storageHeader l b assoc addr;
  put_at NativeEndian 4 b (l_probeIntervalOff l) ms.

Definition probeIntervalMS (l : sockaddrStorageLayout) (b : bytes) : out error Z :=
  get_at NativeEndian 4 b (l_probeIntervalOff l).

Definition pathThresholds (l : sockaddrStorageLayout) (buf : bytes) (assoc : Z) (addr : bytes)
    (v : thresholdValues) : out error bytes :=
  b ← slice buf 0 (l_sizePathThresholds l);
  b ← storageHeader l b assoc addr;
  b ← put_at NativeEndian 2 b (l_thresholdsMaxRetransOff l) (tv_maxRetrans v);
  b ← put_at NativeEndian 2 b (l_thresholdsPFOff l) (tv_pf v);
  put_at NativeEndian 2 b (l_thresholdsSwitchoverOff l) (tv_switchover v).

Definition read_thresholdValues (l : sockaddrStorageLayout) (b : bytes) : out error thresholdValues :=
  m ← get_at NativeEndian 2 b (l_thresholdsMaxRetransOff l);
  p ← get_at NativeEndian 2 b (l_thresholdsPFOff l);
  s ← get_at NativeEndian 2 b (l_thresholdsSwitchoverOff l);
  Ret {| tv_maxRetrans := m; tv_pf := p; tv_switchover := s |}.

Definition assocStatsRequest (l : sockaddrStorageLayout) (buf : bytes) (assoc : Z) : out error bytes :=
  b ← slice buf 0 (l_sizeAssocStats l);
  storageHeader l b assoc [].

(** decodeAddr with its error dropped: [if a, err := ...; err == nil]. *)
Definition addr_or_zero (b : bytes) : out error AddrPort :=
  match decodeAddr b with Err _ => Ret zeroAddrPort | r => r end.

Definition assocStats (l : sockaddrStorageLayout) (b : bytes) : out error AssocStats :=
  let c i := get_at NativeEndian 8 b (l_statsCountersOff l + 8 * i) in
  field ← slice b (l_addrOff l) (l_addrOff l + sizeSockaddrStorage);
  addr ← addr_or_zero field;
  maxrto ← c assocStatsMaxRTO; isacks ← c assocStatsISACKs; osacks ← c assocStatsOSACKs;
  ipackets ← c assocStatsIPackets; opackets ← c assocStatsOPackets;
  rtx ← c assocStatsRtxChunks; oos ← c assocStatsOutOfSeqTSNs; dup ← c assocStatsIDupChunks;
  gap ← c assocStatsGapCount; iuod ← c assocStatsIUODChunks; ouod ← c assocStatsOUODChunks;
  iod ← c assocStatsIODChunks; ood ← c assocStatsOODChunks;
  ictrl ← c assocStatsICtrlChunks; octrl ← c assocStatsOCtrlChunks;
  Ret {| as_MaxRTOTicks := maxrto; as_MaxRTOAddr := addr;
         as_SACKsIn := isacks; as_SACKsOut := osacks;
         as_PacketsIn := ipackets; as_PacketsOut := opackets;
         as_RetransChunks := rtx; as_OutOfSeqTSNs := oos;
         as_DupChunksIn := dup; as_GapAcksIn := gap;
         as_UnorderedChunksIn := iuod; as_UnorderedChunksOut := ouod;
         as_OrderedChunksIn := iod; as_OrderedChunksOut := ood;
         as_ControlChunksIn := ictrl; as_ControlChunksOut := octrl |}.

(** ** Path addresses *)
Definition encodePathAddr (dst : bytes) (family : Z) (path : Addr) (port scope : Z)
    : out error (bytes * Z) :=
  if negb (IsValid path) then Ret (dst, 0) else
  '(dst, n) ← encodeAddr dst family path port;
  if negb (scope =? 0) && (n =? sizeSockaddrIn6) && bool_decide (Zone path = "") && isLinkLocal6 path
  then dst ← put_at NativeEndian 4 dst sockaddrIn6ScopeIDOff scope; Ret (dst, n)
  else Ret (dst, n).

Definition sc_addZone (c : scopeCandidates) (zone : string) : scopeCandidates :=
  match encodeZone zone with Ret s => sc_add c s | _ => c end.

Definition add_zoned (c : scopeCandidates) (ips : list Addr) : scopeCandidates :=
  foldl (fun c ip => if isLinkLocal6 ip && negb (bool_decide (Zone ip = ""))
                     then sc_addZone c (Zone ip) else c) c ips.

Definition linkLocalPathScope (local peer : list Addr) (owners : Addr -> list Z) : Z :=
  let c := add_zoned sc_empty local in
  let c := if sc_n c =? 0 then add_zoned c peer else c in
  let c := if sc_n c =? 0
           then foldl (fun c ip => if isLinkLocal6 ip && bool_decide (Zone ip = "")
                                   then foldl sc_add c (owners ip) else c) c local
           else c in
  sc_only c.
End Codecs.

(** ** Durations *)
Lemma durationToMillis_outcome field d limit :
  0 <= limit <= MaxUint32 ->
  match durationToMillis field d limit with
  | Ret ms => 0 <= ms <= limit /\ d = ms * Millisecond
  | Err e => (exists m, e = InvalidArg m) /\ ~ (exists ms, 0 <= ms <= limit /\ d = ms * Millisecond)
  | Panic => False
  end.
Proof.
  intros Hl. unfold durationToMillis, invalidArg, MaxUint32, Millisecond, u32 in *.
  rewrite (proj2 (Z.ltb_ge _ _)) by lia.
  destruct (Z.ltb_spec d 0); [split; [eauto | intros (ms & ? & ->); lia] |].
  rewrite Z.rem_mod_nonneg, Z.quot_div_nonneg by lia.
  destruct (Z.eqb_spec (d mod 1000000) 0) as [Hm | Hm]; simpl.
  - pose proof (Z.div_mod d 1000000). destruct (Z.ltb_spec limit (d / 1000000)).
    + split; [eauto |]. intros (ms & ? & ->). rewrite Z.div_mul in * by lia. lia.
    + pose proof (Z.div_pos d 1000000). rewrite Z.mod_small by lia. lia.
  - split; [eauto |]. intros (ms & ? & ->). rewrite Z.mod_mul in Hm by lia. lia.
Qed.

Lemma durationToMillis_Ret field d limit ms :
  0 <= limit <= MaxUint32 -> durationToMillis field d limit = Ret ms ->
  0 <= ms <= limit /\ millisToDuration ms = d.
Proof.
  intros Hl H. pose proof (durationToMillis_outcome field d limit Hl) as Ho.
  rewrite H in Ho. unfold millisToDuration. intuition.
Qed.

(** ** Scope candidates *)

(** The distinct non-zero scope ids of a list, and the one there is. *)
Definition scopes (l : list Z) : list Z := List.filter (fun s => negb (s =? 0)) l.

Definition the_scope (l : list Z) : Z :=
  match scopes l with
  | [] => 0
  | s :: r => if forallb (Z.eqb s) r then s else 0
  end.

(** What a candidate counter knows of the ids added to it. *)
Definition sc_knows (c : scopeCandidates) (l : list Z) : Prop :=
  match scopes l with
  | [] => sc_n c = 0
  | s :: r => sc_first c = s /\ sc_n c = (if forallb (Z.eqb s) r then 1 else 2)
  end.

Lemma scopes_snoc l s : scopes (l ++ [s]) = scopes l ++ (if s =? 0 then [] else [s]).
Proof. unfold scopes. rewrite List.filter_app. simpl. by destruct (s =? 0). Qed.

Lemma sc_knows_add c l s : sc_knows c l -> sc_knows (sc_add c s) (l ++ [s]).
Proof.
  unfold sc_knows, sc_add. rewrite scopes_snoc. destruct (Z.eqb_spec s 0) as [-> | Hs].
  { by rewrite app_nil_r. }
  destruct (scopes l) as [| x r]; simpl.
  - intros ->. done.
  - intros [Hf Hn]. rewrite forallb_app. simpl.
    destruct (forallb (Z.eqb x) r) eqn:E; rewrite Hn; simpl;
      destruct (Z.eqb_spec s (sc_first c)), (Z.eqb_spec x s); simpl; subst; auto; lia.
Qed.

Lemma sc_knows_foldl l c k : sc_knows c k -> sc_knows (foldl sc_add c l) (k ++ l).
Proof.
  revert c k. induction l as [| s l IH]; intros c k H; simpl; [by rewrite app_nil_r |].
  replace (k ++ s :: l) with ((k ++ [s]) ++ l) by (by rewrite <- app_assoc).
  by apply IH, sc_knows_add.
Qed.

Lemma sc_only_knows c l : sc_knows c l -> sc_only c = the_scope l.
Proof.
  unfold sc_knows, sc_only, the_scope. destruct (scopes l) as [| s r].
  - by intros ->.
  - intros [-> ->]. by destruct (forallb _ _).
Qed.

Lemma sc_n_knows c l : sc_knows c l -> (sc_n c =? 0) = bool_decide (scopes l = []).
Proof.
  unfold sc_knows. destruct (scopes l) as [| s r]; [by intros -> |].
  intros [_ ->]. by destruct (forallb _ _).
Qed.

Section Scopes.
Context `{A : Arch} `{ZE : ZoneEnv}.

(** The three sources, in the order they are tried: the scope ids the
    zoned link-local addresses of a list name, and those of the interfaces
    that hold the zoneless ones. *)
Definition zone_scopes (ips : list Addr) : list Z :=
  List.flat_map (fun ip => if isLinkLocal6 ip && negb (bool_decide (Zone ip = ""))
                      then match encodeZone (Zone ip) with Ret s => [s] | _ => [] end else []) ips.

Definition owner_scopes (owners : Addr -> list Z) (ips : list Addr) : list Z :=
  List.flat_map (fun ip => if isLinkLocal6 ip && bool_decide (Zone ip = "")
                      then owners ip else []) ips.

Lemma add_zoned_knows ips c k : sc_knows c k -> sc_knows (add_zoned c ips) (k ++ zone_scopes ips).
Proof.
  revert c k. induction ips as [| ip ips IH]; intros c k H; [simpl; by rewrite app_nil_r |].
  unfold add_zoned, sc_addZone in *. simpl. rewrite app_assoc. apply IH.
  destruct (isLinkLocal6 ip && _); [| by rewrite app_nil_r].
  destruct (encodeZone (Zone ip)); [by apply sc_knows_add | by rewrite app_nil_r ..].
Qed.

Lemma add_owned_knows owners ips c k :
  sc_knows c k ->
  sc_knows (foldl (fun c ip => if isLinkLocal6 ip && bool_decide (Zone ip = "")
                               then foldl sc_add c (owners ip) else c) c ips)
           (k ++ owner_scopes owners ips).
Proof.
  revert c k. induction ips as [| ip ips IH]; intros c k H; [simpl; by rewrite app_nil_r |].
  simpl. rewrite app_assoc. apply IH.
  destruct (isLinkLocal6 ip && _); [by apply sc_knows_foldl | by rewrite app_nil_r].
Qed.

(** The first source that yields a scope id. *)
Definition scope_source (local peer : list Addr) (owners : Addr -> list Z) : list Z :=
  if negb (bool_decide (scopes (zone_scopes local) = [])) then zone_scopes local
  else if negb (bool_decide (scopes (zone_scopes peer) = [])) then zone_scopes peer
  else owner_scopes owners local.

Lemma sc_knows_scopes c l k : scopes l = scopes k -> sc_knows c l -> sc_knows c k.
Proof. unfold sc_knows. by intros ->. Qed.

(** linkLocalPathScope fills in a zone only when it is certain: the
    first source that names any interface decides, and the scope id is
    given only if that source names exactly one. *)
Theorem linkLocalPathScope_spec local peer owners :
  linkLocalPathScope local peer owners = the_scope (scope_source local peer owners).
Proof.
  unfold linkLocalPathScope, scope_source.
  pose proof (add_zoned_knows local sc_empty [] eq_refl) as H1. simpl app in H1.
  rewrite (sc_n_knows _ _ H1).
  destruct (bool_decide (scopes (zone_scopes local) = [])) eqn:E1; simpl.
  2: { rewrite (sc_n_knows _ _ H1), E1. by apply sc_only_knows. }
  apply bool_decide_eq_true_1 in E1. apply (sc_knows_scopes _ _ []) in H1; [| done].
  pose proof (add_zoned_knows peer _ [] H1) as H2. simpl app in H2.
  rewrite (sc_n_knows _ _ H2).
  destruct (bool_decide (scopes (zone_scopes peer) = [])) eqn:E2; simpl; [| by apply sc_only_knows].
  apply bool_decide_eq_true_1 in E2. apply (sc_knows_scopes _ _ []) in H2; [| done].
  apply sc_only_knows, (add_owned_knows _ _ _ [] H2).
Qed.
End Scopes.

(** ** PR-SCTP policies *)
Lemma policy_values p :
  0 <= p < 2 ^ 16 -> andnot p prPolicyMask = 0 -> p = PRNone \/ p = PRTTL \/ p = PRRtx \/ p = PRPrio.
Proof.
  intros Hp H. unfold andnot in H. apply Z.ldiff_le in H as Hle; [| done].
  unfold prPolicyMask in *. assert (Hr : 0 <= p <= 48) by lia. clear Hp Hle.
  assert (Hall : forallb (fun n => negb (Z.ldiff n 0x30 =? 0) || (n =? 0) || (n =? 16) || (n =? 32) || (n =? 48))
                   (map Z.of_nat (seq 0 49)) = true) by reflexivity.
  rewrite forallb_forall in Hall. specialize (Hall p).
  assert (Hin : In p (map Z.of_nat (seq 0 49))).
  { rewrite <- (Z2Nat.id p) by lia. apply in_map, in_seq. lia. }
  specialize (Hall Hin). rewrite H in Hall. simpl in Hall.
  unfold PRNone, PRTTL, PRRtx, PRPrio.
  apply orb_true_iff in Hall as [[[H0 | H1]%orb_true_iff | H2]%orb_true_iff | H3];
    [apply Z.eqb_eq in H0 | apply Z.eqb_eq in H1 | apply Z.eqb_eq in H2 | apply Z.eqb_eq in H3]; auto.
Qed.

(** A PrInfo the package accepts survives the kernel's two-field
    encoding: reading it back gives the same policy, lifetime and value,
    and both fields fit their width. *)
Theorem prInfo_roundtrip field pr
    (Hpol : is_u16 (pr_Policy pr)) (Hval : is_u32 (pr_Value pr))
    (Hok : validatePrInfo field pr = None) :
  let '(policy, value) := resolvePrInfo pr in
  is_u16 policy /\ is_u32 value /\ prInfoFromKernel policy value = pr.
Proof.
  unfold validatePrInfo in Hok. destruct pr as [p ttl v]; simpl in *.
  destruct (Z.eqb_spec (andnot p prPolicyMask) 0) as [Hm | Hm]; simpl in Hok;
    [| by destruct (p =? PRAll)].
  destruct (policy_values p Hpol Hm) as [-> | [-> | [-> | ->]]]; simpl in Hok;
    unfold resolvePrInfo, prInfoFromKernel; simpl.
  - destruct (Z.eqb_spec ttl 0) as [-> |]; [| done]. destruct (Z.eqb_spec v 0) as [-> |]; [| done].
    done.
  - destruct (Z.eqb_spec v 0) as [-> |]; [| done]. destruct (Z.eqb_spec ttl 0); [done |]. simpl in Hok.
    destruct (Z.ltb_spec ttl 0); [done |].
    destruct (Z.eqb_spec (Z.rem ttl Millisecond) 0) as [Hr |]; [| done]. simpl in Hok.
    destruct (Z.ltb_spec MaxUint32 (Z.quot ttl Millisecond)) as [| Hq]; [done |].
    unfold Millisecond, MaxUint32, is_u32, u32 in *.
    rewrite Z.rem_mod_nonneg, Z.quot_div_nonneg in * by lia.
    pose proof (Z.div_mod ttl 1000000). pose proof (Z.div_pos ttl 1000000).
    rewrite Z.mod_small by lia. split; [done | split; [lia |]].
    change (Z.land (u16 PRTTL) prPolicyMask) with PRTTL. f_equal. lia.
  - destruct (Z.eqb_spec ttl 0) as [-> |]; [| done]. done.
  - destruct (Z.eqb_spec ttl 0) as [-> |]; [| done]. done.
Qed.

Lemma prInfo_roundtrip_witness :
  let pr := {| pr_Policy := PRTTL; pr_TTL := 1500 * Millisecond; pr_Value := 0 |} in
  let '(policy, value) := resolvePrInfo pr in
  is_u16 policy /\ is_u32 value /\ prInfoFromKernel policy value = pr.
Proof.
  apply (prInfo_roundtrip "SendOptions.PR"
           {| pr_Policy := PRTTL; pr_TTL := 1500 * Millisecond; pr_Value := 0 |}).
  - unfold is_u16. simpl. unfold PRTTL. lia.
  - unfold is_u32. simpl. lia.
  - reflexivity.
Defined.

(** durationToMillis accepts exactly the durations that are a whole
    number of milliseconds within the limit, and returns that number:
    millisToDuration gives the same duration back; every refusal matches
    EINVAL, and the function's panic is not reached by a limit that fits
    its 32-bit result. *)
Theorem durationToMillis_spec field d limit (Hl : 0 <= limit <= MaxUint32) :
  match durationToMillis field d limit with
  | Ret ms => 0 <= ms <= limit /\ millisToDuration ms = d
  | Err e => errors_Is e (Errno EINVAL) = true /\
             ~ (exists ms, 0 <= ms <= limit /\ d = millisToDuration ms)
  | Panic => False
  end.
Proof.
  pose proof (durationToMillis_outcome field d limit Hl) as Ho.
  destruct (durationToMillis field d limit); [| | done].
  - unfold millisToDuration. intuition.
  - destruct Ho as [[m ->] Ho]. done.
Qed.

Lemma durationToMillis_spec_witness :
  durationToMillis "RTO.Min" (1000 * Millisecond) MaxUint32 = Ret 1000 /\
  millisToDuration 1000 = 1000 * Millisecond.
Proof.
  assert (Hr : durationToMillis "RTO.Min" (1000 * Millisecond) MaxUint32 = Ret 1000) by reflexivity.
  assert (Hl : 0 <= MaxUint32 <= MaxUint32) by (unfold MaxUint32; lia).
  pose proof (durationToMillis_spec "RTO.Min" (1000 * Millisecond) MaxUint32 Hl) as H.
  rewrite Hr in H. exact (conj Hr (proj2 H)).
Defined.
