(* ===== verification/OptionCodecs.v ===== *)
(** * Socket option codecs (src/options.go)

    The structs of the path, association, authentication, stream
    reconfiguration and PR-SCTP options, each with its encoder and decoder.
    The theorems: what an encoder accepts reads back as it was given, an
    encoder accepts exactly the values Linux would apply, the list decoders
    never panic and refuse a reply whose count and length disagree. *)
From Stdlib Require Import ZArith Lia Bool.
From stdpp Require Import base list option strings.
From coqutil Require Import Byte.
From S2P Require Import Prelude Abi Errors Enums Netip Sockaddr Options.

Section Codecs.
Context `{A : Arch} `{ZE : ZoneEnv}.

(** ** PathParams

    encodePathParams, one definition per group of fields: a step takes the
    buffer and the flags word and returns both. *)
Definition pp_heartbeat_step (p : PathParams) (field : string) (b : bytes) (flags : Z)
    : out error (bytes * Z) :=
  let flags := match pp_Heartbeat p with
               | Some on => Z.lor flags (onOff on sppHBEnable sppHBDisable)
               | None => flags
               end in
  match pp_HeartbeatInterval p with
  | Some d =>
      if match pp_Heartbeat p with Some true => false | _ => true end
      then Err (invalidArg (field +:+ ".HeartbeatInterval needs %s.Heartbeat set to true in the same call: Linux applies the interval only when heartbeats are switched on (net/sctp/socket.c: sctp_apply_peer_addr_params)"))
      else
        ms ← durationToMillis (field +:+ ".HeartbeatInterval") d MaxUint32;
        let flags := if ms =? 0 then Z.lor flags sppHBTimeIsZero else flags in
        b ← put_at NativeEndian 4 b pathParamsHBIntervalOff ms;
        Ret (b, flags)
  | None => Ret (b, flags)
  end.

Definition pp_retrans_step (p : PathParams) (field : string) (b : bytes) (flags : Z)
    : out error (bytes * Z) :=
  match pp_PathMaxRetrans p with
  | Some v =>
      if v =? 0
      then Err (invalidArg (field +:+ ".PathMaxRetrans is 0, which Linux reads as leaving the value unchanged"))
      else b ← put_at NativeEndian 2 b pathParamsPathMaxRxtOff v; Ret (b, flags)
  | None => Ret (b, flags)
  end.

Definition pp_mtu_step (p : PathParams) (field : string) (b : bytes) (flags : Z)
    : out error (bytes * Z) :=
  let flags := match pp_PMTUD p with
               | Some on => Z.lor flags (onOff on sppPMTUDEnable sppPMTUDDisable)
               | None => flags
               end in
  match pp_PathMTU p with
  | Some v =>
      if match pp_PMTUD p with Some false => false | _ => true end
      then Err (invalidArg (field +:+ ".PathMTU needs %s.PMTUD set to false in the same call: Linux applies a fixed path MTU only when path MTU discovery is switched off (net/sctp/socket.c: sctp_apply_peer_addr_params)"))
      else if v <? minPathMTU
      then Err (invalidArg (field +:+ ".PathMTU %d is below the %d bytes Linux accepts (SCTP_DEFAULT_MINSEGMENT)"))
      else b ← put_at NativeEndian 4 b pathParamsPathMTUOff v; Ret (b, flags)
  | None => Ret (b, flags)
  end.

Definition pp_sack_step (p : PathParams) (field : string) (b : bytes) (flags : Z)
    : out error (bytes * Z) :=
  let flags := match pp_DelayedSACK p with
               | Some on => Z.lor flags (onOff on sppSACKDelayEnable sppSACKDelayDisable)
               | None => flags
               end in
  match pp_SACKDelay p with
  | Some d =>
      if match pp_DelayedSACK p with Some true => false | _ => true end
      then Err (invalidArg (field +:+ ".SACKDelay needs %s.DelayedSACK set to true in the same call: Linux applies the delay only when delayed SACK is switched on (net/sctp/socket.c: sctp_apply_peer_addr_params)"))
      else
        ms ← durationToMillis (field +:+ ".SACKDelay") d MaxUint32;
        if ms =? 0
        then Err (invalidArg (field +:+ ".SACKDelay is 0, which Linux reads as leaving the delay unchanged"))
        else if maxSACKDelayMS <? ms
        then Err (invalidArg (field +:+ ".SACKDelay %s exceeds RFC 9260 §6.2's 500 ms maximum"))
        else b ← put_at NativeEndian 4 b pathParamsSackDelayOff ms; Ret (b, flags)
  | None => Ret (b, flags)
  end.

Definition pp_label_step (p : PathParams) (field : string) (b : bytes) (flags : Z)
    : out error (bytes * Z) :=
  match pp_IPv6FlowLabel p with
  | Some v =>
      if negb (andnot v flowLabelMask =? 0)
      then Err (invalidArg (field +:+ ".IPv6FlowLabel %#x does not fit the 20 bits of an IPv6 flow label (RFC 6458 §8.1.12)"))
      else b ← put_at NativeEndian 4 b pathParamsFlowLabelOff v;
           Ret (b, Z.lor flags sppIPv6FlowLabel)
  | None => Ret (b, flags)
  end.

Definition pp_dscp_step (p : PathParams) (field : string) (b : bytes) (flags : Z)
    : out error (bytes * Z) :=
  match pp_DSCP p with
  | Some v =>
      if negb (andnot v dscpMask =? 0)
      then Err (invalidArg (field +:+ ".DSCP %#02x has its low two bits set; spp_dscp carries the DSCP in its 6 most significant bits (RFC 6458 §8.1.12), so code point n is n<<2"))
      else b ← put_at NativeEndian 1 b pathParamsDSCPOff v; Ret (b, Z.lor flags sppDSCP)
  | None => Ret (b, flags)
  end.

Definition encodePathParams (b : bytes) (assoc : Z) (addr : bytes) (p : PathParams) (field : string)
    : out error bytes :=
  b ← slice b 0 sizePathParams;
  b ← clear_at b 0 (len b);
  '(b, flags) ← pp_heartbeat_step p field b 0;
  '(b, flags) ← pp_retrans_step p field b flags;
  '(b, flags) ← pp_mtu_step p field b flags;
  '(b, flags) ← pp_sack_step p field b flags;
  '(b, flags) ← pp_label_step p field b flags;
  '(b, flags) ← pp_dscp_step p field b flags;
  b ← put_at NativeEndian 4 b pathParamsAssocIDOff (u32 assoc);
  b ← copy_field b pathParamsAddressOff sizeSockaddrStorage addr;
  put_at NativeEndian 4 b pathParamsFlagsOff flags.

Definition heartbeatDemand (b : bytes) (assoc : Z) (addr : bytes) : out error bytes :=
  b ← slice b 0 sizePathParams;
  b ← clear_at b 0 (len b);
  b ← put_at NativeEndian 4 b pathParamsAssocIDOff (u32 assoc);
  b ← copy_field b pathParamsAddressOff sizeSockaddrStorage addr;
  put_at NativeEndian 4 b pathParamsFlagsOff sppHBDemand.

Definition decodePathParams (b : bytes) : out error PathParams :=
  flags ← get_at NativeEndian 4 b pathParamsFlagsOff;
  let hb := has_bits flags sppHBEnable in
  let pmtud := has_bits flags sppPMTUDEnable in
  let sack := has_bits flags sppSACKDelayEnable in
  interval ← get_at NativeEndian 4 b pathParamsHBIntervalOff;
  retrans ← get_at NativeEndian 2 b pathParamsPathMaxRxtOff;
  mtu ← get_at NativeEndian 4 b pathParamsPathMTUOff;
  delay ← get_at NativeEndian 4 b pathParamsSackDelayOff;
  label ← (if has_bits flags sppIPv6FlowLabel
           then v ← get_at NativeEndian 4 b pathParamsFlowLabelOff; Ret (Some v)
           else Ret None);
  dscp ← (if has_bits flags sppDSCP
          then v ← get_at NativeEndian 1 b pathParamsDSCPOff; Ret (Some v)
          else Ret None);
  Ret {| pp_Heartbeat := Some hb;
         pp_HeartbeatInterval := Some (millisToDuration interval);
         pp_PathMaxRetrans := Some retrans;
         pp_PMTUD := Some pmtud;
         pp_PathMTU := Some mtu;
         pp_DelayedSACK := Some sack;
         pp_SACKDelay := Some (millisToDuration delay);
         pp_IPv6FlowLabel := label;
         pp_DSCP := dscp |}.

(** ** Association structs *)
Definition decodePathInfo (b : bytes) : out error PathInfo :=
  field ← slice b pathInfoAddressOff (pathInfoAddressOff + sizeSockaddrStorage);
  addr ← addr_or_zero field;
  state ← get_at NativeEndian 4 b pathInfoStateOff;
  cwnd ← get_at NativeEndian 4 b pathInfoCwndOff;
  srtt ← get_at NativeEndian 4 b pathInfoSRTTOff;
  rto ← get_at NativeEndian 4 b pathInfoRTOOff;
  mtu ← get_at NativeEndian 4 b pathInfoMTUOff;
  Ret {| pi_Addr := addr; pi_State := i32 state; pi_Cwnd := cwnd; pi_SRTTTicks := srtt;
         pi_RTO := millisToDuration rto; pi_MTU := mtu |}.

Definition decodeStatus (b : bytes) : out error Status :=
  state ← get_at NativeEndian 4 b statusStateOff;
  rwnd ← get_at NativeEndian 4 b statusRWNDOff;
  unacked ← get_at NativeEndian 2 b statusUnackedOff;
  pending ← get_at NativeEndian 2 b statusPendingOff;
  ins ← get_at NativeEndian 2 b statusInStreamsOff;
  outs ← get_at NativeEndian 2 b statusOutStreamsOff;
  frag ← get_at NativeEndian 4 b statusFragmentationPointOff;
  field ← slice b statusPrimaryOff (statusPrimaryOff + sizePathInfo);
  primary ← decodePathInfo field;
  Ret {| st_State := i32 state; st_PeerRwnd := rwnd; st_Unacked := unacked;
         st_Pending := pending; st_InStreams := ins; st_OutStreams := outs;
         st_FragmentationPoint := frag; st_Primary := primary |}.

Definition encodeRTOInfo (b : bytes) (assoc : Z) (r : RTOInfo) (field : string) : out error bytes :=
  initial ← durationToMillis (field +:+ ".Initial") (rto_Initial r) MaxUint32;
  maxMS ← durationToMillis (field +:+ ".Max") (rto_Max r) MaxUint32;
  minMS ← durationToMillis (field +:+ ".Min") (rto_Min r) MaxUint32;
  if negb (minMS =? 0) && negb (maxMS =? 0) && (maxMS <? minMS)
  then Err (invalidArg (field +:+ ".Min %s exceeds %s.Max %s (net/sctp/socket.c: sctp_setsockopt_rtoinfo)"))
  else
    b ← slice b 0 sizeRTOInfo;
    b ← put_at NativeEndian 4 b rtoInfoAssocIDOff (u32 assoc);
    b ← put_at NativeEndian 4 b rtoInfoInitialOff initial;
    b ← put_at NativeEndian 4 b rtoInfoMaxOff maxMS;
    put_at NativeEndian 4 b rtoInfoMinOff minMS.

Definition decodeRTOInfo (b : bytes) : out error RTOInfo :=
  initial ← get_at NativeEndian 4 b rtoInfoInitialOff;
  maxMS ← get_at NativeEndian 4 b rtoInfoMaxOff;
  minMS ← get_at NativeEndian 4 b rtoInfoMinOff;
  Ret {| rto_Initial := millisToDuration initial; rto_Max := millisToDuration maxMS;
         rto_Min := millisToDuration minMS |}.

Definition encodeAssocInfo (b : bytes) (assoc : Z) (a : AssocInfo) (field : string) : out error bytes :=
  cookie ← durationToMillis (field +:+ ".CookieLife") (ai_CookieLife a) MaxUint32;
  b ← slice b 0 sizeAssocInfo;
  b ← clear_at b 0 (len b);
  b ← put_at NativeEndian 4 b assocInfoAssocIDOff (u32 assoc);
  b ← put_at NativeEndian 2 b assocInfoMaxRetransOff (ai_MaxRetrans a);
  put_at NativeEndian 4 b assocInfoCookieLifeOff cookie.

Definition decodeAssocInfo (b : bytes) : out error AssocInfo :=
  retrans ← get_at NativeEndian 2 b assocInfoMaxRetransOff;
  cookie ← get_at NativeEndian 4 b assocInfoCookieLifeOff;
  dests ← get_at NativeEndian 2 b assocInfoPeerDestinationsOff;
  prwnd ← get_at NativeEndian 4 b assocInfoPeerRwndOff;
  lrwnd ← get_at NativeEndian 4 b assocInfoLocalRwndOff;
  Ret {| ai_MaxRetrans := retrans; ai_CookieLife := millisToDuration cookie;
         ai_PeerDestinations := dests; ai_PeerRwnd := prwnd; ai_LocalRwnd := lrwnd |}.

Definition encodeDelayedSACK (b : bytes) (assoc : Z) (d : DelayedSACK) (field : string)
    : out error bytes :=
  delay ← durationToMillis (field +:+ ".Delay") (ds_Delay d) MaxUint32;
  if maxSACKDelayMS <? delay
  then Err (invalidArg (field +:+ ".Delay %s exceeds RFC 9260 §6.2's 500 ms maximum"))
  else
    b ← slice b 0 sizeDelayedSACK;
    b ← put_at NativeEndian 4 b delayedSACKAssocIDOff (u32 assoc);
    b ← put_at NativeEndian 4 b delayedSACKDelayOff delay;
    put_at NativeEndian 4 b delayedSACKFrequencyOff (ds_Frequency d).

Definition decodeDelayedSACK (b : bytes) : out error DelayedSACK :=
  delay ← get_at NativeEndian 4 b delayedSACKDelayOff;
  freq ← get_at NativeEndian 4 b delayedSACKFrequencyOff;
  Ret {| ds_Delay := millisToDuration delay; ds_Frequency := freq |}.

Definition decodeInitMsg (b : bytes) : out error InitMsg :=
  outs ← get_at NativeEndian 2 b initMsgOutStreamsOff;
  ins ← get_at NativeEndian 2 b initMsgMaxInStreamsOff;
  att ← get_at NativeEndian 2 b initMsgMaxAttemptsOff;
  timeo ← get_at NativeEndian 2 b initMsgMaxInitTimeoOff;
  Ret {| im_OutStreams := outs; im_MaxInStreams := ins; im_MaxAttempts := att;
         im_MaxInitTimeout := millisToDuration timeo |}.

(** ** Authentication *)
Definition decodeHMACIdents (b : bytes) (n : Z) : out error (list Z) :=
  if (n <? sizeHMACAlgo) || (len b <? n)
  then Err (Opaque "sctp: SCTP_HMAC_IDENT returned %d bytes, which is not a struct sctp_hmacalgo in a %d-byte buffer") else
  if negb (Z.rem (n - sizeHMACAlgo) 2 =? 0)
  then Err (Opaque "sctp: SCTP_HMAC_IDENT returned an odd %d-byte identifier list") else
  count ← get_at NativeEndian 4 b hmacAlgoNumIdentsOff;
  if negb (count =? u32 (Z.quot (n - sizeHMACAlgo) 2))
  then Err (Opaque "sctp: SCTP_HMAC_IDENT reports %d identifiers in %d bytes") else
  get_list NativeEndian 2 b hmacAlgoIdentsOff (Z.to_nat count).

Definition decodeAuthChunks (b : bytes) (n : Z) : out error bytes :=
  if (n <? sizeAuthChunks) || (len b <? n)
  then Err (Opaque "sctp: the AUTH chunk list option returned %d bytes, which is not a struct sctp_authchunks in a %d-byte buffer") else
  count ← get_at NativeEndian 4 b authChunksNumChunksOff;
  if negb (count =? u32 (n - sizeAuthChunks))
  then Err (Opaque "sctp: the AUTH chunk list option reports %d chunk types in %d bytes") else
  slice b authChunksChunksOff n.

Definition encodeAuthKey (assoc key : Z) (secret : bytes) (name : string) : out error bytes :=
  if len secret =? 0
  then Err (invalidArg (name +:+ ": the secret is empty; Linux refuses a zero-length key (net/sctp/socket.c: sctp_setsockopt_auth_key), and DeleteAuthKey removes one")) else
  if MaxUint16 <? len secret
  then Err (invalidArg (name +:+ ": the secret is %d bytes, more than the 65535 sca_keylength can describe")) else
  let b := zeros (sizeAuthKey + len secret) in
  b ← put_at NativeEndian 4 b authKeyAssocIDOff (u32 assoc);
  b ← put_at NativeEndian 2 b authKeyKeyNumberOff key;
  b ← put_at NativeEndian 2 b authKeyKeyLengthOff (u16 (len secret));
  copy_at b authKeyKeyOff secret.

(** ** Stream reconfiguration *)
Definition encodeResetStreams (assoc dir : Z) (streams : list Z) : out error bytes :=
  if negb (andnot dir (Z.lor ResetIncoming ResetOutgoing) =? 0)
  then Err (invalidArg "ResetStreams: direction %#x has unknown bits %#x") else
  if dir =? 0
  then Err (invalidArg "ResetStreams: the direction needs at least one of ResetIncoming and ResetOutgoing") else
  if MaxUint16 <? len streams
  then Err (invalidArg "ResetStreams: %d streams exceeds the %d a request can name") else
  let b := zeros (sizeResetStreams + 2 * len streams) in
  b ← put_at NativeEndian 4 b resetStreamsAssocIDOff (u32 assoc);
  b ← put_at NativeEndian 2 b resetStreamsFlagsOff dir;
  b ← put_at NativeEndian 2 b resetStreamsNumStreamsOff (u16 (len streams));
  put_list NativeEndian 2 b resetStreamsStreamListOff streams.

(** ** PR-SCTP status *)
Definition prStatusRequest (b : bytes) (assoc stream policy : Z) : out error bytes :=
  b ← slice b 0 sizePRStatus;
  b ← clear_at b 0 (len b);
  b ← put_at NativeEndian 4 b prStatusAssocIDOff (u32 assoc);
  b ← put_at NativeEndian 2 b prStatusStreamOff stream;
  put_at NativeEndian 2 b prStatusPolicyOff policy.

Definition decodePRStatus (b : bytes) : out error PRStatus :=
  unsent ← get_at NativeEndian 8 b prStatusAbandonedUnsentOff;
  sent ← get_at NativeEndian 8 b prStatusAbandonedSentOff;
  Ret {| prs_AbandonedUnsent := unsent; prs_AbandonedSent := sent |}.
End Codecs.

(** ** PathParams: what is accepted and what reads back *)

(** A duration that is a whole number of milliseconds between the bounds. *)
Definition is_millis (lo hi d : Z) : bool :=
  (d =? d / Millisecond * Millisecond) && (lo <=? d / Millisecond) && (d / Millisecond <=? hi).

(** What Linux applies: an interval only with heartbeats switched on, a
    path MTU only with discovery switched off, a SACK delay only with
    delayed SACK switched on, and no value Linux reads as "unchanged". *)
Definition pp_ok (p : PathParams) : bool :=
  match pp_HeartbeatInterval p, pp_Heartbeat p with
  | Some d, Some true => is_millis 0 MaxUint32 d
  | Some _, _ => false
  | None, _ => true
  end &&
  match pp_PathMaxRetrans p with Some v => negb (v =? 0) | None => true end &&
  match pp_PathMTU p, pp_PMTUD p with
  | Some v, Some false => minPathMTU <=? v
  | Some _, _ => false
  | None, _ => true
  end &&
  match pp_SACKDelay p, pp_DelayedSACK p with
  | Some d, Some true => is_millis 1 maxSACKDelayMS d
  | Some _, _ => false
  | None, _ => true
  end &&
  match pp_IPv6FlowLabel p with Some v => andnot v flowLabelMask =? 0 | None => true end &&
  match pp_DSCP p with Some v => andnot v dscpMask =? 0 | None => true end.

(** The fields have their Go types. *)
Definition opt_in (v : option Z) (n : Z) : Prop :=
  match v with Some v => 0 <= v < 2 ^ n | None => True end.

Definition pp_wf (p : PathParams) : Prop :=
  opt_in (pp_PathMaxRetrans p) 16 /\ opt_in (pp_PathMTU p) 32 /\
  opt_in (pp_IPv6FlowLabel p) 32 /\ opt_in (pp_DSCP p) 8.

(** A switch not given reads back as off, a value not given as zero, and
    the two fields Linux reports only when set as nil. *)
Definition on (o : option bool) : bool := match o with Some b => b | None => false end.
Definition or0 (o : option Z) : Z := match o with Some v => v | None => 0 end.

Definition read_back (p : PathParams) : PathParams := {|
  pp_Heartbeat := Some (on (pp_Heartbeat p));
  pp_HeartbeatInterval := Some (or0 (pp_HeartbeatInterval p));
  pp_PathMaxRetrans := Some (or0 (pp_PathMaxRetrans p));
  pp_PMTUD := Some (on (pp_PMTUD p));
  pp_PathMTU := Some (or0 (pp_PathMTU p));
  pp_DelayedSACK := Some (on (pp_DelayedSACK p));
  pp_SACKDelay := Some (or0 (pp_SACKDelay p));
  pp_IPv6FlowLabel := pp_IPv6FlowLabel p;
  pp_DSCP := pp_DSCP p;
|}.

Section PathParamsProofs.
Context `{A : Arch} `{ZE : ZoneEnv}.

(** One step of the encoder: it owns the field at [off] of [n] bytes, which
    then holds [val], sets [bits], and accepts when [ok]. *)
Definition step_ok (step : bytes -> Z -> out error (bytes * Z)) (off n val bits : Z) (ok : bool) : Prop :=
  forall b flags, len b = sizePathParams -> uint_of NativeEndian (sub b off n) = 0 ->
  match step b flags with
  | Ret (b', flags') => ok = true /\ flags' = Z.lor flags bits /\ frame b b' off n /\
                        uint_of NativeEndian (sub b' off n) = val
  | Err e => ok = false /\ exists m, e = InvalidArg m
  | Panic => False
  end.

Definition switch_bits (o : option bool) (enable disable : Z) : Z :=
  match o with Some b => onOff b enable disable | None => 0 end.

Definition hb_bits (p : PathParams) : Z :=
  Z.lor (switch_bits (pp_Heartbeat p) sppHBEnable sppHBDisable)
        (match pp_HeartbeatInterval p with Some 0 => sppHBTimeIsZero | _ => 0 end).

Lemma lor_switch flags o e d :
  match o with Some on => Z.lor flags (onOff on e d) | None => flags end =
  Z.lor flags (switch_bits o e d).
Proof. destruct o; simpl; [done | by rewrite Z.lor_0_r]. Qed.

Lemma is_millis_true lo hi d ms :
  0 <= lo -> lo <= ms <= hi -> d = ms * Millisecond -> is_millis lo hi d = true /\ d / Millisecond = ms.
Proof.
  intros H0 Hm ->. unfold is_millis. rewrite Z.div_mul by done.
  rewrite Z.eqb_refl, !(proj2 (Z.leb_le _ _)) by lia. done.
Qed.

Lemma is_millis_false lo hi d :
  ~ (exists ms, lo <= ms <= hi /\ d = ms * Millisecond) -> is_millis lo hi d = false.
Proof.
  intros Hn. apply not_true_is_false. unfold is_millis.
  intros [[H1%Z.eqb_eq H2%Z.leb_le]%andb_prop H3%Z.leb_le]%andb_prop.
  apply Hn. exists (d / Millisecond). auto.
Qed.

Lemma put_step {B} n b off v (k : bytes -> out error B) :
  0 <= off -> off + Z.of_nat n <= len b -> 0 <= v < 2 ^ (8 * Z.of_nat n) ->
  exists b', (b ← put_at NativeEndian n b off v; k b) = k b' /\ frame b b' off (Z.of_nat n) /\
             uint_of NativeEndian (sub b' off (Z.of_nat n)) = v.
Proof.
  intros. destruct (put_at_frame (E:=error) NativeEndian n b off v) as (b' & -> & Hf & Hv); [done.. |].
  rewrite Z.mod_small in Hv by done. eauto.
Qed.

Lemma heartbeat_step_ok p field :
  step_ok (pp_heartbeat_step p field) pathParamsHBIntervalOff 4
    (or0 (pp_HeartbeatInterval p) / Millisecond) (hb_bits p)
    (match pp_HeartbeatInterval p, pp_Heartbeat p with
     | Some d, Some true => is_millis 0 MaxUint32 d | Some _, _ => false | None, _ => true end).
Proof.
  intros b flags Hl Hz. unfold pp_heartbeat_step, hb_bits. rewrite lor_switch.
  destruct (pp_HeartbeatInterval p) as [d |]; simpl; [| rewrite Z.lor_0_r; auto using frame_refl].
  destruct (pp_Heartbeat p) as [[] |]; simpl; unfold invalidArg; eauto.
  pose proof (durationToMillis_outcome (field +:+ ".HeartbeatInterval") d MaxUint32) as Hd.
  destruct (durationToMillis _ _ _) as [ms | e |]; next.
  - destruct Hd as [Hm Hd]; [unfold MaxUint32; lia |].
    destruct (is_millis_true 0 MaxUint32 d ms) as [-> ->]; [lia | lia | done |].
    destruct (put_step (B:=bytes * Z) 4 b pathParamsHBIntervalOff ms
      (fun b => Ret (b, if ms =? 0 then Z.lor (Z.lor flags sppHBEnable) sppHBTimeIsZero
                        else Z.lor flags sppHBEnable))) as (b' & Hb' & Hf & Hv);
      [abi; lia | abi; lia | unfold MaxUint32 in *; lia |].
    abi. rewrite Hb'. split; [done |]. split; [| done].
    subst d. destruct (Z.eqb_spec ms 0) as [-> | Hne]; simpl; [by rewrite Z.lor_assoc |].
    unfold Millisecond. destruct (ms * 1000000) eqn:E; try lia; by rewrite !Z.lor_0_r.
  - destruct Hd as [Hi Hd]; [unfold MaxUint32; lia |]. split; [by apply is_millis_false | done].
  - apply Hd. unfold MaxUint32. lia.
Qed.

Lemma retrans_step_ok p field :
  opt_in (pp_PathMaxRetrans p) 16 ->
  step_ok (pp_retrans_step p field) pathParamsPathMaxRxtOff 2 (or0 (pp_PathMaxRetrans p)) 0
    (match pp_PathMaxRetrans p with Some v => negb (v =? 0) | None => true end).
Proof.
  intros Hw b flags Hl Hz. unfold pp_retrans_step. rewrite Z.lor_0_r.
  destruct (pp_PathMaxRetrans p) as [v |]; simpl in *; [| auto using frame_refl].
  destruct (v =? 0); simpl; [unfold invalidArg; eauto |].
  destruct (put_step (B:=bytes * Z) 2 b pathParamsPathMaxRxtOff v (fun b => Ret (b, flags)))
    as (b' & -> & Hf & Hv); [abi; lia | abi; lia | done |]. auto.
Qed.

Lemma mtu_step_ok p field :
  opt_in (pp_PathMTU p) 32 ->
  step_ok (pp_mtu_step p field) pathParamsPathMTUOff 4 (or0 (pp_PathMTU p))
    (switch_bits (pp_PMTUD p) sppPMTUDEnable sppPMTUDDisable)
    (match pp_PathMTU p, pp_PMTUD p with
     | Some v, Some false => minPathMTU <=? v | Some _, _ => false | None, _ => true end).
Proof.
  intros Hw b flags Hl Hz. unfold pp_mtu_step. rewrite lor_switch.
  destruct (pp_PathMTU p) as [v |]; simpl in *; [| auto using frame_refl].
  destruct (pp_PMTUD p) as [[] |]; simpl; unfold invalidArg; eauto.
  rewrite Z.leb_antisym. destruct (v <? minPathMTU); simpl; eauto.
  destruct (put_step (B:=bytes * Z) 4 b pathParamsPathMTUOff v
    (fun b => Ret (b, Z.lor flags sppPMTUDDisable)))
    as (b' & -> & Hf & Hv); [abi; lia | abi; lia | done |]. auto.
Qed.

Lemma sack_step_ok p field :
  step_ok (pp_sack_step p field) pathParamsSackDelayOff 4 (or0 (pp_SACKDelay p) / Millisecond)
    (switch_bits (pp_DelayedSACK p) sppSACKDelayEnable sppSACKDelayDisable)
    (match pp_SACKDelay p, pp_DelayedSACK p with
     | Some d, Some true => is_millis 1 maxSACKDelayMS d | Some _, _ => false | None, _ => true end).
Proof.
  intros b flags Hl Hz. unfold pp_sack_step. rewrite lor_switch.
  destruct (pp_SACKDelay p) as [d |]; simpl in *; [| auto using frame_refl].
  destruct (pp_DelayedSACK p) as [[] |]; simpl; unfold invalidArg; eauto.
  pose proof (durationToMillis_outcome (field +:+ ".SACKDelay") d MaxUint32) as Hd.
  destruct (durationToMillis _ _ _) as [ms | e |]; next.
  - destruct Hd as [Hm Hd]; [unfold MaxUint32; lia |].
    assert (Hbad : ms = 0 \/ maxSACKDelayMS < ms -> is_millis 1 maxSACKDelayMS d = false).
    { intros Hb. apply is_millis_false. intros (m & Hr & He). rewrite Hd in He.
      assert (ms = m) by (unfold Millisecond in He; lia). lia. }
    destruct (Z.eqb_spec ms 0); [eauto |].
    destruct (Z.ltb_spec maxSACKDelayMS ms); [eauto |].
    destruct (is_millis_true 1 maxSACKDelayMS d ms) as [-> ->]; [lia | lia | done |].
    destruct (put_step (B:=bytes * Z) 4 b pathParamsSackDelayOff ms
      (fun b => Ret (b, Z.lor flags sppSACKDelayEnable))) as (b' & -> & Hf & Hv);
      [abi; lia | abi; lia | unfold MaxUint32 in *; lia |]. auto.
  - destruct Hd as [Hi Hd]; [unfold MaxUint32; lia |]. split; [| done].
    apply is_millis_false. intros (m & Hr & He). apply Hd. exists m. abi. unfold MaxUint32. split; [lia | done].
  - apply Hd. unfold MaxUint32. lia.
Qed.

Lemma label_step_ok p field :
  opt_in (pp_IPv6FlowLabel p) 32 ->
  step_ok (pp_label_step p field) pathParamsFlowLabelOff 4 (or0 (pp_IPv6FlowLabel p))
    (match pp_IPv6FlowLabel p with Some _ => sppIPv6FlowLabel | None => 0 end)
    (match pp_IPv6FlowLabel p with Some v => andnot v flowLabelMask =? 0 | None => true end).
Proof.
  intros Hw b flags Hl Hz. unfold pp_label_step.
  destruct (pp_IPv6FlowLabel p) as [v |]; simpl in *; [| rewrite Z.lor_0_r; auto using frame_refl].
  destruct (andnot v flowLabelMask =? 0); simpl; [| unfold invalidArg; eauto].
  destruct (put_step (B:=bytes * Z) 4 b pathParamsFlowLabelOff v
    (fun b => Ret (b, Z.lor flags sppIPv6FlowLabel)))
    as (b' & -> & Hf & Hv); [abi; lia | abi; lia | done |]. auto.
Qed.

Lemma dscp_step_ok p field :
  opt_in (pp_DSCP p) 8 ->
  step_ok (pp_dscp_step p field) pathParamsDSCPOff 1 (or0 (pp_DSCP p))
    (match pp_DSCP p with Some _ => sppDSCP | None => 0 end)
    (match pp_DSCP p with Some v => andnot v dscpMask =? 0 | None => true end).
Proof.
  intros Hw b flags Hl Hz. unfold pp_dscp_step.
  destruct (pp_DSCP p) as [v |]; simpl in *; [| rewrite Z.lor_0_r; auto using frame_refl].
  destruct (andnot v dscpMask =? 0); simpl; [| unfold invalidArg; eauto].
  destruct (put_step (B:=bytes * Z) 1 b pathParamsDSCPOff v
    (fun b => Ret (b, Z.lor flags sppDSCP)))
    as (b' & -> & Hf & Hv); [abi; lia | abi; lia | done |]. auto.
Qed.

(** The flags word the encoder builds. *)
Definition pp_flags (p : PathParams) : Z :=
  Z.lor (Z.lor (Z.lor (Z.lor (Z.lor (Z.lor 0 (hb_bits p)) 0)
    (switch_bits (pp_PMTUD p) sppPMTUDEnable sppPMTUDDisable))
    (switch_bits (pp_DelayedSACK p) sppSACKDelayEnable sppSACKDelayDisable))
    (match pp_IPv6FlowLabel p with Some _ => sppIPv6FlowLabel | None => 0 end))
    (match pp_DSCP p with Some _ => sppDSCP | None => 0 end).

(** What the encoded struct holds. *)
Definition pp_holds (p : PathParams) (assoc : Z) (b : bytes) : Prop :=
  len b = sizePathParams /\
  uint_of NativeEndian (sub b pathParamsAssocIDOff 4) = u32 assoc /\
  uint_of NativeEndian (sub b pathParamsHBIntervalOff 4) = or0 (pp_HeartbeatInterval p) / Millisecond /\
  uint_of NativeEndian (sub b pathParamsPathMaxRxtOff 2) = or0 (pp_PathMaxRetrans p) /\
  uint_of NativeEndian (sub b pathParamsPathMTUOff 4) = or0 (pp_PathMTU p) /\
  uint_of NativeEndian (sub b pathParamsSackDelayOff 4) = or0 (pp_SACKDelay p) / Millisecond /\
  uint_of NativeEndian (sub b pathParamsFlowLabelOff 4) = or0 (pp_IPv6FlowLabel p) /\
  uint_of NativeEndian (sub b pathParamsDSCPOff 1) = or0 (pp_DSCP p) /\
  uint_of NativeEndian (sub b pathParamsFlagsOff 4) = u32 (pp_flags p).

(** The address copied in. *)
Lemma copy_field_frame b off n v :
  0 <= off -> 0 <= n -> off + n <= len b ->
  exists b', copy_field b off n v = Ret b' /\ frame b b' off n /\
    (len v <= n -> sub b' off (len v) = v).
Proof.
  intros. unfold copy_field. rewrite slice_ok by lia. next.
  assert (Hv : len (take (Z.to_nat n) v) <= n) by (rewrite len_take; lia).
  rewrite copy_at_ok by lia. eexists. split; [done |].
  split; [apply splice_frame; lia |]. intros Hn.
  rewrite take_ge in * by (unfold len in *; lia). by rewrite sub_splice_same by lia.
Qed.
End PathParamsProofs.

(** Carries what is known of a field over a write elsewhere. *)
Ltac carry :=
  repeat match goal with
  | Hf : frame ?b ?b' _ _, H : context [sub ?b ?x ?n] |- _ =>
      rewrite <- (proj2 Hf x n) in H by (abi; lia)
  end.

Section PathParamsTheorems.
Context `{A : Arch} `{ZE : ZoneEnv}.

(** The bytes from [lo] on are still zero. *)
Definition zero_from (b : bytes) (lo : Z) : Prop :=
  len b = sizePathParams /\
  forall x n, lo <= x -> 0 <= n -> x + n <= sizePathParams -> uint_of NativeEndian (sub b x n) = 0.

Lemma zero_from_frame b b' off n lo :
  0 <= lo -> zero_from b lo -> frame b b' off n -> 0 <= n -> lo <= off + n -> zero_from b' (off + n).
Proof.
  intros Hlo [Hl Hz] [Hl' Hf] Hn Ho. split; [congruence |].
  intros x m Hx Hm Hxm. rewrite Hf by lia. apply Hz; lia.
Qed.

(** Running one step before a continuation. *)
Lemma run_step {B} step off n val bits ok b flags lo (k : bytes -> Z -> out error B)
    (P : out error B -> Prop) :
  step_ok step off n val bits ok -> zero_from b lo -> 0 <= lo <= off -> 0 <= n ->
  off + n <= sizePathParams ->
  (ok = true -> forall b', frame b b' off n -> uint_of NativeEndian (sub b' off n) = val ->
   zero_from b' (off + n) -> P (k b' (Z.lor flags bits))) ->
  (ok = false -> forall m, P (Err (InvalidArg m))) ->
  P ('(b', flags') ← step b flags; k b' flags').
Proof.
  intros Hs Hz Hlo Hn Hoff Hk He.
  pose proof (Hs b flags (proj1 Hz) (proj2 Hz off n ltac:(lia) Hn Hoff)) as H.
  destruct (step b flags) as [[b' flags'] | e |]; [| | done]; next.
  - destruct H as (Hok & -> & Hf & Hv). apply Hk; try done.
    eapply (zero_from_frame b b' off n lo); try done; lia.
  - destruct H as [Hok [m ->]]. auto.
Qed.

(** The last three writes. *)
Lemma pp_tail b assoc addr flags :
  len b = sizePathParams ->
  exists b1 b2 b3,
    (b ← put_at NativeEndian 4 b pathParamsAssocIDOff (u32 assoc);
     b ← copy_field b pathParamsAddressOff sizeSockaddrStorage addr;
     put_at NativeEndian 4 b pathParamsFlagsOff flags) = Ret b3 /\
    frame b b1 0 4 /\ frame b1 b2 4 128 /\ frame b2 b3 146 4 /\
    uint_of NativeEndian (sub b1 0 4) = u32 assoc /\
    (len addr <= sizeSockaddrStorage -> sub b2 4 (len addr) = addr) /\
    uint_of NativeEndian (sub b3 146 4) = u32 flags.
Proof.
  intros Hl. abi.
  destruct (put_at_frame (E:=error) NativeEndian 4 b 0 (u32 assoc)) as (b1 & -> & F1 & V1); [lia | lia |].
  next. pose proof (proj1 F1).
  destruct (copy_field_frame b1 4 128 addr) as (b2 & -> & F2 & V2); [lia | lia | lia |].
  next. pose proof (proj1 F2).
  destruct (put_at_frame (E:=error) NativeEndian 4 b2 146 flags) as (b3 & -> & F3 & V3); [lia | lia |].
  exists b1, b2, b3. repeat (split; [done |]). split; [| split; [done |]].
  - etransitivity; [exact V1 |]. apply u32_small, Z.mod_pos_bound. done.
  - exact V3.
Qed.

Lemma encodePathParams_outcome b assoc addr p field :
  pp_wf p -> sizePathParams <= len b ->
  match encodePathParams b assoc addr p field with
  | Ret b' => pp_ok p = true /\ pp_holds p assoc b' /\
              (len addr <= sizeSockaddrStorage -> sub b' pathParamsAddressOff (len addr) = addr)
  | Err e => pp_ok p = false /\ exists m, e = InvalidArg m
  | Panic => False
  end.
Proof.
  intros (Hw1 & Hw2 & Hw3 & Hw4) Hl.
  set (P := fun r : out error bytes => match r with
    | Ret b' => pp_ok p = true /\ pp_holds p assoc b' /\
                (len addr <= sizeSockaddrStorage -> sub b' pathParamsAddressOff (len addr) = addr)
    | Err e => pp_ok p = false /\ exists m, e = InvalidArg m
    | Panic => False end).
  change (P (encodePathParams b assoc addr p field)). unfold encodePathParams.
  rewrite slice_ok by (abi; lia). next.
  rewrite clear_at_ok by (rewrite ?len_sub by (abi; lia); abi; lia). next.
  rewrite splice_all by (rewrite len_zeros; rewrite len_sub by (abi; lia); abi; lia).
  rewrite len_sub by (abi; lia). rewrite !Z.sub_0_r. set (b0 := zeros sizePathParams).
  assert (Z0 : zero_from b0 0).
  { split; [done |]. intros. unfold b0. rewrite sub_zeros by lia. apply uint_of_zeros. }
  assert (Hbad : forall m, pp_ok p = false -> P (Err (InvalidArg m))) by (simpl; eauto).
  unfold pp_ok in Hbad.
  eapply run_step; [apply heartbeat_step_ok | exact Z0 | done.. | intros E1 b1 F1 V1 Z1 | intros E1 m].
  2: { apply Hbad. by rewrite E1. }
  eapply run_step; [apply retrans_step_ok, Hw1 | exact Z1 | done.. | intros E2 b2 F2 V2 Z2 | intros E2 m].
  2: { apply Hbad. by rewrite E1, E2. }
  eapply run_step; [apply mtu_step_ok, Hw2 | exact Z2 | done.. | intros E3 b3 F3 V3 Z3 | intros E3 m].
  2: { apply Hbad. by rewrite E1, E2, E3. }
  eapply run_step; [apply sack_step_ok | exact Z3 | done.. | intros E4 b4 F4 V4 Z4 | intros E4 m].
  2: { apply Hbad. by rewrite E1, E2, E3, E4. }
  eapply run_step; [apply label_step_ok, Hw3 | exact Z4 | done.. | intros E5 b5 F5 V5 Z5 | intros E5 m].
  2: { apply Hbad. by rewrite E1, E2, E3, E4, E5. }
  eapply run_step; [apply dscp_step_ok, Hw4 | exact Z5 | done.. | intros E6 b6 F6 V6 Z6 | intros E6 m].
  2: { apply Hbad. by rewrite E1, E2, E3, E4, E5, E6. }
  destruct (pp_tail b6 assoc addr (pp_flags p) (proj1 Z6))
    as (b7 & b8 & b9 & Ht & F7 & F8 & F9 & V7 & V8 & V9).
  assert (Hlen : len b9 = sizePathParams)
    by (rewrite (proj1 F9), (proj1 F8), (proj1 F7); apply Z6).
  match goal with |- P ?m => replace m with (Ret (E:=error) b9) by (symmetry; exact Ht) end.
  unfold P. clear Z0 Z1 Z2 Z3 Z4 Z5 Z6 P Hbad Ht. split; [| split].
  - unfold pp_ok. by rewrite E1, E2, E3, E4, E5, E6.
  - abi. carry. unfold pp_holds. abi. auto 10.
  - intros Ha. specialize (V8 Ha). pose proof (len_nonneg addr). abi. carry. exact V8.
Qed.

Lemma pp_flags_bits p :
  has_bits (u32 (pp_flags p)) sppHBEnable = on (pp_Heartbeat p) /\
  has_bits (u32 (pp_flags p)) sppPMTUDEnable = on (pp_PMTUD p) /\
  has_bits (u32 (pp_flags p)) sppSACKDelayEnable = on (pp_DelayedSACK p) /\
  has_bits (u32 (pp_flags p)) sppIPv6FlowLabel = bool_decide (is_Some (pp_IPv6FlowLabel p)) /\
  has_bits (u32 (pp_flags p)) sppDSCP = bool_decide (is_Some (pp_DSCP p)).
Proof.
  rewrite !has_bits_u32 by (split; done). unfold pp_flags, hb_bits. rewrite !has_bits_lor.
  destruct p as [hb hi ? pm ? ds ? fl dc]; simpl.
  destruct hb as [[] |], pm as [[] |], ds as [[] |], fl, dc; destruct hi as [[] |];
    repeat split; reflexivity.
Qed.

Lemma decode_holds p assoc b :
  pp_holds p assoc b -> pp_ok p = true -> decodePathParams b = Ret (read_back p).
Proof.
  intros (Hl & _ & V1 & V2 & V3 & V4 & V5 & V6 & V7) Hok.
  destruct (pp_flags_bits p) as (B1 & B2 & B3 & B4 & B5).
  assert (Hms : forall lo hi d, is_millis lo hi d = true -> millisToDuration (d / Millisecond) = d).
  { unfold is_millis, millisToDuration. intros lo hi d [[H%Z.eqb_eq _]%andb_prop _]%andb_prop. done. }
  unfold decodePathParams, read_back.
  rewrite !get4_ok, get2_ok by (abi; lia). next. rewrite V1, V2, V3, V4, V5, V7, B1, B2, B3, B4, B5.
  rewrite (get_at_ok _ 1) by (abi; lia).
  change (Z.of_nat 1) with 1. rewrite V6.
  replace (millisToDuration (or0 (pp_HeartbeatInterval p) / Millisecond))
    with (or0 (pp_HeartbeatInterval p)).
  2: { unfold pp_ok in Hok. destruct (pp_HeartbeatInterval p) as [d |]; [| done].
       destruct (pp_Heartbeat p) as [[] |]; try done. simpl. symmetry. eapply Hms.
       do 5 (apply andb_prop in Hok as [Hok _]). exact Hok. }
  replace (millisToDuration (or0 (pp_SACKDelay p) / Millisecond)) with (or0 (pp_SACKDelay p)).
  2: { unfold pp_ok in Hok. destruct (pp_SACKDelay p) as [d |]; [| done].
       do 2 (apply andb_prop in Hok as [Hok _]). apply andb_prop in Hok as [_ Hok].
       destruct (pp_DelayedSACK p) as [[] |]; try done. simpl. symmetry. eapply Hms, Hok. }
  destruct (pp_IPv6FlowLabel p), (pp_DSCP p); done.
Qed.

(** encodePathParams accepts exactly the settings Linux would apply as
    given ([pp_ok]), refusing the rest with an error that matches EINVAL
    instead of letting Linux ignore them; and the struct it lays out reads
    back, through decodePathParams, as the settings it was given. *)
Theorem encodePathParams_spec b assoc addr p field
    (Hwf : pp_wf p) (Hlen : sizePathParams <= len b) :
  match encodePathParams b assoc addr p field with
  | Ret b' => pp_ok p = true /\ len b' = sizePathParams /\ decodePathParams b' = Ret (read_back p)
  | Err e => pp_ok p = false /\ errors_Is e (Errno EINVAL) = true
  | Panic => False
  end.
Proof.
  pose proof (encodePathParams_outcome b assoc addr p field Hwf Hlen) as H.
  destruct (encodePathParams b assoc addr p field); [| | done].
  - destruct H as (Hok & Hh & _). split; [done |]. split; [apply Hh | by eapply decode_holds].
  - destruct H as [Hok [m ->]]. done.
Qed.
End PathParamsTheorems.

(** A heartbeat interval of 30 s, a fixed MTU of 1400 and a DSCP. *)
Definition sample_params : PathParams := {|
  pp_Heartbeat := Some true; pp_HeartbeatInterval := Some (30 * Second);
  pp_PathMaxRetrans := Some 5; pp_PMTUD := Some false; pp_PathMTU := Some 1400;
  pp_DelayedSACK := None; pp_SACKDelay := None; pp_IPv6FlowLabel := None; pp_DSCP := Some 0xb8 |}.

Lemma encodePathParams_spec_witness :
  exists b', @encodePathParams s390x (zeros 156) 7 [] sample_params "PathParams" = Ret b' /\
  @decodePathParams s390x b' = Ret (read_back sample_params).
Proof.
  assert (Hwf : pp_wf sample_params) by (unfold pp_wf; simpl; lia).
  assert (Hl : sizePathParams <= len (zeros 156)) by (vm_compute; discriminate).
  pose proof (@encodePathParams_spec s390x (zeros 156) 7 [] sample_params "PathParams" Hwf Hl) as H.
  destruct (@encodePathParams s390x (zeros 156) 7 [] sample_params "PathParams") as [b' | e |] eqn:E.
  - exists b'. split; [reflexivity | apply H].
  - vm_compute in E. discriminate.
  - destruct H.
Defined.

(** ** The fixed-size association structs *)
Section Fixed.
Context `{A : Arch}.

Lemma millis_field d ms limit field :
  0 <= limit <= MaxUint32 -> durationToMillis field d limit = Ret ms ->
  millisToDuration (u32 ms) = d /\ 0 <= ms <= limit.
Proof.
  intros Hl H. apply durationToMillis_Ret in H as [Hm Hd]; [| done].
  rewrite u32_small by (unfold is_u32, MaxUint32 in *; lia). auto.
Qed.

Lemma rto_roundtrip b b' assoc field : forall r,
  sizeRTOInfo <= len b -> encodeRTOInfo b assoc r field = Ret b' ->
  decodeRTOInfo b' = Ret r /\ (rto_Min r = 0 \/ rto_Max r = 0 \/ rto_Min r <= rto_Max r).
Proof.
  intros r Hl He. unfold encodeRTOInfo in He.
  apply bind_Ret_inv in He as (i & Hi & He). apply bind_Ret_inv in He as (mx & Hmx & He).
  apply bind_Ret_inv in He as (mn & Hmn & He).
  destruct (_ && _) eqn:Hc; [done |].
  apply millis_field in Hi as [Hi ?], Hmx as [Hmx ?], Hmn as [Hmn ?]; try (unfold MaxUint32; lia).
  rewrite slice_ok in He by (abi; lia). revert He. next. rewrite Z.sub_0_r.
  set (b0 := sub b 0 sizeRTOInfo).
  assert (Hb0 : len b0 = 16) by (unfold b0; rewrite len_sub; abi; lia). abi.
  rewrite (put_at_app _ 4 [] b0) by solve_len. next. rewrite put_at_app by solve_len. next.
  rewrite put_at_app by solve_len. next. rewrite put_at_app by solve_len.
  rewrite !drop_drop, drop_ge, app_nil_r, <- !app_assoc by (unfold len in Hb0; lia).
  intros [= <-]. unfold decodeRTOInfo. abi. simpl app.
  rewrite get4_ok by solve_len. next. rewrite get4_ok by solve_len. next.
  rewrite get4_ok by solve_len. next. read_field. rewrite !uint_of_4, Hi, Hmx, Hmn.
  split; [by destruct r |]. rewrite <- Hmn, <- Hmx. unfold millisToDuration, Millisecond.
  unfold u32, MaxUint32 in *. rewrite !Z.mod_small by lia.
  destruct (Z.eqb_spec mn 0), (Z.eqb_spec mx 0), (Z.ltb_spec mx mn); simpl in Hc; try done; lia.
Qed.

Lemma sack_roundtrip b b' assoc field : forall d,
  sizeDelayedSACK <= len b -> is_u32 (ds_Frequency d) ->
  encodeDelayedSACK b assoc d field = Ret b' ->
  decodeDelayedSACK b' = Ret d /\ 0 <= ds_Delay d <= maxSACKDelayMS * Millisecond.
Proof.
  intros d Hl Hfr He. unfold encodeDelayedSACK in He. apply bind_Ret_inv in He as (ms & Hms & He).
  destruct (Z.ltb_spec maxSACKDelayMS ms); [done |].
  apply millis_field in Hms as [Hms ?]; [| unfold MaxUint32; lia].
  rewrite slice_ok in He by (abi; lia). revert He. next. rewrite Z.sub_0_r.
  set (b0 := sub b 0 sizeDelayedSACK).
  assert (Hb0 : len b0 = 12) by (unfold b0; rewrite len_sub; abi; lia). abi.
  rewrite (put_at_app _ 4 [] b0) by solve_len. next. rewrite put_at_app by solve_len. next.
  rewrite put_at_app by solve_len.
  rewrite !drop_drop, drop_ge, app_nil_r, <- !app_assoc by (unfold len in Hb0; lia).
  intros [= <-]. unfold decodeDelayedSACK. abi. simpl app.
  rewrite get4_ok by solve_len. next. rewrite get4_ok by solve_len. next. read_field.
  rewrite !uint_of_4, Hms, (u32_small (ds_Frequency d)) by done.
  split; [by destruct d |]. rewrite <- Hms. unfold millisToDuration, Millisecond, u32, MaxUint32 in *.
  rewrite Z.mod_small by lia. lia.
Qed.

(** SCTP_RTOINFO and SCTP_DELAYED_SACK round trip: what the encoder
    accepts reads back as the value given, whatever the buffer held before;
    an accepted RTOInfo never has Min above a Max both set, and an accepted
    delay never exceeds 500 ms. *)
Theorem rto_sack_roundtrip b b' assoc field :
  (forall r, sizeRTOInfo <= len b -> encodeRTOInfo b assoc r field = Ret b' ->
     decodeRTOInfo b' = Ret r /\
     (rto_Min r = 0 \/ rto_Max r = 0 \/ rto_Min r <= rto_Max r)) /\
  (forall d, sizeDelayedSACK <= len b -> is_u32 (ds_Frequency d) ->
     encodeDelayedSACK b assoc d field = Ret b' ->
     decodeDelayedSACK b' = Ret d /\ 0 <= ds_Delay d <= maxSACKDelayMS * Millisecond).
Proof. split; [apply rto_roundtrip | apply sack_roundtrip]. Qed.
End Fixed.

Lemma rto_sack_roundtrip_witness :
  exists b', @encodeRTOInfo amd64 (zeros 20) 3 {| rto_Initial := 3 * Second; rto_Max := 0; rto_Min := Second |} "RTO" = Ret b' /\
  @decodeRTOInfo amd64 b' = Ret {| rto_Initial := 3 * Second; rto_Max := 0; rto_Min := Second |}.
Proof.
  eexists. split; [vm_compute; reflexivity |].
  refine (proj1 (proj1 (@rto_sack_roundtrip amd64 (zeros 20) _ 3 "RTO")
    {| rto_Initial := 3 * Second; rto_Max := 0; rto_Min := Second |} _ _)).
  - vm_compute. discriminate.
  - vm_compute. reflexivity.
Defined.

(** ** Lists of variable length *)
Section Lists.
Context `{A : Arch}.

(** The structs a kernel lays out for the two list replies. *)
Definition hmac_bytes (ids : list Z) : bytes :=
  bytes_of NativeEndian 4 (len ids) ++ bytes_of_list NativeEndian 2 ids.

Definition authchunks_bytes (assoc : Z) (chunks : bytes) : bytes :=
  bytes_of NativeEndian 4 assoc ++ bytes_of NativeEndian 4 (len chunks) ++ chunks.

Lemma hmac_roundtrip ids rest :
  Forall is_u16 ids -> len ids < 2 ^ 31 ->
  decodeHMACIdents (hmac_bytes ids ++ rest) (4 + 2 * len ids) = Ret ids.
Proof.
  intros Hids Hn. unfold decodeHMACIdents, hmac_bytes. abi. pose proof (len_nonneg ids). pose proof (len_nonneg rest).
  rewrite (proj2 (Z.ltb_ge _ _)), (proj2 (Z.ltb_ge _ _)) by (rewrite ?len_app, ?len_bytes_of, ?len_bytes_of_list; lia).
  simpl. replace (4 + 2 * len ids - 4) with (2 * len ids) by lia.
  rewrite Z.rem_mod_nonneg, Z.quot_div_nonneg by lia.
  rewrite (Z.mul_comm 2), Z.mod_mul, Z.div_mul by lia. simpl.
  rewrite get4_ok by (rewrite ?len_app, ?len_bytes_of, ?len_bytes_of_list; lia). next.
  rewrite <- app_assoc. rewrite sub_app_l, sub_whole by (rewrite ?len_bytes_of; lia).
  rewrite uint_of_4, Z.eqb_refl. simpl. rewrite u32_small by (unfold is_u32; lia).
  replace (Z.to_nat (len ids)) with (length ids) by (unfold len; lia).
  apply get_list_encoded; [by rewrite len_bytes_of | exact Hids].
Qed.

Lemma authchunks_roundtrip assoc chunks rest :
  len chunks < 2 ^ 31 ->
  decodeAuthChunks (authchunks_bytes assoc chunks ++ rest) (8 + len chunks) = Ret chunks.
Proof.
  intros Hn. unfold decodeAuthChunks, authchunks_bytes. abi. pose proof (len_nonneg chunks). pose proof (len_nonneg rest).
  rewrite (proj2 (Z.ltb_ge _ _)), (proj2 (Z.ltb_ge _ _)) by solve_len. simpl.
  rewrite <- !app_assoc. rewrite get4_ok by solve_len. next. read_field.
  rewrite uint_of_4. replace (8 + len chunks - 8) with (len chunks) by lia. rewrite Z.eqb_refl. simpl.
  rewrite slice_ok by solve_len. by read_field.
Qed.

(** The two AUTH list decoders are total: on any bytes and any reported
    length they return or fail, never panic, and what they return has
    exactly the number of entries the reported length holds; and a reply
    laid out as the kernel lays it out decodes to its entries. *)
Theorem auth_lists_total b n (Hb : len b < 2 ^ 32) :
  match decodeHMACIdents b n with
  | Ret ids => n = sizeHMACAlgo + 2 * len ids /\ n <= len b /\ Forall is_u16 ids
  | Err _ => True
  | Panic => False
  end /\
  match decodeAuthChunks b n with
  | Ret chunks => n = sizeAuthChunks + len chunks /\ n <= len b /\ chunks = sub b sizeAuthChunks (len chunks)
  | Err _ => True
  | Panic => False
  end /\
  (forall ids rest, Forall is_u16 ids -> len ids < 2 ^ 31 ->
     decodeHMACIdents (hmac_bytes ids ++ rest) (sizeHMACAlgo + 2 * len ids) = Ret ids) /\
  (forall assoc chunks rest, len chunks < 2 ^ 31 ->
     decodeAuthChunks (authchunks_bytes assoc chunks ++ rest) (sizeAuthChunks + len chunks) = Ret chunks).
Proof.
  split; [| split; [| split; [exact hmac_roundtrip | exact authchunks_roundtrip]]].
  - unfold decodeHMACIdents. abi.
    destruct (Z.ltb_spec n 4), (Z.ltb_spec (len b) n); simpl; auto.
    rewrite Z.rem_mod_nonneg, Z.quot_div_nonneg by lia.
    destruct (Z.eqb_spec ((n - 4) mod 2) 0); simpl; [| done].
    rewrite get4_ok by lia. next.
    destruct (Z.eqb_spec (uint_of NativeEndian (sub b 0 4)) (u32 ((n - 4) / 2))) as [Hc |]; simpl; [| done].
    pose proof (Z.div_mod (n - 4) 2). pose proof (Z.div_pos (n - 4) 2).
    rewrite u32_small in Hc by (unfold is_u32; lia). rewrite Hc.
    destruct (get_list_ok (E:=error) NativeEndian 2 (Z.to_nat ((n - 4) / 2)) b 4)
      as (ids & -> & Hl & Hf); [lia | lia |].
    split; [unfold len; lia | split; [lia | exact Hf]].
  - unfold decodeAuthChunks. abi.
    destruct (Z.ltb_spec n 8), (Z.ltb_spec (len b) n); simpl; auto.
    rewrite get4_ok by lia. next.
    destruct (negb _); [done |]. rewrite slice_ok by lia.
    rewrite len_sub by lia. split; [lia | split; [lia | done]].
Qed.
End Lists.

Lemma auth_lists_total_witness :
  @decodeHMACIdents s390x (@hmac_bytes s390x [HMACSHA256; HMACSHA1]) 8 = Ret [3; 1] /\
  match @decodeHMACIdents s390x [Byte.x00] 8 with Panic => False | _ => True end.
Proof.
  assert (H1 : len (@hmac_bytes s390x [HMACSHA256; HMACSHA1]) < 2 ^ 32) by (vm_compute; reflexivity).
  pose proof (@auth_lists_total s390x (@hmac_bytes s390x [HMACSHA256; HMACSHA1]) 8 H1) as (_ & _ & H & _).
  specialize (H [HMACSHA256; HMACSHA1] []). rewrite app_nil_r in H. split.
  - apply H; [| vm_compute; reflexivity]. repeat constructor; vm_compute; congruence.
  - vm_compute. exact I.
Defined.

(** ** Requests built whole *)
Section Requests.
Context `{A : Arch}.

(** encodeAuthKey and encodeResetStreams lay out the kernel's structs:
    an accepted request is the header followed by the secret, or by the
    stream ids, with the length field equal to what follows it; what the
    16-bit length cannot describe, an empty secret and a direction with no
    known or with an unknown bit are refused with EINVAL. *)
Theorem requests_layout assoc key secret name dir streams :
  match encodeAuthKey assoc key secret name with
  | Ret b => 0 < len secret <= MaxUint16 /\
      b = bytes_of NativeEndian 4 (u32 assoc) ++ bytes_of NativeEndian 2 key ++
          bytes_of NativeEndian 2 (len secret) ++ secret
  | Err e => errors_Is e (Errno EINVAL) = true /\ ~ (0 < len secret <= MaxUint16)
  | Panic => False
  end /\
  match encodeResetStreams assoc dir streams with
  | Ret b => dir <> 0 /\ andnot dir 3 = 0 /\ len streams <= MaxUint16 /\
      b = bytes_of NativeEndian 4 (u32 assoc) ++ bytes_of NativeEndian 2 dir ++
          bytes_of NativeEndian 2 (len streams) ++ bytes_of_list NativeEndian 2 streams
  | Err e => errors_Is e (Errno EINVAL) = true /\
      (dir = 0 \/ andnot dir 3 <> 0 \/ MaxUint16 < len streams)
  | Panic => False
  end.
Proof.
  pose proof (len_nonneg secret). pose proof (len_nonneg streams). split.
  - unfold encodeAuthKey. destruct (Z.eqb_spec (len secret) 0); [split; [done | lia] |].
    destruct (Z.ltb_spec MaxUint16 (len secret)); [split; [done | lia] |]. abi.
    set (b0 := zeros _). assert (Hb0 : len b0 = 8 + len secret) by (apply len_zeros; lia).
    rewrite (put_at_app _ 4 [] b0) by solve_len. next. rewrite put_at_app by solve_len. next.
    rewrite put_at_app by solve_len. next. rewrite copy_at_app by solve_len.
    split; [lia |]. rewrite !drop_drop, drop_ge, app_nil_r, <- !app_assoc by (unfold len in *; lia).
    by rewrite u16_small by (unfold is_u16, MaxUint16 in *; lia).
  - unfold encodeResetStreams. change (Z.lor ResetIncoming ResetOutgoing) with 3.
    destruct (Z.eqb_spec (andnot dir 3) 0); simpl; [| auto].
    destruct (Z.eqb_spec dir 0); [auto |].
    destruct (Z.ltb_spec MaxUint16 (len streams)); [auto |]. abi.
    set (b0 := zeros _). assert (Hb0 : len b0 = 8 + 2 * len streams) by (apply len_zeros; lia).
    rewrite (put_at_app _ 4 [] b0) by solve_len. next. rewrite put_at_app by solve_len. next.
    rewrite put_at_app by solve_len. next. rewrite put_list_app by solve_len.
    split; [done |]. split; [done |]. split; [done |].
    rewrite !drop_drop, drop_ge, app_nil_r, <- !app_assoc by (unfold len in *; lia).
    by rewrite u16_small by (unfold is_u16, MaxUint16 in *; lia).
Qed.
End Requests.

(** ** The word-size-dependent structs *)
Section Storage.
Context `{A : Arch} `{Aok : !ArchOk A}.

(** What both layouts have in common. *)
Definition layout_fits (l : sockaddrStorageLayout) : Prop :=
  4 <= l_addrOff l /\
  let e := l_addrOff l + sizeSockaddrStorage in
  (e <= l_udpEncapsPortOff l /\ l_udpEncapsPortOff l + 2 <= l_sizeUDPEncaps l) /\
  (e <= l_probeIntervalOff l /\ l_probeIntervalOff l + 4 <= l_sizeProbeInterval l) /\
  (e <= l_thresholdsMaxRetransOff l /\ l_thresholdsMaxRetransOff l + 2 <= l_thresholdsPFOff l /\
   l_thresholdsPFOff l + 2 <= l_thresholdsSwitchoverOff l /\
   l_thresholdsSwitchoverOff l + 2 <= l_sizePathThresholds l) /\
  (e <= l_statsCountersOff l /\ l_statsCountersOff l + 8 * assocStatsCounters = l_sizeAssocStats l).

Lemma layouts_fit : layout_fits nativeStorageLayout /\ layout_fits kernel64StorageLayout.
Proof. arch_cases A; vm_compute; repeat split; congruence. Qed.

Lemma storageHeader_ok l b assoc addr :
  4 <= l_addrOff l -> l_addrOff l + sizeSockaddrStorage <= len b ->
  exists b', storageHeader l b assoc addr = Ret b' /\ len b' = len b /\
    uint_of NativeEndian (sub b' 0 4) = u32 assoc /\
    (len addr <= sizeSockaddrStorage -> sub b' (l_addrOff l) (len addr) = addr).
Proof.
  intros H4 Hl. unfold storageHeader. pose proof (len_nonneg b). abi.
  rewrite clear_at_ok by lia. next. rewrite splice_all by (rewrite len_zeros; lia). rewrite Z.sub_0_r.
  assert (Hz : len (zeros (len b)) = len b) by (apply len_zeros; lia).
  destruct (put_at_frame (E:=error) NativeEndian 4 (zeros (len b)) 0 (u32 assoc))
    as (b1 & -> & F1 & V1); [lia | lia |]. next. pose proof (proj1 F1).
  destruct (copy_field_frame b1 (l_addrOff l) 128 addr) as (b2 & -> & F2 & V2); [lia | lia | lia |].
  pose proof (proj1 F2). exists b2. split; [done |]. split; [lia |]. split.
  - change (Z.of_nat 4) with 4 in V1. rewrite <- (proj2 F2 0 4) in V1 by lia. rewrite V1.
    apply u32_small, Z.mod_pos_bound. done.
  - auto.
Qed.

Definition is_layout (l : sockaddrStorageLayout) : Prop :=
  l = nativeStorageLayout \/ l = kernel64StorageLayout.

(** The four structs that follow the kernel's word size round trip in
    both of their layouts, on every target: the encapsulation port, the
    probe interval and the three thresholds written for a path read back as
    given, beside the association id, in a buffer of the struct's size. *)
Theorem storage_roundtrip l buf assoc addr port ms v
    (Hl : is_layout l) (Hport : is_u16 port) (Hms : is_u32 ms)
    (Hv : is_u16 (tv_maxRetrans v) /\ is_u16 (tv_pf v) /\ is_u16 (tv_switchover v))
    (Hbuf : l_sizeUDPEncaps l <= len buf /\ l_sizeProbeInterval l <= len buf /\
            l_sizePathThresholds l <= len buf) :
  (exists b, udpEncaps l buf assoc addr port = Ret b /\ len b = l_sizeUDPEncaps l /\
             udpEncapsPort l b = Ret port) /\
  (exists b, probeInterval l buf assoc addr ms = Ret b /\ len b = l_sizeProbeInterval l /\
             probeIntervalMS l b = Ret ms) /\
  (exists b, pathThresholds l buf assoc addr v = Ret b /\ len b = l_sizePathThresholds l /\
             read_thresholdValues l b = Ret v).
Proof.
  assert (Hfit : layout_fits l) by (destruct Hl as [-> | ->]; apply layouts_fit).
  destruct Hfit as (H4 & Hu & Hp & Ht & _). destruct Hbuf as (Hb1 & Hb2 & Hb3).
  pose proof (eq_refl : sizeSockaddrStorage = 128) as Hss. rewrite Hss in *.
  assert (Hhdr : forall n, l_addrOff l + 128 <= n -> n <= len buf -> exists b',
            storageHeader l (sub buf 0 n) assoc addr = Ret b' /\ len b' = n).
  { intros n H1 H2. destruct (storageHeader_ok l (sub buf 0 n) assoc addr)
      as (b' & Hb' & Hn & _); [lia | rewrite len_sub; lia |]. rewrite len_sub in Hn by lia. eauto. }
  split; [| split].
  - unfold udpEncaps, udpEncapsPort. rewrite slice_ok by lia. next. rewrite Z.sub_0_r.
    destruct (Hhdr (l_sizeUDPEncaps l)) as (b1 & -> & L1); [lia | lia |]. next.
    destruct (put_at_frame (E:=error) BigEndian 2 b1 (l_udpEncapsPortOff l) port) as (b & -> & F & V);
      [lia | lia |]. pose proof (proj1 F).
    exists b. split; [done |]. split; [lia |]. rewrite get2_ok by lia.
    change (Z.of_nat 2) with 2 in V. rewrite V, Z.mod_small by done. done.
  - unfold probeInterval, probeIntervalMS. rewrite slice_ok by lia. next. rewrite Z.sub_0_r.
    destruct (Hhdr (l_sizeProbeInterval l)) as (b1 & -> & L1); [lia | lia |]. next.
    destruct (put_at_frame (E:=error) NativeEndian 4 b1 (l_probeIntervalOff l) ms) as (b & -> & F & V);
      [lia | lia |]. pose proof (proj1 F).
    exists b. split; [done |]. split; [lia |]. rewrite get4_ok by lia.
    change (Z.of_nat 4) with 4 in V. rewrite V, Z.mod_small by done. done.
  - unfold pathThresholds, read_thresholdValues. rewrite slice_ok by lia. next. rewrite Z.sub_0_r.
    destruct (Hhdr (l_sizePathThresholds l)) as (b1 & -> & L1); [lia | lia |]. next.
    destruct (put_step 2 b1 (l_thresholdsMaxRetransOff l) (tv_maxRetrans v)
      (fun b => b ← put_at NativeEndian 2 b (l_thresholdsPFOff l) (tv_pf v);
                put_at NativeEndian 2 b (l_thresholdsSwitchoverOff l) (tv_switchover v)))
      as (b2 & -> & F2 & V2); [lia | lia | apply Hv |]. pose proof (proj1 F2).
    destruct (put_step 2 b2 (l_thresholdsPFOff l) (tv_pf v)
      (fun b => put_at NativeEndian 2 b (l_thresholdsSwitchoverOff l) (tv_switchover v)))
      as (b3 & -> & F3 & V3); [lia | lia | apply Hv |]. pose proof (proj1 F3).
    destruct (put_at_frame (E:=error) NativeEndian 2 b3 (l_thresholdsSwitchoverOff l) (tv_switchover v))
      as (b & -> & F & V); [lia | lia |]. pose proof (proj1 F).
    exists b. split; [done |]. split; [lia |]. rewrite !get2_ok by lia. next.
    change (Z.of_nat 2) with 2 in *.
    rewrite <- (proj2 F3 (l_thresholdsMaxRetransOff l) 2) in V2 by lia.
    rewrite <- (proj2 F (l_thresholdsMaxRetransOff l) 2) in V2 by lia.
    rewrite <- (proj2 F (l_thresholdsPFOff l) 2) in V3 by lia.
    rewrite V2, V3, V, Z.mod_small by apply Hv. by destruct v.
Qed.

(** The layout probe: a choice once made is kept and needs no second
    probe, only an answer (success or EINVAL) is ever recorded, so another
    error leaves the next call to ask again; and a 64-bit build has one
    layout, whatever the answer. *)
Theorem selectStorageLayout_spec cache probe :
  let '(cache', r) := selectStorageLayout cache probe in
  (cache <> storageLayoutUnknown -> cache' = cache /\ safe r /\ exists l, r = Ret l /\ is_layout l) /\
  (forall e, r = Err e -> cache' = storageLayoutUnknown /\ probe = Some e /\
             errors_Is e (Errno EINVAL) = false) /\
  (forall l probe', r = Ret l -> selectStorageLayout cache' probe' = (cache', Ret l)) /\
  (wordSize = 8 -> forall l, r = Ret l -> l = nativeStorageLayout).
Proof.
  assert (H64 : wordSize = 8 -> kernel64StorageLayout = nativeStorageLayout)
    by (intros; arch_cases A; reflexivity).
  unfold is_layout. destruct cache; simpl.
  - destruct probe as [e |]; simpl.
    + destruct (errors_Is e (Errno EINVAL)) eqn:He; simpl; naive_solver.
    + naive_solver.
  - naive_solver.
  - naive_solver.
Qed.
End Storage.

Lemma storage_roundtrip_witness :
  exists b, @pathThresholds i386 (@kernel64StorageLayout) (zeros 160) 3 []
    {| tv_maxRetrans := 5; tv_pf := 2; tv_switchover := 65535 |} = Ret b /\
  @read_thresholdValues i386 kernel64StorageLayout b =
    Ret {| tv_maxRetrans := 5; tv_pf := 2; tv_switchover := 65535 |}.
Proof.
  destruct (@storage_roundtrip i386 i386_ok (@kernel64StorageLayout) (zeros 160) 3 [] 9899 0
    {| tv_maxRetrans := 5; tv_pf := 2; tv_switchover := 65535 |}) as (_ & _ & b & Hb & _ & Hr).
  - by right.
  - unfold is_u16. lia.
  - unfold is_u32. lia.
  - unfold is_u16. simpl. lia.
  - vm_compute. repeat split; discriminate.
  - exists b. split; [exact Hb | exact Hr].
Defined.

Lemma selectStorageLayout_spec_witness :
  snd (@selectStorageLayout amd64 storageLayoutUnknown (Some (Plain (Errno EINVAL)))) =
  Ret (@nativeStorageLayout amd64).
Proof.
  pose proof (@selectStorageLayout_spec amd64 amd64_ok storageLayoutUnknown
    (Some (Plain (Errno EINVAL)))) as H. simpl in H.
  destruct H as (_ & _ & _ & H).
  exact (f_equal (@Ret error _) (H eq_refl kernel64StorageLayout eq_refl)).
Defined.
