(* ===== verification/MsgInfo.v ===== *)
(** * Message metadata (src/msginfo.go)

    The per-message send and receive metadata, the checks of a send that
    need no socket, and the codec of the ancillary data that carries it.

    The theorems compare the codec with [Cmsg], a control message as an
    abstract record: appendSendCmsgs writes exactly the encoding of the
    records asked for, whatever the reused buffer held, and parseRecvCmsgs
    returns what the records of any buffer say, read as the kernel's own
    walk reads them, for every target and byte order, without panicking. *)
From Stdlib Require Import ZArith Lia Bool.
From stdpp Require Import base list option strings.
From coqutil Require Import Byte.
From S2P Require Import Prelude Abi Errors Enums Netip Options.

(** ** Data *)
Record SndInfo := { snd_Stream : Z; snd_Flags : Z; snd_PPID : Z; snd_Context : Z }.

Record SendOptions := {
  so_Info : option SndInfo;
  so_PR : option PrInfo;
  so_AuthKey : option Z;
  so_Path : Addr;
  so_More : bool;
  so_NoWait : bool;
}.

Record RcvInfo := {
  rcv_Stream : Z; rcv_SSN : Z; rcv_Unordered : bool; rcv_PPID : Z;
  rcv_TSN : Z; rcv_CumTSN : Z; rcv_Context : Z; rcv_AssocID : Z }.

Record NxtInfo := {
  nxt_Stream : Z; nxt_Unordered : bool; nxt_Notification : bool; nxt_PPID : Z;
  nxt_Length : Z; nxt_AssocID : Z }.

Record MsgInfo := {
  mi_EOR : bool;
  mi_Notification : bool;
  mi_Rcv : RcvInfo;
  mi_Nxt : NxtInfo;
  mi_HasNxt : bool;
}.

Definition zeroRcvInfo : RcvInfo := {|
  rcv_Stream := 0; rcv_SSN := 0; rcv_Unordered := false; rcv_PPID := 0;
  rcv_TSN := 0; rcv_CumTSN := 0; rcv_Context := 0; rcv_AssocID := 0 |}.

Definition zeroNxtInfo : NxtInfo := {|
  nxt_Stream := 0; nxt_Unordered := false; nxt_Notification := false; nxt_PPID := 0;
  nxt_Length := 0; nxt_AssocID := 0 |}.

(** ** Validation *)
Definition validateSendOptions (opts : SendOptions) : option error :=
  match (match so_Info opts with
         | Some info =>
             if negb (andnot (snd_Flags info) (Z.lor SendUnordered SendSACKImmediately) =? 0)
             then Some (invalidArg "SendOptions.Info.Flags %#04x sets bits outside SendUnordered|SendSACKImmediately")
             else None
         | None => None
         end) with
  | Some e => Some e
  | None =>
      match so_PR opts with
      | Some pr => validatePrInfo "SendOptions.PR" pr
      | None => None
      end
  end.

Definition validateDefaultSndInfo (field : string) (info : SndInfo) : option error :=
  if negb (andnot (snd_Flags info) SendUnordered =? 0)
  then Some (invalidArg (field +:+ ".Flags %#04x sets bits outside SendUnordered, the only flag a default may hold"))
  else None.

Definition splitDefaultFlags (raw : Z) : Z * Z :=
  (Z.land raw sndFlagUnordered, Z.land raw prPolicyMask).

Section Codec.
Context `{A : Arch}.

(** ** Control message headers *)
Definition cmsgAlign (n : Z) : Z := andnot (n + wordSize - 1) (wordSize - 1).
Definition cmsgSpace (n : Z) : Z := sizeCmsghdr + cmsgAlign n.
Definition cmsgLen (n : Z) : Z := sizeCmsghdr + n.

Definition sndCmsgSpace : Z :=
  sizeCmsghdr + andnot (sizeSndInfo + wordSize - 1) (wordSize - 1) +
  (sizeCmsghdr + andnot (sizePrInfo + wordSize - 1) (wordSize - 1)) +
  (sizeCmsghdr + andnot (sizeAuthInfo + wordSize - 1) (wordSize - 1)).

Definition rcvCmsgSpace : Z :=
  sizeCmsghdr + andnot (sizeRcvInfo + wordSize - 1) (wordSize - 1) +
  (sizeCmsghdr + andnot (sizeNxtInfo + wordSize - 1) (wordSize - 1)).

Definition readWord (b : bytes) : out error Z :=
  if wordSize =? 8 then get NativeEndian 8 b else get NativeEndian 4 b.

(** [putWord(dst[off:], v)] *)
Definition putWord (dst : bytes) (off v : Z) : out error bytes :=
  if wordSize =? 8 then put_at NativeEndian 8 dst off v
  else put_at NativeEndian 4 dst off (u32 v).

Definition putCmsgHeader (dst : bytes) (off n typ : Z) : out error bytes :=
  dst ← putWord dst (off + cmsghdrLenOff) (cmsgLen n);
  dst ← put_at NativeEndian 4 dst (off + cmsghdrLevelOff) (u32 ipprotoSCTP);
  put_at NativeEndian 4 dst (off + cmsghdrTypeOff) (u32 typ).

(** ** Sending

    The three records of appendSendCmsgs, each written at [off], with the
    offset after it. *)
Definition put_snd (dst : bytes) (off : Z) (snd : option SndInfo) (assoc : Z) : out error (bytes * Z) :=
  match snd with
  | None => Ret (dst, off)
  | Some s =>
      dst ← putCmsgHeader dst off sizeSndInfo cmsgSndInfo;
      let p := off + sizeCmsghdr in
      dst ← put_at NativeEndian 2 dst (p + sndInfoStreamOff) (snd_Stream s);
      dst ← put_at NativeEndian 2 dst (p + sndInfoFlagsOff) (snd_Flags s);
      dst ← put_at BigEndian 4 dst (p + sndInfoPPIDOff) (snd_PPID s);
      dst ← put_at NativeEndian 4 dst (p + sndInfoContextOff) (snd_Context s);
      dst ← put_at NativeEndian 4 dst (p + sndInfoAssocIDOff) (u32 assoc);
      Ret (dst, off + cmsgSpace sizeSndInfo)
  end.

Definition put_pr (dst : bytes) (off : Z) (pr : option PrInfo) : out error (bytes * Z) :=
  match pr with
  | None => Ret (dst, off)
  | Some pr =>
      dst ← putCmsgHeader dst off sizePrInfo cmsgPrInfo;
      let p := off + sizeCmsghdr in
      let '(policy, value) := resolvePrInfo pr in
      dst ← put_at NativeEndian 2 dst (p + prInfoPolicyOff) policy;
      dst ← put_at NativeEndian 4 dst (p + prInfoValueOff) value;
      Ret (dst, off + cmsgSpace sizePrInfo)
  end.

Definition put_key (dst : bytes) (off : Z) (key : option Z) : out error (bytes * Z) :=
  match key with
  | None => Ret (dst, off)
  | Some k =>
      dst ← putCmsgHeader dst off sizeAuthInfo cmsgAuthInfo;
      let p := off + sizeCmsghdr in
      dst ← put_at NativeEndian 2 dst (p + authInfoKeyNumberOff) k;
      Ret (dst, off + cmsgSpace sizeAuthInfo)
  end.

Definition space_if {T} (record : option T) (n : Z) : Z :=
  match record with Some _ => cmsgSpace n | None => 0 end.

(** [dlen] is len(dst) and [dst] the bytes of dst[:cap(dst)]; the result is
    those bytes as written and the number used. *)
Definition appendSendCmsgs (dlen : Z) (dst : bytes) (snd : option SndInfo) (assoc : Z)
    (pr : option PrInfo) (key : option Z) : out error (bytes * Z) :=
  if negb (dlen =? 0) then Panic else
  let total := space_if snd sizeSndInfo + space_if pr sizePrInfo + space_if key sizeAuthInfo in
  dst ← clear_at dst 0 total;
  '(dst, off) ← put_snd dst 0 snd assoc;
  '(dst, off) ← put_pr dst off pr;
  put_key dst off key.

(** ** Receiving *)
Definition decodeRcvInfo (b : bytes) : out error RcvInfo :=
  stream ← get_at NativeEndian 2 b rcvInfoStreamOff;
  ssn ← get_at NativeEndian 2 b rcvInfoSSNOff;
  flags ← get_at NativeEndian 2 b rcvInfoFlagsOff;
  ppid ← get_at BigEndian 4 b rcvInfoPPIDOff;
  tsn ← get_at NativeEndian 4 b rcvInfoTSNOff;
  cumtsn ← get_at NativeEndian 4 b rcvInfoCumTSNOff;
  context ← get_at NativeEndian 4 b rcvInfoContextOff;
  assoc ← get_at NativeEndian 4 b rcvInfoAssocIDOff;
  Ret {| rcv_Stream := stream; rcv_SSN := ssn;
         rcv_Unordered := has_bits flags sndFlagUnordered;
         rcv_PPID := ppid; rcv_TSN := tsn; rcv_CumTSN := cumtsn;
         rcv_Context := context; rcv_AssocID := i32 assoc |}.

Definition decodeNxtInfo (b : bytes) : out error NxtInfo :=
  flags ← get_at NativeEndian 2 b nxtInfoFlagsOff;
  stream ← get_at NativeEndian 2 b nxtInfoStreamOff;
  ppid ← get_at BigEndian 4 b nxtInfoPPIDOff;
  length ← get_at NativeEndian 4 b nxtInfoLengthOff;
  assoc ← get_at NativeEndian 4 b nxtInfoAssocIDOff;
  Ret {| nxt_Stream := stream;
         nxt_Unordered := has_bits flags sndFlagUnordered;
         nxt_Notification := has_bits flags msgNotification;
         nxt_PPID := ppid; nxt_Length := length; nxt_AssocID := i32 assoc |}.

Definition set_Rcv (info : MsgInfo) (r : RcvInfo) : MsgInfo :=
  {| mi_EOR := mi_EOR info; mi_Notification := mi_Notification info; mi_Rcv := r;
     mi_Nxt := mi_Nxt info; mi_HasNxt := mi_HasNxt info |}.

Definition set_Nxt (info : MsgInfo) (n : NxtInfo) : MsgInfo :=
  {| mi_EOR := mi_EOR info; mi_Notification := mi_Notification info; mi_Rcv := mi_Rcv info;
     mi_Nxt := n; mi_HasNxt := true |}.

(** The body of the walk for one record. *)
Definition take_record (level typ : Z) (payload : bytes) (info : MsgInfo) : out error MsgInfo :=
  if level =? ipprotoSCTP then
    if typ =? cmsgRcvInfo then
      if negb (mi_Notification info) && (sizeRcvInfo <=? len payload)
      then r ← decodeRcvInfo payload; Ret (set_Rcv info r) else Ret info
    else if typ =? cmsgNxtInfo then
      if sizeNxtInfo <=? len payload
      then n ← decodeNxtInfo payload; Ret (set_Nxt info n) else Ret info
    else Ret info
  else Ret info.

(** The loop of parseRecvCmsgs.  Each turn drops at least a header, so
    [len oob] turns are enough; running out of fuel would be a panic, which
    [parseRecvCmsgs_spec] excludes. *)
Fixpoint recv_loop (fuel : nat) (oob : bytes) (info : MsgInfo) : out error MsgInfo :=
  match fuel with
  | O => Panic
  | S fuel =>
      if len oob <? sizeCmsghdr then Ret info else
      length ← readWord oob;
      if (length <? sizeCmsghdr) || (len oob <? length) then Ret info else
      level ← get_at NativeEndian 4 oob cmsghdrLevelOff;
      typ ← get_at NativeEndian 4 oob cmsghdrTypeOff;
      payload ← slice oob sizeCmsghdr length;
      info ← take_record (i32 level) (i32 typ) payload info;
      let adv := cmsgAlign length in
      if len oob <? adv then Ret info else
      oob ← slice_from oob adv;
      recv_loop fuel oob info
  end.

(** parseRecvCmsgs fills info whatever it returns: the result is info and
    the error. *)
Definition parseRecvCmsgs (oob : bytes) (flags : Z) : out error (MsgInfo * option error) :=
  let info := {| mi_EOR := has_bits flags msgEOR;
                 mi_Notification := has_bits flags msgNotification;
                 mi_Rcv := zeroRcvInfo; mi_Nxt := zeroNxtInfo; mi_HasNxt := false |} in
  info ← recv_loop (S (length oob)) oob info;
  Ret (info, if has_bits flags msgCtrunc then Some (Plain ErrControlTruncated) else None).
End Codec.

(** ** Control messages as records *)
Record Cmsg := { cm_level : Z; cm_type : Z; cm_payload : bytes }.

Section Spec.
Context `{A : Arch}.

Definition word (v : Z) : bytes := bytes_of NativeEndian (Z.to_nat wordSize) v.

Definition cmsg_header (n level typ : Z) : bytes :=
  word (cmsgLen n) ++ bytes_of NativeEndian 4 level ++ bytes_of NativeEndian 4 typ.

(** A control message as it lies in a control buffer: cmsg_len, level and
    type, the payload, and zeros up to the next word. *)
Definition cmsg_bytes (m : Cmsg) : bytes :=
  cmsg_header (len (cm_payload m)) (cm_level m) (cm_type m) ++ cm_payload m ++
  zeros (cmsgAlign (len (cm_payload m)) - len (cm_payload m)).

(** CMSG_FIRSTHDR and CMSG_NXTHDR over a whole buffer: the records up to
    the first header that does not fit. *)
Fixpoint cmsg_walk (fuel : nat) (oob : bytes) : list Cmsg :=
  match fuel with
  | O => []
  | S fuel =>
      let length := uint_of NativeEndian (sub oob 0 wordSize) in
      if (len oob <? sizeCmsghdr) || (length <? sizeCmsghdr) || (len oob <? length) then []
      else {| cm_level := i32 (uint_of NativeEndian (sub oob cmsghdrLevelOff 4));
              cm_type := i32 (uint_of NativeEndian (sub oob cmsghdrTypeOff 4));
              cm_payload := sub oob sizeCmsghdr (length - sizeCmsghdr) |}
           :: cmsg_walk fuel (drop (Z.to_nat (cmsgAlign length)) oob)
  end.

Definition cmsgs (oob : bytes) : list Cmsg := cmsg_walk (length oob) oob.

(** The structs the kernel attaches, as their bytes say. *)
Definition rcvinfo_of (b : bytes) : RcvInfo := {|
  rcv_Stream := uint_of NativeEndian (sub b rcvInfoStreamOff 2);
  rcv_SSN := uint_of NativeEndian (sub b rcvInfoSSNOff 2);
  rcv_Unordered := has_bits (uint_of NativeEndian (sub b rcvInfoFlagsOff 2)) sndFlagUnordered;
  rcv_PPID := uint_of BigEndian (sub b rcvInfoPPIDOff 4);
  rcv_TSN := uint_of NativeEndian (sub b rcvInfoTSNOff 4);
  rcv_CumTSN := uint_of NativeEndian (sub b rcvInfoCumTSNOff 4);
  rcv_Context := uint_of NativeEndian (sub b rcvInfoContextOff 4);
  rcv_AssocID := i32 (uint_of NativeEndian (sub b rcvInfoAssocIDOff 4)) |}.

Definition nxtinfo_of (b : bytes) : NxtInfo := {|
  nxt_Stream := uint_of NativeEndian (sub b nxtInfoStreamOff 2);
  nxt_Unordered := has_bits (uint_of NativeEndian (sub b nxtInfoFlagsOff 2)) sndFlagUnordered;
  nxt_Notification := has_bits (uint_of NativeEndian (sub b nxtInfoFlagsOff 2)) msgNotification;
  nxt_PPID := uint_of BigEndian (sub b nxtInfoPPIDOff 4);
  nxt_Length := uint_of NativeEndian (sub b nxtInfoLengthOff 4);
  nxt_AssocID := i32 (uint_of NativeEndian (sub b nxtInfoAssocIDOff 4)) |}.

(** What one record says about a message: a whole SCTP_RCVINFO of a data
    message and a whole SCTP_NXTINFO are kept, anything else is skipped. *)
Definition absorb (info : MsgInfo) (m : Cmsg) : MsgInfo :=
  if negb (cm_level m =? ipprotoSCTP) then info
  else if (cm_type m =? cmsgRcvInfo) && negb (mi_Notification info) && (sizeRcvInfo <=? len (cm_payload m))
  then set_Rcv info (rcvinfo_of (cm_payload m))
  else if (cm_type m =? cmsgNxtInfo) && (sizeNxtInfo <=? len (cm_payload m))
  then set_Nxt info (nxtinfo_of (cm_payload m))
  else info.

Definition init_info (flags : Z) : MsgInfo := {|
  mi_EOR := has_bits flags msgEOR; mi_Notification := has_bits flags msgNotification;
  mi_Rcv := zeroRcvInfo; mi_Nxt := zeroNxtInfo; mi_HasNxt := false |}.

(** The records of one send. *)
Definition snd_record (assoc : Z) (s : SndInfo) : Cmsg := {|
  cm_level := ipprotoSCTP; cm_type := cmsgSndInfo;
  cm_payload := bytes_of NativeEndian 2 (snd_Stream s) ++ bytes_of NativeEndian 2 (snd_Flags s) ++
                bytes_of BigEndian 4 (snd_PPID s) ++ bytes_of NativeEndian 4 (snd_Context s) ++
                bytes_of NativeEndian 4 (u32 assoc) |}.

Definition pr_record (pr : PrInfo) : Cmsg := {|
  cm_level := ipprotoSCTP; cm_type := cmsgPrInfo;
  cm_payload := bytes_of NativeEndian 2 (fst (resolvePrInfo pr)) ++ zeros 2 ++
                bytes_of NativeEndian 4 (snd (resolvePrInfo pr)) |}.

Definition key_record (k : Z) : Cmsg := {|
  cm_level := ipprotoSCTP; cm_type := cmsgAuthInfo; cm_payload := bytes_of NativeEndian 2 k |}.

Definition opt_list {T} (o : option T) : list T := match o with Some x => [x] | None => [] end.

Definition send_records (snd : option SndInfo) (assoc : Z) (pr : option PrInfo) (key : option Z)
    : list Cmsg :=
  opt_list (snd_record assoc <$> snd) ++ opt_list (pr_record <$> pr) ++ opt_list (key_record <$> key).
End Spec.

(** ** Lemmas *)
Section Lemmas.
Context `{A : Arch} `{Aok : !ArchOk A}.

Lemma cmsgAlign_div n : cmsgAlign n = (n + wordSize - 1) / wordSize * wordSize.
Proof.
  unfold cmsgAlign, andnot. destruct wordSize_cases as [-> | ->].
  - change (4 - 1) with (Z.ones 2). rewrite Z.ldiff_ones_r, Z.shiftr_div_pow2, Z.shiftl_mul_pow2 by lia. done.
  - change (8 - 1) with (Z.ones 3). rewrite Z.ldiff_ones_r, Z.shiftr_div_pow2, Z.shiftl_mul_pow2 by lia. done.
Qed.

Lemma cmsgAlign_bounds n : n <= cmsgAlign n < n + wordSize.
Proof.
  rewrite cmsgAlign_div. destruct wordSize_cases as [-> | ->];
    Z.to_euclidean_division_equations; lia.
Qed.

Lemma cmsgAlign_header n : cmsgAlign (sizeCmsghdr + n) = sizeCmsghdr + cmsgAlign n.
Proof.
  rewrite !cmsgAlign_div. unfold sizeCmsghdr. destruct wordSize_cases as [-> | ->].
  - replace (4 + 8 + n + 4 - 1) with (n + 4 - 1 + 3 * 4) by lia. rewrite Z.div_add by lia. lia.
  - replace (8 + 8 + n + 8 - 1) with (n + 8 - 1 + 2 * 8) by lia. rewrite Z.div_add by lia. lia.
Qed.

Lemma len_word v : len (word v) = wordSize.
Proof. unfold word. rewrite len_bytes_of. destruct wordSize_cases as [-> | ->]; done. Qed.

Lemma len_cmsg_header n level typ : len (cmsg_header n level typ) = sizeCmsghdr.
Proof. unfold cmsg_header, sizeCmsghdr. rewrite !len_app, len_word, !len_bytes_of. lia. Qed.

Lemma len_cmsg_bytes m : len (cmsg_bytes m) = cmsgSpace (len (cm_payload m)).
Proof.
  unfold cmsg_bytes, cmsgSpace. rewrite !len_app, len_cmsg_header.
  pose proof (cmsgAlign_bounds (len (cm_payload m))). rewrite len_zeros; lia.
Qed.

Lemma readWord_ok b : wordSize <= len b -> readWord b = Ret (uint_of NativeEndian (sub b 0 wordSize)).
Proof.
  unfold readWord. destruct wordSize_cases as [-> | ->]; intros; simpl.
  - by rewrite get_ok.
  - by rewrite get_ok.
Qed.

Lemma putWord_zeros (l r : bytes) off k v :
  off = len l -> wordSize <= k -> 0 <= v < 2 ^ 32 ->
  putWord (l ++ zeros k ++ r) off v = Ret ((l ++ word v) ++ zeros (k - wordSize) ++ r).
Proof.
  unfold putWord, word. intros Ho Hk Hv. destruct wordSize_cases as [E | E]; rewrite E in *; simpl.
  - rewrite u32_small by done. by rewrite put_at_zeros.
  - by rewrite put_at_zeros.
Qed.

Lemma putCmsgHeader_zeros (l r : bytes) off k n typ :
  off = len l -> sizeCmsghdr <= k -> 0 <= n < 2 ^ 31 -> is_u32 typ ->
  putCmsgHeader (l ++ zeros k ++ r) off n typ =
  Ret ((l ++ cmsg_header n ipprotoSCTP typ) ++ zeros (k - sizeCmsghdr) ++ r).
Proof.
  intros -> Hk Hn Ht. unfold putCmsgHeader, cmsg_header, cmsgLen.
  assert (Hh : sizeCmsghdr = wordSize + 8) by done.
  assert (Hw : wordSize = 4 \/ wordSize = 8) by apply wordSize_cases.
  change cmsghdrLenOff with 0. change cmsghdrLevelOff with wordSize.
  change cmsghdrTypeOff with (wordSize + 4). change (u32 ipprotoSCTP) with ipprotoSCTP.
  rewrite (u32_small typ) by done.
  rewrite putWord_zeros by lia. next.
  rewrite put_at_zeros by (rewrite ?len_app, ?len_word; lia). next.
  rewrite put_at_zeros by (rewrite ?len_app, ?len_word, ?len_bytes_of; lia).
  rewrite <- !app_assoc. do 7 f_equal. lia.
Qed.

(** ** The send side *)
Lemma zeros_cast a b : a = b -> zeros a = zeros b.
Proof. by intros ->. Qed.

Lemma put_snd_zeros (l r : bytes) s assoc :
  put_snd (l ++ zeros (cmsgSpace sizeSndInfo) ++ r) (len l) (Some s) assoc =
  Ret ((l ++ cmsg_bytes (snd_record assoc s)) ++ r, len l + cmsgSpace sizeSndInfo).
Proof.
  pose proof (cmsgAlign_bounds sizeSndInfo) as Hal. pose proof wordSize_cases.
  assert (Hsp : cmsgSpace sizeSndInfo = sizeCmsghdr + cmsgAlign sizeSndInfo) by done.
  assert (Hh : sizeCmsghdr = wordSize + 8) by done.
  unfold put_snd, cmsg_bytes, snd_record. cbn [cm_payload cm_level cm_type]. abi.
  rewrite putCmsgHeader_zeros by (unfold is_u32; abi; lia). next. abi.
  set (h := cmsg_header 16 132 2).
  assert (Hl : len h = wordSize + 8) by apply len_cmsg_header.
  rewrite put_at_zeros by solve_len. next. rewrite put_at_zeros by solve_len. next.
  rewrite put_at_zeros by solve_len. next. rewrite put_at_zeros by solve_len. next.
  rewrite put_at_zeros by solve_len. next.
  rewrite !len_app, !len_bytes_of. fold h. rewrite <- !app_assoc.
  rewrite (zeros_cast (_ - _) (cmsgAlign 16 - 16)) by lia. done.
Qed.

Lemma put_pr_zeros (l r : bytes) pr :
  put_pr (l ++ zeros (cmsgSpace sizePrInfo) ++ r) (len l) (Some pr) =
  Ret ((l ++ cmsg_bytes (pr_record pr)) ++ r, len l + cmsgSpace sizePrInfo).
Proof.
  pose proof (cmsgAlign_bounds sizePrInfo) as Hal. pose proof wordSize_cases.
  assert (Hsp : cmsgSpace sizePrInfo = sizeCmsghdr + cmsgAlign sizePrInfo) by done.
  unfold put_pr, cmsg_bytes, pr_record. cbn [cm_payload cm_level cm_type]. abi.
  rewrite putCmsgHeader_zeros by (unfold is_u32; abi; lia). next. abi.
  set (h := cmsg_header 8 132 5).
  assert (Hl : len h = wordSize + 8) by apply len_cmsg_header.
  destruct (resolvePrInfo pr) as [policy value]. cbn [fst snd].
  rewrite put_at_zeros by solve_len. next.
  rewrite (zeros_cast (_ - _ - _) (2 + (cmsgAlign 8 - 4))) by lia.
  rewrite zeros_add by lia. rewrite <- (app_assoc (zeros 2)).
  rewrite (app_assoc _ (zeros 2) (zeros (cmsgAlign 8 - 4) ++ r)).
  rewrite put_at_zeros by solve_len. next.
  rewrite !len_app, !len_bytes_of, len_zeros by lia. fold h. rewrite <- !app_assoc.
  rewrite (zeros_cast (_ - _) (cmsgAlign 8 - 8)) by lia. done.
Qed.

Lemma put_key_zeros (l r : bytes) k :
  put_key (l ++ zeros (cmsgSpace sizeAuthInfo) ++ r) (len l) (Some k) =
  Ret ((l ++ cmsg_bytes (key_record k)) ++ r, len l + cmsgSpace sizeAuthInfo).
Proof.
  pose proof (cmsgAlign_bounds sizeAuthInfo) as Hal. pose proof wordSize_cases.
  assert (Hsp : cmsgSpace sizeAuthInfo = sizeCmsghdr + cmsgAlign sizeAuthInfo) by done.
  unfold put_key, cmsg_bytes, key_record. cbn [cm_payload cm_level cm_type]. abi.
  rewrite putCmsgHeader_zeros by (unfold is_u32; abi; lia). next. abi.
  set (h := cmsg_header 2 132 6).
  assert (Hl : len h = wordSize + 8) by apply len_cmsg_header.
  rewrite put_at_zeros by solve_len. next.
  rewrite !len_bytes_of. fold h. rewrite <- !app_assoc.
  rewrite (zeros_cast (_ - _) (cmsgAlign 2 - 2)) by lia. done.
Qed.

Lemma space_if_nonneg {T} (o : option T) n : 0 <= n -> 0 <= space_if o n.
Proof.
  intros. pose proof (cmsgAlign_bounds n). pose proof wordSize_cases.
  destruct o; simpl; [| lia]. unfold cmsgSpace. abi. lia.
Qed.

(** ** The receive side *)
Lemma decodeRcvInfo_ok b : sizeRcvInfo <= len b -> decodeRcvInfo b = Ret (rcvinfo_of b).
Proof.
  intros Hl. unfold decodeRcvInfo, rcvinfo_of.
  rewrite !get2_ok, !get4_ok by (abi; lia). reflexivity.
Qed.

Lemma decodeNxtInfo_ok b : sizeNxtInfo <= len b -> decodeNxtInfo b = Ret (nxtinfo_of b).
Proof.
  intros Hl. unfold decodeNxtInfo, nxtinfo_of.
  rewrite !get2_ok, !get4_ok by (abi; lia). reflexivity.
Qed.

Lemma take_record_ok level typ payload info :
  take_record level typ payload info =
  Ret (absorb info {| cm_level := level; cm_type := typ; cm_payload := payload |}).
Proof.
  unfold take_record, absorb. cbn [cm_level cm_type cm_payload].
  destruct (level =? ipprotoSCTP); simpl; [| done].
  destruct (Z.eqb_spec typ cmsgRcvInfo) as [-> |]; simpl.
  - destruct (mi_Notification info); simpl; [done |].
    destruct (Z.leb_spec sizeRcvInfo (len payload)); [| done]. by rewrite decodeRcvInfo_ok.
  - destruct (typ =? cmsgNxtInfo); simpl; [| done].
    destruct (Z.leb_spec sizeNxtInfo (len payload)); [| done]. by rewrite decodeNxtInfo_ok.
Qed.

Lemma cmsg_walk_short fuel oob : len oob < sizeCmsghdr -> cmsg_walk fuel oob = [].
Proof. intros. destruct fuel; simpl; [done |]. rewrite (proj2 (Z.ltb_lt _ _)); done. Qed.

Lemma sub_head {B} (b : list B) n : sub b 0 n = take (Z.to_nat n) b.
Proof. unfold sub. by rewrite drop_0. Qed.

(** The loop reads the records of the buffer, one after the other; any
    fuel above the buffer's length is enough. *)
Lemma recv_loop_ok fuel oob info :
  (length oob < fuel)%nat ->
  recv_loop fuel oob info = Ret (foldl absorb info (cmsg_walk fuel oob)).
Proof.
  revert oob info. induction fuel as [| fuel IH]; intros oob info Hf; [lia |].
  pose proof wordSize_cases. assert (Hh : sizeCmsghdr = wordSize + 8) by done.
  cbn [recv_loop cmsg_walk].
  destruct (Z.ltb_spec (len oob) sizeCmsghdr) as [| Hl]; [done |].
  rewrite readWord_ok by lia. next. set (n := uint_of NativeEndian (sub oob 0 wordSize)).
  destruct (Z.ltb_spec n sizeCmsghdr), (Z.ltb_spec (len oob) n); simpl; try done.
  change cmsghdrLevelOff with wordSize. change cmsghdrTypeOff with (wordSize + 4).
  rewrite !get4_ok by lia. next. rewrite slice_ok by lia. next.
  rewrite take_record_ok. next. pose proof (cmsgAlign_bounds n).
  destruct (Z.ltb_spec (len oob) (cmsgAlign n)).
  - rewrite drop_ge by (unfold len in *; lia).
    rewrite cmsg_walk_short; [done |]. change (len (@nil byte)) with 0. lia.
  - unfold slice_from. rewrite slice_ok by lia. next.
    rewrite (proj1 (conj (IH _ _) I)).
    + do 3 f_equal. unfold sub. rewrite take_ge; [done |].
      rewrite length_drop. unfold len. lia.
    + unfold sub. rewrite length_take, length_drop. unfold len in *. lia.
Qed.

Lemma cmsg_walk_fuel fuel : forall oob,
  (length oob <= fuel)%nat -> cmsg_walk fuel oob = cmsgs oob.
Proof.
  unfold cmsgs. induction fuel as [fuel IH] using lt_wf_ind. intros oob Hf.
  pose proof wordSize_cases. assert (Hh : sizeCmsghdr = wordSize + 8) by done.
  destruct (Z.ltb_spec (len oob) sizeCmsghdr) as [| Hl]; [by rewrite !cmsg_walk_short |].
  destruct fuel as [| fuel]; [unfold len in *; lia |].
  destruct (length oob) as [| k] eqn:Hk; [unfold len in *; lia |].
  cbn [cmsg_walk]. rewrite (proj2 (Z.ltb_ge _ _)) by done. simpl.
  set (n := uint_of NativeEndian (sub oob 0 wordSize)).
  destruct (Z.ltb_spec n sizeCmsghdr), (Z.ltb_spec (len oob) n); simpl; try done.
  f_equal. pose proof (cmsgAlign_bounds n).
  assert (Hd : (length (drop (Z.to_nat (cmsgAlign n)) oob) <= k)%nat) by (rewrite length_drop; lia).
  rewrite IH by lia. destruct (decide (k < S fuel)%nat) as [Hlt |]; [| lia].
  symmetry. apply IH; lia.
Qed.

(** A well-formed record at the head of a buffer. *)
Definition cmsg_wf (m : Cmsg) : Prop :=
  is_i32 (cm_level m) /\ is_i32 (cm_type m) /\ len (cm_payload m) < 2 ^ 30.

Lemma uint_word v : 0 <= v < 2 ^ 32 -> uint_of NativeEndian (word v) = v.
Proof.
  intros Hv. unfold word. rewrite uint_of_bytes_of. apply Z.mod_small.
  destruct wordSize_cases as [-> | ->]; [exact Hv |].
  change (0 <= v < 2 ^ 64). lia.
Qed.

Lemma cmsgs_cons m rest : cmsg_wf m -> cmsgs (cmsg_bytes m ++ rest) = m :: cmsgs rest.
Proof.
  intros (Hlv & Hty & Hn). pose proof wordSize_cases.
  assert (Hh : sizeCmsghdr = wordSize + 8) by done.
  pose proof (len_nonneg (cm_payload m)). pose proof (len_nonneg rest).
  pose proof (cmsgAlign_bounds (len (cm_payload m))).
  pose proof (len_cmsg_bytes m) as Hb. unfold cmsgSpace in Hb.
  unfold cmsgs at 1. destruct (length (cmsg_bytes m ++ rest)) as [| k] eqn:Hk.
  { apply (f_equal Z.of_nat) in Hk. rewrite of_nat_length, len_app in Hk. lia. }
  assert (Hkz : Z.of_nat (S k) = len (cmsg_bytes m) + len rest) by (rewrite <- Hk, of_nat_length, len_app; done).
  cbn [cmsg_walk]. rewrite len_app, Hb.
  assert (Hw : uint_of NativeEndian (sub (cmsg_bytes m ++ rest) 0 wordSize) = cmsgLen (len (cm_payload m))).
  { unfold cmsg_bytes, cmsg_header. rewrite <- !app_assoc.
    rewrite sub_app_l, sub_whole by (rewrite ?len_word; lia). apply uint_word. unfold cmsgLen. lia. }
  rewrite Hw. unfold cmsgLen.
  rewrite !(proj2 (Z.ltb_ge _ _)) by lia. simpl. rewrite cmsgAlign_header. f_equal.
  - change cmsghdrLevelOff with wordSize. change cmsghdrTypeOff with (wordSize + 4).
    unfold cmsg_bytes, cmsg_header. rewrite <- !app_assoc.
    rewrite (sub_app_r (word _)) by (rewrite len_word; lia). rewrite len_word.
    rewrite (sub_app_r (word _)) by (rewrite len_word; lia). rewrite len_word.
    rewrite (sub_app_r (word _)) by (rewrite len_word; lia). rewrite len_word.
    read_field. rewrite !uint_of_4. destruct m as [lv ty pl]; simpl in *.
    rewrite !i32_u32 by done. f_equal.
  - rewrite drop_app_ge by (unfold len in *; lia).
    replace (_ - _)%nat with 0%nat by (unfold len in *; lia). rewrite drop_0.
    apply cmsg_walk_fuel. unfold len in *. lia.
Qed.

Lemma cmsgs_concat ms : Forall cmsg_wf ms -> cmsgs (concat (map cmsg_bytes ms)) = ms.
Proof.
  induction 1 as [| m ms Hm _ IH]; simpl; [done |]. by rewrite cmsgs_cons, IH.
Qed.
End Lemmas.

(** ** Theorems *)
Section Theorems.
Context `{A : Arch} `{Aok : !ArchOk A}.

Lemma len_snd_bytes assoc s : len (cmsg_bytes (snd_record assoc s)) = cmsgSpace sizeSndInfo.
Proof. rewrite len_cmsg_bytes. f_equal. cbn [cm_payload snd_record pr_record]. abi. solve_len. Qed.

Lemma len_pr_bytes pr : len (cmsg_bytes (pr_record pr)) = cmsgSpace sizePrInfo.
Proof. rewrite len_cmsg_bytes. f_equal. cbn [cm_payload snd_record pr_record]. abi. solve_len. Qed.

Lemma len_key_bytes k : len (cmsg_bytes (key_record k)) = cmsgSpace sizeAuthInfo.
Proof. rewrite len_cmsg_bytes. f_equal. cbn [cm_payload key_record]. by rewrite len_bytes_of. Qed.

(** The three writes over a cleared area, one record after another. *)
Lemma put_records (r : bytes) snd assoc pr key :
  ('(dst, off) ← put_snd (zeros (space_if snd sizeSndInfo) ++ zeros (space_if pr sizePrInfo) ++
                          zeros (space_if key sizeAuthInfo) ++ r) 0 snd assoc;
   '(dst, off) ← put_pr dst off pr;
   put_key dst off key) =
  Ret (concat (map cmsg_bytes (send_records snd assoc pr key)) ++ r,
       len (concat (map cmsg_bytes (send_records snd assoc pr key)))).
Proof.
  unfold send_records. rewrite !map_app, !concat_app.
  set (bs := concat (map cmsg_bytes (opt_list (snd_record assoc <$> snd)))).
  set (bp := concat (map cmsg_bytes (opt_list (pr_record <$> pr)))).
  set (bk := concat (map cmsg_bytes (opt_list (key_record <$> key)))).
  set (r1 := zeros (space_if pr sizePrInfo) ++ zeros (space_if key sizeAuthInfo) ++ r).
  assert (H1 : put_snd (zeros (space_if snd sizeSndInfo) ++ r1) 0 snd assoc = Ret (bs ++ r1, len bs)).
  { unfold bs. destruct snd as [s |]; cbn [fmap option_fmap option_map opt_list map concat space_if];
      [| done]. rewrite app_nil_r, len_snd_bytes. exact (put_snd_zeros [] r1 s assoc). }
  rewrite H1. next. unfold r1.
  set (r2 := zeros (space_if key sizeAuthInfo) ++ r).
  assert (H2 : put_pr (bs ++ zeros (space_if pr sizePrInfo) ++ r2) (len bs) pr =
               Ret ((bs ++ bp) ++ r2, len (bs ++ bp))).
  { unfold bp. destruct pr as [p |]; cbn [fmap option_fmap option_map opt_list map concat space_if];
      [| by rewrite app_nil_r]. rewrite app_nil_r, len_app, len_pr_bytes. exact (put_pr_zeros bs r2 p). }
  rewrite H2. next. unfold r2.
  unfold bk. destruct key as [k |]; cbn [fmap option_fmap option_map opt_list map concat space_if];
    [| by rewrite !app_nil_r].
  rewrite app_nil_r, (app_assoc bs bp), (len_app (bs ++ bp)), len_key_bytes.
  exact (put_key_zeros (bs ++ bp) r k).
Qed.

Lemma space_if_len snd assoc pr key :
  len (concat (map cmsg_bytes (send_records snd assoc pr key))) =
  space_if snd sizeSndInfo + space_if pr sizePrInfo + space_if key sizeAuthInfo.
Proof.
  unfold send_records. rewrite !map_app, !concat_app, !len_app.
  destruct snd, pr, key; cbn [fmap option_fmap option_map opt_list map concat space_if];
    rewrite ?app_nil_r, ?len_snd_bytes, ?len_pr_bytes, ?len_key_bytes, ?(@len_nil byte); lia.
Qed.

Lemma appendSendCmsgs_writes dst snd assoc pr key (Hcap : sndCmsgSpace <= len dst) :
  let records := send_records snd assoc pr key in
  let n := len (concat (map cmsg_bytes records)) in
  appendSendCmsgs 0 dst snd assoc pr key =
    Ret (concat (map cmsg_bytes records) ++ drop (Z.to_nat n) dst, n) /\
  n <= sndCmsgSpace /\
  cmsgs (concat (map cmsg_bytes records)) = records.
Proof.
  cbv zeta. rewrite space_if_len.
  assert (Hs : forall T (o : option T) n, 0 <= n -> 0 <= space_if o n <= cmsgSpace n).
  { intros T o n Hn. pose proof (space_if_nonneg o n Hn). pose proof (space_if_nonneg (Some 0) n Hn).
    destruct o; simpl in *; lia. }
  pose proof (Hs _ snd sizeSndInfo ltac:(done)). pose proof (Hs _ pr sizePrInfo ltac:(done)).
  pose proof (Hs _ key sizeAuthInfo ltac:(done)).
  assert (Hsum : sndCmsgSpace = cmsgSpace sizeSndInfo + cmsgSpace sizePrInfo + cmsgSpace sizeAuthInfo)
    by (unfold sndCmsgSpace, cmsgSpace, cmsgAlign; lia).
  split; [| split; [lia |]].
  - unfold appendSendCmsgs. simpl. rewrite clear_at_ok by lia. next.
    rewrite (splice_at [] dst) by done. cbn [app]. rewrite Z.sub_0_r, !zeros_add by lia.
    rewrite !length_app. unfold zeros at 4 5 6. rewrite !length_replicate.
    rewrite <- !app_assoc, put_records, space_if_len. do 4 f_equal. lia.
  - apply cmsgs_concat. unfold send_records.
    assert (Hwf : forall p, cmsg_wf {| cm_level := ipprotoSCTP; cm_type := cmsgPrInfo; cm_payload := p |} <->
                            len p < 2 ^ 30).
    { intros p. unfold cmsg_wf, is_i32. simpl. abi. intuition lia. }
    rewrite !Forall_app. repeat split; destruct snd, pr, key; simpl; repeat constructor;
      unfold cmsg_wf, is_i32; simpl; abi; solve_len.
Qed.

(** C22 appendSendCmsgs writes exactly the control messages of the send:
    the records asked for, in order, each padded with zeros, at the start
    of the buffer, whatever bytes a previous send left there; it touches
    nothing past them, never panics on a buffer of sndCmsgSpace bytes, and
    a walk of the buffer by the kernel's rules finds exactly those records. *)
Theorem appendSendCmsgs_spec dst snd assoc pr key (Hcap : sndCmsgSpace <= len dst) :
  let records := send_records snd assoc pr key in
  let n := len (concat (map cmsg_bytes records)) in
  appendSendCmsgs 0 dst snd assoc pr key =
    Ret (concat (map cmsg_bytes records) ++ drop (Z.to_nat n) dst, n) /\
  n <= sndCmsgSpace /\
  cmsgs (concat (map cmsg_bytes records)) = records.
Proof. exact (appendSendCmsgs_writes dst snd assoc pr key Hcap). Qed.

(** [parseRecvCmsgs] computes the fold of [absorb] over the records. *)
Lemma parse_total oob flags :
  parseRecvCmsgs oob flags =
  Ret (foldl absorb (init_info flags) (cmsgs oob),
       if has_bits flags msgCtrunc then Some (Plain ErrControlTruncated) else None).
Proof.
  unfold parseRecvCmsgs. rewrite recv_loop_ok by lia. next.
  rewrite cmsg_walk_fuel by lia. done.
Qed.

(** C23 parseRecvCmsgs is total, and says what the control messages say: on
    any bytes, on every target, it reads the records the kernel's walk
    finds and nothing past them, keeps the last whole SCTP_RCVINFO of a
    data message and the last whole SCTP_NXTINFO, never fills Rcv for a
    notification, and reports ErrControlTruncated exactly when MSG_CTRUNC
    is set, with what was parsed still in place. *)
Theorem parseRecvCmsgs_spec oob flags :
  parseRecvCmsgs oob flags =
  Ret (foldl absorb (init_info flags) (cmsgs oob),
       if has_bits flags msgCtrunc then Some (Plain ErrControlTruncated) else None).
Proof. apply parse_total. Qed.

(** The kernel's structs for a message, laid out. *)
Definition rcvinfo_bytes (r : RcvInfo) : bytes :=
  bytes_of NativeEndian 2 (rcv_Stream r) ++ bytes_of NativeEndian 2 (rcv_SSN r) ++
  bytes_of NativeEndian 2 (if rcv_Unordered r then sndFlagUnordered else 0) ++ zeros 2 ++
  bytes_of BigEndian 4 (rcv_PPID r) ++ bytes_of NativeEndian 4 (rcv_TSN r) ++
  bytes_of NativeEndian 4 (rcv_CumTSN r) ++ bytes_of NativeEndian 4 (rcv_Context r) ++
  bytes_of NativeEndian 4 (rcv_AssocID r).

Definition nxtinfo_bytes (n : NxtInfo) : bytes :=
  bytes_of NativeEndian 2 (nxt_Stream n) ++
  bytes_of NativeEndian 2 (Z.lor (if nxt_Unordered n then sndFlagUnordered else 0)
                                 (if nxt_Notification n then msgNotification else 0)) ++
  bytes_of BigEndian 4 (nxt_PPID n) ++ bytes_of NativeEndian 4 (nxt_Length n) ++
  bytes_of NativeEndian 4 (nxt_AssocID n).

Definition rcv_wf (r : RcvInfo) : Prop :=
  is_u16 (rcv_Stream r) /\ is_u16 (rcv_SSN r) /\ is_u32 (rcv_PPID r) /\ is_u32 (rcv_TSN r) /\
  is_u32 (rcv_CumTSN r) /\ is_u32 (rcv_Context r) /\ is_i32 (rcv_AssocID r).

Definition nxt_wf (n : NxtInfo) : Prop :=
  is_u16 (nxt_Stream n) /\ is_u32 (nxt_PPID n) /\ is_u32 (nxt_Length n) /\ is_i32 (nxt_AssocID n).

Lemma rcvinfo_of_bytes r : rcv_wf r -> rcvinfo_of (rcvinfo_bytes r) = r.
Proof.
  intros (H1 & H2 & H3 & H4 & H5 & H6 & H7). unfold rcvinfo_of, rcvinfo_bytes. abi. read_field.
  rewrite !uint_of_2, !uint_of_4, !u16_small, !u32_small, i32_u32 by (try done; by destruct (rcv_Unordered r)).
  destruct r as [? ? [] ? ? ? ? ?]; done.
Qed.

Lemma nxtinfo_of_bytes n : nxt_wf n -> nxtinfo_of (nxtinfo_bytes n) = n.
Proof.
  intros (H1 & H2 & H3 & H4). unfold nxtinfo_of, nxtinfo_bytes. abi. read_field.
  rewrite !uint_of_2, !uint_of_4, !(u16_small (nxt_Stream n)), !u32_small, i32_u32 by done.
  destruct n as [? [] [] ? ? ?]; done.
Qed.

Definition rcv_record (r : RcvInfo) : Cmsg :=
  {| cm_level := ipprotoSCTP; cm_type := cmsgRcvInfo; cm_payload := rcvinfo_bytes r |}.
Definition nxt_record (n : NxtInfo) : Cmsg :=
  {| cm_level := ipprotoSCTP; cm_type := cmsgNxtInfo; cm_payload := nxtinfo_bytes n |}.

Lemma len_rcvinfo_bytes r : len (rcvinfo_bytes r) = sizeRcvInfo.
Proof. unfold rcvinfo_bytes. abi. solve_len. Qed.

Lemma len_nxtinfo_bytes n : len (nxtinfo_bytes n) = sizeNxtInfo.
Proof. unfold nxtinfo_bytes. abi. solve_len. Qed.

Lemma absorb_rcv info r :
  rcv_wf r -> mi_Notification info = false -> absorb info (rcv_record r) = set_Rcv info r.
Proof.
  intros Hr Hn. unfold absorb, rcv_record. cbn [cm_level cm_type cm_payload].
  rewrite len_rcvinfo_bytes, Hn, rcvinfo_of_bytes by done. done.
Qed.

Lemma absorb_nxt info n : nxt_wf n -> absorb info (nxt_record n) = set_Nxt info n.
Proof.
  intros Hn. unfold absorb, nxt_record. cbn [cm_level cm_type cm_payload].
  rewrite len_nxtinfo_bytes, nxtinfo_of_bytes by done. done.
Qed.

Lemma recv_records_wf r nxt :
  Forall cmsg_wf (opt_list (nxt_record <$> nxt) ++ [rcv_record r]).
Proof.
  apply Forall_app. split; [destruct nxt; simpl |]; repeat constructor;
    unfold cmsg_wf, is_i32; cbn [cm_level cm_type cm_payload rcv_record nxt_record];
    rewrite ?len_rcvinfo_bytes, ?len_nxtinfo_bytes; abi; lia.
Qed.

(** Receive round trip: the ancillary data Linux attaches to a data
    message, SCTP_NXTINFO when another message is queued and SCTP_RCVINFO,
    parses to exactly the values the kernel put there, PPIDs converted from
    network order, on every target. *)
Theorem recv_roundtrip r (nxt : option NxtInfo) flags
    (Hr : rcv_wf r) (Hn : match nxt with Some n => nxt_wf n | None => True end)
    (Hdata : has_bits flags msgNotification = false)
    (Hct : has_bits flags msgCtrunc = false) :
  parseRecvCmsgs (concat (map cmsg_bytes (opt_list (nxt_record <$> nxt) ++ [rcv_record r]))) flags =
  Ret ({| mi_EOR := has_bits flags msgEOR; mi_Notification := false; mi_Rcv := r;
          mi_Nxt := match nxt with Some n => n | None => zeroNxtInfo end;
          mi_HasNxt := match nxt with Some _ => true | None => false end |}, None).
Proof.
  rewrite parse_total, Hct, cmsgs_concat, foldl_app by apply recv_records_wf. do 2 f_equal.
  assert (Hi : mi_Notification (foldl absorb (init_info flags) (opt_list (nxt_record <$> nxt))) = false).
  { destruct nxt; cbn [fmap option_fmap option_map opt_list foldl]; rewrite ?absorb_nxt by done; exact Hdata. }
  cbn [foldl]. rewrite absorb_rcv by done. unfold set_Rcv. rewrite Hi.
  destruct nxt as [n |]; cbn [fmap option_fmap option_map opt_list foldl]; rewrite ?absorb_nxt by done; done.
Qed.
End Theorems.

(** ** Witnesses *)
Lemma appendSendCmsgs_spec_witness :
  exists dst n, @appendSendCmsgs s390x 0 (replicate 200 Byte.xff)
    (Some {| snd_Stream := 1; snd_Flags := 0; snd_PPID := 46; snd_Context := 0 |}) 9 None (Some 2)
    = Ret (dst, n) /\ n <= @sndCmsgSpace s390x.
Proof.
  assert (H : @sndCmsgSpace s390x <= len (replicate 200 Byte.xff)) by (vm_compute; discriminate).
  destruct (@appendSendCmsgs_spec s390x s390x_ok (replicate 200 Byte.xff)
    (Some {| snd_Stream := 1; snd_Flags := 0; snd_PPID := 46; snd_Context := 0 |}) 9 None (Some 2) H)
    as (H1 & H2 & _).
  do 2 eexists. split; [exact H1 | exact H2].
Defined.

Definition sample_rcv : RcvInfo := {|
  rcv_Stream := 3; rcv_SSN := 17; rcv_Unordered := true; rcv_PPID := 46;
  rcv_TSN := 1000; rcv_CumTSN := 999; rcv_Context := 5; rcv_AssocID := 4 |}.

Lemma parseRecvCmsgs_spec_witness :
  ArchOk s390x /\
  @parseRecvCmsgs s390x (@cmsg_bytes s390x (@rcv_record s390x sample_rcv)) msgCtrunc =
  Ret (foldl (@absorb s390x) (init_info msgCtrunc)
         (@cmsgs s390x (@cmsg_bytes s390x (@rcv_record s390x sample_rcv))),
       Some (Plain ErrControlTruncated)).
Proof.
  split; [exact s390x_ok |].
  exact (@parseRecvCmsgs_spec s390x s390x_ok (@cmsg_bytes s390x (@rcv_record s390x sample_rcv)) msgCtrunc).
Defined.

Lemma recv_roundtrip_witness :
  @parseRecvCmsgs i386 (@cmsg_bytes i386 (@rcv_record i386 sample_rcv)) msgEOR =
  Ret ({| mi_EOR := true; mi_Notification := false; mi_Rcv := sample_rcv;
          mi_Nxt := zeroNxtInfo; mi_HasNxt := false |}, None).
Proof.
  assert (Hr : rcv_wf sample_rcv) by (unfold rcv_wf, is_u16, is_u32, is_i32; simpl; lia).
  pose proof (@recv_roundtrip i386 i386_ok sample_rcv None msgEOR Hr I eq_refl eq_refl) as H.
  rewrite <- (app_nil_r (@cmsg_bytes i386 _)). exact H.
Defined.
