(* ===== verification/Notification.v ===== *)
(** * Notifications (src/notification.go)

    ParseNotification, which decodes one complete RFC 6458 §6 notification,
    and notificationAccumulator, which reassembles a notification split
    across reads.

    The theorems: parsing is total and reads only the record's declared
    length; a record laid out as the kernel lays it out parses to its
    fields, for each of the twelve types, on both byte orders; reassembly
    does not depend on how the record was split, accepts a record exactly
    when its length is the declared one, and never holds more than the
    limit. *)
From Stdlib Require Import ZArith Lia Bool.
From stdpp Require Import base list option strings.
From coqutil Require Import Byte.
From S2P Require Import Prelude Abi Errors Enums Netip Sockaddr.

(** ** Data *)
Definition NotificationMaxSize : Z := 1024.
Definition NotificationReassemblyLimit : Z := Z.shiftl 1 20.
Definition notificationDataDropCap : Z := 64 * 1024.

Record AssocChange := {
  ac_State : Z; ac_Error : Z; ac_OutStreams : Z; ac_InStreams : Z; ac_AssocID : Z; ac_Info : bytes }.
Record PeerAddrChange := {
  pac_Addr : AddrPort; pac_State : Z; pac_Reason : Z; pac_AssocID : Z }.
Record SendFailed := {
  sf_Error : Z; sf_Sent : bool; sf_Stream : Z; sf_PPID : Z; sf_Context : Z;
  sf_Unordered : bool; sf_FirstFragment : bool; sf_LastFragment : bool;
  sf_AssocID : Z; sf_Data : bytes }.
Record RemoteError := { re_Error : Z; re_AssocID : Z; re_Data : bytes }.
Record Shutdown := { sd_AssocID : Z }.
Record SenderDry := { dry_AssocID : Z }.
Record PartialDelivery := { pd_Stream : Z; pd_SeqNum : Z; pd_Unordered : bool; pd_AssocID : Z }.
Record AdaptationIndication := { ad_Indication : Z; ad_AssocID : Z }.
Record AuthEvent := { au_Key : Z; au_AltKey : Z; au_Indication : Z; au_AssocID : Z }.
Record StreamReset := {
  sr_Incoming : bool; sr_Outgoing : bool; sr_Denied : bool; sr_Failed : bool;
  sr_Streams : list Z; sr_AssocID : Z }.
Record AssocReset := {
  ar_Denied : bool; ar_Failed : bool; ar_LocalTSN : Z; ar_RemoteTSN : Z; ar_AssocID : Z }.
Record StreamChange := {
  sc_Denied : bool; sc_Failed : bool; sc_InStreams : Z; sc_OutStreams : Z; sc_AssocID : Z }.

Inductive Notification :=
| NAssocChange (n : AssocChange)
| NPeerAddrChange (n : PeerAddrChange)
| NRemoteError (n : RemoteError)
| NShutdown (n : Shutdown)
| NPartialDelivery (n : PartialDelivery)
| NAdaptationIndication (n : AdaptationIndication)
| NAuthEvent (n : AuthEvent)
| NSenderDry (n : SenderDry)
| NStreamReset (n : StreamReset)
| NAssocReset (n : AssocReset)
| NStreamChange (n : StreamChange)
| NSendFailed (n : SendFailed)
| NUnknown (data : bytes).

Section Parse.
Context `{A : Arch} `{ZE : ZoneEnv}.

(** UnknownNotification.Type *)
Definition UnknownNotification_Type (data : bytes) : out error Z :=
  if len data <? notificationHeaderSize then Ret 0
  else get_at NativeEndian 2 data notificationTypeOff.

(** The Type methods. *)
Definition Type_ (n : Notification) : out error Z :=
  match n with
  | NAssocChange _ => Ret EventAssocChange
  | NPeerAddrChange _ => Ret EventPeerAddrChange
  | NRemoteError _ => Ret EventRemoteError
  | NShutdown _ => Ret EventShutdown
  | NPartialDelivery _ => Ret EventPartialDelivery
  | NAdaptationIndication _ => Ret EventAdaptationIndication
  | NAuthEvent _ => Ret EventAuthentication
  | NSenderDry _ => Ret EventSenderDry
  | NStreamReset _ => Ret EventStreamReset
  | NAssocReset _ => Ret EventAssocReset
  | NStreamChange _ => Ret EventStreamChange
  | NSendFailed _ => Ret EventSendFailed
  | NUnknown data => UnknownNotification_Type data
  end.

(** ** Causes and reasons *)
Definition causeFromU16 (b : bytes) (off : Z) : out error Z := get_at BigEndian 2 b off.

Definition causeFromU32Order (b : bytes) (off : Z) (order : byteorder) : out error Z :=
  v ← get_at order 4 b off;
  get BigEndian 2 (bytes_of order 2 (u16 v)).

Definition causeFromU32 (b : bytes) (off : Z) : out error Z := causeFromU32Order b off NativeEndian.

Definition decodeAddrChangeReason (raw state : Z) : Z :=
  if raw =? 0 then (if state =? AddrUnreachable then ReasonFailedThreshold else ReasonNone)
  else if (raw <? 0) || (raw =? MaxInt32) then raw
  else raw + 1.

(** ** Records *)
Definition notificationHeader (b : bytes) : out error (option (Z * Z * Z)) :=
  if len b <? notificationHeaderSize then Ret None else
  typ ← get_at NativeEndian 2 b notificationTypeOff;
  flags ← get_at NativeEndian 2 b notificationFlagsOff;
  length ← get_at NativeEndian 4 b notificationLengthOff;
  Ret (Some (typ, flags, length)).

Definition decodePeerAddrChangeOrder (b : bytes) (order : byteorder) : out error Notification :=
  if len b <? sizePAddrChange then Err (Plain ErrShortNotification) else
  field ← slice b paddrChangeAddrOff paddrChangeStateOff;
  addr ← decodeAddr field;
  state ← get_at order 4 b paddrChangeStateOff;
  reason ← get_at order 4 b paddrChangeErrorOff;
  assoc ← get_at order 4 b paddrChangeAssocIDOff;
  Ret (NPeerAddrChange {|
    pac_Addr := addr; pac_State := i32 state;
    pac_Reason := decodeAddrChangeReason (i32 reason) (i32 state);
    pac_AssocID := i32 assoc |}).

Definition assocChangeInfoOrder (b : bytes) (order : byteorder) : out error (option (Z * Z)) :=
  if len b <? sizeAssocChange then Ret None else
  state ← get_at order 2 b assocChangeStateOff;
  id ← get_at order 4 b assocChangeAssocIDOff;
  Ret (Some (state, i32 id)).

Definition assocChangeInfo (b : bytes) : out error (option (Z * Z)) :=
  assocChangeInfoOrder b NativeEndian.

(** [append([]byte(nil), b[off:]...)] when len(b) exceeds [size]. *)
Definition tail_after (b : bytes) (size off : Z) : out error bytes :=
  if size <? len b then slice_from b off else Ret [].

(** The cases of ParseNotification's switch, on a record cut to its
    declared length. *)
Definition parse_assoc_change (b : bytes) : out error Notification :=
  if len b <? sizeAssocChange then Err (Plain ErrShortNotification) else
  state ← get_at NativeEndian 2 b assocChangeStateOff;
  cause ← causeFromU16 b assocChangeErrorOff;
  outs ← get_at NativeEndian 2 b assocChangeOutStreamsOff;
  ins ← get_at NativeEndian 2 b assocChangeInStreamsOff;
  assoc ← get_at NativeEndian 4 b assocChangeAssocIDOff;
  info ← tail_after b sizeAssocChange sizeAssocChange;
  Ret (NAssocChange {| ac_State := state; ac_Error := cause; ac_OutStreams := outs;
                       ac_InStreams := ins; ac_AssocID := i32 assoc; ac_Info := info |}).

Definition parse_remote_error (b : bytes) : out error Notification :=
  if len b <? sizeRemoteError then Err (Plain ErrShortNotification) else
  cause ← causeFromU16 b remoteErrorErrorOff;
  assoc ← get_at NativeEndian 4 b remoteErrorAssocIDOff;
  data ← tail_after b sizeRemoteError remoteErrorDataOff;
  Ret (NRemoteError {| re_Error := cause; re_AssocID := i32 assoc; re_Data := data |}).

Definition parse_shutdown (b : bytes) : out error Notification :=
  if len b <? sizeShutdownEvent then Err (Plain ErrShortNotification) else
  assoc ← get_at NativeEndian 4 b shutdownEventAssocIDOff;
  Ret (NShutdown {| sd_AssocID := i32 assoc |}).

Definition parse_partial_delivery (b : bytes) (flags : Z) : out error Notification :=
  if len b <? sizePDAPIEvent then Err (Plain ErrShortNotification) else
  stream ← get_at NativeEndian 4 b pdapiEventStreamOff;
  seq ← get_at NativeEndian 4 b pdapiEventSeqOff;
  assoc ← get_at NativeEndian 4 b pdapiEventAssocIDOff;
  Ret (NPartialDelivery {| pd_Stream := stream; pd_SeqNum := seq;
         pd_Unordered := has_bits flags pdapiFlagUnordered; pd_AssocID := i32 assoc |}).

Definition parse_adaptation (b : bytes) : out error Notification :=
  if len b <? sizeAdaptationEvent then Err (Plain ErrShortNotification) else
  ind ← get_at NativeEndian 4 b adaptationEventIndicationOff;
  assoc ← get_at NativeEndian 4 b adaptationEventAssocIDOff;
  Ret (NAdaptationIndication {| ad_Indication := ind; ad_AssocID := i32 assoc |}).

Definition parse_auth (b : bytes) : out error Notification :=
  if len b <? sizeAuthKeyEvent then Err (Plain ErrShortNotification) else
  key ← get_at NativeEndian 2 b authKeyEventKeyNumberOff;
  alt ← get_at NativeEndian 2 b authKeyEventAltKeyNumberOff;
  ind ← get_at NativeEndian 4 b authKeyEventIndicationOff;
  assoc ← get_at NativeEndian 4 b authKeyEventAssocIDOff;
  Ret (NAuthEvent {| au_Key := key; au_AltKey := alt; au_Indication := ind; au_AssocID := i32 assoc |}).

Definition parse_sender_dry (b : bytes) : out error Notification :=
  if len b <? sizeSenderDryEvent then Err (Plain ErrShortNotification) else
  assoc ← get_at NativeEndian 4 b senderDryEventAssocIDOff;
  Ret (NSenderDry {| dry_AssocID := i32 assoc |}).

Definition parse_stream_reset (b : bytes) (flags : Z) : out error Notification :=
  if len b <? sizeStreamResetEvent then Err (Plain ErrShortNotification) else
  tail ← slice_from b streamResetEventStreamsOff;
  if negb (Z.rem (len tail) 2 =? 0) then Err (Plain ErrShortNotification) else
  streams ← get_list NativeEndian 2 tail 0 (Z.to_nat (Z.quot (len tail) 2));
  assoc ← get_at NativeEndian 4 b streamResetEventAssocIDOff;
  Ret (NStreamReset {| sr_Incoming := has_bits flags streamResetFlagIncoming;
         sr_Outgoing := has_bits flags streamResetFlagOutgoing;
         sr_Denied := has_bits flags streamResetFlagDenied;
         sr_Failed := has_bits flags streamResetFlagFailed;
         sr_Streams := streams; sr_AssocID := i32 assoc |}).

Definition parse_assoc_reset (b : bytes) (flags : Z) : out error Notification :=
  if len b <? sizeAssocResetEvent then Err (Plain ErrShortNotification) else
  local ← get_at NativeEndian 4 b assocResetEventLocalTSNOff;
  remote ← get_at NativeEndian 4 b assocResetEventRemoteTSNOff;
  assoc ← get_at NativeEndian 4 b assocResetEventAssocIDOff;
  Ret (NAssocReset {| ar_Denied := has_bits flags assocResetFlagDenied;
         ar_Failed := has_bits flags assocResetFlagFailed;
         ar_LocalTSN := local; ar_RemoteTSN := remote; ar_AssocID := i32 assoc |}).

Definition parse_stream_change (b : bytes) (flags : Z) : out error Notification :=
  if len b <? sizeStreamChangeEvent then Err (Plain ErrShortNotification) else
  ins ← get_at NativeEndian 2 b streamChangeEventInStreamsOff;
  outs ← get_at NativeEndian 2 b streamChangeEventOutStreamsOff;
  assoc ← get_at NativeEndian 4 b streamChangeEventAssocIDOff;
  Ret (NStreamChange {| sc_Denied := has_bits flags streamChangeFlagDenied;
         sc_Failed := has_bits flags streamChangeFlagFailed;
         sc_InStreams := ins; sc_OutStreams := outs; sc_AssocID := i32 assoc |}).

Definition parse_send_failed (b : bytes) (flags : Z) : out error Notification :=
  if len b <? sizeSendFailedEvent then Err (Plain ErrShortNotification) else
  sndFlags ← get_at NativeEndian 2 b (sendFailedEventInfoOff + sndInfoFlagsOff);
  cause ← causeFromU32 b sendFailedEventErrorOff;
  stream ← get_at NativeEndian 2 b (sendFailedEventInfoOff + sndInfoStreamOff);
  ppid ← get_at BigEndian 4 b (sendFailedEventInfoOff + sndInfoPPIDOff);
  context ← get_at NativeEndian 4 b (sendFailedEventInfoOff + sndInfoContextOff);
  assoc ← get_at NativeEndian 4 b sendFailedEventAssocIDOff;
  data ← tail_after b sizeSendFailedEvent sendFailedEventDataOff;
  Ret (NSendFailed {| sf_Error := cause; sf_Sent := has_bits flags sendFailedFlagSent;
         sf_Stream := stream; sf_PPID := ppid; sf_Context := context;
         sf_Unordered := has_bits sndFlags dataChunkFlagUnordered;
         sf_FirstFragment := has_bits sndFlags dataChunkFlagFirstFragment;
         sf_LastFragment := has_bits sndFlags dataChunkFlagLastFragment;
         sf_AssocID := i32 assoc; sf_Data := data |}).

Definition parse_record (typ flags : Z) (b : bytes) : out error Notification :=
  if typ =? EventAssocChange then parse_assoc_change b
  else if typ =? EventPeerAddrChange then decodePeerAddrChangeOrder b NativeEndian
  else if typ =? EventRemoteError then parse_remote_error b
  else if typ =? EventShutdown then parse_shutdown b
  else if typ =? EventPartialDelivery then parse_partial_delivery b flags
  else if typ =? EventAdaptationIndication then parse_adaptation b
  else if typ =? EventAuthentication then parse_auth b
  else if typ =? EventSenderDry then parse_sender_dry b
  else if typ =? EventStreamReset then parse_stream_reset b flags
  else if typ =? EventAssocReset then parse_assoc_reset b flags
  else if typ =? EventStreamChange then parse_stream_change b flags
  else if typ =? EventSendFailed then parse_send_failed b flags
  else Ret (NUnknown b).

Definition ParseNotification (b : bytes) : out error Notification :=
  hdr ← notificationHeader b;
  match hdr with
  | None => Err (Plain ErrShortNotification)
  | Some (typ, flags, length) =>
      if length <? notificationHeaderSize then Err (Plain ErrShortNotification) else
      if NotificationReassemblyLimit <? length then Err (Plain ErrNotificationTooLong) else
      if u32 (len b) <? length then Err (Plain ErrShortNotification) else
      b ← slice b 0 length;
      parse_record typ flags b
  end.
End Parse.

(** ** What a record is *)
Section Spec.
Context `{A : Arch} `{ZE : ZoneEnv}.

(** The type, flags and length fields of a record's header. *)
Definition ntype (b : bytes) : Z := uint_of NativeEndian (sub b notificationTypeOff 2).
Definition nflags (b : bytes) : Z := uint_of NativeEndian (sub b notificationFlagsOff 2).
Definition declared_len (b : bytes) : Z := uint_of NativeEndian (sub b notificationLengthOff 4).

(** The fixed part of each type's struct. *)
Definition fixed_size (typ : Z) : Z :=
  if typ =? EventAssocChange then sizeAssocChange
  else if typ =? EventPeerAddrChange then sizePAddrChange
  else if typ =? EventRemoteError then sizeRemoteError
  else if typ =? EventShutdown then sizeShutdownEvent
  else if typ =? EventPartialDelivery then sizePDAPIEvent
  else if typ =? EventAdaptationIndication then sizeAdaptationEvent
  else if typ =? EventAuthentication then sizeAuthKeyEvent
  else if typ =? EventSenderDry then sizeSenderDryEvent
  else if typ =? EventStreamReset then sizeStreamResetEvent
  else if typ =? EventAssocReset then sizeAssocResetEvent
  else if typ =? EventStreamChange then sizeStreamChangeEvent
  else if typ =? EventSendFailed then sizeSendFailedEvent
  else notificationHeaderSize.

(** A record of [n] bytes too short for its type: its struct does not fit,
    or the stream list at its end stops in the middle of a stream. *)
Definition cut_short (typ n : Z) : Prop :=
  n < fixed_size typ \/ (typ = EventStreamReset /\ Z.odd (n - sizeStreamResetEvent) = true).

(** The family field of the address an SCTP_PEER_ADDR_CHANGE embeds. *)
Definition addr_family (b : bytes) : Z := uint_of NativeEndian (sub b paddrChangeAddrOff 2).

(** The three ways bytes are not a notification.  The code compares the
    declared length with uint32(len(b)). *)
Definition too_long (b : bytes) : Prop :=
  notificationHeaderSize <= len b /\ NotificationReassemblyLimit < declared_len b.

Definition too_short (b : bytes) : Prop :=
  len b < notificationHeaderSize \/ declared_len b < notificationHeaderSize \/
  (declared_len b <= NotificationReassemblyLimit /\
   (u32 (len b) < declared_len b \/ cut_short (ntype b) (declared_len b))).

Definition bad_address (b : bytes) : Prop :=
  notificationHeaderSize <= len b /\ declared_len b <= NotificationReassemblyLimit /\
  declared_len b <= u32 (len b) /\ ntype b = EventPeerAddrChange /\ sizePAddrChange <= declared_len b /\
  addr_family b <> afInet /\ addr_family b <> afInet6.
End Spec.

(** ** Lemmas *)
Section Lemmas.
Context `{A : Arch} `{ZE : ZoneEnv}.

Lemma tail_after_ok b n :
  0 <= n <= len b -> tail_after b n n = Ret (sub b n (len b - n)).
Proof.
  intros Hn. unfold tail_after. destruct (Z.ltb_spec n (len b)).
  - unfold slice_from. by rewrite slice_ok by lia.
  - replace (len b - n) with 0 by lia. done.
Qed.

Lemma causeFromU32_ok b off :
  0 <= off -> off + 4 <= len b ->
  causeFromU32 b off = Ret (uint_of BigEndian (bytes_of NativeEndian 2 (u16 (uint_of NativeEndian (sub b off 4))))).
Proof.
  intros. unfold causeFromU32, causeFromU32Order. rewrite get4_ok by lia. next.
  rewrite get_ok by (by rewrite len_bytes_of). by rewrite sub_whole by (rewrite ?len_bytes_of; done).
Qed.

Lemma notificationHeader_ok b :
  notificationHeader b =
  Ret (if len b <? notificationHeaderSize then None else Some (ntype b, nflags b, declared_len b)).
Proof.
  unfold notificationHeader. destruct (Z.ltb_spec (len b) notificationHeaderSize); [done |].
  rewrite !get2_ok, get4_ok by (abi; lia). done.
Qed.

(** Not too short for its type, and its address decodes. *)
Definition record_whole (typ : Z) (b : bytes) : Prop :=
  ~ cut_short typ (len b) /\
  (typ = EventPeerAddrChange -> addr_family b = afInet \/ addr_family b = afInet6).

(** What a case of the switch returns. *)
Definition case_outcome (typ : Z) (b : bytes) (r : out error Notification) : Prop :=
  match r with
  | Ret n => record_whole typ b /\ Type_ n = Ret typ
  | Err e => (e = Plain ErrShortNotification /\ cut_short typ (len b)) \/
             (e = errUnknownSockaddrFamily /\ typ = EventPeerAddrChange /\ sizePAddrChange <= len b /\
              addr_family b <> afInet /\ addr_family b <> afInet6)
  | Panic => False
  end.

Lemma short_or_ok (b : bytes) typ (k : out error Notification) :
  typ <> EventStreamReset -> typ <> EventPeerAddrChange ->
  (fixed_size typ <= len b -> match k with Ret n => Type_ n = Ret typ | _ => False end) ->
  case_outcome typ b (if len b <? fixed_size typ then Err (Plain ErrShortNotification) else k).
Proof.
  intros Hr Ha H. destruct (Z.ltb_spec (len b) (fixed_size typ)) as [| Hs]; [left; by split; [| left] |].
  specialize (H Hs). destruct k; [| done | done]. split; [| done]. split; [| done].
  intros [? | [? _]]; [lia | done].
Qed.
End Lemmas.

(** Runs the reads of a case whose record is long enough. *)
Ltac reads :=
  repeat first [ rewrite get2_ok by (abi; lia) | rewrite get4_ok by (abi; lia)
               | rewrite causeFromU32_ok by (abi; lia)
               | rewrite tail_after_ok by (abi; lia) ]; next.

(** A case that only reads fields. *)
Ltac one_case :=
  unfold parse_assoc_change, parse_remote_error, parse_shutdown, parse_partial_delivery,
    parse_adaptation, parse_auth, parse_sender_dry, parse_assoc_reset, parse_stream_change,
    parse_send_failed, causeFromU16;
  apply short_or_ok; [done | done | intros Hsz; cbv [fixed_size] in Hsz; simpl in Hsz; reads; done].

Section Total.
Context `{A : Arch} `{ZE : ZoneEnv}.

Lemma stream_reset_outcome b flags : case_outcome EventStreamReset b (parse_stream_reset b flags).
Proof.
  unfold parse_stream_reset. destruct (Z.ltb_spec (len b) sizeStreamResetEvent) as [| Hs]; [left; by split; [| left] |].
  unfold slice_from. rewrite slice_ok by (abi; lia). next.
  set (t := sub b _ _).
  assert (Ht : len t = len b - sizeStreamResetEvent) by (unfold t; rewrite len_sub; abi; lia).
  assert (Hn : 0 <= len t) by apply len_nonneg.
  rewrite Z.rem_mod_nonneg by lia.
  destruct (Z.eqb_spec (len t mod 2) 0) as [He | Ho]; cbn [negb].
  - destruct (get_list_ok (E:=error) NativeEndian 2 (Z.to_nat (Z.quot (len t) 2)) t 0)
      as (vs & -> & _); [lia | |].
    { rewrite Z.quot_div_nonneg by lia. rewrite Z2Nat.id by (apply Z.div_pos; lia).
      pose proof (Z.mul_div_le (len t) 2). lia. }
    next. reads. split; [| done]. split; [| done]. intros [Hc | [_ Hc]]; [change (fixed_size _) with sizeStreamResetEvent in Hc; lia |].
    rewrite <- Ht, Zodd_mod, He in Hc. done.
  - left. split; [done |]. right. split; [done |]. rewrite <- Ht, Zodd_mod.
    destruct (Z.mod_pos_bound (len t) 2); [lia |]. apply Z.eqb_eq. lia.
Qed.

(** The address field is 128 bytes, so that only its family can be wrong. *)
Lemma peer_addr_outcome b : case_outcome EventPeerAddrChange b (decodePeerAddrChangeOrder b NativeEndian).
Proof.
  unfold decodePeerAddrChangeOrder. destruct (Z.ltb_spec (len b) sizePAddrChange) as [| Hs]; [left; by split; [| left] |].
  rewrite slice_ok by (abi; lia). next.
  set (field := sub b _ _).
  assert (Hf : uint_of NativeEndian (sub field 0 2) = addr_family b).
  { unfold field, addr_family. by rewrite sub_sub by (abi; lia). }
  assert (Hl : len field = 128) by (unfold field; rewrite len_sub; abi; lia).
  pose proof (decodeAddr_family field Hl) as Ho. rewrite Hf in Ho.
  destruct (decodeAddr field); next; [| | done].
  - reads. split; [| done]. split; [| intros _; exact Ho]. intros [Hc | [Hc _]]; [change (fixed_size _) with sizePAddrChange in Hc; lia | done].
  - right. destruct Ho as (-> & H4 & H6). auto.
Qed.

(** Every case of the switch returns, and a record it accepts is whole. *)
Lemma parse_record_outcome typ flags b :
  notificationHeaderSize <= len b -> typ = ntype b -> case_outcome typ b (parse_record typ flags b).
Proof.
  intros Hl Ht. unfold parse_record.
  destruct (Z.eqb_spec typ EventAssocChange) as [-> |]; [one_case |].
  destruct (Z.eqb_spec typ EventPeerAddrChange) as [-> |]; [apply peer_addr_outcome |].
  destruct (Z.eqb_spec typ EventRemoteError) as [-> |]; [one_case |].
  destruct (Z.eqb_spec typ EventShutdown) as [-> |]; [one_case |].
  destruct (Z.eqb_spec typ EventPartialDelivery) as [-> |]; [one_case |].
  destruct (Z.eqb_spec typ EventAdaptationIndication) as [-> |]; [one_case |].
  destruct (Z.eqb_spec typ EventAuthentication) as [-> |]; [one_case |].
  destruct (Z.eqb_spec typ EventSenderDry) as [-> |]; [one_case |].
  destruct (Z.eqb_spec typ EventStreamReset) as [-> |]; [apply stream_reset_outcome |].
  destruct (Z.eqb_spec typ EventAssocReset) as [-> |]; [one_case |].
  destruct (Z.eqb_spec typ EventStreamChange) as [-> |]; [one_case |].
  destruct (Z.eqb_spec typ EventSendFailed) as [-> |]; [one_case |].
  split; [split; [intros [Hc | [Hc _]]; [| done] | done] |].
  { unfold fixed_size in Hc. by repeat (rewrite (proj2 (Z.eqb_neq typ _)) in Hc by done); lia. }
  simpl. unfold UnknownNotification_Type.
  rewrite (proj2 (Z.ltb_ge _ _)) by done. rewrite get2_ok by (abi; lia). by rewrite Ht.
Qed.

(** The whole of ParseNotification in one equation. *)
Lemma ParseNotification_eq b :
  ParseNotification b =
  if (len b <? notificationHeaderSize) || (declared_len b <? notificationHeaderSize)
  then Err (Plain ErrShortNotification)
  else if NotificationReassemblyLimit <? declared_len b then Err (Plain ErrNotificationTooLong)
  else if u32 (len b) <? declared_len b then Err (Plain ErrShortNotification)
  else parse_record (ntype b) (nflags b) (take (Z.to_nat (declared_len b)) b).
Proof.
  unfold ParseNotification. rewrite notificationHeader_ok. next.
  destruct (Z.ltb_spec (len b) notificationHeaderSize); [done |]. simpl.
  destruct (Z.ltb_spec (declared_len b) notificationHeaderSize); [done |].
  destruct (Z.ltb_spec NotificationReassemblyLimit (declared_len b)); [done |].
  destruct (Z.ltb_spec (u32 (len b)) (declared_len b)) as [| Hu]; [done |].
  assert (Hle : declared_len b <= len b).
  { pose proof (len_nonneg b). unfold u32 in Hu. pose proof (Z.mod_le (len b) (2 ^ 32)). lia. }
  rewrite slice_ok by (abi; lia). next. f_equal. rewrite Z.sub_0_r. unfold sub. by rewrite drop_0.
Qed.

Lemma ntype_take b k : (8 <= k)%nat -> ntype (take k b) = ntype b.
Proof. intros. unfold ntype. by rewrite sub_take by (abi; lia). Qed.

(** Every field is in the range of its Go type, and an address is one. *)
Definition notification_typed (n : Notification) : Prop :=
  match n with
  | NAssocChange n =>
      is_u16 (ac_State n) /\ is_u16 (ac_Error n) /\ is_u16 (ac_OutStreams n) /\
      is_u16 (ac_InStreams n) /\ is_i32 (ac_AssocID n)
  | NPeerAddrChange n =>
      addr_wf (ap_addr (pac_Addr n)) /\ Is4In6 (ap_addr (pac_Addr n)) = false /\ is_u16 (ap_port (pac_Addr n)) /\
      is_i32 (pac_State n) /\ is_i32 (pac_Reason n) /\ is_i32 (pac_AssocID n)
  | NRemoteError n => is_u16 (re_Error n) /\ is_i32 (re_AssocID n)
  | NShutdown n => is_i32 (sd_AssocID n)
  | NPartialDelivery n => is_u32 (pd_Stream n) /\ is_u32 (pd_SeqNum n) /\ is_i32 (pd_AssocID n)
  | NAdaptationIndication n => is_u32 (ad_Indication n) /\ is_i32 (ad_AssocID n)
  | NAuthEvent n =>
      is_u16 (au_Key n) /\ is_u16 (au_AltKey n) /\ is_u32 (au_Indication n) /\ is_i32 (au_AssocID n)
  | NSenderDry n => is_i32 (dry_AssocID n)
  | NStreamReset n => Forall is_u16 (sr_Streams n) /\ is_i32 (sr_AssocID n)
  | NAssocReset n => is_u32 (ar_LocalTSN n) /\ is_u32 (ar_RemoteTSN n) /\ is_i32 (ar_AssocID n)
  | NStreamChange n => is_u16 (sc_InStreams n) /\ is_u16 (sc_OutStreams n) /\ is_i32 (sc_AssocID n)
  | NSendFailed n =>
      is_u16 (sf_Error n) /\ is_u16 (sf_Stream n) /\ is_u32 (sf_PPID n) /\ is_u32 (sf_Context n) /\
      is_i32 (sf_AssocID n)
  | NUnknown _ => True
  end.

Lemma decodeAddrChangeReason_typed raw state : is_i32 raw -> is_i32 (decodeAddrChangeReason raw state).
Proof.
  intros H. unfold decodeAddrChangeReason. destruct (raw =? 0); [by destruct (state =? AddrUnreachable) |].
  destruct (_ || _) eqn:E; [done |]. apply orb_false_iff in E as [E1 E2]. unfold is_i32, MaxInt32 in *. lia.
Qed.

Lemma cause_typed b off o v : causeFromU32Order b off o = Ret v -> is_u16 v.
Proof.
  intros (raw & _ & H)%bind_Ret_inv. rewrite get_ok in H by (by rewrite len_bytes_of). injection H as <-.
  pose proof (uint_of_bound BigEndian (sub (Prelude.bytes_of o 2 (u16 raw)) 0 2)) as Hb. by rewrite len_sub in Hb by (rewrite ?len_bytes_of; lia).
Qed.

(** The reads of a case, each with the range it gives. *)
Ltac typed_reads H :=
  match type of H with (if ?c then _ else _) = _ => destruct c; [discriminate H |] end;
  repeat (let x := fresh "x" in let Hx := fresh "Hx" in apply bind_Ret_inv in H as (x & Hx & H);
          first [apply get_at_width in Hx | apply cause_typed in Hx | idtac]);
  injection H as <-; cbn [notification_typed]; split_and?; first [apply i32_range | assumption].

Lemma parse_stream_reset_typed b flags n : parse_stream_reset b flags = Ret n -> notification_typed n.
Proof.
  unfold parse_stream_reset. destruct (len b <? _); [done |]. intros (tail & _ & H)%bind_Ret_inv. destruct (negb _); [done |].
  apply bind_Ret_inv in H as (streams & Hs%get_list_width & (assoc & _ & [= <-])%bind_Ret_inv). split; [exact Hs | apply i32_range].
Qed.

Lemma peer_addr_typed b o n : decodePeerAddrChangeOrder b o = Ret n -> notification_typed n.
Proof.
  unfold decodePeerAddrChangeOrder. destruct (len b <? _); [done |].
  intros (field & _ & (ap & Ha & (state & _ & (reason & _ & (assoc & _ & [= <-])%bind_Ret_inv)%bind_Ret_inv)%bind_Ret_inv)%bind_Ret_inv)%bind_Ret_inv.
  pose proof (decodeAddr_outcome field) as Ho. rewrite Ha in Ho. apply decodeAddr_port in Ha.
  cbn [notification_typed pac_Addr pac_State pac_Reason pac_AssocID]. split_and!; try tauto; try apply i32_range.
  apply decodeAddrChangeReason_typed, i32_range.
Qed.

Lemma parse_record_typed typ flags b n : parse_record typ flags b = Ret n -> notification_typed n.
Proof.
  unfold parse_record.
  destruct (typ =? EventAssocChange); [unfold parse_assoc_change; intros H; typed_reads H |].
  destruct (typ =? EventPeerAddrChange); [apply peer_addr_typed |].
  destruct (typ =? EventRemoteError); [unfold parse_remote_error; intros H; typed_reads H |].
  destruct (typ =? EventShutdown); [unfold parse_shutdown; intros H; typed_reads H |].
  destruct (typ =? EventPartialDelivery); [unfold parse_partial_delivery; intros H; typed_reads H |].
  destruct (typ =? EventAdaptationIndication); [unfold parse_adaptation; intros H; typed_reads H |].
  destruct (typ =? EventAuthentication); [unfold parse_auth; intros H; typed_reads H |].
  destruct (typ =? EventSenderDry); [unfold parse_sender_dry; intros H; typed_reads H |].
  destruct (typ =? EventStreamReset); [apply parse_stream_reset_typed |].
  destruct (typ =? EventAssocReset); [unfold parse_assoc_reset; intros H; typed_reads H |].
  destruct (typ =? EventStreamChange); [unfold parse_stream_change; intros H; typed_reads H |].
  destruct (typ =? EventSendFailed); [unfold parse_send_failed; intros H; typed_reads H |].
  by intros [= <-].
Qed.

Lemma addr_family_take b k : (10 <= k)%nat -> addr_family (take k b) = addr_family b.
Proof. intros. unfold addr_family. by rewrite sub_take by (abi; lia). Qed.

(** What ParseNotification returns, and why. *)
Lemma ParseNotification_outcome b :
  match ParseNotification b with
  | Ret n => (notificationHeaderSize <= declared_len b <= NotificationReassemblyLimit /\
              fixed_size (ntype b) <= declared_len b <= len b /\ Type_ n = Ret (ntype b) /\ notification_typed n) /\
             ~ too_long b /\ ~ too_short b /\ ~ bad_address b
  | Err e => (e = Plain ErrNotificationTooLong /\ too_long b) \/ (e = Plain ErrShortNotification /\ too_short b) \/
             (e = errUnknownSockaddrFamily /\ bad_address b)
  | Panic => False
  end.
Proof.
  rewrite ParseNotification_eq. unfold too_long, too_short, bad_address.
  destruct (Z.ltb_spec (len b) notificationHeaderSize); simpl; [by auto 8 |].
  destruct (Z.ltb_spec (declared_len b) notificationHeaderSize) as [| Hd]; [by auto 8 |].
  destruct (Z.ltb_spec NotificationReassemblyLimit (declared_len b)); [by auto 8 |].
  destruct (Z.ltb_spec (u32 (len b)) (declared_len b)) as [| Hu]; [by auto 12 |].
  assert (Hle : declared_len b <= len b).
  { pose proof (len_nonneg b). unfold u32 in Hu. pose proof (Z.mod_le (len b) (2 ^ 32)). lia. }
  assert (Hlen : len (take (Z.to_nat (declared_len b)) b) = declared_len b) by (rewrite len_take; abi; lia).
  pose proof (parse_record_outcome (ntype b) (nflags b) (take (Z.to_nat (declared_len b)) b)) as Ho.
  rewrite Hlen, ntype_take in Ho by (abi; lia). specialize (Ho Hd eq_refl).
  assert (Hfam : sizePAddrChange <= declared_len b ->
    addr_family (take (Z.to_nat (declared_len b)) b) = addr_family b) by (intros; apply addr_family_take; abi; lia).
  unfold case_outcome, record_whole in Ho. rewrite Hlen in Ho.
  destruct (parse_record _ _ _) as [n | e |] eqn:Hn; [| | done].
  - destruct Ho as [[Hs Ha] Ht]. apply parse_record_typed in Hn.
    assert (fixed_size (ntype b) <= declared_len b) by (destruct (Z.le_gt_cases (fixed_size (ntype b)) (declared_len b)); [done | by destruct Hs; left; lia]).
    split; [auto |]. split_and!; [lia | | intros (_ & _ & _ & Hp & Hz & H4 & H6); rewrite <- Hfam in H4, H6 by done; by destruct (Ha Hp)].
    intros [? | [? | [_ [? | ?]]]]; [lia | lia | lia | done].
  - destruct Ho as [[-> Hs] | (-> & Hp & Hz & H4 & H6)]; [by auto 8 |]. rewrite Hfam in H4, H6 by done. by auto 12.
Qed.

Lemma refusals_exclusive b : ~ (too_long b /\ too_short b) /\ ~ (too_long b /\ bad_address b) /\ ~ (too_short b /\ bad_address b).
Proof.
  unfold too_long, too_short, bad_address, cut_short, notificationHeaderSize.
  assert (HL : NotificationReassemblyLimit = 1048576) by reflexivity. split_and!.
  - intros [[? ?] [? | [? | [? _]]]]; abi; lia.
  - intros [[? ?] (_ & ? & _)]. lia.
  - intros [Hs (? & ? & ? & Ht & ? & _)]. rewrite Ht in Hs. change (fixed_size EventPeerAddrChange) with sizePAddrChange in Hs.
    destruct Hs as [? | [? | [_ [? | [? | [? _]]]]]]; try (abi; lia). done.
Qed.

(** C37 ParseNotification is total on any bytes, on every target: it never
    panics, and it refuses bytes with ErrNotificationTooLong exactly when
    the header declares a length above the limit, with ErrShortNotification
    exactly when the header or the record it declares is not all there (the
    declared length below the header's, above uint32 of the length given,
    below the fixed size of its type, or ending a stream list in the middle
    of a stream), and with the unknown-family error, which matches EINVAL,
    exactly when the address of a whole SCTP_PEER_ADDR_CHANGE is of no known
    family.  Everything else it accepts: the declared length is within the
    limit and the buffer and at least the fixed size of its type, the type
    reported is the header's, and every field is in the range of its Go
    type. *)
Theorem ParseNotification_total b :
  (ParseNotification b = Err (Plain ErrNotificationTooLong) <-> too_long b) /\
  (ParseNotification b = Err (Plain ErrShortNotification) <-> too_short b) /\
  (ParseNotification b = Err errUnknownSockaddrFamily <-> bad_address b) /\
  errors_Is errUnknownSockaddrFamily (Errno EINVAL) = true /\
  match ParseNotification b with
  | Ret n => notificationHeaderSize <= declared_len b <= NotificationReassemblyLimit /\
             fixed_size (ntype b) <= declared_len b <= len b /\ Type_ n = Ret (ntype b) /\ notification_typed n
  | Err _ => too_long b \/ too_short b \/ bad_address b
  | Panic => False
  end.
Proof.
  pose proof (ParseNotification_outcome b) as Ho. destruct (refusals_exclusive b) as (X1 & X2 & X3).
  destruct (ParseNotification b) as [n | e |]; [| | done].
  - destruct Ho as (Ho & N1 & N2 & N3). split; [by split |]. split; [by split |]. split; [by split |]. by split.
  - assert (D : Plain ErrNotificationTooLong <> Plain ErrShortNotification /\
      Plain ErrNotificationTooLong <> errUnknownSockaddrFamily /\ Plain ErrShortNotification <> errUnknownSockaddrFamily) by done.
    destruct D as (D1 & D2 & D3).
    destruct Ho as [[-> Ho] | [[-> Ho] | [-> Ho]]]; (split_and!; [split | split | split | done |]);
      try done; try tauto; intros; exfalso; first [congruence | tauto].
Qed.

(** The header's length field is the record's extent: bytes after it,
    which belong to another read, never change the result. *)
Theorem ParseNotification_prefix b rest
    (Hhdr : notificationHeaderSize <= len b) (Hd : declared_len b <= len b)
    (Hmax : len b + len rest < 2 ^ 32) :
  ParseNotification (b ++ rest) = ParseNotification b.
Proof.
  pose proof (len_nonneg rest).
  assert (Hsub : forall x n, 0 <= x -> 0 <= n -> x + n <= 8 -> sub (b ++ rest) x n = sub b x n).
  { intros. apply sub_app_l; abi; lia. }
  assert (Hds : declared_len (b ++ rest) = declared_len b) by (unfold declared_len; by rewrite Hsub).
  rewrite !ParseNotification_eq, Hds.
  replace (ntype (b ++ rest)) with (ntype b) by (unfold ntype; by rewrite Hsub).
  replace (nflags (b ++ rest)) with (nflags b) by (unfold nflags; by rewrite Hsub).
  rewrite len_app, (proj2 (Z.ltb_ge (len b + len rest) _)), (proj2 (Z.ltb_ge (len b) _)) by lia. simpl.
  destruct (declared_len b <? notificationHeaderSize); [done |].
  destruct (NotificationReassemblyLimit <? declared_len b); [done |].
  pose proof (len_nonneg b). unfold u32. rewrite !Z.mod_small by lia.
  rewrite (proj2 (Z.ltb_ge (len b + len rest) _)), (proj2 (Z.ltb_ge (len b) _)) by lia.
  f_equal. apply take_app_le. unfold len in *. lia.
Qed.
End Total.

(** ** The kernel's records

    The struct of each notification as the kernel lays it out.  [EvAddr]
    carries what the kernel knows of an address change: the address as an
    AF_INET or AF_INET6 sockaddr and the raw reason.  An error cause is
    stored in network order; in ssf_error, a 32-bit field, the kernel
    stores the 16-bit network-order number promoted to 32 bits. *)
Inductive event :=
| Ev (n : Notification)
| EvAddr (family : Z) (ip : Addr) (port state raw assoc : Z).

Section Kernel.
Context `{A : Arch} `{ZE : ZoneEnv}.

Definition flag_if (b : bool) (f : Z) : Z := if b then f else 0.

Definition n2 (v : Z) : bytes := bytes_of NativeEndian 2 v.
Definition n4 (v : Z) : bytes := bytes_of NativeEndian 4 v.
Definition cause16 (c : Z) : bytes := bytes_of BigEndian 2 c.
Definition cause32 (c : Z) : bytes := n4 (uint_of NativeEndian (cause16 c)).

(** Type, flags and body of an event. *)
Definition event_parts (e : event) : Z * Z * bytes :=
  match e with
  | Ev (NAssocChange n) =>
      (EventAssocChange, 0, n2 (ac_State n) ++ cause16 (ac_Error n) ++ n2 (ac_OutStreams n) ++
        n2 (ac_InStreams n) ++ n4 (ac_AssocID n) ++ ac_Info n)
  | Ev (NRemoteError n) =>
      (EventRemoteError, 0, cause16 (re_Error n) ++ zeros 2 ++ n4 (re_AssocID n) ++ re_Data n)
  | Ev (NShutdown n) => (EventShutdown, 0, n4 (sd_AssocID n))
  | Ev (NPartialDelivery n) =>
      (EventPartialDelivery, flag_if (pd_Unordered n) pdapiFlagUnordered,
       zeros 4 ++ n4 (pd_AssocID n) ++ n4 (pd_Stream n) ++ n4 (pd_SeqNum n))
  | Ev (NAdaptationIndication n) =>
      (EventAdaptationIndication, 0, n4 (ad_Indication n) ++ n4 (ad_AssocID n))
  | Ev (NAuthEvent n) =>
      (EventAuthentication, 0, n2 (au_Key n) ++ n2 (au_AltKey n) ++ n4 (au_Indication n) ++ n4 (au_AssocID n))
  | Ev (NSenderDry n) => (EventSenderDry, 0, n4 (dry_AssocID n))
  | Ev (NStreamReset n) =>
      (EventStreamReset,
       Z.lor (Z.lor (flag_if (sr_Incoming n) streamResetFlagIncoming) (flag_if (sr_Outgoing n) streamResetFlagOutgoing))
             (Z.lor (flag_if (sr_Denied n) streamResetFlagDenied) (flag_if (sr_Failed n) streamResetFlagFailed)),
       n4 (sr_AssocID n) ++ bytes_of_list NativeEndian 2 (sr_Streams n))
  | Ev (NAssocReset n) =>
      (EventAssocReset, Z.lor (flag_if (ar_Denied n) assocResetFlagDenied) (flag_if (ar_Failed n) assocResetFlagFailed),
       n4 (ar_AssocID n) ++ n4 (ar_LocalTSN n) ++ n4 (ar_RemoteTSN n))
  | Ev (NStreamChange n) =>
      (EventStreamChange, Z.lor (flag_if (sc_Denied n) streamChangeFlagDenied) (flag_if (sc_Failed n) streamChangeFlagFailed),
       n4 (sc_AssocID n) ++ n2 (sc_InStreams n) ++ n2 (sc_OutStreams n))
  | Ev (NSendFailed n) =>
      (EventSendFailed, flag_if (sf_Sent n) sendFailedFlagSent,
       cause32 (sf_Error n) ++ n2 (sf_Stream n) ++
       n2 (Z.lor (flag_if (sf_Unordered n) dataChunkFlagUnordered)
            (Z.lor (flag_if (sf_FirstFragment n) dataChunkFlagFirstFragment)
                   (flag_if (sf_LastFragment n) dataChunkFlagLastFragment))) ++
       bytes_of BigEndian 4 (sf_PPID n) ++ n4 (sf_Context n) ++ zeros 4 ++ n4 (sf_AssocID n) ++ sf_Data n)
  | Ev (NPeerAddrChange _) | Ev (NUnknown _) => (0, 0, [])
  | EvAddr family ip port state raw assoc =>
      (EventPeerAddrChange, 0,
       sockaddr_bytes family ip port ++ zeros (sizeSockaddrStorage - sockaddr_len family) ++
       n4 state ++ n4 raw ++ n4 assoc)
  end.

Definition event_bytes (e : event) : bytes :=
  let '(typ, flags, body) := event_parts e in
  n2 typ ++ n2 flags ++ n4 (notificationHeaderSize + len body) ++ body.

(** What the package reports for the event. *)
Definition reported (e : event) : Notification :=
  match e with
  | Ev n => n
  | EvAddr family ip port state raw assoc =>
      NPeerAddrChange {| pac_Addr := AddrPortFrom (decoded family ip) port; pac_State := state;
        pac_Reason := decodeAddrChangeReason raw state; pac_AssocID := assoc |}
  end.

(** The fields have the widths of the kernel's. *)
Definition event_wf (e : event) : Prop :=
  match e with
  | Ev (NPeerAddrChange _) | Ev (NUnknown _) => False
  | Ev n => notification_typed n
  | EvAddr family ip port state raw assoc =>
      addr_wf ip /\ accepts family ip = true /\ is_u16 port /\ is_i32 state /\ is_i32 raw /\ is_i32 assoc
  end.

Lemma event_header e :
  event_wf e -> len (event_bytes e) <= NotificationReassemblyLimit ->
  let '(typ, flags, body) := event_parts e in
  ParseNotification (event_bytes e) = parse_record typ flags (event_bytes e).
Proof.
  intros Hwf Hl. unfold event_bytes in *.
  assert (Htf : let '(typ, flags, _) := event_parts e in is_u16 typ /\ is_u16 flags).
  { unfold is_u16. destruct e as [[] |]; simpl; try lia; unfold flag_if; repeat case_match; vm_compute; intuition congruence. }
  destruct (event_parts e) as [[typ flags] body]. destruct Htf as [Ht Hf].
  pose proof (len_nonneg body). unfold n2, n4 in *.
  set (b := bytes_of NativeEndian 2 typ ++ bytes_of NativeEndian 2 flags ++
    bytes_of NativeEndian 4 (notificationHeaderSize + len body) ++ body) in *.
  change NotificationReassemblyLimit with 1048576 in Hl.
  assert (Hlb : len b = 8 + len body) by (unfold b; solve_len). change notificationHeaderSize with 8 in *.
  assert (Hd : declared_len b = len b).
  { rewrite Hlb. unfold declared_len, b. abi. read_field. by rewrite uint_of_4, u32_small by (unfold is_u32; lia). }
  rewrite ParseNotification_eq, Hd.
  replace (ntype b) with typ by (unfold ntype, b; abi; read_field; by rewrite uint_of_2, u16_small).
  replace (nflags b) with flags by (unfold nflags, b; abi; read_field; by rewrite uint_of_2, u16_small).
  unfold u32. rewrite Z.mod_small by lia. change NotificationReassemblyLimit with 1048576. abi.
  rewrite !(proj2 (Z.ltb_ge _ _)) by lia. simpl.
  by rewrite take_ge by (unfold len; lia).
Qed.

Lemma cause32_ok c :
  is_u16 c ->
  uint_of BigEndian (bytes_of NativeEndian 2 (u16 (u32 (uint_of NativeEndian (cause16 c))))) = c.
Proof.
  intros Hc. pose proof (uint_of_range NativeEndian (cause16 c) 2 (len_bytes_of _ _ _)) as Hr.
  rewrite u32_small, u16_small by (unfold is_u32, is_u16 in *; lia).
  pose proof (bytes_of_uint_of NativeEndian (cause16 c)) as Hb.
  unfold cause16 in *. rewrite length_bytes_of in Hb. rewrite Hb. rewrite uint_of_2. by apply u16_small.
Qed.
End Kernel.

(** Reads the fields of a laid-out record back. *)
Ltac read_back :=
  rewrite (proj2 (Z.ltb_ge _ _)) by (abi; solve_len);
  repeat first [ rewrite get2_ok by (abi; solve_len) | rewrite get4_ok by (abi; solve_len)
               | rewrite causeFromU32_ok by (abi; solve_len)
               | rewrite tail_after_ok by (abi; solve_len) ]; next;
  abi; read_field;
  rewrite ?uint_of_2, ?uint_of_4, ?i32_u32, ?u16_small, ?u32_small by (first [done | intuition]).

Section Roundtrip.
Context `{A : Arch} `{ZE : ZoneEnv}.

(** What each case of the switch makes of its own record. *)
Definition record_ok (e : event) : Prop :=
  event_wf e ->
  let '(typ, flags, _) := event_parts e in parse_record typ flags (event_bytes e) = Ret (reported e).

Lemma assoc_change_ok n : record_ok (Ev (NAssocChange n)).
Proof.
  intros Hwf. simpl in Hwf. destruct Hwf as (? & ? & ? & ? & ?).
  change (parse_assoc_change (event_bytes (Ev (NAssocChange n))) = Ret (NAssocChange n)).
  unfold event_bytes, event_parts, n2, n4, cause16, parse_assoc_change, causeFromU16. read_back.
  by destruct n.
Qed.

Lemma remote_error_ok n : record_ok (Ev (NRemoteError n)).
Proof.
  intros Hwf. simpl in Hwf. destruct Hwf as (? & ?).
  change (parse_remote_error (event_bytes (Ev (NRemoteError n))) = Ret (NRemoteError n)).
  unfold event_bytes, event_parts, n2, n4, cause16, parse_remote_error, causeFromU16. read_back.
  by destruct n.
Qed.

Lemma shutdown_ok n : record_ok (Ev (NShutdown n)).
Proof.
  intros Hwf. simpl in Hwf.
  change (parse_shutdown (event_bytes (Ev (NShutdown n))) = Ret (NShutdown n)).
  unfold event_bytes, event_parts, n2, n4, parse_shutdown. read_back. by destruct n.
Qed.

Lemma partial_delivery_ok n : record_ok (Ev (NPartialDelivery n)).
Proof.
  intros Hwf. simpl in Hwf. destruct Hwf as (? & ? & ?).
  change (parse_partial_delivery (event_bytes (Ev (NPartialDelivery n)))
    (flag_if (pd_Unordered n) pdapiFlagUnordered) = Ret (NPartialDelivery n)).
  unfold event_bytes, event_parts, n2, n4, parse_partial_delivery. read_back.
  by destruct n as [? ? [] ?].
Qed.

Lemma adaptation_ok n : record_ok (Ev (NAdaptationIndication n)).
Proof.
  intros Hwf. simpl in Hwf. destruct Hwf as (? & ?).
  change (parse_adaptation (event_bytes (Ev (NAdaptationIndication n))) = Ret (NAdaptationIndication n)).
  unfold event_bytes, event_parts, n2, n4, parse_adaptation. read_back. by destruct n.
Qed.

Lemma auth_ok n : record_ok (Ev (NAuthEvent n)).
Proof.
  intros Hwf. simpl in Hwf. destruct Hwf as (? & ? & ? & ?).
  change (parse_auth (event_bytes (Ev (NAuthEvent n))) = Ret (NAuthEvent n)).
  unfold event_bytes, event_parts, n2, n4, parse_auth. read_back. by destruct n.
Qed.

Lemma sender_dry_ok n : record_ok (Ev (NSenderDry n)).
Proof.
  intros Hwf. simpl in Hwf.
  change (parse_sender_dry (event_bytes (Ev (NSenderDry n))) = Ret (NSenderDry n)).
  unfold event_bytes, event_parts, n2, n4, parse_sender_dry. read_back. by destruct n.
Qed.

Lemma assoc_reset_ok n : record_ok (Ev (NAssocReset n)).
Proof.
  intros Hwf. simpl in Hwf. destruct Hwf as (? & ? & ?).
  change (parse_assoc_reset (event_bytes (Ev (NAssocReset n)))
    (Z.lor (flag_if (ar_Denied n) assocResetFlagDenied) (flag_if (ar_Failed n) assocResetFlagFailed))
    = Ret (NAssocReset n)).
  unfold event_bytes, event_parts, n2, n4, parse_assoc_reset. read_back.
  by destruct n as [[] [] ? ? ?].
Qed.

Lemma stream_change_ok n : record_ok (Ev (NStreamChange n)).
Proof.
  intros Hwf. simpl in Hwf. destruct Hwf as (? & ? & ?).
  change (parse_stream_change (event_bytes (Ev (NStreamChange n)))
    (Z.lor (flag_if (sc_Denied n) streamChangeFlagDenied) (flag_if (sc_Failed n) streamChangeFlagFailed))
    = Ret (NStreamChange n)).
  unfold event_bytes, event_parts, n2, n4, parse_stream_change. read_back.
  by destruct n as [[] [] ? ? ?].
Qed.

Lemma send_failed_ok n : record_ok (Ev (NSendFailed n)).
Proof.
  intros Hwf. simpl in Hwf. destruct Hwf as (? & ? & ? & ? & ?).
  change (parse_send_failed (event_bytes (Ev (NSendFailed n)))
    (flag_if (sf_Sent n) sendFailedFlagSent) = Ret (NSendFailed n)).
  unfold event_bytes, event_parts, parse_send_failed, cause32, n2, n4. read_back.
  rewrite cause32_ok, (u16_small (sf_Stream n)), !u32_small by done.
  by destruct n as [? [] ? ? ? [] [] [] ? ?].
Qed.

Lemma stream_reset_ok n : record_ok (Ev (NStreamReset n)).
Proof.
  intros Hwf. simpl in Hwf. destruct Hwf as (Hs & ?).
  change (parse_stream_reset (event_bytes (Ev (NStreamReset n)))
    (Z.lor (Z.lor (flag_if (sr_Incoming n) streamResetFlagIncoming) (flag_if (sr_Outgoing n) streamResetFlagOutgoing))
           (Z.lor (flag_if (sr_Denied n) streamResetFlagDenied) (flag_if (sr_Failed n) streamResetFlagFailed)))
    = Ret (NStreamReset n)).
  unfold event_bytes, event_parts, n2, n4, parse_stream_reset.
  set (bl := bytes_of_list NativeEndian 2 (sr_Streams n)).
  assert (Hbl : len bl = 2 * len (sr_Streams n)) by apply len_bytes_of_list.
  pose proof (len_nonneg (sr_Streams n)).
  rewrite (proj2 (Z.ltb_ge _ _)) by (abi; solve_len).
  unfold slice_from. rewrite slice_ok by (abi; solve_len). next.
  abi. read_field. rewrite Hbl, Z.rem_mod_nonneg, Z.quot_div_nonneg by lia.
  rewrite (Z.mul_comm 2), Z.mod_mul, Z.div_mul by lia. simpl negb. cbv iota.
  replace (Z.to_nat (len (sr_Streams n))) with (length (sr_Streams n)) by (unfold len; lia).
  pose proof (get_list_encoded (E:=error) NativeEndian 2 (sr_Streams n) [] [] 0 eq_refl Hs) as Hg.
  rewrite app_nil_r in Hg. unfold bl. cbn [app] in Hg. rewrite Hg. next.
  rewrite get4_ok by solve_len. next. read_field. rewrite uint_of_4, i32_u32 by done.
  by destruct n as [[] [] [] [] ? ?].
Qed.

Lemma addr_change_ok family ip port state raw assoc :
  record_ok (EvAddr family ip port state raw assoc).
Proof.
  intros Hwf. simpl in Hwf. destruct Hwf as (Hip & Hacc & Hport & ? & ? & ?).
  change (decodePeerAddrChangeOrder (event_bytes (EvAddr family ip port state raw assoc)) NativeEndian
    = Ret (reported (EvAddr family ip port state raw assoc))).
  unfold event_bytes, event_parts, n2, n4, decodePeerAddrChangeOrder.
  set (sa := sockaddr_bytes family ip port). set (pad := zeros _).
  assert (Hsa : len sa + len pad = 128 /\ 0 <= len sa /\ 0 <= len pad).
  { pose proof (len_sockaddr_bytes family ip port Hip Hacc) as Hl. fold sa in Hl.
    assert (Hpl : len pad = 128 - len sa).
    { unfold pad. rewrite Hl. apply len_zeros. unfold sockaddr_len. abi. destruct (_ =? _); lia. }
    pose proof (len_nonneg sa). unfold sockaddr_len in Hl. abi. destruct (_ =? _) in Hl; lia. }
  rewrite (proj2 (Z.ltb_ge _ _)) by (abi; solve_len).
  rewrite slice_ok by (abi; solve_len). next.
  assert (Hf : forall x y z (t : bytes), sub (n2 x ++ n2 y ++ n4 z ++ sa ++ pad ++ t) 8 128 = sa ++ pad).
  { intros x y z t. unfold n2, n4. rewrite (app_assoc sa pad t).
    assert (len (sa ++ pad) = 128) by (rewrite len_app; lia). read_field. done. }
  unfold n2, n4 in Hf. abi. rewrite Hf.
  pose proof (decodeAddr_encoded family ip port pad Hip Hacc Hport) as Hdec. fold sa in Hdec.
  rewrite Hdec. next.
  repeat rewrite get4_ok by solve_len. next.
  read_field. by rewrite !uint_of_4, !i32_u32.
Qed.

Lemma event_record_ok e : record_ok e.
Proof.
  destruct e as [[n | n | n | n | n | n | n | n | n | n | n | n | d] | family ip port state raw assoc];
    auto using assoc_change_ok, remote_error_ok, shutdown_ok, partial_delivery_ok, adaptation_ok,
      auth_ok, sender_dry_ok, stream_reset_ok, assoc_reset_ok, stream_change_ok, send_failed_ok,
      addr_change_ok; intros [].
Qed.

(** C25 Round trip of all twelve types, on every target: a record laid out
    as the kernel lays it out, of any size up to the reassembly limit,
    parses to exactly its fields: variable tails byte for byte, causes out
    of network order, PPIDs in host order, ids as signed 32-bit numbers,
    and the address of a change in plain form. *)
Theorem notification_roundtrip e
    (Hwf : event_wf e) (Hl : len (event_bytes e) <= NotificationReassemblyLimit) :
  ParseNotification (event_bytes e) = Ret (reported e).
Proof.
  pose proof (event_header e Hwf Hl) as Hh. pose proof (event_record_ok e Hwf) as Hr.
  destruct (event_parts e) as [[typ flags] body]. congruence.
Qed.

(** The integer promotion of a cause is undone for either byte order:
    the 32-bit field a kernel of order [o] stores for cause [c] decodes to
    [c]; on a big-endian host too, where the bytes are not the network
    form. *)
Theorem causeFromU32Order_promotion o c rest (Hc : is_u16 c) :
  causeFromU32Order (bytes_of o 4 (uint_of o (bytes_of BigEndian 2 c)) ++ rest) 0 o = Ret c.
Proof.
  unfold causeFromU32Order. pose proof (len_nonneg rest).
  rewrite get4_ok by solve_len. next. read_field. rewrite uint_of_4.
  pose proof (uint_of_range o (bytes_of BigEndian 2 c) 2 (len_bytes_of _ _ _)) as Hr.
  rewrite u32_small, u16_small by (unfold is_u32, is_u16 in *; lia).
  pose proof (bytes_of_uint_of o (bytes_of BigEndian 2 c)) as Hb. rewrite length_bytes_of in Hb.
  rewrite Hb, get_ok, sub_whole by (rewrite ?len_bytes_of; done).
  by rewrite uint_of_2, u16_small.
Qed.
End Roundtrip.

(** ** Witnesses *)
Definition sample_failed : Notification := NSendFailed {|
  sf_Error := CauseUserAbort; sf_Sent := true; sf_Stream := 7; sf_PPID := 46; sf_Context := 99;
  sf_Unordered := false; sf_FirstFragment := true; sf_LastFragment := true;
  sf_AssocID := 12; sf_Data := [Byte.x01; Byte.x02; Byte.x03] |}.

Lemma notification_roundtrip_witness :
  @ParseNotification s390x host_zones (@event_bytes s390x host_zones (Ev sample_failed)) =
  Ret sample_failed.
Proof.
  apply (@notification_roundtrip s390x host_zones (Ev sample_failed)).
  - simpl. unfold is_u16, is_u32, is_i32, CauseUserAbort. lia.
  - vm_compute. discriminate.
Defined.

Lemma ParseNotification_prefix_witness :
  @ParseNotification amd64 host_zones
    (@event_bytes amd64 host_zones (Ev sample_failed) ++ [Byte.xff]) =
  @ParseNotification amd64 host_zones (@event_bytes amd64 host_zones (Ev sample_failed)).
Proof.
  apply (@ParseNotification_prefix amd64 host_zones).
  - vm_compute. discriminate.
  - vm_compute. discriminate.
  - vm_compute. reflexivity.
Defined.

Lemma causeFromU32Order_promotion_witness :
  @causeFromU32Order (bytes_of BigEndian 4 (uint_of BigEndian (bytes_of BigEndian 2 12)) ++ [])
    0 BigEndian = Ret 12.
Proof. apply causeFromU32Order_promotion. unfold is_u16. lia. Defined.
