(* ===== verification/Accumulator.v ===== *)
(** * Reassembly of split notifications (src/notification.go)

    notificationAccumulator: the state a connection keeps between two reads
    of one notification, and its methods.  [acap] is the capacity of the
    data slice, which append may grow: [growcap] is the Go runtime's choice
    of the new capacity, from the old one and the length needed.

    The theorems relate the state to the bytes added since the last reset:
    finish returns them, whole, exactly when they are a record of the
    declared length, however they were split; an error is final; keep,
    peekType and head see the bytes already added; and reset leaves no
    more than 64 KiB of storage. *)
From Stdlib Require Import ZArith Lia Bool.
From stdpp Require Import base list option strings.
From coqutil Require Import Byte.
From S2P Require Import Prelude Abi Errors Enums Notification.

Class SliceGrowth := {
  growcap : Z -> Z -> Z;
  growcap_enough : forall old need, need <= growcap old need;
}.

Record notificationAccumulator := {
  data : bytes;
  acap : Z;
  prefix : bytes;
  prefixBytes : Z;
  total : Z;
  declared : Z;
  haveDeclared : bool;
  retain : bool;
  aerr : option error;
}.

Section Ops.
Context `{A : Arch} `{G : SliceGrowth}.

(** [append(a.data, v...)] *)
Definition append_data (a : notificationAccumulator) (v : bytes) : bytes * Z :=
  let need := len (data a) + len v in
  (data a ++ v, if need <=? acap a then acap a else growcap (acap a) need).

Definition fail (a : notificationAccumulator) (e : error) : notificationAccumulator := {|
  data := []; acap := 0; prefix := prefix a; prefixBytes := prefixBytes a; total := total a;
  declared := declared a; haveDeclared := haveDeclared a; retain := retain a; aerr := Some e |}.

(** The middle of add: the prefix and the byte count, then the declared
    length once the header is complete. *)
Definition add_prefix (a : notificationAccumulator) (fragment : bytes) : notificationAccumulator :=
  let k := if prefixBytes a <? len (prefix a)
           then Z.min (len (prefix a) - prefixBytes a) (len fragment) else 0 in
  {| data := data a; acap := acap a;
     prefix := splice (prefix a) (prefixBytes a) (take (Z.to_nat k) fragment);
     prefixBytes := prefixBytes a + k; total := total a + len fragment;
     declared := declared a; haveDeclared := haveDeclared a; retain := retain a; aerr := aerr a |}.

Definition set_declared (a : notificationAccumulator) (d : Z) : notificationAccumulator := {|
  data := data a; acap := acap a; prefix := prefix a; prefixBytes := prefixBytes a;
  total := total a; declared := d; haveDeclared := true; retain := retain a; aerr := aerr a |}.

Definition set_data (a : notificationAccumulator) (d : bytes * Z) (r : bool) : notificationAccumulator := {|
  data := fst d; acap := snd d; prefix := prefix a; prefixBytes := prefixBytes a;
  total := total a; declared := declared a; haveDeclared := haveDeclared a; retain := r; aerr := aerr a |}.

(** [a.prefixBytes >= notificationHeaderSize && !a.haveDeclared] *)
Definition header_complete (a : notificationAccumulator) : bool :=
  (notificationHeaderSize <=? prefixBytes a) && negb (haveDeclared a).

Definition read_declared (a : notificationAccumulator) : notificationAccumulator :=
  if header_complete a
  then set_declared a (uint_of NativeEndian (sub (prefix a) notificationLengthOff 4)) else a.

(** The checks of the declared length ([complete]: just read), and what is
    kept of the fragment. *)
Definition check_declared (complete : bool) (a : notificationAccumulator) (fragment : bytes)
    : notificationAccumulator :=
  if complete && (declared a <? notificationHeaderSize) then fail a (Plain ErrShortNotification) else
  if complete && (NotificationReassemblyLimit <? declared a)
  then fail a (Plain ErrNotificationTooLong) else
  if haveDeclared a && (declared a <? u32 (total a)) then fail a (Plain ErrShortNotification) else
  if retain a then set_data a (append_data a fragment) true else a.

Definition add (a : notificationAccumulator) (fragment : bytes) : notificationAccumulator :=
  if bool_decide (is_Some (aerr a)) || (len fragment =? 0) then a else
  if NotificationReassemblyLimit - total a <? len fragment
  then fail a (Plain ErrNotificationTooLong) else
  let a := add_prefix a fragment in
  check_declared (header_complete a) (read_declared a) fragment.

Definition peekType (a : notificationAccumulator) (next : bytes) : out error (option Z) :=
  if total a + len next <? notificationHeaderSize then Ret None else
  head ← slice (prefix a) 0 (prefixBytes a);
  let hdr := take (Z.to_nat notificationHeaderSize) head in
  let hdr := hdr ++ take (Z.to_nat notificationHeaderSize - length hdr) next in
  let hdr := hdr ++ zeros (notificationHeaderSize - len hdr) in
  typ ← get_at NativeEndian 2 hdr notificationTypeOff;
  Ret (Some typ).

Definition keep (a : notificationAccumulator) : notificationAccumulator * bool :=
  if retain a then (a, true)
  else if bool_decide (is_Some (aerr a)) || (prefixBytes a <? total a) then (a, false)
  else (set_data a (append_data a (sub (prefix a) 0 (prefixBytes a))) true, true).

Definition head (a : notificationAccumulator) : bytes := sub (prefix a) 0 (prefixBytes a).

Definition finish (a : notificationAccumulator) : out error bytes :=
  match aerr a with
  | Some e => Err e
  | None =>
      if negb (haveDeclared a) || negb (u32 (total a) =? declared a)
      then Err (Plain ErrShortNotification) else Ret (data a)
  end.

Definition interrupted (a : notificationAccumulator) : error :=
  match finish a with
  | Err e =>
      if errors_Is e ErrShortNotification then e
      else Joined [e; Plain ErrShortNotification]
  | _ => Plain ErrShortNotification
  end.

Definition reset (a : notificationAccumulator) : notificationAccumulator := {|
  data := []; acap := if notificationDataDropCap <? acap a then 0 else acap a;
  prefix := zeros sizeAssocChange; prefixBytes := 0; total := 0; declared := 0;
  haveDeclared := false; retain := false; aerr := None |}.
End Ops.

(** ** The bytes of the record in progress *)
Section Spec.
Context `{A : Arch} `{G : SliceGrowth}.

(** A complete record: its length is the declared one, within the limit. *)
Definition whole (r : bytes) : Prop :=
  notificationHeaderSize <= len r <= NotificationReassemblyLimit /\ declared_len r = len r.

(** The accumulator has seen exactly the bytes [r] of a record. *)
Definition seen (a : notificationAccumulator) (r : bytes) : Prop :=
  len (prefix a) = sizeAssocChange /\
  len (data a) <= NotificationReassemblyLimit /\
  match aerr a with
  | None =>
      prefixBytes a = Z.min sizeAssocChange (len r) /\
      sub (prefix a) 0 (prefixBytes a) = sub r 0 (prefixBytes a) /\
      total a = len r /\ len r <= NotificationReassemblyLimit /\
      haveDeclared a = (notificationHeaderSize <=? len r) /\
      (notificationHeaderSize <= len r ->
       declared a = declared_len r /\
       notificationHeaderSize <= declared a <= NotificationReassemblyLimit /\ len r <= declared a) /\
      data a = (if retain a then r else [])
  | Some e =>
      (e = Plain ErrShortNotification \/ e = Plain ErrNotificationTooLong) /\
      forall more, ~ whole (r ++ more)
  end.
End Spec.

Section Proofs.
Context `{A : Arch} `{G : SliceGrowth}.

Lemma limit_value : NotificationReassemblyLimit = 1048576.
Proof. reflexivity. Qed.

Lemma seen_reset a : seen (reset a) [].
Proof.
  unfold seen, reset. cbn [prefix data aerr prefixBytes total haveDeclared declared retain].
  change (len (@nil byte)) with 0. rewrite limit_value.
  split; [done |]. split; [lia |]. repeat split; abi; try done; lia.
Qed.

Lemma sub_prefix {B} (l k : list B) n : 0 <= n <= len l -> sub (l ++ k) 0 n = sub l 0 n.
Proof. intros. apply sub_app_l; lia. Qed.

(** The prefix after a fragment is the head of the longer record. *)
Lemma add_prefix_seen a r f :
  seen a r -> aerr a = None -> len r + len f <= NotificationReassemblyLimit ->
  let a' := add_prefix a f in
  len (prefix a') = sizeAssocChange /\
  prefixBytes a' = Z.min sizeAssocChange (len (r ++ f)) /\
  sub (prefix a') 0 (prefixBytes a') = sub (r ++ f) 0 (prefixBytes a').
Proof.
  intros (Hp & _ & Hs) He Hl. rewrite He in Hs. destruct Hs as (Hpb & Hsub & _).
  pose proof (len_nonneg r). pose proof (len_nonneg f). abi.
  unfold add_prefix. cbn [prefix prefixBytes]. rewrite Hp, len_app.
  destruct (Z.ltb_spec (prefixBytes a) 20) as [Hlt | Hge].
  - assert (Hr : prefixBytes a = len r) by lia. rewrite Hr in *.
    set (k := Z.min (20 - len r) (len f)).
    assert (Hk : len (take (Z.to_nat k) f) = k) by (rewrite len_take; lia).
    rewrite len_splice by lia. split; [done |]. split; [lia |].
    rewrite sub_split, sub_splice_before by lia. simpl.
    rewrite <- Hk at 2. rewrite sub_splice_same by lia.
    rewrite (sub_split (r ++ f)), sub_app_l, sub_app_r by lia.
    rewrite Z.add_0_l, Z.sub_diag, Hsub. reflexivity.
  - change (take (Z.to_nat 0) f) with (@nil byte).
    rewrite len_splice by (rewrite ?Hp; change (len (@nil byte)) with 0; lia).
    split; [done |]. split; [lia |]. rewrite Z.add_0_r.
    rewrite sub_splice_before by (rewrite ?Hp; change (len (@nil byte)) with 0; lia).
    by rewrite sub_prefix by lia.
Qed.

Lemma declared_of_prefix (p r : bytes) n :
  notificationHeaderSize <= n <= len r -> sub p 0 n = sub r 0 n ->
  uint_of NativeEndian (sub p notificationLengthOff 4) = declared_len r.
Proof.
  intros Hn Hs. unfold declared_len. f_equal. abi.
  apply (f_equal (fun l => sub l 4 4)) in Hs. rewrite !sub_sub in Hs by lia. done.
Qed.

(** Once a record cannot be whole, nothing added makes it whole. *)
Lemma not_whole_long r : NotificationReassemblyLimit < len r -> forall more, ~ whole (r ++ more).
Proof. intros H more [[_ Hl] _]. rewrite len_app in Hl. pose proof (len_nonneg more). lia. Qed.

Lemma declared_len_app r more : notificationHeaderSize <= len r -> declared_len (r ++ more) = declared_len r.
Proof. intros. unfold declared_len. rewrite sub_app_l by (abi; lia). done. Qed.

Lemma not_whole_declared r :
  notificationHeaderSize <= len r ->
  declared_len r < notificationHeaderSize \/ NotificationReassemblyLimit < declared_len r \/
  declared_len r < len r ->
  forall more, ~ whole (r ++ more).
Proof.
  intros Hr Hd more [[H1 H2] H3]. rewrite declared_len_app in H3 by done.
  pose proof (len_nonneg more). rewrite len_app in *. lia.
Qed.

Lemma seen_fail a r e :
  len (prefix a) = sizeAssocChange -> (e = Plain ErrShortNotification \/ e = Plain ErrNotificationTooLong) ->
  (forall more, ~ whole (r ++ more)) -> seen (fail a e) r.
Proof.
  intros Hp He Hn. unfold seen, fail. cbn [prefix data aerr].
  split; [done |]. split; [change (len (@nil byte)) with 0; rewrite limit_value; lia | done].
Qed.

(** The declared length after a fragment. *)
Lemma read_declared_seen a r f :
  seen a r -> aerr a = None -> len r + len f <= NotificationReassemblyLimit ->
  let a1 := add_prefix a f in let a2 := read_declared a1 in let r1 := r ++ f in
  prefix a2 = prefix a1 /\ prefixBytes a2 = prefixBytes a1 /\ total a2 = len r1 /\
  retain a2 = retain a /\ aerr a2 = None /\ data a2 = data a /\
  haveDeclared a2 = (notificationHeaderSize <=? len r1) /\
  (notificationHeaderSize <= len r1 -> declared a2 = declared_len r1 /\
   (header_complete a1 = false ->
    notificationHeaderSize <= declared a2 <= NotificationReassemblyLimit)).
Proof.
  intros Hs He Hl a1 a2 r1. destruct (add_prefix_seen a r f Hs He Hl) as (Hp' & Hpb' & Hsub').
  fold a1 r1 in Hp', Hpb', Hsub'. destruct Hs as (_ & _ & Hst). rewrite He in Hst.
  destruct Hst as (_ & _ & Htot & _ & Hhd & Hdec & _).
  pose proof (len_nonneg r). pose proof (len_nonneg f).
  assert (Hr1 : len r1 = len r + len f) by apply len_app.
  assert (Htot1 : total a1 = len r1) by (change (total a1) with (total a + len f); lia).
  assert (Hhd1 : haveDeclared a1 = (notificationHeaderSize <=? len r)) by exact Hhd.
  unfold a2, read_declared, header_complete. rewrite Hhd1, Hpb'. abi.
  destruct (Z.leb_spec 8 (len r)) as [H8 | H8].
  - cbn [negb]. rewrite andb_false_r. cbv iota.
    rewrite Hhd1, (proj2 (Z.leb_le 8 (len r1))) by lia.
    destruct (Hdec ltac:(lia)) as (Hd1 & Hd2 & _).
    repeat (split; [done |]). intros _. change (declared a1) with (declared a). split; [| auto].
    rewrite Hd1. unfold r1. by rewrite declared_len_app by (abi; lia).
  - cbn [negb]. rewrite andb_true_r.
    destruct (Z.leb_spec 8 (Z.min 20 (len r1))).
    + rewrite (proj2 (Z.leb_le 8 (len r1))) by lia.
      repeat (split; [done |]). intros _. split; [| done].
      apply (declared_of_prefix _ _ (prefixBytes a1)); [abi; lia | exact Hsub'].
    + rewrite Hhd1, (proj2 (Z.leb_gt 8 (len r1))) by lia.
      repeat (split; [done |]). intros; lia.
Qed.

Lemma header_complete_len a r f :
  seen a r -> aerr a = None -> len r + len f <= NotificationReassemblyLimit ->
  header_complete (add_prefix a f) = true -> notificationHeaderSize <= len (r ++ f).
Proof.
  intros Hs He Hl Hc. destruct (add_prefix_seen a r f Hs He Hl) as (_ & Hpb & _).
  unfold header_complete in Hc. apply andb_prop in Hc as [Hc%Z.leb_le _]. lia.
Qed.

(** add extends what has been seen by the fragment. *)
Lemma seen_add a r f : seen a r -> seen (add a f) (r ++ f).
Proof.
  intros Hs. pose proof Hs as (Hp & Hdl & Hst). pose proof (len_nonneg r). pose proof (len_nonneg f).
  unfold add. destruct (aerr a) as [e |] eqn:He.
  { split; [done |]. split; [done |]. cbn. rewrite He. destruct Hst as [H1 H2].
    split; [done |]. intros more. rewrite <- app_assoc. apply H2. }
  cbn [bool_decide]. destruct Hst as (_ & _ & Htot & _ & _ & _ & Hdat). rewrite bool_decide_eq_false_2 by (by intros [? ?]).
  destruct (Z.eqb_spec (len f) 0) as [E | Hf].
  { apply len_zero in E as ->. by rewrite app_nil_r. }
  cbn [orb]. rewrite Htot.
  destruct (Z.ltb_spec (NotificationReassemblyLimit - len r) (len f)) as [Hbig | Hfit].
  { apply seen_fail; auto. apply not_whole_long. rewrite len_app. lia. }
  assert (Hl : len r + len f <= NotificationReassemblyLimit) by lia.
  destruct (add_prefix_seen a r f Hs He Hl) as (Hp' & Hpb' & Hsub').
  destruct (read_declared_seen a r f Hs He Hl) as (E1 & E2 & E3 & E4 & E5 & E6 & E7 & E8).
  pose proof (header_complete_len a r f Hs He Hl) as Hcl.
  assert (Hr1 : len (r ++ f) = len r + len f) by apply len_app.
  cbv zeta. set (a2 := read_declared (add_prefix a f)) in *. set (c := header_complete (add_prefix a f)) in *.
  set (r1 := r ++ f) in *. rewrite <- E1 in Hp', Hsub'. rewrite <- E2 in Hpb', Hsub'.
  unfold check_declared.
  assert (Hbad : forall e, (e = Plain ErrShortNotification \/ e = Plain ErrNotificationTooLong) ->
            notificationHeaderSize <= len r1 ->
            (declared_len r1 < notificationHeaderSize \/ NotificationReassemblyLimit < declared_len r1 \/
             declared_len r1 < len r1) -> seen (fail a2 e) r1)
    by (intros; apply seen_fail; auto using not_whole_declared).
  destruct (c && (declared a2 <? notificationHeaderSize)) eqn:C1.
  { apply andb_prop in C1 as [C1 C2%Z.ltb_lt]. pose proof (E8 (Hcl C1)) as [Hd _]. apply Hbad; auto; lia. }
  destruct (c && (NotificationReassemblyLimit <? declared a2)) eqn:C2.
  { apply andb_prop in C2 as [C2 C3%Z.ltb_lt]. pose proof (E8 (Hcl C2)) as [Hd _]. apply Hbad; auto; lia. }
  assert (Hu : u32 (total a2) = len r1).
  { rewrite E3. apply u32_small. unfold is_u32. rewrite limit_value in Hl. lia. }
  rewrite E7, Hu. destruct ((notificationHeaderSize <=? len r1) && (declared a2 <? len r1)) eqn:C3.
  { apply andb_prop in C3 as [C3%Z.leb_le C4%Z.ltb_lt]. pose proof (E8 C3) as [Hd _]. apply Hbad; auto; lia. }
  assert (Hok : notificationHeaderSize <= len r1 ->
     declared a2 = declared_len r1 /\
     notificationHeaderSize <= declared a2 <= NotificationReassemblyLimit /\ len r1 <= declared a2).
  { intros H8. destruct (E8 H8) as [Hd Hrng]. split; [done |]. split.
    - destruct c; [| auto]. cbn [andb] in C1, C2. apply Z.ltb_ge in C1, C2. lia.
    - rewrite (proj2 (Z.leb_le _ _)) in C3 by done. cbn [andb] in C3. by apply Z.ltb_ge in C3. }
  rewrite E4. destruct (retain a) eqn:Hret.
  - unfold seen, set_data, append_data. cbn [prefix data aerr prefixBytes total haveDeclared declared retain fst snd].
    rewrite E5, E6, Hdat. fold r1. repeat (split; [first [done | lia] |]). done.
  - unfold seen. rewrite E4, E5, E6, Hdat. split; [done |].
    split; [change (len (@nil byte)) with 0; rewrite limit_value; lia |].
    repeat (split; [first [done | lia] |]). done.
Qed.

Lemma seen_adds fs a r : seen a r -> seen (foldl add a fs) (r ++ concat fs).
Proof.
  revert a r. induction fs as [| f fs IH]; intros a r Hs; simpl; [by rewrite app_nil_r |].
  rewrite app_assoc. by apply IH, seen_add.
Qed.

Lemma finish_seen a r :
  seen a r ->
  match finish a with
  | Ret d => whole r /\ d = (if retain a then r else [])
  | Err e => ~ whole r /\ (errors_Is e ErrShortNotification = true \/ e = Plain ErrNotificationTooLong)
  | Panic => False
  end.
Proof.
  intros (_ & _ & Hst). unfold finish. destruct (aerr a) as [e |].
  { destruct Hst as [He Hn]. specialize (Hn []). rewrite app_nil_r in Hn.
    destruct He as [-> | ->]; auto. }
  destruct Hst as (_ & _ & Htot & Hlim & Hhd & Hdec & Hdat). pose proof (len_nonneg r).
  rewrite Hhd, Htot, u32_small by (unfold is_u32; rewrite limit_value in Hlim; lia).
  destruct (Z.leb_spec notificationHeaderSize (len r)) as [H8 | H8]; cbn [negb orb].
  - destruct (Hdec H8) as (Hd & Hr & Hle). rewrite Hd in *.
    destruct (Z.eqb_spec (len r) (declared_len r)); cbn [negb].
    + split; [| done]. split; [lia | done].
    + split; [| by left]. intros [_ Hw]. lia.
  - split; [| by left]. intros [[Hw _] _]. lia.
Qed.

Lemma retain_adds fs a : retain a = true -> retain (foldl add a fs) = true.
Proof.
  revert a. induction fs as [| f fs IH]; intros a H; [done |]. simpl. apply IH.
  unfold add, check_declared, read_declared. repeat case_match; done.
Qed.

(** From a retaining accumulator that has seen [r]: what finish returns. *)
Lemma finish_retained a r fs :
  seen a r -> retain a = true ->
  (finish (foldl add a fs) = Ret (r ++ concat fs) /\ whole (r ++ concat fs)) \/
  (exists e, finish (foldl add a fs) = Err e /\ ~ whole (r ++ concat fs)).
Proof.
  intros Hs Hr. pose proof (finish_seen _ _ (seen_adds fs a r Hs)) as H.
  rewrite (retain_adds fs a Hr) in H.
  destruct (finish _) as [d | e |]; [left | right | done].
  - destruct H as [Hw ->]. auto.
  - destruct H as [Hw _]. eauto.
Qed.

(** keep, while every byte seen is still in the prefix. *)
Lemma keep_seen a r :
  seen a r -> aerr a = None -> retain a = false -> len r <= sizeAssocChange ->
  exists a', keep a = (a', true) /\ seen a' r /\ data a' = r /\ retain a' = true /\ aerr a' = None.
Proof.
  intros Hs He Hret Hr. pose proof Hs as (Hp & Hdl & Hst). rewrite He in Hst. pose proof (len_nonneg r).
  destruct Hst as (Hpb & Hsub & Htot & Hlim & Hhd & Hdec & Hdat). rewrite Hret in Hdat.
  unfold keep. rewrite Hret, He, Htot, Hpb, (proj2 (Z.ltb_ge _ _)) by lia. cbn [bool_decide orb].
  assert (Hall : sub (prefix a) 0 (Z.min sizeAssocChange (len r)) = r).
  { rewrite Hpb in Hsub. rewrite Hsub. replace (Z.min sizeAssocChange (len r)) with (len r) by lia.
    by apply sub_full. }
  eexists. split; [reflexivity |]. unfold seen, set_data, append_data.
  cbn [prefix data aerr prefixBytes total haveDeclared declared retain fst snd].
  rewrite He, Hall, Hdat. split; [| done]. split; [done |]. split; [exact Hlim |].
  repeat (split; [first [done | lia] |]). done.
Qed.

Lemma retain_add a f : retain (add a f) = retain a.
Proof. unfold add, check_declared, read_declared. repeat case_match; done. Qed.

(** No error before the header is complete. *)
Lemma add_short a r f :
  seen a r -> aerr a = None -> len r + len f < notificationHeaderSize -> aerr (add a f) = None.
Proof.
  intros Hs He Hl. pose proof (len_nonneg r). pose proof (len_nonneg f). unfold add. rewrite He. cbn [bool_decide orb].
  destruct (Z.eqb_spec (len f) 0); [done |].
  assert (Hlim : len r + len f <= NotificationReassemblyLimit) by (rewrite limit_value; abi; lia).
  pose proof Hs as (_ & _ & Hst). rewrite He in Hst. destruct Hst as (_ & _ & Htot & _).
  rewrite Htot, (proj2 (Z.ltb_ge _ _)) by lia.
  destruct (read_declared_seen a r f Hs He Hlim) as (_ & _ & _ & _ & E5 & _ & E7 & _).
  destruct (header_complete (add_prefix a f)) eqn:Hc.
  { apply (header_complete_len a r f Hs He Hlim) in Hc. rewrite len_app in Hc. lia. }
  unfold check_declared. rewrite E7, len_app, (proj2 (Z.leb_gt _ _)) by lia. cbn [andb].
  destruct (retain _); done.
Qed.

Lemma interrupted_short a : errors_Is (interrupted a) ErrShortNotification = true.
Proof.
  unfold interrupted. destruct (finish a) as [d | e |]; [done | | done].
  destruct (errors_Is e ErrShortNotification) eqn:E; [done |]. simpl. by rewrite orb_true_r.
Qed.

(** ** Theorems *)

(** C24 Reassembly does not depend on how a record was split: from a reset
    accumulator told to retain, finish returns the concatenation of the
    fragments, whole and unchanged, exactly when that is a record of its
    declared length (between a header and the limit), and fails otherwise. *)
Theorem reassembly a0 fs :
  let '(a1, ok) := keep (reset a0) in
  let a := foldl add a1 fs in
  ok = true /\
  ((finish a = Ret (concat fs) /\ whole (concat fs)) \/
   (exists e, finish a = Err e /\ ~ whole (concat fs))).
Proof.
  cbn [keep reset retain aerr prefixBytes total bool_decide]. split; [done |].
  apply (finish_retained _ []); [| done]. destruct (seen_reset a0) as (H1 & H2 & H3).
  split; [done |]. split; [done |]. exact H3.
Qed.

(** keep is retroactive: switched on while every byte is still in the
    prefix, the record then finishes whole, the bytes from before the
    switch included, however the rest is split; it refuses once bytes are
    lost or an error has stopped the record. *)
Theorem keep_retroactive a r fs (Hs : seen a r) (Hret : retain a = false) :
  let '(a', ok) := keep a in
  (ok = true <-> aerr a = None /\ len r <= sizeAssocChange) /\
  (ok = false -> a' = a) /\
  (ok = true -> data a' = r /\
     ((finish (foldl add a' fs) = Ret (r ++ concat fs) /\ whole (r ++ concat fs)) \/
      (exists e, finish (foldl add a' fs) = Err e /\ ~ whole (r ++ concat fs)))).
Proof.
  pose proof Hs as (_ & _ & Hst). pose proof (len_nonneg r). destruct (aerr a) as [e |] eqn:He.
  { unfold keep. rewrite Hret, He. cbn. split; [split; [done | by intros [? _]] |]. split; done. }
  destruct Hst as (Hpb & _ & Htot & _). destruct (Z.le_gt_cases (len r) sizeAssocChange) as [Hle | Hgt].
  - destruct (keep_seen a r Hs He Hret Hle) as (a' & -> & Hs' & Hd & Hr' & _).
    split; [done |]. split; [done |]. intros _. split; [done |]. by apply finish_retained.
  - unfold keep. rewrite Hret, He, Htot, Hpb, (proj2 (Z.ltb_lt _ _)) by lia. cbn.
    split; [split; [done | intros [_ ?]; lia] |]. split; done.
Qed.

(** The memory an accumulator holds is bounded: whatever is added, it
    never retains more than the reassembly limit, and reset leaves at most
    64 KiB of storage and an accumulator that has seen nothing.  An
    interrupted record is always reported as short, and an error, once
    recorded, is what finish reports from then on. *)
Theorem accumulator_bounds a r fs (Hs : seen a r) :
  len (data (foldl add a fs)) <= NotificationReassemblyLimit /\
  acap (reset (foldl add a fs)) <= notificationDataDropCap /\
  seen (reset (foldl add a fs)) [] /\
  errors_Is (interrupted a) ErrShortNotification = true /\
  (forall e, aerr a = Some e -> finish (foldl add a fs) = Err e).
Proof.
  split; [exact (proj1 (proj2 (seen_adds fs a r Hs))) |]. split.
  { unfold reset. cbn [acap]. destruct (Z.ltb_spec notificationDataDropCap (acap (foldl add a fs))); [done | lia]. }
  split; [apply seen_reset |]. split; [apply interrupted_short |].
  intros e He. assert (Hfix : foldl add a fs = a).
  { induction fs as [| f fs IH]; [done |]. simpl. unfold add at 2. by rewrite He. }
  rewrite Hfix. unfold finish. by rewrite He.
Qed.

(** peekType and head see the record's own bytes. *)
Lemma peek_seen a r next (Hs : seen a r) (He : aerr a = None) :
  peekType a next = Ret (if len r + len next <? notificationHeaderSize then None else Some (ntype (r ++ next))) /\
  head a = sub r 0 (Z.min sizeAssocChange (len r)).
Proof.
  destruct Hs as (Hp & _ & Hst). rewrite He in Hst. destruct Hst as (Hpb & Hsub & Htot & _).
  pose proof (len_nonneg r). pose proof (len_nonneg next).
  split; [| unfold head; by rewrite Hsub, Hpb].
  unfold peekType. rewrite Htot. destruct (Z.ltb_spec (len r + len next) notificationHeaderSize) as [| H8]; [done |].
  rewrite slice_ok by (rewrite ?Hp, ?Hpb; abi; lia). next. rewrite Z.sub_0_r, Hsub, Hpb.
  set (n := Z.min sizeAssocChange (len r)).
  assert (Hh : take (Z.to_nat notificationHeaderSize) (sub r 0 n) = take 8 r).
  { unfold sub, n. rewrite drop_0, take_take. abi. destruct (decide (length r <= 8)%nat).
    - rewrite !take_ge; [done | lia | unfold len; lia].
    - f_equal. unfold len. lia. }
  rewrite Hh. set (h := take 8 r ++ _).
  assert (Hhd : h = take 8 (r ++ next)).
  { unfold h. rewrite take_app. do 2 f_equal. change (Z.to_nat notificationHeaderSize) with 8%nat.
    rewrite length_take. lia. }
  assert (Hl8 : len h = 8) by (rewrite Hhd, len_take, len_app; abi; lia).
  change notificationHeaderSize with 8. rewrite Hl8. change (zeros (8 - 8)) with (@nil byte).
  rewrite app_nil_r, get2_ok by (abi; lia). next. unfold ntype. rewrite Hhd, sub_take by (abi; lia). done.
Qed.
End Proofs.

(** ** Witnesses *)
#[local] Instance grow_exact : SliceGrowth := { growcap := fun _ need => need; growcap_enough := fun _ _ => Z.le_refl _ }.

Definition empty_accumulator : notificationAccumulator := {|
  data := []; acap := 0; prefix := zeros sizeAssocChange; prefixBytes := 0; total := 0;
  declared := 0; haveDeclared := false; retain := false; aerr := None |}.

(** The first piece of a shutdown event: its type, flags and length. *)
Definition first_piece : bytes :=
  [Byte.x05; Byte.x80; Byte.x00; Byte.x00; Byte.x0c; Byte.x00; Byte.x00; Byte.x00].

Lemma keep_retroactive_witness :
  @seen amd64 (@add amd64 grow_exact (reset empty_accumulator) first_piece) ([] ++ first_piece) /\
  snd (@keep grow_exact (@add amd64 grow_exact (reset empty_accumulator) first_piece)) = true.
Proof.
  assert (Hs : @seen amd64 (@add amd64 grow_exact (reset empty_accumulator) first_piece) ([] ++ first_piece))
    by apply seen_add, seen_reset.
  split; [exact Hs |].
  pose proof (@keep_retroactive amd64 grow_exact _ ([] ++ first_piece) [] Hs eq_refl) as H.
  destruct (keep _) as [a' ok]. apply H. split; [reflexivity | vm_compute; discriminate].
Defined.

Lemma accumulator_bounds_witness :
  @seen amd64 (reset empty_accumulator) [] /\
  len (data (foldl (@add amd64 grow_exact) (reset empty_accumulator) [first_piece])) <= NotificationReassemblyLimit.
Proof.
  assert (Hs : @seen amd64 (reset empty_accumulator) []) by apply seen_reset.
  split; [exact Hs |]. exact (proj1 (@accumulator_bounds amd64 grow_exact _ [] [first_piece] Hs)).
Defined.
