(* ===== verification/Config.v ===== *)
(** * Config and its preparation (src/config.go)

    Config, socketStyle, the ordered configuration operations, and prepare:
    the checks a constructor makes before any system call, and the snapshot
    it applies to the descriptor.

    A pointer field is an option, and so is a slice, because the code tells
    a nil one from an empty one.  A function value (Control, the handler)
    is a token: prepare copies it or compares it with nil.  [configOp] has
    one constructor per configOpKind, with the fields that kind uses.

    The theorems say which Configs prepare accepts, in terms of the fields
    and not of the order of the checks, what it then returns, and how it
    refuses the others; that the operations come in the documented order,
    once each; and that the AUTH chunk list fits the kernel's copy. *)
From Stdlib Require Import ZArith Lia Bool Sorting.Sorted.
From stdpp Require Import base list option gmap strings.
From coqutil Require Import Byte.
From S2P Require Import Prelude Abi Errors Enums Netip Sockaddr Options MsgInfo.

(** ** Styles *)
Inductive socketStyle := styleDial | styleListen | styleListenEndpoint | styleOpenEndpoint | styleFile.

#[global] Instance socketStyle_eq_dec : EqDecision socketStyle.
Proof. solve_decision. Defined.

Definition isEndpoint (s : socketStyle) : bool :=
  match s with styleListenEndpoint | styleOpenEndpoint => true | _ => false end.

Definition socketStyle_String (s : socketStyle) : string :=
  match s with
  | styleDial => "Dial"
  | styleListen => "Listen"
  | styleListenEndpoint => "ListenEndpoint"
  | styleOpenEndpoint => "OpenEndpoint"
  | styleFile => "FileConn or FileListener"
  end.

(** ** Config *)
Definition funcval := positive.

Record Config := {
  cfg_Control : option funcval;
  cfg_NotificationHandler : option funcval;
  cfg_CloseTimeout : Z;
  cfg_AbandonPolicy : Z;
  cfg_SetupRTOInitial : Z;
  cfg_InitMsg : InitMsg;
  cfg_AdaptationLayer : option Z;
  cfg_HMACIdentifiers : option (list Z);
  cfg_AuthChunks : option (list Z);
  cfg_PartialReliability : option bool;
  cfg_StreamReconfiguration : option bool;
  cfg_DynamicAddressReconfiguration : option bool;
  cfg_Authentication : option bool;
  cfg_ExperimentalECN : option bool;
  cfg_MessageInterleaving : bool;
  cfg_ReadBuffer : option Z;
  cfg_WriteBuffer : option Z;
  cfg_NoDelay : option bool;
  cfg_DefaultSndInfo : option SndInfo;
  cfg_DefaultPrInfo : option PrInfo;
  cfg_ReusePort : option bool;
  cfg_FragmentsDisabled : option bool;
  cfg_FragmentInterleave : option Z;
  cfg_ReceiveNxtInfo : option bool;
  cfg_StreamResetMask : option Z;
  cfg_RTOInfo : option RTOInfo;
  cfg_DelayedSACK : option DelayedSACK;
  cfg_Notifications : option (list Z);
}.

#[global] Instance InitMsg_eq_dec : EqDecision InitMsg.
Proof. solve_decision. Defined.

Definition zeroInitMsg : InitMsg := {|
  im_OutStreams := 0; im_MaxInStreams := 0; im_MaxAttempts := 0; im_MaxInitTimeout := 0 |}.

Definition zeroConfig : Config := {|
  cfg_Control := None; cfg_NotificationHandler := None; cfg_CloseTimeout := 0;
  cfg_AbandonPolicy := 0; cfg_SetupRTOInitial := 0; cfg_InitMsg := zeroInitMsg;
  cfg_AdaptationLayer := None; cfg_HMACIdentifiers := None; cfg_AuthChunks := None;
  cfg_PartialReliability := None; cfg_StreamReconfiguration := None;
  cfg_DynamicAddressReconfiguration := None; cfg_Authentication := None;
  cfg_ExperimentalECN := None; cfg_MessageInterleaving := false; cfg_ReadBuffer := None;
  cfg_WriteBuffer := None; cfg_NoDelay := None; cfg_DefaultSndInfo := None;
  cfg_DefaultPrInfo := None; cfg_ReusePort := None; cfg_FragmentsDisabled := None;
  cfg_FragmentInterleave := None; cfg_ReceiveNxtInfo := None; cfg_StreamResetMask := None;
  cfg_RTOInfo := None; cfg_DelayedSACK := None; cfg_Notifications := None |}.

(** ** Operations *)
Inductive configOp :=
| opRecvRcvInfo
| opAssocChange
| opReadBuffer (bytes : Z)
| opWriteBuffer (bytes : Z)
| opInitMsg (outStreams maxInStreams maxAttempts maxInitTimeoutMS : Z)
| opFragmentInterleave (level : Z)
| opAuthentication (on : bool)
| opHMACIdentifiers (hmacIdentifiers : list Z)
| opAuthChunk (chunk : Z)
| opDynamicAddressReconfiguration (on : bool)
| opPartialReliability (on : bool)
| opStreamReconfiguration (on : bool)
| opStreamResetMask (u32 : Z)
| opMessageInterleaving (on : bool)
| opExperimentalECN (on : bool)
| opAdaptationLayer (u32 : Z)
| opRTOInfo (initialMS maxMS minMS : Z)
| opDelayedSACK (delayMS frequency : Z)
| opFragmentsDisabled (on : bool)
| opReusePort (on : bool)
| opReceiveNxtInfo (on : bool)
| opNoDelay (on : bool)
| opDefaultSndInfo (sndInfoStream sndInfoFlags sndInfoPPID sndInfoContext : Z)
| opDefaultPrInfo (prPolicy prValue : Z)
| opNotification (event : Z).

#[global] Instance configOp_eq_dec : EqDecision configOp.
Proof. solve_decision. Defined.

(** The iota of each kind. *)
Definition configOpKind (o : configOp) : Z :=
  match o with
  | opRecvRcvInfo => 0 | opAssocChange => 1
  | opReadBuffer _ => 2 | opWriteBuffer _ => 3 | opInitMsg _ _ _ _ => 4
  | opFragmentInterleave _ => 5 | opAuthentication _ => 6 | opHMACIdentifiers _ => 7
  | opAuthChunk _ => 8 | opDynamicAddressReconfiguration _ => 9
  | opPartialReliability _ => 10 | opStreamReconfiguration _ => 11
  | opStreamResetMask _ => 12 | opMessageInterleaving _ => 13
  | opExperimentalECN _ => 14 | opAdaptationLayer _ => 15 | opRTOInfo _ _ _ => 16
  | opDelayedSACK _ _ => 17 | opFragmentsDisabled _ => 18 | opReusePort _ => 19
  | opReceiveNxtInfo _ => 20 | opNoDelay _ => 21 | opDefaultSndInfo _ _ _ _ => 22
  | opDefaultPrInfo _ _ => 23 | opNotification _ => 24
  end.

(** ** Event sets: a uint16, one bit per EventType *)
Definition eventBit (t : Z) : Z := u16 (Z.shiftl 1 (u16 (t - EventAssocChange))).
Definition has (s t : Z) : bool := negb (Z.land s (eventBit t) =? 0).

Record prepared := {
  p_ops : list configOp;
  p_handler : option funcval;
  p_closeTimeout : Z;
  p_abandon : Z;
  p_setupRTOInitialMS : Z;
  p_subscribed : Z;
  p_fragLevel : Z;
  p_adopted : bool;
}.

Definition streamResetKnownBits : Z :=
  Z.lor (Z.lor EnableResetStreamReq EnableResetAssocReq) EnableChangeAssocReq.

Definition authChunkForbiddenNames : list (Z * string) :=
  [ (chunkTypeInit, "INIT"); (chunkTypeInitAck, "INIT-ACK");
    (chunkTypeShutdownComplete, "SHUTDOWN-COMPLETE"); (chunkTypeAuth, "AUTH") ].

(** A membership test in a map, or in a seen map of the keys added so far. *)
Definition has_key {V} (m : list (Z * V)) (k : Z) : bool := existsb (fun kv => fst kv =? k) m.
Definition has_elem (l : list Z) (k : Z) : bool := existsb (Z.eqb k) l.

(** unsupportedField: the error unwraps to ErrUnsupported. *)
Definition unsupportedField (field why : string) : error :=
  Wrapf ("sctp: " +:+ field +:+ ": " +:+ why) ErrUnsupported.

(** ** Parts of prepare *)
Definition resolveCloseTimeout (d : Z) : out error Z :=
  if d <? 0 then Err (invalidArg "Config.CloseTimeout %s is negative") else
  if d =? 0 then Ret (3 * Second) else Ret d.

Definition resolveFragmentInterleave (c : Config) (style : socketStyle) : out error Z :=
  match cfg_FragmentInterleave c with
  | None => if isEndpoint style then Ret InterleaveAssocs else Ret InterleaveNone
  | Some level =>
      if (level =? InterleaveNone) || (level =? InterleaveAssocs) then Ret level else
      if level =? InterleaveStreams
      then Err (unsupportedField "Config.FragmentInterleave" "Linux stores SCTP_FRAGMENT_INTERLEAVE as a boolean and collapses any nonzero value to InterleaveAssocs (net/sctp/socket.c: sctp_setsockopt_fragment_interleave), so level 2 cannot be selected; negotiated I-DATA can still interleave streams (RFC 8260)")
      else Err (invalidArg "Config.FragmentInterleave is %v, not InterleaveNone, InterleaveAssocs or InterleaveStreams")
  end.

(** The loop of buildSubscriptions: the set so far, and the operations it
    appends. *)
Fixpoint subscribe_loop (subscribed : Z) (notifications : list Z) : out error (Z * list configOp) :=
  match notifications with
  | [] => Ret (subscribed, [])
  | t :: rest =>
      if negb (has_key eventTypeNames t)
      then Err (invalidArg "Config.Notifications[%d] is %v, not a subscribable notification type")
      else if has subscribed t then subscribe_loop subscribed rest
      else '(s, ops) ← subscribe_loop (Z.lor subscribed (eventBit t)) rest;
           Ret (s, opNotification t :: ops)
  end.

Definition buildSubscriptions (notifications : option (list Z)) : out error (Z * list configOp) :=
  subscribe_loop 0 (default [] notifications).

(** prepareFileStyle's table. *)
Definition file_fields (c : Config) : list (string * bool) :=
  let set {T} (o : option T) := bool_decide (is_Some o) in
  [ ("Control", set (cfg_Control c));
    ("AbandonPolicy", negb (cfg_AbandonPolicy c =? AbandonAbort));
    ("SetupRTOInitial", negb (cfg_SetupRTOInitial c =? 0));
    ("InitMsg", negb (bool_decide (cfg_InitMsg c = zeroInitMsg)));
    ("AdaptationLayer", set (cfg_AdaptationLayer c));
    ("HMACIdentifiers", set (cfg_HMACIdentifiers c));
    ("AuthChunks", set (cfg_AuthChunks c));
    ("PartialReliability", set (cfg_PartialReliability c));
    ("StreamReconfiguration", set (cfg_StreamReconfiguration c));
    ("DynamicAddressReconfiguration", set (cfg_DynamicAddressReconfiguration c));
    ("Authentication", set (cfg_Authentication c));
    ("ExperimentalECN", set (cfg_ExperimentalECN c));
    ("MessageInterleaving", cfg_MessageInterleaving c);
    ("ReadBuffer", set (cfg_ReadBuffer c));
    ("WriteBuffer", set (cfg_WriteBuffer c));
    ("NoDelay", set (cfg_NoDelay c));
    ("DefaultSndInfo", set (cfg_DefaultSndInfo c));
    ("DefaultPrInfo", set (cfg_DefaultPrInfo c));
    ("ReusePort", set (cfg_ReusePort c));
    ("FragmentsDisabled", set (cfg_FragmentsDisabled c));
    ("FragmentInterleave", set (cfg_FragmentInterleave c));
    ("ReceiveNxtInfo", set (cfg_ReceiveNxtInfo c));
    ("StreamResetMask", set (cfg_StreamResetMask c));
    ("RTOInfo", set (cfg_RTOInfo c));
    ("DelayedSACK", set (cfg_DelayedSACK c));
    ("Notifications", set (cfg_Notifications c)) ].

Definition prepareFileStyle (c : Config) (closeTimeout : Z) : out error prepared :=
  match find snd (file_fields c) with
  | Some (name, _) =>
      Err (invalidArg ("Config." +:+ name +:+ " is set; FileConn and FileListener accept only NotificationHandler and CloseTimeout, because the descriptor is already set up"))
  | None =>
      Ret {| p_ops := [opRecvRcvInfo; opAssocChange];
             p_handler := cfg_NotificationHandler c; p_closeTimeout := closeTimeout;
             p_abandon := AbandonAbort; p_setupRTOInitialMS := 0; p_subscribed := 0;
             p_fragLevel := InterleaveNone; p_adopted := true |}
  end.

(** The checks of the fields that only Dial takes. *)
Definition check_abandon (c : Config) (style : socketStyle) : out error unit :=
  if negb (cfg_AbandonPolicy c =? AbandonAbort) && negb (cfg_AbandonPolicy c =? AbandonQuiet)
  then Err (invalidArg "Config.AbandonPolicy is %v, not AbandonAbort or AbandonQuiet") else
  if negb (cfg_AbandonPolicy c =? AbandonAbort) && negb (bool_decide (style = styleDial))
  then Err (invalidArg "Config.AbandonPolicy is set on a %s Config; it applies only to Dial") else
  Ret tt.

Definition setup_rto (c : Config) (style : socketStyle) : out error Z :=
  if negb (cfg_SetupRTOInitial c =? 0) && negb (bool_decide (style = styleDial))
  then Err (invalidArg "Config.SetupRTOInitial is set on a %s Config; it applies only to Dial") else
  durationToMillis "Config.SetupRTOInitial" (cfg_SetupRTOInitial c) MaxUint32.

(** What a pointer field contributes to the operations. *)
Definition when_set {T} (o : option T) (f : T -> out error (list configOp)) : out error (list configOp) :=
  match o with Some v => f v | None => Ret [] end.

Definition read_buffer_ops (c : Config) : out error (list configOp) :=
  when_set (cfg_ReadBuffer c) (fun n =>
    if n <=? 0 then Err (invalidArg "Config.ReadBuffer must be positive, got %d") else
    if MaxInt32 <? n
    then Err (invalidArg "Config.ReadBuffer %d exceeds the int32 range SO_RCVBUF takes (net/core/sock.c: sk_setsockopt copies optval into a plain int)") else
    Ret [opReadBuffer (i32 n)]).

Definition write_buffer_ops (c : Config) : out error (list configOp) :=
  when_set (cfg_WriteBuffer c) (fun n =>
    if n <=? 0 then Err (invalidArg "Config.WriteBuffer must be positive, got %d") else
    if MaxInt32 <? n
    then Err (invalidArg "Config.WriteBuffer %d exceeds the int32 range SO_SNDBUF takes (net/core/sock.c: sk_setsockopt copies optval into a plain int)") else
    Ret [opWriteBuffer (i32 n)]).

Definition init_msg_ops (c : Config) : out error (list configOp) :=
  let m := cfg_InitMsg c in
  if bool_decide (m = zeroInitMsg) then Ret [] else
  ms ← durationToMillis "Config.InitMsg.MaxInitTimeout" (im_MaxInitTimeout m) MaxUint16;
  Ret [opInitMsg (im_OutStreams m) (im_MaxInStreams m) (im_MaxAttempts m) ms].

Definition auth_on (c : Config) : bool := default false (cfg_Authentication c).

(** One pass over HMACIdentifiers: the seen set, and whether SHA-1 came. *)
Fixpoint hmac_loop (seen : list Z) (hasSHA1 : bool) (ids : list Z) : out error bool :=
  match ids with
  | [] => Ret hasSHA1
  | id :: rest =>
      if negb (id =? HMACSHA1) && negb (id =? HMACSHA256)
      then Err (invalidArg "Config.HMACIdentifiers[%d] is %v, not HMACSHA1 or HMACSHA256 — Linux implements only these two (net/sctp/auth.c: sctp_auth_ep_set_hmacs refuses any other id with EOPNOTSUPP)") else
      if has_elem seen id then Err (invalidArg "Config.HMACIdentifiers[%d] duplicates identifier %v") else
      hmac_loop (id :: seen) (hasSHA1 || (id =? HMACSHA1)) rest
  end.

Definition hmac_ops (c : Config) : out error (list configOp) :=
  when_set (cfg_HMACIdentifiers c) (fun ids =>
    if negb (auth_on c)
    then Err (invalidArg "Config.HMACIdentifiers requires Config.Authentication=true (RFC 4895 §§3.3, 6.1)") else
    hasSHA1 ← hmac_loop [] false ids;
    if negb hasSHA1
    then Err (invalidArg "Config.HMACIdentifiers must include HMACSHA1 (RFC 4895 §§3.3, 6.1)") else
    Ret [opHMACIdentifiers ids]).

Fixpoint chunk_loop (seen chunks : list Z) : out error (list Z) :=
  match chunks with
  | [] => Ret seen
  | ct :: rest =>
      if has_key authChunkForbiddenNames ct
      then Err (invalidArg "Config.AuthChunks[%d] is %s (%d), which RFC 4895 §3.2 says MUST NOT be listed") else
      if has_elem seen ct then Err (invalidArg "Config.AuthChunks[%d] duplicates chunk type %d") else
      chunk_loop (ct :: seen) rest
  end.

Definition auth_chunk_ops (c : Config) : out error (list configOp) :=
  when_set (cfg_AuthChunks c) (fun chunks =>
    if negb (auth_on c)
    then Err (invalidArg "Config.AuthChunks requires Config.Authentication=true") else
    seen ← chunk_loop [] chunks;
    let auto_asconf := negb (has_elem seen chunkTypeASCONF) in
    let auto_ack := negb (has_elem seen chunkTypeASCONFAck) in
    let effectiveCount := len chunks + (if auto_asconf then 1 else 0) in
    let effectiveCount := effectiveCount + (if auto_ack then 1 else 0) in
    if sctpAuthMaxChunks <? effectiveCount then
      if auto_asconf || auto_ack
      then Err (invalidArg "Config.AuthChunks has %d caller entries plus %s, which Linux adds automatically whenever Config.Authentication is true and they are not already listed — %d total, more than the %d entries an association's own copy of the list holds (SCTP_AUTH_MAX_CHUNKS)")
      else Err (invalidArg "Config.AuthChunks has %d entries, more than the %d entries an association's own copy of the list holds (SCTP_AUTH_MAX_CHUNKS)")
    else Ret (opAuthChunk <$> chunks)).

Definition asconf_ops (c : Config) : out error (list configOp) :=
  when_set (cfg_DynamicAddressReconfiguration c) (fun on =>
    if on && negb (auth_on c)
    then Err (invalidArg "Config.DynamicAddressReconfiguration=true requires Config.Authentication=true (RFC 5061 §§4.1.1-4.1.2)") else
    Ret [opDynamicAddressReconfiguration on]).

(** A *bool setting with no check of its own. *)
Definition bool_ops (o : option bool) (op : bool -> configOp) : out error (list configOp) :=
  when_set o (fun on => Ret [op on]).

Definition reconfig_on (c : Config) : bool := default false (cfg_StreamReconfiguration c).

Definition reset_mask_ops (c : Config) : out error (list configOp) :=
  when_set (cfg_StreamResetMask c) (fun mask =>
    if negb (andnot mask streamResetKnownBits =? 0)
    then Err (invalidArg "Config.StreamResetMask %#x has unknown bits %#x") else
    if negb (mask =? 0) && negb (reconfig_on c)
    then Err (invalidArg "Config.StreamResetMask is non-zero but Config.StreamReconfiguration is not true (RFC 6525 §6.3)") else
    Ret [opStreamResetMask mask]).

Definition interleaving_ops (c : Config) (fragLevel : Z) : out error (list configOp) :=
  if cfg_MessageInterleaving c then
    if fragLevel <? InterleaveAssocs
    then Err (invalidArg "Config.MessageInterleaving=true requires an effective Config.FragmentInterleave of at least InterleaveAssocs (RFC 8260; net/sctp/socket.c: sctp_setsockopt_interleaving_supported)")
    else Ret [opMessageInterleaving true]
  else Ret [].

Definition rto_ops (c : Config) : out error (list configOp) :=
  when_set (cfg_RTOInfo c) (fun r =>
    initialMS ← durationToMillis "Config.RTOInfo.Initial" (rto_Initial r) MaxUint32;
    maxMS ← durationToMillis "Config.RTOInfo.Max" (rto_Max r) MaxUint32;
    minMS ← durationToMillis "Config.RTOInfo.Min" (rto_Min r) MaxUint32;
    if negb (rto_Min r =? 0) && negb (rto_Max r =? 0) && (maxMS <? minMS)
    then Err (invalidArg "Config.RTOInfo.Min %s exceeds Config.RTOInfo.Max %s (net/sctp/socket.c: sctp_setsockopt_rtoinfo)")
    else Ret [opRTOInfo initialMS maxMS minMS]).

Definition sack_ops (c : Config) : out error (list configOp) :=
  when_set (cfg_DelayedSACK c) (fun d =>
    delayMS ← durationToMillis "Config.DelayedSACK.Delay" (ds_Delay d) MaxUint32;
    if 500 <? delayMS
    then Err (invalidArg "Config.DelayedSACK.Delay %s exceeds RFC 9260 §6.2's 500 ms maximum")
    else Ret [opDelayedSACK delayMS (ds_Frequency d)]).

Definition reuse_port_ops (c : Config) (style : socketStyle) : out error (list configOp) :=
  when_set (cfg_ReusePort c) (fun on =>
    if isEndpoint style
    then Err (invalidArg "Config.ReusePort applies only to one-to-one sockets (RFC 6458 §8.1.27); refused on an Endpoint")
    else Ret [opReusePort on]).

Definition fail_if (e : option error) : out error unit :=
  match e with Some e => Err e | None => Ret tt end.

Definition pr_info_ops (c : Config) : out error (list configOp) :=
  when_set (cfg_DefaultPrInfo c) (fun pr =>
    _ ← fail_if (validatePrInfo "Config.DefaultPrInfo" pr);
    let '(policy, value) := resolvePrInfo pr in
    Ret [opDefaultPrInfo policy value]).

Definition frag_ops (c : Config) (style : socketStyle) (fragLevel : Z) : list configOp :=
  if bool_decide (is_Some (cfg_FragmentInterleave c)) || isEndpoint style
  then [opFragmentInterleave fragLevel] else [].

Section Prepare.
Context `{A : Arch}.

Definition networkOrderUint32 (v : Z) : Z := uint_of NativeEndian (bytes_of BigEndian 4 v).

Definition snd_info_ops (c : Config) : out error (list configOp) :=
  when_set (cfg_DefaultSndInfo c) (fun i =>
    _ ← fail_if (validateDefaultSndInfo "Config.DefaultSndInfo" i);
    Ret [opDefaultSndInfo (snd_Stream i) (u16 (snd_Flags i))
           (networkOrderUint32 (snd_PPID i)) (snd_Context i)]).

(** prepare: nil is the zero Config.  The operations are appended in the
    order of the statements. *)
Definition prepare (c : option Config) (style : socketStyle) : out error prepared :=
  let c := default zeroConfig c in
  closeTimeout ← resolveCloseTimeout (cfg_CloseTimeout c);
  if bool_decide (style = styleFile) then prepareFileStyle c closeTimeout else
  _ ← check_abandon c style;
  setupRTOInitialMS ← setup_rto c style;
  read ← read_buffer_ops c;
  write ← write_buffer_ops c;
  init ← init_msg_ops c;
  fragLevel ← resolveFragmentInterleave c style;
  auth ← bool_ops (cfg_Authentication c) opAuthentication;
  hmac ← hmac_ops c;
  chunks ← auth_chunk_ops c;
  asconf ← asconf_ops c;
  pr ← bool_ops (cfg_PartialReliability c) opPartialReliability;
  reconfig ← bool_ops (cfg_StreamReconfiguration c) opStreamReconfiguration;
  mask ← reset_mask_ops c;
  intl ← interleaving_ops c fragLevel;
  ecn ← bool_ops (cfg_ExperimentalECN c) opExperimentalECN;
  adapt ← when_set (cfg_AdaptationLayer c) (fun v => Ret [opAdaptationLayer v]);
  rto ← rto_ops c;
  sack ← sack_ops c;
  nofrag ← bool_ops (cfg_FragmentsDisabled c) opFragmentsDisabled;
  reuse ← reuse_port_ops c style;
  nxt ← bool_ops (cfg_ReceiveNxtInfo c) opReceiveNxtInfo;
  nodelay ← bool_ops (cfg_NoDelay c) opNoDelay;
  snd ← snd_info_ops c;
  prinfo ← pr_info_ops c;
  '(subscribed, events) ← buildSubscriptions (cfg_Notifications c);
  let subscribed := if isEndpoint style then Z.lor subscribed (eventBit EventAssocChange)
                    else subscribed in
  Ret {| p_ops := [opRecvRcvInfo; opAssocChange] ++ read ++ write ++ init ++
                  frag_ops c style fragLevel ++ auth ++ hmac ++ chunks ++ asconf ++ pr ++
                  reconfig ++ mask ++ intl ++ ecn ++ adapt ++ rto ++ sack ++ nofrag ++
                  reuse ++ nxt ++ nodelay ++ snd ++ prinfo ++ events;
         p_handler := cfg_NotificationHandler c;
         p_closeTimeout := closeTimeout;
         p_abandon := cfg_AbandonPolicy c;
         p_setupRTOInitialMS := setupRTOInitialMS;
         p_subscribed := subscribed;
         p_fragLevel := fragLevel;
         p_adopted := false |}.
End Prepare.

(** ** What a Config must satisfy, field by field *)
Definition on_set {T} (o : option T) (P : T -> Prop) : Prop :=
  match o with Some v => P v | None => True end.

(** A duration that a kernel field of whole milliseconds up to [limit]
    holds exactly. *)
Definition whole_ms (d limit : Z) : Prop := exists ms, d = ms * Millisecond /\ 0 <= ms <= limit.

Definition ms_of (d : Z) : Z := d / Millisecond.

(** The AUTH chunk list as the kernel ends up with it: the caller's, and
    the two types that turning AUTH on may add by itself. *)
Definition effective_chunks (chunks : list Z) : gset Z :=
  list_to_set chunks ∪ {[chunkTypeASCONF; chunkTypeASCONFAck]}.

Definition frag_level (c : Config) (style : socketStyle) : Z :=
  default (if isEndpoint style then InterleaveAssocs else InterleaveNone) (cfg_FragmentInterleave c).

(** A partial-reliability policy: none, with nothing else set; a lifetime
    of at least a millisecond; or a count of retransmissions or a priority. *)
Definition valid_pr (pr : PrInfo) : Prop :=
  (pr_Policy pr = PRNone /\ pr_TTL pr = 0 /\ pr_Value pr = 0) \/
  (pr_Policy pr = PRTTL /\ pr_TTL pr <> 0 /\ whole_ms (pr_TTL pr) MaxUint32 /\ pr_Value pr = 0) \/
  ((pr_Policy pr = PRRtx \/ pr_Policy pr = PRPrio) /\ pr_TTL pr = 0).

Record valid (c : Config) (style : socketStyle) : Prop := {
  v_close : 0 <= cfg_CloseTimeout c;
  v_abandon : cfg_AbandonPolicy c = AbandonAbort \/ cfg_AbandonPolicy c = AbandonQuiet /\ style = styleDial;
  v_setup : whole_ms (cfg_SetupRTOInitial c) MaxUint32 /\ (cfg_SetupRTOInitial c = 0 \/ style = styleDial);
  v_read : on_set (cfg_ReadBuffer c) (fun n => 0 < n <= MaxInt32);
  v_write : on_set (cfg_WriteBuffer c) (fun n => 0 < n <= MaxInt32);
  v_init : whole_ms (im_MaxInitTimeout (cfg_InitMsg c)) MaxUint16;
  v_frag : on_set (cfg_FragmentInterleave c) (fun l => l = InterleaveNone \/ l = InterleaveAssocs);
  v_hmac : on_set (cfg_HMACIdentifiers c) (fun ids =>
    cfg_Authentication c = Some true /\ (forall id, id ∈ ids -> id = HMACSHA1 \/ id = HMACSHA256) /\
    NoDup ids /\ HMACSHA1 ∈ ids);
  v_chunks : on_set (cfg_AuthChunks c) (fun chunks =>
    cfg_Authentication c = Some true /\
    (forall ct, ct ∈ chunks -> ct ∉ [chunkTypeInit; chunkTypeInitAck; chunkTypeShutdownComplete; chunkTypeAuth]) /\
    NoDup chunks /\ Z.of_nat (size (effective_chunks chunks)) <= sctpAuthMaxChunks);
  v_asconf : cfg_DynamicAddressReconfiguration c = Some true -> cfg_Authentication c = Some true;
  v_mask : on_set (cfg_StreamResetMask c) (fun m =>
    0 <= m <= streamResetKnownBits /\ (m <> 0 -> cfg_StreamReconfiguration c = Some true));
  v_intl : cfg_MessageInterleaving c = true -> InterleaveAssocs <= frag_level c style;
  v_rto : on_set (cfg_RTOInfo c) (fun r =>
    whole_ms (rto_Initial r) MaxUint32 /\ whole_ms (rto_Max r) MaxUint32 /\ whole_ms (rto_Min r) MaxUint32 /\
    (rto_Min r = 0 \/ rto_Max r = 0 \/ rto_Min r <= rto_Max r));
  v_sack : on_set (cfg_DelayedSACK c) (fun d => whole_ms (ds_Delay d) 500);
  v_reuse : cfg_ReusePort c = None \/ isEndpoint style = false;
  v_snd : on_set (cfg_DefaultSndInfo c) (fun i => snd_Flags i = 0 \/ snd_Flags i = SendUnordered);
  v_pr : on_set (cfg_DefaultPrInfo c) valid_pr;
  v_events : on_set (cfg_Notifications c) (fun ts => forall t, t ∈ ts -> t ∈ eventTypeNames.*1);
}.

(** ** Checks as decisions

    [decides E m P x]: the check [m] accepts exactly under [P], with the
    result [x], and otherwise refuses with an error in [E]. *)
Definition decides {T} (E : error -> Prop) (m : out error T) (P : Prop) (x : T) : Prop :=
  (P /\ m = Ret x) \/ (~ P /\ exists e, m = Err e /\ E e).

Section Decides.
Context {E : error -> Prop}.

Lemma decides_bind {S T} (m : out error S) (k : S -> out error T) P Q x y :
  decides E m P x -> (P -> decides E (k x) Q y) -> decides E (m ≫= k) (P /\ Q) y.
Proof.
  intros [[HP ->] | [HP (e & -> & He)]] Hk; simpl.
  - destruct (Hk HP) as [[HQ H] | [HQ (e & H & He)]]; [left | right]; simpl; [tauto |].
    split; [tauto | eauto].
  - right. split; [tauto | eauto].
Qed.

Lemma decides_ret {T} (x : T) : decides E (Ret x) True x.
Proof. left. done. Qed.

Lemma decides_iff {T} (m : out error T) P Q x :
  (P <-> Q) -> decides E m P x -> decides E m Q x.
Proof. unfold decides. tauto. Qed.

Lemma decides_guard {T} (b : bool) e (m : out error T) P x :
  E e -> decides E m P x -> decides E (if b then Err e else m) (b = false /\ P) x.
Proof.
  intros He Hm. destruct b; [right; split; [by intros [? _] | eauto] |].
  eapply decides_iff; [| exact Hm]. tauto.
Qed.

Lemma decides_when {T} (o : option T) f (P : T -> Prop) g :
  (forall v, o = Some v -> decides E (f v) (P v) (g v)) ->
  decides E (when_set o f) (on_set o P) (match o with Some v => g v | None => [] end).
Proof. intros H. destruct o; simpl; [by apply H | apply decides_ret]. Qed.
End Decides.

(** ** Event sets *)
Definition known_event (t : Z) : Prop := t ∈ eventTypeNames.*1.

Lemma known_event_range t : known_event t -> 0 <= t - EventAssocChange < 16.
Proof.
  unfold known_event. intros H. cbn in H. rewrite !elem_of_cons, elem_of_nil in H.
  repeat (destruct H as [-> | H]; [cbv; intuition discriminate |]). done.
Qed.

Lemma eventBit_known t : 0 <= t - EventAssocChange < 16 -> eventBit t = 2 ^ (t - EventAssocChange).
Proof.
  intros H. unfold eventBit, u16. rewrite (Z.mod_small (t - _)), Z.shiftl_1_l by lia.
  apply Z.mod_small. split; [lia |]. change 65536 with (2 ^ 16). apply Z.pow_lt_mono_r; lia.
Qed.

Lemma has_testbit s t : 0 <= t - EventAssocChange < 16 -> has s t = Z.testbit s (t - EventAssocChange).
Proof.
  intros H. unfold has. rewrite eventBit_known by done. set (k := t - EventAssocChange) in *.
  destruct (Z.testbit s k) eqn:Hb.
  - apply negb_true_iff, Z.eqb_neq. intros Hz. apply (f_equal (fun x => Z.testbit x k)) in Hz.
    rewrite Z.land_spec, Hb, Z.pow2_bits_true, Z.bits_0 in Hz by lia. done.
  - apply negb_false_iff, Z.eqb_eq, Z.bits_inj'. intros n Hn.
    rewrite Z.land_spec, Z.bits_0, Z.pow2_bits_eqb by lia.
    destruct (Z.eqb_spec k n) as [-> |]; [by rewrite Hb | by rewrite andb_false_r].
Qed.

Lemma has_lor s t u :
  known_event t -> known_event u -> has (Z.lor s (eventBit u)) t = has s t || (t =? u).
Proof.
  intros Ht%known_event_range Hu%known_event_range.
  rewrite !has_testbit, Z.lor_spec, eventBit_known, Z.pow2_bits_eqb by (done || lia).
  f_equal. destruct (Z.eqb_spec t u), (Z.eqb_spec (u - EventAssocChange) (t - EventAssocChange)); lia.
Qed.

Lemma lor_has s t : known_event t -> has s t = true -> Z.lor s (eventBit t) = s.
Proof.
  intros Ht%known_event_range. rewrite has_testbit, eventBit_known by done. intros Hb.
  apply Z.bits_inj'. intros n Hn. rewrite Z.lor_spec, Z.pow2_bits_eqb by lia.
  destruct (Z.eqb_spec (t - EventAssocChange) n) as [<- |]; [by rewrite Hb | apply orb_false_r].
Qed.

Definition event_set (s : Z) (ts : list Z) : Z := foldl (fun s t => Z.lor s (eventBit t)) s ts.

Lemma has_event_set t ts : forall s, known_event t -> Forall known_event ts ->
  has (event_set s ts) t = has s t || has_elem ts t.
Proof.
  induction ts as [| u ts IH]; intros s Ht Hts; [symmetry; apply orb_false_r |].
  inversion Hts; subst. unfold event_set. cbn [foldl]. fold (event_set (Z.lor s (eventBit u)) ts).
  rewrite IH, has_lor by done. unfold has_elem. cbn [existsb]. by rewrite orb_assoc.
Qed.

(** The elements of a list that were not seen, each once, at its first
    occurrence. *)
Fixpoint first_occurrences (seen : Z -> bool) (l : list Z) : list Z :=
  match l with
  | [] => []
  | t :: l => if seen t then first_occurrences seen l
              else t :: first_occurrences (fun u => seen u || (u =? t)) l
  end.

Lemma elem_of_first_occurrences l : forall seen t,
  t ∈ first_occurrences seen l <-> t ∈ l /\ seen t = false.
Proof.
  induction l as [| u l IH]; intros seen t; simpl; [set_solver |].
  destruct (seen u) eqn:Hu; rewrite ?elem_of_cons, IH; [intuition congruence |].
  rewrite orb_false_iff, Z.eqb_neq. destruct (decide (t = u)); intuition congruence.
Qed.

Lemma NoDup_first_occurrences l : forall seen, NoDup (first_occurrences seen l).
Proof.
  induction l as [| u l IH]; intros seen; simpl; [constructor |].
  destruct (seen u); [apply IH |]. constructor; [| apply IH].
  rewrite elem_of_first_occurrences, orb_false_iff, Z.eqb_neq. tauto.
Qed.

Lemma first_occurrences_ext l : forall f g,
  (forall t, t ∈ l -> f t = g t) -> first_occurrences f l = first_occurrences g l.
Proof.
  induction l as [| u l IH]; intros f g H; [done |]. simpl. rewrite (H u) by set_solver.
  destruct (g u); [apply IH; set_solver |]. f_equal. apply IH.
  intros t Ht. by rewrite (H t) by set_solver.
Qed.

Lemma has_elem_spec l x : has_elem l x = bool_decide (x ∈ l).
Proof.
  induction l as [| y l IH]; [by rewrite bool_decide_eq_false_2 by set_solver |].
  cbn [has_elem existsb]. fold (has_elem l x). rewrite IH. apply eq_true_iff_eq.
  rewrite orb_true_iff, Z.eqb_eq, !bool_decide_eq_true. set_solver.
Qed.

Lemma has_key_spec {V} (m : list (Z * V)) k : has_key m k = bool_decide (k ∈ m.*1).
Proof.
  induction m as [| [y v] m IH]; [by rewrite bool_decide_eq_false_2 by set_solver |].
  cbn [has_key existsb]. fold (has_key m k). rewrite IH. apply eq_true_iff_eq.
  rewrite orb_true_iff, Z.eqb_eq, !bool_decide_eq_true. cbn. set_solver.
Qed.

(** ** The steps of prepare *)
Definition einval (e : error) : Prop := errors_Is e (Errno EINVAL) = true.

Lemma einval_invalidArg m : einval (invalidArg m).
Proof. done. Qed.
#[local] Hint Resolve einval_invalidArg : core.

Lemma subscribe_loop_spec ts : forall s,
  decides einval (subscribe_loop s ts) (Forall known_event ts)
    (event_set s ts, opNotification <$> first_occurrences (has s) ts).
Proof.
  induction ts as [| t ts IH]; intros s; [by left |]. cbn [subscribe_loop first_occurrences]. rewrite has_key_spec.
  destruct (bool_decide_reflect (t ∈ eventTypeNames.*1)) as [Ht | Ht]; cbn [negb].
  2:{ right. split; [by inversion 1 | eauto]. }
  eapply decides_iff; [symmetry; apply Forall_cons |].
  eapply decides_iff with (P := Forall known_event ts /\ True);
    [split; [intros [? _]; by split | tauto] |].
  destruct (has s t) eqn:Hs.
  - change (event_set s (t :: ts)) with (event_set (Z.lor s (eventBit t)) ts). rewrite (lor_has _ _ Ht Hs).
    eapply decides_iff; [| apply IH]. tauto.
  - eapply decides_bind; [apply IH |]. intros Hts. simpl. left. split; [done |].
    do 4 f_equal. apply first_occurrences_ext. intros u Hu. apply has_lor; [| done].
    by eapply Forall_forall in Hts.
Qed.

Lemma durationToMillis_decides field d limit :
  0 <= limit <= MaxUint32 ->
  decides einval (durationToMillis field d limit) (whole_ms d limit) (ms_of d).
Proof.
  intros Hl. pose proof (durationToMillis_outcome field d limit Hl) as Ho.
  destruct (durationToMillis field d limit) as [ms | e |]; [left | right | done].
  - destruct Ho as [Hr ->]. split; [by exists ms |]. unfold ms_of, Millisecond. by rewrite Z.div_mul.
  - destruct Ho as [[m ->] Hn]. split; [| by eexists]. intros (ms & ? & ?). apply Hn. eauto.
Qed.

Lemma ms_of_whole d limit : whole_ms d limit -> d = ms_of d * Millisecond /\ 0 <= ms_of d <= limit.
Proof. intros (ms & -> & H). unfold ms_of, Millisecond. rewrite Z.div_mul by done. lia. Qed.

Lemma andnot_ones m n : 0 <= n -> andnot m (Z.ones n) = 0 <-> 0 <= m < 2 ^ n.
Proof.
  intros Hn. unfold andnot. rewrite Z.ldiff_ones_r by done. pose proof (Z.pow_pos_nonneg 2 n ltac:(lia) Hn).
  rewrite Z.shiftl_mul_pow2, Z.shiftr_div_pow2 by done. split.
  - intros H0. assert (m / 2 ^ n = 0) by nia. pose proof (Z.div_mod m (2 ^ n) ltac:(lia)).
    pose proof (Z.mod_pos_bound m (2 ^ n)). lia.
  - intros. by rewrite Z.div_small.
Qed.

Lemma default_true (o : option bool) : default false o = true <-> o = Some true.
Proof. destruct o as [[] |]; simpl; split; congruence. Qed.

(** Boolean conditions as propositions. *)
Ltac bools :=
  rewrite ?andb_false_iff, ?andb_true_iff, ?orb_false_iff, ?negb_false_iff, ?negb_true_iff,
    ?Z.eqb_eq, ?Z.eqb_neq, ?Z.ltb_ge, ?Z.leb_gt, ?bool_decide_eq_true, ?bool_decide_eq_false.

Section Steps.
Context {E : error -> Prop} (HE : forall e, einval e -> E e).

Lemma decides_weaken {T} (m : out error T) P x : decides einval m P x -> decides E m P x.
Proof. intros [? | (? & e & ? & ?)]; [by left |]. right. eauto. Qed.

Lemma millis_step field d limit :
  0 <= limit <= MaxUint32 -> decides E (durationToMillis field d limit) (whole_ms d limit) (ms_of d).
Proof. intros. by apply decides_weaken, durationToMillis_decides. Qed.

Lemma guard_step {T} (b : bool) m (o : out error T) P x :
  decides E o P x -> decides E (if b then Err (invalidArg m) else o) (b = false /\ P) x.
Proof. apply decides_guard. by apply HE. Qed.

(** Run the checks in turn and leave what they amount to. *)
Ltac check_step :=
  lazymatch goal with
  | |- decides _ (if _ then Err (invalidArg _) else _) _ _ => apply guard_step
  | |- decides _ (Ret _) _ _ => apply decides_ret
  | |- decides _ (durationToMillis _ _ _) _ _ => apply millis_step; done
  | |- decides _ (durationToMillis _ _ _ ≫= _) _ _ =>
      eapply decides_bind; [apply millis_step; done | intros ?]
  end.
Ltac checks := eapply decides_iff; [| repeat check_step].

Lemma close_step d :
  decides E (resolveCloseTimeout d) (0 <= d) (if d =? 0 then 3 * Second else d).
Proof.
  unfold resolveCloseTimeout. checks; [| destruct (d =? 0); apply decides_ret]. bools. tauto.
Qed.

Lemma abandon_step c style :
  decides E (check_abandon c style)
    (cfg_AbandonPolicy c = AbandonAbort \/ cfg_AbandonPolicy c = AbandonQuiet /\ style = styleDial) tt.
Proof. unfold check_abandon. checks. bools. tauto. Qed.

Lemma setup_step c style :
  decides E (setup_rto c style)
    (whole_ms (cfg_SetupRTOInitial c) MaxUint32 /\ (cfg_SetupRTOInitial c = 0 \/ style = styleDial))
    (ms_of (cfg_SetupRTOInitial c)).
Proof. unfold setup_rto. checks. bools. tauto. Qed.

Definition set_op {T} (o : option T) (f : T -> configOp) : list configOp :=
  match o with Some v => [f v] | None => [] end.

Lemma decides_value {T} (m : out error T) P x y : (P -> x = y) -> decides E m P x -> decides E m P y.
Proof. intros Hxy [[HP ->] | H]; [left | by right]. by rewrite Hxy. Qed.

(** A step on one pointer field: its checks, then its operation. *)
Lemma field_step {T} (o : option T) f P op :
  (forall v, o = Some v -> decides E (f v) (P v) [op v]) ->
  decides E (when_set o f) (on_set o P) (set_op o op).
Proof. apply decides_when. Qed.

Lemma buffer_range n : 0 < n <= MaxInt32 -> i32 n = n.
Proof.
  intros Hn. unfold MaxInt32 in Hn.
  rewrite <- (u32_small n) at 1 by (unfold is_u32; lia). apply i32_u32. unfold is_i32. lia.
Qed.

Lemma read_buffer_step c :
  decides E (read_buffer_ops c) (on_set (cfg_ReadBuffer c) (fun n => 0 < n <= MaxInt32))
    (set_op (cfg_ReadBuffer c) opReadBuffer).
Proof.
  apply field_step. intros n _. eapply decides_value with (x := [opReadBuffer (i32 n)]).
  - intros. by rewrite buffer_range.
  - checks. bools. lia.
Qed.

Lemma write_buffer_step c :
  decides E (write_buffer_ops c) (on_set (cfg_WriteBuffer c) (fun n => 0 < n <= MaxInt32))
    (set_op (cfg_WriteBuffer c) opWriteBuffer).
Proof.
  apply field_step. intros n _. eapply decides_value with (x := [opWriteBuffer (i32 n)]).
  - intros. by rewrite buffer_range.
  - checks. bools. lia.
Qed.

Definition init_msg_op (m : InitMsg) : list configOp :=
  if bool_decide (m = zeroInitMsg) then []
  else [opInitMsg (im_OutStreams m) (im_MaxInStreams m) (im_MaxAttempts m) (ms_of (im_MaxInitTimeout m))].

Lemma init_msg_step c :
  decides E (init_msg_ops c) (whole_ms (im_MaxInitTimeout (cfg_InitMsg c)) MaxUint16)
    (init_msg_op (cfg_InitMsg c)).
Proof.
  unfold init_msg_ops, init_msg_op. case_bool_decide as Hz.
  - rewrite Hz. eapply decides_iff; [| apply decides_ret]. split; [| done].
    intros _. exists 0. done.
  - checks. tauto.
Qed.

Lemma auth_on_true c : auth_on c = true <-> cfg_Authentication c = Some true.
Proof. apply default_true. Qed.

Lemma hmac_loop_spec ids : forall seen sha1,
  decides E (hmac_loop seen sha1 ids)
    ((forall id, id ∈ ids -> id = HMACSHA1 \/ id = HMACSHA256) /\ NoDup ids /\
     (forall id, id ∈ ids -> id ∉ seen))
    (sha1 || has_elem ids HMACSHA1).
Proof.
  induction ids as [| id ids IH]; intros seen sha1; cbn [hmac_loop].
  { rewrite orb_false_r. eapply decides_iff; [| apply decides_ret].
    split; [| done]. intros _. split; [set_solver |]. split; [constructor | set_solver]. }
  eapply decides_iff; [| apply guard_step, guard_step].
  2:{ eapply decides_value; [| apply IH]. intros _. cbn [has_elem existsb].
      rewrite <- orb_assoc. do 2 f_equal. apply Z.eqb_sym. }
  rewrite has_elem_spec, NoDup_cons. bools. split.
  - intros (Hid & Hs & H1 & H2 & H3). set_solver.
  - intros (H1 & [H2 H3] & H4). split; [destruct (H1 id); [set_solver | tauto | tauto] |].
    split; [set_solver |]. split; [set_solver |]. split; [done |].
    intros x Hx [-> | Hc]%elem_of_cons; [done |]. by apply (H4 x); [right |].
Qed.

Lemma hmac_step c :
  decides E (hmac_ops c)
    (on_set (cfg_HMACIdentifiers c) (fun ids => cfg_Authentication c = Some true /\
       (forall id, id ∈ ids -> id = HMACSHA1 \/ id = HMACSHA256) /\ NoDup ids /\ HMACSHA1 ∈ ids))
    (set_op (cfg_HMACIdentifiers c) opHMACIdentifiers).
Proof.
  apply field_step. intros ids _. eapply decides_iff.
  2:{ apply guard_step. eapply decides_bind; [apply hmac_loop_spec | intros _].
      apply guard_step, decides_ret. }
  rewrite has_elem_spec. cbn [orb]. bools. rewrite auth_on_true. intuition set_solver.
Qed.

Lemma chunk_loop_spec chunks : forall seen,
  decides E (chunk_loop seen chunks)
    ((forall ct, ct ∈ chunks -> ct ∉ authChunkForbiddenNames.*1) /\ NoDup chunks /\
     (forall ct, ct ∈ chunks -> ct ∉ seen))
    (reverse chunks ++ seen).
Proof.
  induction chunks as [| ct chunks IH]; intros seen; cbn [chunk_loop].
  { eapply decides_iff; [| apply decides_ret].
    split; [| done]. intros _. split; [set_solver |]. split; [constructor | set_solver]. }
  rewrite reverse_cons, <- app_assoc. eapply decides_iff; [| apply guard_step, guard_step, IH].
  rewrite has_elem_spec, has_key_spec, NoDup_cons. bools. split.
  - intros (Hid & Hs & H1 & H2 & H3). set_solver.
  - intros (H1 & [H2 H3] & H4). split; [set_solver |].
    split; [set_solver |]. split; [set_solver |]. split; [done |].
    intros x Hx [-> | Hc]%elem_of_cons; [done |]. by apply (H4 x); [right |].
Qed.

(** The count of the entries the kernel ends up with is a set's size. *)
Lemma size_add (x : Z) (X : gset Z) :
  Z.of_nat (size (X ∪ {[x]})) = Z.of_nat (size X) + (if bool_decide (x ∈ X) then 0 else 1).
Proof.
  case_bool_decide.
  - replace (X ∪ {[x]}) with X by set_solver. lia.
  - rewrite size_union, size_singleton by set_solver. lia.
Qed.

Lemma effective_count chunks :
  NoDup chunks ->
  Z.of_nat (size (effective_chunks chunks)) =
  len chunks + (if negb (has_elem (reverse chunks ++ []) chunkTypeASCONF) then 1 else 0)
             + (if negb (has_elem (reverse chunks ++ []) chunkTypeASCONFAck) then 1 else 0).
Proof.
  intros Hnd. unfold effective_chunks. rewrite app_nil_r, !has_elem_spec, union_assoc_L, !size_add.
  rewrite size_list_to_set by done. unfold len. rewrite !if_negb.
  rewrite (bool_decide_ext (chunkTypeASCONF ∈ _) (chunkTypeASCONF ∈ reverse chunks)) by set_solver.
  rewrite (bool_decide_ext (chunkTypeASCONFAck ∈ _) (chunkTypeASCONFAck ∈ reverse chunks)); [lia |].
  rewrite elem_of_union, elem_of_list_to_set, elem_of_singleton, elem_of_reverse. intuition discriminate.
Qed.

Lemma auth_chunk_step c :
  decides E (auth_chunk_ops c)
    (on_set (cfg_AuthChunks c) (fun chunks => cfg_Authentication c = Some true /\
      (forall ct, ct ∈ chunks -> ct ∉ [chunkTypeInit; chunkTypeInitAck; chunkTypeShutdownComplete; chunkTypeAuth]) /\
      NoDup chunks /\ Z.of_nat (size (effective_chunks chunks)) <= sctpAuthMaxChunks))
    (match cfg_AuthChunks c with Some l => opAuthChunk <$> l | None => [] end).
Proof.
  apply decides_when. intros chunks _. eapply decides_iff.
  2:{ apply guard_step. eapply decides_bind; [apply chunk_loop_spec | intros (_ & Hnd & _)].
      cbv zeta. rewrite <- effective_count by done.
      set (auto := negb _ || negb _). instantiate (1 := Z.of_nat (size (effective_chunks chunks)) <= sctpAuthMaxChunks).
      destruct (Z.ltb_spec sctpAuthMaxChunks (Z.of_nat (size (effective_chunks chunks)))).
      - right. split; [lia |]. destruct auto; eexists; (split; [reflexivity | by apply HE]).
      - left. done. }
  bools. rewrite auth_on_true. change (authChunkForbiddenNames.*1) with
    [chunkTypeInit; chunkTypeInitAck; chunkTypeShutdownComplete; chunkTypeAuth].
  split; [tauto |]. intros (? & ? & ? & ?). repeat (split; [done |]). split; [set_solver | done].
Qed.

Lemma asconf_step c :
  decides E (asconf_ops c)
    (cfg_DynamicAddressReconfiguration c = Some true -> cfg_Authentication c = Some true)
    (set_op (cfg_DynamicAddressReconfiguration c) opDynamicAddressReconfiguration).
Proof.
  eapply decides_iff; [| apply (field_step _ _ (fun on => on = true -> cfg_Authentication c = Some true))].
  - destruct (cfg_DynamicAddressReconfiguration c) as [[] |]; simpl; intuition congruence.
  - intros on _. checks. bools. rewrite auth_on_true. destruct on; intuition congruence.
Qed.

Lemma bool_step o op : decides E (bool_ops o op) True (set_op o op).
Proof. destruct o; apply decides_ret. Qed.

Lemma adapt_step c :
  decides E (when_set (cfg_AdaptationLayer c) (fun v => Ret [opAdaptationLayer v])) True
    (set_op (cfg_AdaptationLayer c) opAdaptationLayer).
Proof. destruct (cfg_AdaptationLayer c); apply decides_ret. Qed.

Lemma reset_mask_step c :
  decides E (reset_mask_ops c)
    (on_set (cfg_StreamResetMask c) (fun m =>
      0 <= m <= streamResetKnownBits /\ (m <> 0 -> cfg_StreamReconfiguration c = Some true)))
    (set_op (cfg_StreamResetMask c) opStreamResetMask).
Proof.
  apply field_step. intros m _. checks. bools. unfold reconfig_on. rewrite default_true.
  change streamResetKnownBits with (Z.ones 3) at 1. rewrite andnot_ones by done.
  change streamResetKnownBits with 7. change (2 ^ 3) with 8.
  destruct (decide (m = 0)); intuition lia.
Qed.

Lemma interleaving_step c level :
  decides E (interleaving_ops c level) (cfg_MessageInterleaving c = true -> InterleaveAssocs <= level)
    (if cfg_MessageInterleaving c then [opMessageInterleaving true] else []).
Proof.
  unfold interleaving_ops. destruct (cfg_MessageInterleaving c).
  - checks. bools. intuition.
  - checks. intuition congruence.
Qed.

Lemma rto_step c :
  decides E (rto_ops c)
    (on_set (cfg_RTOInfo c) (fun r =>
      whole_ms (rto_Initial r) MaxUint32 /\ whole_ms (rto_Max r) MaxUint32 /\
      whole_ms (rto_Min r) MaxUint32 /\ (rto_Min r = 0 \/ rto_Max r = 0 \/ rto_Min r <= rto_Max r)))
    (set_op (cfg_RTOInfo c) (fun r => opRTOInfo (ms_of (rto_Initial r)) (ms_of (rto_Max r)) (ms_of (rto_Min r)))).
Proof.
  apply field_step. intros r _. checks. bools.
  split; intros (H1 & H2 & H3 & H4); repeat (split; [done |]);
    apply ms_of_whole in H2 as [H2 ?], H3 as [H3 ?]; unfold Millisecond in *; [| split; [| done]];
    lia.
Qed.

Lemma sack_step c :
  decides E (sack_ops c) (on_set (cfg_DelayedSACK c) (fun d => whole_ms (ds_Delay d) 500))
    (set_op (cfg_DelayedSACK c) (fun d => opDelayedSACK (ms_of (ds_Delay d)) (ds_Frequency d))).
Proof.
  apply field_step. intros d _. checks. bools. split.
  - intros (H1 & H2 & _). apply ms_of_whole in H1 as [H1 ?]. exists (ms_of (ds_Delay d)). lia.
  - intros H. pose proof (ms_of_whole _ _ H). destruct H as (ms & ? & ?).
    split; [exists ms; unfold MaxUint32; lia | lia].
Qed.

Lemma reuse_step c style :
  decides E (reuse_port_ops c style) (cfg_ReusePort c = None \/ isEndpoint style = false)
    (set_op (cfg_ReusePort c) opReusePort).
Proof.
  eapply decides_iff; [| apply (field_step _ _ (fun _ => isEndpoint style = false))].
  - destruct (cfg_ReusePort c); simpl; intuition congruence.
  - intros on _. checks. tauto.
Qed.

Lemma policy_known p :
  andnot p prPolicyMask = 0 <-> p = PRNone \/ p = PRTTL \/ p = PRRtx \/ p = PRPrio.
Proof.
  split; [| by intros [-> | [-> | [-> | ->]]]]. intros H. apply policy_values; [| done].
  assert (Hp : Z.land p prPolicyMask = p).
  { unfold andnot in H. pose proof (Z.lor_ldiff_and p prPolicyMask) as Hor.
    by rewrite H, Z.lor_0_l in Hor. }
  assert (Hm : p = p mod 2 ^ 8).
  { rewrite <- Z.land_ones by done. rewrite <- Hp at 2. rewrite <- Z.land_assoc.
    change (Z.land prPolicyMask (Z.ones 8)) with prPolicyMask. by symmetry. }
  pose proof (Z.mod_pos_bound p (2 ^ 8) ltac:(done)). unfold is_u16. lia.
Qed.

(** The checks of validatePrInfo are the ones of [valid_pr]. *)
Lemma validatePrInfo_valid field pr :
  match validatePrInfo field pr with
  | None => valid_pr pr
  | Some e => ~ valid_pr pr /\ einval e
  end.
Proof.
  unfold validatePrInfo, valid_pr. destruct pr as [p ttl v]; cbn [pr_Policy pr_TTL pr_Value].
  pose proof (policy_known p) as Hk. destruct (Z.eqb_spec (andnot p prPolicyMask) 0) as [Hm | Hm]; cbn [negb].
  2:{ assert (~ (p = PRNone \/ p = PRTTL \/ p = PRRtx \/ p = PRPrio)) by tauto. destruct (p =? PRAll); (split; [tauto | done]). }
  assert (Hd : PRTTL <> PRNone /\ PRTTL <> PRRtx /\ PRTTL <> PRPrio /\ PRNone <> PRRtx /\ PRNone <> PRPrio) by done.
  apply proj1 in Hk. specialize (Hk Hm). destruct (Z.eqb_spec p PRTTL) as [-> | Hp].
  - destruct (Z.eqb_spec v 0); cbn [negb]; [| split; [tauto | done]].
    destruct (Z.eqb_spec ttl 0); [split; [tauto | done] |].
    assert (Hw : forall e : error, ~ whole_ms ttl MaxUint32 -> einval e ->
      ~ ((PRTTL = PRNone /\ ttl = 0 /\ v = 0) \/ (PRTTL = PRTTL /\ ttl <> 0 /\ whole_ms ttl MaxUint32 /\ v = 0) \/
         ((PRTTL = PRRtx \/ PRTTL = PRPrio) /\ ttl = 0)) /\ einval e) by (intros; split; [tauto | done]).
    destruct (Z.ltb_spec ttl 0); [apply Hw; [intros (ms & -> & ?); unfold Millisecond in *; lia | done] |].
    rewrite Z.rem_mod_nonneg, Z.quot_div_nonneg by (unfold Millisecond; lia).
    destruct (Z.eqb_spec (ttl mod Millisecond) 0) as [Hr | Hr]; cbn [negb].
    2:{ apply Hw; [| done]. intros (ms & -> & ?). by rewrite Z.mod_mul in Hr. }
    pose proof (Z.div_mod ttl Millisecond ltac:(done)) as Hdm.
    destruct (Z.ltb_spec MaxUint32 (ttl / Millisecond)) as [Hq | Hq].
    + apply Hw; [| done]. intros (ms & -> & ?). rewrite Z.div_mul in Hq by done. lia.
    + right. left. split_and!; try done. exists (ttl / Millisecond). split; [lia |]. split; [| done]. apply Z.div_pos; unfold Millisecond; lia.
  - destruct (Z.eqb_spec ttl 0); cbn [negb]; [| split; [tauto | done]].
    destruct (Z.eqb_spec p PRNone) as [-> |]; cbn [andb]; [| tauto].
    destruct (Z.eqb_spec v 0); cbn [negb]; [tauto | split; [tauto | done]].
Qed.

(** The kernel's two fields of a valid policy. *)
Definition pr_op (pr : PrInfo) : configOp :=
  opDefaultPrInfo (pr_Policy pr) (if pr_Policy pr =? PRTTL then ms_of (pr_TTL pr) else pr_Value pr).

Lemma pr_op_resolved pr : valid_pr pr -> opDefaultPrInfo (fst (resolvePrInfo pr)) (snd (resolvePrInfo pr)) = pr_op pr.
Proof.
  destruct pr as [p ttl v]. unfold valid_pr, pr_op, resolvePrInfo. cbn [pr_Policy pr_TTL pr_Value].
  intros [(-> & -> & ->) | [(-> & Hz & Hw & ->) | [[-> | ->] ->]]]; try done.
  apply ms_of_whole in Hw as [Hms Hr]. change (PRTTL =? PRNone) with false. change (PRTTL =? PRTTL) with true. cbv iota. cbn [fst snd].
  unfold ms_of in *. rewrite Z.quot_div_nonneg by (unfold Millisecond in *; lia).
  unfold u32. rewrite Z.mod_small by (unfold MaxUint32 in Hr; lia). done.
Qed.

Lemma pr_info_step c :
  decides E (pr_info_ops c) (on_set (cfg_DefaultPrInfo c) valid_pr) (set_op (cfg_DefaultPrInfo c) pr_op).
Proof.
  apply field_step. intros pr _. pose proof (validatePrInfo_valid "Config.DefaultPrInfo" pr) as Hv.
  destruct (validatePrInfo _ pr) as [e |]; cbn [fail_if].
  - right. destruct Hv as [Hv He]. split; [done |]. exists e. split; [done |]. by apply HE.
  - left. split; [done |]. rewrite <- pr_op_resolved by done. simpl. by destruct (resolvePrInfo pr).
Qed.
End Steps.

(** ** The snapshot of a valid Config *)
Section Spec.
Context `{A : Arch}.

Definition snd_info_op (i : SndInfo) : configOp :=
  opDefaultSndInfo (snd_Stream i) (snd_Flags i) (networkOrderUint32 (snd_PPID i)) (snd_Context i).

(** The operations of the fields that are set, in the order of Config's
    documentation. *)
Definition snapshot_ops (c : Config) (style : socketStyle) : list configOp :=
  [opRecvRcvInfo] ++ [opAssocChange] ++
  set_op (cfg_ReadBuffer c) opReadBuffer ++
  set_op (cfg_WriteBuffer c) opWriteBuffer ++
  init_msg_op (cfg_InitMsg c) ++
  frag_ops c style (frag_level c style) ++
  set_op (cfg_Authentication c) opAuthentication ++
  set_op (cfg_HMACIdentifiers c) opHMACIdentifiers ++
  (match cfg_AuthChunks c with Some l => opAuthChunk <$> l | None => [] end) ++
  set_op (cfg_DynamicAddressReconfiguration c) opDynamicAddressReconfiguration ++
  set_op (cfg_PartialReliability c) opPartialReliability ++
  set_op (cfg_StreamReconfiguration c) opStreamReconfiguration ++
  set_op (cfg_StreamResetMask c) opStreamResetMask ++
  (if cfg_MessageInterleaving c then [opMessageInterleaving true] else []) ++
  set_op (cfg_ExperimentalECN c) opExperimentalECN ++
  set_op (cfg_AdaptationLayer c) opAdaptationLayer ++
  set_op (cfg_RTOInfo c)
    (fun r => opRTOInfo (ms_of (rto_Initial r)) (ms_of (rto_Max r)) (ms_of (rto_Min r))) ++
  set_op (cfg_DelayedSACK c) (fun d => opDelayedSACK (ms_of (ds_Delay d)) (ds_Frequency d)) ++
  set_op (cfg_FragmentsDisabled c) opFragmentsDisabled ++
  set_op (cfg_ReusePort c) opReusePort ++
  set_op (cfg_ReceiveNxtInfo c) opReceiveNxtInfo ++
  set_op (cfg_NoDelay c) opNoDelay ++
  set_op (cfg_DefaultSndInfo c) snd_info_op ++
  set_op (cfg_DefaultPrInfo c) pr_op ++
  (opNotification <$> first_occurrences (has 0) (default [] (cfg_Notifications c))).

Definition snapshot_events (c : Config) (style : socketStyle) : Z :=
  event_set 0 (default [] (cfg_Notifications c) ++ (if isEndpoint style then [EventAssocChange] else [])).

Definition snapshot (c : Config) (style : socketStyle) : prepared := {|
  p_ops := snapshot_ops c style;
  p_handler := cfg_NotificationHandler c;
  p_closeTimeout := if cfg_CloseTimeout c =? 0 then 3 * Second else cfg_CloseTimeout c;
  p_abandon := cfg_AbandonPolicy c;
  p_setupRTOInitialMS := ms_of (cfg_SetupRTOInitial c);
  p_subscribed := snapshot_events c style;
  p_fragLevel := frag_level c style;
  p_adopted := false |}.

(** How prepare refuses: with an error that is EINVAL, or ErrUnsupported
    for the one level Linux cannot keep. *)
Definition refusal (c : Config) (e : error) : Prop :=
  errors_Is e (Errno EINVAL) = true \/
  cfg_FragmentInterleave c = Some InterleaveStreams /\ errors_Is e ErrUnsupported = true.

Lemma refusal_einval c e : einval e -> refusal c e.
Proof. by left. Qed.

Lemma frag_step c style :
  decides (refusal c) (resolveFragmentInterleave c style)
    (on_set (cfg_FragmentInterleave c) (fun l => l = InterleaveNone \/ l = InterleaveAssocs))
    (frag_level c style).
Proof.
  unfold resolveFragmentInterleave, frag_level, refusal.
  destruct (cfg_FragmentInterleave c) as [l |]; simpl; [| left; by destruct (isEndpoint style)].
  destruct (Z.eqb_spec l InterleaveNone); [left; tauto |].
  destruct (Z.eqb_spec l InterleaveAssocs); [left; tauto |]. right. split; [tauto |]. simpl.
  destruct (Z.eqb_spec l InterleaveStreams) as [-> |]; eexists; (split; [reflexivity |]); [| by left].
  right. by split.
Qed.

Lemma unordered_flag f : andnot f SendUnordered = 0 <-> f = 0 \/ f = SendUnordered.
Proof. change SendUnordered with (Z.ones 1). rewrite andnot_ones by done. change (Z.ones 1) with 1. lia. Qed.

Lemma snd_info_step c :
  decides (refusal c) (snd_info_ops c)
    (on_set (cfg_DefaultSndInfo c) (fun i => snd_Flags i = 0 \/ snd_Flags i = SendUnordered))
    (set_op (cfg_DefaultSndInfo c) snd_info_op).
Proof.
  apply field_step. intros i _. unfold validateDefaultSndInfo.
  eapply decides_iff; [apply unordered_flag |].
  destruct (Z.eqb_spec (andnot (snd_Flags i) SendUnordered) 0) as [H0 | Hn]; cbn [negb fail_if].
  - left. split; [done |]. simpl. unfold snd_info_op. do 3 f_equal. apply unordered_flag in H0.
    by destruct H0 as [-> | ->].
  - right. split; [done |]. eexists. split; [done | by left].
Qed.

Lemma events_step c :
  decides (refusal c) (buildSubscriptions (cfg_Notifications c))
    (on_set (cfg_Notifications c) (fun ts => forall t, t ∈ ts -> t ∈ eventTypeNames.*1))
    (event_set 0 (default [] (cfg_Notifications c)),
     opNotification <$> first_occurrences (has 0) (default [] (cfg_Notifications c))).
Proof.
  apply (decides_weaken (refusal_einval c)). unfold buildSubscriptions.
  eapply decides_iff; [| apply subscribe_loop_spec].
  destruct (cfg_Notifications c); simpl; [apply Forall_forall | split; [done | by constructor]].
Qed.
End Spec.

(** One step of prepare, by its lemma. *)
Tactic Notation "chain" uconstr(H) := eapply decides_bind; [apply H | intros _].

Section Theorems.
Context `{A : Arch}.

Lemma prepare_decides c style :
  style <> styleFile ->
  decides (refusal c) (prepare (Some c) style) (valid c style) (snapshot c style).
Proof.
  intros Hf. pose proof (refusal_einval c) as HE. eapply decides_iff.
  2:{ unfold prepare. change (default zeroConfig (Some c)) with c. cbv zeta.
      chain (close_step HE).
      rewrite bool_decide_eq_false_2 by done.
      chain (abandon_step HE).
      chain (setup_step HE).
      chain (read_buffer_step HE).
      chain (write_buffer_step HE).
      chain (init_msg_step HE).
      chain frag_step.
      chain bool_step.
      chain (hmac_step HE).
      chain (auth_chunk_step HE).
      chain (asconf_step HE).
      do 2 chain bool_step.
      chain (reset_mask_step HE).
      chain (interleaving_step HE).
      chain bool_step.
      chain adapt_step.
      chain (rto_step HE).
      chain (sack_step HE).
      chain bool_step.
      chain (reuse_step HE).
      do 2 chain bool_step.
      chain snd_info_step.
      chain (pr_info_step HE).
      chain events_step.
      eapply decides_value; [| apply decides_ret]. intros _.
      unfold snapshot, snapshot_events, event_set. rewrite foldl_app.
      destruct (isEndpoint style); reflexivity. }
  split.
  - intros H. decompose [and] H. constructor; tauto.
  - intros []. tauto.
Qed.

(** ** The order of the operations *)

(** Operations of kinds from [k] on, in order, each once. *)
Definition from (k : Z) (ops : list configOp) : Prop :=
  StronglySorted Z.le (configOpKind <$> ops) /\ Forall (fun o => k <= configOpKind o) ops /\ NoDup ops.

Lemma from_nil k : from k [].
Proof. repeat constructor. Qed.

Lemma from_app k l1 l2 :
  Forall (fun o => configOpKind o = k) l1 -> NoDup l1 -> from (k + 1) l2 -> from k (l1 ++ l2).
Proof.
  intros H1 Hn (Hs & Hk & Hn2). induction l1 as [| o l1 IH]; simpl.
  - split; [done |]. split; [| done]. eapply Forall_impl; [exact Hk |]. simpl. lia.
  - inversion H1; subst. inversion Hn; subst. destruct IH as (I1 & I2 & I3); [done | done |].
    split; [| split].
    + constructor; [done |]. by apply Forall_fmap.
    + constructor; [lia | done].
    + constructor; [| done]. rewrite elem_of_app. intros [| He]; [done |].
      eapply Forall_forall in Hk; [| exact He]. simpl in Hk. lia.
Qed.

Lemma from_set_op {T} k (o : option T) f l :
  (forall v, configOpKind (f v) = k) -> from (k + 1) l -> from k (set_op o f ++ l).
Proof.
  intros Hf Hl. apply from_app; [| | done]; destruct o; simpl; repeat constructor; auto.
  by intros ?%elem_of_nil.
Qed.

Lemma snapshot_ops_from c style : valid c style -> from 0 (snapshot_ops c style).
Proof.
  intros Hv. pose proof (v_chunks _ _ Hv) as Hc. unfold snapshot_ops.
  repeat first
    [ apply from_set_op; [reflexivity |]
    | apply (from_app 0 [opRecvRcvInfo]); [repeat constructor | apply NoDup_singleton |]
    | apply (from_app 1 [opAssocChange]); [repeat constructor | apply NoDup_singleton |]
    | apply (from_app 4); [unfold init_msg_op; case_bool_decide; repeat constructor
                          | unfold init_msg_op; case_bool_decide; [constructor | apply NoDup_singleton] |]
    | apply (from_app 5); [unfold frag_ops; case_match; repeat constructor
                          | unfold frag_ops; case_match; [apply NoDup_singleton | constructor] |]
    | apply (from_app 8); [destruct (cfg_AuthChunks c); [apply Forall_fmap, Forall_true; done | constructor]
                          | destruct (cfg_AuthChunks c); [| constructor] |]
    | apply (from_app 13); [case_match; repeat constructor
                           | case_match; [apply NoDup_singleton | constructor] |] ].
  - apply NoDup_fmap_2; [intros ? ?; congruence |]. apply Hc.
  - rewrite <- app_nil_r. apply (from_app 24); [apply Forall_fmap, Forall_true; done | | apply from_nil].
    apply NoDup_fmap_2; [intros ? ?; congruence |]. apply NoDup_first_occurrences.
Qed.

(** ** The lists inside the operations *)
Definition chunks_of (ops : list configOp) : list Z :=
  omap (fun o => match o with opAuthChunk ct => Some ct | _ => None end) ops.
Definition events_of (ops : list configOp) : list Z :=
  omap (fun o => match o with opNotification t => Some t | _ => None end) ops.

Lemma omap_set_op {T} (g : configOp -> option Z) (o : option T) f l :
  (forall v, g (f v) = None) -> omap g (set_op o f ++ l) = omap g l.
Proof. intros Hg. destruct o; simpl; [by rewrite Hg | done]. Qed.

Lemma omap_init_msg_op (g : configOp -> option Z) m l :
  (forall a b c d, g (opInitMsg a b c d) = None) -> omap g (init_msg_op m ++ l) = omap g l.
Proof. intros Hg. unfold init_msg_op. case_bool_decide; simpl; [done | by rewrite Hg]. Qed.

Lemma omap_frag_ops (g : configOp -> option Z) c style level l :
  (forall n, g (opFragmentInterleave n) = None) -> omap g (frag_ops c style level ++ l) = omap g l.
Proof. intros Hg. unfold frag_ops. case_match; simpl; [by rewrite Hg | done]. Qed.

Lemma omap_intl (g : configOp -> option Z) (b : bool) l :
  g (opMessageInterleaving true) = None ->
  omap g ((if b then [opMessageInterleaving true] else []) ++ l) = omap g l.
Proof. intros Hg. destruct b; simpl; [by rewrite Hg | done]. Qed.

Lemma omap_none {T} (g : configOp -> option Z) (f : T -> configOp) l k :
  (forall v, g (f v) = None) -> omap g ((f <$> l) ++ k) = omap g k.
Proof. intros Hg. induction l as [| x l IH]; simpl; [done | by rewrite Hg]. Qed.

Lemma omap_all (g : configOp -> option Z) (f : Z -> configOp) (l : list Z) :
  (forall v, g (f v) = Some v) -> omap g (f <$> l) = l.
Proof. intros Hg. induction l as [| x l IH]; [done |]. simpl. rewrite Hg. f_equal. exact IH. Qed.

Lemma omap_one (g : configOp -> option Z) o l : g o = None -> omap g ([o] ++ l) = omap g l.
Proof. intros Hg. simpl. by rewrite Hg. Qed.

(** Skip the operations that hold no element of the list. *)
Ltac skip_ops :=
  repeat first [ rewrite omap_one by done | rewrite omap_set_op by done | rewrite omap_init_msg_op by done
               | rewrite omap_frag_ops by done | rewrite omap_intl by done ].

Lemma chunks_of_snapshot c style : chunks_of (snapshot_ops c style) = default [] (cfg_AuthChunks c).
Proof.
  unfold chunks_of, snapshot_ops. skip_ops.
  rewrite omap_app. skip_ops. rewrite <- (app_nil_r (opNotification <$> _)), omap_none by done.
  rewrite app_nil_r. destruct (cfg_AuthChunks c); [by apply omap_all | done].
Qed.

Lemma events_of_snapshot c style :
  events_of (snapshot_ops c style) = first_occurrences (has 0) (default [] (cfg_Notifications c)).
Proof.
  unfold events_of, snapshot_ops. skip_ops.
  replace (match cfg_AuthChunks c with Some l => opAuthChunk <$> l | None => [] end)
    with (opAuthChunk <$> default [] (cfg_AuthChunks c)) by (by destruct (cfg_AuthChunks c)).
  rewrite omap_none by done. skip_ops. by apply omap_all.
Qed.

(** ** An adopted descriptor *)

(** Only NotificationHandler and CloseTimeout may be set. *)
Definition adoptable (c : Config) : Prop := c = {|
    cfg_Control := None; cfg_NotificationHandler := cfg_NotificationHandler c;
    cfg_CloseTimeout := cfg_CloseTimeout c;
    cfg_AbandonPolicy := AbandonAbort; cfg_SetupRTOInitial := 0; cfg_InitMsg := zeroInitMsg;
    cfg_AdaptationLayer := None; cfg_HMACIdentifiers := None; cfg_AuthChunks := None;
    cfg_PartialReliability := None; cfg_StreamReconfiguration := None;
    cfg_DynamicAddressReconfiguration := None; cfg_Authentication := None;
    cfg_ExperimentalECN := None; cfg_MessageInterleaving := false; cfg_ReadBuffer := None;
    cfg_WriteBuffer := None; cfg_NoDelay := None; cfg_DefaultSndInfo := None;
    cfg_DefaultPrInfo := None; cfg_ReusePort := None; cfg_FragmentsDisabled := None;
    cfg_FragmentInterleave := None; cfg_ReceiveNxtInfo := None; cfg_StreamResetMask := None;
    cfg_RTOInfo := None; cfg_DelayedSACK := None; cfg_Notifications := None |}.

Definition adopted (c : Config) : prepared := {|
  p_ops := [opRecvRcvInfo; opAssocChange];
  p_handler := cfg_NotificationHandler c;
  p_closeTimeout := if cfg_CloseTimeout c =? 0 then 3 * Second else cfg_CloseTimeout c;
  p_abandon := AbandonAbort; p_setupRTOInitialMS := 0; p_subscribed := 0;
  p_fragLevel := InterleaveNone; p_adopted := true |}.

Lemma file_fields_unset c : find snd (file_fields c) = None <-> adoptable c.
Proof.
  split; [| intros Hp; unfold adoptable in Hp; rewrite Hp; by vm_compute].
  intros Hf. pose proof (List.find_none _ _ Hf) as Hn.
  assert (Hall : Forall (fun x => snd x = false) (file_fields c)).
  { apply Forall_forall. intros x Hx. apply Hn. by apply list_elem_of_In. }
  unfold file_fields in Hall. repeat (apply Forall_cons in Hall as [?Hx Hall]).
  cbn [snd] in *.
  repeat match goal with
  | H : bool_decide (is_Some ?o) = false |- _ =>
      apply bool_decide_eq_false, eq_None_not_Some in H
  | H : negb _ = false |- _ => apply negb_false_iff in H
  | H : bool_decide _ = true |- _ => apply bool_decide_eq_true in H
  | H : (_ =? _) = true |- _ => apply Z.eqb_eq in H
  end.
  unfold adoptable. destruct c; simpl in *; by simplify_eq.
Qed.

Lemma prepare_file_decides c :
  decides einval (prepare (Some c) styleFile) (0 <= cfg_CloseTimeout c /\ adoptable c) (adopted c).
Proof.
  unfold prepare. change (default zeroConfig (Some c)) with c. cbv zeta.
  apply (decides_bind _ _ _ _ _ _ (close_step (fun e (H : einval e) => H) (cfg_CloseTimeout c))). intros _.
  change (bool_decide (styleFile = styleFile)) with true. cbv iota. unfold prepareFileStyle.
  pose proof (file_fields_unset c) as Hu. destruct (find snd (file_fields c)) as [[name set] |].
  - right. split; [| by eexists]. intros Hp. by apply Hu in Hp.
  - left. split; [by apply Hu | done].
Qed.

(** ** Either form *)

(** What a Config must satisfy for a style, and what it then becomes. *)
Definition acceptable (c : Config) (style : socketStyle) : Prop :=
  if decide (style = styleFile) then 0 <= cfg_CloseTimeout c /\ adoptable c else valid c style.
Definition prepared_form (c : Config) (style : socketStyle) : prepared :=
  if decide (style = styleFile) then adopted c else snapshot c style.

Lemma prepare_accepts c style :
  decides (refusal c) (prepare (Some c) style) (acceptable c style) (prepared_form c style).
Proof.
  unfold acceptable, prepared_form. destruct (decide (style = styleFile)) as [-> |].
  - apply (decides_weaken (refusal_einval c)), prepare_file_decides.
  - by apply prepare_decides.
Qed.

(** What prepare returns, in either form. *)
Lemma prepare_cases c style p :
  prepare (Some c) style = Ret p ->
  (style = styleFile /\ p_ops p = [opRecvRcvInfo; opAssocChange] /\ p_subscribed p = 0 /\
   cfg_Notifications c = None) \/
  (style <> styleFile /\ valid c style /\ p = snapshot c style).
Proof.
  intros H. destruct (prepare_accepts c style) as [[Hv E] | [Hv (e & E & _)]]; rewrite E in H; [| done].
  injection H as <-. unfold acceptable, prepared_form in *. destruct (decide (style = styleFile)) as [-> |]; [left | by right].
  destruct Hv as [_ Hv]. unfold adoptable in Hv. rewrite Hv. done.
Qed.

(** ** Theorems *)

(** C32 prepare accepts exactly the Configs that are valid for the style,
    whatever the order of its checks, and then returns the snapshot: one
    operation per field that is set, with the field's value in the
    kernel's unit, and the effective timeout, level and subscriptions; for
    an adopted descriptor exactly those with no field set but
    NotificationHandler and a CloseTimeout that is not negative, which give
    the two internal operations.  Every other Config is refused with an
    error that matches EINVAL, or ErrUnsupported for InterleaveStreams on a
    style that is not an adopted descriptor, and prepare never panics.  A
    nil Config is the zero Config. *)
Theorem prepare_spec c style :
  prepare None style = prepare (Some zeroConfig) style /\
  match prepare (Some c) style with
  | Ret p => acceptable c style /\ p = prepared_form c style
  | Err e => ~ acceptable c style /\ (if decide (style = styleFile) then einval e else refusal c e)
  | Panic => False
  end.
Proof.
  split; [done |]. unfold acceptable, prepared_form. destruct (decide (style = styleFile)) as [-> | Hs].
  - destruct (prepare_file_decides c) as [[Hv ->] | [Hv (e & -> & He)]]; done.
  - destruct (prepare_decides c style Hs) as [[Hv ->] | [Hv (e & -> & He)]]; done.
Qed.

Lemma prepare_total c style : prepare c style <> Panic.
Proof.
  assert (Hs : forall c, prepare (Some c) style <> Panic).
  { intros c0. by destruct (prepare_accepts c0 style) as [[_ ->] | [_ (e & -> & _)]]. }
  destruct c as [c |]; [apply Hs | apply (Hs zeroConfig)].
Qed.

(** The operations come in the documented order, each at most once,
    RCVINFO and ASSOC_CHANGE first; and the AUTH chunk types among them,
    with the two Linux may add, fit the kernel's 16-entry copy. *)
Theorem prepare_order c style p (Hp : prepare (Some c) style = Ret p) :
  StronglySorted Z.le (configOpKind <$> p_ops p) /\ NoDup (p_ops p) /\
  take 2 (p_ops p) = [opRecvRcvInfo; opAssocChange] /\
  Z.of_nat (size (effective_chunks (chunks_of (p_ops p)))) <= sctpAuthMaxChunks.
Proof.
  destruct (prepare_cases c style p Hp) as [(_ & -> & _) | (_ & Hv & ->)].
  - split; [by repeat constructor |]. split; [| done].
    apply NoDup_cons; split; [set_solver | apply NoDup_singleton].
  - destruct (snapshot_ops_from c style Hv) as (H1 & _ & H3).
    split; [exact H1 |]. split; [exact H3 |]. split; [reflexivity |].
    unfold snapshot. cbn [p_ops]. rewrite chunks_of_snapshot. pose proof (v_chunks _ _ Hv) as Hc.
    destruct (cfg_AuthChunks c); [apply Hc | vm_compute; discriminate].
Qed.

(** The caller's subscriptions are kept exactly: a type is in the set
    when it was listed, or is ASSOC_CHANGE on an endpoint; and each listed
    type is subscribed in the kernel by one operation. *)
Theorem prepare_subscribed c style p t
    (Hp : prepare (Some c) style = Ret p) (Ht : known_event t) :
  let listed := t ∈ default [] (cfg_Notifications c) in
  (has (p_subscribed p) t = true <-> listed \/ isEndpoint style = true /\ t = EventAssocChange) /\
  (t ∈ events_of (p_ops p) <-> listed) /\ NoDup (events_of (p_ops p)).
Proof.
  intros listed. unfold listed. clear listed.
  destruct (prepare_cases c style p Hp) as [(-> & -> & -> & ->) | (_ & Hv & ->)].
  - split; [| split; [done | constructor]]. split; [| intros [?%elem_of_nil | [? _]]; done].
    unfold has. rewrite Z.land_0_l. done.
  - unfold snapshot. cbn [p_ops p_subscribed]. rewrite events_of_snapshot.
    pose proof (v_events _ _ Hv) as He.
    assert (Hk : Forall known_event (default [] (cfg_Notifications c))).
    { apply Forall_forall. destruct (cfg_Notifications c); [exact He | by intros ? ?%elem_of_nil]. }
    assert (H0 : forall u, has 0 u = false) by (intros u; unfold has; by rewrite Z.land_0_l).
    unfold snapshot_events. rewrite has_event_set, H0, has_elem_spec; [| done |].
    2:{ apply Forall_app; split; [done |]. destruct (isEndpoint style); repeat constructor. }
    split; [| split].
    + cbn [orb]. rewrite bool_decide_eq_true, elem_of_app. destruct (isEndpoint style); set_solver.
    + rewrite elem_of_first_occurrences, H0. tauto.
    + apply NoDup_first_occurrences.
Qed.
End Theorems.

(** ** A Config with the dependent fields set *)
Definition sample_config : Config := {|
  cfg_Control := None; cfg_NotificationHandler := Some 1%positive; cfg_CloseTimeout := 0;
  cfg_AbandonPolicy := AbandonAbort; cfg_SetupRTOInitial := 0;
  cfg_InitMsg := {| im_OutStreams := 10; im_MaxInStreams := 10; im_MaxAttempts := 4;
                    im_MaxInitTimeout := 2000 * Millisecond |};
  cfg_AdaptationLayer := None; cfg_HMACIdentifiers := Some [HMACSHA256; HMACSHA1];
  cfg_AuthChunks := Some [0; chunkTypeASCONF];
  cfg_PartialReliability := Some true; cfg_StreamReconfiguration := Some true;
  cfg_DynamicAddressReconfiguration := Some true; cfg_Authentication := Some true;
  cfg_ExperimentalECN := None; cfg_MessageInterleaving := true; cfg_ReadBuffer := Some 65536;
  cfg_WriteBuffer := None; cfg_NoDelay := Some true;
  cfg_DefaultSndInfo := Some {| snd_Stream := 1; snd_Flags := 0; snd_PPID := 3; snd_Context := 0 |};
  cfg_DefaultPrInfo := None; cfg_ReusePort := None; cfg_FragmentsDisabled := None;
  cfg_FragmentInterleave := None; cfg_ReceiveNxtInfo := None; cfg_StreamResetMask := Some 5;
  cfg_RTOInfo := Some {| rto_Initial := 1000 * Millisecond; rto_Max := 2000 * Millisecond;
                         rto_Min := 500 * Millisecond |};
  cfg_DelayedSACK := None;
  cfg_Notifications := Some [EventShutdown; EventSenderDry; EventShutdown] |}.

Definition sample_prepared : prepared := snapshot (A := amd64) sample_config styleListenEndpoint.

Lemma prepare_spec_witness :
  prepare (A := amd64) (Some sample_config) styleListenEndpoint = Ret sample_prepared /\
  acceptable sample_config styleListenEndpoint /\ ~ acceptable sample_config styleFile.
Proof.
  assert (H : prepare (A := amd64) (Some sample_config) styleListenEndpoint = Ret sample_prepared)
    by (vm_compute; reflexivity).
  split; [exact H |]. split.
  - pose proof (prepare_spec (A := amd64) sample_config styleListenEndpoint) as [_ Hp].
    rewrite H in Hp. exact (proj1 Hp).
  - pose proof (prepare_spec (A := amd64) sample_config styleFile) as [_ Hp].
    destruct (prepare (A := amd64) (Some sample_config) styleFile) eqn:E; [vm_compute in E; discriminate E | exact (proj1 Hp) | done].
Defined.

Lemma prepare_order_witness :
  prepare (A := amd64) (Some sample_config) styleListenEndpoint = Ret sample_prepared /\
  NoDup (p_ops sample_prepared).
Proof.
  assert (H : prepare (A := amd64) (Some sample_config) styleListenEndpoint = Ret sample_prepared)
    by (vm_compute; reflexivity).
  split; [exact H |]. apply (prepare_order (A := amd64) sample_config styleListenEndpoint sample_prepared H).
Defined.

Lemma prepare_subscribed_witness :
  prepare (A := amd64) (Some sample_config) styleListenEndpoint = Ret sample_prepared /\
  known_event EventSenderDry /\ has (p_subscribed sample_prepared) EventSenderDry = true.
Proof.
  assert (H : prepare (A := amd64) (Some sample_config) styleListenEndpoint = Ret sample_prepared)
    by (vm_compute; reflexivity).
  assert (Hk : known_event EventSenderDry) by (unfold known_event; cbn; set_solver).
  split; [exact H |]. split; [exact Hk |].
  apply (prepare_subscribed (A := amd64) sample_config styleListenEndpoint sample_prepared EventSenderDry H Hk).
  left. cbn. set_solver.
Defined.
