(* ===== verification/Close.v ===== *)
(** * The close state machine (src/close.go)

    lifecycle: its state word, its two channels and its shut flag, shared by
    any number of concurrent calls of close, abortNow and shutdown.  Each
    call is a thread with a program counter, and [exec] is one atomic step
    of it: one load, store, compare-and-swap, channel operation or closeOps
    call of the source.  The result of a closeOps call, and the choice of a
    select with two ready cases, is an input of the step.  The clock that
    now and after read is part of the shared state and only moves forward;
    a timer fires once the clock has passed its time.

    The theorems hold for every interleaving: the descriptor is released
    once, no channel is closed twice (a run-time panic in Go), done closed
    means released, all Shutdowns together call startShutdown at most once, the state only moves along the documented edges, every
    call returns, and a close polls no more often than its grace period
    allows. *)
From Stdlib Require Import ZArith Lia Bool.
From stdpp Require Import base list option relations.
From S2P Require Import Prelude Errors Options.

Inductive lifeState := lifeOpen | lifeClosing | lifeAborting | lifeClosed.

#[global] Instance lifeState_eq_dec : EqDecision lifeState.
Proof. solve_decision. Defined.

Definition Microsecond : Z := 1000.
Definition shutdownPollMin : Z := 200 * Microsecond.
Definition shutdownPollMax : Z := 20 * Millisecond.

(** The shared state.  [initialised] is [l.done != nil]; the channels are
    counted by how often they were closed, the descriptor by how often it
    was released (release or abortive). *)
Record lifecycle := {
  initialised : bool;
  state : lifeState;
  abort : nat;
  done : nat;
  shut : bool;
  released : nat;
  clock : Z;
}.

Definition zero_lifecycle (t : Z) : lifecycle := {|
  initialised := false; state := lifeOpen; abort := 0; done := 0; shut := false; released := 0; clock := t |}.

(** init *)
Definition init (l : lifecycle) : lifecycle := {|
  initialised := true; state := state l; abort := 0; done := 0; shut := shut l;
  released := released l; clock := clock l |}.

(** closeClock: the timer of one close call, nil until its first wait, as
    the time its current setting fires.  A receive after Reset never yields
    a value of an earlier setting, so the setting is all of it that is
    visible. *)
Record closeClock := { timer : option Z }.

Definition zero_closeClock : closeClock := {| timer := None |}.

(** now *)
Definition now (l : lifecycle) : Z := clock l.

(** after: the closeClock with its timer made or reset, and the time the
    channel fires. *)
Definition after (l : lifecycle) (c : closeClock) (d : Z) : closeClock * Z :=
  match timer c with
  | None => let newTimer := clock l + d in ({| timer := Some newTimer |}, newTimer)
  | Some _ => let reset := clock l + d in ({| timer := Some reset |}, reset)
  end.

(** The wait of one graceful close: its grace, deadline and next step, how
    many polls it has started, and its closeClock. *)
Record wait := { grace : Z; deadline : Z; pollStep : Z; polls : nat; closeTimer : closeClock }.

Inductive call := CallClose (grace : Z) | CallAbort | CallShutdown.

(** Where a call is. *)
Inductive pc :=
| CloseEnter (grace : Z)                         (* the checks of close *)
| CloseDeadline (grace : Z)                      (* deadline := ops.now().Add(grace) *)
| CloseShut (w : wait)                           (* l.shut.Store(true) *)
| CloseStart (w : wait)                          (* ops.startShutdown() *)
| ClosePoll (w : wait)                           (* ops.assocGone() *)
| CloseRemaining (w : wait)                      (* deadline.Sub(ops.now()) *)
| CloseSelect (w : wait) (fire : Z)              (* the select *)
| CloseAbortive (cause : option error)           (* ops.abortive() *)
| CloseRelease                                   (* ops.release() *)
| FinishState (result : option error)            (* l.state.Store(lifeClosed) *)
| FinishDone (result : option error)             (* close(l.done) *)
| AbortLoad                                      (* l.state.Load() *)
| AbortFromOpen                                  (* CompareAndSwap(lifeOpen, lifeClosed) *)
| AbortFromClosing                               (* CompareAndSwap(lifeClosing, lifeAborting) *)
| AbortSignal                                    (* close(l.abort) *)
| AbortWait                                      (* <-l.done *)
| AbortiveNow                                    (* finishAbortive: ops.abortive() *)
| AbortiveDone (result : option error)           (* finishAbortive: close(l.done) *)
| ShutdownLoad                                   (* the state check of shutdown *)
| ShutdownClaim                                  (* l.shut.CompareAndSwap(false, true) *)
| ShutdownStart                                  (* ops.startShutdown() *)
| Returned (graceful_or_abort : bool) (result : option error).

Definition enter (c : call) : pc :=
  match c with
  | CallClose g => CloseEnter g
  | CallAbort => AbortLoad
  | CallShutdown => ShutdownLoad
  end.

(** What the environment decides in one step: the error of a closeOps call,
    assocGone's answer, and the case a select takes when both are ready. *)
Record input := { in_err : option error; in_gone : bool; in_abort : bool }.

Definition set_state (l : lifecycle) (s : lifeState) : lifecycle := {|
  initialised := initialised l; state := s; abort := abort l; done := done l; shut := shut l;
  released := released l; clock := clock l |}.
Definition close_abort (l : lifecycle) : lifecycle := {|
  initialised := initialised l; state := state l; abort := S (abort l); done := done l;
  shut := shut l; released := released l; clock := clock l |}.
Definition close_done (l : lifecycle) : lifecycle := {|
  initialised := initialised l; state := state l; abort := abort l; done := S (done l);
  shut := shut l; released := released l; clock := clock l |}.
Definition set_shut (l : lifecycle) : lifecycle := {|
  initialised := initialised l; state := state l; abort := abort l; done := done l; shut := true;
  released := released l; clock := clock l |}.
Definition release (l : lifecycle) : lifecycle := {|
  initialised := initialised l; state := state l; abort := abort l; done := done l; shut := shut l;
  released := S (released l); clock := clock l |}.
Definition tick (l : lifecycle) (d : Z) : lifecycle := {|
  initialised := initialised l; state := state l; abort := abort l; done := done l; shut := shut l;
  released := released l; clock := clock l + d |}.

Definition ErrClosed : option error := Some (Plain NetErrClosed).

(** errors.Join(err, ops.abortive()) on the failed query's path,
    ops.abortive() alone on the others. *)
Definition join_cause (cause err : option error) : option error :=
  match cause with Some _ => errors_Join [cause; err] | None => err end.

Definition next_wait (w : wait) : wait := {|
  grace := grace w; deadline := deadline w;
  pollStep := Z.min (2 * pollStep w) shutdownPollMax; polls := S (polls w); closeTimer := closeTimer w |}.

Definition set_closeTimer (w : wait) (c : closeClock) : wait := {|
  grace := grace w; deadline := deadline w; pollStep := pollStep w; polls := polls w; closeTimer := c |}.

(** The switch of abortNow on the state it loaded. *)
Definition abort_switch (s : lifeState) : pc :=
  match s with
  | lifeOpen => AbortFromOpen
  | lifeClosing => AbortFromClosing
  | lifeAborting => AbortWait
  | lifeClosed => Returned true ErrClosed
  end.

(** close *)
Definition exec_close (l : lifecycle) (p : pc) (i : input) : option (lifecycle * pc) :=
  match p with
  | CloseEnter g =>
      if negb (initialised l) then Some (l, Returned true ErrClosed)
      else if g <=? 0 then Some (l, AbortLoad)
      else if bool_decide (state l = lifeOpen) then Some (set_state l lifeClosing, CloseDeadline g)
      else Some (l, Returned true ErrClosed)
  | CloseDeadline g =>
      Some (l, CloseShut {| grace := g; deadline := now l + g; pollStep := shutdownPollMin; polls := 0;
                            closeTimer := zero_closeClock |})
  | CloseShut w => Some (set_shut l, CloseStart w)
  | CloseStart w => Some (l, ClosePoll w)
  | ClosePoll w =>
      match in_err i with
      | Some e => Some (l, CloseAbortive (Some e))
      | None => if in_gone i then Some (l, CloseRelease) else Some (l, CloseRemaining w)
      end
  | CloseRemaining w =>
      let remaining := deadline w - now l in
      if remaining <=? 0 then Some (l, CloseAbortive None)
      else let (c, fire) := after l (closeTimer w) (Z.min (pollStep w) remaining) in
           Some (l, CloseSelect (set_closeTimer w c) fire)
  | CloseSelect w fire =>
      let aborted := (1 <=? abort l)%nat in
      let fired := fire <=? clock l in
      if aborted && (in_abort i || negb fired) then Some (l, CloseAbortive None)
      else if fired then Some (l, ClosePoll (next_wait w))
      else None
  | CloseAbortive cause => Some (release l, FinishState (join_cause cause (in_err i)))
  | CloseRelease => Some (release l, FinishState (in_err i))
  | _ => None
  end.

(** finish and finishAbortive *)
Definition exec_finish (l : lifecycle) (p : pc) (i : input) : option (lifecycle * pc) :=
  match p with
  | FinishState r => Some (set_state l lifeClosed, FinishDone r)
  | FinishDone r => Some (close_done l, Returned true r)
  | AbortiveNow => Some (release l, AbortiveDone (in_err i))
  | AbortiveDone r => Some (close_done l, Returned true r)
  | _ => None
  end.

(** abortNow *)
Definition exec_abortNow (l : lifecycle) (p : pc) (i : input) : option (lifecycle * pc) :=
  match p with
  | AbortLoad =>
      if negb (initialised l) then Some (l, Returned true ErrClosed)
      else Some (l, abort_switch (state l))
  | AbortFromOpen =>
      if bool_decide (state l = lifeOpen) then Some (set_state l lifeClosed, AbortiveNow)
      else Some (l, AbortLoad)
  | AbortFromClosing =>
      if bool_decide (state l = lifeClosing) then Some (set_state l lifeAborting, AbortSignal)
      else Some (l, AbortLoad)
  | AbortSignal => Some (close_abort l, AbortWait)
  | AbortWait => if (1 <=? done l)%nat then Some (l, Returned true None) else None
  | _ => None
  end.

(** shutdown *)
Definition exec_shutdown (l : lifecycle) (p : pc) (i : input) : option (lifecycle * pc) :=
  match p with
  | ShutdownLoad =>
      if negb (initialised l) || negb (bool_decide (state l = lifeOpen))
      then Some (l, Returned false ErrClosed) else Some (l, ShutdownClaim)
  | ShutdownClaim =>
      if shut l then Some (l, Returned false None) else Some (set_shut l, ShutdownStart)
  | ShutdownStart => Some (l, Returned false (in_err i))
  | _ => None
  end.

Definition exec (l : lifecycle) (p : pc) (i : input) : option (lifecycle * pc) :=
  match p with
  | FinishState _ | FinishDone _ | AbortiveNow | AbortiveDone _ => exec_finish l p i
  | AbortLoad | AbortFromOpen | AbortFromClosing | AbortSignal | AbortWait => exec_abortNow l p i
  | ShutdownLoad | ShutdownClaim | ShutdownStart => exec_shutdown l p i
  | _ => exec_close l p i
  end.

(** ** Executions *)
Record world := { life : lifecycle; threads : list pc }.

(** A step of thread [i]. *)
Inductive thread_step (n : nat) : world -> world -> Prop :=
| ThreadStep l ts p i l' p' :
    ts !! n = Some p -> exec l p i = Some (l', p') ->
    thread_step n {| life := l; threads := ts |} {| life := l'; threads := <[n := p']> ts |}.

(** Any step: a thread's, the clock's, or a new call. *)
Inductive step : world -> world -> Prop :=
| StepThread n w w' : thread_step n w w' -> step w w'
| StepTick l ts d : 0 <= d -> step {| life := l; threads := ts |} {| life := tick l d; threads := ts |}
| StepCall l ts c : step {| life := l; threads := ts |} {| life := l; threads := ts ++ [enter c] |}.

(** From a fresh lifecycle, initialised or not, with no call made yet. *)
Inductive initial : world -> Prop :=
| InitialOpen t : initial {| life := init (zero_lifecycle t); threads := [] |}
| InitialZero t : initial {| life := zero_lifecycle t; threads := [] |}.

Definition reachable (w : world) : Prop := exists w0, initial w0 /\ rtc step w0 w.

(** An execution with its history: [execution w h w'] when [h] lists, first
    step first, where each call was when it took a step on the way from [w]
    to [w'].  Each operation of the code is one such place, so the number of
    times [h] holds a place is the number of times its operation was made,
    by any call, whatever became of the call since. *)
Inductive execution (w : world) : list pc -> world -> Prop :=
| ExecutionNil : execution w [] w
| ExecutionThread h l ts n p i l' p' :
    execution w h {| life := l; threads := ts |} -> ts !! n = Some p -> exec l p i = Some (l', p') ->
    execution w (h ++ [p]) {| life := l'; threads := <[n := p']> ts |}
| ExecutionTick h l ts d :
    execution w h {| life := l; threads := ts |} -> 0 <= d ->
    execution w h {| life := tick l d; threads := ts |}
| ExecutionCall h l ts c :
    execution w h {| life := l; threads := ts |} ->
    execution w h {| life := l; threads := ts ++ [enter c] |}.

(** ** Counting threads *)
Definition total (f : pc -> nat) (ts : list pc) : nat := sum_list_with f ts.

Lemma total_insert f ts n p p' :
  ts !! n = Some p -> (total f (<[n := p']> ts) + f p = total f ts + f p')%nat.
Proof.
  unfold total. revert n. induction ts as [| q ts IH]; intros [| n] H; simpl in *; simplify_eq; [lia |].
  specialize (IH n H). lia.
Qed.

Lemma total_snoc f ts p : total f (ts ++ [p]) = (total f ts + f p)%nat.
Proof. unfold total. rewrite sum_list_with_app. simpl. lia. Qed.

Lemma total_positive f ts : (0 < total f ts)%nat -> exists n p, ts !! n = Some p /\ (0 < f p)%nat.
Proof.
  unfold total. induction ts as [| q ts IH]; simpl; [lia |]. intros H.
  destruct (decide (0 < f q)%nat) as [| Hq]; [by exists 0%nat, q |].
  destruct IH as (n & p & ? & ?); [lia |]. by exists (S n), p.
Qed.

Lemma total_lookup f ts n p : ts !! n = Some p -> (f p <= total f ts)%nat.
Proof.
  unfold total. revert n. induction ts as [| q ts IH]; intros [| n] H; simpl in *; simplify_eq; [lia |].
  specialize (IH n H). lia.
Qed.

(** A close that owns the descriptor and has not stored lifeClosed yet. *)
Definition closing (p : pc) : nat :=
  match p with
  | CloseDeadline _ | CloseShut _ | CloseStart _ | ClosePoll _ | CloseRemaining _ | CloseSelect _ _
  | CloseAbortive _ | CloseRelease | FinishState _ => 1
  | _ => 0
  end.

(** A call that has moved the state to lifeClosed and not closed done yet. *)
Definition finishing (p : pc) : nat :=
  match p with FinishDone _ | AbortiveNow | AbortiveDone _ => 1 | _ => 0 end.

(** A call that has released the descriptor and not closed done yet. *)
Definition holding (p : pc) : nat :=
  match p with FinishState _ | FinishDone _ | AbortiveDone _ => 1 | _ => 0 end.

(** The abortNow that is about to close the abort channel. *)
Definition signalling (p : pc) : nat := match p with AbortSignal => 1 | _ => 0 end.

(** A shutdown that is about to call startShutdown. *)
Definition shutting (p : pc) : nat := match p with ShutdownStart => 1 | _ => 0 end.

(** A close that is about to call startShutdown, and one that will. *)
Definition starting (p : pc) : nat := match p with CloseStart _ => 1 | _ => 0 end.
Definition to_start (p : pc) : nat :=
  match p with CloseDeadline _ | CloseShut _ | CloseStart _ => 1 | _ => 0 end.

(** A call whose step releases the descriptor. *)
Definition releasing (p : pc) : nat :=
  match p with CloseAbortive _ | CloseRelease | AbortiveNow => 1 | _ => 0 end.

(** Who owns the descriptor in each state. *)
Definition ownership (l : lifecycle) (ts : list pc) : Prop :=
  released l = (total holding ts + done l)%nat /\
  match state l with
  | lifeOpen => total closing ts = 0%nat /\ total finishing ts = 0%nat /\ done l = 0%nat
  | lifeClosing | lifeAborting =>
      total closing ts = 1%nat /\ total finishing ts = 0%nat /\ done l = 0%nat
  | lifeClosed => total closing ts = 0%nat /\ (total finishing ts + done l = 1)%nat
  end /\
  match state l with
  | lifeOpen | lifeClosing => abort l = 0%nat /\ total signalling ts = 0%nat
  | lifeAborting => (abort l + total signalling ts = 1)%nat
  | lifeClosed => (abort l + total signalling ts <= 1)%nat
  end.

(** The k-th wait between two polls, and the sum of the first k. *)
Fixpoint step_at (k : nat) : Z :=
  match k with O => shutdownPollMin | S k => Z.min (2 * step_at k) shutdownPollMax end.
Fixpoint elapsed (k : nat) : Z :=
  match k with O => 0 | S k => elapsed k + step_at k end.

(** No poll number beyond this is reached within a grace period. *)
Definition max_polls (g : Z) : nat := Z.to_nat (8 + g / shutdownPollMax).

Definition waited (w : wait) (t : Z) (k : nat) : Prop :=
  deadline w <= t \/ deadline w - grace w + elapsed k <= t.

Definition wait_ok (w : wait) (l : lifecycle) : Prop :=
  0 < grace w /\ pollStep w = step_at (polls w) /\ (polls w <= max_polls (grace w))%nat /\
  waited w (clock l) (polls w).

(** What holds of each call by itself. *)
Definition thread_ok (l : lifecycle) (p : pc) : Prop :=
  match p with
  | CloseDeadline g => 0 < g
  | CloseShut w | CloseStart w | ClosePoll w | CloseRemaining w => wait_ok w l
  | CloseSelect w fire =>
      wait_ok w l /\ (polls w < max_polls (grace w))%nat /\
      fire <= clock l + shutdownPollMax /\ waited w fire (S (polls w))
  | AbortSignal | AbortWait => state l = lifeAborting \/ state l = lifeClosed
  | Returned true None => done l = 1%nat
  | _ => True
  end.

Definition Inv (w : world) : Prop :=
  ownership (life w) (threads w) /\ Forall (thread_ok (life w)) (threads w).

(** ** The waits *)
Lemma step_at_range k : 0 < step_at k <= shutdownPollMax.
Proof. induction k; simpl; unfold shutdownPollMin, shutdownPollMax, Microsecond, Millisecond in *; lia. Qed.

Lemma step_at_max k : (7 <= k)%nat -> step_at k = shutdownPollMax.
Proof.
  induction k as [| k IH]; [lia |]. intros Hk. destruct (decide (k = 6)%nat) as [-> |]; [done |].
  simpl. rewrite IH by lia. unfold shutdownPollMax, Millisecond. lia.
Qed.

Lemma elapsed_bound k : shutdownPollMax * (Z.of_nat k - 7) <= elapsed k.
Proof.
  induction k as [| k IH]; [done |]. simpl elapsed. pose proof (step_at_range k).
  destruct (decide (7 <= k)%nat).
  - rewrite step_at_max by done. lia.
  - unfold shutdownPollMax, Millisecond in *. assert (0 <= elapsed k); [| lia].
    clear. induction k; simpl; [done |]. pose proof (step_at_range k). lia.
Qed.

Lemma polls_within g k : 0 < g -> elapsed k < g -> (k < max_polls g)%nat.
Proof.
  intros Hg Hk. pose proof (elapsed_bound k). unfold max_polls.
  assert (H20 : 0 < shutdownPollMax) by done.
  pose proof (Z.div_mod g shutdownPollMax ltac:(lia)).
  pose proof (Z.mod_pos_bound g shutdownPollMax H20).
  assert (0 <= g / shutdownPollMax) by (apply Z.div_pos; lia).
  enough (Z.of_nat k < 8 + g / shutdownPollMax) by lia. nia.
Qed.

Lemma waited_mono w t t' k : t <= t' -> waited w t k -> waited w t' k.
Proof. unfold waited. lia. Qed.

Lemma wait_ok_mono w l l' : clock l <= clock l' -> wait_ok w l -> wait_ok w l'.
Proof. intros Hc (? & ? & ? & Hw). repeat (split; [done |]). by eapply waited_mono. Qed.

(** ** Moving forward *)
Definition rank (s : lifeState) : nat :=
  match s with lifeOpen => 0 | lifeClosing => 1 | lifeAborting => 2 | lifeClosed => 3 end.

(** The edges of the comment on lifeState. *)
Definition edge (s s' : lifeState) : Prop :=
  match s, s' with
  | lifeOpen, lifeClosing | lifeOpen, lifeClosed | lifeClosing, lifeAborting
  | lifeClosing, lifeClosed | lifeAborting, lifeClosed => True
  | _, _ => s = s'
  end.

(** What other calls may rely on. *)
Definition forward (l l' : lifecycle) : Prop :=
  edge (state l) (state l') /\ (done l <= done l' <= 1)%nat /\ (abort l <= abort l' <= 1)%nat /\
  clock l <= clock l' /\ initialised l' = initialised l /\ (shut l = true -> shut l' = true).

Lemma thread_ok_forward l l' p : forward l l' -> thread_ok l p -> thread_ok l' p.
Proof.
  intros (He & Hd & _ & Hc & _ & _). destruct p; simpl; try done.
  1-4: by apply wait_ok_mono.
  - intros (? & ? & ? & ?). split; [by eapply wait_ok_mono |]. split; [done |]. split; [lia | done].
  - intros [E | E]; rewrite E in He; destruct (state l'); simpl in He; auto; done.
  - intros [E | E]; rewrite E in He; destruct (state l'); simpl in He; auto; done.
  - case_match; [| done]. case_match; [done | lia].
Qed.

(** ** One step of a call *)

(** Split [exec l p i = Some (l', p')] into its cases. *)
Ltac exec_cases H :=
  cbn [exec exec_close exec_finish exec_abortNow exec_shutdown] in H;
  repeat match type of H with
  | context [match ?x with _ => _ end] => destruct x eqn:?
  | context [if ?x then _ else _] => destruct x eqn:?
  end; first [discriminate H | injection H as <- <-].

Lemma exec_ownership l ts n p i l' p' :
  ownership l ts -> thread_ok l p -> ts !! n = Some p -> exec l p i = Some (l', p') ->
  ownership l' (<[n := p']> ts) /\ forward l l'.
Proof.
  intros (Hr & Hs & Ha) Hok Hn He.
  pose proof (total_insert closing ts n p p' Hn) as T1.
  pose proof (total_insert finishing ts n p p' Hn) as T2.
  pose proof (total_insert holding ts n p p' Hn) as T3.
  pose proof (total_insert signalling ts n p p' Hn) as T4.
  pose proof (total_lookup closing ts n p Hn) as L1.
  pose proof (total_lookup finishing ts n p Hn) as L2.
  pose proof (total_lookup signalling ts n p Hn) as L4.
  unfold ownership, forward, edge.
  destruct p; exec_cases He; cbn in *;
    repeat match goal with H : bool_decide _ = true |- _ => apply bool_decide_eq_true in H end;
    try (unfold abort_switch in *);
    destruct (state l); simpl in *; try done; lia || (repeat split; lia || done).
Qed.

Lemma wait_start g l : 0 < g ->
  wait_ok {| grace := g; deadline := now l + g; pollStep := shutdownPollMin; polls := 0;
             closeTimer := zero_closeClock |} l.
Proof.
  intros Hg. split; [done |]. split; [done |]. split; [simpl; lia |]. right. unfold now. simpl. lia.
Qed.

Lemma after_fire l c d c' fire : after l c d = (c', fire) -> fire = clock l + d.
Proof. unfold after. case_match; by intros [= _ <-]. Qed.

(** A poll that found the association alive, before the deadline. *)
Lemma wait_select w l c fire :
  wait_ok w l -> 0 < deadline w - now l -> after l (closeTimer w) (Z.min (pollStep w) (deadline w - now l)) = (c, fire) ->
  thread_ok l (CloseSelect (set_closeTimer w c) fire).
Proof.
  unfold now. intros Hw Hr Ha. apply after_fire in Ha as ->. pose proof Hw as (Hg & Hs & Hp & Hk). simpl. split; [done |].
  assert (He : deadline w - grace w + elapsed (polls w) <= clock l) by (unfold waited in Hk; lia).
  unfold set_closeTimer, wait_ok, waited in *. simpl. split; [apply polls_within; lia |]. rewrite Hs. pose proof (step_at_range (polls w)).
  split; [lia |]. unfold waited. simpl elapsed. lia.
Qed.

Lemma wait_next w fire l :
  thread_ok l (CloseSelect w fire) -> fire <= clock l -> wait_ok (next_wait w) l.
Proof.
  simpl. intros ((Hg & Hs & _ & _) & Hp & _ & Hw) Hf. split; [done |].
  split; [simpl; by rewrite Hs |]. split; [simpl; lia |]. eapply waited_mono; [exact Hf | exact Hw].
Qed.

Lemma exec_thread_ok l ts n p i l' p' :
  ownership l ts -> thread_ok l p -> ts !! n = Some p -> exec l p i = Some (l', p') ->
  thread_ok l' p'.
Proof.
  intros Ho Hok Hn He. destruct (exec_ownership l ts n p i l' p' Ho Hok Hn He) as [_ Hf].
  pose proof (total_lookup finishing ts n p Hn) as L2.
  destruct p; exec_cases He; try done; try (by destruct (state l)).
  all: try (by apply wait_start). all: try (by eapply wait_select; [done | lia |]).
  - by apply Z.leb_gt.
  - apply (wait_next w fire); [done | by apply Z.leb_le].
  - destruct Ho as (_ & Hs & _). simpl in *. destruct result; [done |]. destruct (state l); lia.
  - destruct (state l) eqn:E; simpl; auto.
  - by left.
  - apply Nat.leb_le in Heqb. destruct Ho as (_ & Hs & _). simpl. destruct (state l); lia.
  - destruct Ho as (_ & Hs & _). simpl in *. destruct result; [done |]. destruct (state l); lia.
Qed.

Lemma Inv_thread n w w' : thread_step n w w' -> Inv w -> Inv w' /\ forward (life w) (life w').
Proof.
  intros [l ts p i l' p' Hn He] [Ho Ht]. simpl in *.
  assert (Hp : thread_ok l p) by (by eapply Forall_lookup_1).
  destruct (exec_ownership l ts n p i l' p' Ho Hp Hn He) as [Ho' Hf].
  split; [| done]. split; [done |]. simpl. apply Forall_insert.
  - eapply Forall_impl; [exact Ht |]. intros q. by apply thread_ok_forward.
  - by apply (exec_thread_ok l ts n p i l' p').
Qed.

Lemma ownership_snoc l ts c : ownership l ts -> ownership l (ts ++ [enter c]).
Proof. unfold ownership. rewrite !total_snoc. by destruct c; rewrite !Nat.add_0_r. Qed.

Lemma Inv_bounds w : Inv w -> (done (life w) <= 1)%nat /\ (abort (life w) <= 1)%nat.
Proof. intros [(_ & Hs & Ha) _]. destruct (state (life w)); lia. Qed.

Lemma edge_refl s : edge s s.
Proof. by destruct s. Qed.

Lemma Inv_step w w' : step w w' -> Inv w -> Inv w' /\ forward (life w) (life w').
Proof.
  intros [n w1 w2 Hs | l ts d Hd | l ts c] Hi; [by eapply Inv_thread | |];
    pose proof (Inv_bounds _ Hi) as Hb; destruct Hi as [Ho Ht]; simpl in *.
  - assert (Hf : forward l (tick l d)).
    { unfold forward. simpl. repeat split; try lia; try done. apply edge_refl. }
    split; [| done]. split; [done |]. eapply Forall_impl; [exact Ht |].
    intros q. by apply thread_ok_forward.
  - split; [| unfold forward; repeat split; try lia; try done; apply edge_refl].
    split; [by apply ownership_snoc |]. apply Forall_app. split; [done |].
    repeat constructor. by destruct c.
Qed.

Lemma Inv_reachable w : reachable w -> Inv w.
Proof.
  intros (w0 & Hw0 & Hs). assert (H0 : Inv w0) by (destruct Hw0; (split; [repeat split | constructor])).
  clear Hw0. induction Hs as [| w1 w2 w3 Hst _ IH]; [done |]. apply IH. by eapply Inv_step.
Qed.

(** ** Work left *)

(** A bound on the steps a call still takes, given the state of the
    lifecycle: every compare-and-swap that fails follows a transition. *)
Definition steps_left (l : lifecycle) (p : pc) : nat :=
  let r := (3 - rank (state l))%nat in
  let left w := (4 * (max_polls (grace w) - polls w))%nat in
  match p with
  | CloseEnter g => 4 * max_polls g + 14
  | CloseDeadline g => 4 * max_polls g + 9
  | CloseShut w => left w + 8
  | CloseStart w => left w + 7
  | ClosePoll w => left w + 6
  | CloseRemaining w => left w + 5
  | CloseSelect w _ => left w + 4
  | CloseAbortive _ | CloseRelease => 3
  | FinishState _ => 2
  | FinishDone _ => 1
  | AbortLoad => 3 * r + 4
  | AbortFromOpen => if bool_decide (state l = lifeOpen) then 12 else 3 * r + 5
  | AbortFromClosing => if bool_decide (state l = lifeClosing) then 9 else 3 * r + 5
  | AbortSignal | AbortiveNow => 2
  | AbortWait | AbortiveDone _ => 1
  | ShutdownLoad => 3
  | ShutdownClaim => 2
  | ShutdownStart => 1
  | Returned _ _ => 0
  end.

Definition work (w : world) : nat := total (steps_left (life w)) (threads w).

Lemma steps_left_forward l l' p : forward l l' -> (steps_left l' p <= steps_left l p)%nat.
Proof.
  intros (He & _). destruct p; simpl; try lia; destruct (state l), (state l'); simpl in *; done || lia.
Qed.

Lemma steps_left_exec l p i l' p' :
  thread_ok l p -> exec l p i = Some (l', p') -> (steps_left l' p' < steps_left l p)%nat.
Proof.
  intros Hok He. destruct p; exec_cases He; simpl in *; try lia;
    try (destruct (state l); simpl in *; try done; lia).
  destruct (state l) eqn:E; simpl; rewrite ?E; simpl; lia.
Qed.

Lemma total_le f g ts : (forall p, f p <= g p)%nat -> (total f ts <= total g ts)%nat.
Proof. intros H. unfold total. induction ts as [| p ts IH]; simpl; [done |]. specialize (H p). lia. Qed.

Lemma total_insert_lt f g ts n p p' :
  (forall q, f q <= g q)%nat -> ts !! n = Some p -> (f p' < g p)%nat ->
  (total f (<[n := p']> ts) < total g ts)%nat.
Proof.
  intros Hle. revert n. induction ts as [| q ts IH]; intros [| n] Hn Hp; unfold total in *; simpl in *; simplify_eq.
  - pose proof (total_le f g ts Hle). unfold total in *. lia.
  - specialize (IH n Hn Hp). specialize (Hle q). lia.
Qed.

Lemma work_thread n w w' : Inv w -> thread_step n w w' -> (work w' < work w)%nat.
Proof.
  intros Hi Hs. pose proof (Inv_thread n w w' Hs Hi) as [_ Hf].
  destruct Hs as [l ts p i l' p' Hn He], Hi as [_ Ht]. unfold work. simpl in *.
  apply (total_insert_lt _ _ ts n p); [intros q; by apply steps_left_forward | done |].
  apply (steps_left_exec l p i l' p'); [by eapply Forall_lookup_1 | done].
Qed.

(** ** Progress *)

Definition no_input : input := {| in_err := None; in_gone := false; in_abort := false |}.

(** A call that has not returned can take a step, now or when the clock
    has passed its timer, unless it waits for done. *)
Lemma exec_progress l p :
  (forall k r, p <> Returned k r) -> (p = AbortWait -> (1 <= done l)%nat) -> thread_ok l p ->
  is_Some (exec (tick l shutdownPollMax) p no_input).
Proof.
  intros Hr Hw Hok. destruct p; simpl; repeat case_match; try done; try (by eexists).
  - exfalso. destruct Hok as (_ & _ & Hf & _).
    match goal with H : (_ <=? _) = false |- _ => apply Z.leb_gt in H end. simpl in *. lia.
  - specialize (Hw eq_refl). lia.
  - by destruct (Hr graceful_or_abort result).
Qed.

(** The call everyone waiting for done waits for. *)
Lemma owner_exists l ts :
  ownership l ts -> (state l = lifeAborting \/ state l = lifeClosed) -> done l = 0%nat ->
  exists n p, ts !! n = Some p /\ p <> AbortWait /\ (forall k r, p <> Returned k r).
Proof.
  intros (_ & Hs & _) Hst Hd.
  assert (H : (0 < total closing ts \/ 0 < total finishing ts)%nat)
    by (destruct Hst as [E | E]; rewrite E in Hs; lia).
  destruct H as [H | H]; apply total_positive in H as (n & p & Hn & Hp); exists n, p;
    (split; [done |]); split; intros; by intros ->; simpl in Hp; lia.
Qed.

Definition all_returned (w : world) : Prop :=
  forall n p, threads w !! n = Some p -> exists k r, p = Returned k r.

Definition returned (p : pc) : bool := match p with Returned _ _ => true | _ => false end.

(** The world once the clock has moved on by the longest poll interval. *)
Definition later (w : world) : world := {| life := tick (life w) shutdownPollMax; threads := threads w |}.

Lemma tick_thread w n p :
  threads w !! n = Some p -> is_Some (exec (tick (life w) shutdownPollMax) p no_input) ->
  exists w2, thread_step n (later w) w2.
Proof. intros Hn [[l' p'] He]. eexists. by econstructor. Qed.

Lemma progress w :
  Inv w -> all_returned w \/ exists n w2, thread_step n (later w) w2.
Proof.
  intros [Ho Ht]. destruct (list_find (fun p => returned p = false) (threads w)) as [[n p] |] eqn:Hf.
  - right. apply list_find_Some in Hf as (Hn & Hp & _).
    assert (Hok : thread_ok (life w) p) by (by eapply Forall_lookup_1).
    assert (Hnr : forall k r, p <> Returned k r) by (intros k r ->; done).
    assert (Hw : p = AbortWait /\ done (life w) = 0%nat \/ ~ (p = AbortWait /\ done (life w) = 0%nat)).
    { destruct p, (done (life w)); try (right; by intros [? ?]). by left. }
    destruct Hw as [[-> Hd] | Hnw].
    + destruct (owner_exists _ _ Ho Hok Hd) as (m & q & Hm & Hq & Hqr).
      exists m. apply (tick_thread w m q Hm). apply exec_progress; [done | done |].
      by eapply Forall_lookup_1.
    + exists n. apply (tick_thread w n p Hn). apply exec_progress; [done | | done].
      intros ->. destruct (done (life w)); [tauto | lia].
  - left. apply list_find_None in Hf. intros n p Hn. eapply Forall_lookup_1 in Hf; [| exact Hn].
    destruct p; simpl in Hf; eauto; done.
Qed.

(** ** Histories *)
Lemma execution_step w h w1 w2 : execution w h w1 -> step w1 w2 -> exists h', execution w (h ++ h') w2.
Proof.
  intros Hx Hs. revert Hx. destruct Hs as [n w3 w4 [l ts p i l' p' Hn He] | l ts d Hd | l ts c]; intros Hx.
  - exists [p]. by eapply ExecutionThread.
  - exists []. rewrite app_nil_r. by apply ExecutionTick.
  - exists []. rewrite app_nil_r. by apply ExecutionCall.
Qed.

(** Executions with a history reach the worlds the steps reach. *)
Lemma execution_steps w h w' : execution w h w' -> rtc step w w'.
Proof.
  induction 1 as [| h l ts n p i l' p' _ IH Hn He | h l ts d _ IH Hd | h l ts c _ IH]; [done | | |];
    (eapply rtc_r; [exact IH |]).
  - eapply StepThread. by econstructor.
  - by constructor.
  - by constructor.
Qed.

Lemma steps_execution w h w1 w2 :
  rtc step w1 w2 -> execution w h w1 -> exists h', execution w (h ++ h') w2.
Proof.
  intros Hs. revert h. induction Hs as [w1 | w1 w2 w3 Hst _ IH]; intros h Hx.
  - exists []. by rewrite app_nil_r.
  - destruct (execution_step w h w1 w2 Hx Hst) as [h1 H1]. destruct (IH _ H1) as [h2 H2].
    exists (h1 ++ h2). by rewrite app_assoc.
Qed.

Lemma reachable_execution w : reachable w <-> exists w0 h, initial w0 /\ execution w0 h w.
Proof.
  split.
  - intros (w0 & H0 & Hs). destruct (steps_execution w0 [] w0 w Hs (ExecutionNil w0)) as [h Hx]. by exists w0, h.
  - intros (w0 & h & H0 & Hx). exists w0. split; [done |]. by eapply execution_steps.
Qed.

(** The startShutdown calls made so far and those still to be made. *)
Definition started (l : lifecycle) (ts h : list pc) : Prop :=
  (total shutting h + total shutting ts <= (if shut l then 1 else 0))%nat /\
  (total starting h + total to_start ts <= match state l with lifeOpen => 0 | _ => 1 end)%nat /\
  released l = total releasing h.

Lemma started_exec l ts n p i l' p' h :
  started l ts h -> ts !! n = Some p -> exec l p i = Some (l', p') ->
  started l' (<[n := p']> ts) (h ++ [p]).
Proof.
  intros (Hs & Hc & Hr) Hn He. unfold started. rewrite !total_snoc.
  pose proof (total_insert shutting ts n p p' Hn) as T1.
  pose proof (total_insert to_start ts n p p' Hn) as T2.
  destruct p; exec_cases He; cbn in *;
    repeat match goal with H : shut _ = _ |- _ => rewrite H in * end;
    try (destruct (state l)); cbn in *; try done; try (destruct (shut l)); cbn in *; lia.
Qed.

Lemma started_execution w0 h w :
  initial w0 -> execution w0 h w -> started (life w) (threads w) h.
Proof.
  intros H0. induction 1 as [| h l ts n p i l' p' _ IH Hn He | h l ts d _ IH Hd | h l ts c _ IH]; simpl in *.
  - by destruct H0.
  - by eapply started_exec.
  - exact IH.
  - unfold started in *. rewrite !total_snoc. destruct c; simpl; by rewrite !Nat.add_0_r.
Qed.

(** ** Theorems *)

(** C1 Whatever the interleaving of Close, Abort and Shutdown calls, the
    descriptor is released at most once and neither channel is closed
    twice; once done is closed the descriptor has been released and the
    state is lifeClosed; a Close or Abort that returns nil returns after
    that.  Over the whole history of the lifecycle all Shutdown calls
    together make the startShutdown call at most once, counting the ones
    already made and the one about to be made, also when that call failed;
    so do all Close calls together; and the steps that release the
    descriptor are as many as the releases. *)
Theorem close_once w0 h w (Hw0 : initial w0) (Hx : execution w0 h w) :
  (released (life w) <= 1)%nat /\ (done (life w) <= 1)%nat /\ (abort (life w) <= 1)%nat /\
  (done (life w) = 1%nat -> released (life w) = 1%nat /\ state (life w) = lifeClosed) /\
  (forall n, threads w !! n = Some (Returned true None) -> done (life w) = 1%nat) /\
  (total shutting h + total shutting (threads w) <= 1)%nat /\
  (total starting h + total to_start (threads w) <= 1)%nat /\
  total releasing h = released (life w).
Proof.
  destruct (started_execution w0 h w Hw0 Hx) as (Hsh & Hst & Hre).
  assert (Hw : reachable w) by (apply reachable_execution; by exists w0, h).
  pose proof (Inv_reachable w Hw) as [(Hr & Hs & Ha) Ht].
  assert (Hh : forall ts, (total holding ts <= total closing ts + total finishing ts)%nat).
  { clear. intros ts. unfold total. induction ts as [| p ts IH]; simpl; [done |]. destruct p; simpl in *; lia. }
  specialize (Hh (threads w)).
  do 3 (split; [destruct (state (life w)); lia |]). split; [| split; [| repeat split]].
  - intros Hd. destruct (state (life w)); split; lia || done.
  - intros n Hn. exact (Forall_lookup_1 _ _ _ _ Ht Hn).
  - destruct (shut (life w)); lia.
  - destruct (state (life w)); lia.
  - done.
Qed.

(** The lifecycle only moves along the edges its comment lists, and
    lifeClosed is final: after any further steps the state has the same or
    a later rank, and done, abort and shut stay set. *)
Theorem state_forward w w' (Hw : reachable w) (Hs : rtc step w w') :
  (step w w' -> edge (state (life w)) (state (life w'))) /\
  (rank (state (life w)) <= rank (state (life w')))%nat /\
  (done (life w) <= done (life w'))%nat /\ (abort (life w) <= abort (life w'))%nat /\
  (shut (life w) = true -> shut (life w') = true).
Proof.
  pose proof (Inv_reachable w Hw) as Hi. clear Hw.
  split; [intros H; by apply (Inv_step w w' H Hi) |].
  induction Hs as [| w1 w2 w3 Hst _ IH]; [done |].
  destruct (Inv_step w1 w2 Hst Hi) as [Hi2 (He & Hd & Ha & _ & _ & Hsh)].
  destruct (IH Hi2) as (I1 & I2 & I3 & I4).
  split; [| split; [lia | split; [lia | auto]]].
  destruct (state (life w1)), (state (life w2)); simpl in *; done || lia.
Qed.

(** An execution without new calls, with [k] steps of the calls made. *)
Inductive run : nat -> world -> world -> Prop :=
| RunNil w : run 0 w w
| RunTick l ts d k w' : 0 <= d -> run k {| life := tick l d; threads := ts |} w' ->
    run k {| life := l; threads := ts |} w'
| RunThread n k w w1 w' : thread_step n w w1 -> run k w1 w' -> run (S k) w w'.

Lemma run_work k w w' : run k w w' -> Inv w -> Inv w' /\ (work w' + k <= work w)%nat.
Proof.
  induction 1 as [w | l ts d k w' Hd _ IH | n k w w1 w' Hs _ IH]; intros Hi; [split; [done | lia] | |].
  - destruct IH as [I1 I2]; [by apply (Inv_step _ _ (StepTick l ts d Hd) Hi) |]. split; [done |].
    enough (work {| life := tick l d; threads := ts |} = work {| life := l; threads := ts |}) by lia. done.
  - pose proof (work_thread n w w1 Hi Hs). destruct IH as [I1 I2]; [by apply (Inv_thread n w w1 Hs) |].
    split; [done | lia].
Qed.

(** C11 Every call returns, under any scheduling that keeps the clock and
    the calls moving: an execution takes at most [work] steps, and until
    all calls have returned some call can take one, at the latest when the
    clock has moved on by the longest poll interval.  A graceful close
    polls at most 9 times plus once per 20 ms of its grace period. *)
Theorem calls_return w w' k (Hw : reachable w) (Hr : run k w w') :
  (k <= work w)%nat /\
  (all_returned w' \/ exists n w2, thread_step n (later w') w2) /\
  (forall n wt, threads w' !! n = Some (ClosePoll wt) ->
     Z.of_nat (polls wt) <= 8 + grace wt / shutdownPollMax).
Proof.
  destruct (run_work k w w' Hr (Inv_reachable w Hw)) as [Hi Hk].
  split; [lia |]. split; [by apply progress |]. intros n wt Hn. destruct Hi as [_ Ht].
  eapply Forall_lookup_1 in Ht; [| exact Hn]. destruct Ht as (Hg & _ & Hp & _).
  unfold max_polls in Hp. assert (0 <= grace wt / shutdownPollMax) by (apply Z.div_pos; [lia | done]). lia.
Qed.

(** ** An execution: an Abort overtakes a waiting Close *)
Definition in_alive : input := {| in_err := None; in_gone := false; in_abort := false |}.

(** Run the listed threads in order, one step each. *)
Fixpoint schedule (w : world) (ns : list nat) : option world :=
  match ns with
  | [] => Some w
  | n :: ns =>
      match threads w !! n with
      | Some p => match exec (life w) p in_alive with
                  | Some (l, p') => schedule {| life := l; threads := <[n := p']> (threads w) |} ns
                  | None => None
                  end
      | None => None
      end
  end.

Lemma schedule_run ns : forall w w', schedule w ns = Some w' -> run (length ns) w w'.
Proof.
  induction ns as [| n ns IH]; intros [l ts] w'; simpl; [intros [= <-]; constructor |].
  destruct (ts !! n) as [p |] eqn:Hn; [| done].
  destruct (exec l p in_alive) as [[l' p'] |] eqn:He; [| done].
  intros H. econstructor; [econstructor; eassumption | by apply IH].
Qed.

Lemma run_steps k w w' : run k w w' -> rtc step w w'.
Proof.
  induction 1; [done | |]; (eapply rtc_l; [| eassumption]); [by constructor | by eapply StepThread].
Qed.

Definition overtake_start : world := {|
  life := init (zero_lifecycle 0); threads := [CloseEnter (3 * Second); AbortLoad] |}.

(** The close polls once and waits; the abort signals it; the close aborts,
    releases and finishes; the abort sees done. *)
Definition overtake_order : list nat := [0;0;0;0;0;0; 1;1;1; 0;0;0;0; 1]%nat.

Definition overtake_end : world := {|
  life := {| initialised := true; state := lifeClosed; abort := 1; done := 1; shut := true;
             released := 1; clock := 0 |};
  threads := [Returned true None; Returned true None] |}.

Lemma overtake_start_reachable : reachable overtake_start.
Proof.
  exists {| life := init (zero_lifecycle 0); threads := [] |}. split; [constructor |].
  eapply rtc_l; [apply (StepCall _ _ (CallClose (3 * Second))) |].
  eapply rtc_l; [apply (StepCall _ _ CallAbort) |]. done.
Defined.

Lemma overtake_run : run 14 overtake_start overtake_end.
Proof. apply (schedule_run overtake_order). vm_compute. reflexivity. Defined.

Lemma overtake_end_reachable : reachable overtake_end.
Proof.
  destruct overtake_start_reachable as (w0 & H0 & Hs). exists w0. split; [done |].
  etrans; [exact Hs |]. by apply (run_steps 14), overtake_run.
Defined.

(** Two Shutdowns: the first startShutdown fails, and the
    second Shutdown does not make the call again. *)
Definition in_failed : input := {| in_err := Some (Plain NetErrClosed); in_gone := false; in_abort := false |}.

Definition shut_twice_history : list pc := [ShutdownLoad; ShutdownClaim; ShutdownStart; ShutdownLoad; ShutdownClaim].

Definition shut_twice_end : world := {|
  life := set_shut (init (zero_lifecycle 0));
  threads := [Returned false (Some (Plain NetErrClosed)); Returned false None] |}.

(** Run the listed threads in order, each with its input, and list where
    they were. *)
Fixpoint trace (w : world) (h : list pc) (ns : list (nat * input)) : option (list pc * world) :=
  match ns with
  | [] => Some (h, w)
  | (n, i) :: ns =>
      match threads w !! n with
      | Some p => match exec (life w) p i with
                  | Some (l, p') => trace {| life := l; threads := <[n := p']> (threads w) |} (h ++ [p]) ns
                  | None => None
                  end
      | None => None
      end
  end.

Lemma trace_execution w0 ns : forall w h h' w',
  execution w0 h w -> trace w h ns = Some (h', w') -> execution w0 h' w'.
Proof.
  induction ns as [| [n i] ns IH]; intros [l ts] h h' w' Hx; simpl; [by intros [= <- <-] |].
  destruct (ts !! n) as [p |] eqn:Hn; [| done].
  destruct (exec l p i) as [[l' p'] |] eqn:He; [| done].
  apply IH. by eapply ExecutionThread.
Qed.

Lemma shut_twice_execution :
  execution {| life := init (zero_lifecycle 0); threads := [] |} shut_twice_history shut_twice_end.
Proof.
  eapply (trace_execution _ [(0, in_failed); (0, in_failed); (0, in_failed); (1, in_failed); (1, in_failed)]%nat
            {| life := init (zero_lifecycle 0); threads := [ShutdownLoad; ShutdownLoad] |} []); [| reflexivity].
  apply (ExecutionCall _ [] _ [ShutdownLoad] CallShutdown), (ExecutionCall _ [] _ [] CallShutdown), ExecutionNil.
Defined.

Lemma close_once_witness :
  initial {| life := init (zero_lifecycle 0); threads := [] |} /\
  execution {| life := init (zero_lifecycle 0); threads := [] |} shut_twice_history shut_twice_end /\
  total shutting shut_twice_history = 1%nat /\
  (total shutting shut_twice_history + total shutting (threads shut_twice_end) <= 1)%nat.
Proof.
  split; [constructor |]. split; [exact shut_twice_execution |]. split; [reflexivity |].
  apply (close_once _ _ _ (InitialOpen 0) shut_twice_execution).
Defined.

Lemma state_forward_witness :
  reachable overtake_start /\ rtc step overtake_start overtake_end /\
  (rank (state (life overtake_start)) <= rank (state (life overtake_end)))%nat.
Proof.
  assert (H : rtc step overtake_start overtake_end) by exact (run_steps 14 _ _ overtake_run).
  split; [exact overtake_start_reachable |]. split; [exact H |].
  apply (state_forward overtake_start overtake_end overtake_start_reachable H).
Defined.

Lemma calls_return_witness :
  reachable overtake_start /\ run 14 overtake_start overtake_end /\ (14 <= work overtake_start)%nat.
Proof.
  split; [exact overtake_start_reachable |]. split; [exact overtake_run |].
  apply (calls_return overtake_start overtake_end 14 overtake_start_reachable overtake_run).
Defined.
