(* ===== verification/CloseSpec.v ===== *)
(** * What the lifecycle promises (src/close.go)

    The comments on lifeState, close, abortNow, shutdown, finish and
    finishAbortive as an abstract machine: each call is in one of seven
    stages, and a stage changes in one atomic act.  There is no
    compare-and-swap loop, no channel, no clock and no poll; a close with no
    grace period is an abort.  [lifecycle_refines] shows that every step of
    Close.v is at most one act, so the calls, their order and their results
    are those of the abstract machine; [one_failure] is a property of the
    lifecycle proved of the acts alone and carried over. *)
From Stdlib Require Import ZArith Lia Bool.
From stdpp Require Import base list option relations.
From S2P Require Import Prelude Errors Options Close.

(** ** The abstract machine *)

(** The stage of one call. *)
Inductive stage :=
| Closes                                  (* called with a grace period *)
| Aborts                                  (* called Abort, or Close with no grace period *)
| Shuts                                   (* called Shutdown *)
| Granted                                (* a Shutdown that found the lifecycle open *)
| Claimed                                 (* the Shutdown that starts the shutdown *)
| Owns                                    (* must release the descriptor *)
| Freed (result : option error)           (* has released it *)
| Waits                                   (* an Abort that waits for the owner *)
| Answered (kind : bool) (result : option error).

(** What the calls share. *)
Record promise := {
  opened : bool;
  phase : lifeState;
  shutClaimed : bool;
  freed : bool;
  finished : bool;
}.

Definition with_phase (v : promise) (s : lifeState) : promise := {|
  opened := opened v; phase := s; shutClaimed := shutClaimed v; freed := freed v; finished := finished v |}.
Definition with_shut (v : promise) : promise := {|
  opened := opened v; phase := phase v; shutClaimed := true; freed := freed v; finished := finished v |}.
Definition with_freed (v : promise) : promise := {|
  opened := opened v; phase := phase v; shutClaimed := shutClaimed v; freed := true; finished := finished v |}.
Definition with_finished (v : promise) : promise := {|
  opened := opened v; phase := phase v; shutClaimed := shutClaimed v; freed := freed v; finished := true |}.

(** One act of one call: what it needs, what it changes, the stage after. *)
Inductive act (v : promise) : stage -> promise -> stage -> Prop :=
| CloseRefused : opened v = false \/ phase v <> lifeOpen -> act v Closes v (Answered true ErrClosed)
| CloseTakes : opened v = true -> phase v = lifeOpen -> act v Closes (with_phase v lifeClosing) Owns
| AbortRefused : opened v = false \/ phase v = lifeClosed -> act v Aborts v (Answered true ErrClosed)
| AbortTakes : opened v = true -> phase v = lifeOpen -> act v Aborts (with_phase v lifeClosed) Owns
| AbortOvertakes : opened v = true -> phase v = lifeClosing -> act v Aborts (with_phase v lifeAborting) Waits
| AbortJoins : opened v = true -> phase v = lifeAborting -> act v Aborts v Waits
| OwnerShuts : phase v = lifeClosing \/ phase v = lifeAborting -> act v Owns (with_shut v) Owns
| OwnerFrees r : phase v <> lifeOpen -> freed v = false -> finished v = false -> act v Owns (with_freed v) (Freed r)
| OwnerStores r : phase v = lifeClosing \/ phase v = lifeAborting -> freed v = true -> finished v = false ->
    act v (Freed r) (with_phase v lifeClosed) (Freed r)
| OwnerFinishes r : phase v = lifeClosed -> freed v = true -> finished v = false ->
    act v (Freed r) (with_finished v) (Answered true r)
| WaitEnds : finished v = true -> freed v = true -> act v Waits v (Answered true None)
| ShutRefused : opened v = false \/ phase v <> lifeOpen -> act v Shuts v (Answered false ErrClosed)
| ShutGranted : opened v = true -> phase v = lifeOpen -> act v Shuts v Granted
| ShutAgain : shutClaimed v = true -> act v Granted v (Answered false None)
| ShutClaims : shutClaimed v = false -> act v Granted (with_shut v) Claimed
| ShutReports r : shutClaimed v = true -> act v Claimed v (Answered false r).

Record spec := { shared : promise; calls : list stage }.

Definition called (c : call) : stage :=
  match c with
  | CallClose g => if g <=? 0 then Aborts else Closes
  | CallAbort => Aborts
  | CallShutdown => Shuts
  end.

Inductive spec_step : spec -> spec -> Prop :=
| SpecAct n v ss s v' s' :
    ss !! n = Some s -> act v s v' s' ->
    spec_step {| shared := v; calls := ss |} {| shared := v'; calls := <[n := s']> ss |}
| SpecCall v ss c : spec_step {| shared := v; calls := ss |} {| shared := v; calls := ss ++ [called c] |}.

Definition spec_initial (b : bool) : spec := {|
  shared := {| opened := b; phase := lifeOpen; shutClaimed := false; freed := false; finished := false |};
  calls := [] |}.

(** ** The abstraction of Close.v *)
Definition stage_of (p : pc) : stage :=
  match p with
  | CloseEnter g => if g <=? 0 then Aborts else Closes
  | CloseDeadline _ | CloseShut _ | CloseStart _ | ClosePoll _ | CloseRemaining _ | CloseSelect _ _
  | CloseAbortive _ | CloseRelease | AbortiveNow => Owns
  | FinishState r | FinishDone r | AbortiveDone r => Freed r
  | AbortLoad | AbortFromOpen | AbortFromClosing => Aborts
  | AbortSignal | AbortWait => Waits
  | ShutdownLoad => Shuts
  | ShutdownClaim => Granted
  | ShutdownStart => Claimed
  | Returned k r => Answered k r
  end.

Definition promise_of (l : lifecycle) : promise := {|
  opened := initialised l; phase := state l; shutClaimed := shut l;
  freed := (1 <=? released l)%nat; finished := (1 <=? done l)%nat |}.

Definition spec_of (w : world) : spec := {|
  shared := promise_of (life w); calls := stage_of <$> threads w |}.

(** ** What a thread needs besides Close's invariant *)

(** Only a call that has found the lifecycle initialised gets past its
    first check, and shut is set before startShutdown is called. *)
Definition entered (l : lifecycle) (p : pc) : Prop :=
  match p with
  | CloseEnter _ | AbortLoad | ShutdownLoad | Returned _ _ => True
  | ShutdownStart => initialised l = true /\ shut l = true
  | _ => initialised l = true
  end.

Lemma entered_forward l l' p : forward l l' -> entered l p -> entered l' p.
Proof. intros (_ & _ & _ & _ & Hi & Hs). destruct p; simpl; rewrite ?Hi; naive_solver. Qed.

Lemma entered_switch l s : initialised l = true -> entered l (abort_switch s).
Proof. by destruct s. Qed.

Lemma entered_exec l p i l' p' : entered l p -> exec l p i = Some (l', p') -> entered l' p'.
Proof.
  intros He Hx. destruct p; exec_cases Hx; cbn [entered] in *; try exact I; try exact He;
    try (by apply negb_false_iff).
  - by apply entered_switch, negb_false_iff.
  - apply orb_false_iff in Heqb as [Heqb _]. by apply negb_false_iff.
  - by split.
Qed.

Definition Entered (w : world) : Prop := Inv w /\ Forall (entered (life w)) (threads w).

Lemma Entered_step w w' : step w w' -> Entered w -> Entered w'.
Proof.
  intros Hst [Hi He]. pose proof (Inv_step w w' Hst Hi) as [Hi' Hf]. split; [done |].
  assert (Ho : Forall (entered (life w')) (threads w)).
  { eapply Forall_impl; [exact He |]. intros p. by apply entered_forward. }
  destruct Hst as [n w1 w2 [l ts p i l' p' Hn Hx] | l ts d Hd | l ts c]; simpl in *; [| done |].
  - apply Forall_insert; [done |]. apply (entered_exec l p i l' p'); [| done].
    by eapply Forall_lookup_1.
  - apply Forall_app. split; [done |]. repeat constructor. by destruct c.
Qed.

Lemma Entered_initial w : initial w -> Entered w.
Proof.
  intros Hw. split; [apply Inv_reachable; by exists w |]. destruct Hw; constructor.
Qed.

(** ** The owner *)

(** The call that still has to release the descriptor. *)
Definition pending (p : pc) : nat := match stage_of p with Owns => 1 | _ => 0 end.

Lemma total_pending ts :
  (total closing ts + total finishing ts = total holding ts + total pending ts)%nat.
Proof.
  unfold total. induction ts as [| p ts IH]; simpl; [done |].
  destruct p; cbn [closing finishing holding]; unfold pending at 1; cbn [stage_of]; try lia.
  destruct (_ <=? 0); lia.
Qed.

Lemma owner_unreleased l ts n p :
  ownership l ts -> ts !! n = Some p -> stage_of p = Owns ->
  released l = 0%nat /\ done l = 0%nat /\ state l <> lifeOpen.
Proof.
  intros (Hr & Hs & _) Hn Hp. pose proof (total_pending ts) as T.
  pose proof (total_lookup pending ts n p Hn) as L. unfold pending in L at 1. rewrite Hp in L.
  destruct (state l); simpl in Hs; split_and!; try done; lia.
Qed.

Lemma owner_released l ts n p r :
  ownership l ts -> ts !! n = Some p -> stage_of p = Freed r -> (1 <= released l)%nat /\ done l = 0%nat.
Proof.
  intros (Hr & Hs & _) Hn Hp. pose proof (total_pending ts) as T.
  pose proof (total_lookup holding ts n p Hn) as L.
  assert (Hh : holding p = 1%nat) by (destruct p; simpl in *; try done; by destruct (_ <=? 0)).
  destruct (state l); simpl in Hs; lia.
Qed.

Lemma done_released l ts : ownership l ts -> (1 <= done l)%nat -> (1 <= released l)%nat.
Proof. intros (Hr & _) Hd. lia. Qed.

(** ** One step of a call is at most one act *)
Definition unchanged (l l' : lifecycle) (p p' : pc) : Prop :=
  promise_of l' = promise_of l /\ stage_of p' = stage_of p.

Definition matched (l l' : lifecycle) (p p' : pc) : Prop :=
  unchanged l l' p p' \/ act (promise_of l) (stage_of p) (promise_of l') (stage_of p').

Lemma promise_with_shut l : promise_of (set_shut l) = with_shut (promise_of l).
Proof. done. Qed.
Lemma promise_with_phase l s : promise_of (set_state l s) = with_phase (promise_of l) s.
Proof. done. Qed.
Lemma promise_with_freed l : promise_of (release l) = with_freed (promise_of l).
Proof. done. Qed.
Lemma promise_with_finished l : promise_of (close_done l) = with_finished (promise_of l).
Proof. done. Qed.

Create Rewrite HintDb promise.
#[local] Hint Rewrite promise_with_shut promise_with_phase promise_with_freed promise_with_finished : promise.

Lemma stage_matched l l' p p' :
  promise_of l' = promise_of l -> stage_of p' = stage_of p -> matched l l' p p'.
Proof. by left. Qed.

(** The entry of a call. *)
Lemma enter_matched l p i l' p' :
  match p with CloseEnter _ | AbortLoad | ShutdownLoad => True | _ => False end ->
  exec l p i = Some (l', p') -> matched l l' p p'.
Proof.
  intros Hp Hx. destruct p; try done; exec_cases Hx;
    repeat match goal with
    | H : bool_decide _ = true |- _ => apply bool_decide_eq_true in H
    | H : bool_decide _ = false |- _ => apply bool_decide_eq_false in H
    | H : negb _ = true |- _ => apply negb_true_iff in H
    | H : negb _ = false |- _ => apply negb_false_iff in H
    | H : _ || _ = false |- _ => apply orb_false_iff in H as [? ?]
    | H : _ || _ = true |- _ => apply orb_true_iff in H as [H | H]
    end.
  all: unfold matched, unchanged; cbn [stage_of].
  all: match goal with H : (_ <=? 0) = _ |- _ => rewrite H | _ => idtac end.
  all: autorewrite with promise.
  - right. destruct (_ <=? 0); constructor; auto.
  - by left.
  - right. by constructor.
  - right. constructor. auto.
  - right. constructor. auto.
  - destruct (state l) eqn:E; cbn; [by left | by left | right; by apply AbortJoins | right; constructor; auto].
  - right. constructor. auto.
  - right. constructor. auto.
  - right. by constructor.
Qed.

Lemma frees_matched l ts n p r :
  ownership l ts -> ts !! n = Some p -> stage_of p = Owns ->
  act (promise_of l) Owns (with_freed (promise_of l)) (Freed r).
Proof.
  intros Ho Hn Hp. destruct (owner_unreleased l ts n p Ho Hn Hp) as (Hr & Hd & Hs).
  constructor; cbn -[Nat.leb]; [done | by rewrite Hr | by rewrite Hd].
Qed.

Lemma stores_matched l ts n r :
  ownership l ts -> ts !! n = Some (FinishState r) ->
  act (promise_of l) (Freed r) (with_phase (promise_of l) lifeClosed) (Freed r).
Proof.
  intros Ho Hn. destruct (owner_released l ts n _ r Ho Hn eq_refl) as [Hr Hd].
  pose proof (total_lookup closing ts n _ Hn) as L. destruct Ho as (_ & Hs & _).
  constructor; cbn -[Nat.leb]; [| by apply Nat.leb_le | by rewrite Hd].
  simpl in L. destruct (state l); auto; lia.
Qed.

Lemma finishes_matched l ts n p r :
  ownership l ts -> ts !! n = Some p -> stage_of p = Freed r -> finishing p = 1%nat ->
  act (promise_of l) (Freed r) (with_finished (promise_of l)) (Answered true r).
Proof.
  intros Ho Hn Hp Hf. destruct (owner_released l ts n _ r Ho Hn Hp) as [Hr Hd].
  pose proof (total_lookup finishing ts n _ Hn) as L. destruct Ho as (_ & Hs & _).
  constructor; cbn -[Nat.leb]; [| by apply Nat.leb_le | by rewrite Hd].
  destruct (state l); try done; lia.
Qed.

Lemma owner_shuts l ts n w :
  ownership l ts -> ts !! n = Some (CloseShut w) -> state l = lifeClosing \/ state l = lifeAborting.
Proof.
  intros (_ & Hs & _) Hn. pose proof (total_lookup closing ts n _ Hn) as L. simpl in L.
  destruct (state l); auto; lia.
Qed.

Lemma exec_matched l ts n p i l' p' :
  ownership l ts -> entered l p -> ts !! n = Some p ->
  exec l p i = Some (l', p') -> matched l l' p p'.
Proof.
  intros Ho He Hn Hx.
  destruct (decide (match p with CloseEnter _ | AbortLoad | ShutdownLoad => true | _ => false end = true))
    as [Hp | Hp]; [apply (enter_matched l p i); [by destruct p | done] |].
  destruct p; try done; exec_cases Hx; try (by apply stage_matched);
    right; cbn [stage_of entered] in *; autorewrite with promise;
    repeat match goal with H : bool_decide _ = true |- _ => apply bool_decide_eq_true in H end;
    try (by constructor); try (by eapply finishes_matched); try (by eapply frees_matched).
  - constructor. by eapply owner_shuts.
  - by eapply stores_matched.
  - constructor; cbn -[Nat.leb]; [done |]. by apply Nat.leb_le, (done_released l ts Ho), Nat.leb_le.
  - constructor. apply He.
Qed.

(** A step of the world is at most one step of the abstract machine. *)
Lemma step_matched w w' : Entered w -> step w w' -> rtc spec_step (spec_of w) (spec_of w').
Proof.
  intros Hi Hs. destruct Hs as [n w1 w2 [l ts p i l' p' Hn Hx] | l ts d Hd | l ts c];
    destruct Hi as [[Ho Ht] He]; simpl in *; [| done |].
  - destruct (exec_matched l ts n p i l' p' Ho (Forall_lookup_1 _ _ _ _ He Hn) Hn Hx) as [[Hl Hp] | Ha].
    + unfold spec_of. simpl. rewrite Hl, list_fmap_insert, Hp, list_insert_id; [done |].
      by rewrite list_lookup_fmap, Hn.
    + apply rtc_once. unfold spec_of. simpl. rewrite list_fmap_insert.
      apply (SpecAct n _ _ (stage_of p)); [by rewrite list_lookup_fmap, Hn | done].
  - apply rtc_once. unfold spec_of. simpl. rewrite fmap_app. simpl.
    replace (stage_of (enter c)) with (called c) by (by destruct c). apply SpecCall.
Qed.

Lemma steps_matched w w' : rtc step w w' -> Entered w -> rtc spec_step (spec_of w) (spec_of w') /\ Entered w'.
Proof.
  induction 1 as [w | w1 w2 w3 Hs _ IH]; intros He; [done |].
  destruct (IH (Entered_step w1 w2 Hs He)) as [Hr Hi]. split; [| done].
  etrans; [by apply step_matched | exact Hr].
Qed.

(** ** The abstract machine's own property *)

(** A call that owns the descriptor, or reports the failure of closing it. *)
Definition may_fail (s : stage) : Prop :=
  match s with
  | Owns | Freed _ => True
  | Answered true (Some e) => Some e <> ErrClosed
  | _ => False
  end.

Definition one_owner (a : spec) : Prop :=
  (forall n m s t, calls a !! n = Some s -> calls a !! m = Some t -> may_fail s -> may_fail t -> n = m) /\
  (phase (shared a) = lifeOpen -> forall n s, calls a !! n = Some s -> ~ may_fail s).

(** An act either starts an ownership in an open lifecycle or keeps one. *)
Lemma act_owner v s v' s' :
  act v s v' s' -> may_fail s' -> may_fail s \/ phase v = lifeOpen /\ phase v' <> lifeOpen.
Proof. intros [] Hm; simpl in *; auto; done. Qed.

Lemma act_phase v s v' s' : act v s v' s' -> phase v' = lifeOpen -> phase v = lifeOpen /\ (may_fail s' -> may_fail s).
Proof. intros [] Hp; simpl in *; split; intros; auto; try done; by destruct Hp. Qed.

Lemma one_owner_act n v ss s v' s' :
  ss !! n = Some s -> act v s v' s' -> one_owner {| shared := v; calls := ss |} ->
  one_owner {| shared := v'; calls := <[n := s']> ss |}.
Proof.
  intros Hn Ha [H1 H2]. unfold one_owner. simpl in *.
  assert (Hk : forall m t, m <> n -> ss !! m = Some t -> may_fail t -> may_fail s' -> False).
  { intros m t Hm Ht Hf Hs. destruct (act_owner v s v' s' Ha Hs) as [Hs' | [Ho _]].
    - apply Hm. by eapply H1. - by eapply (H2 Ho). }
  split.
  - intros i j t u Hi Hj Ht Hu. apply list_lookup_insert_Some in Hi, Hj.
    destruct Hi as [(<- & -> & _) | [Hni Hi]], Hj as [(<- & -> & _) | [Hnj Hj]]; try done.
    + exfalso. by eapply (Hk j).
    + exfalso. by eapply (Hk i).
    + by eapply H1.
  - intros Hp i t Hi Ht. destruct (act_phase v s v' s' Ha Hp) as [Hv Hs].
    apply list_lookup_insert_Some in Hi as [(<- & -> & _) | [_ Hi]].
    + by eapply (H2 Hv n s), Hs.
    + by eapply (H2 Hv).
Qed.

Lemma one_owner_step a b : spec_step a b -> one_owner a -> one_owner b.
Proof.
  intros [n v ss s v' s' Hn Ha | v ss c]; [by apply (one_owner_act n v ss s v' s') |]. intros [H1 H2].
  assert (Hl : forall n s, (ss ++ [called c]) !! n = Some s -> may_fail s -> ss !! n = Some s).
  { intros n s Hn Hf. apply lookup_app_Some in Hn as [Hn | [_ Hn]]; [done |].
    apply list_lookup_singleton_Some in Hn as [_ <-]. destruct c; simpl in Hf; try done. by destruct (_ <=? 0). }
  split; simpl in *.
  - intros n m s t Hn Hm Hs Ht. by apply (H1 n m s t (Hl n s Hn Hs) (Hl m t Hm Ht)).
  - intros Hp n s Hn Hs. by apply (H2 Hp n s (Hl n s Hn Hs)).
Qed.

Lemma one_owner_steps a b : rtc spec_step a b -> one_owner a -> one_owner b.
Proof. induction 1; [done |]. intros H1. by apply IHrtc, (one_owner_step x y). Qed.

(** ** Theorems *)

(** C2 The lifecycle implements the machine its comments describe: from a
    fresh lifecycle, initialised or not, every interleaving of the loads,
    compare-and-swaps, channel operations, polls and timers of any number
    of Close, Abort and Shutdown calls is an execution of the abstract
    machine, in which a call is refused, takes the descriptor, overtakes or
    joins the call that has it, frees it once and finishes after that, each
    in one act; and the two agree on every result returned. *)
Theorem lifecycle_refines w0 w (H0 : initial w0) (Hs : rtc step w0 w) :
  (exists b, spec_of w0 = spec_initial b) /\
  rtc spec_step (spec_of w0) (spec_of w) /\
  (forall n k r, threads w !! n = Some (Returned k r) <-> calls (spec_of w) !! n = Some (Answered k r)).
Proof.
  split; [destruct H0; by eexists |].
  split; [by apply steps_matched, Entered_initial |]. intros n k r. simpl. rewrite list_lookup_fmap.
  destruct (threads w !! n) as [p |]; simpl; [| by split].
  split; [by intros [= ->] |]. intros [= Hp]. destruct p; simpl in Hp; try done; [by destruct (_ <=? 0) |].
  by injection Hp as -> ->.
Qed.

(** Of all the Close and Abort calls ever made on one lifecycle, at most
    one reports that closing the descriptor failed; every other returns nil
    or net.ErrClosed. *)
Theorem one_failure w n m e f (Hw : reachable w)
    (Hn : threads w !! n = Some (Returned true (Some e))) (Hm : threads w !! m = Some (Returned true (Some f)))
    (He : Some e <> ErrClosed) (Hf : Some f <> ErrClosed) : n = m.
Proof.
  destruct Hw as (w0 & H0 & Hs).
  assert (Ho : one_owner (spec_of w)).
  { eapply one_owner_steps; [by apply steps_matched, Entered_initial |].
    destruct H0; (split; simpl; intros; done). }
  destruct Ho as [H1 _].
  apply (H1 n m (Answered true (Some e)) (Answered true (Some f))); simpl; try done;
    by rewrite list_lookup_fmap, ?Hn, ?Hm.
Qed.

Lemma lifecycle_refines_witness :
  initial {| life := init (zero_lifecycle 0); threads := [] |} /\
  rtc spec_step (spec_initial true) (spec_of overtake_end).
Proof.
  assert (Hs : rtc step {| life := init (zero_lifecycle 0); threads := [] |} overtake_end).
  { eapply rtc_l; [apply (StepCall _ _ (CallClose (3 * Second))) |].
    eapply rtc_l; [apply (StepCall _ _ CallAbort) |]. by apply (run_steps 14), overtake_run. }
  split; [constructor |].
  apply (lifecycle_refines _ overtake_end (InitialOpen 0) Hs).
Defined.

(** An Abort whose abortive close fails. *)
Definition in_failed : input := {| in_err := Some (Plain ErrUnsupported); in_gone := false; in_abort := false |}.

Definition failed_end : world := {|
  life := {| initialised := true; state := lifeClosed; abort := 0; done := 1; shut := false;
             released := 1; clock := 0 |};
  threads := [Returned true (Some (Plain ErrUnsupported))] |}.

Lemma failed_end_reachable : reachable failed_end.
Proof.
  exists {| life := init (zero_lifecycle 0); threads := [] |}. split; [constructor |].
  eapply rtc_l; [apply (StepCall _ _ CallAbort) |].
  do 4 (eapply rtc_l; [eapply StepThread, (ThreadStep 0 _ _ _ in_failed); reflexivity |]). done.
Defined.

Lemma one_failure_witness : reachable failed_end /\ 0%nat = 0%nat.
Proof.
  split; [exact failed_end_reachable |].
  apply (one_failure failed_end 0 0 (Plain ErrUnsupported) (Plain ErrUnsupported) failed_end_reachable eq_refl eq_refl);
    discriminate.
Defined.
