(* ===== verification/Term.v ===== *)
(** * The association-error latch (src/term_linux.go, termState in src/conn.go)

    What the reads and sends of a connection share about its end.  Every
    operation runs with the latch mutex held, so an execution is a sequence
    of them; each is a function from the state to the new state and the
    error the call reports ([None] for nil).

    The theorems: the first association failure is the one every later
    call reports; a read never waits on a connection that has ended; and
    once a read has drained the queue, no later read makes a system call. *)
From Stdlib Require Import ZArith Lia Bool.
From stdpp Require Import base list option.
From S2P Require Import Prelude Errors.

Record termState := {
  t_err : option error;
  failed : bool;
  ended : bool;
  drained : bool;
}.

Definition zero_termState : termState := {| t_err := None; failed := false; ended := false; drained := false |}.

(** [err == syscall.E...]: the comparison of an error with an errno. *)
Definition err_is (err : option error) (p : plain) : bool :=
  match err with Some (Plain q) => bool_decide (q = p) | _ => false end.

(** [err != nil] *)
Definition notnil (err : option error) : bool := match err with Some _ => true | None => false end.

Definition isAssocFailure (err : option error) : bool :=
  err_is err (Errno ECONNRESET) || err_is err (Errno ETIMEDOUT) || err_is err (Errno ECONNABORTED).

Definition latched (t : termState) : option error := t_err t.

Definition set_err (t : termState) (e : option error) : termState :=
  {| t_err := e; failed := failed t; ended := ended t; drained := drained t |}.

Definition storeLocked (t : termState) (err : option error) : termState * bool :=
  if negb (isAssocFailure err) then (t, false)
  else (match t_err t with None => set_err t err | Some _ => t end, true).

Definition markFailed (t : termState) : termState :=
  {| t_err := t_err t; failed := true; ended := ended t; drained := drained t |}.

(** [s.term.ended = true], on an AssocShutdownComplete record (recv_linux.go). *)
Definition markEnded (t : termState) : termState :=
  {| t_err := t_err t; failed := failed t; ended := true; drained := drained t |}.

Definition sendErrorLocked (t : termState) (err : option error) : termState * option error :=
  let '(t, stored) := storeLocked t err in
  if stored then (t, err)
  else if negb (err_is err (Errno EPIPE)) then (t, err)
  else match t_err t with
       | Some e => (t, Some e)
       | None =>
           if failed t
           then let e := Some (Plain (Errno ENOTCONN)) in (set_err t e, e)
           else (t, err)
       end.

Definition observe (t : termState) (err : option error) : termState * option error :=
  let '(t, stored) := storeLocked t err in
  if stored || notnil (t_err t) then (t, t_err t) else (t, err).

Definition set_drained (t : termState) : termState :=
  {| t_err := t_err t; failed := failed t; ended := ended t; drained := true |}.

Definition readErrorLocked (t : termState) (err : option error) : termState * option error :=
  let '(t, err) := observe t err in
  let '(t, err) :=
    if negb (notnil (t_err t)) && failed t && (err_is err (Errno EAGAIN) || err_is err EOF)
    then let e := Some (Plain (Errno ENOTCONN)) in (set_err t e, e)
    else if negb (notnil (t_err t)) && ended t && err_is err (Errno EAGAIN)
    then (t, Some (Plain EOF))
    else (t, err) in
  (if notnil (t_err t) then set_drained t else t, err).

Definition hasEnded (t : termState) : bool := ended t.

Definition readEnd (t : termState) : option error :=
  if drained t then t_err t else if ended t then Some (Plain EOF) else None.

(** ** Executions *)
Inductive term_op :=
| SendErr (err : option error)
| ReadErr (err : option error)
| ObserveErr (err : option error)
| CommLost
| ShutdownComplete.

(** One operation: the new state, and the error its call reports. *)
Definition apply_op (t : termState) (o : term_op) : termState * option error :=
  match o with
  | SendErr e => sendErrorLocked t e
  | ReadErr e => readErrorLocked t e
  | ObserveErr e => observe t e
  | CommLost => (markFailed t, None)
  | ShutdownComplete => (markEnded t, None)
  end.

Definition run_ops (t : termState) (os : list term_op) : termState :=
  foldl (fun t o => fst (apply_op t o)) t os.

(** The errors the latch may hold. *)
Definition latchable (e : error) : Prop :=
  e = Plain (Errno ECONNRESET) \/ e = Plain (Errno ETIMEDOUT) \/ e = Plain (Errno ECONNABORTED) \/
  e = Plain (Errno ENOTCONN).

Definition term_inv (t : termState) : Prop :=
  (forall e, t_err t = Some e -> latchable e) /\ (drained t = true -> is_Some (t_err t)).

(** What the latch is to hold, said without it: the error an operation
    reports is a failure of the association, or it is how a lost one shows
    ([lost]: a communication-lost record came before). *)
Definition op_error (o : term_op) : option error :=
  match o with SendErr err | ReadErr err | ObserveErr err => err | _ => None end.

Definition failure_of (err : option error) : option error :=
  err ≫= fun e =>
  match e with
  | Plain (Errno n) => if existsb (Z.eqb n) [ECONNRESET; ETIMEDOUT; ECONNABORTED] then Some e else None
  | _ => None
  end.

(** How a lost association shows: nothing to read or end of file, EPIPE of
    a send. *)
Definition shows_lost (o : term_op) : bool :=
  match o with
  | ReadErr (Some (Plain (Errno n))) => n =? EAGAIN
  | ReadErr (Some (Plain (Sentinel EOF))) => true
  | SendErr (Some (Plain (Errno n))) => n =? EPIPE
  | _ => false
  end.

Definition names_end (lost : bool) (o : term_op) : option error :=
  match failure_of (op_error o) with
  | Some e => Some e
  | None => if lost && shows_lost o then Some (Plain (Errno ENOTCONN)) else None
  end.

Definition is_CommLost (o : term_op) : bool := match o with CommLost => true | _ => false end.
Definition is_ShutdownComplete (o : term_op) : bool := match o with ShutdownComplete => true | _ => false end.

Fixpoint first_failure (lost : bool) (os : list term_op) : option error :=
  match os with
  | [] => None
  | o :: os =>
      match names_end lost o with
      | Some e => Some e
      | None => first_failure (lost || is_CommLost o) os
      end
  end.

Lemma isAssocFailure_Some err : isAssocFailure err = true -> exists e, err = Some e /\ latchable e.
Proof.
  unfold isAssocFailure, err_is, latchable. destruct err as [[q | | | | | | |] |]; try done.
  rewrite !orb_true_iff, !bool_decide_eq_true. intros [[-> | ->] | ->]; eexists; (split; [done | tauto]).
Qed.

(** What one operation keeps: an error in the latch, the marks, the
    invariant. *)
Definition kept (t t' : termState) : Prop :=
  (forall e, t_err t = Some e -> t_err t' = Some e) /\
  (failed t = true -> failed t' = true) /\ (ended t = true -> ended t' = true) /\
  (drained t = true -> drained t' = true) /\ term_inv t'.

Lemma kept_refl t : term_inv t -> kept t t.
Proof. intros Hi. by split_and!. Qed.

Lemma kept_trans t1 t2 t3 : kept t1 t2 -> kept t2 t3 -> kept t1 t3.
Proof. intros (A1 & A2 & A3 & A4 & _) (B1 & B2 & B3 & B4 & B5). repeat split; auto; apply B5. Qed.

Lemma kept_set_err t e :
  term_inv t -> t_err t = None -> latchable e -> kept t (set_err t (Some e)).
Proof.
  intros [H1 H2] He Hl. repeat split; simpl; try done; [by rewrite He | congruence].
Qed.

Lemma storeLocked_kept t err : term_inv t -> kept t (fst (storeLocked t err)).
Proof.
  intros Hi. unfold storeLocked. destruct (isAssocFailure err) eqn:Hf; simpl; [| by apply kept_refl].
  destruct (t_err t) eqn:He; simpl; [by apply kept_refl |].
  apply isAssocFailure_Some in Hf as (e & -> & Hl). by apply kept_set_err.
Qed.

Lemma storeLocked_true t err : isAssocFailure err = true -> is_Some (t_err (fst (storeLocked t err))).
Proof.
  intros Hf. unfold storeLocked. rewrite Hf. simpl. destruct (t_err t) eqn:He; simpl; [by eexists |].
  apply isAssocFailure_Some in Hf as (e & -> & _). by eexists.
Qed.

Lemma storeLocked_snd t err : snd (storeLocked t err) = isAssocFailure err.
Proof. unfold storeLocked. by destruct (isAssocFailure err). Qed.

Lemma latchable_ENOTCONN : latchable (Plain (Errno ENOTCONN)).
Proof. unfold latchable. tauto. Qed.
#[local] Hint Resolve latchable_ENOTCONN : core.

Lemma observe_kept t err : term_inv t -> kept t (fst (observe t err)).
Proof.
  intros Hi. pose proof (storeLocked_kept t err Hi). unfold observe.
  destruct (storeLocked t err) as [t1 b]. simpl in *. by destruct (b || _).
Qed.

Lemma sendErrorLocked_kept t err : term_inv t -> kept t (fst (sendErrorLocked t err)).
Proof.
  intros Hi. pose proof (storeLocked_kept t err Hi) as Hk. unfold sendErrorLocked.
  destruct (storeLocked t err) as [t1 []]; simpl in *; [done |].
  destruct (negb _); [done |]. destruct (t_err t1) eqn:He; [done |].
  destruct (failed t1); [| done]. eapply kept_trans; [exact Hk |]. apply kept_set_err; auto. apply Hk.
Qed.

(** The rules of a read after observe. *)
Lemma readErrorLocked_kept t err : term_inv t -> kept t (fst (readErrorLocked t err)).
Proof.
  intros Hi. pose proof (observe_kept t err Hi) as Hk. unfold readErrorLocked.
  destruct (observe t err) as [t1 e1]. cbn [fst] in Hk.
  assert (Hd : forall t2, kept t t2 -> kept t (if notnil (t_err t2) then set_drained t2 else t2)).
  { intros t2 H2. destruct (t_err t2) eqn:Hs; simpl; [| done]. eapply kept_trans; [exact H2 |].
    destruct H2 as (_ & _ & _ & _ & [Hl _]). by split_and!. }
  destruct (t_err t1) eqn:He; simpl.
  - rewrite He. simpl. specialize (Hd t1 Hk). rewrite He in Hd. exact Hd.
  - destruct (failed t1 && _); simpl.
    + apply (Hd (set_err t1 (Some (Plain (Errno ENOTCONN))))).
      eapply kept_trans; [exact Hk |]. apply kept_set_err; auto. apply Hk.
    + specialize (Hd t1 Hk). rewrite He in Hd. destruct (ended t1 && _); simpl; by rewrite He.
Qed.

(** What a read reports: the latch, drained; or, the latch empty, what it
    found, EAGAIN turned into EOF after the end of the association. *)
Lemma readErrorLocked_cases t err :
  (exists e t1, readErrorLocked t err = (t1, Some e) /\ t_err t1 = Some e /\ drained t1 = true) \/
  (t_err t = None /\
   readErrorLocked t err =
     (t, if ended t && err_is err (Errno EAGAIN) then Some (Plain EOF) else err) /\
   (failed t = true -> err_is err (Errno EAGAIN) = false /\ err_is err EOF = false)).
Proof.
  unfold readErrorLocked, observe, storeLocked.
  destruct (isAssocFailure err) eqn:Hf; destruct (t_err t) as [e |] eqn:He; cbn.
  - left. exists e, (set_drained t). do 3 (rewrite ?He; cbn). done.
  - left. apply isAssocFailure_Some in Hf as (e & -> & _). by exists e, (set_drained (set_err t (Some e))).
  - left. exists e, (set_drained t). do 3 (rewrite ?He; cbn). done.
  - do 3 (rewrite ?He; cbn). destruct (failed t); cbn.
    + destruct (err_is err (Errno EAGAIN) || err_is err EOF) eqn:Ha; cbn.
      * left. eexists _, _. split; [reflexivity | done].
      * right. apply orb_false_iff in Ha as [-> ->]. rewrite andb_false_r. cbn. by rewrite He.
    + right. destruct (ended t); cbn; [| by rewrite He].
      destruct (err_is err (Errno EAGAIN)); cbn; by rewrite He.
Qed.

Lemma apply_op_kept t o : term_inv t -> kept t (fst (apply_op t o)).
Proof.
  intros Hi. destruct o; simpl;
    auto using sendErrorLocked_kept, readErrorLocked_kept, observe_kept;
    destruct Hi; split_and!; done.
Qed.

Lemma run_ops_kept os : forall t, term_inv t -> kept t (run_ops t os).
Proof.
  induction os as [| o os IH]; intros t Hi; simpl; [by apply kept_refl |].
  pose proof (apply_op_kept t o Hi) as Hk. eapply kept_trans; [exact Hk |]. apply IH. apply Hk.
Qed.

Lemma err_is_errno n m : err_is (Some (Plain (Errno n))) (Errno m) = (n =? m).
Proof. simpl. destruct (Z.eqb_spec n m) as [-> | Hn]; [by rewrite bool_decide_true | rewrite bool_decide_false; congruence]. Qed.

Lemma failure_of_spec err : failure_of err = if isAssocFailure err then err else None.
Proof.
  destruct err as [[[s | n] | | | | | | |] |]; try done. unfold isAssocFailure. rewrite !err_is_errno. simpl.
  by rewrite orb_false_r, orb_assoc.
Qed.

(** One operation on an empty latch. *)
Lemma apply_op_first t o : t_err t = None -> t_err (fst (apply_op t o)) = names_end (failed t) o.
Proof.
  intros Ht. unfold names_end. rewrite failure_of_spec.
  destruct t as [t_err f en d]; simpl in Ht; subst t_err.
  destruct o as [err | err | err | |]; simpl; [| | | by rewrite andb_false_r | by rewrite andb_false_r];
    unfold sendErrorLocked, readErrorLocked, observe, storeLocked; simpl;
    destruct (isAssocFailure err) eqn:Hf; cbn -[err_is].
  1, 3, 5: apply isAssocFailure_Some in Hf as (e & -> & _); done.
  - destruct err as [[[s | n] | | | | | | |] |]; rewrite ?err_is_errno; try (by rewrite andb_false_r).
    by destruct (n =? EPIPE), f.
  - destruct err as [[[s | n] | | | | | | |] |]; rewrite ?err_is_errno; try (by destruct f, en); [by destruct s, f, en |].
    by destruct (n =? EAGAIN), f, en.
  - by rewrite andb_false_r.
Qed.

Lemma apply_op_marks t o :
  failed (fst (apply_op t o)) = failed t || is_CommLost o /\
  ended (fst (apply_op t o)) = ended t || is_ShutdownComplete o.
Proof.
  destruct o as [err | err | err | |]; simpl; rewrite ?orb_false_r, ?orb_true_r; try done;
    unfold sendErrorLocked, readErrorLocked, observe, storeLocked;
    destruct t as [[] f en d], (isAssocFailure err), err as [err |]; simpl; repeat case_match; simplify_eq; done.
Qed.

Lemma run_ops_marks os : forall t,
  failed (run_ops t os) = failed t || existsb is_CommLost os /\
  ended (run_ops t os) = ended t || existsb is_ShutdownComplete os.
Proof.
  induction os as [| o os IH]; intros t; simpl; [by rewrite !orb_false_r |].
  destruct (IH (fst (apply_op t o))) as [-> ->], (apply_op_marks t o) as [-> ->]. by rewrite !orb_assoc.
Qed.

Lemma run_ops_first os : forall t, term_inv t -> t_err t = None -> t_err (run_ops t os) = first_failure (failed t) os.
Proof.
  induction os as [| o os IH]; intros t Hi He; simpl; [done |].
  pose proof (apply_op_kept t o Hi) as (_ & _ & _ & _ & Hi1).
  pose proof (apply_op_first t o He) as H1. destruct (names_end (failed t) o) as [e |] eqn:Hn.
  - by apply (run_ops_kept os _ Hi1).
  - fold (run_ops (fst (apply_op t o)) os). rewrite IH by done. by rewrite (proj1 (apply_op_marks t o)).
Qed.

(** What is reported once an error is latched. *)
Lemma reports_latch t e err :
  t_err t = Some e -> snd (readErrorLocked t err) = Some e /\ snd (observe t err) = Some e.
Proof.
  intros Ht. assert (Hob : observe t err = (t, Some e)).
  { unfold observe, storeLocked. rewrite Ht. destruct (isAssocFailure err); simpl; by rewrite Ht. }
  split; [| by rewrite Hob]. unfold readErrorLocked. rewrite Hob. simpl. by rewrite Ht.
Qed.

Lemma send_reports_latch t e err :
  t_err t = Some e -> snd (sendErrorLocked t err) = if err_is err (Errno EPIPE) then Some e else err.
Proof.
  intros Ht. unfold sendErrorLocked, storeLocked.
  destruct (isAssocFailure err) eqn:Hf; simpl.
  - destruct (err_is err (Errno EPIPE)) eqn:Hp; [| done]. exfalso.
    apply isAssocFailure_Some in Hf as (e' & -> & Hl). revert Hp.
    destruct Hl as [-> | [-> | [-> | ->]]]; done.
  - destruct (err_is err (Errno EPIPE)); simpl; by rewrite ?Ht.
Qed.

Lemma zero_inv : term_inv zero_termState.
Proof. done. Qed.

(** ** Theorems *)

(** C40 The latch holds the first association failure and never loses it.
    After any operations the state is well formed and the latch is exactly
    what the first operation that names the end of the association left
    there: the first ECONNRESET, ETIMEDOUT or ECONNABORTED that a send, a
    read or an observation reported, or ENOTCONN when, a communication-lost
    record seen before it, a read found nothing or end of file or a send
    found EPIPE.  The marks say which end records were seen.  An error in
    the latch is still there after any further operations, and it is what
    every failing read, every observation and every EPIPE of a send report;
    any other error of a send is reported as it is. *)
Theorem latch_sticky os :
  let t := run_ops zero_termState os in
  term_inv t /\ latched t = first_failure false os /\
  failed t = existsb is_CommLost os /\ hasEnded t = existsb is_ShutdownComplete os /\
  (forall e, first_failure false os = Some e ->
     (forall os2, latched (run_ops zero_termState (os ++ os2)) = Some e) /\
     (forall err, snd (readErrorLocked t err) = Some e /\ snd (observe t err) = Some e) /\
     (forall err, snd (sendErrorLocked t err) = if err_is err (Errno EPIPE) then Some e else err)).
Proof.
  intros t. pose proof (run_ops_kept os zero_termState zero_inv) as (_ & _ & _ & _ & Hi).
  destruct (run_ops_marks os zero_termState) as [Hf He].
  assert (Hl : t_err t = first_failure false os) by (by apply (run_ops_first os zero_termState)).
  split_and!; [exact Hi | exact Hl | exact Hf | exact He |]. intros e Hfirst.
  assert (Ht : t_err t = Some e) by congruence. split_and!.
  - intros os2. unfold run_ops. rewrite foldl_app. by apply (run_ops_kept os2 t Hi).
  - intros err. by apply reports_latch.
  - intros err. by apply send_reports_latch.
Qed.

(** A read never waits for a connection that has ended: the rules leave
    EAGAIN, on which the caller parks, only while no failure is latched and
    neither end record was seen; EOF means no failure was seen; and a read
    that reports the latch marks it drained, so that from then on, whatever
    happens, readEnd answers without a system call. *)
Theorem read_rules os err os2 :
  let t := run_ops zero_termState os in
  let '(t1, res) := readErrorLocked t err in
  (err_is res (Errno EAGAIN) = true -> t_err t = None /\ failed t = false /\ ended t = false /\ t1 = t) /\
  (err_is res EOF = true -> t_err t1 = None /\ failed t = false) /\
  (forall e, t_err t1 = Some e -> res = Some e /\ readEnd (run_ops t1 os2) = Some e).
Proof.
  intros t. pose proof (run_ops_kept os zero_termState zero_inv) as (_ & _ & _ & _ & Hi).
  fold t in Hi. pose proof (readErrorLocked_kept t err Hi) as (_ & _ & _ & _ & Hi1).
  destruct (readErrorLocked_cases t err) as [(e & t1 & E & He & Hd) | (Ht & E & Hf)];
    rewrite E in Hi1 |- *; cbn [fst] in Hi1.
  - destruct (run_ops_kept os2 t1 Hi1) as (K1 & _ & _ & K4 & _).
    assert (Hl : latchable e) by (by apply Hi1). split; [| split].
    + intros H. exfalso. revert H. destruct Hl as [-> | [-> | [-> | ->]]]; done.
    + intros H. exfalso. revert H. destruct Hl as [-> | [-> | [-> | ->]]]; done.
    + intros e' He'. assert (e' = e) as -> by congruence. split; [done |].
      unfold readEnd. rewrite K4 by done. by apply K1.
  - assert (Hnf : err_is err (Errno EAGAIN) = true \/ err_is err EOF = true -> failed t = false).
    { intros H. destruct (failed t); [| done]. destruct (Hf eq_refl) as [H1 H2].
      rewrite H1, H2 in H. by destruct H. }
    split; [| split; [| by rewrite Ht]].
    + destruct (ended t); simpl; [| intros H; auto].
      destruct (err_is err (Errno EAGAIN)) eqn:Ha; [done |]. by rewrite Ha.
    + intros H. split; [done |]. apply Hnf. destruct (ended t && err_is err (Errno EAGAIN)) eqn:Ha; [left | by right].
      by apply andb_prop in Ha as [_ Ha].
Qed.

Definition lost_ops : list term_op := [ReadErr (Some (Plain (Errno EAGAIN))); SendErr (Some (Plain (Errno ECONNRESET)))].

Lemma latch_sticky_witness :
  first_failure false lost_ops = Some (Plain (Errno ECONNRESET)) /\
  latched (run_ops zero_termState (lost_ops ++ [SendErr (Some (Plain (Errno ETIMEDOUT)))])) =
    Some (Plain (Errno ECONNRESET)).
Proof.
  split; [reflexivity |].
  apply (proj2 (proj2 (proj2 (proj2 (latch_sticky lost_ops)))) (Plain (Errno ECONNRESET)) eq_refl).
Defined.
