(* ===== verification/Endpoint.v ===== *)
(** * Association ids of an Endpoint (src/endpoint.go)

    The parts of Endpoint that need no socket: which ids are real, the
    checked decoding of the kernel's association id list, and the check
    that every data message names one real association.

    An error built with fmt.Errorf and %w is [Wrapf] around its sentinel.
    slices.Sort is the sorted permutation of its argument.  A function that
    only returns an error has type [out error unit]. *)
From Stdlib Require Import ZArith Lia Bool Sorting.Sorted.
From stdpp Require Import base list option sorting strings.
From coqutil Require Import Byte.
From S2P Require Import Prelude Abi Errors Enums MsgInfo.

Definition realAssocID (id : Z) : bool := assocScopeAll <? id.

Definition assocIDArg (method : string) (id : Z) : out error unit :=
  if realAssocID id then Ret tt
  else if id =? assocScopeFuture
  then Err (invalidArg (method +:+ ": association id 0 is the scope selector SCTP_FUTURE_ASSOC (RFC 6458 §7.2), not an association"))
  else if id =? assocScopeCurrent
  then Err (invalidArg (method +:+ ": association id 1 is the scope selector SCTP_CURRENT_ASSOC (RFC 6458 §7.2), not an association"))
  else if id =? assocScopeAll
  then Err (invalidArg (method +:+ ": association id 2 is the scope selector SCTP_ALL_ASSOC (RFC 6458 §7.2), not an association"))
  else Err (invalidArg (method +:+ ": association id %d is negative; Linux gives every association an id above 2")).

Definition assocIDListLimit : Z := Z.shiftl 1 20.

(** slices.Sort of ids *)
Definition slices_Sort (ids : list Z) : list Z := merge_sort Z.le ids.

(** The neighbour comparison after the sort. *)
Fixpoint has_neighbours (ids : list Z) : bool :=
  match ids with
  | a :: ((b :: _) as rest) => (b =? a) || has_neighbours rest
  | _ => false
  end.

Section Ops.
Context `{A : Arch}.

(** The loop that reads the ids, [n] of them from index [i] on. *)
Fixpoint read_ids (b : bytes) (i : Z) (n : nat) : out error (list Z) :=
  match n with
  | O => Ret []
  | S n =>
      v ← get_at NativeEndian 4 b (assocIDsIDsOff + i * sizeAssocID);
      let id := i32 v in
      if negb (realAssocID id)
      then Err (Wrapf "%w: id %d at index %d is not an association id" ErrInvalidAssocList) else
      ids ← read_ids b (i + 1) n;
      Ret (id :: ids)
  end.

Definition decodeAssocIDs (b : bytes) : out error (list Z) :=
  if len b <? sizeAssocIDs
  then Err (Wrapf "%w: %d bytes, shorter than its %d-byte header" ErrInvalidAssocList) else
  count ← get_at NativeEndian 4 b assocIDsNumIDsOff;
  if assocIDListLimit <? count
  then Err (Wrapf "%w: %d ids, more than %d" ErrAssocListTooLarge) else
  if negb (len b =? assocIDsIDsOff + count * sizeAssocID)
  then Err (Wrapf "%w: %d ids need %d bytes, got %d" ErrInvalidAssocList) else
  ids ← read_ids b 0 (Z.to_nat count);
  let ids := slices_Sort ids in
  if has_neighbours ids
  then Err (Wrapf "%w: id %d appears twice" ErrInvalidAssocList) else
  Ret ids.

(** The loop of checkRcvInfoRecord: the records counted, or the error it
    returns from inside the loop. *)
Fixpoint check_loop (fuel : nat) (oob : bytes) (records : Z) : out error Z :=
  match fuel with
  | O => Panic
  | S fuel =>
      if len oob <? sizeCmsghdr then Ret records else
      length ← readWord oob;
      if (length <? sizeCmsghdr) || (len oob <? length)
      then Err (Wrapf "%w: a control message header declares %d bytes where %d remain" ErrInvalidRcvInfo) else
      level ← get_at NativeEndian 4 oob cmsghdrLevelOff;
      typ ← get_at NativeEndian 4 oob cmsghdrTypeOff;
      let is_rcv := (i32 level =? ipprotoSCTP) && (i32 typ =? cmsgRcvInfo) in
      let records := if is_rcv then records + 1 else records in
      if is_rcv && (length - sizeCmsghdr <? sizeRcvInfo)
      then Err (Wrapf "%w: a %d-byte record, shorter than struct sctp_rcvinfo's %d" ErrInvalidRcvInfo) else
      let adv := cmsgAlign length in
      if len oob <? adv then Ret records else
      oob ← slice_from oob adv;
      check_loop fuel oob records
  end.

Definition checkRcvInfoRecord (oob : bytes) (id : Z) : out error unit :=
  records ← check_loop (S (length oob)) oob 0;
  if records =? 0 then Err (Plain ErrMissingRcvInfo) else
  if 1 <? records then Err (Wrapf "%w: %d SCTP_RCVINFO records on one message" ErrInvalidRcvInfo) else
  if negb (realAssocID id) then Err (Wrapf "%w: association id %d" ErrInvalidRcvInfo) else
  Ret tt.

(** info and the error, as for parseRecvCmsgs. *)
Definition parseEndpointRecvCmsgs (oob : bytes) (flags : Z) : out error (MsgInfo * option error) :=
  '(info, err) ← parseRecvCmsgs oob flags;
  if mi_Notification info then Ret (info, err) else
  match checkRcvInfoRecord oob (rcv_AssocID (mi_Rcv info)) with
  | Ret _ => Ret (info, err)
  | Err cerr => Ret (set_Rcv info zeroRcvInfo, match err with None => Some cerr | Some _ => err end)
  | Panic => Panic
  end.
End Ops.

(** ** The association id list *)
Section Ids.
Context `{A : Arch}.

(** struct sctp_assoc_ids holding [ids]. *)
Definition assocIDs_bytes (ids : list Z) : bytes :=
  bytes_of NativeEndian 4 (len ids) ++ bytes_of_list NativeEndian 4 (u32 <$> ids).

Definition real_id (id : Z) : Prop := assocScopeAll < id /\ is_i32 id.

Lemma realAssocID_spec id : realAssocID id = true <-> assocScopeAll < id.
Proof. apply Z.ltb_lt. Qed.

Lemma bytes_of_i32 o s : len s = 4 -> bytes_of o 4 (u32 (i32 (uint_of o s))) = s.
Proof.
  intros Hs. pose proof (uint_of_range o s 4 Hs) as Hr.
  replace (u32 (i32 (uint_of o s))) with (uint_of o s).
  - rewrite <- (bytes_of_uint_of o s) at 2. by rewrite (len_length s 4 Hs).
  - unfold i32. rewrite (u32_small (uint_of o s)) by done. unfold u32.
    destruct (Z.ltb_spec (uint_of o s) (2 ^ 31)); [by rewrite Z.mod_small |].
    rewrite <- (Z.mod_add _ 1), Z.mod_small by lia. lia.
Qed.

(** Reading the ids that remain: either they are all real and are the
    bytes that remain, or the list is refused. *)
Lemma read_ids_ok n : forall b i,
  0 <= i -> len b = assocIDsIDsOff + (i + Z.of_nat n) * sizeAssocID ->
  match read_ids b i n with
  | Ret ids => length ids = n /\ Forall real_id ids /\
      drop (Z.to_nat (assocIDsIDsOff + i * sizeAssocID)) b = bytes_of_list NativeEndian 4 (u32 <$> ids)
  | Err e => errors_Is e ErrInvalidAssocList = true
  | Panic => False
  end.
Proof.
  change assocIDsIDsOff with 4. change sizeAssocID with 4.
  induction n as [| n IH]; intros b i Hi Hl; cbn [read_ids].
  { split; [done |]. split; [constructor |]. unfold bytes_of_list. simpl.
    apply drop_ge. unfold len in Hl. lia. }
  change assocIDsIDsOff with 4. change sizeAssocID with 4.
  rewrite get4_ok by lia. next. set (id := i32 _).
  destruct (realAssocID id) eqn:Hr; simpl; [| done].
  specialize (IH b (i + 1) ltac:(lia) ltac:(lia)).
  destruct (read_ids b (i + 1) n) as [ids | e |]; cbn [mbind out_bind]; [| done | done].
  destruct IH as (Hn & Hf & Hd). split; [by rewrite <- Hn |]. split.
  { constructor; [| done]. split; [by apply realAssocID_spec | apply i32_range]. }
  assert (Hs : len (sub b (4 + i * 4) 4) = 4) by (apply len_sub; lia).
  change (bytes_of_list NativeEndian 4 (u32 <$> id :: ids))
    with (bytes_of NativeEndian 4 (u32 id) ++ bytes_of_list NativeEndian 4 (u32 <$> ids)).
  unfold id. rewrite bytes_of_i32 by done. rewrite <- Hd.
  unfold sub. rewrite <- (take_drop 4 (drop (Z.to_nat (4 + i * 4)) b)) at 1.
  f_equal. rewrite drop_drop. f_equal. lia.
Qed.

Lemma read_ids_encoded ids : forall l i,
  Forall real_id ids -> 0 <= i -> len l = assocIDsIDsOff + i * sizeAssocID ->
  read_ids (l ++ bytes_of_list NativeEndian 4 (u32 <$> ids)) i (length ids) = Ret ids.
Proof.
  induction ids as [| id ids IH]; intros l i Hf Hi Hl; [done |]. cbn [read_ids length].
  inversion Hf as [| ? ? [Hr Hz] Hf']; subst. change assocIDsIDsOff with 4 in *. change sizeAssocID with 4 in *.
  pose proof (len_nonneg l).
  assert (Hb : bytes_of_list NativeEndian 4 (u32 <$> id :: ids) =
               bytes_of NativeEndian 4 (u32 id) ++ bytes_of_list NativeEndian 4 (u32 <$> ids)) by done.
  rewrite Hb, get4_ok.
  2: lia.
  2:{ rewrite !len_app, len_bytes_of. pose proof (len_nonneg (bytes_of_list NativeEndian 4 (u32 <$> ids))). lia. }
  next. rewrite sub_app_r, sub_app_l, sub_whole by (rewrite ?len_bytes_of; lia).
  rewrite uint_of_4. replace (u32 (u32 id)) with (u32 id) by (unfold u32; by rewrite Z.mod_mod).
  rewrite i32_u32 by done. rewrite (proj2 (realAssocID_spec id)) by done. simpl.
  rewrite app_assoc, IH; [done | done | lia |]. rewrite len_app, len_bytes_of. lia.
Qed.

Lemma has_neighbours_sorted ids :
  StronglySorted Z.le ids -> has_neighbours ids = false <-> StronglySorted Z.lt ids.
Proof.
  induction ids as [| a [| b ids] IH]; intros Hs.
  - split; [constructor | done].
  - split; [repeat constructor | done].
  - cbn [has_neighbours]. rewrite orb_false_iff, Z.eqb_neq. inversion Hs as [| ? ? Hs' Hf]; subst.
    rewrite IH by done. inversion Hf as [| ? ? Hab Hf']; subst. split.
    + intros [Hn Ht]. constructor; [done |]. inversion Ht as [| ? ? _ Hb]; subst.
      constructor; [lia |]. eapply Forall_impl; [exact Hb |]. simpl. lia.
    + intros Ht. inversion Ht as [| ? ? Ht' Hlt]; subst. inversion Hlt; subst. split; [lia | done].
Qed.

Lemma sorted_NoDup ids : StronglySorted Z.lt ids -> NoDup ids.
Proof.
  induction 1 as [| a l Hs IH Hf]; constructor; [| done]. intros Hin.
  eapply Forall_forall in Hf; [| exact Hin]. simpl in Hf. lia.
Qed.

Lemma slices_Sort_sorted ids : StronglySorted Z.le (slices_Sort ids).
Proof. apply StronglySorted_merge_sort; apply _. Qed.

Lemma slices_Sort_perm ids : slices_Sort ids ≡ₚ ids.
Proof. apply merge_sort_Permutation. Qed.

Lemma NoDup_sorted_lt l : StronglySorted Z.le l -> NoDup l -> StronglySorted Z.lt l.
Proof.
  induction 1 as [| a l Hs IH Hf]; intros Hnd; constructor; inversion Hnd; subst; auto.
  apply Forall_forall. intros x Hx. eapply Forall_forall in Hf; [| exact Hx].
  assert (a <> x) by (by intros ->). lia.
Qed.

Lemma neighbours_NoDup ids : has_neighbours (slices_Sort ids) = false <-> NoDup ids.
Proof.
  rewrite has_neighbours_sorted by apply slices_Sort_sorted. split; intros H.
  - rewrite <- slices_Sort_perm. by apply sorted_NoDup.
  - apply NoDup_sorted_lt; [apply slices_Sort_sorted |]. by rewrite slices_Sort_perm.
Qed.
End Ids.

(** ** The receive-side check *)
Section Records.
Context `{A : Arch} `{Aok : !ArchOk A}.

Definition is_rcvinfo (m : Cmsg) : bool := (cm_level m =? ipprotoSCTP) && (cm_type m =? cmsgRcvInfo).
Definition whole_rcvinfo (m : Cmsg) : Prop := sizeRcvInfo <= len (cm_payload m).
Definition rcvinfos (oob : bytes) : list Cmsg := List.filter is_rcvinfo (cmsgs oob).

Lemma check_loop_ok fuel : forall oob k,
  (length oob < fuel)%nat ->
  match check_loop fuel oob k with
  | Ret n => let ms := List.filter is_rcvinfo (cmsg_walk fuel oob) in
             n = k + len ms /\ Forall whole_rcvinfo ms
  | Err e => errors_Is e ErrInvalidRcvInfo = true
  | Panic => False
  end.
Proof.
  induction fuel as [| fuel IH]; intros oob k Hf; [lia |].
  pose proof wordSize_cases. assert (Hh : sizeCmsghdr = wordSize + 8) by done.
  cbn [check_loop cmsg_walk].
  destruct (Z.ltb_spec (len oob) sizeCmsghdr) as [| Hl]; [simpl; rewrite Z.add_0_r; auto |].
  rewrite readWord_ok by lia. next. set (n := uint_of NativeEndian (sub oob 0 wordSize)).
  destruct (Z.ltb_spec n sizeCmsghdr), (Z.ltb_spec (len oob) n); simpl orb; cbv iota; try done.
  change cmsghdrLevelOff with wordSize. change cmsghdrTypeOff with (wordSize + 4).
  rewrite !get4_ok by lia. next.
  set (m := {| cm_level := _; cm_type := _; cm_payload := _ |}).
  change ((i32 _ =? ipprotoSCTP) && (i32 _ =? cmsgRcvInfo)) with (is_rcvinfo m).
  assert (Hm : len (cm_payload m) = n - sizeCmsghdr) by (apply len_sub; lia).
  destruct (is_rcvinfo m && (n - sizeCmsghdr <? sizeRcvInfo)) eqn:Hsh; [done |].
  assert (Hw : is_rcvinfo m = true -> whole_rcvinfo m).
  { intros Hr. rewrite Hr in Hsh. apply Z.ltb_ge in Hsh. unfold whole_rcvinfo. lia. }
  pose proof (cmsgAlign_bounds n). cbn [List.filter].
  assert (Hcons : forall ms x, (x = (if is_rcvinfo m then k + 1 else k) + len ms /\ Forall whole_rcvinfo ms) ->
    x = k + len (if is_rcvinfo m then m :: ms else ms) /\
    Forall whole_rcvinfo (if is_rcvinfo m then m :: ms else ms)).
  { intros ms x [-> Hms]. destruct (is_rcvinfo m); [| done]. rewrite len_cons.
    split; [lia | constructor; auto]. }
  destruct (Z.ltb_spec (len oob) (cmsgAlign n)).
  - rewrite drop_ge by (unfold len in *; lia). apply Hcons.
    rewrite cmsg_walk_short; [simpl; rewrite Z.add_0_r; auto |]. change (len (@nil byte)) with 0. lia.
  - unfold slice_from. rewrite slice_ok by lia. next.
    set (rest := sub oob (cmsgAlign n) (len oob - cmsgAlign n)).
    assert (Hrest : rest = drop (Z.to_nat (cmsgAlign n)) oob).
    { unfold rest, sub. apply take_ge. rewrite length_drop. unfold len. lia. }
    specialize (IH rest (if is_rcvinfo m then k + 1 else k)). rewrite <- Hrest.
    assert (Hlt : (length rest < fuel)%nat) by (rewrite Hrest, length_drop; unfold len in *; lia).
    specialize (IH Hlt). destruct (check_loop fuel rest _) as [x | e |]; [| done | done]. by apply Hcons.
Qed.

(** checkRcvInfoRecord accepts one whole record with a real id. *)
Lemma checkRcvInfoRecord_ok oob id :
  match checkRcvInfoRecord oob id with
  | Ret _ => (exists m, rcvinfos oob = [m] /\ whole_rcvinfo m) /\ assocScopeAll < id
  | Err e => errors_Is e ErrInvalidRcvInfo = true \/ errors_Is e ErrMissingRcvInfo = true /\ rcvinfos oob = []
  | Panic => False
  end.
Proof.
  unfold checkRcvInfoRecord. pose proof (check_loop_ok (S (length oob)) oob 0 ltac:(lia)) as H.
  rewrite cmsg_walk_fuel in H by lia. fold (rcvinfos oob) in H.
  destruct (check_loop _ _ _) as [n | e |]; cbn [mbind out_bind]; [| by left | done].
  destruct H as [Hn Hf]. destruct (rcvinfos oob) as [| m [| m2 ms]].
  - rewrite Hn. simpl. right. done.
  - rewrite Hn. simpl. destruct (realAssocID id) eqn:Hr; simpl; [| by left].
    split; [| by apply realAssocID_spec]. exists m. split; [done |]. by inversion Hf.
  - rewrite !len_cons in Hn. pose proof (len_nonneg ms).
    rewrite (proj2 (Z.eqb_neq n 0)), (proj2 (Z.ltb_lt 1 n)) by lia. by left.
Qed.

Lemma absorb_notification info m : mi_Notification (absorb info m) = mi_Notification info.
Proof. unfold absorb. repeat case_match; done. Qed.

(** What the records leave in Rcv, for data with one whole record. *)
Lemma absorb_one_rcv ms m : forall info,
  mi_Notification info = false -> List.filter is_rcvinfo ms = [m] -> whole_rcvinfo m ->
  mi_Rcv (foldl absorb info ms) = rcvinfo_of (cm_payload m).
Proof.
  assert (Hskip : forall m' info, is_rcvinfo m' = false -> mi_Rcv (absorb info m') = mi_Rcv info).
  { intros m' info Hr. unfold absorb, is_rcvinfo in *. destruct (cm_level m' =? ipprotoSCTP); [| done].
    simpl in Hr. rewrite Hr. simpl. case_match; done. }
  assert (Hnone : forall ms info, List.filter is_rcvinfo ms = [] -> mi_Rcv (foldl absorb info ms) = mi_Rcv info).
  { clear -Hskip. induction ms as [| m' ms IH]; intros info Hf; [done |]. simpl in *.
    destruct (is_rcvinfo m') eqn:Hr; [done |]. rewrite IH by done. by apply Hskip. }
  induction ms as [| m' ms IH]; intros info Hn Hf Hw; [done |]. simpl in *.
  destruct (is_rcvinfo m') eqn:Hr.
  - injection Hf as -> Hf. rewrite Hnone by done. unfold absorb, is_rcvinfo, whole_rcvinfo in *.
    apply andb_prop in Hr as [-> ->]. simpl. rewrite Hn, (proj2 (Z.leb_le _ _)) by done. done.
  - apply IH; [by rewrite absorb_notification | done | done].
Qed.

Lemma absorb_all_notification ms : forall info,
  mi_Notification (foldl absorb info ms) = mi_Notification info.
Proof. induction ms as [| m ms IH]; intros info; [done |]. simpl. by rewrite IH, absorb_notification. Qed.

Lemma absorb_all_keeps_rcv ms : forall info,
  mi_Notification info = true -> mi_Rcv (foldl absorb info ms) = mi_Rcv info.
Proof.
  induction ms as [| m ms IH]; intros info Hn; [done |]. simpl.
  rewrite IH by (by rewrite absorb_notification). unfold absorb. rewrite Hn. simpl. rewrite andb_false_r.
  repeat case_match; done.
Qed.

(** ** Theorems *)

(** decodeAssocIDs never panics and never returns part of a list: what
    it returns is strictly ascending, so without repeats, all real ids, and
    exactly the ids the kernel's bytes hold; anything else is refused with
    ErrInvalidAssocList or ErrAssocListTooLarge.  Every well-formed list of
    distinct real ids within the limit decodes, to its ids in order. *)
Lemma decodeAssocIDs_spec b :
  match decodeAssocIDs b with
  | Ret ids => StronglySorted Z.lt ids /\ Forall real_id ids /\ len ids <= assocIDListLimit /\
               exists raw, ids ≡ₚ raw /\ b = assocIDs_bytes raw
  | Err e => errors_Is e ErrInvalidAssocList = true \/ errors_Is e ErrAssocListTooLarge = true
  | Panic => False
  end /\
  forall ids, NoDup ids -> Forall real_id ids -> len ids <= assocIDListLimit ->
    decodeAssocIDs (assocIDs_bytes ids) = Ret (slices_Sort ids).
Proof.
  assert (Hlim : assocIDListLimit = 1048576) by reflexivity. split.
  - unfold decodeAssocIDs. destruct (Z.ltb_spec (len b) sizeAssocIDs) as [| H4]; [by left |].
    change sizeAssocIDs with 4 in H4. change assocIDsNumIDsOff with 0.
    rewrite get4_ok by lia. next. set (n := uint_of NativeEndian (sub b 0 4)).
    assert (Hn : 0 <= n < 2 ^ 32) by (apply (uint_of_range NativeEndian _ 4), len_sub; lia).
    destruct (Z.ltb_spec assocIDListLimit n); [by right |].
    change assocIDsIDsOff with 4. change sizeAssocID with 4.
    destruct (Z.eqb_spec (len b) (4 + n * 4)) as [Hl |]; cbn [negb]; [| by left].
    pose proof (read_ids_ok (Z.to_nat n) b 0 ltac:(lia)) as Hr. change assocIDsIDsOff with 4 in Hr.
    change sizeAssocID with 4 in Hr. specialize (Hr ltac:(lia)).
    destruct (read_ids b 0 (Z.to_nat n)) as [raw | e |]; cbn [mbind out_bind]; [| by left | done].
    destruct Hr as (Hlen & Hf & Hd). destruct (has_neighbours _) eqn:Hnb; [by left |].
    split; [by apply has_neighbours_sorted; [apply slices_Sort_sorted |] |].
    split; [by rewrite slices_Sort_perm |].
    assert (Hraw : len raw = n) by (unfold len; lia).
    split; [unfold len; rewrite (Permutation_length (slices_Sort_perm raw)); unfold len in Hraw; lia |].
    exists raw. split; [apply slices_Sort_perm |].
    unfold assocIDs_bytes. rewrite Hraw, <- Hd. unfold n. change (Z.to_nat (4 + 0 * 4)) with 4%nat.
    rewrite <- (take_drop 4 b) at 1. f_equal.
    rewrite <- (bytes_of_uint_of NativeEndian (take 4 b)). f_equal.
    rewrite length_take. unfold len in H4. lia.
  - intros ids Hnd Hf Hl. unfold decodeAssocIDs, assocIDs_bytes. pose proof (len_nonneg ids).
    assert (Hlen : len (bytes_of NativeEndian 4 (len ids) ++ bytes_of_list NativeEndian 4 (u32 <$> ids)) = 4 + len ids * 4).
    { rewrite len_app, len_bytes_of, len_bytes_of_list. unfold len. rewrite length_fmap. lia. }
    rewrite Hlen. change sizeAssocIDs with 4. rewrite (proj2 (Z.ltb_ge _ _)) by lia.
    change assocIDsNumIDsOff with 0. rewrite get4_ok by lia. next.
    rewrite sub_app_l, sub_whole by (rewrite ?len_bytes_of; lia).
    rewrite uint_of_4, u32_small by (unfold is_u32; lia).
    rewrite (proj2 (Z.ltb_ge _ _)) by lia. change assocIDsIDsOff with 4. change sizeAssocID with 4.
    rewrite Z.eqb_refl. cbn [negb].
    replace (Z.to_nat (len ids)) with (length ids) by (unfold len; lia).
    rewrite read_ids_encoded by (done || rewrite ?len_bytes_of; done).
    cbn [mbind out_bind]. by rewrite (proj2 (neighbours_NoDup ids)).
Qed.

(** Routing is safe: parseEndpointRecvCmsgs is total, and for data
    either Rcv is the one SCTP_RCVINFO record of the message, whole, with a
    real association id, or Rcv is zero and an error is returned; without
    an error there is exactly one such record.  For a notification Rcv
    stays zero and no record is required.  The other fields are those of
    parseRecvCmsgs. *)
Lemma endpoint_routing oob flags :
  exists info err, parseEndpointRecvCmsgs oob flags = Ret (info, err) /\
  (if has_bits flags msgNotification
   then mi_Rcv info = zeroRcvInfo /\ (is_Some err <-> has_bits flags msgCtrunc = true)
   else (mi_Rcv info = zeroRcvInfo /\ is_Some err) \/
        (exists m, rcvinfos oob = [m] /\ whole_rcvinfo m /\ mi_Rcv info = rcvinfo_of (cm_payload m) /\
           assocScopeAll < rcv_AssocID (mi_Rcv info))) /\
  info = set_Rcv (foldl absorb (init_info flags) (cmsgs oob)) (mi_Rcv info).
Proof.
  unfold parseEndpointRecvCmsgs. rewrite parse_total. cbn [mbind out_bind].
  set (info := foldl absorb (init_info flags) (cmsgs oob)).
  set (err := if has_bits flags msgCtrunc then _ else _).
  assert (Hn : mi_Notification info = has_bits flags msgNotification) by apply absorb_all_notification.
  assert (Heta : forall i, i = set_Rcv i (mi_Rcv i)) by (by intros []).
  rewrite Hn. destruct (has_bits flags msgNotification) eqn:Hb.
  - exists info, err. split; [done |]. split; [| apply Heta].
    split; [by apply absorb_all_keeps_rcv |]. unfold err. destruct (has_bits flags msgCtrunc); split; done || by intros [? ?].
  - pose proof (checkRcvInfoRecord_ok oob (rcv_AssocID (mi_Rcv info))) as Hc.
    destruct (checkRcvInfoRecord oob _) as [u | e |]; [| | done].
    + destruct Hc as [(m & Hm & Hw) Hr]. exists info, err. split; [done |]. split; [| apply Heta].
      right. exists m. split; [done |]. split; [done |]. split; [| done].
      by apply absorb_one_rcv.
    + do 2 eexists. split; [done |]. split; [| done]. left. split; [done |].
      destruct err; by eexists.
Qed.
End Records.
