(* ===== verification/Addr.v ===== *)
(** * Networks and resolved addresses (src/addr.go)

    The parts of addr.go that decide on an address without parsing text:
    the network's family, the normal form of a resolved address, the
    brackets of a host, and the text of an Addr (Resolve.v has the rest).  A *Addr is an [SctpAddr]; slices.Clone of the IPs
    copies them, so netAddr's result shares nothing with its argument. *)
From Stdlib Require Import ZArith Lia Bool Ascii.
From stdpp Require Import base list option strings pretty.
From coqutil Require Import Byte.
From S2P Require Import Prelude Abi Errors Netip Sockaddr.

Record SctpAddr := { IPs : list Addr; Port : Z }.

(** [!ip.Unmap().Is4()] for some entry *)
Definition canonicalNetwork (network : string) (ips : list Addr) : out error Z :=
  let not4 := existsb (fun ip => negb (Is4 (Unmap ip))) ips in
  if bool_decide (network = "") || bool_decide (network = "sctp") then
    if not4 then Ret afInet6 else Ret afInet
  else if bool_decide (network = "sctp4") then
    if not4 then Err (invalidArg "sctp4 address %d (%s) is not IPv4") else Ret afInet
  else if bool_decide (network = "sctp6") then Ret afInet6
  else Err (invalidArg "network %q must be 'sctp', 'sctp4' or 'sctp6'").

Definition canonicalName (network : string) : string :=
  if bool_decide (network = "") then "sctp" else network.

Definition normalizeResolvedAddr (ip : Addr) : out error Addr :=
  let zoned := negb (bool_decide (Zone ip = "")) in
  if zoned && negb (IsLinkLocalUnicast ip)
  then Err (invalidArg "address %s has a zone but is not link-local") else
  if Is4In6 ip then
    if zoned then Err (invalidArg "address %s has a zone but is IPv4") else Ret (Unmap ip)
  else Ret ip.

(** host[len(host)-1], the last byte of a non-empty string, and the string
    without it. *)
Fixpoint last_byte (c : ascii) (s : string) : ascii :=
  match s with EmptyString => c | String d s => last_byte d s end.
Fixpoint but_last (c : ascii) (s : string) : string :=
  match s with EmptyString => EmptyString | String d s => String c (but_last d s) end.

Definition unbracketHost (host : string) : string :=
  match host with
  | String c (String d rest) =>
      if Ascii.eqb c "[" && Ascii.eqb (last_byte d rest) "]" then but_last d rest else host
  | _ => host
  end.

Definition netAddr (a : option SctpAddr) : option SctpAddr :=
  match a with Some a => Some {| IPs := IPs a; Port := Port a |} | None => None end.

(** ** The text of an address *)
Definition SctpAddr_Network : string := "sctp".


(** netip.Addr.String *)
Class IPText := { ip_String : Addr -> string }.

Section Text.
Context `{T : IPText}.

Definition ip_text (ip : Addr) : string :=
  let ip := Unmap ip in if Is4 ip then ip_String ip else "[" +:+ ip_String ip +:+ "]".

Fixpoint ips_text (ips : list Addr) : string :=
  match ips with
  | [] => ""
  | [ip] => ip_text ip
  | ip :: ips => ip_text ip +:+ "/" +:+ ips_text ips
  end.

Definition SctpAddr_String (a : option SctpAddr) : string :=
  match a with
  | None => "<nil>"
  | Some a => ips_text (IPs a) +:+ ":" +:+ pretty (Port a)
  end.
End Text.

(** ** Theorems *)
Section Theorems.
Context `{A : Arch} `{ZE : ZoneEnv}.

Lemma normalize_cases ip :
  match normalizeResolvedAddr ip with
  | Ret ip' => ip' = Unmap ip /\ Zone ip' = Zone ip /\ (Zone ip <> "" -> IsLinkLocalUnicast ip = true /\ Is4In6 ip = false)
  | Err e => errors_Is e (Errno EINVAL) = true /\ Zone ip <> "" /\ (IsLinkLocalUnicast ip = false \/ Is4In6 ip = true)
  | Panic => False
  end.
Proof.
  unfold normalizeResolvedAddr. case_bool_decide as Hz; cbn [negb andb].
  - destruct (Is4In6 ip) eqn:H4.
    + split; [done |]. split; [| done]. rewrite Hz. destruct ip; try done. cbn [Unmap]. by rewrite H4.
    + split; [symmetry; by apply Unmap_id | done].
  - destruct (IsLinkLocalUnicast ip) eqn:Hl; cbn [negb]; [| by split_and!; auto].
    destruct (Is4In6 ip) eqn:H4; [by split_and!; auto |].
    split; [symmetry; by apply Unmap_id | done].
Qed.

Lemma existsb_not4 ips :
  existsb (fun ip => negb (Is4 (Unmap ip))) ips = false <-> Forall (fun ip => Is4 (Unmap ip) = true) ips.
Proof.
  induction ips as [| ip ips IH]; [by split; [constructor |] |].
  cbn [existsb]. rewrite orb_false_iff, negb_false_iff, Forall_cons, IH. done.
Qed.

(** An address in the form resolution returns. *)
Definition plain_form (ip : Addr) : Prop :=
  IsValid ip = true /\ Is4In6 ip = false /\
  (Zone ip <> "" -> IsLinkLocalUnicast ip = true /\ Is4 ip = false).

Lemma normalize_plain raw ip :
  normalizeResolvedAddr raw = Ret ip -> IsValid raw = true ->
  plain_form ip /\ ip = Unmap raw /\ Zone ip = Zone raw.
Proof.
  intros Hn Hv. pose proof (normalize_cases raw) as H. rewrite Hn in H. destruct H as (-> & Hz & Hl).
  split; [| done]. split; [destruct raw; cbn [Unmap]; try done; by destruct (Is4In6 _) |].
  split; [apply Unmap_not4In6 |]. rewrite Hz. intros Hne. destruct (Hl Hne) as [H1 H2].
  rewrite (Unmap_id raw H2). split; [done |]. by destruct raw.
Qed.

Lemma plain_accepts6 ip : plain_form ip -> accepts afInet6 ip = true.
Proof.
  intros (Hv & H4 & Hz). unfold accepts. change (afInet6 =? afInet) with false. cbv iota.
  rewrite Z.eqb_refl, Hv, (Unmap_id ip H4). cbn [andb].
  case_bool_decide as E; [done |]. destruct (Hz E) as [-> ->]. done.
Qed.

Lemma plain_accepts4 ip : plain_form ip -> Is4 (Unmap ip) = true -> accepts afInet ip = true.
Proof.
  intros (Hv & H4 & Hz) Hi. unfold accepts. rewrite Z.eqb_refl, Hi, andb_true_r.
  rewrite (Unmap_id ip H4) in Hi. case_bool_decide as E; [done |]. destruct (Hz E). congruence.
Qed.

(** The family canonicalNetwork chooses carries every plain address. *)
Lemma canonical_plain network ips : Forall plain_form ips ->
  match canonicalNetwork network ips with
  | Ret family => Forall (fun ip => accepts family ip = true) ips
  | Err e => errors_Is e (Errno EINVAL) = true /\
      (network ∉ ["" : string; "sctp"; "sctp4"; "sctp6"] \/
       network = "sctp4" /\ Exists (fun ip => Is4 ip = false) ips)
  | Panic => False
  end.
Proof.
  intros Hf.
  unfold canonicalNetwork. set (not4 := existsb _ ips).
  assert (H6 : Forall (fun ip => accepts afInet6 ip = true) ips)
    by (eapply Forall_impl; [exact Hf | apply plain_accepts6]).
  assert (H4 : not4 = false -> Forall (fun ip => accepts afInet ip = true) ips).
  { intros H%existsb_not4. clear -Hf H. induction Hf; constructor; apply Forall_cons in H as [? ?].
    - by apply plain_accepts4.
    - by apply IHHf. }
  repeat case_bool_decide; cbn [orb]; try done.
  all: try (destruct not4 eqn:Hq; [| by apply H4]; try done).
  - split; [done |]. right. split; [done |]. unfold not4 in Hq. apply existsb_exists in Hq as (ip & Hin & Hip).
    apply Exists_exists. exists ip. apply list_elem_of_In in Hin. split; [done |].
    eapply Forall_forall in Hf; [| exact Hin]. destruct Hf as (_ & Hm & _).
    rewrite (Unmap_id ip Hm) in Hip. by apply negb_true_iff.
  - split; [done |]. left. rewrite !elem_of_cons, elem_of_nil. tauto.
Qed.
(** What address resolution accepts, the encoder can write: an address
    normalizeResolvedAddr returns is in plain form (never IPv4-mapped),
    keeps its zone, and has one only when it is link-local IPv6; and the
    family canonicalNetwork chooses for a list of such addresses can carry
    every one of them.  An unknown network, an IPv6 address under sctp4,
    and a zone the form cannot keep are refused with EINVAL. *)
Theorem resolved_addresses_encode network raws ips
    (Hn : Forall2 (fun raw ip => normalizeResolvedAddr raw = Ret ip) raws ips)
    (Hv : Forall (fun raw => IsValid raw = true) raws) :
  Forall2 (fun raw ip => ip = Unmap raw /\ Is4In6 ip = false /\ Zone ip = Zone raw) raws ips /\
  match canonicalNetwork network ips with
  | Ret family => Forall (fun ip => accepts family ip = true) ips
  | Err e => errors_Is e (Errno EINVAL) = true /\
      (network ∉ ["" : string; "sctp"; "sctp4"; "sctp6"] \/
       network = "sctp4" /\ Exists (fun ip => Is4 ip = false) ips)
  | Panic => False
  end.
Proof.
  assert (Hp : Forall2 (fun raw ip => plain_form ip /\ ip = Unmap raw /\ Zone ip = Zone raw) raws ips).
  { induction Hn as [| raw ip raws ips H1 H2 IH]; [constructor |]. apply Forall_cons in Hv as [Hv1 Hv2].
    constructor; [by apply normalize_plain | by apply IH]. }
  assert (Hf : Forall plain_form ips) by (clear -Hp; induction Hp; constructor; tauto).
  split; [eapply Forall2_impl; [exact Hp |]; intros raw ip ((_ & ? & _) & ? & ?); done |].
  by apply canonical_plain.
Qed.
End Theorems.

(** ** Witness *)
Definition mapped_10_0_0_1 : Addr :=
  Addr6 (mapped_prefix ++ [Byte.x0a; Byte.x00; Byte.x00; Byte.x01]) "".
Definition fe80_1_eth0 : Addr := Addr6 ([Byte.xfe; Byte.x80] ++ zeros 13 ++ [Byte.x01]) "eth0".

Lemma resolved_addresses_encode_witness :
  normalizeResolvedAddr mapped_10_0_0_1 = Ret (Unmap mapped_10_0_0_1) /\
  Forall (fun ip => accepts afInet6 ip = true) [Unmap mapped_10_0_0_1; fe80_1_eth0].
Proof.
  assert (Hn : Forall2 (fun raw ip => normalizeResolvedAddr raw = Ret ip)
                 [mapped_10_0_0_1; fe80_1_eth0] [Unmap mapped_10_0_0_1; fe80_1_eth0])
    by (repeat constructor).
  assert (Hv : Forall (fun raw => IsValid raw = true) [mapped_10_0_0_1; fe80_1_eth0]) by (repeat constructor).
  split; [reflexivity |].
  destruct (resolved_addresses_encode "sctp" [mapped_10_0_0_1; fe80_1_eth0]
              [Unmap mapped_10_0_0_1; fe80_1_eth0] Hn Hv) as [_ H].
  exact H.
Defined.
