(* ===== verification/Recv.v ===== *)
(** * The receive path (src/recv_linux.go)

    recvState, the storage every read of a Conn or an Endpoint goes through,
    its callback attempt, recvNext, and the two reads made of it, RecvMsg
    and Read.

    What the kernel and the poller answer is an input: [script] lists the
    results of the recvmsg calls to come, with the errors raw.Read reports
    when a wait cannot start or ends early ([PollErr]) in between.  A
    recvmsg that finds no result listed next finds nothing queued (EAGAIN),
    and a wait that finds the script at its end does not return: the call is
    [Parked].  Every turn of every loop of the code takes a result from the
    script, so the fuel of the loops is its length; running out of it is
    [Panic], which [recv_safe] excludes with the panics of the code.

    The receive lock is held throughout a recvNext, so a read is a function
    of the state.  The latch, which sends share, is part of the state; what
    sends do to it between two reads is covered by the theorems being about
    any latch.  The cmsg buffer is the control data of the last recvmsg.  A
    NotificationHandler is a function of the notification; what it does to
    the connection itself is not modelled. *)
From Stdlib Require Import ZArith Lia Bool.
From stdpp Require Import base list option strings.
From coqutil Require Import Byte.
From S2P Require Import Prelude Close Abi Errors Enums Netip Sockaddr MsgInfo Notification Term Accumulator Config.

Definition EINTR : Z := 4.
Definition EPROTO : Z := 71.

(** One recvmsg: an errno, or the bytes it wrote with msg_flags and the
    control data. *)
Inductive recv_result :=
| RErr (errno : Z)
| ROk (data : bytes) (flags : Z) (control : bytes).

Inductive event := Recv (r : recv_result) | PollErr (e : error).

(** What an attempt leaves for take: the bytes in b, and the fields n,
    flags, err, record and cut. *)
Record attempt_result := {
  ar_data : bytes; ar_flags : Z; ar_err : option error; ar_record : bool; ar_cut : bool }.

Definition no_result : attempt_result := {|
  ar_data := []; ar_flags := 0; ar_err := None; ar_record := false; ar_cut := false |}.

Record recvState := {
  notes : notificationAccumulator;
  control : bytes;
  result : attempt_result;
  term : option termState;
  subs : Z;
  keepNotes : bool;
  partial : bool;
  interleaved : bool;
  noting : bool;
  typed : bool;
  typ : Z;
  kept : bool;
  serving : bool;
  served : Z;
  serveInfo : MsgInfo;
}.

Definition set_notes (s : recvState) (a : notificationAccumulator) : recvState := {|
  notes := a; control := control s; result := result s; term := term s; subs := subs s;
  keepNotes := keepNotes s; partial := partial s; interleaved := interleaved s;
  noting := noting s; typed := typed s; typ := typ s; kept := kept s;
  serving := serving s; served := served s; serveInfo := serveInfo s |}.

Definition set_term (s : recvState) (t : option termState) : recvState := {|
  notes := notes s; control := control s; result := result s; term := t; subs := subs s;
  keepNotes := keepNotes s; partial := partial s; interleaved := interleaved s;
  noting := noting s; typed := typed s; typ := typ s; kept := kept s;
  serving := serving s; served := served s; serveInfo := serveInfo s |}.

Definition set_result (s : recvState) (r : attempt_result) : recvState := {|
  notes := notes s; control := control s; result := r; term := term s; subs := subs s;
  keepNotes := keepNotes s; partial := partial s; interleaved := interleaved s;
  noting := noting s; typed := typed s; typ := typ s; kept := kept s;
  serving := serving s; served := served s; serveInfo := serveInfo s |}.

Definition set_control (s : recvState) (c : bytes) : recvState := {|
  notes := notes s; control := c; result := result s; term := term s; subs := subs s;
  keepNotes := keepNotes s; partial := partial s; interleaved := interleaved s;
  noting := noting s; typed := typed s; typ := typ s; kept := kept s;
  serving := serving s; served := served s; serveInfo := serveInfo s |}.

(** The four fields of the record in progress. *)
Definition set_record (s : recvState) (n t : bool) (ty : Z) (k : bool) : recvState := {|
  notes := notes s; control := control s; result := result s; term := term s; subs := subs s;
  keepNotes := keepNotes s; partial := partial s; interleaved := interleaved s;
  noting := n; typed := t; typ := ty; kept := k;
  serving := serving s; served := served s; serveInfo := serveInfo s |}.

Definition set_partial (s : recvState) (p : bool) : recvState := {|
  notes := notes s; control := control s; result := result s; term := term s; subs := subs s;
  keepNotes := keepNotes s; partial := p; interleaved := interleaved s;
  noting := noting s; typed := typed s; typ := typ s; kept := kept s;
  serving := serving s; served := served s; serveInfo := serveInfo s |}.

Definition set_keepNotes (s : recvState) (k : bool) : recvState := {|
  notes := notes s; control := control s; result := result s; term := term s; subs := subs s;
  keepNotes := k; partial := partial s; interleaved := interleaved s;
  noting := noting s; typed := typed s; typ := typ s; kept := kept s;
  serving := serving s; served := served s; serveInfo := serveInfo s |}.

Definition set_serving (s : recvState) (on : bool) (n : Z) (i : MsgInfo) : recvState := {|
  notes := notes s; control := control s; result := result s; term := term s; subs := subs s;
  keepNotes := keepNotes s; partial := partial s; interleaved := interleaved s;
  noting := noting s; typed := typed s; typ := typ s; kept := kept s;
  serving := on; served := n; serveInfo := i |}.

Section Attempt.
Context `{A : Arch} `{G : SliceGrowth}.

(** addPiece: whether the caller receives the record of this type. *)
Definition wanted (s : recvState) (ty : Z) : bool :=
  keepNotes s &&
  ((negb (ty =? EventAssocChange) && negb (ty =? EventPartialDelivery)) || has (subs s) ty).

Definition addPiece (s : recvState) (p : bytes) : out error recvState :=
  let s := if negb (noting s)
           then set_record (set_notes s (reset (notes s))) true false (typ s) false else s in
  s ← (if negb (typed s) then
         peeked ← peekType (notes s) p;
         match peeked with
         | Some ty =>
             if wanted s ty
             then let '(a, ok) := keep (notes s) in
                  Ret (set_record (set_notes s a) (noting s) true ty ok)
             else Ret (set_record s (noting s) true ty (kept s))
         | None => Ret s
         end
       else Ret s);
  Ret (set_notes s (add (notes s) p)).

Definition endRecordLocked (s : recvState) : out error recvState :=
  let s := set_record s false (typed s) (typ s) (kept s) in
  match term s with
  | None => Ret s
  | Some t =>
      if negb (typed s) || negb (typ s =? EventAssocChange) then Ret s else
      info ← assocChangeInfo (head (notes s));
      match info with
      | None => Ret s
      | Some (state, _) =>
          if state =? AssocCommLost then Ret (set_term s (Some (markFailed t)))
          else if state =? AssocShutdownComplete then Ret (set_term s (Some (markEnded t)))
          else Ret s
      end
  end.

(** One turn of attempt's loop, on the result of its recvmsg into a buffer
    of [dst] bytes: go on, return true, or return false and wait. *)
Inductive turn := Again (s : recvState) | Stop (s : recvState) | Wait (s : recvState).

Definition errno (e : Z) : option error := Some (Plain (Errno e)).

(** The part of a turn under the latch mutex, and then the rest, for a
    result that is not a notification's piece. *)
Definition not_piece (s : recvState) (data : bytes) (flags : Z) (err : option error) : turn :=
  if noting s then
    let s := set_term s ((fun t => fst (storeLocked t err)) <$> term s) in
    let err := match err with
               | Some _ => err
               | None => if len data =? 0 then Some (Plain EOF) else errno EPROTO
               end in
    let s := set_record s false (typed s) (typ s) (kept s) in
    Stop (set_result s {| ar_data := []; ar_flags := flags; ar_err := err;
                          ar_record := ar_record (result s); ar_cut := true |})
  else
    let err := if notnil err then err else if len data =? 0 then Some (Plain EOF) else None in
    let '(s, err) :=
      match term s with
      | Some t => if notnil err then let '(t, err) := readErrorLocked t err in (set_term s (Some t), err)
                  else (s, err)
      | None => (s, err)
      end in
    if err_is err (Errno EAGAIN) then Wait s
    else Stop (set_result s {| ar_data := data; ar_flags := flags; ar_err := err;
                               ar_record := ar_record (result s); ar_cut := ar_cut (result s) |}).

(** recvmsg writes at most dst bytes. *)
Definition attempt_turn (s : recvState) (dst : Z) (r : recv_result) : out error turn :=
  if dst =? 0 then Panic else
  match r with
  | RErr e =>
      if e =? EINTR then Ret (Again s) else Ret (not_piece s [] 0 (errno e))
  | ROk data flags oob =>
      let data := take (Z.to_nat dst) data in
      let s := set_control s (take (Z.to_nat rcvCmsgSpace) oob) in
      if has_bits flags msgNotification then
        s ← addPiece s data;
        s ← (if has_bits flags msgEOR then endRecordLocked s else Ret s);
        if noting s then Ret (Again s)
        else Ret (Stop (set_result s {| ar_data := []; ar_flags := flags; ar_err := None;
                                        ar_record := true; ar_cut := ar_cut (result s) |}))
      else Ret (not_piece s data flags None)
  end.

(** attempt, with [blen] the length of s.b: the rest of the script, the
    state, and the value the callback returns. *)
Fixpoint attempt (script : list event) (blen : Z) (s : recvState)
    : out error (list event * recvState * bool) :=
  let dst := if noting s then NotificationMaxSize else blen in
  match script with
  | Recv r :: rest =>
      t ← attempt_turn s dst r;
      match t with
      | Again s => attempt rest blen s
      | Stop s => Ret (rest, s, true)
      | Wait s => Ret (rest, s, false)
      end
  | _ =>
      t ← attempt_turn s dst (RErr EAGAIN);
      match t with
      | Again s | Wait s => Ret (script, s, false)
      | Stop s => Ret (script, s, true)
      end
  end.

(** raw.Read(s.fn): prepareRead may fail; then the callback runs until it
    returns true, with a wait after each false. *)
Inductive waiting (X : Type) := Parked (s : recvState) | Done (x : X).
#[global] Arguments Parked {X} s.
#[global] Arguments Done {X} x.

Fixpoint poll_loop (fuel : nat) (script : list event) (blen : Z) (s : recvState)
    : out error (waiting (list event * recvState * option error)) :=
  match fuel with
  | O => Panic
  | S fuel =>
      '(script, s, ok) ← attempt script blen s;
      if (ok : bool) then Ret (Done (script, s, None))
      else match script with
           | PollErr e :: rest => Ret (Done (rest, s, Some e))
           | Recv _ :: _ => poll_loop fuel script blen s
           | [] => Ret (Parked s)
           end
  end.

Definition raw_Read (script : list event) (blen : Z) (s : recvState)
    : out error (waiting (list event * recvState * option error)) :=
  match script with
  | PollErr e :: rest => Ret (Done (rest, s, Some e))
  | _ => poll_loop (S (length script)) script blen s
  end.

Definition take_result (s : recvState) : attempt_result * recvState :=
  (result s, set_result s no_result).

Definition stopServing (s : recvState) : recvState :=
  set_notes (set_serving s false 0 (serveInfo s)) (reset (notes s)).

(** servePiece, with [blen] the length of b: the piece it copies. *)
Definition servePiece (s : recvState) (blen : Z) : out error (bytes * MsgInfo * recvState) :=
  rest ← slice_from (data (notes s)) (served s);
  let piece := take (Z.to_nat blen) rest in
  let n := served s + len piece in
  let eor := n =? len (data (notes s)) in
  let info := {| mi_EOR := eor; mi_Notification := true; mi_Rcv := mi_Rcv (serveInfo s);
                 mi_Nxt := mi_Nxt (serveInfo s); mi_HasNxt := mi_HasNxt (serveInfo s) |} in
  let s := set_serving s (serving s) n (serveInfo s) in
  Ret (piece, info, if eor then stopServing s else s).

Definition dropRecord (s : recvState) : option error * recvState :=
  (match finish (notes s) with Err e => Some e | _ => None end, set_notes s (reset (notes s))).

(** messageCut *)
Definition errPartialDeliveryAborted : error := Opaque "sctp: the partial delivery of the message was aborted".
Definition errAssocRestarted : error := Opaque "sctp: the association restarted".

Definition messageCut (s : recvState) : out error (option error) :=
  if negb (typed s) then Ret None
  else if typ s =? EventPartialDelivery then Ret (Some errPartialDeliveryAborted)
  else if typ s =? EventAssocChange then
    info ← assocChangeInfo (head (notes s));
    match info with
    | Some (state, _) => if state =? AssocRestart then Ret (Some errAssocRestarted) else Ret None
    | None => Ret None
    end
  else Ret None.
End Attempt.

(** ** The reads of a Conn *)

(** What a read takes from the connection: its handler, whether it has a
    socket, its lifecycle state, what Abort would return, and the names its
    errors carry. *)
Record conn := {
  handler : option (Notification -> option error);
  c_sock : bool;
  c_life : lifeState;
  abort_result : option error;
  c_network : string;
  c_local : option string;
  c_remote : option string;
}.

(** What one recvNext returns: the bytes it put into b, the metadata, a
    notification for the handler, an error; and whether it called Abort. *)
Record read := {
  rd_data : bytes; rd_info : MsgInfo; rd_note : option Notification;
  rd_err : option error; rd_abort : bool }.

Definition zeroMsgInfo : MsgInfo := {|
  mi_EOR := false; mi_Notification := false; mi_Rcv := zeroRcvInfo; mi_Nxt := zeroNxtInfo; mi_HasNxt := false |}.

Definition got_bytes (d : bytes) (info : MsgInfo) (err : option error) : read := {|
  rd_data := d; rd_info := info; rd_note := None; rd_err := err; rd_abort := false |}.

Definition read_fails (e : option error) : read := got_bytes [] zeroMsgInfo e.

Definition read_aborts (e : option error) : read := {|
  rd_data := []; rd_info := zeroMsgInfo; rd_note := None; rd_err := e; rd_abort := true |}.

Definition read_notes (note : Notification) (err : option error) : read := {|
  rd_data := []; rd_info := zeroMsgInfo; rd_note := Some note; rd_err := err; rd_abort := false |}.

Section Reads.
Context `{A : Arch} `{ZE : ZoneEnv} `{G : SliceGrowth} `{CS : ClosingSentinel}.

Definition closedCause (err : option error) : option error :=
  match err with
  | Some e => if closed_cause e then Some (Plain NetErrClosed) else err
  | None => None
  end.

Definition readEnded (c : conn) (err : option error) : option error :=
  if negb (bool_decide (c_life c = lifeOpen)) then Some (Plain NetErrClosed) else closedCause err.

Definition abortInterrupted (c : conn) (err : option error) : option error :=
  joinAbortCause err (abort_result c).

(** The error, and the state with the accumulator reset. *)
Definition abortInterruptedNotification (c : conn) (s : recvState) (cause : option error)
    : option error * recvState :=
  let err := errors_Join [Some (interrupted (notes s)); readEnded c cause] in
  (abortInterrupted c err, set_notes s (reset (notes s))).

Definition abortInterruptedMessage (c : conn) (cause : option error) : option error :=
  abortInterrupted c (errors_Join [Some (Plain ErrMessageInterrupted); closedCause cause]).

(** A whole notification record, in recvNext: [None] to go on reading. *)
Definition next_record (c : conn) (s : recvState) (raw : bool) (flags blen : Z)
    : out error (option read * recvState) :=
  let delivery := typed s && (typ s =? EventPartialDelivery) in
  let interruption :=
    if negb (interleaved s) && delivery && partial s && (negb raw || negb (kept s))
    then errors_Join [Some (Plain ErrMessageInterrupted); Some errPartialDeliveryAborted] else None in
  let s := if delivery then set_partial s false else s in
  if negb (kept s) then
    let '(err, s) := dropRecord s in
    match err, interruption with
    | Some _, _ => Ret (Some (read_fails (errors_Join [err; interruption])), s)
    | None, Some _ => Ret (Some (read_fails interruption), s)
    | None, None => Ret (None, s)
    end
  else
    match finish (notes s) with
    | Panic => Panic
    | Err ferr => Ret (Some (read_fails (Some ferr)), set_notes s (reset (notes s)))
    | Ret d =>
        if bool_decide (is_Some (handler c)) then
          match ParseNotification d with
          | Panic => Panic
          | Err perr => Ret (Some (read_fails (Some perr)), set_notes s (reset (notes s)))
          | Ret note =>
              Ret (Some (read_notes note interruption), set_notes s (reset (notes s)))
          end
        else
          '(info, _) ← parseRecvCmsgs (control s) flags;
          '(piece, info, s) ← servePiece (set_serving s true 0 info) blen;
          Ret (Some (got_bytes piece info None), s)
    end.

(** One pass of recvNext's loop after raw.Read: [perr] is its error. *)
Definition next_pass (c : conn) (s : recvState) (raw : bool) (perr : option error) (blen : Z)
    : out error (option read * recvState) :=
  let '(r, s) := take_result s in
  if notnil perr then Ret (Some (read_fails (readEnded c perr)), s) else
  if ar_cut r then let '(err, s) := abortInterruptedNotification c s (ar_err r) in
                   Ret (Some (read_aborts err), s) else
  if notnil (ar_err r) then Ret (Some (read_fails (readEnded c (ar_err r))), s) else
  if ar_record r then next_record c s raw (ar_flags r) blen else
  let s := set_partial s (negb (has_bits (ar_flags r) msgEOR)) in
  if negb raw
  then Ret (Some (got_bytes (ar_data r) zeroMsgInfo None), s)
  else
    '(info, err) ← parseRecvCmsgs (control s) (ar_flags r);
    Ret (Some (got_bytes (ar_data r) info err), s).

Definition term_readEnd (s : recvState) : option error :=
  match term s with Some t => readEnd t | None => None end.

Fixpoint recvNext (fuel : nat) (c : conn) (script : list event) (blen : Z) (raw : bool) (s : recvState)
    : out error (waiting (list event * recvState * read)) :=
  match fuel with
  | O => Panic
  | S fuel =>
      if serving s && raw then
        '(piece, info, s) ← servePiece s blen;
        Ret (Done (script, s, got_bytes piece info None))
      else
        let s := if serving s then stopServing s else s in
        match term_readEnd s with
        | Some e => Ret (Done (script, s, read_fails (readEnded c (Some e))))
        | None =>
            let s := set_keepNotes s (raw || bool_decide (is_Some (handler c))) in
            polled ← raw_Read script blen s;
            match polled with
            | Parked s => Ret (Parked s)
            | Done (script, s, perr) =>
                '(res, s) ← next_pass c s raw perr blen;
                match res with
                | Some rd => Ret (Done (script, s, rd))
                | None => recvNext fuel c script blen raw s
                end
            end
        end
  end.

Definition opened (c : conn) : bool := c_sock c && negb (bool_decide (c_life c = lifeClosed)).

Definition readError (c : conn) (err : option error) : option error :=
  ioOpError "read" (if bool_decide (c_network c = "") then "sctp" else c_network c)
    (c_local c) (c_remote c) err.

(** What RecvMsg and Read return, with the notifications they handed to the
    handler on the way. *)
Record returned := {
  r_data : bytes; r_info : MsgInfo; r_err : option error; r_notes : list Notification; r_abort : bool }.

Definition run_handler (c : conn) (note : Notification) : option error :=
  match handler c with Some h => h note | None => None end.

(** The loops of RecvMsg and Read.  With a notification for the handler,
    RecvMsg stops on the handler's error alone (recvNext reports none with
    it), Read joins it with recvNext's; on any other error RecvMsg returns
    the bytes read, Read none. *)
Fixpoint read_loop (fuel : nat) (c : conn) (script : list event) (blen : Z) (raw : bool)
    (done : list Notification) (s : recvState)
    : out error (waiting (list event * recvState * returned)) :=
  match fuel with
  | O => Panic
  | S fuel =>
      got ← recvNext (S (length script)) c script blen raw s;
      match got with
      | Parked s => Ret (Parked s)
      | Done (script, s, rd) =>
          match rd_note rd with
          | Some note =>
              let err := run_handler c note in
              let err := if raw then err else
                         match rd_err rd with
                         | None => err
                         | Some _ => if notnil err then errors_Join [rd_err rd; err] else rd_err rd
                         end in
              if notnil err
              then Ret (Done (script, s, {| r_data := []; r_info := zeroMsgInfo; r_err := readError c err;
                                            r_notes := done ++ [note]; r_abort := rd_abort rd |}))
              else read_loop fuel c script blen raw (done ++ [note]) s
          | None =>
              Ret (Done (script, s, {| r_data := if raw || negb (notnil (rd_err rd)) then rd_data rd else [];
                                       r_info := rd_info rd; r_err := readError c (rd_err rd);
                                       r_notes := done; r_abort := rd_abort rd |}))
          end
      end
  end.

Definition at_once (err : option error) : returned := {|
  r_data := []; r_info := zeroMsgInfo; r_err := err; r_notes := []; r_abort := false |}.

(** RecvMsg (raw) and Read (not raw), with [blen] the length of b. *)
Definition recv_call (c : conn) (script : list event) (blen : Z) (raw : bool) (s : recvState)
    : out error (waiting (list event * recvState * returned)) :=
  if negb (opened c) then Ret (Done (script, s, at_once (readError c (Some (Plain NetErrClosed)))))
  else if blen =? 0 then Ret (Done (script, s, at_once None))
  else read_loop (S (length script)) c script blen raw [] s.

Definition RecvMsg (c : conn) script blen s := recv_call c script blen true s.
Definition Read (c : conn) script blen s := recv_call c script blen false s.
End Reads.

(** ** One notification record *)
Section Record_.
Context `{A : Arch} `{G : SliceGrowth}.

(** What an SCTP_ASSOC_CHANGE record, of which [b] are the first bytes,
    does to the latch. *)
Definition mark_end (typed : bool) (typ : Z) (b : bytes) (t : termState) : termState :=
  if typed && (typ =? EventAssocChange) && (sizeAssocChange <=? len b) then
    let state := uint_of NativeEndian (sub b assocChangeStateOff 2) in
    if state =? AssocCommLost then markFailed t
    else if state =? AssocShutdownComplete then markEnded t else t
  else t.

(** The state with the accumulator, the fields of the record in progress,
    the latch and the control buffer replaced: all a notification's pieces
    change. *)
Definition recording (s : recvState) a n t ty k tm oob : recvState :=
  set_control (set_term (set_record (set_notes s a) n t ty k) tm) oob.

(** The record in progress is [r]. *)
Definition in_record (s : recvState) (r : bytes) : Prop :=
  seen (notes s) r /\ typed s = (notificationHeaderSize <=? len r) /\
  retain (notes s) = kept s /\
  if typed s then typ s = ntype r /\ kept s = wanted s (ntype r)
  else aerr (notes s) = None /\ kept s = false.

Lemma assocChangeInfo_ok b :
  assocChangeInfo b =
  Ret (if len b <? sizeAssocChange then None
       else Some (uint_of NativeEndian (sub b assocChangeStateOff 2),
                  i32 (uint_of NativeEndian (sub b assocChangeAssocIDOff 4)))).
Proof.
  unfold assocChangeInfo, assocChangeInfoOrder. destruct (Z.ltb_spec (len b) sizeAssocChange); [done |].
  rewrite get2_ok, get4_ok by (abi; lia). done.
Qed.

Lemma ntype_app r p : notificationHeaderSize <= len r -> ntype (r ++ p) = ntype r.
Proof. intros. unfold ntype. rewrite sub_app_l by (abi; lia). done. Qed.

Lemma addPiece_ok s r p :
  (if noting s then in_record s r else r = []) ->
  exists a t ty k, addPiece s p = Ret (set_record (set_notes s a) true t ty k) /\
    in_record (set_record (set_notes s a) true t ty k) (r ++ p).
Proof.
  intros Hs. set (s0 := if noting s then s else set_record (set_notes s (reset (notes s))) true false (typ s) false).
  assert (H0 : in_record s0 r /\ noting s0 = true /\
    exists a t ty k, s0 = set_record (set_notes s a) true t ty k).
  { unfold s0. destruct (noting s) eqn:Hn.
    - split; [done |]. split; [done |]. exists (notes s), (typed s), (typ s), (kept s). destruct s; simpl in *; by subst.
    - subst r. split; [| split; [done | by do 4 eexists]]. unfold in_record. cbn. split; [apply seen_reset |]. done. }
  assert (Hadd : addPiece s p = 
     (s ← (if negb (typed s0) then
         peeked ← peekType (notes s0) p;
         match peeked with
         | Some ty =>
             if wanted s0 ty
             then let '(a, ok) := keep (notes s0) in
                  Ret (set_record (set_notes s0 a) (noting s0) true ty ok)
             else Ret (set_record s0 (noting s0) true ty (kept s0))
         | None => Ret s0
         end
       else Ret s0);
  Ret (set_notes s (add (notes s) p)))).
  { unfold addPiece, s0. by destruct (noting s). }
  clearbody s0. rewrite Hadd. clear Hadd Hs.
  destruct H0 as ((Hseen & Ht & Hr & Hk) & Hn & a0 & t0 & ty0 & k0 & ->).
  set (s0 := set_record (set_notes s a0) true t0 ty0 k0) in *.
  pose proof (len_nonneg r). pose proof (len_nonneg p). pose proof (len_app r p) as Hlen.
  assert (Htyped : (notificationHeaderSize <=? len r) = true -> (notificationHeaderSize <=? len (r ++ p)) = true).
  { intros H8%Z.leb_le. apply Z.leb_le. lia. }
  destruct (typed s0) eqn:Htyp; cbn [negb]; next.
  { exists (add (notes s0) p), true, (typ s0), (kept s0). split; [unfold s0; change (t0 = true) in Htyp; by rewrite Htyp |].
    unfold in_record. cbn. split; [by apply seen_add |]. rewrite Htyped by done. split; [done |].
    rewrite retain_add. split; [done |]. rewrite ntype_app by (by apply Z.leb_le). done. }
  destruct Hk as [Herr Hkf]. rewrite (proj1 (peek_seen _ r p Hseen Herr)). next.
  assert (H8 : len r < 8) by (abi; symmetry in Ht; by apply Z.leb_gt in Ht).
  destruct (Z.ltb_spec (len r + len p) notificationHeaderSize) as [Hshort | Hlong]; next.
  { exists (add (notes s0) p), false, (typ s0), (kept s0). split; [unfold s0; change (t0 = false) in Htyp; by rewrite Htyp |].
    unfold in_record. cbn. split; [by apply seen_add |]. rewrite Hlen, (proj2 (Z.leb_gt _ _)) by lia.
    split; [done |]. rewrite retain_add. split; [done |]. split; [by apply (add_short _ r) | done]. }
  assert (Hle : (notificationHeaderSize <=? len (r ++ p)) = true) by (apply Z.leb_le; lia).
  destruct (wanted s0 (ntype (r ++ p))) eqn:Hw.
  - destruct (keep_seen (notes s0) r Hseen Herr) as (a' & -> & Hs' & _ & Hr' & _); [congruence | abi; lia |].
    next. exists (add a' p), true, (ntype (r ++ p)), true. split; [done |].
    unfold in_record. cbn. split; [by apply seen_add |]. split; [done |]. rewrite retain_add. split; [done |].
    split; [done |]. symmetry. exact Hw.
  - next. exists (add (notes s0) p), true, (ntype (r ++ p)), false. rewrite Hkf. split; [done |].
    unfold in_record. cbn. split; [by apply seen_add |]. split; [done |]. rewrite retain_add. split; [by rewrite <- Hkf |].
    split; [done |]. symmetry. exact Hw.
Qed.

Lemma endRecordLocked_ok s :
  endRecordLocked s =
  Ret (set_term (set_record s false (typed s) (typ s) (kept s))
         (mark_end (typed s) (typ s) (head (notes s)) <$> term s)).
Proof.
  unfold endRecordLocked. cbn [term set_record typed typ notes].
  destruct (term s) as [t |] eqn:Ht; [| by destruct s; simpl in *; subst].
  unfold mark_end. destruct (typed s) eqn:Hd; cbn [negb orb andb fmap option_fmap option_map];
    [| by destruct s; simpl in *; subst].
  destruct (typ s =? EventAssocChange) eqn:Hy; cbn [negb andb]; [| by destruct s; simpl in *; subst].
  rewrite assocChangeInfo_ok. next.
  destruct (Z.ltb_spec (len (head (notes s))) sizeAssocChange).
  { rewrite (proj2 (Z.leb_gt _ _)) by done. by destruct s; simpl in *; subst. }
  rewrite (proj2 (Z.leb_le _ _)) by done.
  repeat case_match; by destruct s; simpl in *; subst.
Qed.

(** ** Every attempt *)

(** A record in progress has been seen from its start. *)
Definition mid (s : recvState) : Prop := noting s = true -> exists r, in_record s r.

Definition latch_inv (o : option termState) : Prop := forall t, o = Some t -> term_inv t.

Definition latch_kept (o o' : option termState) : Prop :=
  match o, o' with
  | Some t, Some t' => Term.kept t t'
  | None, None => True
  | _, _ => False
  end.

(** Nothing has ended: what lets a read wait. *)
Definition nothing_ended (o : option termState) : Prop :=
  forall t, o = Some t -> t_err t = None /\ failed t = false /\ ended t = false.

(** What an attempt leaves alone. *)
Definition untouched (s s' : recvState) : Prop :=
  keepNotes s' = keepNotes s /\ partial s' = partial s /\ interleaved s' = interleaved s /\
  serving s' = serving s /\ served s' = served s /\ serveInfo s' = serveInfo s /\ subs s' = subs s /\
  latch_kept (term s) (term s').

Lemma latch_kept_refl o : latch_inv o -> latch_kept o o.
Proof. destruct o; simpl; [| done]. intros H. by apply kept_refl, H. Qed.

Lemma latch_kept_trans o1 o2 o3 : latch_kept o1 o2 -> latch_kept o2 o3 -> latch_kept o1 o3.
Proof. destruct o1, o2, o3; simpl; try done. apply kept_trans. Qed.

Lemma latch_kept_inv o o' : latch_kept o o' -> latch_inv o'.
Proof. destruct o, o'; simpl; try done. intros H u [= <-]. apply H. Qed.

Lemma untouched_trans s1 s2 s3 : untouched s1 s2 -> untouched s2 s3 -> untouched s1 s3.
Proof.
  unfold untouched. intros (?&?&?&?&?&?&?&?) (?&?&?&?&?&?&?&?).
  repeat (split; [congruence |]). eauto using latch_kept_trans.
Qed.

Lemma mark_end_kept ty y b t : term_inv t -> Term.kept t (mark_end ty y b t).
Proof.
  intros Hi. unfold mark_end. destruct (_ && _); [| by apply kept_refl].
  destruct (_ =? AssocCommLost); [exact (apply_op_kept t CommLost Hi) |].
  destruct (_ =? AssocShutdownComplete); [exact (apply_op_kept t ShutdownComplete Hi) | by apply kept_refl].
Qed.

Lemma latch_kept_map (f : termState -> termState) o :
  (forall t, term_inv t -> Term.kept t (f t)) -> latch_inv o -> latch_kept o (f <$> o).
Proof. intros Hf Hi. destruct o; simpl; [by apply Hf, Hi | done]. Qed.

(** EAGAIN comes out of the latch rules only while nothing has ended. *)
Lemma readErrorLocked_wait t err :
  term_inv t -> err_is (snd (readErrorLocked t err)) (Errno EAGAIN) = true ->
  fst (readErrorLocked t err) = t /\ t_err t = None /\ failed t = false /\ ended t = false.
Proof.
  intros Hi H. destruct (readErrorLocked_cases t err) as [(e & t1 & E & He & _) | (He & E & Hf)].
  - pose proof (readErrorLocked_kept t err Hi) as (_ & _ & _ & _ & [Hl _]). rewrite E in *.
    exfalso. cbn in H, Hl. apply Hl in He as [-> | [-> | [-> | ->]]]; done.
  - rewrite E in *. cbn in H |- *. split; [done |]. split; [done |].
    destruct (ended t); cbn in H.
    { destruct (err_is err (Errno EAGAIN)) eqn:Ha; [done | by rewrite Ha in H]. }
    split; [| done]. destruct (failed t); [| done]. destruct (Hf eq_refl) as [Hn _]. by rewrite H in Hn.
Qed.

(** A read's error stays one. *)
Lemma readErrorLocked_notnil t err : notnil err = true -> notnil (snd (readErrorLocked t err)) = true.
Proof.
  intros H. destruct (readErrorLocked_cases t err) as [(e & t1 & E & _) | (_ & E & _)]; rewrite E; [done |].
  cbn. by destruct (ended t && _).
Qed.

Lemma set_term_same s o : term s = o -> set_term s o = s.
Proof. intros <-. by destruct s. Qed.

(** The outcome of a turn whose result is not a notification's piece. *)
Lemma not_piece_ok s d flags err :
  latch_inv (term s) ->
  match not_piece s d flags err with
  | Again _ => False
  | Stop s' => untouched s s' /\ noting s' = false /\ notes s' = notes s /\
      ar_record (result s') = ar_record (result s) /\ ar_cut (result s') = noting s || ar_cut (result s) /\
      ar_data (result s') = (if noting s then [] else d) /\
      (notnil err = true -> notnil (ar_err (result s')) = true)
  | Wait s' => noting s = false /\ untouched s s' /\ noting s' = false /\ result s' = result s /\
      nothing_ended (term s')
  end.
Proof.
  intros Hi. unfold not_piece. destruct (noting s) eqn:Hn.
  { cbn. unfold untouched. cbn. repeat (split; [try done |]); [| by destruct err].
    apply latch_kept_map; [| done]. intros. by apply storeLocked_kept. }
  set (e0 := if notnil err then err else _).
  assert (He0 : notnil err = true -> notnil e0 = true) by (unfold e0; by destruct (notnil err) eqn:?).
  assert (Hrest : forall o e, latch_kept (term s) o -> (notnil e0 = true -> notnil e = true) ->
     (err_is e (Errno EAGAIN) = true -> nothing_ended o) ->
     match (if err_is e (Errno EAGAIN) then Wait (set_term s o)
            else Stop (set_result (set_term s o) {| ar_data := d; ar_flags := flags; ar_err := e;
                         ar_record := ar_record (result s); ar_cut := ar_cut (result s) |})) with
     | Again _ => False
     | Stop s' => untouched s s' /\ noting s' = false /\ notes s' = notes s /\
         ar_record (result s') = ar_record (result s) /\ ar_cut (result s') = false || ar_cut (result s) /\
         ar_data (result s') = d /\ (notnil err = true -> notnil (ar_err (result s')) = true)
     | Wait s' => false = false /\ untouched s s' /\ noting s' = false /\ result s' = result s /\
         nothing_ended (term s')
     end).
  { intros o e Hk Hee Hw. unfold untouched. destruct (err_is e (Errno EAGAIN)); cbn; split_and!; auto. }
  destruct (term s) as [t |] eqn:Ht.
  - destruct (notnil e0) eqn:He.
    + pose proof (readErrorLocked_kept t e0 (Hi t eq_refl)) as Hk.
      pose proof (readErrorLocked_wait t e0 (Hi t eq_refl)) as Hw.
      pose proof (readErrorLocked_notnil t e0 He) as Hnn.
      destruct (readErrorLocked t e0) as [t1 e1]. cbn [fst snd] in *.
      apply (Hrest (Some t1) e1 Hk); [done |]. intros Ha. destruct (Hw Ha) as [-> H]. intros ? [= <-]. exact H.
    + specialize (Hrest (Some t) e0 (latch_kept_refl _ Hi)).
      rewrite (set_term_same s (Some t) Ht) in Hrest.
      apply Hrest; [done |]. intros Ha. by destruct e0.
  - specialize (Hrest None e0 I). rewrite (set_term_same s None Ht) in Hrest.
    apply Hrest; [done |]. by intros _ t.
Qed.

Definition is_piece (r : recv_result) : bool :=
  match r with ROk _ flags _ => has_bits flags msgNotification | RErr _ => false end.

Definition is_errno (r : recv_result) : bool := match r with RErr _ => true | ROk _ _ _ => false end.

Lemma attempt_turn_ok s dst r :
  1 <= dst -> latch_inv (term s) -> mid s ->
  exists tn, attempt_turn s dst r = Ret tn /\
  match tn with
  | Again s' => untouched s s' /\ mid s' /\ result s' = result s /\ r <> RErr EAGAIN
  | Stop s' => untouched s s' /\ noting s' = false /\ len (ar_data (result s')) <= (if noting s then 0 else dst) /\
      (ar_record (result s') = true -> is_piece r || ar_record (result s) = true) /\
      (is_errno r = true -> notnil (ar_err (result s')) = true)
  | Wait s' => untouched s s' /\ noting s' = false /\ result s' = result s /\ nothing_ended (term s')
  end.
Proof.
  intros Hd Hi Hm. unfold attempt_turn. destruct (Z.eqb_spec dst 0); [lia |].
  assert (Hnp : forall d flags err s0, (is_errno r = true -> notnil err = true) -> len d <= dst -> untouched s s0 -> noting s0 = noting s -> result s0 = result s -> latch_inv (term s0) ->
    match not_piece s0 d flags err with
    | Again s' => untouched s s' /\ mid s' /\ result s' = result s /\ r <> RErr EAGAIN
    | Stop s' => untouched s s' /\ noting s' = false /\ len (ar_data (result s')) <= (if noting s then 0 else dst) /\
        (ar_record (result s') = true -> is_piece r || ar_record (result s) = true) /\
      (is_errno r = true -> notnil (ar_err (result s')) = true)
    | Wait s' => untouched s s' /\ noting s' = false /\ result s' = result s /\ nothing_ended (term s')
    end).
  { intros d flags err s0 Hre Hl Hf Hn0 Hr Hi0. pose proof (not_piece_ok s0 d flags err Hi0) as H.
    destruct (not_piece s0 d flags err) as [| s' | s']; [done | |].
    - destruct H as (F & N & _ & R & _ & D & E). rewrite Hr in R. split; [eauto using untouched_trans |]. split; [done |].
      split; [rewrite D, Hn0; by destruct (noting s) |].
      rewrite R. split; [intros ->; by rewrite orb_true_r | auto].
    - destruct H as (_ & F & N & R & W). split_and!; eauto using untouched_trans; congruence. }
  assert (Hrefl : untouched s s) by (unfold untouched; split_and!; auto using latch_kept_refl).
  destruct r as [e | d flags oob].
  { destruct (Z.eqb_spec e EINTR) as [-> | He]; eexists; (split; [reflexivity |]).
    - by split_and!.
    - apply Hnp; auto. change (len (@nil byte)) with 0. lia. }
  set (d' := take _ d). assert (Hd' : len d' <= dst) by (unfold d'; rewrite len_take; lia).
  set (s1 := set_control s _). assert (F1 : untouched s s1) by exact Hrefl.
  destruct (has_bits flags msgNotification) eqn:Hp.
  2:{ eexists. split; [reflexivity |]. by apply Hnp. }
  assert (Hin : exists r0, if noting s1 then in_record s1 r0 else r0 = []).
  { destruct (noting s1) eqn:E; [| by exists []]. destruct (Hm E) as [r0 H]. by exists r0. }
  destruct Hin as [r0 Hin]. destruct (addPiece_ok s1 r0 d' Hin) as (a & t & ty & k & -> & Hr). next.
  set (s2 := set_record (set_notes s1 a) true t ty k) in *. assert (F2 : untouched s s2) by exact F1.
  destruct (has_bits flags msgEOR).
  - rewrite endRecordLocked_ok. next. cbn [noting set_term set_record].
    eexists. split; [reflexivity |]. cbn. rewrite Hp. split; [| split; [done |]; split; [change (0 <= (if noting s then 0 else dst)); destruct (noting s); lia | done]].
    destruct F2 as (?&?&?&?&?&?&?&_). unfold untouched. cbn. split_and!; auto.
    apply latch_kept_map; [| done]. intros. by apply mark_end_kept.
  - next. cbn [noting s2 set_record]. eexists. split; [reflexivity |]. split; [done |].
    split; [intros _; by eexists |]. done.
Qed.

(** The script's next entry is not a recvmsg result: the queue is empty. *)
Definition waits_next (script : list event) : Prop :=
  match script with Recv _ :: _ => False | _ => True end.

(** What an attempt that used up [used] leaves, [rest] being next. *)
Definition attempted (blen : Z) (s s' : recvState) (used rest : list event) (ok : bool) : Prop :=
  untouched s s' /\ noting s' = false /\
  if ok
  then len (ar_data (result s')) <= blen /\
       (ar_record (result s') = true -> used <> [] \/ ar_record (result s) = true) /\
       (used <> [] \/ notnil (ar_err (result s')) = true)
  else result s' = result s /\ nothing_ended (term s') /\ (used <> [] \/ waits_next rest).

Lemma dst_le (s : recvState) blen n :
  0 <= blen -> n <= (if noting s then 0 else if noting s then NotificationMaxSize else blen) -> n <= blen.
Proof. destruct (noting s); lia. Qed.

Lemma attempt_empty script blen s :
  waits_next script -> 1 <= blen -> latch_inv (term s) -> mid s ->
  exists s' ok, attempt script blen s = Ret (script, s', ok) /\ attempted blen s s' [] script ok.
Proof.
  intros Hw Hb Hi Hm. set (dst := if noting s then NotificationMaxSize else blen).
  destruct (attempt_turn_ok s dst (RErr EAGAIN)) as (tn & E & H); [unfold dst; destruct (noting s); [done | lia] | done.. |].
  assert (Hat : attempt script blen s =
    match tn with Again s | Wait s => Ret (script, s, false) | Stop s => Ret (script, s, true) end).
  { destruct script as [| [r | e] script]; [| done |]; cbn [attempt]; fold dst; by rewrite E. }
  rewrite Hat. destruct tn as [s' | s' | s'].
  - by destruct H as (_ & _ & _ & H).
  - destruct H as (F & N & L & R & E'). exists s', true. split; [done |]. split; [done |]. split; [done |].
    split; [by apply (dst_le s); [lia |] |]. split; [intros Hr; by right; apply R | by right; apply E'].
  - destruct H as (F & N & R & W). exists s', false. split; [done |]. unfold attempted. auto 10.
Qed.

Lemma attempt_ok script : forall blen s,
  1 <= blen -> latch_inv (term s) -> mid s ->
  exists used rest s' ok, attempt script blen s = Ret (rest, s', ok) /\
    script = used ++ rest /\ attempted blen s s' used rest ok.
Proof.
  assert (Hempty : forall script blen s, waits_next script -> 1 <= blen -> latch_inv (term s) -> mid s ->
    exists used rest s' ok, attempt script blen s = Ret (rest, s', ok) /\
      script = used ++ rest /\ attempted blen s s' used rest ok).
  { intros. destruct (attempt_empty script0 blen s) as (s' & ok & E & H'); try done. by exists [], script0, s', ok. }
  induction script as [| [r | e] script IH]; intros blen s Hb Hi Hm; [by apply Hempty | | by apply Hempty].
  destruct (attempt_turn_ok s (if noting s then NotificationMaxSize else blen) r)
    as (tn & E & H); [destruct (noting s); [done | lia] | done.. |].
  cbn [attempt]. rewrite E. next. destruct tn as [s' | s' | s'].
  - destruct H as (F & M & R & _).
    destruct (IH blen s' Hb (latch_kept_inv _ _ ltac:(apply F)) M) as (used & rest & s2 & ok & -> & -> & F2 & N2 & H2).
    exists (Recv r :: used), rest, s2, ok. split; [done |]. split; [done |]. split; [eauto using untouched_trans |].
    split; [done |]. rewrite R in H2. destruct ok; naive_solver.
  - destruct H as (F & N & L & R & _). exists [Recv r], script, s', true. split; [done |]. split; [done |].
    split; [done |]. split; [done |]. split; [by apply (dst_le s); [lia |] |]. split; by left.
  - destruct H as (F & N & R & W). exists [Recv r], script, s', false. split; [done |]. split; [done |].
    split; [done |]. split; [done |]. split; [done |]. split; [done |]. by left.
Qed.

Lemma untouched_refl s : latch_inv (term s) -> untouched s s.
Proof. intros. unfold untouched. split_and!; auto using latch_kept_refl. Qed.

(** The same of raw.Read, whose fuel is enough. *)
Lemma poll_loop_ok fuel : forall script blen s,
  (length script < fuel)%nat -> 1 <= blen -> latch_inv (term s) -> noting s = false -> result s = no_result ->
  match poll_loop fuel script blen s with
  | Ret (Parked s') => untouched s s' /\ noting s' = false /\ result s' = no_result /\ nothing_ended (term s')
  | Ret (Done (rest, s', perr)) =>
      untouched s s' /\ noting s' = false /\ len (ar_data (result s')) <= blen /\
      (perr <> None -> result s' = no_result) /\
      exists used, script = used ++ rest /\ (ar_record (result s') = true -> used <> [])
  | _ => False
  end.
Proof.
  induction fuel as [| fuel IH]; intros script blen s Hf Hb Hi Hn Hr; [lia |].
  cbn [poll_loop]. destruct (attempt_ok script blen s Hb Hi) as (used & rest & s' & ok & E & -> & F & N & H).
  { intros Hn'. congruence. }
  rewrite E. next. rewrite Hr in H. destruct ok.
  { split; [done |]. split; [done |]. destruct H as (L & R & _). split; [done |]. split; [done |].
    exists used. split; [done |]. intros Hrec. by destruct (R Hrec). }
  destruct H as (R & W & P). destruct rest as [| [r | e] rest].
  - done.
  - destruct P as [P | []]. 
    assert (Hl : (length (Recv r :: rest) < fuel)%nat).
    { rewrite length_app in Hf. destruct used; [done |]. simpl in *. lia. }
    specialize (IH (Recv r :: rest) blen s' Hl Hb (latch_kept_inv _ _ ltac:(apply F)) N R).
    destruct (poll_loop fuel (Recv r :: rest) blen s') as [[s2 | [[rest2 s2] perr]] | |]; [| | done | done].
    + destruct IH as (F2 & IH). eauto using untouched_trans.
    + destruct IH as (F2 & N2 & L2 & P2 & u2 & E2 & R2). split; [eauto using untouched_trans |].
      split_and!; auto. exists (used ++ u2). split; [by rewrite E2, app_assoc |].
      intros _. by destruct used.
  - split; [done |]. split; [done |]. rewrite R. split; [change (0 <= blen); lia |]. split; [done |].
    exists (used ++ [PollErr e]). split; [by rewrite <- app_assoc |]. by destruct used.
Qed.
End Record_.

(** ** Every read *)
Section Reads_.
Context `{Aok : ArchOk} `{ZE : ZoneEnv} `{G : SliceGrowth} `{CS : ClosingSentinel}.

(** What holds between two reads: no record is in progress, no result is
    left, and what is being served is within the record. *)
Definition ready (s : recvState) : Prop :=
  noting s = false /\ result s = no_result /\ latch_inv (term s) /\
  (serving s = true -> 0 <= served s <= len (data (notes s))).

Lemma ParseNotification_returns b : safe (ParseNotification b).
Proof.
  rewrite ParseNotification_eq. destruct (_ || _) eqn:Ho; [done |]. apply orb_false_iff in Ho as [H1%Z.ltb_ge H2%Z.ltb_ge].
  destruct (_ <? _); [done |]. destruct (_ <? _); [done |].
  set (b' := take _ b). assert (Hl : notificationHeaderSize <= len b') by (unfold b'; rewrite len_take; abi; lia).
  pose proof (parse_record_outcome (ntype b') (nflags b) b' Hl eq_refl) as H.
  assert (Ht : ntype b' = ntype b) by (apply ntype_take; abi; lia). rewrite Ht in H.
  by destruct (parse_record _ _ _).
Qed.

Lemma servePiece_ok s blen :
  0 <= blen -> 0 <= served s <= len (data (notes s)) ->
  let piece := sub (data (notes s)) (served s) (Z.min blen (len (data (notes s)) - served s)) in
  let eor := served s + len piece =? len (data (notes s)) in
  let s1 := set_serving s (serving s) (served s + len piece) (serveInfo s) in
  len piece = Z.min blen (len (data (notes s)) - served s) /\
  servePiece s blen =
  Ret (piece, {| mi_EOR := eor; mi_Notification := true; mi_Rcv := mi_Rcv (serveInfo s);
                 mi_Nxt := mi_Nxt (serveInfo s); mi_HasNxt := mi_HasNxt (serveInfo s) |},
       if eor then stopServing s1 else s1).
Proof.
  intros Hb Hs piece eor s1. unfold servePiece, slice_from. rewrite slice_ok by lia. next.
  assert (Hp : take (Z.to_nat blen) (sub (data (notes s)) (served s) (len (data (notes s)) - served s)) = piece).
  { unfold piece, sub. rewrite take_take. f_equal. lia. }
  rewrite Hp. split; [| reflexivity]. unfold piece. rewrite len_sub by lia. done.
Qed.

(** What a pass of recvNext's loop leaves. *)
Definition passed (blen : Z) (s s' : recvState) (res : option read) : Prop :=
  ready s' /\ term s' = term s /\
  match res with
  | Some rd => len (rd_data rd) <= blen
  | None => serving s' = serving s
  end.

Lemma ready_quiet s :
  noting s = false -> result s = no_result -> latch_inv (term s) -> serving s = false -> ready s.
Proof. intros. unfold ready. split_and!; auto. congruence. Qed.

Lemma next_record_ok c s raw flags blen :
  0 <= blen -> ready s -> serving s = false ->
  exists res s', next_record c s raw flags blen = Ret (res, s') /\ passed blen s s' res.
Proof.
  intros Hb (Hn & Hr & Hi & _) Hsv. unfold next_record.
  set (int := if _ && _ then _ else None). set (s1 := if _ && (typ s =? _) then set_partial s false else s).
  assert (H1 : noting s1 = false /\ result s1 = no_result /\ term s1 = term s /\ serving s1 = false /\ kept s1 = kept s)
    by (unfold s1; destruct (typed s && (typ s =? EventPartialDelivery)); split_and!; done).
  clearbody s1 int. destruct H1 as (N1 & R1 & T1 & V1 & K1). rewrite <- T1 in Hi.
  assert (Hq : forall rd, len (rd_data rd) <= blen -> passed blen s (set_notes s1 (reset (notes s1))) (Some rd)).
  { intros rd Hl. split; [by apply ready_quiet |]. auto. }
  assert (H0 : len (@nil byte) <= blen) by (change (0 <= blen); lia).
  destruct (kept s1); cbn [negb].
  - destruct (finish (notes s1)) as [d | e |] eqn:Hf; [| by do 2 eexists; split; [done |]; apply Hq |].
    2:{ unfold finish in Hf. repeat case_match; done. }
    destruct (bool_decide (is_Some (handler c))).
    + pose proof (ParseNotification_returns d) as Hp.
      destruct (ParseNotification d); [| | done]; do 2 eexists; (split; [done |]); by apply Hq.
    + rewrite parse_total. next. set (info := foldl _ _ _).
      destruct (servePiece_ok (set_serving s1 true 0 info) blen Hb) as [Hl E].
      { cbn. pose proof (len_nonneg (data (notes s1))). lia. }
      rewrite E. next. do 2 eexists. split; [reflexivity |]. split; [| split].
      * cbn [served set_serving] in *. destruct (_ =? _) eqn:Heor; [by apply ready_quiet |].
        unfold ready. cbn in *. split_and!; auto; intros _; rewrite Hl; pose proof (len_nonneg (data (notes s1))); lia.
      * by destruct (_ =? _).
      * cbn [rd_data got_bytes]. lia.
  - unfold dropRecord. destruct (match finish (notes s1) with Err e => Some e | _ => None end), int;
      do 2 eexists; (split; [reflexivity |]); try by apply Hq.
    split; [by apply ready_quiet |]. split; [done |]. cbn. congruence.
Qed.

Lemma next_pass_ok c s raw perr blen :
  0 <= blen -> noting s = false -> latch_inv (term s) -> serving s = false ->
  len (ar_data (result s)) <= blen ->
  exists res s', next_pass c s raw perr blen = Ret (res, s') /\ passed blen s s' res /\
    (ar_record (result s) = false -> exists rd, res = Some rd /\ rd_note rd = None).
Proof.
  intros Hb Hn Hi Hsv Hl. unfold next_pass, take_result. cbn [ar_cut].
  set (s1 := set_result s no_result).
  assert (Hq : forall a p rd, len (rd_data rd) <= blen ->
    passed blen s (set_partial (set_notes s1 a) p) (Some rd)).
  { intros a p rd Hrd. split; [by apply ready_quiet |]. auto. }
  assert (Hq1 : forall rd, len (rd_data rd) <= blen -> passed blen s s1 (Some rd))
    by (intros rd Hrd; split; [by apply ready_quiet | auto]).
  assert (H0 : len (@nil byte) <= blen) by (change (0 <= blen); lia).
  destruct (notnil perr) eqn:Hp; [do 2 eexists; split; [reflexivity |]; split; [by apply Hq1 | by eexists] |].
  destruct (ar_cut (result s)).
  { do 2 eexists. split; [reflexivity |]. split; [| by eexists]. apply (Hq (reset (notes s1)) (partial s1)); exact H0. }
  destruct (notnil (ar_err (result s))); [do 2 eexists; split; [reflexivity |]; split; [by apply Hq1 | by eexists] |].
  destruct (ar_record (result s)) eqn:Hrec.
  { destruct (next_record_ok c s1 raw (ar_flags (result s)) blen Hb) as (res & s2 & E & P); [by apply ready_quiet | done |].
    rewrite E. do 2 eexists. split; [reflexivity |]. split; [exact P | done]. }
  destruct raw; cbn [negb].
  - rewrite parse_total. next. do 2 eexists. split; [reflexivity |]. split; [| by eexists]. apply (Hq (notes s1)); exact Hl.
  - do 2 eexists. split; [reflexivity |]. split; [| by eexists]. apply (Hq (notes s1)); exact Hl.
Qed.

(** What a call leaves: [None] for a call that is parked. *)
Definition left_over (s s' : recvState) (script rest : list event) : Prop :=
  ready s' /\ latch_kept (term s) (term s') /\ exists used, script = used ++ rest.

Lemma raw_Read_ok script blen s :
  1 <= blen -> latch_inv (term s) -> noting s = false -> result s = no_result ->
  match raw_Read script blen s with
  | Ret (Parked s') => untouched s s' /\ noting s' = false /\ result s' = no_result /\ nothing_ended (term s')
  | Ret (Done (rest, s', perr)) =>
      untouched s s' /\ noting s' = false /\ len (ar_data (result s')) <= blen /\
      (perr <> None -> result s' = no_result) /\
      exists used, script = used ++ rest /\ (ar_record (result s') = true -> used <> [])
  | _ => False
  end.
Proof.
  intros Hb Hi Hn Hr. unfold raw_Read.
  destruct script as [| [r | e] rest]; [by apply poll_loop_ok; [simpl; lia | ..] | by apply poll_loop_ok; [simpl; lia | ..] |].
  split; [by apply untouched_refl |]. split; [done |]. rewrite Hr. split; [change (0 <= blen); lia |]. split; [done |].
  by exists [PollErr e].
Qed.

Lemma stopServing_ready s : ready s -> ready (stopServing s).
Proof. intros (Hn & Hr & Hi & _). by apply ready_quiet. Qed.

Lemma left_over_trans s1 s2 s3 script1 script2 script3 :
  left_over s1 s2 script1 script2 -> left_over s2 s3 script2 script3 -> left_over s1 s3 script1 script3.
Proof.
  intros (_ & K1 & u1 & ->) (R & K2 & u2 & ->). split; [done |]. split; [eauto using latch_kept_trans |].
  exists (u1 ++ u2). by rewrite app_assoc.
Qed.

Lemma left_over_here s s' script :
  ready s -> ready s' -> term s' = term s -> left_over s s' script script.
Proof.
  intros (_ & _ & Hi & _) Hr Ht. split; [done |]. rewrite Ht. split; [by apply latch_kept_refl |]. by exists [].
Qed.

(** A piece served. *)
Lemma serve_ready s blen piece info s' :
  0 <= blen -> ready s -> serving s = true -> servePiece s blen = Ret (piece, info, s') ->
  ready s' /\ term s' = term s /\ len piece <= blen.
Proof.
  intros Hb (Hn & Hr & Hi & Hsv) Hse E. destruct (servePiece_ok s blen Hb (Hsv Hse)) as [Hl E'].
  rewrite E' in E. injection E as <- _ <-. specialize (Hsv Hse). split; [| split; [by destruct (_ =? _) | lia]].
  destruct (_ =? _); [by apply ready_quiet |]. unfold ready. cbn. split_and!; auto. intros _. lia.
Qed.

Lemma recvNext_ok c raw blen : 1 <= blen -> forall fuel script s,
  (length script < fuel)%nat -> ready s ->
  match recvNext fuel c script blen raw s with
  | Ret (Parked s') => ready s' /\ latch_kept (term s) (term s') /\ nothing_ended (term s')
  | Ret (Done (rest, s', rd)) => left_over s s' script rest /\ len (rd_data rd) <= blen /\
      (rd_note rd <> None -> (length rest < length script)%nat)
  | _ => False
  end.
Proof.
  intros Hb. induction fuel as [| fuel IH]; intros script s Hf Hs; [lia |].
  pose proof Hs as (Hn & Hr & Hi & Hsv). cbn [recvNext].
  destruct (serving s && raw) eqn:Hserve.
  { apply andb_prop in Hserve as [Hse _]. destruct (servePiece_ok s blen ltac:(lia) (Hsv Hse)) as [_ E].
    destruct (servePiece s blen) as [[[piece info] s'] | |] eqn:E'; [| done | done]. next.
    destruct (serve_ready s blen piece info s' ltac:(lia) Hs Hse E') as (R & T & L).
    split; [by apply left_over_here |]. by split. }
  set (s1 := if serving s then stopServing s else s).
  assert (H1 : ready s1 /\ term s1 = term s /\ serving s1 = false)
    by (unfold s1; destruct (serving s) eqn:?; split_and!; auto using stopServing_ready).
  destruct H1 as (R1 & T1 & V1). destruct (term_readEnd s1) as [e |].
  { split; [by apply left_over_here |]. split; [change (0 <= blen); lia | done]. }
  set (s2 := set_keepNotes s1 _). destruct R1 as (N1 & E1 & I1 & _).
  pose proof (raw_Read_ok script blen s2 Hb I1 N1 E1) as Hraw.
  destruct (raw_Read script blen s2) as [[s3 | [[rest s3] perr]] | |]; [| | done | done]; next.
  { destruct Hraw as (F & N3 & E3 & W). assert (K : latch_kept (term s) (term s3)) by (rewrite <- T1; apply F).
    assert (V3 : serving s3 = false) by (rewrite <- V1; apply F).
    split; [| done]. apply ready_quiet; auto. by eapply latch_kept_inv. }
  destruct Hraw as (F & N3 & L3 & P3 & used & -> & U3).
  assert (K : latch_kept (term s) (term s3)) by (rewrite <- T1; apply F).
  assert (V3 : serving s3 = false) by (rewrite <- V1; apply F).
  assert (I3 : latch_inv (term s3)) by (by eapply latch_kept_inv).
  destruct (next_pass_ok c s3 raw perr blen ltac:(lia) N3 I3 V3 L3) as (res & s4 & E4 & (R4 & T4 & P4) & Hres).
  rewrite E4. next. assert (Hleft : left_over s s4 (used ++ rest) rest).
  { split; [done |]. rewrite T4. split; [done |]. by exists used. }
  destruct res as [rd |].
  { split; [done |]. split; [done |]. intros Hnote. rewrite length_app.
    destruct (ar_record (result s3)); [specialize (U3 eq_refl); destruct used; [done | simpl; lia] |].
    destruct (Hres eq_refl) as (rd' & [= ->] & ?). congruence. }
  destruct (ar_record (result s3)) eqn:Hrec; [| by destruct (Hres eq_refl) as (? & ? & _)]. specialize (U3 eq_refl).
  rewrite length_app in Hf. destruct used as [| ev used]; [done |]. simpl in Hf.
  specialize (IH rest s4 ltac:(lia) R4).
  destruct (recvNext fuel c rest blen raw s4) as [[s5 | [[rest5 s5] rd]] | |]; [| | done | done].
  - destruct IH as (R5 & K5 & W5). split; [done |]. split; [| done]. rewrite T4 in K5. eauto using latch_kept_trans.
  - destruct IH as (L5 & B5 & N5). split; [eauto using left_over_trans |]. split; [done |].
    intros Hnote. specialize (N5 Hnote). cbn. rewrite length_app. lia.
Qed.

Lemma read_loop_ok c raw blen : 1 <= blen -> forall fuel script notes s,
  (length script < fuel)%nat -> ready s ->
  match read_loop fuel c script blen raw notes s with
  | Ret (Parked s') => ready s' /\ latch_kept (term s) (term s') /\ nothing_ended (term s')
  | Ret (Done (rest, s', r)) => left_over s s' script rest /\ len (r_data r) <= blen
  | _ => False
  end.
Proof.
  intros Hb. assert (H0 : len (@nil byte) <= blen) by (change (0 <= blen); lia).
  induction fuel as [| fuel IH]; intros script notes s Hf Hs; [lia |]. cbn [read_loop].
  pose proof (recvNext_ok c raw blen Hb (S (length script)) script s ltac:(lia) Hs) as H.
  destruct (recvNext _ c script blen raw s) as [[s1 | [[rest s1] rd]] | |]; [exact H | | done | done]. next.
  destruct H as (L1 & B1 & N1). destruct (rd_note rd) as [note |].
  2:{ split; [done |]. cbn [r_data]. by destruct (raw || _). }
  destruct (notnil _); [done |]. specialize (N1 ltac:(done)).
  specialize (IH rest (notes ++ [note]) s1 ltac:(lia) ltac:(apply L1)).
  destruct (read_loop fuel c rest blen raw (notes ++ [note]) s1) as [[s2 | [[rest2 s2] r]] | |]; [| | done | done].
  - destruct IH as (R & K & W). split; [done |]. split; [| done]. destruct L1 as (_ & K1 & _).
    eauto using latch_kept_trans.
  - destruct IH as (L & B). split; [eauto using left_over_trans | done].
Qed.

(** C9 RecvMsg and Read are safe whatever the kernel and the poller answer:
    no index is out of range and no loop runs past the answers, the bytes
    returned fit the buffer, no record is left half read between two calls,
    and a call that has used up the answers is left waiting only while the
    association has neither failed nor ended; a latched failure is never
    lost on the way. *)
Theorem recv_safe c script blen raw s (Hb : 0 <= blen) (Hs : ready s) :
  match recv_call c script blen raw s with
  | Ret (Parked s') => ready s' /\ latch_kept (term s) (term s') /\ nothing_ended (term s')
  | Ret (Done (rest, s', r)) =>
      ready s' /\ latch_kept (term s) (term s') /\ (exists used, script = used ++ rest) /\
      len (r_data r) <= blen
  | _ => False
  end.
Proof.
  assert (Hnow : ready s /\ latch_kept (term s) (term s) /\ (exists used, script = used ++ script) /\ 0 <= blen).
  { split; [done |]. split; [by apply latch_kept_refl, Hs |]. split; [by exists [] | done]. }
  unfold recv_call. destruct (opened c); [| exact Hnow]. cbn [negb].
  destruct (Z.eqb_spec blen 0); [exact Hnow |].
  pose proof (read_loop_ok c raw blen ltac:(lia) (S (length script)) script [] s ltac:(lia) Hs) as H.
  destruct (read_loop _ c script blen raw [] s) as [[s1 | [[rest s1] r]] | |]; [done | | done | done].
  destruct H as [(R & K & U) B]. by split_and!.
Qed.

(** ** A whole record *)

(** The kernel delivers record [r] into a buffer of [cap] bytes and then
    scratch: pieces flagged MSG_NOTIFICATION, MSG_EOR on the last only, with
    interrupted calls anywhere; [flags] and [oob] are the last piece's. *)
Inductive delivers (flags : Z) (oob : bytes) : Z -> bytes -> list event -> Prop :=
| deliver_last cap p :
    has_bits flags msgNotification = true -> has_bits flags msgEOR = true -> len p <= cap ->
    delivers flags oob cap p [Recv (ROk p flags oob)]
| deliver_more cap p fl o r es :
    has_bits fl msgNotification = true -> has_bits fl msgEOR = false -> len p <= cap ->
    delivers flags oob NotificationMaxSize r es ->
    delivers flags oob cap (p ++ r) (Recv (ROk p fl o) :: es)
| deliver_interrupted cap r es :
    delivers flags oob cap r es -> delivers flags oob cap r (Recv (RErr EINTR) :: es).

Definition consumed (s s' : recvState) (flags : Z) (oob : bytes) (r : bytes) : Prop :=
  exists a t ty k,
    s' = set_result (recording s a false t ty k (mark_end t ty (head a) <$> term s)
                       (take (Z.to_nat rcvCmsgSpace) oob))
           {| ar_data := []; ar_flags := flags; ar_err := None; ar_record := true;
              ar_cut := ar_cut (result s) |} /\
    in_record s' r.

Lemma attempt_record flags oob rest blen cap r es :
  delivers flags oob cap r es -> forall s r0,
  1 <= blen -> cap = (if noting s then NotificationMaxSize else blen) ->
  (if noting s then in_record s r0 else r0 = []) ->
  exists s', attempt (es ++ rest) blen s = Ret (rest, s', true) /\ consumed s s' flags oob (r0 ++ r).
Proof.
  induction 1 as [cap p Hn He Hp | cap p fl o r es Hn He Hp Hd IH | cap r es Hd IH];
    intros s r0 Hb -> Hin; cbn [attempt app]; unfold attempt_turn.
  all: set (dst := if noting s then NotificationMaxSize else blen) in *;
    assert (Hdst : (dst =? 0) = false) by (unfold dst; destruct (noting s); [done | apply Z.eqb_neq; lia]);
    rewrite Hdst.
  - rewrite (take_ge p) by (unfold len in Hp; lia). rewrite Hn, He.
    set (s1 := set_control s _). destruct (addPiece_ok s1 r0 p Hin) as (a & t & ty & k & -> & Hr). next.
    rewrite endRecordLocked_ok. next. cbn [noting set_term set_record]. next.
    eexists. split; [reflexivity |]. exists a, t, ty, k. split; [reflexivity |]. exact Hr.
  - rewrite (take_ge p) by (unfold len in Hp; lia). rewrite Hn, He.
    set (s1 := set_control s _). destruct (addPiece_ok s1 r0 p Hin) as (a & t & ty & k & -> & Hr). next.
    cbn [noting set_record]. next. destruct (IH (set_record (set_notes s1 a) true t ty k) (r0 ++ p) Hb eq_refl Hr)
      as (s' & -> & a' & t' & ty' & k' & -> & Hr').
    eexists. split; [reflexivity |]. rewrite app_assoc. exists a', t', ty', k'. split; [reflexivity | exact Hr'].
  - cbn. by apply IH.
Qed.

(** The state after record [r], as recvNext finds it. *)
Lemma raw_Read_record flags oob rest blen r es s :
  delivers flags oob blen r es -> 1 <= blen -> noting s = false ->
  exists s', raw_Read (es ++ rest) blen s = Ret (Done (rest, s', None)) /\ consumed s s' flags oob r.
Proof.
  intros Hd Hb Hn. destruct (attempt_record flags oob rest blen blen r es Hd s [] Hb) as (s' & E & H).
  { by rewrite Hn. }
  { by rewrite Hn. }
  exists s'. split; [| done]. assert (Hhd : exists e es', es ++ rest = Recv e :: es')
    by (inversion Hd; by do 2 eexists). destruct Hhd as (e & es' & Hes).
  unfold raw_Read. rewrite Hes in *. cbn [poll_loop length]. rewrite E. done.
Qed.

(** What a reader makes of a whole record [r]: [None] to go on reading. *)
Definition delivered (c : conn) (s : recvState) (raw : bool) : recvState :=
  set_keepNotes s (raw || bool_decide (is_Some (handler c))).

Definition message_lost (c : conn) (s : recvState) (raw : bool) (r : bytes) : option error :=
  if negb (interleaved s) && (ntype r =? EventPartialDelivery) && partial s &&
     (negb raw || negb (wanted (delivered c s raw) (ntype r)))
  then errors_Join [Some (Plain ErrMessageInterrupted); Some errPartialDeliveryAborted] else None.

Definition record_info (flags : Z) (oob : bytes) (eor : bool) : MsgInfo :=
  let info := foldl absorb (init_info flags) (cmsgs oob) in
  {| mi_EOR := eor; mi_Notification := true; mi_Rcv := mi_Rcv info; mi_Nxt := mi_Nxt info;
     mi_HasNxt := mi_HasNxt info |}.

Definition record_result (c : conn) (s : recvState) (raw : bool) (blen flags : Z) (oob r : bytes) : option read :=
  if negb (wanted (delivered c s raw) (ntype r)) then
    match message_lost c s raw r with Some e => Some (read_fails (Some e)) | None => None end
  else if bool_decide (is_Some (handler c)) then
    match ParseNotification r with
    | Ret note => Some (read_notes note (message_lost c s raw r))
    | Err e => Some (read_fails (Some e))
    | Panic => None
    end
  else Some (got_bytes (take (Z.to_nat blen) r) (record_info flags oob (len r <=? blen)) None).

Lemma in_record_whole s r :
  in_record s r -> whole r ->
  finish (notes s) = Ret (if kept s then r else []) /\ data (notes s) = (if kept s then r else []) /\
  head (notes s) = sub r 0 (Z.min sizeAssocChange (len r)) /\ typed s = true /\ typ s = ntype r /\
  kept s = wanted s (ntype r).
Proof.
  intros (Hs & Ht & Hr & Hk) Hw. pose proof (finish_seen _ r Hs) as Hf. rewrite Hr in Hf.
  assert (Ht' : typed s = true) by (rewrite Ht; apply Z.leb_le; apply Hw). rewrite Ht' in Hk.
  destruct (aerr (notes s)) as [e |] eqn:He.
  { exfalso. destruct Hs as (_ & _ & Hs). rewrite He in Hs. destruct Hs as [_ Hn]. apply (Hn []). by rewrite app_nil_r. }
  pose proof (peek_seen _ r [] Hs He) as [_ Hh].
  assert (Hd : data (notes s) = if kept s then r else []).
  { destruct Hs as (_ & _ & Hs). rewrite He, Hr in Hs. apply Hs. }
  destruct (finish (notes s)) as [d | e |]; [| by destruct Hf | done]. destruct Hf as [_ ->], Hk. by split_and!.
Qed.

(** Only the first 20 bytes decide what a record does to the latch. *)
Lemma mark_end_head ty r t :
  mark_end true ty (sub r 0 (Z.min sizeAssocChange (len r))) t = mark_end true ty r t.
Proof.
  unfold mark_end. pose proof (len_nonneg r).
  assert (Hl : len (sub r 0 (Z.min sizeAssocChange (len r))) = Z.min sizeAssocChange (len r))
    by (rewrite len_sub by (abi; lia); abi; lia).
  rewrite Hl. destruct (Z.leb_spec sizeAssocChange (len r)) as [H20 | H20].
  - rewrite (proj2 (Z.leb_le _ _)) by lia. rewrite sub_sub by (abi; lia). done.
  - rewrite (proj2 (Z.leb_gt _ _)) by lia. by rewrite !andb_false_r.
Qed.

(** The state after a whole record. *)
Definition after_record (s s' : recvState) (r : bytes) (blen : Z) : Prop :=
  ready s' /\ partial s' = partial s && negb (ntype r =? EventPartialDelivery) /\
  interleaved s' = interleaved s /\ subs s' = subs s /\
  (serving s' = true -> data (notes s') = r /\ served s' = blen).

Lemma next_record_whole c s raw flags blen r :
  1 <= blen -> ready s -> serving s = false -> in_record s r -> whole r ->
  keepNotes s = raw || bool_decide (is_Some (handler c)) ->
  exists s', next_record c s raw flags blen = Ret (record_result c s raw blen flags (control s) r, s') /\
    after_record s s' r blen /\ term s' = term s /\
    serving s' = kept s && negb (bool_decide (is_Some (handler c))) && (blen <? len r).
Proof.
  intros Hb (Hn & Hr & Hi & _) Hsv Hin Hw Hkeep.
  destruct (in_record_whole s r Hin Hw) as (Hf & Hd & _ & Ht & Hy & Hk).
  assert (Hwant : wanted (delivered c s raw) (ntype r) = kept s)
    by (rewrite Hk; unfold wanted, delivered; cbn; by rewrite <- Hkeep).
  unfold next_record, record_result, message_lost. rewrite Hwant, Ht, Hy. cbn [andb].
  set (pd := ntype r =? EventPartialDelivery). set (int := if _ && _ then _ else None).
  set (s1 := if pd then set_partial s false else s).
  assert (E1 : s1 = set_partial s (partial s && negb pd)).
  { unfold s1. destruct s, pd; cbn; by rewrite ?andb_true_r, ?andb_false_r. }
  assert (Hq : forall a, after_record s (set_notes s1 a) r blen /\ term (set_notes s1 a) = term s /\
                         serving (set_notes s1 a) = false).
  { intros a. rewrite E1. split; [| done]. split; [by apply ready_quiet |]. cbn.
    repeat (split; [done |]). congruence. }
  rewrite E1. cbn [kept notes set_partial]. destruct (kept s) eqn:Hkept; cbn [negb].
  - rewrite Hf. destruct (bool_decide (is_Some (handler c))).
    + pose proof (ParseNotification_returns r) as Hp.
      destruct (ParseNotification r); [| | done]; eexists; (split; [reflexivity |]); rewrite <- E1; apply Hq.
    + rewrite parse_total. next. set (info := foldl _ _ _).
      destruct (servePiece_ok (set_serving (set_partial s (partial s && negb pd)) true 0 info) blen) as [Hl E]; [lia | |].
      { cbn. pose proof (len_nonneg (data (notes s))). lia. }
      rewrite E. next. cbn [notes set_serving set_partial served serveInfo] in *. rewrite Hd in *.
      set (piece := sub r 0 _) in *. rewrite Z.add_0_l in *. pose proof (len_nonneg r).
      assert (Hpiece : piece = take (Z.to_nat blen) r).
      { unfold piece, sub. rewrite drop_0. destruct (Z.le_gt_cases blen (len r)).
        - f_equal. lia.
        - rewrite !take_ge; [done | unfold len in *; lia | unfold len in *; lia]. }
      assert (Heor : (len piece =? len r) = (len r <=? blen)).
      { rewrite Hl. destruct (Z.leb_spec (len r) blen); [apply Z.eqb_eq | apply Z.eqb_neq]; lia. }
      rewrite Heor, Hpiece. eexists. split; [reflexivity |].
      destruct (Z.leb_spec (len r) blen) as [Hle | Hgt].
      * rewrite (proj2 (Z.ltb_ge _ _)) by done. split; [| done]. split; [by apply ready_quiet |]. by split_and!.
      * rewrite (proj2 (Z.ltb_lt _ _)) by done. split; [| done]. split; [| cbn; rewrite <- Hpiece; split_and!; auto; intros _; rewrite Hl; split; [done | lia]].
        unfold ready. cbn. rewrite <- Hpiece, Hl, Hd. split_and!; auto; intros _; lia.
  - unfold dropRecord. cbn [notes set_partial]. rewrite Hf. rewrite <- E1.
    destruct int; eexists; (split; [reflexivity |]); apply Hq.
Qed.

(** A read that is not serving and has not ended runs one pass. *)
Lemma recvNext_pass fuel c script blen raw s rest s1 :
  serving s = false -> term_readEnd s = None ->
  raw_Read script blen (delivered c s raw) = Ret (Done (rest, s1, None)) ->
  recvNext (S fuel) c script blen raw s =
  ('(res, s2) ← next_pass c s1 raw None blen;
   match res with
   | Some rd => Ret (Done (rest, s2, rd))
   | None => recvNext fuel c rest blen raw s2
   end).
Proof.
  intros Hsv Hend E. cbn [recvNext]. rewrite Hsv, Hend. cbn [andb]. fold (delivered c s raw). by rewrite E.
Qed.

(** The pass after a record, however it came. *)
Lemma recvNext_record fuel c flags oob blen raw s r es rest :
  1 <= blen -> ready s -> serving s = false -> term_readEnd s = None ->
  delivers flags oob blen r es ->
  exists s1, in_record s1 r /\ ready s1 /\ serving s1 = false /\
    keepNotes s1 = raw || bool_decide (is_Some (handler c)) /\
    partial s1 = partial s /\ interleaved s1 = interleaved s /\ subs s1 = subs s /\
    control s1 = take (Z.to_nat rcvCmsgSpace) oob /\
    term s1 = (mark_end (typed s1) (typ s1) (head (notes s1)) <$> term s) /\
    recvNext (S fuel) c (es ++ rest) blen raw s =
    ('(res, s2) ← next_record c s1 raw flags blen;
     match res with
     | Some rd => Ret (Done (rest, s2, rd))
     | None => recvNext fuel c rest blen raw s2
     end).
Proof.
  intros Hb (Hn & Hr & Hi & _) Hsv Hend Hd.
  destruct (raw_Read_record flags oob rest blen r es (delivered c s raw) Hd Hb Hn)
    as (s1 & E & a & t & ty & k & -> & Hin).
  rewrite (recvNext_pass fuel c _ blen raw s _ _ Hsv Hend E). clear E.
  set (s1 := set_result (recording _ a _ _ _ _ _ _) _) in *.
  exists (set_result s1 no_result). split; [exact Hin |]. split.
  { apply ready_quiet; try done. apply (latch_kept_inv (term s)).
    apply latch_kept_map; [intros; by apply mark_end_kept | done]. }
  repeat (split; [done |]).
  unfold next_pass, take_result. cbn [notnil ar_cut ar_err ar_record ar_flags result set_result s1 delivered set_keepNotes].
  rewrite Hr. cbn [ar_cut no_result]. done.
Qed.

(** C10 A whole notification is one read, however the kernel splits it into
    pieces and whatever calls are interrupted: the reader gets exactly what
    [record_result] says of the record's bytes (the parsed event for the
    handler, its first bytes for RecvMsg, or nothing when it is not the
    caller's, and then the read goes on with what follows), the result does
    not depend on the pieces, an SCTP_ASSOC_CHANGE marks the latch, and
    what follows the record is left for the next read. *)
Theorem record_read fuel c flags oob blen raw s r es rest
    (Hb : 1 <= blen) (Hs : ready s) (Hsv : serving s = false) (Hend : term_readEnd s = None)
    (Hd : delivers flags oob blen r es) (Hw : whole r) :
  exists s', after_record s s' r blen /\ term s' = (mark_end true (ntype r) r <$> term s) /\
    recvNext (S fuel) c (es ++ rest) blen raw s =
    match record_result c s raw blen flags (take (Z.to_nat rcvCmsgSpace) oob) r with
    | Some rd => Ret (Done (rest, s', rd))
    | None => recvNext fuel c rest blen raw s'
    end.
Proof.
  destruct (recvNext_record fuel c flags oob blen raw s r es rest Hb Hs Hsv Hend Hd)
    as (s1 & Hin & Hs1 & Hsv1 & Hk1 & Hp1 & Hi1 & Hsub1 & Hc1 & Ht1 & ->).
  destruct (in_record_whole s1 r Hin Hw) as (_ & _ & Hh & Ht & Hy & _).
  destruct (next_record_whole c s1 raw flags blen r Hb Hs1 Hsv1 Hin Hw Hk1) as (s' & -> & Ha & Ht' & _). next.
  exists s'. split; [| split].
  - unfold after_record in *. by rewrite <- Hp1, <- Hi1, <- Hsub1.
  - rewrite Ht', Ht1, Ht, Hy, Hh. destruct (term s); simpl; [by rewrite mark_end_head | done].
  - rewrite Hc1. unfold record_result, message_lost. unfold wanted, delivered. cbn [keepNotes subs set_keepNotes].
    by rewrite Hp1, Hi1, Hsub1.
Qed.

(** A malformed record fails the read that consumes its end, received
    or not, with an error matching ErrShortNotification or
    ErrNotificationTooLong, and what follows it stays queued. *)
Theorem record_malformed fuel c flags oob blen raw s r es rest
    (Hb : 1 <= blen) (Hs : ready s) (Hsv : serving s = false) (Hend : term_readEnd s = None)
    (Hd : delivers flags oob blen r es) (Hw : ~ whole r) :
  exists s' e, ready s' /\ serving s' = false /\
    recvNext (S fuel) c (es ++ rest) blen raw s = Ret (Done (rest, s', read_fails (Some e))) /\
    (errors_Is e ErrShortNotification = true \/ errors_Is e ErrNotificationTooLong = true).
Proof.
  destruct (recvNext_record fuel c flags oob blen raw s r es rest Hb Hs Hsv Hend Hd)
    as (s1 & Hin & (Hn & Hr & Hi & _) & Hsv1 & _ & _ & _ & _ & _ & _ & ->).
  destruct Hin as (Hseen & _). pose proof (finish_seen _ r Hseen) as Hf.
  destruct (finish (notes s1)) as [d | e |] eqn:Hfin; [by destruct Hf | | done]. destruct Hf as [_ He].
  assert (He' : errors_Is e ErrShortNotification = true \/ errors_Is e ErrNotificationTooLong = true)
    by (destruct He as [| ->]; auto).
  unfold next_record. set (int := if _ && _ then _ else None). set (s2 := if _ && (typ s1 =? _) then _ else s1).
  assert (H2 : notes s2 = notes s1 /\ kept s2 = kept s1 /\ ready (set_notes s2 (reset (notes s1))) /\ serving s2 = false).
  { unfold s2. destruct (typed s1 && (typ s1 =? EventPartialDelivery)); split_and!; try done; by apply ready_quiet. }
  clearbody s2 int. destruct H2 as (N2 & K2 & R2 & V2). unfold dropRecord. rewrite N2, Hfin.
  destruct (negb (kept s2)); next.
  - destruct int as [i |].
    + exists (set_notes s2 (reset (notes s1))), (Joined [e; i]). split_and!; try done. cbn.
      destruct He' as [-> | ->]; rewrite ?orb_true_l; auto.
    + exists (set_notes s2 (reset (notes s1))), (Joined [e]). split_and!; try done. cbn.
      destruct He' as [-> | ->]; rewrite ?orb_true_l; auto.
  - exists (set_notes s2 (reset (notes s1))), e. by split_and!.
Qed.

(** ** A record cut short *)

(** The kernel delivers the pieces [r] of a record that does not end. *)
Inductive begins : Z -> bytes -> list event -> Prop :=
| begin_piece cap p fl o :
    has_bits fl msgNotification = true -> has_bits fl msgEOR = false -> len p <= cap ->
    begins cap p [Recv (ROk p fl o)]
| begin_more cap p fl o r es :
    has_bits fl msgNotification = true -> has_bits fl msgEOR = false -> len p <= cap ->
    begins NotificationMaxSize r es -> begins cap (p ++ r) (Recv (ROk p fl o) :: es)
| begin_interrupted cap r es : begins cap r es -> begins cap r (Recv (RErr EINTR) :: es).

(** What comes next is not the record's next piece: an error, data, the end
    of the stream, or nothing queued; what of the script is left, and the
    cause reported. *)
Inductive cut_by : list event -> list event -> plain -> Prop :=
| cut_error e rest : e <> EINTR -> cut_by (Recv (RErr e) :: rest) rest (Errno e)
| cut_data d fl o rest : has_bits fl msgNotification = false -> 0 < len d ->
    cut_by (Recv (ROk d fl o) :: rest) rest (Errno EPROTO)
| cut_end fl o rest : has_bits fl msgNotification = false -> cut_by (Recv (ROk [] fl o) :: rest) rest EOF
| cut_empty more : waits_next more -> cut_by more more (Errno EAGAIN).

Lemma attempt_begins more blen cap r es :
  begins cap r es -> forall s r0,
  1 <= blen -> cap = (if noting s then NotificationMaxSize else blen) ->
  (if noting s then in_record s r0 else r0 = []) ->
  exists a t ty k oob, let s' := recording s a true t ty k (term s) oob in
    in_record s' (r0 ++ r) /\ attempt (es ++ more) blen s = attempt more blen s'.
Proof.
  induction 1 as [cap p fl o Hn He Hp | cap p fl o r es Hn He Hp Hd IH | cap r es Hd IH];
    intros s r0 Hb -> Hin; cbn [attempt app]; unfold attempt_turn.
  all: set (dst := if noting s then NotificationMaxSize else blen) in *;
    assert (Hdst : (dst =? 0) = false) by (unfold dst; destruct (noting s); [done | apply Z.eqb_neq; lia]);
    rewrite Hdst.
  3: { by apply IH. }
  all: rewrite (take_ge p) by (unfold len in Hp; lia); rewrite Hn, He;
    set (s1 := set_control s _); destruct (addPiece_ok s1 r0 p Hin) as (a & t & ty & k & -> & Hr); next;
    cbn [noting set_record]; next.
  - exists a, t, ty, k, (take (Z.to_nat rcvCmsgSpace) o). split; [exact Hr |]. by destruct s.
  - destruct (IH (set_record (set_notes s1 a) true t ty k) (r0 ++ p) Hb eq_refl Hr) as (a' & t' & ty' & k' & o' & Hr' & ->).
    rewrite app_assoc. exists a', t', ty', k', o'. by split.
Qed.

Lemma attempt_cut more rest cause blen s :
  cut_by more rest cause -> noting s = true ->
  exists oob flags, attempt more blen s =
    Ret (rest,
         set_result (set_control (set_record (set_term s ((fun t => fst (storeLocked t (Some (Plain cause)))) <$> term s))
                                    false (typed s) (typ s) (kept s)) oob)
           {| ar_data := []; ar_flags := flags; ar_err := Some (Plain cause);
              ar_record := ar_record (result s); ar_cut := true |}, true).
Proof.
  intros Hc Hn. assert (Hst : forall t, fst (storeLocked t None) = t) by done.
  assert (Hid : (fun t => fst (storeLocked t None)) <$> term s = term s) by (by destruct (term s)).
  assert (Hno : forall p, isAssocFailure (Some (Plain p)) = false ->
    (fun t => fst (storeLocked t (Some (Plain p)))) <$> term s = term s).
  { intros p Hp. unfold storeLocked. rewrite Hp. by destruct (term s). }
  inversion Hc as [e rest' He | d fl o rest' Hf Hd | fl o rest' Hf | more' Hw]; subst; cbn [attempt];
    rewrite ?Hn; unfold attempt_turn; change (NotificationMaxSize =? 0) with false; cbv iota.
  - destruct (Z.eqb_spec e EINTR); [done |]. next. unfold not_piece. rewrite Hn.
    by exists (control s), 0; destruct s.
  - next. rewrite Hf. next. unfold not_piece. cbn [noting set_control term]. rewrite Hn, Hid, Hno by done.
    assert (Hl : (len (take (Z.to_nat NotificationMaxSize) d) =? 0) = false) by (apply Z.eqb_neq; rewrite len_take; change NotificationMaxSize with 1024; lia).
    rewrite Hl. next. do 2 eexists. by destruct s.
  - next. rewrite Hf. next. unfold not_piece. cbn [noting set_control term]. rewrite Hn, Hid, Hno by done.
    do 2 eexists. by destruct s.
  - assert (E : attempt rest blen s =
      match not_piece s [] 0 (errno EAGAIN) with
      | Again s | Wait s => Ret (rest, s, false)
      | Stop s => Ret (rest, s, true)
      end).
    { destruct rest as [| [r | e] rest]; [| done |]; cbn [attempt]; by rewrite Hn. }
    destruct rest as [| [r | e] rest]; [| done |]; cbn [attempt] in *; rewrite E;
      unfold not_piece; rewrite Hn; exists (control s), 0; by destruct s.
Qed.

Lemma joinAbortCause_keeps e aerr t :
  errors_Is e t = true -> exists e', joinAbortCause (Some e) aerr = Some e' /\ errors_Is e' t = true.
Proof.
  intros He. destruct aerr as [ae |]; [| by eexists]. pose proof (joinAbortCause_Is (Some e) ae t) as H.
  cbn [Is] in H. rewrite He in H. destruct (joinAbortCause (Some e) (Some ae)) as [e' |]; [by exists e' | done].
Qed.

(** C20 A record cut short is never misread: when anything but its next
    piece follows a piece without MSG_EOR, whatever it is, the read does
    not wait and does not return the pieces; it aborts the connection, its
    error matches ErrShortNotification, no record stays in progress, and an
    association failure that cut the record is latched. *)
Theorem record_cut fuel c blen raw s r es more rest cause
    (Hb : 1 <= blen) (Hs : ready s) (Hsv : serving s = false) (Hend : term_readEnd s = None)
    (Hd : begins blen r es) (Hc : cut_by more rest cause) :
  exists s' e, ready s' /\
    recvNext (S fuel) c (es ++ more) blen raw s = Ret (Done (rest, s', read_aborts (Some e))) /\
    errors_Is e ErrShortNotification = true /\
    (forall t, term s = Some t -> isAssocFailure (Some (Plain cause)) = true ->
       exists t', term s' = Some t' /\ is_Some (t_err t')).
Proof.
  pose proof Hs as (Hn & Hr & Hi & _). set (s0 := delivered c s raw).
  destruct (attempt_begins more blen blen r es Hd s0 [] Hb) as (a & t & ty & k & oob & Hin & E); [by change (noting s0) with (noting s); rewrite Hn.. |].
  set (s1 := recording s0 a true t ty k (term s0) oob) in *.
  destruct (attempt_cut more rest cause blen s1 Hc eq_refl) as (oob' & flags & E1).
  rewrite E1 in E. set (s2 := set_result _ _) in *.
  assert (Hraw : raw_Read (es ++ more) blen s0 = Ret (Done (rest, s2, None))).
  { assert (Hhd : exists e es', es ++ more = Recv e :: es') by (inversion Hd; by do 2 eexists).
    destruct Hhd as (e & es' & Hes). unfold raw_Read. rewrite Hes in *. cbn [poll_loop length]. by rewrite E. }
  rewrite (recvNext_pass fuel c _ blen raw s _ _ Hsv Hend Hraw).
  unfold next_pass, take_result. cbn [notnil ar_cut result s2 set_result].
  unfold abortInterruptedNotification, abortInterrupted. cbn [notes set_result].
  destruct (joinAbortCause_keeps (Joined (omap id [Some (interrupted a); readEnded c (Some (Plain cause))]))
              (abort_result c) ErrShortNotification) as (e & He & Hes).
  { cbn. by rewrite interrupted_short. }
  exists (set_notes (set_result s2 no_result) (reset a)), e. split; [| split; [| split; [exact Hes |]]].
  3:{ intros t0 Ht0 Hf. exists (fst (storeLocked t0 (Some (Plain cause)))). split; [cbn; by rewrite Ht0 |]. by apply storeLocked_true. }
  2:{ unfold errors_Join. cbn [ar_err]. next. cbn in He |- *. rewrite He. reflexivity. }
  apply ready_quiet; try done. apply (latch_kept_inv (term s)).
  apply latch_kept_map; [intros; by apply storeLocked_kept | done].
Qed.

(** ** Notifications in pieces *)

(** Successive RecvMsg calls with buffers of these sizes, until one waits:
    what they return, and the rest of the script. *)
Fixpoint recv_all (c : conn) (script : list event) (bs : list Z) (s : recvState)
    : out error (list returned * list event * recvState) :=
  match bs with
  | [] => Ret ([], script, s)
  | b :: bs =>
      got ← RecvMsg c script b s;
      match got with
      | Parked s => Ret ([], [], s)
      | Done (script, s, r) =>
          '(rs, script, s) ← recv_all c script bs s;
          Ret (r :: rs, script, s)
      end
  end.

(** A piece of a notification that is not its last, or is. *)
Definition note_piece (eor : bool) (r : returned) : Prop :=
  r_err r = None /\ r_notes r = [] /\ mi_Notification (r_info r) = true /\ mi_EOR (r_info r) = eor.

(** [rs] is [d] in pieces, with EOR on the last only. *)
Definition in_pieces (d : bytes) (rs : list returned) : Prop :=
  concat (map r_data rs) = d /\
  exists init last, rs = init ++ [last] /\ Forall (note_piece false) init /\ note_piece true last.

(** The sizes make room for [n] bytes, with none to spare before the last. *)
Inductive room : Z -> list Z -> Prop :=
| room_last n b : 1 <= b -> n <= b -> room n [b]
| room_more n b bs : 1 <= b < n -> room (n - b) bs -> room n (b :: bs).

Lemma in_pieces_last d r : r_data r = d -> note_piece true r -> in_pieces d [r].
Proof. intros <- H. split; [simpl; by rewrite app_nil_r |]. by exists [], r. Qed.

Lemma in_pieces_cons p d r rs :
  r_data r = p -> note_piece false r -> in_pieces d rs -> in_pieces (p ++ d) (r :: rs).
Proof.
  intros <- H [<- (init & last & -> & Hi & Hl)]. split; [done |]. exists (r :: init), last.
  split; [done |]. split; [by constructor | done].
Qed.

(** RecvMsg while a record is being served. *)
Lemma RecvMsg_serving c script b s :
  opened c = true -> 1 <= b -> ready s -> serving s = true ->
  let rem := drop (Z.to_nat (served s)) (data (notes s)) in
  exists s' r, RecvMsg c script b s = Ret (Done (script, s', r)) /\ ready s' /\
    r_data r = take (Z.to_nat b) rem /\ note_piece (len rem <=? b) r /\
    if len rem <=? b then serving s' = false
    else serving s' = true /\ drop (Z.to_nat (served s')) (data (notes s')) = drop (Z.to_nat b) rem.
Proof.
  intros Ho Hb Hs Hse rem. pose proof Hs as (_ & _ & _ & Hsv). specialize (Hsv Hse).
  destruct (servePiece_ok s b ltac:(lia) Hsv) as [Hl E].
  destruct (servePiece s b) as [[[piece info] s'] | |] eqn:E'; [| done | done].
  destruct (serve_ready s b piece info s' ltac:(lia) Hs Hse E') as (R & _ & _).
  injection E as -> -> ->. set (d := data (notes s)) in *. set (k := served s) in *.
  assert (Hrem : len rem = len d - k) by (unfold rem; rewrite len_drop_Z; lia).
  assert (Hp : sub d k (Z.min b (len d - k)) = take (Z.to_nat b) rem).
  { unfold sub. fold rem. destruct (Z.le_gt_cases b (len rem)).
    - f_equal. lia.
    - rewrite !take_ge; [done | unfold len in *; lia | unfold len in *; lia]. }
  set (piece := sub d k _) in *.
  assert (Heor : (k + len piece =? len d) = (len rem <=? b)).
  { rewrite Hl, Hrem. destruct (Z.leb_spec (len d - k) b); [apply Z.eqb_eq | apply Z.eqb_neq]; lia. }
  rewrite Heor in *. unfold RecvMsg, recv_call. rewrite Ho. cbn [negb]. destruct (Z.eqb_spec b 0); [lia |].
  cbn [read_loop recvNext]. rewrite Hse. cbn [andb]. rewrite E'. next.
  do 2 eexists. split; [reflexivity |]. split; [exact R |]. split; [exact Hp |]. split; [done |].
  destruct (Z.leb_spec (len rem) b); [done |]. split; [exact Hse |]. cbn. fold d.
  unfold rem. rewrite drop_drop. f_equal. rewrite Hl. lia.
Qed.

Lemma serve_rest c script bs : forall s,
  opened c = true -> ready s -> serving s = true ->
  let rem := drop (Z.to_nat (served s)) (data (notes s)) in
  room (len rem) bs ->
  exists rs s', recv_all c script bs s = Ret (rs, script, s') /\ in_pieces rem rs /\
    ready s' /\ serving s' = false.
Proof.
  induction bs as [| b bs IH]; intros s Ho Hs Hse rem Hroom; [inversion Hroom |].
  assert (Hb : 1 <= b) by (inversion Hroom; lia). cbn [recv_all].
  destruct (RecvMsg_serving c script b s Ho Hb Hs Hse) as (s1 & r & -> & R1 & D1 & P1 & S1). next.
  fold rem in D1, P1, S1. destruct (Z.leb_spec (len rem) b) as [Hle | Hgt].
  - assert (bs = []) as -> by (inversion Hroom; [done | lia]). cbn [recv_all]. next.
    exists [r], s1. split; [done |]. split; [| done]. apply in_pieces_last; [| done].
    rewrite D1. apply take_ge. unfold len in Hle. lia.
  - destruct S1 as [V1 E1]. assert (Hroom' : room (len rem - b) bs) by (inversion Hroom; [lia | done]).
    destruct (IH s1 Ho R1 V1) as (rs & s2 & -> & P2 & R2 & V2).
    { rewrite E1, len_drop_Z. replace (Z.max 0 _) with (len rem - b) by lia. done. }
    next. exists (r :: rs), s2. split; [done |]. split; [| done].
    rewrite <- (take_drop (Z.to_nat b) rem). rewrite E1 in P2. by apply in_pieces_cons.
Qed.

(** C19 Without a handler, RecvMsg returns a notification the caller
    receives the way it returns a message: whatever pieces the kernel
    delivered it in and whatever buffers the caller passes, the bytes
    returned, in order, are exactly the record, EOR is set on the last
    piece and on no other, each is marked a notification, no call fails,
    and what follows the record is untouched. *)
Theorem notification_in_pieces c flags oob s r es rest b bs
    (Ho : opened c = true) (Hh : handler c = None) (Hs : ready s) (Hsv : serving s = false)
    (Hend : term_readEnd s = None) (Hd : delivers flags oob b r es) (Hw : whole r)
    (Hwant : wanted (set_keepNotes s true) (ntype r) = true) (Hroom : room (len r) (b :: bs)) :
  exists rs s', recv_all c (es ++ rest) (b :: bs) s = Ret (rs, rest, s') /\ in_pieces r rs /\
    ready s' /\ serving s' = false.
Proof.
  assert (Hb : 1 <= b) by (inversion Hroom; lia). cbn [recv_all].
  unfold RecvMsg at 1, recv_call. rewrite Ho. cbn [negb]. destruct (Z.eqb_spec b 0); [lia |].
  cbn [read_loop].
  destruct (recvNext_record (length (es ++ rest)) c flags oob b true s r es rest Hb Hs Hsv Hend Hd)
    as (s1 & Hin & Hs1 & Hsv1 & Hk1 & _ & _ & Hsub1 & _ & _ & ->).
  destruct (next_record_whole c s1 true flags b r Hb Hs1 Hsv1 Hin Hw Hk1) as (s2 & -> & Ha & _ & V2). next.
  assert (Hwant1 : wanted (delivered c s1 true) (ntype r) = true).
  { revert Hwant. unfold wanted, delivered. cbn. by rewrite Hsub1. }
  assert (Hkept : kept s1 = true).
  { destruct (in_record_whole s1 r Hin Hw) as (_ & _ & _ & _ & _ & ->). rewrite <- Hwant1.
    unfold wanted, delivered. cbn. by rewrite Hk1. }
  rewrite Hkept, Hh in V2. unfold record_result. rewrite Hwant1, Hh. cbn [negb]. destruct Ha as (R2 & _ & _ & _ & D2).
  change (bool_decide (is_Some None)) with false in *. cbv iota. next. cbn [rd_note got_bytes rd_err notnil negb orb rd_data].
  cbn [negb andb] in V2.
  match goal with |- context [Done (rest, s2, ?x)] => set (p := x) end.
  assert (Hp : r_data p = take (Z.to_nat b) r /\ note_piece (len r <=? b) p) by done. destruct Hp as [Dp Pp].
  destruct (Z.leb_spec (len r) b) as [Hle | Hgt]; rewrite ?Z.leb_le in *.
  - rewrite (proj2 (Z.ltb_ge _ _)) in V2 by done.
    assert (bs = []) as -> by (inversion Hroom; [done | lia]). next. cbn [recv_all]. next.
    exists [p], s2. split; [done |]. split; [| done]. apply in_pieces_last; [| done].
    rewrite Dp. apply take_ge. unfold len in Hle. lia.
  - rewrite (proj2 (Z.ltb_lt _ _)) in V2 by done. destruct (D2 V2) as [Dn Sn].
    destruct (serve_rest c rest bs s2 Ho R2 V2) as (rs & s3 & E3 & P3 & R3).
    { rewrite Dn, Sn, len_drop_Z. replace (Z.max 0 _) with (len r - b) by lia. inversion Hroom; [lia | done]. }
    next. rewrite E3. next. rewrite Dn, Sn in P3. exists (p :: rs), s3. split; [done |]. split; [| done].
    rewrite <- (take_drop (Z.to_nat b) r). by apply in_pieces_cons.
Qed.
End Reads_.

(** ** Witnesses *)

(** A new connection, with no handler, and its receive storage. *)
Definition plain_conn : conn := {|
  handler := None; c_sock := true; c_life := lifeOpen; abort_result := None;
  c_network := "sctp"; c_local := None; c_remote := None |}.

Definition fresh : recvState := {|
  notes := empty_accumulator; control := []; result := no_result; term := Some zero_termState; subs := 0;
  keepNotes := false; partial := false; interleaved := false; noting := false; typed := false; typ := 0;
  kept := false; serving := false; served := 0; serveInfo := zeroMsgInfo |}.

Lemma fresh_ready : ready fresh.
Proof. apply ready_quiet; try done. intros t [= <-]. apply zero_inv. Qed.

(** An SCTP_SHUTDOWN_EVENT in three pieces, the second recvmsg interrupted,
    and data behind it. *)
Definition shutdown_record : bytes := first_piece ++ [Byte.x07; Byte.x00; Byte.x00; Byte.x00].

Definition msgBoth : Z := Z.lor msgNotification msgEOR.

Definition shutdown_events : list event :=
  [Recv (ROk (take 5 shutdown_record) msgNotification []); Recv (RErr EINTR);
   Recv (ROk (take 2 (drop 5 shutdown_record)) msgNotification []);
   Recv (ROk (drop 7 shutdown_record) msgBoth [])].

Definition message_after : list event := [Recv (ROk [Byte.x61; Byte.x62] msgEOR [])].

Lemma shutdown_delivers : delivers msgBoth [] 5 shutdown_record shutdown_events.
Proof.
  apply (deliver_more msgBoth [] 5 (take 5 shutdown_record) msgNotification [] (drop 5 shutdown_record));
    [done.. |]. constructor.
  apply (deliver_more msgBoth [] _ (take 2 (drop 5 shutdown_record)) msgNotification [] (drop 7 shutdown_record));
    [done.. |]. by constructor.
Qed.

Lemma shutdown_whole : @whole amd64 shutdown_record.
Proof. split; [split; vm_compute; discriminate | reflexivity]. Qed.

Lemma recv_safe_witness :
  ready fresh /\
  match @recv_call amd64 host_zones grow_exact go_runtime plain_conn (shutdown_events ++ message_after) 5 false fresh with
  | Ret (Parked s') => ready s' /\ latch_kept (term fresh) (term s') /\ nothing_ended (term s')
  | Ret (Done (rest, s', r)) =>
      ready s' /\ latch_kept (term fresh) (term s') /\
      (exists used, shutdown_events ++ message_after = used ++ rest) /\ len (r_data r) <= 5
  | _ => False
  end.
Proof.
  split; [exact fresh_ready |].
  apply (@recv_safe amd64 amd64_ok host_zones grow_exact go_runtime plain_conn (shutdown_events ++ message_after) 5 false fresh);
    [lia | exact fresh_ready].
Defined.

(** The read skips the event and returns the data behind it. *)
Example recv_read_example :
  match @recv_call amd64 host_zones grow_exact go_runtime plain_conn (shutdown_events ++ message_after) 5 false fresh with
  | Ret (Done ([], _, r)) => r_data r = [Byte.x61; Byte.x62] /\ r_err r = None
  | _ => False
  end.
Proof. vm_compute. done. Qed.

Lemma record_read_witness :
  exists s', @after_record amd64 fresh s' shutdown_record 5 /\
    @recvNext amd64 host_zones grow_exact go_runtime 9 plain_conn (shutdown_events ++ message_after) 5 true fresh =
    Ret (Done (message_after, s',
               got_bytes (take 5 shutdown_record) (@record_info amd64 msgBoth [] false) None)).
Proof.
  destruct (@record_read amd64 amd64_ok host_zones grow_exact go_runtime 8 plain_conn msgBoth [] 5 true fresh
              shutdown_record shutdown_events message_after ltac:(lia) fresh_ready eq_refl eq_refl
              shutdown_delivers shutdown_whole) as (s' & Ha & _ & E).
  exists s'. split; [exact Ha |]. exact E.
Defined.

(** The first 11 bytes of the record, ended by MSG_EOR: one is missing. *)
Lemma record_malformed_witness :
  exists s' e, @recvNext amd64 host_zones grow_exact go_runtime 3 plain_conn
      ([Recv (ROk (take 11 shutdown_record) msgBoth [])] ++ message_after) 64 false fresh =
      Ret (Done (message_after, s', read_fails (Some e))) /\
    (errors_Is e ErrShortNotification = true \/ errors_Is e ErrNotificationTooLong = true).
Proof.
  destruct (@record_malformed amd64 host_zones grow_exact go_runtime 2 plain_conn msgBoth [] 64 false fresh
              (take 11 shutdown_record) [Recv (ROk (take 11 shutdown_record) msgBoth [])] message_after)
    as (s' & e & _ & _ & E & He).
  - lia.
  - exact fresh_ready.
  - reflexivity.
  - reflexivity.
  - by constructor.
  - intros [_ H]. vm_compute in H. discriminate.
  - exists s', e. split; [exact E | exact He].
Defined.

(** The record's first piece, then the peer's ABORT. *)
Lemma record_cut_witness :
  exists s' e t', @recvNext amd64 host_zones grow_exact go_runtime 3 plain_conn
      ([Recv (ROk first_piece msgNotification [])] ++ [Recv (RErr ECONNRESET)]) 64 false fresh =
      Ret (Done ([], s', read_aborts (Some e))) /\
    errors_Is e ErrShortNotification = true /\ term s' = Some t' /\ is_Some (t_err t').
Proof.
  destruct (@record_cut amd64 host_zones grow_exact go_runtime 2 plain_conn 64 false fresh
              first_piece [Recv (ROk first_piece msgNotification [])] [Recv (RErr ECONNRESET)] [] (Errno ECONNRESET))
    as (s' & e & _ & E & He & Ht).
  - lia.
  - exact fresh_ready.
  - reflexivity.
  - reflexivity.
  - by constructor.
  - by constructor.
  - destruct (Ht zero_termState eq_refl eq_refl) as (t' & Et & Hs).
    exists s', e, t'. split; [exact E |]. split; [exact He |]. split; [exact Et | exact Hs].
Defined.

Lemma notification_in_pieces_witness :
  exists rs s', @recv_all amd64 host_zones grow_exact go_runtime plain_conn
      (shutdown_events ++ message_after) [5; 4; 64] fresh = Ret (rs, message_after, s') /\
    in_pieces shutdown_record rs.
Proof.
  destruct (@notification_in_pieces amd64 amd64_ok host_zones grow_exact go_runtime plain_conn msgBoth [] fresh
              shutdown_record shutdown_events message_after 5 [4; 64] eq_refl eq_refl fresh_ready eq_refl eq_refl
              shutdown_delivers shutdown_whole eq_refl) as (rs & s' & E & P & _).
  - change (len shutdown_record) with 12. constructor; [lia |]. constructor; [lia |]. constructor; lia.
  - exists rs, s'. split; [exact E | exact P].
Defined.
