(* ===== verification/ReadMsg.v ===== *)
(** * ReadMsg (src/recv_linux.go)

    readMsg, the reassembly of one message across recvmsg calls, with the
    notifications that arrive before and between its pieces, and ReadMsg
    around it; the shared buffers it assembles in.

    The kernel and the poller are a script, as in [Recv], and the fuel of
    each loop is the length of the script plus one.  Of the assembly buffer
    the model keeps the bytes received, state.buf[:state.total], and its
    length: nothing reads what lies between.  A buffer's length is its size
    class's, which [pool_exclusive] justifies.  What a NotificationHandler
    does to the connection itself is not modelled. *)
From Stdlib Require Import ZArith Lia Bool.
From stdpp Require Import base list option strings relations.
From coqutil Require Import Byte.
From S2P Require Import Prelude Close Abi Errors Enums Netip Sockaddr MsgInfo Notification Term Accumulator Config Recv.

(** total is the length of [buf]. *)
Record readMsgState := {
  buf : bytes;
  bufLen : Z;
  bufferClass : Z;
  first : RcvInfo;
  haveFirstFragment : bool;
  applicationComplete : bool;
  tooLong : bool;
  controlTruncated : bool;
  partialDeliveryBoundary : bool;
  resultErr : option error;
  queued : list Notification;
  queuedBytes : Z;
  queueFull : bool;
  immediate : option Notification;
  completedReceive : bool;
  cutNotification : option error;
  partialApplicationErr : option error;
}.

Definition set_buffer (st : readMsgState) (b : bytes) (n k : Z) : readMsgState := {|
  buf := b; bufLen := n; bufferClass := k; first := first st;
  haveFirstFragment := haveFirstFragment st; applicationComplete := applicationComplete st;
  tooLong := tooLong st; controlTruncated := controlTruncated st;
  partialDeliveryBoundary := partialDeliveryBoundary st; resultErr := resultErr st;
  queued := queued st; queuedBytes := queuedBytes st; queueFull := queueFull st;
  immediate := immediate st; completedReceive := completedReceive st;
  cutNotification := cutNotification st; partialApplicationErr := partialApplicationErr st |}.

Definition set_first (st : readMsgState) (r : RcvInfo) : readMsgState := {|
  buf := buf st; bufLen := bufLen st; bufferClass := bufferClass st; first := r;
  haveFirstFragment := true; applicationComplete := applicationComplete st;
  tooLong := tooLong st; controlTruncated := controlTruncated st;
  partialDeliveryBoundary := partialDeliveryBoundary st; resultErr := resultErr st;
  queued := queued st; queuedBytes := queuedBytes st; queueFull := queueFull st;
  immediate := immediate st; completedReceive := completedReceive st;
  cutNotification := cutNotification st; partialApplicationErr := partialApplicationErr st |}.

Definition set_tooLong (st : readMsgState) (b : bool) : readMsgState := {|
  buf := buf st; bufLen := bufLen st; bufferClass := bufferClass st; first := first st;
  haveFirstFragment := haveFirstFragment st; applicationComplete := applicationComplete st;
  tooLong := b; controlTruncated := controlTruncated st;
  partialDeliveryBoundary := partialDeliveryBoundary st; resultErr := resultErr st;
  queued := queued st; queuedBytes := queuedBytes st; queueFull := queueFull st;
  immediate := immediate st; completedReceive := completedReceive st;
  cutNotification := cutNotification st; partialApplicationErr := partialApplicationErr st |}.

Definition set_resultErr (st : readMsgState) (e : option error) (t : bool) : readMsgState := {|
  buf := buf st; bufLen := bufLen st; bufferClass := bufferClass st; first := first st;
  haveFirstFragment := haveFirstFragment st; applicationComplete := applicationComplete st;
  tooLong := tooLong st; controlTruncated := t;
  partialDeliveryBoundary := partialDeliveryBoundary st; resultErr := e; queued := queued st;
  queuedBytes := queuedBytes st; queueFull := queueFull st; immediate := immediate st;
  completedReceive := completedReceive st; cutNotification := cutNotification st;
  partialApplicationErr := partialApplicationErr st |}.

Definition set_complete (st : readMsgState) (a : bool) : readMsgState := {|
  buf := buf st; bufLen := bufLen st; bufferClass := bufferClass st; first := first st;
  haveFirstFragment := haveFirstFragment st; applicationComplete := a; tooLong := tooLong st;
  controlTruncated := controlTruncated st; partialDeliveryBoundary := partialDeliveryBoundary st;
  resultErr := resultErr st; queued := queued st; queuedBytes := queuedBytes st;
  queueFull := queueFull st; immediate := immediate st; completedReceive := true;
  cutNotification := cutNotification st; partialApplicationErr := partialApplicationErr st |}.

Definition set_cut (st : readMsgState) (e : option error) : readMsgState := {|
  buf := buf st; bufLen := bufLen st; bufferClass := bufferClass st; first := first st;
  haveFirstFragment := haveFirstFragment st; applicationComplete := applicationComplete st;
  tooLong := tooLong st; controlTruncated := controlTruncated st;
  partialDeliveryBoundary := partialDeliveryBoundary st; resultErr := resultErr st;
  queued := queued st; queuedBytes := queuedBytes st; queueFull := queueFull st;
  immediate := immediate st; completedReceive := completedReceive st; cutNotification := e;
  partialApplicationErr := partialApplicationErr st |}.

Definition set_partialErr (st : readMsgState) (e : option error) : readMsgState := {|
  buf := buf st; bufLen := bufLen st; bufferClass := bufferClass st; first := first st;
  haveFirstFragment := haveFirstFragment st; applicationComplete := applicationComplete st;
  tooLong := tooLong st; controlTruncated := controlTruncated st;
  partialDeliveryBoundary := partialDeliveryBoundary st; resultErr := resultErr st;
  queued := queued st; queuedBytes := queuedBytes st; queueFull := queueFull st;
  immediate := immediate st; completedReceive := completedReceive st;
  cutNotification := cutNotification st; partialApplicationErr := e |}.

Definition set_boundary (st : readMsgState) (b : bool) : readMsgState := {|
  buf := buf st; bufLen := bufLen st; bufferClass := bufferClass st; first := first st;
  haveFirstFragment := haveFirstFragment st; applicationComplete := applicationComplete st;
  tooLong := tooLong st; controlTruncated := controlTruncated st; partialDeliveryBoundary := b;
  resultErr := resultErr st; queued := queued st; queuedBytes := queuedBytes st;
  queueFull := queueFull st; immediate := immediate st; completedReceive := completedReceive st;
  cutNotification := cutNotification st; partialApplicationErr := partialApplicationErr st |}.

Definition set_queue (st : readMsgState) (q : list Notification) (n : Z) (f : bool) : readMsgState := {|
  buf := buf st; bufLen := bufLen st; bufferClass := bufferClass st; first := first st;
  haveFirstFragment := haveFirstFragment st; applicationComplete := applicationComplete st;
  tooLong := tooLong st; controlTruncated := controlTruncated st;
  partialDeliveryBoundary := partialDeliveryBoundary st; resultErr := resultErr st; queued := q;
  queuedBytes := n; queueFull := f; immediate := immediate st;
  completedReceive := completedReceive st; cutNotification := cutNotification st;
  partialApplicationErr := partialApplicationErr st |}.

Definition set_immediate (st : readMsgState) (n : option Notification) : readMsgState := {|
  buf := buf st; bufLen := bufLen st; bufferClass := bufferClass st; first := first st;
  haveFirstFragment := haveFirstFragment st; applicationComplete := applicationComplete st;
  tooLong := tooLong st; controlTruncated := controlTruncated st;
  partialDeliveryBoundary := partialDeliveryBoundary st; resultErr := resultErr st;
  queued := queued st; queuedBytes := queuedBytes st; queueFull := queueFull st; immediate := n;
  completedReceive := completedReceive st; cutNotification := cutNotification st;
  partialApplicationErr := partialApplicationErr st |}.

(** The assignments at the top of readMsg's loop. *)
Definition start_pass (st : readMsgState) : readMsgState := {|
  buf := buf st; bufLen := bufLen st; bufferClass := bufferClass st; first := first st;
  haveFirstFragment := haveFirstFragment st; applicationComplete := applicationComplete st;
  tooLong := tooLong st; controlTruncated := controlTruncated st;
  partialDeliveryBoundary := partialDeliveryBoundary st; resultErr := resultErr st;
  queued := queued st; queuedBytes := queuedBytes st; queueFull := queueFull st;
  immediate := None; completedReceive := false; cutNotification := None;
  partialApplicationErr := None |}.

Definition addError (st : readMsgState) (err : option error) : readMsgState :=
  match err with
  | None => st
  | Some e =>
      let truncated := err_is err ErrControlTruncated in
      if truncated && controlTruncated st then st
      else set_resultErr st (match resultErr st with None => err | Some _ => errors_Join [resultErr st; err] end)
             (truncated || controlTruncated st)
  end.

(** ** The assembly buffer *)
Definition chunk : Z := 2048.
Definition readMsgBuffers : list Z := [2048; 8192; 32768; 65536].

(** The length of the buffer getReadMsgBuffer returns, and its class. *)
Fixpoint find_class (sizes : list Z) (i : Z) (size : Z) : Z * Z :=
  match sizes with
  | [] => (size, -1)
  | n :: sizes => if size <=? n then (n, i) else find_class sizes (i + 1) size
  end.

Definition getReadMsgBuffer (size : Z) : Z * Z := find_class readMsgBuffers 0 size.

Definition initial_state (max : Z) : readMsgState := {|
  buf := []; bufLen := Z.min 256 max; bufferClass := -1; first := zeroRcvInfo; haveFirstFragment := false;
  applicationComplete := false; tooLong := false; controlTruncated := false; partialDeliveryBoundary := false;
  resultErr := None; queued := []; queuedBytes := 0; queueFull := false; immediate := None;
  completedReceive := false; cutNotification := None; partialApplicationErr := None |}.

(** The growth at the top of the callback's loop. *)
Definition grow_buffer (max : Z) (st : readMsgState) : readMsgState :=
  let total := len (buf st) in
  if negb (tooLong st) && (total =? bufLen st) && (total <? max) then
    let grow := if bufLen st <? chunk then chunk - bufLen st else bufLen st in
    let grow := if max - total <? grow then max - total else grow in
    let '(grown, class) := getReadMsgBuffer (bufLen st + grow) in
    set_buffer st (buf st) (if max <? grown then max else grown) class
  else st.

(** len(s.b): the room left, or scratch. *)
Definition read_room (st : readMsgState) : Z :=
  if negb (tooLong st) && (len (buf st) <? bufLen st) then bufLen st - len (buf st) else NotificationMaxSize.

(** A message has started and not ended. *)
Definition in_message (st : readMsgState) : bool := haveFirstFragment st && negb (applicationComplete st).

Definition is_partial_delivery (cut : error) : bool :=
  match cut with
  | Opaque msg => bool_decide (msg = "sctp: the partial delivery of the message was aborted")
  | _ => false
  end.

Section Calls.
Context `{A : Arch} `{ZE : ZoneEnv} `{G : SliceGrowth} `{CS : ClosingSentinel}.

(** finish, and ParseNotification of what it returns. *)
Definition finish_note (s : recvState) : out error (Notification * Z) :=
  d ← finish (notes s);
  n ← ParseNotification d;
  Ret (n, len d).

(** readMsgNotification: whether the read goes on in the same callback. *)
Definition notification_cuts (st : readMsgState) (s : recvState) (cut : error)
    : out error (readMsgState * recvState * bool) :=
  let st := set_partialErr st (Some cut) in
  let s := set_partial s false in
  if kept s then
    match finish_note s with
    | Panic => Panic
    | Err e => Ret (set_boundary (addError st (Some e)) false, set_notes s (reset (notes s)), false)
    | Ret (note, _) =>
        Ret (set_boundary (set_queue st (queued st ++ [note]) (queuedBytes st) (queueFull st))
               (is_partial_delivery cut),
             set_notes s (reset (notes s)), false)
    end
  else
    let '(err, s) := dropRecord s in
    Ret (set_boundary (addError st err) (is_partial_delivery cut && negb (notnil err)), s, false).

Definition notification_dropped (c : conn) (st : readMsgState) (s : recvState)
    : readMsgState * recvState * bool :=
  let '(err, s) := dropRecord s in
  match err with
  | Some _ => (addError st err, s, haveFirstFragment st)
  | None =>
      if match term s with Some t => hasEnded t | None => false end then
        (if in_message st then set_partialErr st (Some (Plain EOF))
         else addError st (readEnded c (Some (Plain EOF))), s, false)
      else (st, s, true)
  end.

Definition notification_kept (st : readMsgState) (s : recvState)
    : out error (readMsgState * recvState * bool) :=
  let s' := set_notes s (reset (notes s)) in
  match finish_note s with
  | Panic => Panic
  | Err e =>
      let st := addError st (Some e) in
      let st := if errors_Is e ErrNotificationTooLong
                then set_queue st (queued st) (queuedBytes st) true else st in
      Ret (st, s', haveFirstFragment st)
  | Ret (note, size) =>
      if negb (haveFirstFragment st) then Ret (set_immediate st (Some note), s', false)
      else if queueFull st then Ret (st, s', true)
      else if NotificationReassemblyLimit - queuedBytes st <? size then
        let st := addError st (Some (Plain ErrNotificationTooLong)) in
        Ret (set_queue st (queued st) (queuedBytes st) true, s', true)
      else Ret (set_queue st (queued st ++ [note]) (queuedBytes st + size) (queueFull st), s', true)
  end.

Definition readMsgNotification (c : conn) (st : readMsgState) (s : recvState)
    : out error (readMsgState * recvState * bool) :=
  cut ← (if in_message st then messageCut s else Ret None);
  match cut with
  | Some cut => notification_cuts st s cut
  | None =>
      if negb (kept s) then Ret (notification_dropped c st s)
      else notification_kept st s
  end.

(** [if !state.tooLong { ... }]: what a piece adds to the message. *)
Definition take_piece (max : Z) (st : readMsgState) (s : recvState) (r : attempt_result)
    : out error readMsgState :=
  if negb (tooLong st) then
    let st := set_buffer st (buf st ++ ar_data r) (bufLen st) (bufferClass st) in
    st ← (if negb (haveFirstFragment st) then
            '(info, err) ← parseRecvCmsgs (control s) (ar_flags r);
            Ret (set_first (addError st err) (mi_Rcv info))
          else Ret st);
    Ret (if (len (buf st) =? max) && negb (has_bits (ar_flags r) msgEOR) then set_tooLong st true else st)
  else Ret st.

(** A piece of the message: the state, and whether the message is complete. *)
Definition message_piece (max : Z) (st : readMsgState) (s : recvState) (r : attempt_result)
    : out error (readMsgState * recvState * bool) :=
  let eor := has_bits (ar_flags r) msgEOR in
  st ← take_piece max st s r;
  let st := if has_bits (ar_flags r) msgCtrunc then addError st (Some (Plain ErrControlTruncated)) else st in
  let s := set_partial s (negb eor) in
  if eor then
    let st := set_complete st true in
    Ret (if tooLong st then addError st (Some (Plain ErrMessageTooLong)) else st, s, true)
  else Ret (st, s, false).

(** One turn of the callback's loop after its attempt: whether it returns. *)
Definition message_turn (c : conn) (max : Z) (st : readMsgState) (s : recvState)
    : out error (readMsgState * recvState * bool) :=
  let '(r, s) := take_result s in
  if ar_cut r then Ret (set_cut st (ar_err r), s, true)
  else if notnil (ar_err r) then
    Ret (if in_message st then set_partialErr st (ar_err r) else addError st (readEnded c (ar_err r)), s, true)
  else if ar_record r then
    '(st, s, go_on) ← readMsgNotification c (set_complete st (applicationComplete st)) s;
    Ret (st, s, negb go_on)
  else message_piece max st s r.

Definition keeps_notes (c : conn) (st : readMsgState) : bool :=
  bool_decide (is_Some (handler c)) && (negb (haveFirstFragment st) || negb (queueFull st)).

(** The callback of readMsg's raw.Read. *)
Fixpoint message_callback (fuel : nat) (c : conn) (max : Z) (script : list event)
    (st : readMsgState) (s : recvState)
    : out error (list event * readMsgState * recvState * bool) :=
  match fuel with
  | O => Panic
  | S fuel =>
      let st := grow_buffer max st in
      '(script, s, ok) ← attempt script (read_room st) (set_keepNotes s (keeps_notes c st));
      if negb ok then Ret (script, st, s, false) else
      '(st, s, stop) ← message_turn c max st s;
      if (stop : bool) then Ret (script, st, s, true)
      else message_callback fuel c max script st s
  end.

(** raw.Read with that callback. *)
Inductive msg_waiting (X : Type) := MParked (st : readMsgState) (s : recvState) | MDone (x : X).
#[global] Arguments MParked {X} st s.
#[global] Arguments MDone {X} x.

Fixpoint message_poll (fuel : nat) (c : conn) (max : Z) (script : list event)
    (st : readMsgState) (s : recvState)
    : out error (msg_waiting (list event * readMsgState * recvState * option error)) :=
  match fuel with
  | O => Panic
  | S fuel =>
      '(script, st, s, ok) ← message_callback (S (length script)) c max script st s;
      if (ok : bool) then Ret (MDone (script, st, s, None))
      else match script with
           | PollErr e :: rest => Ret (MDone (rest, st, s, Some e))
           | Recv _ :: _ => message_poll fuel c max script st s
           | [] => Ret (MParked st s)
           end
  end.

Definition message_Read (c : conn) (max : Z) (script : list event) (st : readMsgState) (s : recvState)
    : out error (msg_waiting (list event * readMsgState * recvState * option error)) :=
  match script with
  | PollErr e :: rest => Ret (MDone (rest, st, s, Some e))
  | _ => message_poll (S (length script)) c max script st s
  end.

(** The switch after raw.Read; the last component says that Abort was
    called. *)
Definition message_ends (c : conn) (st : readMsgState) (s : recvState) (pollErr : option error)
    : readMsgState * recvState * bool :=
  let interrupted := in_message st in
  if notnil (cutNotification st) then
    let '(err, s) := abortInterruptedNotification c s (cutNotification st) in
    let st := addError st err in
    (if interrupted then addError st (Some (Plain ErrMessageInterrupted)) else st, s, true)
  else if interrupted && partialDeliveryBoundary st then
    (addError st (errors_Join [Some (Plain ErrMessageInterrupted); partialApplicationErr st]), s, false)
  else if interrupted then
    let cause := if notnil pollErr then pollErr else partialApplicationErr st in
    (addError st (abortInterruptedMessage c (readEnded c cause)), s, true)
  else if notnil pollErr then (addError st (readEnded c pollErr), s, false)
  else (st, s, false).

Record message := {
  m_data : bytes; m_info : RcvInfo; m_err : option error; m_notes : list Notification; m_abort : bool }.

Definition message_of (st : readMsgState) (handled : list Notification) (aborted : bool) : message := {|
  m_data := buf st; m_info := first st; m_err := resultErr st; m_notes := handled; m_abort := aborted |}.

Fixpoint readMsg (fuel : nat) (c : conn) (max : Z) (script : list event) (handled : list Notification)
    (st : readMsgState) (s : recvState)
    : out error (waiting (list event * recvState * message)) :=
  match fuel with
  | O => Panic
  | S fuel =>
      let st := start_pass st in
      let s := if serving s then stopServing s else s in
      match term_readEnd s with
      | Some e => Ret (Done (script, s, message_of (addError st (readEnded c (Some e))) handled false))
      | None =>
          polled ← message_Read c max script st s;
          match polled with
          | MParked _ s => Ret (Parked s)
          | MDone (script, st, s, perr) =>
              let '(st, s, aborted) := message_ends c st s perr in
              match immediate st with
              | Some note =>
                  match run_handler c note with
                  | Some e => Ret (Done (script, s, message_of (addError st (Some e)) (handled ++ [note]) aborted))
                  | None => readMsg fuel c max script (handled ++ [note]) st s
                  end
              | None =>
                  let st' := foldl (fun st note => addError st (run_handler c note)) st (queued st) in
                  Ret (Done (script, s, message_of st' (handled ++ queued st) aborted))
              end
          end
      end
  end.

Definition msg_fails (c : conn) (err : error) : message := {|
  m_data := []; m_info := zeroRcvInfo; m_err := readError c (Some err); m_notes := []; m_abort := false |}.

Definition ReadMsg (c : conn) (max : Z) (script : list event) (s : recvState)
    : out error (waiting (list event * recvState * message)) :=
  if max <=? 0 then Ret (Done (script, s, msg_fails c (invalidArg "ReadMsg needs a positive max, got %d")))
  else if negb (opened c) then Ret (Done (script, s, msg_fails c (Plain NetErrClosed)))
  else if interleaved s then
    Ret (Done (script, s, msg_fails c
      (unsupportedField "ReadMsg" "I-DATA can interleave streams; use RecvMsg and reassemble by Stream and EOR")))
  else
    got ← readMsg (S (length script)) c max script [] (initial_state max) s;
    Ret (match got with
         | Parked s => Parked s
         | Done (script, s, m) =>
             Done (script, s, {| m_data := m_data m; m_info := m_info m; m_err := readError c (m_err m);
                                 m_notes := m_notes m; m_abort := m_abort m |})
         end).
End Calls.

(** ** The assembly buffer *)

(** What notifications and errors leave alone. *)
Definition same_message (st st' : readMsgState) : Prop :=
  buf st' = buf st /\ bufLen st' = bufLen st /\ bufferClass st' = bufferClass st /\ first st' = first st /\
  haveFirstFragment st' = haveFirstFragment st /\ applicationComplete st' = applicationComplete st /\
  tooLong st' = tooLong st /\ immediate st' = immediate st.

Lemma same_refl st : same_message st st.
Proof. by split_and!. Qed.

Lemma same_trans st1 st2 st3 : same_message st1 st2 -> same_message st2 st3 -> same_message st1 st3.
Proof. unfold same_message. intuition congruence. Qed.

Lemma addError_same st e : same_message st (addError st e).
Proof. unfold addError. repeat case_match; by split_and!. Qed.

#[local] Hint Resolve same_refl addError_same : core.

(** The buffer holds what was read, within max, and is no longer than a
    constant factor of it. *)
Definition buffer_inv (max : Z) (st : readMsgState) : Prop :=
  len (buf st) <= bufLen st <= max /\ 1 <= bufLen st /\
  bufLen st <= Z.max chunk (8 * len (buf st)) /\
  (tooLong st = true -> len (buf st) = max) /\
  (haveFirstFragment st = false -> buf st = [] /\ tooLong st = false).

(** There is room for more of the message, or it is being drained. *)
Definition has_room (max : Z) (st : readMsgState) : Prop := tooLong st = false -> len (buf st) < max.

Lemma same_buffer_inv max st st' : same_message st st' -> buffer_inv max st -> buffer_inv max st'.
Proof. intros (E1 & E2 & _ & _ & E5 & _ & E7 & _). unfold buffer_inv. by rewrite E1, E2, E5, E7. Qed.

Lemma same_has_room max st st' : same_message st st' -> has_room max st -> has_room max st'.
Proof. intros (E1 & E2 & _ & _ & _ & _ & E7 & _). unfold has_room. by rewrite E1, E7. Qed.

Lemma getReadMsgBuffer_spec size :
  1 <= size ->
  let '(n, class) := getReadMsgBuffer size in
  size <= n /\ (n = chunk \/ n <= 4 * size /\ chunk < size) /\ (0 <= class -> readMsgBuffers !! Z.to_nat class = Some n) /\ -1 <= class.
Proof.
  intros Hs. unfold getReadMsgBuffer, readMsgBuffers, chunk. cbn.
  repeat case_match; simplify_eq; repeat match goal with H : (_ <=? _) = _ |- _ =>
    first [apply Z.leb_le in H | apply Z.leb_gt in H] end; split_and!; try lia; done.
Qed.

Lemma grow_buffer_ok max st :
  1 <= max -> buffer_inv max st -> has_room max st ->
  let st' := grow_buffer max st in
  buffer_inv max st' /\ (tooLong st = false -> len (buf st') < bufLen st') /\
  buf st' = buf st /\ tooLong st' = tooLong st /\
  haveFirstFragment st' = haveFirstFragment st /\ applicationComplete st' = applicationComplete st /\
  immediate st' = immediate st.
Proof.
  intros Hm ((Hl & Hmax) & H1 & H8 & Ht & H0) Hr. unfold grow_buffer, has_room in *. pose proof (len_nonneg (buf st)).
  destruct (tooLong st) eqn:Htl; cbn [negb andb];
    [rewrite Htl; unfold buffer_inv; rewrite Htl; split_and!; auto; congruence |].
  specialize (Hr eq_refl). rewrite (proj2 (Z.ltb_lt (len (buf st)) max)) by lia. rewrite andb_true_r.
  destruct (Z.eqb_spec (len (buf st)) (bufLen st)) as [E | Hne].
  2:{ rewrite Htl. unfold buffer_inv. rewrite Htl. split_and!; auto; lia. }
  set (g1 := if bufLen st <? chunk then _ else _). set (g := if max - _ <? g1 then _ else g1).
  assert (Hg : 1 <= g /\ g <= g1 /\ (max - len (buf st) < g1 -> g = max - len (buf st))).
  { unfold g. destruct (Z.ltb_spec (max - len (buf st)) g1); unfold g1 in *;
      destruct (Z.ltb_spec (bufLen st) chunk); unfold chunk in *; lia. }
  assert (Hg1 : bufLen st + g1 = Z.max chunk (2 * bufLen st) \/ bufLen st + g1 = chunk)
    by (unfold g1; destruct (Z.ltb_spec (bufLen st) chunk); unfold chunk in *; lia).
  pose proof (getReadMsgBuffer_spec (bufLen st + g) ltac:(lia)) as Hget.
  destruct (getReadMsgBuffer (bufLen st + g)) as [n k]. destruct Hget as (Hn1 & Hn2 & _).
  unfold buffer_inv. cbn. rewrite Htl. unfold chunk in *.
  destruct (Z.ltb_spec max n); split_and!; auto; lia.
Qed.

(** ** Every turn *)
Section Turns.
Context `{Aok : ArchOk} `{ZE : ZoneEnv} `{G : SliceGrowth} `{CS : ClosingSentinel}.

(** Between two turns the receive storage is ready, and serves nothing. *)
Definition quiet (s : recvState) : Prop := ready s /\ serving s = false.

Lemma quiet_intro s : noting s = false -> result s = no_result -> latch_inv (term s) -> serving s = false -> quiet s.
Proof. intros. split; [by apply ready_quiet | done]. Qed.

Lemma quiet_reset s p : quiet s -> quiet (set_notes (set_partial s p) (reset (notes s))).
Proof. intros [(? & ? & ? & _) ?]. by apply quiet_intro. Qed.

Lemma quiet_notes s : quiet s -> quiet (set_notes s (reset (notes s))).
Proof. intros [(? & ? & ? & _) ?]. by apply quiet_intro. Qed.

(** What a turn does to the state, leaving the message as it is. *)
Definition turned (st st' : readMsgState) (s s' : recvState) (go_on : bool) : Prop :=
  (same_message st st' \/
   go_on = false /\ haveFirstFragment st = false /\ exists note, st' = set_immediate st (Some note)) /\
  quiet s' /\ term s' = term s.

Lemma finish_note_safe s : safe (finish_note s).
Proof.
  unfold finish_note. destruct (finish (notes s)) as [d | |] eqn:E; [| done | by unfold finish in E; repeat case_match].
  next. pose proof (ParseNotification_returns d) as H. by destruct (ParseNotification d).
Qed.

Lemma messageCut_ok s : exists cut, messageCut s = Ret cut.
Proof.
  unfold messageCut. rewrite assocChangeInfo_ok. next. repeat (case_match; simpl; eauto).
Qed.

(** The setters that touch no field of the message. *)
Ltac same_by := first [exact (same_refl _) | exact (addError_same _ _) | left; exact (same_refl _) | left; exact (addError_same _ _)].

Lemma notification_cuts_ok st s cut :
  quiet s -> exists st' s' b, notification_cuts st s cut = Ret (st', s', b) /\ turned st st' s s' b.
Proof.
  intros Hq. unfold notification_cuts, dropRecord. cbn [kept set_partial notes].
  pose proof (finish_note_safe (set_partial s false)) as Hs. pose proof (quiet_reset s false Hq) as Hq'.
  destruct (kept s).
  - destruct (finish_note (set_partial s false)) as [[note size] | e |]; [| | done];
      do 3 eexists; (split; [reflexivity |]); (split; [| by split]); same_by.
  - do 3 eexists. split; [reflexivity |]. split; [same_by | by split].
Qed.

Lemma notification_dropped_ok c st s :
  quiet s -> let '(st', s', b) := notification_dropped c st s in turned st st' s s' b.
Proof.
  intros Hq. unfold notification_dropped, dropRecord. pose proof (quiet_notes s Hq) as Hq'.
  destruct (match finish (notes s) with Err e => Some e | _ => None end); [split; [same_by | by split] |].
  cbn [term set_notes]. destruct (match term s with Some t => hasEnded t | None => false end);
    [| split; [same_by | by split]].
  destruct (in_message st); (split; [same_by | by split]).
Qed.

Lemma notification_kept_ok st s :
  quiet s -> exists st' s' b, notification_kept st s = Ret (st', s', b) /\ turned st st' s s' b.
Proof.
  intros Hq. unfold notification_kept. pose proof (finish_note_safe s) as Hs. pose proof (quiet_notes s Hq) as Hq'.
  destruct (finish_note s) as [[note size] | e |]; [| | done].
  - destruct (haveFirstFragment st) eqn:Hf; cbn [negb].
    2:{ do 3 eexists. split; [reflexivity |]. split; [right | by split]. by eauto. }
    destruct (queueFull st); [do 3 eexists; split; [reflexivity |]; split; [same_by | by split] |].
    destruct (_ <? size); do 3 eexists; (split; [reflexivity |]); (split; [same_by | by split]).
  - destruct (errors_Is e ErrNotificationTooLong); do 3 eexists; (split; [reflexivity |]); (split; [same_by | by split]).
Qed.

Lemma readMsgNotification_ok c st s :
  quiet s -> exists st' s' b, readMsgNotification c st s = Ret (st', s', b) /\ turned st st' s s' b.
Proof.
  intros Hq. unfold readMsgNotification.
  assert (Hcut : exists cut, (if in_message st then messageCut s else Ret None) = Ret cut)
    by (destruct (in_message st); [apply messageCut_ok | by eexists]).
  destruct Hcut as [[cut |] ->]; next; [by apply notification_cuts_ok |].
  destruct (negb (kept s)); [| by apply notification_kept_ok].
  pose proof (notification_dropped_ok c st s Hq) as H.
  destruct (notification_dropped c st s) as [[st' s'] b]. by exists st', s', b.
Qed.

(** What only notifications set. *)
Definition ends (st : readMsgState) : option error * bool * bool := (cutNotification st, partialDeliveryBoundary st, queueFull st).

Lemma addError_ends st e : ends (addError st e) = ends st.
Proof. unfold addError, ends. by repeat case_match. Qed.

(** What a piece does to the message. *)
Definition piece_rcv (s : recvState) (r : attempt_result) : RcvInfo :=
  mi_Rcv (foldl absorb (init_info (ar_flags r)) (cmsgs (control s))).

Definition added (max : Z) (st st' : readMsgState) (s : recvState) (r : attempt_result) : Prop :=
  let eor := has_bits (ar_flags r) msgEOR in
  bufLen st' = bufLen st /\
  buf st' = (if tooLong st then buf st else buf st ++ ar_data r) /\
  tooLong st' = tooLong st || (len (buf st') =? max) && negb eor /\ immediate st' = immediate st /\
  (tooLong st = false -> haveFirstFragment st' = true /\
     first st' = if haveFirstFragment st then first st else piece_rcv s r) /\
  (tooLong st = true -> haveFirstFragment st' = haveFirstFragment st /\ first st' = first st).

Lemma take_piece_ok max st s r :
  exists st', take_piece max st s r = Ret st' /\ added max st st' s r /\
    applicationComplete st' = applicationComplete st /\ ends st' = ends st /\
    (has_bits (ar_flags r) msgCtrunc = false -> resultErr st' = resultErr st /\ queued st' = queued st).
Proof.
  unfold take_piece, added. destruct (tooLong st) eqn:Ht; cbn [negb].
  { exists st. rewrite Ht. by split_and!. }
  rewrite parse_total. next. set (st2 := set_buffer st _ _ _). set (e := if has_bits (ar_flags r) msgCtrunc then _ else None).
  destruct (addError_same st2 e) as (E1 & E2 & _ & E4 & _ & E6 & E7 & E8).
  assert (He : has_bits (ar_flags r) msgCtrunc = false -> addError st2 e = st2) by (unfold e; by intros ->).
  change (haveFirstFragment st2) with (haveFirstFragment st).
  destruct (haveFirstFragment st) eqn:Hf; cbn [negb]; next; cbn [buf set_first]; rewrite ?E1;
    change (buf st2) with (buf st ++ ar_data r).
  - eexists. split; [reflexivity |]. destruct (_ && _) eqn:Hx; cbn; rewrite ?Ht, ?Hx; by split_and!.
  - eexists. split; [reflexivity |]. destruct (_ && _) eqn:Hx; cbn; rewrite ?E1, ?E2, ?E6, ?E7, ?E8; cbn; rewrite ?Hx, ?Ht;
      (split; [by split_and! |]); (split; [done |]); (split; [exact (addError_ends st2 e) |]); intros Hc; by rewrite (He Hc).
Qed.

Lemma added_same max st st1 st2 s r : same_message st1 st2 -> added max st st1 s r -> added max st st2 s r.
Proof. intros (E1 & E2 & _ & E4 & E5 & _ & E7 & E8). unfold added. by rewrite E1, E2, E4, E5, E7, E8. Qed.

Lemma message_piece_ok max st s r :
  let eor := has_bits (ar_flags r) msgEOR in
  exists st', message_piece max st s r = Ret (st', set_partial s (negb eor), eor) /\
    added max st st' s r /\ applicationComplete st' = eor || applicationComplete st /\
    ends st' = ends st /\
    (has_bits (ar_flags r) msgCtrunc = false -> queued st' = queued st /\
       resultErr st' = resultErr (if eor && tooLong st' then addError st (Some (Plain ErrMessageTooLong)) else st)).
Proof.
  intros eor. unfold message_piece. fold eor. destruct (take_piece_ok max st s r) as (st1 & -> & H1 & C1 & X1 & R1). next.
  set (st2 := if has_bits (ar_flags r) msgCtrunc then _ else st1).
  assert (S2 : same_message st1 st2) by (unfold st2; destruct (has_bits (ar_flags r) msgCtrunc); auto).
  assert (N2 : has_bits (ar_flags r) msgCtrunc = false -> st2 = st1) by (unfold st2; by intros ->).
  assert (X2 : ends st2 = ends st)
    by (unfold st2; destruct (has_bits (ar_flags r) msgCtrunc); rewrite ?addError_ends; exact X1).
  pose proof (added_same max st st1 st2 s r S2 H1) as H2. assert (C2 : applicationComplete st2 = applicationComplete st)
    by (rewrite <- C1; apply S2).
  destruct eor; cbn [andb orb].
  2:{ exists st2. split; [done |]. split; [done |]. split; [done |]. split; [done |]. intros Hc. rewrite (N2 Hc).
      destruct (R1 Hc) as [-> ->]. done. }
  change (tooLong (set_complete st2 true)) with (tooLong st2).
  set (e := Some (Plain ErrMessageTooLong)). set (st3 := set_complete st2 true).
  destruct (tooLong st2) eqn:Ht.
  - exists (addError st3 e). split; [done |]. destruct (addError_same st3 e) as (E1 & E2 & _ & E4 & E5 & E6 & E7 & E8).
    split; [| split; [by rewrite E6 |]; split; [by rewrite addError_ends |]].
    { unfold added in *. rewrite E1, E2, E4, E5, E7, E8. exact H2. }
    intros Hc. rewrite E7. cbn [tooLong st3 set_complete]. rewrite Ht.
    unfold st3. rewrite (N2 Hc). destruct (R1 Hc) as [Hr Hqq]. unfold addError, e. cbn. by rewrite Hr.
  - exists st3. split; [done |]. split; [exact H2 |]. split; [done |]. split; [done |]. intros Hc.
    change (tooLong st3) with (tooLong st2). rewrite Ht. unfold st3. rewrite (N2 Hc). cbn. destruct (R1 Hc). by split.
Qed.

Lemma added_inv max st st' s r :
  buffer_inv max st -> (tooLong st = false -> len (buf st) < bufLen st) ->
  len (ar_data r) <= read_room st -> added max st st' s r ->
  buffer_inv max st' /\ (has_bits (ar_flags r) msgEOR = false -> has_room max st').
Proof.
  intros ((Hi1 & Hi2) & Hi3 & Hi4 & Hi5 & Hi6) Hlt Hd (E2 & E1 & E3 & _ & E4 & E5). pose proof (len_nonneg (ar_data r)).
  unfold read_room in Hd. unfold buffer_inv, has_room. destruct (tooLong st) eqn:Ht; cbn [orb] in E3.
  - destruct (E5 eq_refl) as [-> _]. rewrite E1, E2, E3. split; [| congruence]. split_and!; auto.
  - rewrite (proj2 (Z.ltb_lt _ _)) in Hd by auto. cbn [negb andb] in Hd.
    assert (Hl : len (buf st') = len (buf st) + len (ar_data r)) by (rewrite E1; apply len_app).
    destruct (E4 eq_refl) as [-> _]. rewrite E2. split; [split_and!; try lia |].
    + intros Htl. rewrite Htl in E3. symmetry in E3. apply andb_prop in E3 as [E3%Z.eqb_eq _]. done.
    + intros He Htl. rewrite Htl, He, andb_true_r in E3. symmetry in E3. apply Z.eqb_neq in E3. lia.
Qed.

(** One turn after an attempt. *)
Lemma message_turn_ok c max st s :
  buffer_inv max st -> has_room max st -> (tooLong st = false -> len (buf st) < bufLen st) ->
  len (ar_data (result s)) <= read_room st -> noting s = false -> latch_inv (term s) -> serving s = false ->
  exists st' s' stop, message_turn c max st s = Ret (st', s', stop) /\
    buffer_inv max st' /\
    (stop = false -> has_room max st' /\ notnil (ar_err (result s)) = false /\ immediate st' = immediate st) /\
    (immediate st' = immediate st \/ haveFirstFragment st' = false /\ notnil (ar_err (result s)) = false) /\
    quiet s' /\ term s' = term s.
Proof.
  intros Hi Hroom Hlt Hd Hn Hl Hsv. unfold message_turn, take_result.
  set (r := result s). set (s1 := set_result s no_result).
  assert (Hq : quiet s1) by (by apply quiet_intro).
  assert (Hstop : forall st', same_message st st' -> exists st0 s' stop, Ret (E:=error) (st', s1, true) = Ret (st0, s', stop) /\
    buffer_inv max st0 /\ (stop = false -> has_room max st0 /\ notnil (ar_err r) = false /\ immediate st0 = immediate st) /\
    (immediate st0 = immediate st \/ haveFirstFragment st0 = false /\ notnil (ar_err r) = false) /\
    quiet s' /\ term s' = term s).
  { intros st' Hs. exists st', s1, true. split; [done |]. split; [by apply (same_buffer_inv max st) |].
    split; [done |]. split; [left; apply Hs | done]. }
  destruct (ar_cut r); [apply Hstop; same_by |].
  destruct (notnil (ar_err r)) eqn:Hne; [apply Hstop; destruct (in_message st); same_by |].
  destruct (ar_record r).
  - destruct (readMsgNotification_ok c (set_complete st (applicationComplete st)) s1 Hq) as (st' & s' & b & -> & S & Q & T).
    next. exists st', s', (negb b). split; [done |]. destruct S as [S | (-> & Hf & note & ->)].
    + assert (S' : same_message st st') by exact S. split; [by apply (same_buffer_inv max st) |].
      split; [| split; [left; apply S' | done]]. intros _. split; [by apply (same_has_room max st) |].
      split; [done | apply S'].
    + split; [exact Hi |]. split; [done |]. split; [by right | done].
  - destruct (message_piece_ok max st s1 r) as (st' & -> & Had & _).
    destruct (added_inv max st st' s1 r Hi Hlt Hd Had) as [I R].
    do 3 eexists. split; [reflexivity |]. split; [done |].
    assert (Him : immediate st' = immediate st) by apply Had.
    split; [by intros He; split; [apply R | split] |]. split; [by left |]. split; [by apply quiet_intro | done].
Qed.

(** ** The callback and the poller *)
Lemma read_room_pos st : 1 <= read_room st.
Proof.
  unfold read_room. destruct (negb (tooLong st)); cbn [andb]; [| done].
  destruct (Z.ltb_spec (len (buf st)) (bufLen st)); [lia | done].
Qed.

(** What the calls keep, from a state that is quiet. *)
Definition called (max : Z) (st' : readMsgState) (s s' : recvState) (script rest : list event) : Prop :=
  buffer_inv max st' /\ quiet s' /\ latch_kept (term s) (term s') /\ exists used, script = used ++ rest.

Lemma message_callback_ok c max : 1 <= max -> forall fuel script st s,
  (length script < fuel)%nat -> buffer_inv max st -> has_room max st -> quiet s ->
  exists rest st' s' ok, message_callback fuel c max script st s = Ret (rest, st', s', ok) /\
    called max st' s s' script rest /\
    (immediate st = None -> immediate st' = None \/ ok = true /\ haveFirstFragment st' = false /\ (length rest < length script)%nat) /\
    (ok = false -> has_room max st' /\ nothing_ended (term s') /\ (waits_next rest \/ (length rest < length script)%nat)).
Proof.
  intros Hm. induction fuel as [| fuel IH]; intros script st s Hf Hi Hr [(Hn & Hres & Hl & _) Hsv]; [lia |].
  cbn [message_callback]. destruct (grow_buffer_ok max st Hm Hi Hr) as (Hi1 & Hlt1 & B1 & T1 & _ & _ & M1).
  set (st1 := grow_buffer max st) in *. assert (Hr1 : has_room max st1) by (unfold has_room; rewrite B1, T1; exact Hr).
  set (s0 := set_keepNotes s _).
  destruct (attempt_ok script (read_room st1) s0 (read_room_pos st1) Hl) as (used & rest & s1 & ok & E & -> & F & N & H).
  { intros Hc. change (noting s = true) in Hc. congruence. }
  rewrite E. next. assert (K : latch_kept (term s) (term s1)) by apply F.
  assert (V : serving s1 = false) by (rewrite <- Hsv; apply F).
  destruct ok; cbn [negb].
  2:{ destruct H as (R & W & P). exists rest, st1, s1, false. split; [done |]. split.
      - split; [done |]. split; [apply quiet_intro; auto; [by rewrite R | by eapply latch_kept_inv] |]. split; [done |]. by exists used.
      - split; [left; by rewrite M1 |]. intros _. split; [done |]. split; [done |]. destruct P as [P | P]; [right | by left].
        rewrite length_app. destruct used; [done | simpl; lia]. }
  destruct H as (L1 & _ & P1). rewrite <- T1 in Hlt1.
  destruct (message_turn_ok c max st1 s1 Hi1 Hr1 Hlt1 L1 N ltac:(by eapply latch_kept_inv) V)
    as (st2 & s2 & stop & -> & I2 & R2 & M2 & Q2 & T2). next. rewrite M1 in M2, R2.
  rewrite length_app in Hf.
  destruct stop.
  { exists rest, st2, s2, true. split; [done |]. split; [| split; [| done]].
    - split; [done |]. split; [done |]. rewrite T2. split; [done |]. by exists used.
    - intros Him. destruct M2 as [M2 | [M2 Hne]]; [left; congruence | right]. split; [done |]. split; [done |].
      rewrite length_app. destruct P1 as [P1 | P1]; [destruct used; [done | simpl; lia] | congruence]. }
  destruct (R2 eq_refl) as (Hr2 & Hne & Him2). destruct P1 as [P1 | P1]; [| congruence].
  destruct used as [| ev used]; [done |]. simpl in Hf.
  destruct (IH rest st2 s2 ltac:(lia) I2 Hr2 Q2) as (rest3 & st3 & s3 & ok & -> & (I3 & Q3 & K3 & u3 & ->) & M3 & H3).
  exists rest3, st3, s3, ok. split; [done |]. split.
  - split; [done |]. split; [done |]. rewrite T2 in K3. split; [by eapply latch_kept_trans |].
    exists (ev :: used ++ u3). cbn. by rewrite <- app_assoc.
  - split.
    { intros Him. destruct (M3 ltac:(congruence)) as [M | (M & M' & M'')]; [by left | right].
      split; [done |]. split; [done |]. rewrite !length_app in *. simpl. lia. }
    intros Hok. destruct (H3 Hok) as (R3 & W3 & P3). split; [done |]. split; [done |]. right.
    rewrite !length_app. simpl. lia.
Qed.

Lemma message_poll_ok c max : 1 <= max -> forall fuel script st s,
  (length script < fuel)%nat -> buffer_inv max st -> has_room max st -> quiet s -> immediate st = None ->
  match message_poll fuel c max script st s with
  | Ret (MParked st' s') => called max st' s s' script [] /\ nothing_ended (term s')
  | Ret (MDone (rest, st', s', _)) => called max st' s s' script rest /\
      (immediate st' = None \/ haveFirstFragment st' = false /\ (length rest < length script)%nat)
  | _ => False
  end.
Proof.
  intros Hm. induction fuel as [| fuel IH]; intros script st s Hf Hi Hr Hq Him; [lia |]. cbn [message_poll].
  destruct (message_callback_ok c max Hm (S (length script)) script st s ltac:(lia) Hi Hr Hq)
    as (rest & st1 & s1 & ok & -> & Hc & M & H). next. specialize (M Him).
  destruct ok; [split; [done |]; destruct M as [M | (_ & M & M')]; auto |].
  destruct M as [M | (M & _)]; [| done]. destruct (H eq_refl) as (R1 & W1 & P1). pose proof Hc as (I1 & Q1 & K1 & u1 & E1).
  destruct rest as [| [r | e] rest].
  - done.
  - destruct P1 as [[] | P1]. specialize (IH (Recv r :: rest) st1 s1 ltac:(lia) I1 R1 Q1 M).
    destruct (message_poll fuel c max (Recv r :: rest) st1 s1) as [[st2 s2 | [[[rest2 st2] s2] perr]] | |]; [| | done | done].
    + destruct IH as [(I2 & Q2 & K2 & u2 & E2) W2]. split; [| done]. split; [done |]. split; [done |].
      split; [by eapply latch_kept_trans |]. exists (u1 ++ u2). by rewrite E1, E2, app_assoc.
    + destruct IH as ((I2 & Q2 & K2 & u2 & E2) & M2). split.
      * split; [done |]. split; [done |].
        split; [by eapply latch_kept_trans |]. exists (u1 ++ u2). by rewrite E1, E2, app_assoc.
      * destruct M2 as [M2 | [M2 M2']]; [by left | right]. split; [done | lia].
  - split; [| by left]. split; [done |]. split; [done |]. split; [done |]. exists (u1 ++ [PollErr e]). by rewrite E1, <- app_assoc.
Qed.

Lemma message_Read_ok c max script st s :
  1 <= max -> buffer_inv max st -> has_room max st -> quiet s -> immediate st = None ->
  match message_Read c max script st s with
  | Ret (MParked st' s') => called max st' s s' script [] /\ nothing_ended (term s')
  | Ret (MDone (rest, st', s', _)) => called max st' s s' script rest /\
      (immediate st' = None \/ haveFirstFragment st' = false /\ (length rest < length script)%nat)
  | _ => False
  end.
Proof.
  intros Hm Hi Hr Hq Him. unfold message_Read.
  destruct script as [| [r | e] rest]; [by apply message_poll_ok; [| simpl; lia | ..] | by apply message_poll_ok; [| simpl; lia | ..] |].
  split; [| by left]. split; [done |]. split; [done |]. split; [apply latch_kept_refl; apply Hq |]. by exists [PollErr e].
Qed.

Lemma message_ends_ok c st s perr :
  quiet s -> let '(st', s', _) := message_ends c st s perr in
  same_message st st' /\ quiet s' /\ term s' = term s.
Proof.
  intros Hq. unfold message_ends, abortInterruptedNotification. pose proof (quiet_notes s Hq) as Hq'.
  destruct (notnil (cutNotification st)).
  { split; [| by split]. destruct (in_message st); [| same_by]. eapply same_trans; apply addError_same. }
  destruct (in_message st && partialDeliveryBoundary st); [split; [same_by | done] |].
  destruct (in_message st); [split; [same_by | done] |].
  destruct (notnil perr); (split; [same_by | done]).
Qed.

Lemma foldl_addError_same c notes : forall st,
  same_message st (foldl (fun st note => addError st (run_handler c note)) st notes).
Proof.
  induction notes as [| n ns IH]; intros st; cbn [foldl]; [auto |]. eapply same_trans; [apply addError_same | apply IH].
Qed.

Lemma readMsg_ok c max : 1 <= max -> forall fuel script handled st s,
  (length script < fuel)%nat -> buffer_inv max st -> has_room max st -> ready s ->
  match readMsg fuel c max script handled st s with
  | Ret (Parked s') => ready s' /\ latch_kept (term s) (term s') /\ nothing_ended (term s')
  | Ret (Done (rest, s', m)) => left_over s s' script rest /\ len (m_data m) <= max
  | _ => False
  end.
Proof.
  intros Hm. induction fuel as [| fuel IH]; intros script handled st s Hf Hi Hr Hs; [lia |]. cbn [readMsg].
  set (s1 := if serving s then stopServing s else s). set (st1 := start_pass st).
  assert (H1 : quiet s1 /\ term s1 = term s).
  { unfold s1, quiet. destruct (serving s) eqn:?; split_and!; auto using stopServing_ready. }
  destruct H1 as [Q1 T1].
  assert (Hdata : forall st', buffer_inv max st' -> len (buf st') <= max) by (intros st' ((? & ?) & _); lia).
  destruct (term_readEnd s1) as [e |].
  { split; [by apply left_over_here; [| apply Q1 |] |]. cbn [m_data message_of]. apply Hdata.
    apply (same_buffer_inv max st1); [apply addError_same | exact Hi]. }
  pose proof (message_Read_ok c max script st1 s1 Hm Hi Hr Q1 eq_refl) as Hread.
  destruct (message_Read c max script st1 s1) as [[st2 s2 | [[[rest st2] s2] perr]] | |]; [| | done | done]; next.
  { destruct Hread as [(_ & [Q2 _] & K2 & _) W2]. by rewrite T1 in K2. }
  destruct Hread as [(I2 & Q2 & K2 & u2 & E2) M2]. rewrite T1 in K2.
  pose proof (message_ends_ok c st2 s2 perr Q2) as H3. destruct (message_ends c st2 s2 perr) as [[st3 s3] aborted].
  destruct H3 as (S3 & Q3 & T3). assert (I3 : buffer_inv max st3) by (by apply (same_buffer_inv max st2)).
  assert (L3 : left_over s s3 script rest) by (split; [apply Q3 |]; rewrite T3; split; [done |]; by exists u2).
  destruct (immediate st3) as [note |] eqn:Him.
  2:{ split; [done |]. cbn [m_data message_of]. apply Hdata. apply (same_buffer_inv max st3); [apply foldl_addError_same | done]. }
  destruct (run_handler c note) as [e |].
  { split; [done |]. cbn [m_data message_of]. apply Hdata. apply (same_buffer_inv max st3); [apply addError_same | done]. }
  destruct S3 as (_ & _ & _ & _ & F3 & _ & _ & M3). destruct M2 as [M2 | [M2 Hlt]]; [congruence |].
  assert (R3 : has_room max st3).
  { destruct I3 as (_ & _ & _ & _ & H0). destruct (H0 ltac:(congruence)) as [Hb _]. unfold has_room. rewrite Hb. intros _. change (0 < max). lia. }
  specialize (IH rest (handled ++ [note]) st3 s3 ltac:(lia) I3 R3 ltac:(apply Q3)).
  destruct (readMsg fuel c max rest (handled ++ [note]) st3 s3) as [[s4 | [[rest4 s4] m]] | |]; [| | done | done].
  - destruct IH as (R4 & K4 & W4). split; [done |]. split; [| done]. rewrite T3 in K4. by eapply latch_kept_trans.
  - destruct IH as [L4 D4]. split; [by eapply left_over_trans | done].
Qed.

Lemma initial_inv max : 1 <= max -> buffer_inv max (initial_state max) /\ has_room max (initial_state max).
Proof.
  intros Hm. unfold buffer_inv, has_room, chunk. cbn. change (len (@nil byte)) with 0. split; [| lia].
  split_and!; try lia; done.
Qed.

(** ReadMsg is safe whatever the kernel and the poller answer: it never
    panics, its loops end, it never returns more than max bytes, the
    assembly buffer stays within max and within eight times what has been
    read (2048 bytes at least), no record is left half read, a latched
    failure is kept, and it waits for more only while nothing has ended. *)
Theorem readMsg_safe c max script s (Hs : ready s) :
  match ReadMsg c max script s with
  | Ret (Parked s') => ready s' /\ latch_kept (term s) (term s') /\ nothing_ended (term s')
  | Ret (Done (rest, s', m)) => left_over s s' script rest /\ len (m_data m) <= Z.max 0 max
  | _ => False
  end /\
  (0 < max -> forall fuel rest st' s' ok, (length script < fuel)%nat -> quiet s ->
     message_callback fuel c max script (initial_state max) s = Ret (rest, st', s', ok) ->
     len (buf st') <= bufLen st' <= Z.min max (Z.max 2048 (8 * len (buf st')))).
Proof.
  split.
  - assert (Hnow : left_over s s script script /\ 0 <= Z.max 0 max).
    { split; [by apply left_over_here | lia]. }
    unfold ReadMsg. destruct (Z.leb_spec max 0) as [Hm | Hm]; [exact Hnow |].
    destruct (negb (opened c)); [exact Hnow |]. destruct (interleaved s); [exact Hnow |].
    destruct (initial_inv max ltac:(lia)) as [Hi Hr].
    pose proof (readMsg_ok c max ltac:(lia) (S (length script)) script [] (initial_state max) s ltac:(lia) Hi Hr Hs) as H.
    destruct (readMsg _ c max script [] (initial_state max) s) as [[s1 | [[rest s1] m]] | |]; [done | | done | done].
    destruct H as [H1 H2]. split; [done |]. cbn [m_data]. lia.
  - intros Hm fuel rest st' s' ok Hf Hq E. destruct (initial_inv max ltac:(lia)) as [Hi Hr].
    destruct (message_callback_ok c max ltac:(lia) fuel script _ s Hf Hi Hr Hq) as (rest0 & st0 & s0 & ok0 & E0 & (I & _) & _).
    rewrite E0 in E. injection E as <- <- <- <-. destruct I as ((? & ?) & _ & ? & _). unfold chunk in *. lia.
Qed.

(** ** A whole message *)

(** The length of the buffer for the next read, as a function of its length
    and the bytes in it: it doubles, from 2048, up to its size class and
    max. *)
Definition grown (max L t : Z) (tl : bool) : Z :=
  if negb tl && (t =? L) && (t <? max)
  then Z.min max (fst (getReadMsgBuffer (Z.min max (if L <? chunk then chunk else 2 * L)))) else L.

Definition room_for (max L t : Z) (tl : bool) : Z :=
  if negb tl && (t <? grown max L t tl) then grown max L t tl - t else NotificationMaxSize.

(** The bytes [m] of a message arrive in pieces without MSG_EOR that fit the
    room there is, with interrupted calls and waits in between; the indices
    are the buffer's length, the bytes in it and tooLong, before and after. *)
Inductive arriving (max : Z) : Z -> Z -> bool -> bytes -> list event -> Z -> Z -> bool -> Prop :=
| arriving_nil L t tl : arriving max L t tl [] [] L t tl
| arriving_piece L t tl p fl o m es L2 t2 tl2 :
    has_bits fl msgNotification = false -> has_bits fl msgEOR = false -> has_bits fl msgCtrunc = false ->
    1 <= len p <= room_for max L t tl ->
    let t' := if tl then t else t + len p in
    arriving max (grown max L t tl) t' (tl || (t' =? max)) m es L2 t2 tl2 ->
    arriving max L t tl (p ++ m) (Recv (ROk p fl o) :: es) L2 t2 tl2
| arriving_interrupted L t tl m es L2 t2 tl2 :
    arriving max L t tl m es L2 t2 tl2 -> arriving max L t tl m (Recv (RErr EINTR) :: es) L2 t2 tl2
| arriving_wait L t tl m es L2 t2 tl2 :
    arriving max (grown max L t tl) t tl m es L2 t2 tl2 ->
    arriving max L t tl m (Recv (RErr EAGAIN) :: es) L2 t2 tl2.

(** The SCTP_RCVINFO of the first piece. *)
Fixpoint first_rcv (es : list event) : RcvInfo :=
  match es with
  | Recv (ROk _ fl o) :: _ => mi_Rcv (foldl absorb (init_info fl) (cmsgs (take (Z.to_nat rcvCmsgSpace) o)))
  | _ :: es => first_rcv es
  | [] => zeroRcvInfo
  end.

Lemma grow_buffer_grown max st :
  len (buf st) <= bufLen st ->
  let st' := grow_buffer max st in
  bufLen st' = grown max (bufLen st) (len (buf st)) (tooLong st) /\
  first st' = first st /\ resultErr st' = resultErr st /\ queued st' = queued st /\
  ends st' = ends st.
Proof.
  intros Hl. unfold grow_buffer, grown. destruct (negb (tooLong st)); cbn [andb]; [| done].
  destruct (Z.eqb_spec (len (buf st)) (bufLen st)) as [E |]; cbn [andb]; [| done].
  destruct (Z.ltb_spec (len (buf st)) max) as [Hm |]; [| done]. rewrite E in *.
  set (g := if max - _ <? _ then _ else _).
  assert (Hg : bufLen st + g = Z.min max (if bufLen st <? chunk then chunk else 2 * bufLen st)).
  { unfold g. destruct (Z.ltb_spec (bufLen st) chunk);
      (match goal with |- context [max - ?x <? ?y] => destruct (Z.ltb_spec (max - x) y) end); lia. }
  rewrite Hg. destruct (getReadMsgBuffer _) as [n k]. cbn. split; [| done].
  destruct (Z.ltb_spec max n); lia.
Qed.

Lemma read_room_grown max st :
  len (buf st) <= bufLen st ->
  read_room (grow_buffer max st) = room_for max (bufLen st) (len (buf st)) (tooLong st).
Proof.
  intros Hl. destruct (grow_buffer_grown max st Hl) as (E & _). unfold read_room, room_for. rewrite E.
  assert (Hb : buf (grow_buffer max st) = buf st /\ tooLong (grow_buffer max st) = tooLong st).
  { unfold grow_buffer. destruct (_ && _); [| done]. by destruct (getReadMsgBuffer _). }
  by destruct Hb as [-> ->].
Qed.

(** What recvmsg answers, through attempt. *)
Lemma attempt_data p fl o es blen s :
  noting s = false -> has_bits fl msgNotification = false -> 1 <= len p <= blen -> 
  attempt (Recv (ROk p fl o) :: es) blen s =
  Ret (es, set_result (set_control s (take (Z.to_nat rcvCmsgSpace) o))
         {| ar_data := p; ar_flags := fl; ar_err := None; ar_record := ar_record (result s); ar_cut := ar_cut (result s) |}, true).
Proof.
  intros Hn Hf Hp. cbn [attempt]. rewrite Hn. unfold attempt_turn. rewrite (proj2 (Z.eqb_neq _ _)) by lia.
  rewrite (take_ge p) by (unfold len in Hp; lia). rewrite Hf. next. unfold not_piece. cbn [noting set_control term notnil].
  rewrite Hn, (proj2 (Z.eqb_neq _ _)) by lia. cbn [notnil]. by destruct (term s).
Qed.

Lemma attempt_EINTR es blen s : 1 <= blen -> attempt (Recv (RErr EINTR) :: es) blen s = attempt es blen s.
Proof.
  intros Hb. cbn [attempt]. unfold attempt_turn.
  rewrite (proj2 (Z.eqb_neq (if noting s then NotificationMaxSize else blen) 0)) by (destruct (noting s); [done | lia]). done.
Qed.

Lemma attempt_EAGAIN es blen s :
  1 <= blen -> noting s = false -> nothing_ended (term s) ->
  attempt (Recv (RErr EAGAIN) :: es) blen s = Ret (es, s, false).
Proof.
  intros Hb Hn Hw. cbn [attempt]. rewrite Hn. unfold attempt_turn. rewrite (proj2 (Z.eqb_neq _ _)) by lia. next.
  unfold not_piece. rewrite Hn. cbn [notnil errno].
  destruct (term s) as [t |] eqn:Ht; [| done]. destruct (Hw t eq_refl) as (He & Hf & Hd).
  assert (E : readErrorLocked t (Some (Plain (Errno EAGAIN))) = (t, Some (Plain (Errno EAGAIN)))).
  { destruct t. cbn in *. by subst. }
  change (errno EAGAIN) with (Some (Plain (Errno EAGAIN))). rewrite E. cbn. by rewrite set_term_same.
Qed.

(** raw.Read in the middle of a callback. *)
Definition poll_from (f1 f2 : nat) (c : conn) (max : Z) (script : list event) (st : readMsgState) (s : recvState)
    : out error (msg_waiting (list event * readMsgState * recvState * option error)) :=
  '(script, st, s, ok) ← message_callback f1 c max script st s;
  if (ok : bool) then Ret (MDone (script, st, s, None))
  else match script with
       | PollErr e :: rest => Ret (MDone (rest, st, s, Some e))
       | Recv _ :: _ => message_poll f2 c max script st s
       | [] => Ret (MParked st s)
       end.

Lemma message_poll_from fuel c max script st s :
  message_poll (S fuel) c max script st s = poll_from (S (length script)) fuel c max script st s.
Proof. reflexivity. Qed.

(** A turn with a piece of the message. *)
Lemma callback_piece f c max p fl o es st s :
  1 <= max -> buffer_inv max st -> has_room max st -> quiet s ->
  has_bits fl msgNotification = false -> 
  1 <= len p <= room_for max (bufLen st) (len (buf st)) (tooLong st) ->
  let eor := has_bits fl msgEOR in
  exists st' s',
    message_callback (S f) c max (Recv (ROk p fl o) :: es) st s =
    (if eor then Ret (es, st', s', true) else message_callback f c max es st' s') /\
    quiet s' /\ term s' = term s /\ partial s' = negb eor /\
    buffer_inv max st' /\ (eor = false -> has_room max st') /\
    bufLen st' = grown max (bufLen st) (len (buf st)) (tooLong st) /\
    buf st' = (if tooLong st then buf st else buf st ++ p) /\
    tooLong st' = tooLong st || (len (buf st') =? max) && negb eor /\
    haveFirstFragment st' = true /\
    first st' = (if haveFirstFragment st then first st
                 else mi_Rcv (foldl absorb (init_info fl) (cmsgs (take (Z.to_nat rcvCmsgSpace) o)))) /\
    applicationComplete st' = eor || applicationComplete st /\
    immediate st' = immediate st /\ ends st' = ends st /\
    (has_bits fl msgCtrunc = false -> queued st' = queued st /\
       resultErr st' = resultErr (if eor && tooLong st' then addError st (Some (Plain ErrMessageTooLong)) else st)) /\
    subs s' = subs s.
Proof.
  intros Hm Hi Hr Hq Hf Hp eor. pose proof Hi as ((Hlen & _) & _ & _ & _ & H0).
  destruct (grow_buffer_ok max st Hm Hi Hr) as (Hi1 & Hlt1 & B1 & T1 & F1 & C1 & M1).
  destruct (grow_buffer_grown max st Hlen) as (L1 & R1 & E1 & Q1 & X1).
  rewrite <- read_room_grown in Hp by done. cbn [message_callback]. set (st1 := grow_buffer max st) in *.
  destruct Hq as [(Hn & Hres & Hl & _) Hsv]. rewrite (attempt_data p fl o es (read_room st1) (set_keepNotes s (keeps_notes c st1)) Hn Hf Hp). next.
  unfold message_turn, take_result. cbn [ar_cut ar_err ar_record result set_result set_control set_keepNotes notnil].
  rewrite Hres. cbn [ar_cut ar_record no_result negb].
  set (r := {| ar_data := p; ar_flags := fl; ar_err := None; ar_record := false; ar_cut := false |}).
  set (s1 := set_result _ no_result).
  destruct (message_piece_ok max st1 s1 r) as (st2 & -> & Had & C2 & X2 & R2). next.
  rewrite <- T1 in Hlt1. destruct (added_inv max st1 st2 s1 r Hi1 Hlt1 ltac:(cbn; lia) Had) as [I2 Hr2].
  destruct Had as (A1 & A2 & A3 & A4 & A5 & A6). rewrite T1, B1 in *. rewrite M1, F1, R1 in *.
  exists st2, (set_partial s1 (negb eor)). split; [done |].
  assert (Hfst : haveFirstFragment st2 = true /\
    first st2 = if haveFirstFragment st then first st else piece_rcv s1 r).
  { destruct (tooLong st) eqn:Htl; [| by apply A5]. destruct (A6 eq_refl) as [-> ->].
    destruct (haveFirstFragment st) eqn:Hff; [done |]. destruct (H0 eq_refl). congruence. }
  destruct Hfst as [Hf2 Hf3]. split; [by apply quiet_intro |].
  split; [done |]. split; [done |]. split; [done |]. split; [done |]. split; [congruence |].
  split; [exact A2 |]. split; [exact A3 |]. split; [done |]. split; [exact Hf3 |]. split; [by rewrite C2, C1 |].
  split; [done |]. split; [congruence |]. split; [| done]. intros Hc. destruct (R2 Hc) as [-> ->]. split; [done |].
  destruct (eor && tooLong st2) eqn:Hx; fold eor; cbn [ar_flags r]; fold eor; rewrite Hx; [| done].
  unfold addError. cbn. by rewrite E1.
Qed.

(** The state after pieces of a message that has not ended. *)
Definition arrived (max : Z) (st st' : readMsgState) (s s' : recvState) (m : bytes) (es : list event) : Prop :=
  quiet s' /\ term s' = term s /\
  buffer_inv max st' /\ has_room max st' /\ buf st' = take (Z.to_nat max) (buf st ++ m) /\
  (tooLong st = true \/ max < len (buf st) + len m -> tooLong st' = true) /\
  haveFirstFragment st' = haveFirstFragment st || negb (bool_decide (m = [])) /\
  first st' = (if haveFirstFragment st || bool_decide (m = []) then first st else first_rcv es) /\
  applicationComplete st' = applicationComplete st /\
  immediate st' = immediate st /\ ends st' = ends st /\ queued st' = queued st /\
  resultErr st' = resultErr st /\ subs s' = subs s.

Lemma take_full (max : Z) (b m : bytes) : len b = max -> take (Z.to_nat max) (b ++ m) = b.
Proof. intros <-. unfold len. rewrite Nat2Z.id. by rewrite take_app_length. Qed.

Lemma buffer_whole max st : buffer_inv max st -> take (Z.to_nat max) (buf st) = buf st.
Proof. intros ((? & ?) & _). apply take_ge. unfold len in *. lia. Qed.

Lemma nonempty_not_nil (p m : bytes) : 1 <= len p -> bool_decide (p ++ m = []) = false.
Proof. intros H. apply bool_decide_eq_false_2. destruct p; [done | discriminate]. Qed.

(** The pieces already there make no difference to what more does. *)
Lemma arrived_more max st st1 st2 s s1 s2 p m fl o es :
  buffer_inv max st -> 1 <= len p -> term s1 = term s ->
  buf st1 = (if tooLong st then buf st else buf st ++ p) ->
  tooLong st1 = tooLong st || (len (buf st1) =? max) ->
  haveFirstFragment st1 = true ->
  first st1 = (if haveFirstFragment st then first st
               else mi_Rcv (foldl absorb (init_info fl) (cmsgs (take (Z.to_nat rcvCmsgSpace) o)))) ->
  applicationComplete st1 = applicationComplete st -> immediate st1 = immediate st ->
  ends st1 = ends st -> queued st1 = queued st -> resultErr st1 = resultErr st -> subs s1 = subs s ->
  arrived max st1 st2 s1 s2 m es -> arrived max st st2 s s2 (p ++ m) (Recv (ROk p fl o) :: es).
Proof.
  intros Hi Hp Ht Hb Htl Hf Hfst Hc Him Hx Hq Hr Hsu (A1 & A2 & A3 & A4 & A5 & A6 & A7 & A8 & A9 & A10 & A11 & A12 & A13 & A14).
  unfold arrived. rewrite nonempty_not_nil by done. rewrite Hf in A7, A8. cbn [orb] in A7, A8.
  pose proof Hi as (_ & _ & _ & Hmax & _). rewrite orb_false_r, orb_true_r. cbn [negb].
  split; [done |]. split; [congruence |]. split; [done |]. split; [done |]. split.
  { rewrite A5, Hb. destruct (tooLong st); [by rewrite !take_full by auto | by rewrite <- app_assoc]. }
  split; [| split; [done |]; split; [by rewrite A8, Hfst |]; repeat (split; [congruence |]); congruence].
  intros Hlong. apply A6. rewrite Hb. rewrite Htl, Hb. destruct (tooLong st); [by left | right].
  destruct Hlong as [| Hlong]; [done |]. rewrite !len_app in *. lia.
Qed.

Lemma poll_arriving c max : 1 <= max -> forall L t tl m es L2 t2 tl2, arriving max L t tl m es L2 t2 tl2 ->
  forall r more f1 f2 st s,
  bufLen st = L -> len (buf st) = t -> tooLong st = tl -> buffer_inv max st -> has_room max st ->
  quiet s -> nothing_ended (term s) ->
  (length (es ++ Recv r :: more) < f1)%nat -> (length (es ++ Recv r :: more) <= f2)%nat ->
  exists f1' f2' st' s', poll_from f1 f2 c max (es ++ Recv r :: more) st s = poll_from f1' f2' c max (Recv r :: more) st' s' /\
    (length (Recv r :: more) < f1')%nat /\ (length (Recv r :: more) <= f2')%nat /\
    arrived max st st' s s' m es /\ bufLen st' = L2 /\ len (buf st') = t2 /\ tooLong st' = tl2.
Proof.
  intros Hm. induction 1 as [L t tl | L t tl p fl o m es L2 t2 tl2 Hn He Hc Hp t' Ha IH | L t tl m es L2 t2 tl2 Ha IH
                            | L t tl m es L2 t2 tl2 Ha IH];
    intros r more f1 f2 st s <- <- <- Hi Hr Hq Hw Hf1 Hf2; cbn [app] in *;
    (destruct f1 as [| f1]; [lia |]).
  - exists (S f1), f2, st, s. split; [done |]. split; [done |]. split; [done |]. split; [| done].
    unfold arrived. rewrite app_nil_r, buffer_whole by done. rewrite orb_false_r, orb_true_r.
    split_and!; auto. intros [? | H]; [done |]. destruct Hi as ((? & ?) & _). change (len (@nil byte)) with 0 in H. lia.
  - destruct (callback_piece f1 c max p fl o (es ++ Recv r :: more) st s Hm Hi Hr Hq Hn Hp)
      as (st' & s' & E & Q' & T' & P' & I' & R1' & L' & B' & TL' & F' & R' & C' & M' & X' & E' & Su').
    rewrite He in *. cbn [negb orb andb] in *. rewrite andb_true_r in TL'.
    assert (Hlen : len (buf st') = t') by (rewrite B'; unfold t'; destruct (tooLong st); [done | by rewrite len_app]).
    destruct (IH r more f1 f2 st' s' L' Hlen) as (f1' & f2' & st2 & s2 & E2 & G1 & G2 & H2 & H3); auto;
      [by rewrite TL', Hlen | by rewrite T' | simpl in Hf1; lia | simpl in Hf2; lia |].
    exists f1', f2', st2, s2. split; [rewrite <- E2; unfold poll_from in *; by rewrite E |].
    split; [done |]. split; [done |]. split; [| done]. destruct (E' Hc) as [Eq Er].
    apply (arrived_more max st st' st2 s s'); auto; lia.
  - destruct (IH r more (S f1) f2 st s) as (f1' & f2' & st' & s' & E & H); auto; try (simpl in *; lia).
    exists f1', f2', st', s'. split; [| exact H]. rewrite <- E. unfold poll_from. cbn [message_callback].
    by rewrite attempt_EINTR by apply read_room_pos.
  - pose proof Hq as [(Hn & _) _]. pose proof Hi as ((Hlen & _) & _).
    destruct (grow_buffer_ok max st Hm Hi Hr) as (Hi1 & Hlt1 & B1 & T1 & F1 & C1 & M1).
    destruct (grow_buffer_grown max st Hlen) as (L1 & R1 & E1 & Q1 & X1).
    assert (Hes : exists r' es', es ++ Recv r :: more = Recv r' :: es') by (inversion Ha; subst; eauto).
    destruct Hes as (r' & es' & Hes). set (s1 := set_keepNotes s (keeps_notes c (grow_buffer max st))).
    destruct f2 as [| f2]; [simpl in Hf2; lia |].
    destruct (IH r more (S (length (es ++ Recv r :: more))) f2 (grow_buffer max st) s1)
      as (f1' & f2' & st' & s' & E & G1 & G2 & H2 & H3); auto;
      [by rewrite B1 | by unfold has_room; rewrite B1, T1 | simpl in Hf2; lia |].
    exists f1', f2', st', s'. split; [| split; [done |]; split; [done |]; split; [| done]].
    + rewrite <- E, <- message_poll_from. unfold poll_from. cbn [message_callback]. fold s1.
      rewrite (attempt_EAGAIN (es ++ Recv r :: more) (read_room (grow_buffer max st)) s1 (read_room_pos _) Hn Hw).
      next. cbn [negb]. by rewrite Hes.
    + unfold arrived in *. by rewrite B1, T1, F1, R1, C1, M1, X1, Q1, E1 in H2.
Qed.

(** ** From the callback to ReadMsg *)
Lemma addError_queued st e : queued (addError st e) = queued st.
Proof. unfold addError. by repeat case_match. Qed.

Lemma message_ends_queued c st s perr : queued (fst (fst (message_ends c st s perr))) = queued st.
Proof.
  unfold message_ends, abortInterruptedNotification. cbn zeta.
  repeat case_match; cbn [fst]; rewrite ?addError_queued; done.
Qed.

Lemma nothing_ended_reads s : nothing_ended (term s) -> term_readEnd s = None.
Proof.
  intros H. unfold term_readEnd, readEnd. destruct (term s) as [t |]; [| done].
  destruct (H t eq_refl) as (-> & _ & ->). by destruct (drained t).
Qed.

(** The reads drop a notification being served. *)
Definition unserved (s : recvState) : recvState := if serving s then stopServing s else s.

Lemma unserved_quiet s : ready s -> quiet (unserved s).
Proof. unfold unserved, quiet. intros. destruct (serving s) eqn:?; split; auto using stopServing_ready. Qed.

Lemma unserved_term s : term (unserved s) = term s.
Proof. unfold unserved. by destruct (serving s). Qed.

Lemma unserved_subs s : subs (unserved s) = subs s.
Proof. unfold unserved. by destruct (serving s). Qed.

(** What ReadMsg returns, from what its raw.Read left. *)
Definition result_of (c : conn) (st : readMsgState) (aborted : bool) : message := {|
  m_data := buf st; m_info := first st; m_err := readError c (resultErr st); m_notes := []; m_abort := aborted |}.

(** What the handlers of the queued notifications add. *)
Definition handled_all (c : conn) (st : readMsgState) : readMsgState :=
  foldl (fun st note => addError st (run_handler c note)) st (queued st).

Definition queued_result (c : conn) (st : readMsgState) (aborted : bool) : message := {|
  m_data := buf (handled_all c st); m_info := first (handled_all c st); m_err := readError c (resultErr (handled_all c st));
  m_notes := queued st; m_abort := aborted |}.

Lemma ReadMsg_poll_queued c max r more s rest st1 s1 perr :
  0 < max -> opened c = true -> interleaved s = false -> nothing_ended (term s) ->
  poll_from (S (S (length more))) (S (length more)) c max (Recv r :: more) (initial_state max) (unserved s) =
    Ret (MDone (rest, st1, s1, perr)) ->
  quiet s1 -> immediate st1 = None ->
  ReadMsg c max (Recv r :: more) s =
  let '(st2, s2, aborted) := message_ends c st1 s1 perr in Ret (Done (rest, s2, queued_result c st2 aborted)).
Proof.
  intros Hm Ho Hil Hw E Hq Him. unfold ReadMsg. destruct (Z.leb_spec max 0); [lia |]. rewrite Ho, Hil. cbn [negb].
  cbn [readMsg]. fold (unserved s). rewrite nothing_ended_reads by (by rewrite unserved_term).
  change (start_pass (initial_state max)) with (initial_state max).
  unfold message_Read. rewrite message_poll_from. cbn [length]. rewrite E. next.
  pose proof (message_ends_ok c st1 s1 perr Hq) as H1.
  destruct (message_ends c st1 s1 perr) as [[st2 s2] aborted]. destruct H1 as ((_ & _ & _ & _ & _ & _ & _ & M) & _).
  rewrite M, Him. done.
Qed.

Lemma ReadMsg_poll c max r more s rest st1 s1 perr :
  0 < max -> opened c = true -> interleaved s = false -> nothing_ended (term s) ->
  poll_from (S (S (length more))) (S (length more)) c max (Recv r :: more) (initial_state max) (unserved s) =
    Ret (MDone (rest, st1, s1, perr)) ->
  quiet s1 -> immediate st1 = None -> queued st1 = [] ->
  ReadMsg c max (Recv r :: more) s =
  let '(st2, s2, aborted) := message_ends c st1 s1 perr in Ret (Done (rest, s2, result_of c st2 aborted)).
Proof.
  intros Hm Ho Hil Hw E Hq Him Hqu. rewrite (ReadMsg_poll_queued c max r more s rest st1 s1 perr) by done.
  pose proof (message_ends_queued c st1 s1 perr) as H2. destruct (message_ends c st1 s1 perr) as [[st2 s2] aborted]. cbn [fst] in H2.
  unfold queued_result, handled_all. by rewrite H2, Hqu.
Qed.

(** From the start of a read, through pieces of a message. *)
Lemma ReadMsg_arriving c max m es L t tl r more s :
  0 < max -> ready s -> nothing_ended (term s) ->
  arriving max (Z.min 256 max) 0 false m es L t tl ->
  exists f1 f2 st s1,
    poll_from (S (length (es ++ Recv r :: more))) (length (es ++ Recv r :: more)) c max (es ++ Recv r :: more)
      (initial_state max) (unserved s) = poll_from (S f1) f2 c max (Recv r :: more) st s1 /\
    (length more < f1)%nat /\ (length (Recv r :: more) <= f2)%nat /\
    arrived max (initial_state max) st (unserved s) s1 m es /\ bufLen st = L /\ len (buf st) = t /\ tooLong st = tl.
Proof.
  intros Hm Hs Hw Ha. destruct (initial_inv max ltac:(lia)) as [Hi Hr].
  destruct (poll_arriving c max ltac:(lia) _ _ _ _ _ _ _ _ Ha r more (S (length (es ++ Recv r :: more)))
              (length (es ++ Recv r :: more)) (initial_state max) (unserved s) eq_refl eq_refl eq_refl Hi Hr
              (unserved_quiet s Hs) ltac:(by rewrite unserved_term) ltac:(lia) ltac:(lia))
    as (f1 & f2 & st & s1 & E & G1 & G2 & H). simpl in G1. destruct f1 as [| f1]; [lia |].
  exists f1, f2, st, s1. split; [done |]. split; [lia |]. done.
Qed.

Lemma arriving_head max L t tl m es L2 t2 tl2 r more :
  arriving max L t tl m es L2 t2 tl2 -> exists r' more', es ++ Recv r :: more = Recv r' :: more'.
Proof. inversion 1; subst; cbn [app]; eauto. Qed.

Lemma first_rcv_arriving max L t tl m es L2 t2 tl2 x :
  arriving max L t tl m es L2 t2 tl2 ->
  first_rcv (es ++ x) = if bool_decide (m = []) then first_rcv x else first_rcv es.
Proof.
  induction 1 as [| L t tl p fl o m es L2 t2 tl2 _ _ _ Hp t' _ _ | L t tl m es L2 t2 tl2 _ IH | L t tl m es L2 t2 tl2 _ IH];
    cbn [app first_rcv]; [done | | done | done]. by rewrite nonempty_not_nil by lia.
Qed.

(** C17 ReadMsg returns one whole message, however the kernel splits it and
    whatever calls are interrupted or wait: its bytes in order, with the
    SCTP_RCVINFO of the first piece; a message longer than max is read to
    its end and returned cut to max bytes with ErrMessageTooLong; in both
    cases the next read starts at the next message, and nothing aborts the
    connection. *)
Theorem readMsg_message c max m es L t tl p fl o rest s
    (Hm : 0 < max) (Ho : opened c = true) (Hil : interleaved s = false) (Hs : ready s)
    (Hw : nothing_ended (term s)) (Ha : arriving max (Z.min 256 max) 0 false m es L t tl)
    (Hn : has_bits fl msgNotification = false) (He : has_bits fl msgEOR = true) (Hc : has_bits fl msgCtrunc = false)
    (Hp : 1 <= len p <= room_for max L t tl) :
  exists s', ready s' /\ term s' = term s /\
    ReadMsg c max (es ++ Recv (ROk p fl o) :: rest) s =
    Ret (Done (rest, s', {|
      m_data := take (Z.to_nat max) (m ++ p); m_info := first_rcv (es ++ [Recv (ROk p fl o)]);
      m_err := readError c (if max <? len (m ++ p) then Some (Plain ErrMessageTooLong) else None);
      m_notes := []; m_abort := false |})).
Proof.
  destruct (ReadMsg_arriving c max m es L t tl (ROk p fl o) rest s Hm Hs Hw Ha)
    as (f1 & f2 & st & s1 & E & _ & _ & (Q & T & I & R & B & TL & F & Fst & C & Im & X & Qu & Er & Su) & <- & <- & <-).
  destruct (callback_piece f1 c max p fl o rest st s1 ltac:(lia) I R Q Hn Hp)
    as (st' & s' & E' & Q' & T' & _ & I' & _ & L' & B' & TL' & F' & R' & C' & M' & X' & Er' & _).
  rewrite He in *. unfold poll_from at 2 in E. rewrite E' in E. destruct (Er' Hc) as [Eq Err]. cbn [negb orb andb] in *.
  rewrite andb_false_r, orb_false_r in TL'. cbn [buf initial_state app resultErr haveFirstFragment first orb] in *.
  assert (Hdata : buf st' = take (Z.to_nat max) (m ++ p) /\ tooLong st' = (max <? len (m ++ p))).
  { rewrite B', TL', len_app. pose proof I as (_ & _ & _ & Hmax & _). pose proof I' as ((I1 & I2) & _).
    destruct (tooLong st) eqn:Htl.
    - specialize (Hmax eq_refl). rewrite B, len_take in Hmax. split; [| symmetry; apply Z.ltb_lt; lia].
      rewrite B. rewrite take_app_le; [done |]. unfold len in Hmax. lia.
    - assert (Hle : len m <= max). { destruct (Z.le_gt_cases (len m) max); [done |]. by discriminate TL; right; change (len (@nil byte)) with 0; lia. }
      rewrite B, take_ge in B' |- * by (unfold len in Hle; lia). rewrite B', len_app in I1.
      split; [| symmetry; apply Z.ltb_ge; lia]. rewrite take_ge; [done |]. unfold len in *. rewrite length_app. lia. }
  destruct Hdata as [D1 D2].
  destruct (arriving_head _ _ _ _ _ _ _ _ _ (ROk p fl o) rest Ha) as (r' & more' & Hsc). rewrite Hsc in *.
  rewrite (ReadMsg_poll c max r' more' s rest st' s' None Hm Ho Hil Hw E Q' ltac:(by rewrite M', Im) ltac:(by rewrite Eq, Qu)).
  unfold message_ends, in_message. assert (X2 : ends st' = (None, false, false)) by (by rewrite X', X). injection X2 as -> _ _.
  rewrite F', C'. cbn [notnil negb andb].
  exists s'. split; [apply Q' |]. split; [rewrite T', T; apply unserved_term |].
  assert (Hfst : first st' = first_rcv (es ++ [Recv (ROk p fl o)])).
  { rewrite R', F, Fst, (first_rcv_arriving _ _ _ _ _ _ _ _ _ [Recv (ROk p fl o)] Ha). by destruct (bool_decide (m = [])). }
  assert (Herr : resultErr st' = if max <? len (m ++ p) then Some (Plain ErrMessageTooLong) else None).
  { rewrite Err, D2. destruct (max <? len (m ++ p)); [unfold addError; cbn |]; by rewrite Er. }
  unfold result_of. by rewrite D1, Hfst, Herr.
Qed.

(** ** A message that does not end *)

(** What stops a message in progress: an error of recvmsg, the end of the
    stream, or a wait that fails; and what is left of the script. *)
Inductive stopped_by : list event -> list event -> Prop :=
| stop_error e rest : e <> EINTR -> e <> EAGAIN -> stopped_by (Recv (RErr e) :: rest) rest
| stop_stream fl o rest : has_bits fl msgNotification = false -> stopped_by (Recv (ROk [] fl o) :: rest) rest
| stop_wait e rest : stopped_by (Recv (RErr EAGAIN) :: PollErr e :: rest) rest.

Lemma readErrorLocked_stop t e :
  term_inv t -> e <> Errno EAGAIN ->
  exists t' e', readErrorLocked t (Some (Plain e)) = (t', Some e') /\ err_is (Some e') (Errno EAGAIN) = false.
Proof.
  intros Hi He. destruct (readErrorLocked_cases t (Some (Plain e))) as [(e1 & t1 & E & Ht & _) | (_ & E & _)].
  - pose proof (readErrorLocked_kept t (Some (Plain e)) Hi) as (_ & _ & _ & _ & [Hl _]). rewrite E in *.
    exists t1, e1. split; [done |]. cbn in Hl. apply Hl in Ht as [-> | [-> | [-> | ->]]]; done.
  - rewrite E. destruct (ended t && _); do 2 eexists; (split; [reflexivity |]); [done |].
    by apply bool_decide_eq_false_2.
Qed.

(** A result that carries no bytes and is not EAGAIN ends the attempt. *)
Lemma not_piece_end s fl err e :
  noting s = false -> latch_inv (term s) -> e <> Errno EAGAIN ->
  (if notnil err then err else Some (Plain EOF)) = Some (Plain e) ->
  exists o e', latch_kept (term s) o /\ not_piece s [] fl err = Stop (set_result (set_term s o)
    {| ar_data := []; ar_flags := fl; ar_err := Some e'; ar_record := ar_record (result s); ar_cut := ar_cut (result s) |}).
Proof.
  intros Hn Hi He Herr. unfold not_piece. rewrite Hn. change (len (@nil byte) =? 0) with true. cbv iota. rewrite Herr.
  cbn [notnil]. destruct (term s) as [t |] eqn:Ht.
  - destruct (readErrorLocked_stop t e (Hi t eq_refl) He) as (t' & e' & E & Ha).
    pose proof (readErrorLocked_kept t (Some (Plain e)) (Hi t eq_refl)) as Hk. rewrite E in *. rewrite Ha.
    exists (Some t'), e'. by split.
  - assert (Ha : err_is (Some (Plain e)) (Errno EAGAIN) = false) by (by apply bool_decide_eq_false_2).
    rewrite Ha. exists None, (Plain e). split; [done |]. by rewrite set_term_same.
Qed.

Lemma attempt_stopped r rest blen s :
  (exists e, r = RErr e /\ e <> EINTR /\ e <> EAGAIN) \/
  (exists fl o, r = ROk [] fl o /\ has_bits fl msgNotification = false) ->
  1 <= blen -> noting s = false -> latch_inv (term s) ->
  exists o e' oob fl, latch_kept (term s) o /\
    attempt (Recv r :: rest) blen s = Ret (rest, set_result (set_term (set_control s oob) o)
      {| ar_data := []; ar_flags := fl; ar_err := Some e'; ar_record := ar_record (result s); ar_cut := ar_cut (result s) |}, true).
Proof.
  intros Hr Hb Hn Hi. cbn [attempt]. rewrite Hn. unfold attempt_turn. rewrite (proj2 (Z.eqb_neq _ _)) by lia.
  destruct Hr as [(e & -> & H1 & H2) | (fl & o & -> & Hf)].
  - rewrite (proj2 (Z.eqb_neq _ _)) by done. next.
    destruct (not_piece_end s 0 (errno e) (Errno e) Hn Hi ltac:(congruence) eq_refl) as (o & e' & Hk & ->).
    exists o, e', (control s), 0. split; [done |]. by destruct s.
  - rewrite take_nil, Hf. next. set (s1 := set_control s _).
    destruct (not_piece_end s1 fl None EOF Hn Hi ltac:(done) eq_refl) as (o' & e' & Hk & ->).
    exists o', e', (take (Z.to_nat rcvCmsgSpace) o), fl. by split.
Qed.

(** What stops a message leaves of its state. *)
Definition stopped (st st' : readMsgState) : Prop :=
  buf st' = buf st /\ first st' = first st /\ in_message st' = in_message st /\ ends st' = ends st /\
  resultErr st' = resultErr st /\ queued st' = queued st /\ immediate st' = immediate st.

Lemma poll_stopped c max f1 f2 more rest st s :
  1 <= max -> stopped_by more rest -> buffer_inv max st -> has_room max st -> quiet s ->
  nothing_ended (term s) -> in_message st = true ->
  exists st' s' perr, poll_from (S f1) f2 c max more st s = Ret (MDone (rest, st', s', perr)) /\
    quiet s' /\ latch_kept (term s) (term s') /\ stopped st st'.
Proof.
  intros Hm Hst Hi Hr Hq Hw Hin. pose proof Hi as ((Hlen & _) & _). pose proof Hq as [(Hn & Hres & Hl & _) Hsv].
  destruct (grow_buffer_ok max st Hm Hi Hr) as (_ & _ & B1 & _ & F1 & C1 & M1).
  destruct (grow_buffer_grown max st Hlen) as (_ & R1 & E1 & Q1 & X1).
  assert (Hin1 : in_message (grow_buffer max st) = true) by (unfold in_message; by rewrite F1, C1).
  assert (Hstop : forall e, stopped st (set_partialErr (grow_buffer max st) e)) by (intros e; by split_and!; rewrite ?Hin).
  unfold poll_from. cbn [message_callback]. set (st1 := grow_buffer max st) in *.
  set (s1 := set_keepNotes s (keeps_notes c st1)).
  assert (Hend : forall r, (exists e, r = RErr e /\ e <> EINTR /\ e <> EAGAIN) \/
      (exists fl o, r = ROk [] fl o /\ has_bits fl msgNotification = false) -> forall rest,
    exists st' s' perr, ('(script, st, s, ok) ←
        ('(script, s, ok) ← attempt (Recv r :: rest) (read_room st1) s1;
         if negb ok then Ret (script, st1, s, false) else
         '(st, s, stop) ← message_turn c max st1 s;
         if (stop : bool) then Ret (script, st, s, true) else message_callback f1 c max script st s);
       if (ok : bool) then Ret (MDone (script, st, s, None))
       else match script with
            | PollErr e :: rest => Ret (MDone (rest, st, s, Some e))
            | Recv _ :: _ => message_poll f2 c max script st s
            | [] => Ret (MParked st s)
            end) = Ret (MDone (rest, st', s', perr)) /\
      quiet s' /\ latch_kept (term s) (term s') /\ stopped st st').
  { intros r Hr0 rest0.
    destruct (attempt_stopped r rest0 (read_room st1) s1 Hr0 (read_room_pos st1) Hn Hl) as (o & e' & oob & fl & Hk & ->). next.
    cbn [negb]. unfold message_turn, take_result. cbn [ar_cut ar_err result set_result notnil]. change (result s1) with (result s).
    rewrite Hres. cbn [ar_cut no_result]. rewrite Hin1. next. do 3 eexists. split; [reflexivity |].
    split; [apply quiet_intro; try done; by eapply latch_kept_inv |]. split; [exact Hk | apply Hstop]. }
  inversion Hst as [e rest' He1 He2 | fl o rest' Hf | e rest']; subst.
  - apply Hend. left. eauto.
  - apply Hend. right. eauto.
  - rewrite (attempt_EAGAIN (PollErr e :: rest) (read_room st1) s1 (read_room_pos st1) Hn Hw). next. cbn [negb]. next.
    do 3 eexists. split; [reflexivity |]. split; [by apply quiet_intro |]. split; [by apply latch_kept_refl |].
    exact (Hstop (partialApplicationErr st1)).
Qed.

Lemma joinAbortCause_joined es aerr t :
  errors_Is (Joined es) t = true ->
  exists es', joinAbortCause (Some (Joined es)) aerr = Some (Joined es') /\ errors_Is (Joined es') t = true.
Proof.
  intros H. destruct (joinAbortCause_keeps _ aerr t H) as (e & E & He). unfold joinAbortCause, errors_Join in *.
  repeat case_match; simplify_eq; eauto.
Qed.

Lemma readError_joined c es t :
  errors_Is (Joined es) t = true ->
  exists e, readError c (Some (Joined es)) = Some e /\ errors_Is e t = true.
Proof. intros H. by eexists. Qed.

(** An error added to a result is found in it, whatever was there. *)
Definition finds (st : readMsgState) (t : plain) : Prop :=
  exists es, resultErr st = Some (Joined es) /\ errors_Is (Joined es) t = true.

Lemma addError_finds st es t : errors_Is (Joined es) t = true -> finds (addError st (Some (Joined es))) t.
Proof.
  intros H. unfold finds, addError. cbn -[errors_Is]. destruct (resultErr st) as [e |]; [| by exists es]. cbn -[errors_Is].
  exists [e; Joined es]. split; [done |]. change (errors_Is e t || (errors_Is (Joined es) t || false) = true). by rewrite H, orb_true_r.
Qed.

Lemma addError_keeps st e t : finds st t -> finds (addError st e) t.
Proof.
  intros (es & E & H). unfold addError. destruct e as [e |]; [| by exists es]. destruct (_ && _); [by exists es |].
  rewrite E. cbn -[errors_Is]. exists [Joined es; e]. split; [done |].
  change (errors_Is (Joined es) t || (errors_Is e t || false) = true). by rewrite H.
Qed.

Lemma handled_finds c st t : finds st t -> finds (handled_all c st) t.
Proof.
  unfold handled_all. generalize (queued st). intros q. revert st. induction q as [| n q IH]; intros st H; [done |]. cbn.
  apply IH. by apply addError_keeps.
Qed.

Lemma handled_same c st : same_message st (handled_all c st).
Proof.
  unfold handled_all. generalize (queued st). intros q. revert st. induction q as [| n q IH]; intros st; [apply same_refl |]. cbn.
  eapply same_trans; [apply addError_same | apply IH].
Qed.

Lemma finds_readError c st t : finds st t -> exists e, readError c (resultErr st) = Some e /\ errors_Is e t = true.
Proof. intros (es & -> & H). by apply readError_joined. Qed.

(** The abort of a message in progress. *)
Lemma message_ends_aborts c st s perr :
  in_message st = true -> cutNotification st = None -> partialDeliveryBoundary st = false ->
  exists st', message_ends c st s perr = (st', s, true) /\ same_message st st' /\ finds st' ErrMessageInterrupted /\
    queued st' = queued st.
Proof.
  intros Hin Hc Hb. unfold message_ends. rewrite Hin, Hc, Hb. cbn [notnil andb].
  set (cause := readEnded c _). unfold abortInterruptedMessage, abortInterrupted, errors_Join. cbn [omap list_omap id].
  set (es := Plain ErrMessageInterrupted :: _).
  destruct (joinAbortCause_joined es (abort_result c) ErrMessageInterrupted eq_refl) as (es' & -> & He).
  exists (addError st (Some (Joined es'))). split; [done |]. split; [apply addError_same |]. split; [by apply addError_finds | apply addError_queued].
Qed.

Lemma stopped_by_head more rest : stopped_by more rest -> exists r more', more = Recv r :: more'.
Proof. inversion 1; eauto. Qed.

(** C18 A message that cannot be read to its end is never passed off as a
    whole one: when, after some of its pieces, recvmsg fails, the stream
    ends, or the wait is cut by a deadline or a close, ReadMsg returns what
    it read with an error matching ErrMessageInterrupted and aborts the
    connection, so that its tail is not read as a message of its own. *)
Theorem readMsg_interrupted c max m es L t tl more rest s
    (Hm : 0 < max) (Ho : opened c = true) (Hil : interleaved s = false) (Hs : ready s)
    (Hw : nothing_ended (term s)) (Ha : arriving max (Z.min 256 max) 0 false m es L t tl)
    (Hne : m <> []) (Hst : stopped_by more rest) :
  exists s' e, ready s' /\ latch_kept (term s) (term s') /\ errors_Is e ErrMessageInterrupted = true /\
    ReadMsg c max (es ++ more) s =
    Ret (Done (rest, s', {|
      m_data := take (Z.to_nat max) m; m_info := first_rcv es; m_err := Some e;
      m_notes := []; m_abort := true |})).
Proof.
  destruct (stopped_by_head more rest Hst) as (r & more' & Hmore). rewrite Hmore.
  destruct (ReadMsg_arriving c max m es L t tl r more' s Hm Hs Hw Ha)
    as (f1 & f2 & st & s1 & E & _ & _ & (Q & T & I & R & B & TL & F & Fst & C & Im & X & Qu & Er & Su) & _).
  rewrite bool_decide_eq_false_2 in F, Fst by done.
  rewrite unserved_term in T. rewrite <- Hmore in E.
  destruct (poll_stopped c max f1 f2 more rest st s1 ltac:(lia) Hst I R Q ltac:(by rewrite T))
    as (st' & s' & perr & E' & Q' & K' & B' & Fst' & Hin' & X' & Er' & Qu' & Im').
  { unfold in_message. by rewrite F, C. }
  rewrite E', Hmore in E. destruct (arriving_head _ _ _ _ _ _ _ _ _ r more' Ha) as (r2 & more2 & Hsc). rewrite Hsc in *.
  rewrite (ReadMsg_poll c max r2 more2 s rest st' s' perr Hm Ho Hil Hw E Q' ltac:(by rewrite Im', Im) ltac:(by rewrite Qu', Qu)).
  assert (X2 : ends st' = (None, false, false)) by (by rewrite X', X). injection X2 as X2 X3 _.
  destruct (message_ends_aborts c st' s' perr ltac:(rewrite Hin'; unfold in_message; by rewrite F, C) X2 X3)
    as (st2 & -> & (B2 & _ & _ & F2 & _) & Hf & _).
  destruct (finds_readError c st2 _ Hf) as (e & Herr & HeI).
  exists s', e. split; [apply Q' |]. split; [by rewrite <- T |]. split; [done |].
  unfold result_of. rewrite Herr, B2, B', B, F2, Fst', Fst. done.
Qed.

(** ** The record that ends a partial delivery *)

(** A whole record of that type parses when its struct fits. *)
Lemma parse_abandon r :
  whole r -> ntype r = EventPartialDelivery ->
  if sizePDAPIEvent <=? len r then exists n, ParseNotification r = Ret n else ParseNotification r = Err (Plain ErrShortNotification).
Proof.
  intros [Hl Hd] Hy. pose proof (ParseNotification_outcome r) as Ho. unfold too_long, too_short, bad_address, cut_short in Ho.
  rewrite Hd, Hy in Ho. change (fixed_size EventPartialDelivery) with sizePDAPIEvent in Ho.
  assert (Hu : u32 (len r) = len r) by (apply u32_small; split; [apply len_nonneg |]; assert (NotificationReassemblyLimit < 2 ^ 32) by done; lia). rewrite Hu in Ho.
  destruct (Z.leb_spec sizePDAPIEvent (len r)) as [Hf | Hf]; destruct (ParseNotification r) as [n | e |]; try done; [by eexists | exfalso | exfalso |].
  - destruct Ho as [[_ ?] | [[_ [? | [? | [_ [? | [? | [? _]]]]]]] | [_ (_ & _ & _ & ? & _)]]]; try lia; done.
  - destruct Ho as ((_ & ? & _) & _). lia.
  - destruct Ho as [[_ ?] | [[-> _] | [_ (_ & _ & _ & ? & _)]]]; [lia | done | done].
Qed.

(** What it leaves: the cause, and for a caller that receives such records
    the notification, if it parses. *)
Definition abandoned (st : readMsgState) (told : bool) (r : bytes) : readMsgState :=
  let st := set_partialErr st (Some errPartialDeliveryAborted) in
  if told then
    match ParseNotification r with
    | Ret n => set_boundary (set_queue st (queued st ++ [n]) (queuedBytes st) (queueFull st)) true
    | _ => set_boundary (addError st (Some (Plain ErrShortNotification))) false
    end
  else set_boundary st true.

Lemma cut_read c st s r :
  in_message st = true -> quiet s -> in_record s r -> whole r -> ntype r = EventPartialDelivery ->
  exists s', readMsgNotification c st s = Ret (abandoned st (kept s) r, s', false) /\ quiet s' /\ term s' = term s.
Proof.
  intros Hin Hq Hrec Hw Hy. destruct (in_record_whole s r Hrec Hw) as (Hf & _ & _ & Ht & Hty & _).
  unfold readMsgNotification, messageCut. rewrite Hin, Ht, Hty, Hy. cbn [negb]. next.
  unfold notification_cuts, dropRecord, abandoned, finish_note. cbn [kept set_partial notes]. rewrite Hf.
  destruct (kept s); next; [| by eexists; split; [reflexivity |]; split; [apply quiet_reset |]].
  pose proof (parse_abandon r Hw Hy) as Hp. destruct (sizePDAPIEvent <=? len r); [destruct Hp as [n ->] | rewrite Hp]; next;
    (eexists; split; [reflexivity |]; split; [by apply quiet_reset | done]).
Qed.

Lemma delivers_head flags oob cap r es rest :
  delivers flags oob cap r es -> exists x more, es ++ rest = Recv x :: more.
Proof. inversion 1; cbn [app]; eauto. Qed.

(** The caller receives the records that end a partial delivery. *)
Definition told_of (c : conn) (s : recvState) : bool := bool_decide (is_Some (handler c)) && has (subs s) EventPartialDelivery.

Lemma poll_abandoned c max f1 f2 flags oob r es rest st s :
  1 <= max -> buffer_inv max st -> has_room max st -> quiet s -> in_message st = true -> queueFull st = false ->
  delivers flags oob (room_for max (bufLen st) (len (buf st)) (tooLong st)) r es -> whole r ->
  ntype r = EventPartialDelivery ->
  exists st1 s', poll_from (S f1) f2 c max (es ++ rest) st s = Ret (MDone (rest, abandoned st1 (told_of c s) r, s', None)) /\
    quiet s' /\ term s' = term s /\ stopped st st1.
Proof.
  intros Hm I R Q Hin Hfull Hd Hr Hy. pose proof I as ((Hlen & _) & _). pose proof Q as [(Hn & Hres & Hl & _) Hsv].
  destruct (grow_buffer_ok max st Hm I R) as (_ & _ & B1 & _ & F1 & C1 & M1).
  destruct (grow_buffer_grown max st Hlen) as (_ & R1 & E1 & Q1 & X1).
  rewrite <- read_room_grown in Hd by done. unfold poll_from. cbn [message_callback].
  set (st1 := grow_buffer max st) in *. set (s2 := set_keepNotes s (keeps_notes c st1)) in *.
  destruct (attempt_record flags oob rest _ _ r es Hd s2 [] (read_room_pos st1)) as (s3 & E3 & a & ta & tya & ka & E4 & Hrec);
    [by change (noting s2) with (noting s); rewrite Hn.. |].
  rewrite E3. next. cbn [negb].
  destruct (in_record_whole s3 r Hrec Hr) as (_ & _ & _ & Hta & Htya & Hkept).
  assert (Hk : kept s3 = told_of c s).
  { rewrite Hkept, Hy. unfold wanted, told_of. rewrite E4. cbn [keepNotes subs set_result recording set_control set_term set_record set_notes].
    unfold s2, keeps_notes. cbn [keepNotes subs set_keepNotes]. injection X1 as _ _ Xf. rewrite Xf, Hfull. cbn [negb]. by rewrite orb_true_r, andb_true_r. }
  assert (T3 : term s3 = term s).
  { rewrite E4. cbn. rewrite E4 in Hta, Htya. cbn in Hta, Htya. subst ta tya. rewrite Hy. by destruct (term s). }
  set (s4 := set_result s3 no_result).
  assert (Q4 : quiet s4) by (apply quiet_intro; [change (noting s3 = false); by rewrite E4 | done |
    change (latch_inv (term s3)); by rewrite T3 | change (serving s3 = false); by rewrite E4]).
  set (st2 := set_complete st1 (applicationComplete st1)).
  assert (Hin2 : in_message st2 = in_message st) by (unfold in_message; cbn; by rewrite F1, C1).
  destruct (cut_read c st2 s4 r) as (s5 & E5 & Q5 & T5); auto; [by rewrite Hin2 |].
  assert (H3 : ar_cut (result s3) = false /\ ar_err (result s3) = None /\ ar_record (result s3) = true).
  { rewrite E4. cbn. change (result s2) with (result s). by rewrite Hres. }
  destruct H3 as (H31 & H32 & H33). unfold message_turn, take_result. fold s4.
  rewrite H31, H32, H33. cbn [notnil]. fold st2. rewrite E5. next. cbn [negb].
  change (kept s4) with (kept s3). rewrite Hk.
  exists st2, s5. split; [done |]. split; [done |]. split; [by rewrite T5 |]. by split_and!.
Qed.

(** How the read ends after it: an abort only when the caller was to be
    told and the record does not parse. *)
Lemma abandoned_ends c st s told r :
  in_message st = true -> ends st = (None, false, false) -> queued st = [] -> whole r -> ntype r = EventPartialDelivery ->
  let parses := sizePDAPIEvent <=? len r in
  exists st' notes, message_ends c (abandoned st told r) s None = (st', s, told && negb parses) /\ same_message st st' /\
    finds st' ErrMessageInterrupted /\ queued st' = notes /\
    (if told && parses then exists n, ParseNotification r = Ret n /\ notes = [n] else notes = []).
Proof.
  intros Hin [= Hc Hb Hf] Hq Hw Hy parses. pose proof (parse_abandon r Hw Hy) as Hp. fold parses in Hp.
  assert (Hbound : forall st1, same_message st st1 -> cutNotification st1 = None -> partialDeliveryBoundary st1 = true ->
    exists st', message_ends c st1 s None = (st', s, false) /\ same_message st st' /\ finds st' ErrMessageInterrupted /\ queued st' = queued st1).
  { intros st1 Hs Hc1 Hb1. unfold message_ends. assert (Hin1 : in_message st1 = true).
    { unfold in_message in *. destruct Hs as (_ & _ & _ & _ & -> & -> & _). done. }
    rewrite Hin1, Hc1, Hb1. cbn [notnil andb]. eexists. split; [reflexivity |]. split; [eapply same_trans; [exact Hs | apply addError_same] |].
    split; [| apply addError_queued]. unfold errors_Join. cbn [omap list_omap id]. by destruct (partialApplicationErr st1); apply addError_finds. }
  unfold abandoned. destruct told; cbn [andb].
  - destruct parses; [destruct Hp as [n Hp] |]; rewrite Hp; cbn [negb].
    + destruct (Hbound (set_boundary (set_queue (set_partialErr st (Some errPartialDeliveryAborted)) (queued st ++ [n]) (queuedBytes st) (queueFull st)) true))
        as (st' & E & Hs & Hfi & Hqu); [by split_and! | done | done |].
      exists st', [n]. split; [exact E |]. split; [done |]. split; [done |]. split; [rewrite Hqu; cbn; by rewrite Hq | by exists n].
    + set (st1 := set_boundary _ false).
      destruct (message_ends_aborts c st1 s None Hin Hc eq_refl) as (st' & E & Hs & Hfi & Hqu).
      exists st', []. split; [exact E |]. split; [eapply same_trans; [by split_and! | exact Hs] |]. split; [done |]. split; [by rewrite Hqu; cbn | done].
  - destruct (Hbound (set_boundary (set_partialErr st (Some errPartialDeliveryAborted)) true)) as (st' & E & Hs & Hfi & Hqu); [by split_and! | done | done |].
    exists st', []. split; [exact E |]. split; [done |]. split; [done |]. by rewrite Hqu.
Qed.

(** C21 A partial delivery the peer abandons is a boundary, not a broken
    connection: when, after pieces of a message, the whole notification
    that abandons it is read, however it is split, ReadMsg returns what it
    read with an error matching ErrMessageInterrupted, does not abort, and
    leaves what follows the notification to the next call.  A caller with a
    handler that subscribed to such events is handed exactly that event, as
    ParseNotification reads it; only for such a caller, and only when the
    record is too short for its struct, so that there is no event to hand
    over, the connection is aborted. *)
Theorem readMsg_abandoned c max m es L t tl flags oob r es2 rest s
    (Hm : 0 < max) (Ho : opened c = true) (Hil : interleaved s = false) (Hs : ready s)
    (Hw : nothing_ended (term s)) (Ha : arriving max (Z.min 256 max) 0 false m es L t tl) (Hne : m <> [])
    (Hd : delivers flags oob (room_for max L t tl) r es2) (Hr : whole r) (Hy : ntype r = EventPartialDelivery) :
  let told := bool_decide (is_Some (handler c)) && has (subs s) EventPartialDelivery in
  let parses := sizePDAPIEvent <=? len r in
  exists s' e notes, ready s' /\ term s' = term s /\ errors_Is e ErrMessageInterrupted = true /\
    (if told && parses then exists n, ParseNotification r = Ret n /\ notes = [n] else notes = []) /\
    ReadMsg c max (es ++ es2 ++ rest) s =
    Ret (Done (rest, s', {|
      m_data := take (Z.to_nat max) m; m_info := first_rcv es; m_err := Some e;
      m_notes := notes; m_abort := told && negb parses |})).
Proof.
  intros told parses. destruct (delivers_head flags oob _ r es2 rest Hd) as (x & more & Hmore). rewrite Hmore.
  destruct (ReadMsg_arriving c max m es L t tl x more s Hm Hs Hw Ha)
    as (f1 & f2 & st & s1 & E & _ & _ & (Q & T & I & R & B & TL & F & Fst & C & Im & X & Qu & Er & Su) & <- & <- & <-).
  rewrite bool_decide_eq_false_2 in F, Fst by done. rewrite unserved_term in T. rewrite unserved_subs in Su.
  assert (Hin : in_message st = true) by (unfold in_message; by rewrite F, C).
  assert (Hfull : queueFull st = false) by (by injection X).
  destruct (poll_abandoned c max f1 f2 flags oob r es2 rest st s1)
    as (st' & s' & E' & Q' & T' & B' & Fst' & Hin' & X' & Er' & Qu' & Im'); auto; [lia |].
  assert (Htold : told_of c s1 = told) by (unfold told_of, told; by rewrite Su). rewrite Htold in E'.
  rewrite <- Hmore, E' in E. rewrite Hmore in E.
  destruct (arriving_head _ _ _ _ _ _ _ _ _ x more Ha) as (r' & more' & Hsc). rewrite Hsc in *.
  destruct (abandoned_ends c st' s' told r) as (st2 & notes & Hends & (B2 & _ & _ & F2 & _) & Hfi & Hnq & Hnotes);
    [by rewrite Hin' | by rewrite X', X | by rewrite Qu', Qu | done | done |].
  rewrite (ReadMsg_poll_queued c max r' more' s rest _ s' None Hm Ho Hil Hw E Q').
  2:{ unfold abandoned, addError. repeat case_match; cbn; by rewrite Im', Im. }
  rewrite Hends. destruct (handled_same c st2) as (B3 & _ & _ & F3 & _).
  destruct (finds_readError c _ _ (handled_finds c st2 _ Hfi)) as (e & He & HeI).
  exists s', e, notes. split; [apply Q' |]. split; [by rewrite T' |]. split; [done |]. split; [exact Hnotes |].
  unfold queued_result. by rewrite He, Hnq, B3, F3, B2, F2, B', Fst', B, Fst.
Qed.
End Turns.

(** ** The shared buffers *)

(** A slice of the process: which allocation it is of, its length, its
    capacity. *)
Record buffer := { b_id : nat; b_len : Z; b_cap : Z }.

(** One size class: buffers[:count]. *)
Record readMsgBufferCache := { size : Z; buffers : list buffer }.

(** get, with [fresh] the allocation a make would be of: the buffer, the
    class, and whether it was made. *)
Definition cache_get (p : readMsgBufferCache) (fresh : nat) : buffer * readMsgBufferCache * bool :=
  match last (buffers p) with
  | Some b => (b, {| size := size p; buffers := removelast (buffers p) |}, false)
  | None => ({| b_id := fresh; b_len := size p; b_cap := size p |}, p, true)
  end.

Definition cache_put (p : readMsgBufferCache) (b : buffer) : readMsgBufferCache :=
  if Z.of_nat (length (buffers p)) <? 4
  then {| size := size p; buffers := buffers p ++ [{| b_id := b_id b; b_len := b_cap b; b_cap := b_cap b |}] |}
  else p.

(** The class, the buffers its borrowers hold, and the next allocation. *)
Record pool := { class : readMsgBufferCache; borrowed : list buffer; fresh_id : nat }.

(** Any call may borrow; a borrower may reslice what it holds ([grown[:max]])
    and gives it back once. *)
Inductive pool_step : pool -> pool -> Prop :=
| pool_borrow w b p made :
    cache_get (class w) (fresh_id w) = (b, p, made) ->
    pool_step w {| class := p; borrowed := b :: borrowed w;
                   fresh_id := if made : bool then S (fresh_id w) else fresh_id w |}
| pool_reslice w l b r n :
    borrowed w = l ++ b :: r -> 0 <= n <= b_cap b ->
    pool_step w {| class := class w; borrowed := l ++ {| b_id := b_id b; b_len := n; b_cap := b_cap b |} :: r;
                   fresh_id := fresh_id w |}
| pool_return w l b r :
    borrowed w = l ++ b :: r ->
    pool_step w {| class := cache_put (class w) b; borrowed := l ++ r; fresh_id := fresh_id w |}.

Definition empty_pool (n : Z) : pool := {| class := {| size := n; buffers := [] |}; borrowed := []; fresh_id := 0 |}.

Definition pool_inv (n : Z) (w : pool) : Prop :=
  size (class w) = n /\ (length (buffers (class w)) <= 4)%nat /\
  NoDup (map b_id (buffers (class w) ++ borrowed w)) /\
  Forall (fun b => b_cap b = n /\ (b_id b < fresh_id w)%nat) (buffers (class w) ++ borrowed w) /\
  Forall (fun b => b_len b = n) (buffers (class w)).

Lemma removelast_with_last (l : list buffer) b : last l = Some b -> l = removelast l ++ [b].
Proof.
  intros H. apply last_Some in H as [l' ->]. by rewrite removelast_last.
Qed.

Lemma pool_borrow_inv n w b p made :
  pool_inv n w -> cache_get (class w) (fresh_id w) = (b, p, made) ->
  b_len b = n /\
  pool_inv n {| class := p; borrowed := b :: borrowed w; fresh_id := if made then S (fresh_id w) else fresh_id w |}.
Proof.
  intros (Hs & Hc & Hnd & Hf & Hl) E. unfold cache_get in E. destruct (last (buffers (class w))) as [b0 |] eqn:Hlast.
  - injection E as -> <- <-. apply removelast_with_last in Hlast. set (bs := removelast _) in *. rewrite Hlast in *.
    rewrite <- app_assoc in Hnd, Hf. apply Forall_app in Hl as [Hl1 Hl2]. inversion Hl2; subst.
    split; [done |]. unfold pool_inv. cbn. rewrite length_app in Hc. simpl in Hc. split_and!; auto. lia.
  - injection E as <- <- <-. split; [done |]. unfold pool_inv. cbn. split_and!; auto.
    + rewrite map_app in *. cbn. rewrite NoDup_app in Hnd |- *. destruct Hnd as (H1 & H2 & H3).
      assert (Hnew : forall l, Forall (fun b => b_cap b = n /\ (b_id b < fresh_id w)%nat) l -> fresh_id w ∉ map b_id l).
      { intros l Hfl Hin. apply list_elem_of_fmap in Hin as (x & Hx & Hin). rewrite Forall_forall in Hfl.
        destruct (Hfl x Hin). lia. }
      apply Forall_app in Hf as [Hf1 Hf2]. split; [done |]. split.
      * intros x Hx. apply not_elem_of_cons. split; [| by apply H2]. intros ->. by apply (Hnew _ Hf1).
      * constructor; [by apply Hnew | done].
    + apply Forall_app in Hf as [Hf1 Hf2]. apply Forall_app. split; [eapply Forall_impl; [exact Hf1 |]; cbn; intros ? []; lia |].
      constructor; [split; [done | cbn; lia] |]. eapply Forall_impl; [exact Hf2 |]; cbn; intros ? []; lia.
Qed.

Lemma pool_step_inv n w w' : pool_inv n w -> pool_step w w' -> pool_inv n w'.
Proof.
  intros Hi Hst. inversion Hst as [? b p made E | ? l b r k E Hk | ? l b r E]; subst.
  - by apply (pool_borrow_inv n w b).
  - destruct Hi as (Hs & Hc & Hnd & Hf & Hl). rewrite E in *. unfold pool_inv. cbn. split_and!; auto.
    + by rewrite !map_app in *.
    + apply Forall_app in Hf as [Hf1 Hf2]. apply Forall_app in Hf2 as [Hf2 Hf3]. inversion Hf3; subst.
      apply Forall_app. split; [done |]. apply Forall_app. split; [done |]. by constructor.
  - destruct Hi as (Hs & Hc & Hnd & Hf & Hl). rewrite E in *. unfold cache_put.
    assert (Hp : buffers (class w) ++ l ++ b :: r ≡ₚ b :: buffers (class w) ++ l ++ r) by solve_Permutation.
    rewrite Hp in Hf. assert (Hnd' : NoDup (map b_id (b :: buffers (class w) ++ l ++ r))) by (by rewrite <- Hp).
    cbn in Hnd'. apply NoDup_cons in Hnd' as [Hb Hnd']. inversion Hf as [| ? ? [Hcap Hid] Hf']; subst.
    destruct (Z.ltb_spec (Z.of_nat (length (buffers (class w)))) 4) as [Hlt | Hge]; unfold pool_inv; cbn; split_and!; auto.
    + rewrite length_app. simpl. lia.
    + rewrite <- app_assoc, !map_app in *. cbn. rewrite <- Permutation_middle. by constructor.
    + rewrite <- app_assoc. cbn. rewrite <- Permutation_middle. by constructor.
    + apply Forall_app. split; [done |]. by constructor.
Qed.

Lemma pool_reachable n w : rtc pool_step (empty_pool n) w -> pool_inv n w.
Proof.
  intros H. assert (H0 : pool_inv n (empty_pool n)).
  { unfold pool_inv. cbn. split_and!; auto; apply NoDup_nil_2. }
  revert H0. induction H as [| x y z Hxy _ IH]; intros Hi; [done |]. eauto using pool_step_inv.
Qed.

(** A shared assembly buffer is borrowed exclusively: after any calls in
    any order, no buffer is lent twice, and none is both lent and free, so
    that no two reads write into the same bytes; a borrowed buffer is as
    long as its class says, even when an earlier borrower had cut it; and
    a class keeps at most four buffers. *)
Theorem pool_exclusive n w (Hw : rtc pool_step (empty_pool n) w) :
  NoDup (map b_id (buffers (class w) ++ borrowed w)) /\
  Z.of_nat (length (buffers (class w))) <= 4 /\
  (forall b p made, cache_get (class w) (fresh_id w) = (b, p, made) ->
     b_len b = n /\ b_id b ∉ map b_id (borrowed w)).
Proof.
  pose proof (pool_reachable n w Hw) as Hi. pose proof Hi as (Hs & Hc & Hnd & _). split; [done |]. split; [lia |].
  intros b p made E. destruct (pool_borrow_inv n w b p made Hi E) as [Hl (_ & _ & Hnd' & _)]. split; [done |].
  cbn in Hnd'. rewrite map_app in Hnd'. apply NoDup_app in Hnd' as (_ & _ & Hnd'). cbn in Hnd'.
  by apply NoDup_cons in Hnd' as [Hb _].
Qed.

(** ** Witnesses *)
Definition piece1 : bytes := [Byte.x61; Byte.x62; Byte.x63].
Definition piece2 : bytes := [Byte.x64; Byte.x65].

(** The first piece, an interrupted call and a wait. *)
Definition piece1_events : list event :=
  [Recv (ROk piece1 0 []); Recv (RErr EINTR); Recv (RErr EAGAIN)].

Lemma piece1_arriving : arriving 10 (Z.min 256 10) 0 false piece1 piece1_events 10 3 false.
Proof.
  change piece1 with (piece1 ++ []). apply arriving_piece; [done.. | split; vm_compute; discriminate |].
  apply arriving_interrupted, arriving_wait. apply arriving_nil.
Qed.

Lemma fresh_nothing_ended : nothing_ended (term fresh).
Proof. by intros t [= <-]. Qed.

Lemma readMsg_safe_witness :
  ready fresh /\
  match @ReadMsg amd64 host_zones grow_exact go_runtime plain_conn 10 piece1_events fresh with
  | Ret (Parked s') => ready s' /\ latch_kept (term fresh) (term s') /\ nothing_ended (term s')
  | Ret (Done (rest, s', m)) => left_over fresh s' piece1_events rest /\ len (m_data m) <= Z.max 0 10
  | _ => False
  end /\
  (0 < 10 -> forall fuel rest st' s' ok, (length piece1_events < fuel)%nat -> quiet fresh ->
     @message_callback amd64 host_zones grow_exact go_runtime fuel plain_conn 10 piece1_events (initial_state 10) fresh =
       Ret (rest, st', s', ok) ->
     len (buf st') <= bufLen st' <= Z.min 10 (Z.max 2048 (8 * len (buf st')))).
Proof.
  split; [exact fresh_ready |].
  exact (@readMsg_safe amd64 amd64_ok host_zones grow_exact go_runtime plain_conn 10 piece1_events fresh fresh_ready).
Defined.

Lemma readMsg_message_witness :
  exists s', @ReadMsg amd64 host_zones grow_exact go_runtime plain_conn 10
      (piece1_events ++ Recv (ROk piece2 msgEOR []) :: message_after) fresh =
    Ret (Done (message_after, s', {| m_data := piece1 ++ piece2; m_info := zeroRcvInfo; m_err := None;
                                     m_notes := []; m_abort := false |})).
Proof.
  destruct (@readMsg_message amd64 amd64_ok host_zones grow_exact go_runtime plain_conn 10 piece1 piece1_events 10 3 false
              piece2 msgEOR [] message_after fresh) as (s' & _ & _ & E).
  - lia.
  - reflexivity.
  - reflexivity.
  - exact fresh_ready.
  - exact fresh_nothing_ended.
  - exact piece1_arriving.
  - reflexivity.
  - reflexivity.
  - reflexivity.
  - split; vm_compute; discriminate.
  - exists s'. exact E.
Defined.

(** The deadline passes in the middle of the message. *)
Lemma readMsg_interrupted_witness :
  exists s' e, errors_Is e ErrMessageInterrupted = true /\
    @ReadMsg amd64 host_zones grow_exact go_runtime plain_conn 10
      (piece1_events ++ Recv (RErr EAGAIN) :: PollErr (Plain ErrDeadlineExceeded) :: message_after) fresh =
    Ret (Done (message_after, s', {| m_data := piece1; m_info := zeroRcvInfo; m_err := Some e;
                                     m_notes := []; m_abort := true |})).
Proof.
  destruct (@readMsg_interrupted amd64 amd64_ok host_zones grow_exact go_runtime plain_conn 10 piece1 piece1_events 10 3 false
              (Recv (RErr EAGAIN) :: PollErr (Plain ErrDeadlineExceeded) :: message_after) message_after fresh)
    as (s' & e & _ & _ & He & E).
  - lia.
  - reflexivity.
  - reflexivity.
  - exact fresh_ready.
  - exact fresh_nothing_ended.
  - exact piece1_arriving.
  - discriminate.
  - constructor.
  - exists s', e. split; [exact He | exact E].
Defined.

(** A record that abandons the message, read by a connection whose handler
    wants to know. *)
Definition abandon_record : bytes :=
  [Byte.x06; Byte.x80; Byte.x00; Byte.x00; Byte.x18; Byte.x00; Byte.x00; Byte.x00] ++ zeros 12 ++
  [Byte.x07; Byte.x00; Byte.x00; Byte.x00].

Definition abandon_event : Notification :=
  NPartialDelivery {| pd_Stream := 0; pd_SeqNum := 7; pd_Unordered := false; pd_AssocID := 0 |}.

Definition telling_conn : conn := {|
  handler := Some (fun _ => None); c_sock := true; c_life := lifeOpen; abort_result := None;
  c_network := "sctp"; c_local := None; c_remote := None |}.

Definition told_fresh : recvState := {|
  notes := empty_accumulator; control := []; result := no_result; term := Some zero_termState;
  subs := eventBit EventPartialDelivery;
  keepNotes := false; partial := false; interleaved := false; noting := false; typed := false; typ := 0;
  kept := false; serving := false; served := 0; serveInfo := zeroMsgInfo |}.

Lemma told_fresh_ready : ready told_fresh.
Proof. apply ready_quiet; try done. intros t [= <-]. apply zero_inv. Qed.

Lemma readMsg_abandoned_witness :
  exists s' e, errors_Is e ErrMessageInterrupted = true /\
    @ReadMsg amd64 host_zones grow_exact go_runtime telling_conn 10
      (piece1_events ++ [Recv (ROk (take 7 abandon_record) msgNotification []); Recv (ROk (drop 7 abandon_record) msgBoth [])]
       ++ message_after) told_fresh =
    Ret (Done (message_after, s', {| m_data := piece1; m_info := zeroRcvInfo; m_err := Some e;
                                     m_notes := [abandon_event]; m_abort := false |})).
Proof.
  destruct (@readMsg_abandoned amd64 amd64_ok host_zones grow_exact go_runtime telling_conn 10 piece1 piece1_events 10 3 false
              msgBoth [] abandon_record
              [Recv (ROk (take 7 abandon_record) msgNotification []); Recv (ROk (drop 7 abandon_record) msgBoth [])]
              message_after told_fresh) as (s' & e & notes & _ & _ & He & Hn & E).
  - lia.
  - reflexivity.
  - reflexivity.
  - exact told_fresh_ready.
  - exact fresh_nothing_ended.
  - exact piece1_arriving.
  - discriminate.
  - apply (deliver_more msgBoth [] _ (take 7 abandon_record) msgNotification [] (drop 7 abandon_record));
      [reflexivity | reflexivity | vm_compute; discriminate |].
    constructor; [reflexivity | reflexivity | vm_compute; discriminate].
  - split; [split; vm_compute; discriminate | reflexivity].
  - reflexivity.
  - exists s', e. split; [exact He |].
    assert (Hn' : exists n, @ParseNotification amd64 host_zones abandon_record = Ret n /\ notes = [n]) by exact Hn.
    destruct Hn' as (n & Hp & ->). assert (n = abandon_event) as -> by (vm_compute in Hp; injection Hp as <-; reflexivity). exact E.
Defined.

(** Two borrowers, one of them cutting its buffer before it returns it. *)
Definition lent (k : nat) (n : Z) : buffer := {| b_id := k; b_len := n; b_cap := 2048 |}.

Lemma pool_exclusive_witness :
  exists w, rtc pool_step (empty_pool 2048) w /\ borrowed w = [lent 0 2048] /\
    b_len (fst (fst (cache_get (class w) (fresh_id w)))) = 2048.
Proof.
  exists {| class := {| size := 2048; buffers := [lent 1 2048] |}; borrowed := [lent 0 2048]; fresh_id := 2 |}.
  assert (Hw : rtc pool_step (empty_pool 2048)
    {| class := {| size := 2048; buffers := [lent 1 2048] |}; borrowed := [lent 0 2048]; fresh_id := 2 |}).
  { eapply rtc_l; [apply pool_borrow; reflexivity |]. cbn. eapply rtc_l; [apply pool_borrow; reflexivity |]. cbn.
    eapply rtc_l; [apply (pool_reslice _ [] (lent 1 2048) [lent 0 2048] 100); [reflexivity | cbn; lia] |]. cbn.
    eapply rtc_l; [apply (pool_return _ [] (lent 1 100) [lent 0 2048]); reflexivity |]. cbn. apply rtc_refl. }
  split; [exact Hw |]. split; [reflexivity |].
  exact (proj1 (proj2 (proj2 (pool_exclusive 2048 _ Hw)) _ _ _ eq_refl)).
Defined.
