(* ===== verification/Traps.v ===== *)
(** * The raw system calls (src/syscall_linux_386.go, src/syscall_linux_other.go)

    rawSetsockopt, rawGetsockopt, rawSendmsg and rawRecvmsg, once as direct
    system calls and once, on 386, through socketcall(2), which takes the
    number of the operation and a pointer to an array of its arguments.

    [Traps] is the processor and the kernel: a trap takes a number and
    words, and gives a word and an errno.  A pointer is a word; the array of
    a socketcall is given as its words.  [TrapsOk] is what Linux documents of
    the two ways in: the numbers of net.h, and that socketcall copies the
    arguments of the operation from the array and does what the direct call
    does (net/socket.c).

    The theorem: on a kernel that has both, the two files make the same call
    and report the same result. *)
From Stdlib Require Import ZArith Lia Bool.
From stdpp Require Import base list option.
From coqutil Require Import Byte.
From S2P Require Import Prelude Abi Errors.

Inductive operation := op_setsockopt | op_getsockopt | op_sendmsg | op_recvmsg.

(** [SYS op] is the syscall package's number of the direct call. *)
Class Traps := {
  machine : Type;
  SYS : operation -> Z;
  Syscall : machine -> Z -> list Z -> machine * (Z * Z);
  Socketcall : machine -> Z -> list Z -> machine * (Z * Z);
}.

Section Raw.
Context `{A : Arch} `{T : Traps}.

(** The conversions uintptr(n) of an int, and int(r) of a uintptr. *)
Definition uintptr (n : Z) : Z := n mod 2 ^ (8 * wordSize).
Definition int (r : Z) : Z := if r <? 2 ^ (8 * wordSize - 1) then r else r - 2 ^ (8 * wordSize).

(** [if errno != 0 { return errno }; return nil], and with a count. *)
Definition raw_done (m : machine) (errno : Z) : machine * option error :=
  (m, if errno =? 0 then None else Some (Plain (Errno errno))).
Definition raw_count (m : machine) (r0 errno : Z) : machine * (Z * option error) :=
  (m, if errno =? 0 then (int r0, None) else (0, Some (Plain (Errno errno)))).

(** ** Direct calls *)
Definition direct_rawSetsockopt (m : machine) (fd level opt p l : Z) : machine * option error :=
  let '(m, (_, errno)) := Syscall m (SYS op_setsockopt) [uintptr fd; uintptr level; uintptr opt; p; l; 0] in
  raw_done m errno.
Definition direct_rawGetsockopt (m : machine) (fd level opt p l : Z) : machine * option error :=
  let '(m, (_, errno)) := Syscall m (SYS op_getsockopt) [uintptr fd; uintptr level; uintptr opt; p; l; 0] in
  raw_done m errno.
Definition direct_rawSendmsg (m : machine) (fd msg flags : Z) : machine * (Z * option error) :=
  let '(m, (r0, errno)) := Syscall m (SYS op_sendmsg) [uintptr fd; msg; uintptr flags] in
  raw_count m r0 errno.
Definition direct_rawRecvmsg (m : machine) (fd msg flags : Z) : machine * (Z * option error) :=
  let '(m, (r0, errno)) := Syscall m (SYS op_recvmsg) [uintptr fd; msg; uintptr flags] in
  raw_count m r0 errno.

(** ** Through socketcall *)
Definition socketcallSetsockopt : Z := 14.
Definition socketcallGetsockopt : Z := 15.
Definition socketcallSendmsg : Z := 16.
Definition socketcallRecvmsg : Z := 17.

Definition socketcall (m : machine) (call a0 a1 a2 a3 a4 a5 : Z) : machine * (Z * Z) :=
  Socketcall m call [a0; a1; a2; a3; a4; a5].

Definition multiplexed_rawSetsockopt (m : machine) (fd level opt p l : Z) : machine * option error :=
  let '(m, (_, errno)) := socketcall m socketcallSetsockopt (uintptr fd) (uintptr level) (uintptr opt) p l 0 in
  raw_done m errno.
Definition multiplexed_rawGetsockopt (m : machine) (fd level opt p l : Z) : machine * option error :=
  let '(m, (_, errno)) := socketcall m socketcallGetsockopt (uintptr fd) (uintptr level) (uintptr opt) p l 0 in
  raw_done m errno.
Definition multiplexed_rawSendmsg (m : machine) (fd msg flags : Z) : machine * (Z * option error) :=
  let '(m, (r0, errno)) := socketcall m socketcallSendmsg (uintptr fd) msg (uintptr flags) 0 0 0 in
  raw_count m r0 errno.
Definition multiplexed_rawRecvmsg (m : machine) (fd msg flags : Z) : machine * (Z * option error) :=
  let '(m, (r0, errno)) := socketcall m socketcallRecvmsg (uintptr fd) msg (uintptr flags) 0 0 0 in
  raw_count m r0 errno.
End Raw.

(** ** The two files make the same calls *)

(** The call numbers of net.h, and the number of arguments of each. *)
Definition net_h (op : operation) : Z :=
  match op with op_setsockopt => 14 | op_getsockopt => 15 | op_sendmsg => 16 | op_recvmsg => 17 end.
Definition nargs (op : operation) : nat := match op with op_setsockopt | op_getsockopt => 5 | op_sendmsg | op_recvmsg => 3 end.

Class TrapsOk `{T : Traps} (does : machine -> operation -> list Z -> machine * (Z * Z)) : Prop := {
  Syscall_does m op args : Syscall m (SYS op) args = does m op (take (nargs op) args);
  Socketcall_does m op args : Socketcall m (net_h op) args = does m op (take (nargs op) args);
}.

Section Same.
Context `{A : Arch} `{T : Traps} {does : machine -> operation -> list Z -> machine * (Z * Z)} `{TK : !TrapsOk does}.

(** The 386 way in is the direct one: for every kernel whose socketcall
    does what Linux documents, each of the four raw calls of
    syscall_linux_386.go makes the operation syscall_linux_other.go makes,
    with the same arguments, and returns the same error and count. *)
Theorem socketcall_direct m fd level opt p l msg flags :
  multiplexed_rawSetsockopt m fd level opt p l = direct_rawSetsockopt m fd level opt p l /\
  multiplexed_rawGetsockopt m fd level opt p l = direct_rawGetsockopt m fd level opt p l /\
  multiplexed_rawSendmsg m fd msg flags = direct_rawSendmsg m fd msg flags /\
  multiplexed_rawRecvmsg m fd msg flags = direct_rawRecvmsg m fd msg flags.
Proof.
  unfold multiplexed_rawSetsockopt, multiplexed_rawGetsockopt, multiplexed_rawSendmsg, multiplexed_rawRecvmsg, socketcall.
  change socketcallSetsockopt with (net_h op_setsockopt). change socketcallGetsockopt with (net_h op_getsockopt).
  change socketcallSendmsg with (net_h op_sendmsg). change socketcallRecvmsg with (net_h op_recvmsg).
  unfold direct_rawSetsockopt, direct_rawGetsockopt, direct_rawSendmsg, direct_rawRecvmsg.
  split_and!; by rewrite Syscall_does, Socketcall_does.
Qed.
End Same.

(** ** Witness *)

(** A machine that remembers its calls; a descriptor below 0 is EBADF, 9. *)
Definition logs (m : list (operation * list Z)) (op : operation) (args : list Z) : list (operation * list Z) * (Z * Z) :=
  (m ++ [(op, args)], if 2 ^ 31 <=? default 0 (head args) then (0, 9) else (7, 0)).
#[local] Instance logging : Traps := {
  machine := list (operation * list Z);
  SYS op := match op with op_setsockopt => 366 | op_getsockopt => 365 | op_sendmsg => 370 | op_recvmsg => 372 end;
  Syscall m nr args := let op := if nr =? 366 then op_setsockopt else if nr =? 365 then op_getsockopt else if nr =? 370 then op_sendmsg else op_recvmsg in
    logs m op (take (nargs op) args);
  Socketcall m call args := let op := if call =? 14 then op_setsockopt else if call =? 15 then op_getsockopt else if call =? 16 then op_sendmsg else op_recvmsg in
    logs m op (take (nargs op) args);
}.

Lemma logging_ok : TrapsOk logs.
Proof. split; intros m [] args; reflexivity. Defined.

Lemma socketcall_direct_witness :
  multiplexed_rawSendmsg (A := i386) [] 3 4096 64 = ([(op_sendmsg, [3; 4096; 64])], (7, None)) /\
  direct_rawSendmsg (A := i386) [] 3 4096 64 = multiplexed_rawSendmsg (A := i386) [] 3 4096 64 /\
  (multiplexed_rawSendmsg (A := i386) [] (-1) 4096 64).2 = (0, Some (Plain (Errno 9))).
Proof.
  split; [reflexivity |]. split; [| reflexivity]. symmetry.
  exact (proj1 (proj2 (proj2 (socketcall_direct (A := i386) (TK := logging_ok) [] 3 0 0 0 0 4096 64)))).
Defined.
