(* ===== verification/Sys.v ===== *)
(** * System calls and the socket (src/socket_linux.go, src/syscall_linux_*.go)

    The package reaches the kernel through getsockopt and setsockopt, made
    inside raw.Control, which fails once the
    descriptor has been released.  The kernel is a parameter: a [Kernel]
    has a state, and answers each call with an errno (0 for success) and
    what the call returns; the answers may depend on everything that
    happened before, and so on what other goroutines and the peer do.

    A function that makes system calls is a value of [sys]: from the state
    of the process it computes the state after, the calls it made with
    their answers, in order, and its outcome.  The theorems about it hold
    for every kernel, and say which calls are made, with which bytes.  Where
    a theorem needs the kernel to keep what it was told, that is a
    hypothesis on the kernel.

    The theorem of this file is about getAddrs, the query that retries
    with a larger buffer. *)
From Stdlib Require Import ZArith Lia Bool.
From stdpp Require Import base list option strings.
From coqutil Require Import Byte.
From S2P Require Import Prelude Close Abi Errors Enums Netip Sockaddr Options OptionCodecs Addr.

Definition ENOMEM : Z := 12.
Definition EBADF : Z := 9.

(** ** The kernel *)

(** A call as it is made: an option with its level and the buffer as the
    code filled it. *)
Inductive syscall :=
| Setsockopt (level opt : Z) (b : bytes)
| Getsockopt (level opt : Z) (b : bytes).

#[global] Instance syscall_eq_dec : EqDecision syscall.
Proof. solve_decision. Defined.

(** The syscall package's numbers for the target. *)
Class Numbers := {
  SOL_SOCKET : Z; SO_RCVBUF : Z; SO_SNDBUF : Z;
  SO_PROTOCOL : Z; SO_TYPE : Z; SO_DOMAIN : Z; SO_ACCEPTCONN : Z; SO_ERROR : Z; SO_LINGER : Z;
  IPPROTO_IPV6 : Z; IPV6_V6ONLY : Z;
  SOCK_STREAM : Z; SOCK_SEQPACKET : Z; SOCK_NONBLOCK : Z; SOCK_CLOEXEC : Z;
}.

(** [k_control] says whether raw.Control still finds the descriptor;
    getsockopt also returns the bytes it wrote and the length it reports. *)
Class Kernel := {
  numbers :: Numbers;
  world : Type;
  k_control : world -> world * bool;
  k_setsockopt : world -> Z -> Z -> bytes -> world * Z;
  k_getsockopt : world -> Z -> Z -> bytes -> world * (Z * (bytes * Z));
}.

(** ** Computations that make system calls *)

(** The state of the process: the kernel's, and storageLayoutCache. *)
Record proc `{K : Kernel} := { kern : world; storageLayoutCache : storageLayoutChoice }.

(** A call that was made: its errno, and for a getsockopt that succeeded
    the buffer after it. *)
Inductive done := Did (q : syscall) (errno : Z) (reply : bytes).

Definition calls := list done.

(** From the state, the state after, what was logged, and the outcome. *)
Definition logged (S L X : Type) : Type := S -> S * list L * out error X.

Section Monad.
Context {S L : Type}.

#[global] Instance sys_ret : MRet (logged S L) := fun X x s => (s, [], Ret x).

#[global] Instance sys_bind : MBind (logged S L) := fun X Y k m s =>
  let '(s, l1, r) := m s in
  match r with
  | Ret x => let '(s, l2, r) := k x s in (s, l1 ++ l2, r)
  | Err e => (s, l1, Err e)
  | Panic => (s, l1, Panic)
  end.

(** A computation that makes no call. *)
Definition pure {X} (r : out error X) : logged S L X := fun s => (s, [], r).

Definition fails {X} (e : option error) : logged S L X :=
  match e with Some e => pure (Err e) | None => pure Panic end.

(** [x, err := f()], with the error as a value. *)
Definition caught {X} (m : logged S L X) : logged S L (X + error) := fun s =>
  let '(s, l, r) := m s in
  (s, l, match r with Ret x => Ret (inl x) | Err e => Ret (inr e) | Panic => Panic end).

(** [err := f()]. *)
Definition err_of {X} (m : logged S L X) : logged S L (option error) :=
  r ← caught m; mret (match r with inl _ => None | inr e => Some e end).

(** [if err := f(); err != nil { return ..., wrap(err) }]. *)
Definition wrapped {X} (wrap : error -> option error) (m : logged S L X) : logged S L X :=
  r ← caught m;
  match r with
  | inl x => mret x
  | inr e => fails (wrap e)
  end.
End Monad.

Abbreviation sys := (logged proc done).

Section Calls.
Context `{K : Kernel}.

Definition errno_error (n : Z) : error := Plain (Errno n).

(** ** The raw calls *)

(** What a getsockopt leaves in the buffer. *)
Definition reply_into (b r : bytes) : bytes := take (length b) r ++ drop (length r) b.

(** &b[0] panics for an empty buffer. *)
Definition rawSetsockopt (level opt : Z) (b : bytes) : sys unit := fun s =>
  if len b =? 0 then (s, [], Panic) else
  let '(w, errno) := k_setsockopt (kern s) level opt b in
  ({| kern := w; storageLayoutCache := storageLayoutCache s |}, [Did (Setsockopt level opt b) errno []],
   if errno =? 0 then Ret tt else Err (errno_error errno)).

(** The buffer after the call and the length the kernel reports. *)
Definition rawGetsockopt (level opt : Z) (b : bytes) : sys (bytes * Z) := fun s =>
  if len b =? 0 then (s, [], Panic) else
  let '(w, (errno, (r, l))) := k_getsockopt (kern s) level opt b in
  ({| kern := w; storageLayoutCache := storageLayoutCache s |}, [Did (Getsockopt level opt b) errno (if errno =? 0 then reply_into b r else [])],
   if errno =? 0 then Ret (reply_into b r, u32 l) else Err (errno_error errno)).

(** ** The socket *)
Definition sock_control {X} (fn : sys X) : sys X := fun s =>
  let '(w, ok) := k_control (kern s) in
  let s := {| kern := w; storageLayoutCache := storageLayoutCache s |} in
  if ok then fn s else (s, [], Err (Plain NetErrClosed)).

Definition getsockoptAt (level opt : Z) (b : bytes) : sys (bytes * Z) := sock_control (rawGetsockopt level opt b).
Definition setsockoptAt (level opt : Z) (b : bytes) : sys unit := sock_control (rawSetsockopt level opt b).
End Calls.

Section Socket.
Context `{A : Arch} `{ZE : ZoneEnv} `{K : Kernel}.

Definition getsockopt (opt : Z) (b : bytes) : sys (bytes * Z) := getsockoptAt ipprotoSCTP opt b.
Definition setsockopt (opt : Z) (b : bytes) : sys unit := setsockoptAt ipprotoSCTP opt b.

Definition probeKernelWordSize : sys unit :=
  _ ← getsockopt optPathThresholdsProbe (zeros sizePathThresholdsProbe); mret tt.

Definition get_cache : sys storageLayoutChoice := fun s => (s, [], Ret (storageLayoutCache s)).
Definition set_cache (c : storageLayoutChoice) : sys unit := fun s =>
  ({| kern := kern s; storageLayoutCache := c |}, [], Ret tt).

Definition storageLayout : sys sockaddrStorageLayout :=
  if wordSize =? 8 then mret nativeStorageLayout else
  cache ← get_cache;
  probe ← match cache with
          | storageLayoutUnknown => err_of probeKernelWordSize
          | _ => mret None
          end;
  let '(cache, l) := selectStorageLayout cache probe in
  _ ← set_cache cache;
  pure l.

(** ** Address lists *)
Definition maxAddrsBuf : Z := Z.shiftl 256 10.

(** One turn of getAddrs's loop, with a buffer of [size] bytes: [None] to go
    on with a larger one. *)
Definition getAddrs_turn (opt assoc size : Z) : sys (option SctpAddr) :=
  buf ← pure (put_at NativeEndian 4 (zeros size) getAddrsAssocIDOff (u32 assoc));
  r ← caught (getsockopt opt buf);
  match r with
  | inr err =>
      if errors_Is err (Errno ENOMEM) && (size * 4 <=? maxAddrsBuf) then mret None
      else fails (Some err)
  | inl (buf, _) =>
      n ← pure (get_at NativeEndian 4 buf getAddrsAddrNumOff);
      rest ← pure (slice_from buf getAddrsAddrsOff);
      '(ips, port) ← pure (decodeAddrs rest (i32 n));
      mret (Some {| IPs := ips; Port := port |})
  end.

Fixpoint getAddrs_loop (fuel : nat) (opt assoc size : Z) : sys SctpAddr :=
  match fuel with
  | O => pure Panic
  | S fuel =>
      got ← getAddrs_turn opt assoc size;
      match got with
      | Some a => mret a
      | None => getAddrs_loop fuel opt assoc (size * 4)
      end
  end.

(** The sizes are 4 KiB, 16 KiB, 64 KiB and 256 KiB. *)
Definition getAddrs (opt assoc : Z) : sys SctpAddr := getAddrs_loop 4 opt assoc 4096.

(** ** The association's status *)
Definition status : sys (Z * Z) :=
  '(buf, _) ← getsockopt optStatus (zeros sizeStatus);
  id ← pure (get_at NativeEndian 4 buf statusAssocIDOff);
  state ← pure (get_at NativeEndian 4 buf statusStateOff);
  mret (i32 id, i32 state).

Definition bindx (opt : Z) (addrs : bytes) : sys unit := setsockopt opt addrs.

(** ** Families and local addresses *)
Definition isWildcard (a : option SctpAddr) : bool :=
  match a with
  | None => true
  | Some a => (len (IPs a) =? 0) || match IPs a with [ip] => IsUnspecified ip | _ => false end
  end.

Definition list_IPs (a : option SctpAddr) : list Addr := match a with Some a => IPs a | None => [] end.

(** The map of validateLocalIPs is from the addresses seen so far. *)
Definition local_key (family : Z) (ip : Addr) : Addr :=
  let key := Unmap ip in
  if (family =? afInet6) && Is4 key && IsUnspecified key then IPv6Unspecified else key.

Fixpoint local_loop (family : Z) (seen : list Addr) (ips : list Addr) : option error :=
  match ips with
  | [] => None
  | ip :: ips =>
      let key := local_key family ip in
      if bool_decide (key ∈ seen) then Some (invalidArg "local address %d (%s) duplicates address %d")
      else local_loop family (key :: seen) ips
  end.

Definition validateLocalIPs (family : Z) (ips : list Addr) : option error := local_loop family [] ips.

Definition fail_on (e : option error) : out error unit :=
  match e with Some e => Err e | None => Ret tt end.

Definition localBindAddrs (family : Z) (laddr : SctpAddr) : out error bytes :=
  if negb (len (IPs laddr) =? 0) then
    _ ← fail_on (validateLocalIPs family (IPs laddr));
    encodeAddrs family (IPs laddr) (Port laddr)
  else
    let wild := if family =? afInet6 then IPv6Unspecified else IPv4Unspecified in
    encodeAddrs family [wild] (Port laddr).
End Socket.

(** [run_sys] unfolds the steps of a computation applied to a state. *)
Ltac run_sys := unfold mbind, sys_bind, mret, sys_ret, caught, pure, fails; cbn.

(** ** Reasoning about the calls

    [emits m Q]: whatever the state, the calls of [m] and its outcome are in
    [Q]. *)
Section Emits.
Context {S L : Type}.

Definition emits {X} (m : logged S L X) (Q : list L -> out error X -> Prop) : Prop :=
  forall s, Q (m s).1.2 (m s).2.

Lemma emits_mono {X} (m : logged S L X) (Q Q' : list L -> out error X -> Prop) :
  emits m Q -> (forall l r, Q l r -> Q' l r) -> emits m Q'.
Proof. unfold emits. auto. Qed.

Lemma emits_pure {X} (r : out error X) Q : Q [] r -> emits (pure r) Q.
Proof. intros H s. exact H. Qed.

Lemma emits_ret {X} (x : X) Q : Q [] (Ret x) -> emits (mret x) Q.
Proof. intros H s. exact H. Qed.

Lemma emits_fails {X} e (Q : list L -> out error X -> Prop) : Q [] (Err e) -> emits (fails (Some e)) Q.
Proof. intros H s. exact H. Qed.

(** What a computation that stops at [m]'s failure does with it. *)
Definition then_ {X Y} (Q : list L -> out error Y -> Prop) (k : X -> logged S L Y) (l : list L) (r : out error X) : Prop :=
  match r with
  | Ret x => emits (k x) (fun l2 r => Q (l ++ l2) r)
  | Err e => Q l (Err e)
  | Panic => Q l Panic
  end.

Lemma emits_bind {X Y} (m : logged S L X) (k : X -> logged S L Y) Q :
  emits m (then_ Q k) -> emits (m ≫= k) Q.
Proof.
  intros H s. specialize (H s). unfold then_ in H. unfold mbind, sys_bind.
  destruct (m s) as [[s1 l1] [x | e |]]; cbn in *; [| done..].
  specialize (H s1). destruct (k x s1) as [[s2 l2] r]. exact H.
Qed.

Lemma emits_caught {X} (m : logged S L X) Q :
  emits m (fun l r => match r with Ret x => Q l (Ret (inl x)) | Err e => Q l (Ret (inr e)) | Panic => Q l Panic end) ->
  emits (caught m) Q.
Proof.
  intros H s. specialize (H s). unfold caught. destruct (m s) as [[s1 l1] [x | e |]]; exact H.
Qed.

Lemma emits_wrapped {X} wrap (m : logged S L X) Q :
  emits m (fun l r => match r with
                      | Err e => match wrap e with Some e => Q l (Err e) | None => Q l Panic end
                      | r => Q l r
                      end) ->
  emits (wrapped wrap m) Q.
Proof.
  intros H. unfold wrapped. apply emits_bind, emits_caught. eapply emits_mono; [exact H |].
  intros l [x | e |] HQ; cbn in *; [| | done].
  - intros s. cbn. by rewrite app_nil_r.
  - destruct (wrap e) as [e' |]; intros s; cbn; by rewrite app_nil_r.
Qed.

(** A computation that makes no call, after one that did. *)
Lemma emits_pure_bind {X Y} (r : out error X) (k : X -> logged S L Y) Q :
  match r with Ret x => emits (k x) Q | Err e => Q [] (Err e) | Panic => Q [] Panic end ->
  emits (pure r ≫= k) Q.
Proof.
  intros H. apply emits_bind, emits_pure. unfold then_. destruct r; [| done..].
  eapply emits_mono; [exact H |]. done.
Qed.

(** Running a computation whose first part is known. *)
Lemma bind_run {X Y} (m : logged S L X) (k : X -> logged S L Y) s s' x :
  (m s).2 = Ret x -> (m s).1.1 = s' -> ((m ≫= k) s).2 = (k x s').2.
Proof.
  unfold mbind, sys_bind. destruct (m s) as [[s1 l] r]. cbn. intros -> ->. by destruct (k x s') as [[? ?] ?].
Qed.

(** What a successful sequence made, step by step. *)
Lemma bind_ret_inv {X Y} (m : logged S L X) (k : X -> logged S L Y) s s' l y :
  (m ≫= k) s = (s', l, Ret y) ->
  exists s1 l1 x l2, m s = (s1, l1, Ret x) /\ k x s1 = (s', l2, Ret y) /\ l = l1 ++ l2.
Proof.
  unfold mbind, sys_bind. destruct (m s) as [[s1 l1] [x | e |]]; [| done..].
  destruct (k x s1) as [[s2 l2] r] eqn:Hk. intros [= <- <- ->]. by exists s1, l1, x, l2.
Qed.

Lemma wrapped_ret_inv {X} wrap (m : logged S L X) s s' l x : wrapped wrap m s = (s', l, Ret x) -> m s = (s', l, Ret x).
Proof.
  intros (s1 & l1 & r & l2 & Hm & Hk & ->)%bind_ret_inv. unfold caught in Hm.
  destruct (m s) as [[s2 l3] [y | e |]]; [injection Hm as <- <- <- | injection Hm as <- <- <- | discriminate].
  - injection Hk as <- <- <-. by rewrite app_nil_r.
  - unfold fails in Hk. by destruct (wrap e).
Qed.

Lemma pure_ret_inv {X} (r : out error X) s s' l x : (pure r : logged S L X) s = (s', l, Ret x) -> s' = s /\ l = [] /\ r = Ret x.
Proof. by intros [= <- <- ->]. Qed.

Lemma emits_unfold {X} (m : logged S L X) s : forall Q, emits m Q -> Q (m s).1.2 (m s).2.
Proof. auto. Qed.
End Emits.

Section EmitsCalls.
Context `{K : Kernel}.

(** A call is made, or the descriptor has gone. *)
Lemma emits_control {X} (m : sys X) Q :
  emits m Q -> Q [] (Err (Plain NetErrClosed)) -> emits (sock_control m) Q.
Proof.
  intros H H0 s. unfold sock_control. destruct (k_control (kern s)) as [w []]; [apply H | exact H0].
Qed.

Definition set_outcome (errno : Z) : out error unit := if errno =? 0 then Ret tt else Err (errno_error errno).

Lemma emits_set level opt b Q :
  len b <> 0 -> (forall errno, Q [Did (Setsockopt level opt b) errno []] (set_outcome errno)) ->
  emits (rawSetsockopt level opt b) Q.
Proof.
  intros Hb H s. unfold rawSetsockopt. rewrite (proj2 (Z.eqb_neq _ _) Hb).
  destruct (k_setsockopt (kern s) level opt b) as [w errno]. apply H.
Qed.

Lemma len_reply_into b r : len (reply_into b r) = len b.
Proof. unfold reply_into, len. rewrite length_app, length_take, length_drop. lia. Qed.

Lemma emits_get32 level opt b Q :
  len b <> 0 ->
  (forall errno b' n, len b' = len b -> is_u32 n ->
     Q [Did (Getsockopt level opt b) errno (if errno =? 0 then b' else [])]
       (if errno =? 0 then Ret (b', n) else Err (errno_error errno))) ->
  emits (rawGetsockopt level opt b) Q.
Proof.
  intros Hb H s. unfold rawGetsockopt. rewrite (proj2 (Z.eqb_neq _ _) Hb).
  destruct (k_getsockopt (kern s) level opt b) as [w [errno [r n]]]. cbn.
  exact (H errno (reply_into b r) (u32 n) (len_reply_into b r) (Z.mod_pos_bound n (2 ^ 32) eq_refl)).
Qed.

Lemma emits_get level opt b Q :
  len b <> 0 ->
  (forall errno b' n, len b' = len b ->
     Q [Did (Getsockopt level opt b) errno (if errno =? 0 then b' else [])]
       (if errno =? 0 then Ret (b', n) else Err (errno_error errno))) ->
  emits (rawGetsockopt level opt b) Q.
Proof. intros Hb H. apply emits_get32; auto. Qed.
End EmitsCalls.

Arguments zeros n : simpl never.

(** ** getAddrs *)
Section GetAddrs.
Context `{A : Arch} `{ZE : ZoneEnv} `{K : Kernel}.

(** A query with a buffer of [size] bytes: the association id, and zeros. *)
Definition addrs_query (opt assoc size : Z) : syscall :=
  Getsockopt ipprotoSCTP opt (bytes_of NativeEndian 4 (u32 assoc) ++ zeros (size - 4)).

(** The queries that were answered ENOMEM, from size [size] on. *)
Fixpoint too_small (k : nat) (opt assoc size : Z) : calls :=
  match k with
  | O => []
  | S k => Did (addrs_query opt assoc size) ENOMEM [] :: too_small k opt assoc (size * 4)
  end.

(** What the reply in a buffer says. *)
Definition addrs_in (buf : bytes) : out error SctpAddr :=
  rest ← slice_from buf getAddrsAddrsOff;
  '(ips, port) ← decodeAddrs rest (i32 (uint_of NativeEndian (sub buf getAddrsAddrNumOff 4)));
  Ret {| IPs := ips; Port := port |}.

(** How a query of [size] bytes ended, [last] saying whether it was the
    largest: the descriptor was gone, the kernel refused, or it answered. *)
Definition query_ends (opt assoc size : Z) (last : bool) (l : calls) (r : out error SctpAddr) : Prop :=
  (l = [] /\ r = Err (Plain NetErrClosed)) \/
  (exists errno, l = [Did (addrs_query opt assoc size) errno []] /\ errno <> 0 /\ (errno = ENOMEM -> last = true) /\
     r = Err (errno_error errno)) \/
  (exists buf, l = [Did (addrs_query opt assoc size) 0 buf] /\ len buf = size /\ r = addrs_in buf).

Lemma put_head n v size :
  Z.of_nat n <= size ->
  put_at (E:=error) NativeEndian n (zeros size) 0 v = Ret (bytes_of NativeEndian n v ++ zeros (size - Z.of_nat n)).
Proof.
  intros H. replace (zeros size) with ([] ++ zeros size) by done. rewrite put_at_app; [| done | rewrite len_zeros; lia].
  unfold zeros. by rewrite drop_replicate, Z2Nat.inj_sub, Nat2Z.id by lia.
Qed.

Lemma errno_ENOMEM n : errors_Is (errno_error n) (Errno ENOMEM) = (n =? ENOMEM).
Proof.
  cbn. unfold plain_Is. rewrite orb_false_r. destruct (Z.eqb_spec n ENOMEM) as [-> | H].
  - by apply bool_decide_eq_true_2.
  - apply bool_decide_eq_false_2. congruence.
Qed.

Lemma getAddrs_turn_spec opt assoc size :
  8 <= size ->
  emits (getAddrs_turn opt assoc size) (fun l r =>
    match r with
    | Ret None => l = [Did (addrs_query opt assoc size) ENOMEM []] /\ size * 4 <= maxAddrsBuf
    | Ret (Some a) => query_ends opt assoc size (negb (size * 4 <=? maxAddrsBuf)) l (Ret a)
    | Err e => query_ends opt assoc size (negb (size * 4 <=? maxAddrsBuf)) l (Err e)
    | Panic => False
    end).
Proof.
  intros Hs. unfold getAddrs_turn. apply emits_pure_bind. change getAddrsAssocIDOff with 0.
  rewrite put_head by lia. set (q := _ ++ _).
  assert (Hq : len q = size) by (unfold q; rewrite len_app, len_bytes_of, len_zeros; lia).
  apply emits_bind, emits_caught, emits_control.
  - apply emits_get; [lia |]. intros errno b' n Hb'. destruct (Z.eqb_spec errno 0) as [-> | He]; cbn [then_].
    + apply emits_pure_bind. rewrite get4_ok by (abi; lia). apply emits_pure_bind.
      unfold slice_from. rewrite slice_ok by (abi; lia). apply emits_pure_bind.
      assert (Hin : addrs_in b' = '(ips, port) ← decodeAddrs (sub b' getAddrsAddrsOff (len b' - getAddrsAddrsOff))
        (i32 (uint_of NativeEndian (sub b' getAddrsAddrNumOff 4))); Ret {| IPs := ips; Port := port |}).
      { unfold addrs_in, slice_from. by rewrite slice_ok by (abi; lia). }
      pose proof (decodeAddrs_outcome (sub b' getAddrsAddrsOff (len b' - getAddrsAddrsOff))
        (i32 (uint_of NativeEndian (sub b' getAddrsAddrNumOff 4)))) as Hd.
      destruct (decodeAddrs _ _) as [[ips port] | e |]; cbn in Hin; [| | done].
      * apply emits_ret. right. right. exists b'. split; [done |]. split; [congruence |]. by rewrite Hin.
      * right. right. exists b'. split; [done |]. split; [congruence |]. by rewrite Hin.
    + rewrite errno_ENOMEM. destruct (Z.eqb_spec errno ENOMEM) as [-> | Hn]; cbn [andb].
      * destruct (Z.leb_spec (size * 4) maxAddrsBuf); [by apply emits_ret |].
        apply emits_fails. right. left. by exists ENOMEM.
      * apply emits_fails. right. left. exists errno. done.
  - cbn [then_]. change (errors_Is (Plain NetErrClosed) (Errno ENOMEM)) with false. cbn [andb].
    apply emits_fails. by left.
Qed.

Lemma getAddrs_loop_spec opt assoc n size :
  8 <= size -> size * 4 ^ Z.of_nat n = maxAddrsBuf ->
  emits (getAddrs_loop (S n) opt assoc size) (fun l r =>
    exists (k : nat) l', (k <= n)%nat /\ l = too_small k opt assoc size ++ l' /\
      query_ends opt assoc (size * 4 ^ Z.of_nat k) (bool_decide (k = n)) l' r /\ r <> Panic).
Proof.
  revert size. induction n as [| n IH]; intros size Hs Hn; cbn [getAddrs_loop].
  - apply emits_bind. eapply emits_mono; [by apply getAddrs_turn_spec |].
    rewrite Z.mul_1_r in Hn. rewrite (proj2 (Z.leb_gt _ _)) by lia.
    intros l [[a |] | e |] H; cbn [then_]; [| lia | | done].
    + apply emits_ret. exists 0%nat, (l ++ []). rewrite app_nil_r, Z.mul_1_r. split_and!; [lia | done | exact H | done].
    + exists 0%nat, l. rewrite Z.mul_1_r. split_and!; [lia | done | exact H | done].
  - rewrite Nat2Z.inj_succ, Z.pow_succ_r, Z.mul_assoc in Hn by lia.
    assert (Hlt : size * 4 <= maxAddrsBuf) by (pose proof (Z.pow_pos_nonneg 4 (Z.of_nat n)); nia).
    apply emits_bind. eapply emits_mono; [by apply getAddrs_turn_spec |]. rewrite (proj2 (Z.leb_le _ _) Hlt).
    intros l [[a |] | e |] H; cbn [then_]; [| | | done].
    + apply emits_ret. exists 0%nat, (l ++ []). rewrite app_nil_r, Z.mul_1_r. split_and!; [lia | done | exact H | done].
    + destruct H as [-> _]. eapply emits_mono; [apply (IH (size * 4)); [lia | exact Hn] |].
      intros l r (k & l' & Hk & -> & He & Hp). exists (S k), l'. split; [lia |]. split; [done |]. split; [| done].
      rewrite Nat2Z.inj_succ, Z.pow_succ_r, Z.mul_assoc by lia.
      rewrite (bool_decide_ext (S k = S n) (k = n)) by lia. exact He.
    + exists 0%nat, l. rewrite Z.mul_1_r. split_and!; [lia | done | exact H | done].
Qed.

(** An address list is asked for with a buffer of 4 KiB, and again with
    one four times larger as long as the kernel answers ENOMEM, up to 256
    KiB, so in at most four calls, each naming the association; the query
    always ends, never panics, and reports the kernel's errno, or what the
    reply's own count and entries say, whatever length the kernel reports. *)
Theorem getAddrs_spec opt assoc s :
  let '(_, l, r) := getAddrs opt assoc s in
  r <> Panic /\
  exists (k : nat) l', (k <= 3)%nat /\ l = too_small k opt assoc 4096 ++ l' /\
    query_ends opt assoc (4096 * 4 ^ Z.of_nat k) (bool_decide (k = 3%nat)) l' r.
Proof.
  pose proof (emits_unfold (getAddrs opt assoc) s _ (getAddrs_loop_spec opt assoc 3 4096 ltac:(lia) eq_refl)) as H.
  destruct (getAddrs opt assoc s) as [[s' l] r]. destruct H as (k & l' & Hk & Hl & He & Hp). eauto 6.
Qed.

(** A kernel that knows the list [ips], bound to [port] in family [family],
    and answers as Linux does: ENOMEM when the header and the entries do not
    fit, and otherwise the count and the entries, with any length. *)
Definition knows_addrs (opt : Z) (entries : bytes) (n : Z) : Prop :=
  (forall w, k_control w = (w, true)) /\
  forall w b, exists l,
    k_getsockopt w ipprotoSCTP opt b =
      (w, if len b <? sizeGetAddrs + len entries then (ENOMEM, ([], l))
          else (0, (take 4 b ++ bytes_of NativeEndian 4 n ++ entries, l))).

Lemma reply_len b entries n :
  sizeGetAddrs + len entries <= len b ->
  exists rest, len rest = len b - sizeGetAddrs - len entries /\
  reply_into b (take 4 b ++ bytes_of NativeEndian 4 n ++ entries) = take 4 b ++ bytes_of NativeEndian 4 n ++ entries ++ rest.
Proof.
  intros H. pose proof (len_nonneg entries). change sizeGetAddrs with 8 in *. unfold reply_into.
  assert (Hl : length (take 4 b ++ bytes_of NativeEndian 4 n ++ entries) = (8 + length entries)%nat).
  { rewrite !length_app, length_take, length_bytes_of. unfold len in *. lia. }
  rewrite Hl, take_ge by (rewrite Hl; unfold len in *; lia).
  eexists (drop (8 + length entries) b). split; [rewrite len_drop_Z; unfold len in *; lia |].
  by rewrite <- !app_assoc.
Qed.

Lemma addrs_in_reply family ips port entries b rest :
  Forall addr_wf ips -> is_u16 port -> encodeAddrs family ips port = Ret entries -> len ips < 2 ^ 31 -> 4 <= len b ->
  addrs_in (take 4 b ++ bytes_of NativeEndian 4 (len ips) ++ entries ++ rest) =
  Ret {| IPs := map (decoded family) ips; Port := if bool_decide (ips = []) then 0 else port |}.
Proof.
  intros Hwf Hp He Hn Hb. pose proof (len_nonneg ips). unfold addrs_in, slice_from.
  pose proof (len_nonneg entries). pose proof (len_nonneg rest). set (q := take 4 b ++ _).
  assert (Hq : len q = 8 + len entries + len rest).
  { unfold q. rewrite !len_app, len_take, len_bytes_of. lia. }
  change getAddrsAddrsOff with 8. change getAddrsAddrNumOff with 4.
  assert (H4 : len (take 4 b) = 4) by (rewrite len_take; lia).
  rewrite slice_ok by lia. next.
  assert (Hrest : sub q 8 (len q - 8) = entries ++ rest).
  { rewrite Hq. unfold q. rewrite app_assoc, sub_app_r by (rewrite len_app, len_bytes_of; lia).
    rewrite len_app, H4, len_bytes_of. apply sub_full. rewrite len_app. lia. }
  assert (Hcount : uint_of NativeEndian (sub q 4 4) = len ips).
  { unfold q. rewrite sub_app_r by lia. rewrite H4. change (4 - 4) with 0. rewrite sub_app_l by (rewrite ?len_bytes_of; lia).
    rewrite sub_full by (rewrite len_bytes_of; lia). rewrite uint_of_4. apply u32_small. unfold is_u32. lia. }
  rewrite Hrest, Hcount. replace (i32 (len ips)) with (len ips).
  - by rewrite (decode_encodeAddrs family ips port entries rest Hwf Hp He).
  - unfold i32. rewrite u32_small by (unfold is_u32; lia). by rewrite (proj2 (Z.ltb_lt _ _)) by lia.
Qed.

Lemma getAddrs_turn_finds family opt assoc ips port entries s size :
  Forall addr_wf ips -> is_u16 port -> encodeAddrs family ips port = Ret entries -> len ips < 2 ^ 31 ->
  knows_addrs opt entries (len ips) -> 8 <= size -> size * 4 <= maxAddrsBuf \/ sizeGetAddrs + len entries <= size ->
  (getAddrs_turn opt assoc size s).2 =
    (if size <? sizeGetAddrs + len entries then Ret None
     else Ret (Some {| IPs := map (decoded family) ips; Port := if bool_decide (ips = []) then 0 else port |})) /\
  (getAddrs_turn opt assoc size s).1.1 = s.
Proof.
  intros Hwf Hp He Hn [Hc Hk] Hs Hfit. unfold getAddrs_turn, getsockopt, getsockoptAt, sock_control, rawGetsockopt, pure.
  change getAddrsAssocIDOff with 0. rewrite put_head by lia. set (q := _ ++ _).
  assert (Hq : len q = size) by (unfold q; rewrite len_app, len_bytes_of, len_zeros; lia).
  run_sys. rewrite Hc. cbn. rewrite (proj2 (Z.eqb_neq (len q) 0)) by lia.
  destruct (Hk (kern s) q) as [l Hkq]. rewrite Hkq, Hq. destruct s as [w cache]. cbn [kern storageLayoutCache].
  destruct (Z.ltb_spec size (sizeGetAddrs + len entries)) as [Hlt | Hge].
  - cbn. rewrite (proj2 (Z.leb_le _ _)) by lia. done.
  - cbn. destruct (reply_len q entries (len ips)) as (rest & Hr & Hrep); [rewrite Hq; exact Hge |].
    rewrite Hrep. pose proof (addrs_in_reply family ips port entries q rest Hwf Hp He Hn ltac:(lia)) as Hin.
    set (buf := take 4 q ++ _ ++ entries ++ rest) in *. unfold addrs_in in Hin. change sizeGetAddrs with 8 in *.
    assert (Hbuf : len buf = size).
    { unfold buf. rewrite !len_app, len_take, len_bytes_of. change (Z.of_nat 4) with 4. lia. }
    rewrite get4_ok by (abi; lia). unfold slice_from in *. rewrite slice_ok in * by (abi; lia). next.
    cbn in Hin. destruct (decodeAddrs _ _) as [[ips' port'] | |]; [| done..]. cbn in *. by injection Hin as -> ->.
Qed.

(** getAddrs finds the list: asked of a kernel that answers as Linux
    does, ENOMEM as long as the list does not fit the buffer and then the
    count and the packed addresses, it returns exactly the addresses, in
    plain form, with their port, for every list that fits 256 KiB. *)
Theorem getAddrs_finds family opt assoc ips port entries s
    (Hwf : Forall addr_wf ips) (Hp : is_u16 port) (He : encodeAddrs family ips port = Ret entries)
    (Hk : knows_addrs opt entries (len ips)) (Hfit : sizeGetAddrs + len entries <= maxAddrsBuf) :
  (getAddrs opt assoc s).2 =
  Ret {| IPs := map (decoded family) ips; Port := if bool_decide (ips = []) then 0 else port |}.
Proof.
  assert (Hn : len ips < 2 ^ 31).
  { pose proof (decodeAddrs_outcome (entries ++ []) (len ips)) as Hd.
    rewrite (decode_encodeAddrs family ips port entries [] Hwf Hp He), app_nil_r in Hd. destruct Hd as (_ & Hd & _).
    change sizeSockaddrIn with 16 in Hd. change sizeGetAddrs with 8 in Hfit. change maxAddrsBuf with 262144 in Hfit. lia. }
  unfold getAddrs. assert (Hgen : forall n size s, 8 <= size -> size * 4 ^ Z.of_nat n = maxAddrsBuf ->
    (getAddrs_loop (S n) opt assoc size s).2 =
    Ret {| IPs := map (decoded family) ips; Port := if bool_decide (ips = []) then 0 else port |}).
  { clear s. induction n as [| n IH]; intros size s Hs Hm.
    - destruct (getAddrs_turn_finds family opt assoc ips port entries s size Hwf Hp He Hn Hk Hs) as [Hr Hs']; [right; lia |].
      rewrite (proj2 (Z.ltb_ge _ _)) in Hr by lia. exact (bind_run _ _ _ _ _ Hr Hs').
    - rewrite Nat2Z.inj_succ, Z.pow_succ_r, Z.mul_assoc in Hm by lia.
      assert (Hlt : size * 4 <= maxAddrsBuf) by (pose proof (Z.pow_pos_nonneg 4 (Z.of_nat n)); nia).
      destruct (getAddrs_turn_finds family opt assoc ips port entries s size Hwf Hp He Hn Hk Hs) as [Hr Hs']; [by left |].
      destruct (Z.ltb_spec size (sizeGetAddrs + len entries)); [| exact (bind_run _ _ _ _ _ Hr Hs')].
      etransitivity; [exact (bind_run _ _ _ _ _ Hr Hs') | exact (IH (size * 4) s ltac:(lia) Hm)]. }
  apply (Hgen 3%nat); [lia | done].
Qed.
End GetAddrs.

(** The numbers of linux/amd64. *)
Definition amd64_numbers : Numbers := {|
  SOL_SOCKET := 1; SO_RCVBUF := 8; SO_SNDBUF := 7; SO_PROTOCOL := 38; SO_TYPE := 3; SO_DOMAIN := 39;
  SO_ACCEPTCONN := 30; SO_ERROR := 4; SO_LINGER := 13; IPPROTO_IPV6 := 41; IPV6_V6ONLY := 26;
  SOCK_STREAM := 1; SOCK_SEQPACKET := 5; SOCK_NONBLOCK := 0x800; SOCK_CLOEXEC := 0x80000 |}.

(** ** A kernel for the witnesses

    It keeps nothing, and knows one address list. *)
Definition list_kernel `{A : Arch} (entries : bytes) (n : Z) : Kernel := {|
  numbers := amd64_numbers;
  world := unit;
  k_control w := (w, true);
  k_setsockopt w _ _ _ := (w, 0);
  k_getsockopt w _ _ b :=
    (w, if len b <? sizeGetAddrs + len entries then (ENOMEM, ([], 0))
        else (0, (take 4 b ++ bytes_of NativeEndian 4 n ++ entries, 0))) |}.

(** 300 addresses, which take two queries. *)
Definition many_addrs : list Addr := replicate 300 (Addr4 [Byte.x0a; Byte.x00; Byte.x00; Byte.x01]).

Definition many_entries : bytes :=
  concat (replicate 300 (sockaddr_in_bytes (A := amd64) 7 [Byte.x0a; Byte.x00; Byte.x00; Byte.x01])).

#[local] Instance many_kernel : Kernel := list_kernel (A := amd64) many_entries 300.

Lemma getAddrs_finds_witness :
  encodeAddrs (A := amd64) (ZE := host_zones) afInet many_addrs 7 = Ret many_entries /\
  (getAddrs (A := amd64) (ZE := host_zones) optGetPeerAddrs 5 {| kern := tt; storageLayoutCache := storageLayoutUnknown |}).2 =
  Ret {| IPs := map (decoded (A := amd64) (ZE := host_zones) afInet) many_addrs; Port := if bool_decide (many_addrs = []) then 0 else 7 |}.
Proof.
  assert (He : encodeAddrs (A := amd64) (ZE := host_zones) afInet many_addrs 7 = Ret many_entries)
    by (vm_compute; reflexivity).
  split; [exact He |].
  apply (getAddrs_finds (A := amd64) (ZE := host_zones) afInet optGetPeerAddrs 5 many_addrs 7 many_entries).
  - apply Forall_replicate. reflexivity.
  - unfold is_u16. lia.
  - exact He.
  - split; [reflexivity |]. intros w b. exists 0. reflexivity.
  - vm_compute. discriminate.
Defined.
