(* ===== verification/Resolve.v ===== *)
(** * Resolving addresses (src/addr.go)

    ResolveAddr and ResolveAddrContext, which turn "host1/host2:port" into
    an Addr: the parsing of the list and of the port, the literals, and the
    host names, one lookup each.

    [Resolver] is what net.DefaultResolver.LookupNetIP answers, and Err() of
    the caller's context, which may depend on everything before; a call is
    logged.  [ByBackground] is context.Background, which is never done.

    The theorems: the text an Addr prints resolves to that Addr again, with
    no lookup ([resolve_String]); and, whatever the resolver answers, the
    elements are resolved in order, each name with one lookup whose answer
    is the address taken, up to the first element that fails and nothing
    after it; what ResolveAddr returns is in the plain form the rest of the
    package needs when the answers are addresses ([resolve_spec]). *)
From Stdlib Require Import ZArith Lia Bool Ascii.
From stdpp Require Import base list option strings pretty.
From coqutil Require Import Byte.
From S2P Require Import Prelude Abi Errors Enums Netip NetipText Sockaddr Addr Sys.

Inductive resolveCtx := ByBackground | ByCaller.

Class Resolver := {
  names : Type;
  names_Err : names -> names * option error;
  names_LookupNetIP : names -> resolveCtx -> string -> string -> names * (list Addr + error);
}.

(** A call of LookupNetIP and its answer. *)
Inductive looked := Looked (network host : string) (answer : list Addr + error).

Section Resolve.
Context `{R : Resolver}.

Definition ctx_Err (ctx : resolveCtx) : logged names looked (option error) := fun s =>
  match ctx with
  | ByBackground => (s, [], Ret None)
  | ByCaller => let '(s, e) := names_Err s in (s, [], Ret e)
  end.

Definition lookupNetIP (ctx : resolveCtx) (network host : string) : logged names looked (list Addr) := fun s =>
  let '(s, r) := names_LookupNetIP s ctx network host in
  (s, [Looked network host r], match r with inl ips => Ret ips | inr e => Err e end).

(** The network of a lookup, and the error when it finds nothing. *)
Definition lookup_network (network : string) : string :=
  if bool_decide (network = "sctp4") then "ip4" else if bool_decide (network = "sctp6") then "ip6" else "ip".
Definition no_address (network : string) : error :=
  if bool_decide (network = "sctp4") then invalidArg "host %q has no IPv4 address"
  else if bool_decide (network = "sctp6") then invalidArg "host %q has no IPv6 address"
  else invalidArg "host %q has no address".

(** The answer that is taken: the first, or with no family asked for the
    first IPv4 one. *)
Definition chosen (network : string) (ip : Addr) (ips : list Addr) : Addr :=
  if bool_decide (network = "sctp4") || bool_decide (network = "sctp6") then ip
  else default ip (List.find (fun ip => Is4 (Unmap ip)) (ip :: ips)).

Definition resolveHost (ctx : resolveCtx) (network host : string) : logged names looked Addr :=
  match ParseAddr host with
  | Some ip => pure (normalizeResolvedAddr ip)
  | None =>
      if contains ":" host || contains "%" host then fails (Some (invalidArg "invalid host %q")) else
      done ← ctx_Err ctx;
      match done with
      | Some e => fails (Some e)
      | None =>
          ips ← lookupNetIP ctx (lookup_network network) host;
          match ips with
          | [] => fails (Some (no_address network))
          | ip :: ips => pure (normalizeResolvedAddr (chosen network ip ips))
          end
      end
  end.

(** The loop over the elements: [hosts] are what is left of them. *)
Fixpoint resolve_loop (ctx : resolveCtx) (network : string) (hosts : list string) (ips : list Addr) : logged names looked (list Addr) :=
  match hosts with
  | [] => mret ips
  | host :: hosts =>
      let host := unbracketHost host in
      if bool_decide (host = "") then fails (Some (invalidArg "address %q names no host")) else
      ip ← resolveHost ctx network host;
      if bool_decide (network = "sctp4") && negb (Is4 (Unmap ip)) then fails (Some (invalidArg "sctp4 address %d (%s) is not IPv4")) else
      resolve_loop ctx network hosts (ips ++ [ip])
  end.

(** [elems] with the host of the last one in its place. *)
Definition with_last (elems : list string) (host : string) : list string := removelast elems ++ [host].

Definition ResolveAddrContext (ctx : option resolveCtx) (network address : string) : logged names looked SctpAddr :=
  match ctx with
  | None => fails (Some (invalidArg "ResolveAddrContext needs a non-nil context"))
  | Some ctx =>
      _ ← pure (canonicalNetwork network []);
      let elems := Split address "/" in
      match last elems with
      | None => pure Panic
      | Some e =>
          match SplitHostPort e with
          | None => fails (Some (invalidArg "%v"))
          | Some (lastHost, portStr) =>
              match ParseUint portStr 16 with
              | None => fails (Some (invalidArg "address %q: invalid port %q"))
              | Some port =>
                  if (len elems =? 1) && bool_decide (lastHost = "") then mret {| IPs := []; Port := port |} else
                  ips ← resolve_loop ctx network (with_last elems lastHost) [];
                  _ ← pure (canonicalNetwork network ips);
                  mret {| IPs := ips; Port := port |}
              end
          end
      end
  end.

Definition ResolveAddr (network address : string) : logged names looked SctpAddr := ResolveAddrContext (Some ByBackground) network address.
End Resolve.

#[export] Instance netip_text : IPText := { ip_String := Addr_String }.

(** ** The text of an Addr resolves to it *)
Section Text.
Context `{R : Resolver}.

(** A zone that String can write between brackets. *)
Definition zone_fits (zone : string) : Prop := contains "/" zone = false /\ contains "[" zone = false /\ contains "]" zone = false.

Definition printable (ip : Addr) : Prop := addr_wf ip /\ plain_form ip /\ zone_fits (Zone ip).

Lemma contains_text c ip : printable ip -> c = "/"%char \/ c = "["%char \/ c = "]"%char -> contains c (Addr_String ip) = false.
Proof.
  intros (Hwf & (Hv & H4 & _) & Hz1 & Hz2 & Hz3) Hcs.
  destruct ip as [| b | b zone]; [done | |].
  - eapply contains_false; [apply string4_chars |]. by destruct Hcs as [-> | [-> | ->]].
  - unfold Addr_String. rewrite H4, contains_app. apply orb_false_iff. split.
    + eapply contains_false; [apply string6_chars |]. by destruct Hcs as [-> | [-> | ->]].
    + unfold zone_text. case_bool_decide; [done |]. by destruct Hcs as [-> | [-> | ->]].
Qed.

Lemma last_but_last s : forall d rest, s +:+ "]" = String d rest -> last_byte d rest = "]"%char /\ but_last d rest = s.
Proof.
  induction s as [| c s IH]; intros d rest E; [by injection E as <- <- |]. rewrite append_String in E. injection E as <- <-.
  destruct (s +:+ "]") as [| d rest] eqn:E; [by destruct s |]. destruct (IH d rest eq_refl) as [H1 H2]. split; [exact H1 |]. cbn [but_last]. by rewrite H2.
Qed.

Lemma unbracket_bracketed s : unbracketHost ("[" +:+ s +:+ "]") = s.
Proof.
  change ("[" +:+ s +:+ "]") with (String "[" (s +:+ "]")). destruct (s +:+ "]") as [| d rest] eqn:E; [by destruct s |].
  destruct (last_but_last s d rest E) as [H1 H2]. cbn [unbracketHost]. by rewrite H1, H2.
Qed.

Lemma unbracket_plain s : contains "[" s = false -> unbracketHost s = s.
Proof.
  destruct s as [| c [| d s]]; [done | done |]. cbn [contains unbracketHost]. rewrite (eqb_sym "[" c). by intros [-> _]%orb_false_iff.
Qed.

Lemma ip_text_plain ip : plain_form ip -> ip_text ip = if Is4 ip then Addr_String ip else "[" +:+ Addr_String ip +:+ "]".
Proof. intros (Hv & H4 & _). unfold ip_text. by rewrite Unmap_id. Qed.

Lemma contains_ip_text ip : printable ip -> contains "/" (ip_text ip) = false.
Proof.
  intros Hp. rewrite ip_text_plain by apply Hp. pose proof (contains_text "/" ip Hp ltac:(auto)) as Hc.
  destruct (Is4 ip); [done |]. by rewrite !contains_app, Hc.
Qed.

Lemma unbracket_ip_text ip : printable ip -> unbracketHost (ip_text ip) = Addr_String ip.
Proof.
  intros Hp. rewrite ip_text_plain by apply Hp. destruct (Is4 ip); [| apply unbracket_bracketed].
  apply unbracket_plain, contains_text; [done | auto].
Qed.

Lemma pretty_free c p : 0 <= p -> is_digit c = false -> contains c (pretty p) = false.
Proof. intros Hp Hc. eapply contains_false; [by apply pretty_digits | done]. Qed.

Lemma SplitHostPort_text ip p : printable ip -> 0 <= p -> SplitHostPort (ip_text ip +:+ ":" +:+ pretty p) = Some (Addr_String ip, pretty p).
Proof.
  intros Hp H0. rewrite ip_text_plain by apply Hp. pose proof (contains_text "[" ip Hp ltac:(auto)). pose proof (contains_text "]" ip Hp ltac:(auto)).
  destruct (Is4 ip) eqn:H4; [apply SplitHostPort_plain | rewrite !string_app_assoc; apply SplitHostPort_bracketed]; try done; try by apply pretty_free.
  destruct ip as [| b |]; try done. eapply contains_false; [apply string4_chars | done].
Qed.

Lemma ips_text_concat ips : ips_text ips = String.concat "/" (ip_text <$> ips).
Proof. induction ips as [| ip [| ip' ips] IH]; [done | done |]. cbn [ips_text fmap list_fmap] in *. by rewrite IH. Qed.

Lemma concat_snoc_app sep l x t : String.concat sep (l ++ [x]) +:+ t = String.concat sep (l ++ [x +:+ t]).
Proof.
  induction l as [| y l IH]; [done |]. cbn [app]. destruct (l ++ [x]) as [| z r] eqn:E; [by destruct l |].
  destruct (l ++ [x +:+ t]) as [| z' r'] eqn:E'; [by destruct l |].
  change (String.concat sep (y :: z :: r)) with (y +:+ sep +:+ String.concat sep (z :: r)).
  change (String.concat sep (y :: z' :: r')) with (y +:+ sep +:+ String.concat sep (z' :: r')). by rewrite !string_app_assoc, IH.
Qed.

Lemma Split_text ips ip p : Forall printable ips -> printable ip -> 0 <= p ->
  Split (SctpAddr_String (Some {| IPs := ips ++ [ip]; Port := p |})) "/" = (ip_text <$> ips) ++ [ip_text ip +:+ ":" +:+ pretty p].
Proof.
  intros Hips Hip Hp. cbn [SctpAddr_String IPs Port]. rewrite ips_text_concat, fmap_app. cbn [fmap list_fmap]. rewrite concat_snoc_app.
  apply Split_concat; [intros [_ E]%app_eq_nil; discriminate E |]. apply Forall_app. split.
  - apply Forall_fmap. eapply Forall_impl; [exact Hips |]. intros x Hx. by apply contains_ip_text.
  - repeat constructor. rewrite !contains_app, contains_ip_text by done. by rewrite (pretty_free "/" p).
Qed.

(** ** A literal needs no lookup *)
Lemma normalize_id ip : plain_form ip -> normalizeResolvedAddr ip = Ret ip.
Proof.
  intros (Hv & H4 & Hz). unfold normalizeResolvedAddr. rewrite H4. case_bool_decide as E; [done |]. destruct (Hz E) as [-> _]. done.
Qed.

Lemma resolveHost_literal ctx network ip s : printable ip -> resolveHost ctx network (Addr_String ip) s = (s, [], Ret ip).
Proof.
  intros (Hwf & Hp & _). unfold resolveHost. rewrite ParseAddr_String; [| apply Hp | done]. unfold pure. by rewrite normalize_id.
Qed.

Lemma Addr_String_ne ip : printable ip -> Addr_String ip <> "".
Proof. intros (Hwf & Hp & _) E. pose proof (ParseAddr_String ip ltac:(apply Hp) Hwf) as H. by rewrite E in H. Qed.

Lemma resolve_literals ctx network hosts ips acc s :
  Forall2 (fun host ip => unbracketHost host = Addr_String ip) hosts ips -> Forall printable ips ->
  (network = "sctp4" -> Forall (fun ip => Is4 (Unmap ip) = true) ips) ->
  resolve_loop ctx network hosts acc s = (s, [], Ret (acc ++ ips)).
Proof.
  intros H. revert acc. induction H as [| host ip hosts ips Hh Hrest IH]; intros acc Hp H4; [cbn [resolve_loop]; by rewrite app_nil_r |].
  apply Forall_cons in Hp as [Hip Hips]. cbn [resolve_loop]. cbv zeta. rewrite Hh, bool_decide_eq_false_2 by (by apply Addr_String_ne).
  unfold mbind, sys_bind. rewrite resolveHost_literal by done.
  replace (bool_decide (network = "sctp4") && negb (Is4 (Unmap ip))) with false.
  2:{ case_bool_decide as E; [| done]. specialize (H4 E). apply Forall_cons in H4 as [-> _]. done. }
  rewrite IH; [by rewrite <- app_assoc | done |]. intros E. specialize (H4 E). by apply Forall_cons in H4 as [_ ?].
Qed.

Lemma canonical_ok4 network ips family :
  canonicalNetwork network ips = Ret family -> network = "sctp4" -> Forall (fun ip => Is4 (Unmap ip) = true) ips.
Proof. intros Hc ->. apply existsb_not4. unfold canonicalNetwork in Hc. simpl in Hc. by destruct (existsb _ ips). Qed.

Lemma canonical_name network ips family : canonicalNetwork network ips = Ret family -> exists family', canonicalNetwork network [] = Ret family'.
Proof. unfold canonicalNetwork. repeat case_bool_decide; cbn [orb existsb]; try (by eexists); try done; destruct (existsb _ ips); by eexists. Qed.

(** C38 An Addr prints as text that resolves to it: for every Addr whose
    addresses are in the plain form the package produces and whose zones can
    stand between brackets, and every network that can carry them,
    ResolveAddrContext of its String is the Addr itself, the wildcard with
    no address included, with no lookup, whatever the resolver and the
    context do. *)
Theorem resolve_String ctx network a family s
    (Hp : Forall printable (IPs a)) (Hport : 0 <= Port a < 65536) (Hn : canonicalNetwork network (IPs a) = Ret family) :
  ResolveAddrContext (Some ctx) network (SctpAddr_String (Some a)) s = (s, [], Ret a).
Proof.
  destruct (canonical_name _ _ _ Hn) as [family' Hname]. destruct a as [ips port]. cbn [IPs Port] in *. unfold ResolveAddrContext, mbind, sys_bind, pure at 1. rewrite Hname.
  cbn [app]. destruct (decide (ips = [])) as [-> | Hne]; [| destruct (exists_last Hne) as (init & ip & ->)].
  - change (SctpAddr_String _) with ("" +:+ ":" +:+ pretty port). rewrite Split_none by (change (contains "/" (pretty port) = false); apply pretty_free; [lia | done]). cbn [last].
    rewrite SplitHostPort_plain by (done || (apply pretty_free; [lia | done])). by rewrite ParseUint_pretty by exact Hport.
  - apply Forall_app in Hp as [Hinit Hip]. apply Forall_cons in Hip as [Hip _]. rewrite (Split_text init ip port Hinit Hip (proj1 Hport)). rewrite last_snoc.
    rewrite SplitHostPort_text by (done || lia). rewrite ParseUint_pretty by exact Hport. rewrite (bool_decide_eq_false_2 _ (Addr_String_ne ip Hip)), andb_false_r.
    unfold with_last. rewrite removelast_last. rewrite (resolve_literals _ _ _ (init ++ [ip])).
    + cbn [app]. unfold pure. by rewrite Hn.
    + apply Forall2_app; [| repeat constructor; by apply unbracket_plain, contains_text; auto].
      apply Forall2_fmap_l, Forall_Forall2_diag. eapply Forall_impl; [exact Hinit |]. intros x Hx. by apply unbracket_ip_text.
    + apply Forall_app. split; [done |]. constructor; [done | constructor].
    + by apply (canonical_ok4 _ _ family).
Qed.
End Text.

(** ** Whatever the resolver answers *)
Section Spec.
Context `{R : Resolver}.

(** The addresses of the answers in a log are addresses. *)
Definition answers_valid (l : list looked) : Prop :=
  forall network host ips, Looked network host (inl ips) ∈ l -> Forall (fun ip => IsValid ip = true) ips.

(** The elements of an address, and those of them that are names. *)
Definition hosts_of (address : string) : list string :=
  match last (Split address "/") with
  | Some e => match SplitHostPort e with
              | Some (host, _) => unbracketHost <$> with_last (Split address "/") host
              | None => []
              end
  | None => []
  end.
Definition is_name (host : string) : Prop := host <> "" /\ ParseAddr host = None.
#[local] Instance is_name_dec host : Decision (is_name host).
Proof. unfold is_name. apply _. Defined.

(** The port of an address. *)
Definition port_of (address : string) : option Z :=
  e ← last (Split address "/"); '(_, port) ← SplitHostPort e; ParseUint port 16.

(** The address of an answer that is taken: the first, or with no family
    asked for the first that is IPv4, if one is. *)
Definition is_v4 (ip : Addr) : Prop := Is4 (Unmap ip) = true.
Definition picked (network : string) (ips : list Addr) (raw : Addr) : Prop :=
  if decide (network = "sctp4" \/ network = "sctp6") then head ips = Some raw
  else (exists before after, ips = before ++ raw :: after /\ Forall (fun ip => ~ is_v4 ip) before /\ is_v4 raw) \/
       (head ips = Some raw /\ Forall (fun ip => ~ is_v4 ip) ips).

(** An element becomes an address: a literal with no lookup, a name with
    one, whose answer has it. *)
Definition resolves (network host : string) (l : list looked) (ip : Addr) : Prop :=
  (exists raw, ParseAddr host = Some raw /\ normalizeResolvedAddr raw = Ret ip /\ l = []) \/
  (is_name host /\ exists ips raw, l = [Looked (lookup_network network) host (inl ips)] /\
     picked network ips raw /\ normalizeResolvedAddr raw = Ret ip).
Definition taken (network host : string) (l : list looked) (ip : Addr) : Prop :=
  resolves network host l ip /\ (network = "sctp4" -> is_v4 ip).

(** An element is refused: it cannot be taken with the lookup that was made
    of it, whose error is the one reported; and a name that was not looked
    up is malformed, or the caller's context was asked. *)
Definition refused (ctx : resolveCtx) (network host : string) (l : list looked) (e : error) : Prop :=
  (forall ip, ~ taken network host l ip) /\
  ((l = [] /\ (is_name host -> contains ":" host = true \/ contains "%" host = true \/ ctx = ByCaller)) \/
   (is_name host /\ exists answer, l = [Looked (lookup_network network) host answer] /\ forall x, answer = inr x -> e = x)).

Definition already_done (ctx : resolveCtx) : Prop := ctx = ByCaller /\ forall s, (names_Err s).2 <> None.

Lemma ParseAddr_valid s ip : ParseAddr s = Some ip -> IsValid ip = true.
Proof.
  unfold ParseAddr. destruct (first_of s) as [c |]; [| done]. cbn [mbind option_bind].
  assert (Hfrom : forall zone e s ip, parseIPv6_from zone e s = Some ip -> IsValid ip = true).
  { intros zone e s0 ip0. unfold parseIPv6_from. destruct (parseIPv6_loop _ _ _ _) as [[[? ?] ?] |]; [| done]. cbn [mbind option_bind].
    destruct (negb _); [done |]. destruct (expand _ _); [| done]. by intros [= <-]. }
  repeat case_match; try done.
  - unfold parseIPv4. destruct (parseIPv4Fields _ _ _ _); [| done]. by intros [= <-].
  - unfold parseIPv6. match goal with |- ((?m ≫= _) = _) -> _ => destruct m as [[s' zone] |] end; [| done]. cbn [mbind option_bind].
    intros Hp. repeat (case_match; try (by eapply Hfrom)). by injection Hp as <-.
Qed.

Lemma chosen_picked network ip ips : picked network (ip :: ips) (chosen network ip ips).
Proof.
  unfold picked, chosen. destruct (decide _) as [Hd | Hd].
  - destruct Hd as [-> | ->]; done.
  - rewrite !bool_decide_eq_false_2 by tauto. cbn [orb].
    destruct (List.find (fun ip => Is4 (Unmap ip)) (ip :: ips)) as [raw |] eqn:E; [left | right].
    + cbn [default from_option]. clear Hd. revert E. induction (ip :: ips) as [| x xs IH]; [done |]. cbn [List.find].
      destruct (Is4 (Unmap x)) eqn:Hx.
      * intros [= <-]. by exists [], xs.
      * intros E. destruct (IH E) as (before & after & -> & Hb & Hr). exists (x :: before), after. split_and!; [done | | done].
        constructor; [| done]. unfold is_v4. by rewrite Hx.
    + split; [done |]. apply Forall_forall. intros x Hx. unfold is_v4. rewrite (List.find_none _ _ E); [done |]. by apply list_elem_of_In.
Qed.

Lemma picked_functional network ips r1 r2 : picked network ips r1 -> picked network ips r2 -> r1 = r2.
Proof.
  assert (Hone : forall (b1 b2 a1 a2 : list Addr), b1 ++ r1 :: a1 = b2 ++ r2 :: a2 ->
    Forall (fun ip => ~ is_v4 ip) b1 -> Forall (fun ip => ~ is_v4 ip) b2 -> is_v4 r1 -> is_v4 r2 -> r1 = r2).
  { intros b1. induction b1 as [| x b1 IH]; intros [| y b2] a1 a2 [= E1 E2] H1 H2 V1 V2; subst; try done.
    - by apply Forall_cons in H2 as [? _].
    - by apply Forall_cons in H1 as [? _].
    - apply Forall_cons in H1 as [_ H1], H2 as [_ H2]. by eapply IH. }
  assert (Hno : forall b a r, ips = b ++ r :: a -> is_v4 r -> Forall (fun ip => ~ is_v4 ip) ips -> False).
  { intros b a r -> Hr [_ [Hn _]%Forall_cons]%Forall_app. done. }
  unfold picked. destruct (decide _); [congruence |].
  intros [(b1 & a1 & E1 & H1 & V1) | [E1 H1]] [(b2 & a2 & E2 & H2 & V2) | [E2 H2]];
    [eapply Hone; [by rewrite <- E1 | ..]; done | exfalso; by eapply Hno | exfalso; by eapply Hno | congruence].
Qed.

Lemma picked_in network ips raw : picked network ips raw -> raw ∈ ips.
Proof.
  assert (Hh : forall ips : list Addr, head ips = Some raw -> raw ∈ ips) by (intros [| x xs]; [done |]; intros [= ->]; by left).
  unfold picked. destruct (decide _); [by apply Hh |]. intros [(b & a & -> & _) | [? _]]; [apply elem_of_app; right; left | by apply Hh].
Qed.

(** What an element becomes is plain, when its answer is of addresses. *)
Lemma resolves_plain network host l ip : resolves network host l ip -> answers_valid l -> plain_form ip.
Proof.
  intros [(raw & Hp & Hn & ->) | (_ & ips & raw & -> & Hp & Hn)] Hv.
  - apply (normalize_plain raw); [done | by eapply ParseAddr_valid].
  - apply (normalize_plain raw); [done |]. specialize (Hv _ _ ips ltac:(by left)).
    eapply Forall_forall in Hv; [exact Hv |]. by eapply picked_in.
Qed.

(** One element, which a done context keeps from being looked up. *)
Definition resolved1 (ctx : resolveCtx) (network host : string) (l : list looked) (r : out error Addr) : Prop :=
  (already_done ctx -> l = []) /\
  match r with Ret ip => resolves network host l ip | Err e => refused ctx network host l e | Panic => False end.

Lemma emits_ctx_Err ctx (Q : list looked -> out error (option error) -> Prop) :
  (forall e, match e with None => ~ already_done ctx | Some _ => ctx = ByCaller end -> Q [] (Ret e)) -> emits (ctx_Err ctx) Q.
Proof.
  intros H s. unfold ctx_Err. destruct ctx; cbn [fst snd]; [apply H; by intros [? _] |].
  destruct (names_Err s) as [s' e] eqn:E. cbn [fst snd]. apply H. destruct e; [done |]. intros [_ Hd]. specialize (Hd s). by rewrite E in Hd.
Qed.

Lemma emits_lookupNetIP ctx network host (Q : list looked -> out error (list Addr) -> Prop) :
  (forall ips, Q [Looked network host (inl ips)] (Ret ips)) ->
  (forall e, Q [Looked network host (inr e)] (Err e)) -> emits (lookupNetIP ctx network host) Q.
Proof.
  intros H1 H2 s. unfold lookupNetIP. destruct (names_LookupNetIP s ctx network host) as [s' [ips | e]]; cbn [fst snd]; [apply H1 | apply H2].
Qed.

Lemma not_taken network host l : (forall ip, ~ resolves network host l ip) -> forall ip, ~ taken network host l ip.
Proof. intros H ip [Hr _]. by apply (H ip). Qed.

(** A literal. *)
Lemma literal_out ctx network host raw : ParseAddr host = Some raw ->
  resolved1 ctx network host [] (normalizeResolvedAddr raw).
Proof.
  intros Hp. split; [done |]. pose proof (normalize_cases raw) as Hc. destruct (normalizeResolvedAddr raw) as [ip | e |] eqn:Hn; [| | done].
  - left. eauto.
  - split; [| left; split; [done | intros [_ Hno]; congruence]]. apply not_taken.
    intros ip [(raw' & Hp' & Hn' & _) | ([_ Hno] & _)]; congruence.
Qed.

(** An answer with an address. *)
Lemma answer_out ctx network host ip ips : is_name host -> ~ already_done ctx ->
  resolved1 ctx network host [Looked (lookup_network network) host (inl (ip :: ips))] (normalizeResolvedAddr (chosen network ip ips)).
Proof.
  intros Hh Hd. split; [done |]. pose proof (normalize_cases (chosen network ip ips)) as Hc.
  destruct (normalizeResolvedAddr (chosen network ip ips)) as [ip' | e |] eqn:Hn; [| | done].
  - right. split; [done |]. exists (ip :: ips), (chosen network ip ips). split_and!; [done | apply chosen_picked | done].
  - split; [| right; split; [done |]; eexists; by split]. apply not_taken. intros ip' [(raw & _ & _ & [=]) | (_ & ips' & raw & [= <-] & Hp & Hr)].
    rewrite (picked_functional _ _ _ _ Hp (chosen_picked network ip ips)) in Hr. congruence.
Qed.

Lemma resolveHost_out ctx network host : host <> "" -> emits (resolveHost ctx network host) (resolved1 ctx network host).
Proof.
  intros Hne. unfold resolveHost. destruct (ParseAddr host) as [raw |] eqn:Hp; [by apply emits_pure, literal_out |].
  assert (Hh : is_name host) by done.
  assert (Hnil : forall ip, ~ taken network host [] ip) by (apply not_taken; intros ip [(raw & E & _) | (_ & ips & raw & [=] & _)]; congruence).
  destruct (_ || _) eqn:Hm.
  { apply emits_fails. split; [done |]. split; [done |]. left. split; [done |]. apply orb_true_iff in Hm. tauto. }
  apply emits_bind, emits_ctx_Err. intros [e |] He; cbn [then_ app].
  { apply emits_fails. split; [done |]. split; [done |]. left. split; [done |]. auto. }
  apply emits_bind, emits_lookupNetIP; [intros [| ip ips] | intros e]; cbn [then_].
  - apply emits_fails. split; [done |]. split; [| right; split; [done |]; eexists; by split].
    apply not_taken. intros ip [(raw & _ & _ & [=]) | (_ & ips & raw & [= <-] & Hi%picked_in & _)]. by apply elem_of_nil in Hi.
  - apply emits_pure. rewrite app_nil_r. by apply answer_out.
  - split; [done |]. split; [| right; split; [done |]; eexists; split; [done |]; congruence].
    apply not_taken. intros ip [(raw & _ & _ & [=]) | (_ & ips & raw & [=] & _)].
Qed.

(** The loop: [ips] are the addresses so far.  The elements before the one
    that fails were taken, one after the other. *)
Definition resolved_all (ctx : resolveCtx) (network : string) (hosts : list string) (ips : list Addr) (l : list looked) (r : out error (list Addr)) : Prop :=
  (already_done ctx -> l = []) /\
  exists before ls more, Forall3 (taken network) before ls more /\
  match r with
  | Ret all => before = hosts /\ l = concat ls /\ all = ips ++ more
  | Err e => exists host rest last, hosts = before ++ host :: rest /\ l = concat ls ++ last /\ refused ctx network host last e
  | Panic => False
  end.

Lemma refused_empty ctx network e : refused ctx network "" [] e.
Proof.
  split; [| left; split; [done | by intros [? _]]]. apply not_taken.
  intros ip [(raw & E & _) | ([? _] & _)]; [by vm_compute in E | done].
Qed.

Lemma resolves_functional network host l ip1 ip2 : resolves network host l ip1 -> resolves network host l ip2 -> ip1 = ip2.
Proof.
  intros [(r1 & P1 & N1 & ->) | ([_ P1] & ips1 & r1 & -> & P1' & N1)] [(r2 & P2 & N2 & E) | ([_ P2] & ips2 & r2 & E & P2' & N2)]; try congruence.
  injection E as ->. rewrite (picked_functional _ _ _ _ P1' P2') in N1. congruence.
Qed.

Lemma wrong_family ctx network host l ip e : resolves network host l ip ->
  bool_decide (network = "sctp4") && negb (Is4 (Unmap ip)) = true -> refused ctx network host l e.
Proof.
  intros Hr [H1%bool_decide_eq_true_1 H4%negb_true_iff]%andb_true_iff. split.
  - intros ip' [Hr' H']. specialize (H' H1). rewrite (resolves_functional _ _ _ _ _ Hr' Hr) in H'. unfold is_v4 in H'. congruence.
  - destruct Hr as [(raw & Hp & _ & ->) | (Hn & ips & raw & -> & _)]; [left | right].
    + split; [done |]. intros [_ ?]. congruence.
    + split; [done |]. eexists. by split.
Qed.

Lemma resolve_loop_out ctx network hosts ips :
  emits (resolve_loop ctx network hosts ips) (resolved_all ctx network (unbracketHost <$> hosts) ips).
Proof.
  revert ips. induction hosts as [| host hosts IH]; intros ips; cbn [resolve_loop fmap list_fmap].
  { apply emits_ret. split; [done |]. exists [], [], []. split; [constructor |]. by rewrite app_nil_r. }
  cbv zeta. assert (Hstop : forall l e, (already_done ctx -> l = []) -> refused ctx network (unbracketHost host) l e ->
    resolved_all ctx network (unbracketHost host :: (unbracketHost <$> hosts)) ips l (Err e)).
  { intros l e Hd Hr. split; [done |]. exists [], [], []. split; [constructor |]. by eexists _, _, l. }
  case_bool_decide as Hne; [apply emits_fails, Hstop; [done |]; rewrite Hne; apply refused_empty |].
  apply emits_bind. eapply emits_mono; [by apply resolveHost_out |].
  intros l [ip | e |] [Hd Hr]; cbn [then_]; [| by apply Hstop | done].
  destruct (_ && _) eqn:H4.
  { apply emits_fails. rewrite app_nil_r. apply Hstop; [done |]. by apply wrong_family with (ip := ip). }
  eapply emits_mono; [apply IH |]. intros l2 r (Hd2 & before & ls & more & Hf & Hr2). split; [by intros H; rewrite Hd, Hd2 |].
  exists (unbracketHost host :: before), (l :: ls), (ip :: more). split.
  { constructor; [split; [done |] | done]. intros E. rewrite bool_decide_eq_true_2 in H4 by done. by apply negb_false_iff in H4. }
  destruct r as [all | e |]; [| | done].
  - destruct Hr2 as (-> & -> & ->). by rewrite <- app_assoc.
  - destruct Hr2 as (h & rest & last & -> & -> & Hr2). exists h, rest, last. split; [done |]. split; [| done]. cbn [concat]. by rewrite app_assoc.
Qed.

(** The result of a resolution.  A refusal with no lookup may come before
    the elements: the context, the network's name, or the port. *)
Definition resolved (ctx : option resolveCtx) (network address : string) (l : list looked) (r : out error SctpAddr) : Prop :=
  (forall c, ctx = Some c -> already_done c -> l = []) /\
  match r with
  | Ret a => port_of address = Some (Port a) /\ 0 <= Port a < 65536 /\
      (if bool_decide (hosts_of address = [""]) then IPs a = [] /\ l = []
       else exists ls, Forall3 (taken network) (hosts_of address) ls (IPs a) /\ l = concat ls) /\
      exists family, canonicalNetwork network (IPs a) = Ret family /\
        (answers_valid l -> Forall plain_form (IPs a) /\ Forall (fun ip => accepts family ip = true) (IPs a))
  | Err e => (l = [] /\ (ctx = None \/ canonicalNetwork network [] = Err e \/ port_of address = None)) \/
      exists before ls ips, Forall3 (taken network) before ls ips /\
        ((before = hosts_of address /\ l = concat ls /\ canonicalNetwork network ips = Err e) \/
         exists c host rest last, ctx = Some c /\ hosts_of address = before ++ host :: rest /\ l = concat ls ++ last /\
           refused c network host last e)
  | Panic => False
  end.

Lemma Split_ne s c : Split s c <> [].
Proof. destruct s as [| d s]; [done |]. cbn [Split]. destruct (Ascii.eqb c d); [done |]. by destruct (Split s c). Qed.

Lemma decimal_nonneg s acc v : 0 <= acc -> decimal acc s = Some v -> 0 <= v.
Proof.
  revert acc. induction s as [| c s IH]; intros acc Ha; cbn [decimal]; [by intros [= <-] |].
  destruct (is_digit c) eqn:Hd; [| done]. apply IH. unfold is_digit, digit_value in *. lia.
Qed.

Lemma ParseUint_range s bits v : ParseUint s bits = Some v -> 0 <= v < 2 ^ bits.
Proof.
  unfold ParseUint. destruct s as [| c s]; [done |]. destruct (decimal 0 (String c s)) as [w |] eqn:E; [| done].
  apply decimal_nonneg in E; [| done]. destruct (Z.ltb_spec w (2 ^ bits)); [| done]. by intros [= <-].
Qed.

Lemma taken_plain network hosts ls ips : Forall3 (taken network) hosts ls ips -> answers_valid (concat ls) -> Forall plain_form ips.
Proof.
  induction 1 as [| host l ip hosts ls ips [Ht _] _ IH]; intros Hv; constructor.
  - eapply resolves_plain; [exact Ht |]. intros n h a Hin. eapply Hv. cbn [concat]. apply elem_of_app. by left.
  - apply IH. intros n h a Hin. eapply Hv. cbn [concat]. apply elem_of_app. by right.
Qed.

Lemma taken_ne network hosts ls ips : Forall3 (taken network) hosts ls ips -> hosts <> [""].
Proof.
  intros H ->. inversion H as [| x l ip ? ? ? [[(raw & E & _) | ([? _] & _)] _]]; [| done]. by vm_compute in E.
Qed.

Lemma canonical_no_panic network ips : canonicalNetwork network ips <> Panic.
Proof. unfold canonicalNetwork. repeat case_bool_decide; cbn [orb]; try done; by destruct (existsb _ ips). Qed.

(** C39 Resolving an address, whatever the resolver answers and whenever the
    context ends.  It never panics.  The elements are resolved in their
    order: a literal with no lookup, a name with exactly one, and the
    address taken is the first of the answer or, when no family is asked
    for, the first IPv4 one if there is one, made plain; with sctp4 it is
    IPv4.  On success every element was taken so, giving one address each
    (none for the bare ":port"), and the port is the one written; when the
    answers are valid addresses all are in the plain form the package
    promises and the family of the network can carry them.  On failure
    either no lookup was made, and the context is missing, the network
    unknown or the port invalid; or every element was taken and the network
    refuses the list; or the elements before some element were taken and
    that one is refused, with the lookup's own error if it failed, and
    nothing was looked up after it.  A context done from the start allows no
    lookup at all. *)
Theorem resolve_spec ctx network address :
  emits (ResolveAddrContext ctx network address) (resolved ctx network address).
Proof.
  unfold ResolveAddrContext. destruct ctx as [ctx |]; [| by apply emits_fails; split; [| left; auto]]. apply emits_pure_bind.
  pose proof (canonical_no_panic network []) as Hnp.
  destruct (canonicalNetwork network []) as [f0 | e |] eqn:Hn; [| split; [done |]; left; auto | done]. clear Hnp.
  cbv zeta. destruct (last (Split address "/")) as [e |] eqn:Hl; [| by apply last_None, Split_ne in Hl].
  assert (Hport : port_of address = '(_, port) ← SplitHostPort e; ParseUint port 16) by (unfold port_of; by rewrite Hl).
  destruct (SplitHostPort e) as [[lastHost portStr] |] eqn:Hs; [| apply emits_fails; split; [done |]; left; auto].
  cbn [mbind option_bind] in Hport.
  destruct (ParseUint portStr 16) as [port |] eqn:Hp; [| apply emits_fails; split; [done |]; left; auto]. apply ParseUint_range in Hp.
  assert (Hh : hosts_of address = unbracketHost <$> with_last (Split address "/") lastHost) by (unfold hosts_of; by rewrite Hl, Hs).
  destruct (_ && _) eqn:Hw.
  - apply andb_true_iff in Hw as [Hw He]. apply Z.eqb_eq in Hw. apply bool_decide_eq_true_1 in He as ->.
    destruct (Split address "/") as [| e0 [| e1 es]]; [done | | unfold len in Hw; simpl in Hw; lia]. apply emits_ret. cbn [with_last removelast fmap list_fmap app unbracketHost] in Hh.
    split; [done |]. split_and!; [done | apply Hp | apply Hp | by rewrite Hh | exists f0; by split].
  - apply emits_bind. eapply emits_mono; [apply resolve_loop_out |]. rewrite <- Hh.
    intros l [ips | e' |] (Hd & before & ls & more & Hf & Hr); cbn [then_]; [| | done].
    2:{ destruct Hr as (host & rest & last & ? & ? & ?). split; [by intros c [= <-] |]. right.
        exists before, ls, more. split; [done |]. right. by exists ctx, host, rest, last. }
    destruct Hr as (-> & -> & ->). rewrite app_nil_l. apply emits_pure_bind. rewrite ?app_nil_r.
    pose proof (canonical_no_panic network more) as Hnp. destruct (canonicalNetwork network more) as [family | e' |] eqn:Hcn; [| | done].
    2:{ split; [by intros c [= <-] |]. right. exists (hosts_of address), ls, more. split; [done |]. by left. }
    apply emits_ret. rewrite app_nil_r. split; [by intros c [= <-] |]. split_and!; [done | apply Hp | apply Hp | |].
    + rewrite bool_decide_eq_false_2 by (by eapply taken_ne). by exists ls.
    + exists family. split; [done |]. intros Hv. pose proof (taken_plain _ _ _ _ Hf Hv) as Hpl.
      pose proof (canonical_plain network more Hpl) as Hc. by rewrite Hcn in Hc.
Qed.
End Spec.

(** ** Witnesses *)

(** A resolver that knows one host, by its IPv6 and its mapped IPv4
    address. *)
Definition ten_one : Addr := Addr4 [Byte.x0a; Byte.x00; Byte.x00; Byte.x01].
#[local] Instance one_host : Resolver := {
  names := unit;
  names_Err s := (s, None);
  names_LookupNetIP s _ _ host :=
    (s, if bool_decide (host = "peer") then inl [fe80_1_eth0; mapped_10_0_0_1] else inr (Plain (Errno EINVAL)));
}.

Definition two_homes : SctpAddr := {| IPs := [ten_one; fe80_1_eth0]; Port := 3868 |}.

Lemma resolve_String_witness :
  ResolveAddrContext (Some ByCaller) "sctp" "10.0.0.1/[fe80::1%eth0]:3868" tt = (tt, [], Ret two_homes).
Proof.
  change "10.0.0.1/[fe80::1%eth0]:3868" with (SctpAddr_String (Some two_homes)).
  apply (resolve_String (R := one_host) ByCaller "sctp" two_homes afInet6 tt); [| by vm_compute | by vm_compute].
  by repeat constructor.
Defined.

(** Nothing is looked up after a failed lookup. *)
Lemma resolve_spec_witness :
  ResolveAddr "sctp" "peer/[fe80::1%eth0]:3868" tt =
    (tt, [Looked "ip" "peer" (inl [fe80_1_eth0; mapped_10_0_0_1])], Ret two_homes) /\
  Forall plain_form (IPs two_homes) /\
  ResolveAddr "sctp" "10.0.0.1/nobody/peer:3868" tt =
    (tt, [Looked "ip" "nobody" (inr (Plain (Errno EINVAL)))], Err (Plain (Errno EINVAL))).
Proof.
  assert (E : ResolveAddr "sctp" "peer/[fe80::1%eth0]:3868" tt =
    (tt, [Looked "ip" "peer" (inl [fe80_1_eth0; mapped_10_0_0_1])], Ret two_homes)) by (vm_compute; reflexivity).
  split; [exact E |]. split; [| vm_compute; reflexivity].
  pose proof (resolve_spec (R := one_host) (Some ByBackground) "sctp" "peer/[fe80::1%eth0]:3868" tt) as H.
  unfold ResolveAddr in E. rewrite E in H. destruct H as (_ & _ & _ & _ & family & _ & H). apply H.
  intros network host ips Hin. apply list_elem_of_singleton in Hin. injection Hin as _ _ ->. by repeat constructor.
Defined.

(** The bound on zones is needed: the text of an address whose zone has a
    bracket, which Linux allows in the name of an interface, does not
    resolve. *)
Lemma bracket_zone_unresolved :
  let a := {| IPs := [Addr6 ([Byte.xfe; Byte.x80] ++ zeros 13 ++ [Byte.x01]) "eth]0"]; Port := 80 |} in
  SctpAddr_String (Some a) = "[fe80::1%eth]0]:80" /\
  ResolveAddr "sctp" (SctpAddr_String (Some a)) tt = (tt, [], Err (invalidArg "%v")).
Proof. split; vm_compute; reflexivity. Qed.
