(* ===== verification/Apply.v ===== *)
(** * Application of a Config (src/config_linux.go, the defaults of src/send_linux.go)

    What a prepared Config does to a descriptor: one setsockopt per
    operation, in order, until the first that fails; the SCTP_EVENT
    subscriptions; the socket's default send parameters, which Linux keeps
    in one word with the default PR-SCTP policy; and the two helpers that
    install a key before the association exists.

    The theorems: the calls a list of operations makes, byte for byte, and
    where it stops; that a Config that prepare accepts starts with the
    options every read of the package depends on; that setting the default
    SndInfo keeps the default PR-SCTP policy, and reads back; that a key is
    never installed before AUTH is on. *)
From Stdlib Require Import ZArith Lia Bool.
From stdpp Require Import base list option strings.
From coqutil Require Import Byte.
From S2P Require Import Prelude Close Abi Errors Enums Netip Sockaddr Options OptionCodecs MsgInfo Config Addr Sys.

Definition field (op : configOp) : string :=
  match op with
  | opRecvRcvInfo => "SCTP_RECVRCVINFO, which the package always enables"
  | opAssocChange => "the SCTP_ASSOC_CHANGE and SCTP_PARTIAL_DELIVERY_EVENT subscriptions the package always keeps"
  | opReadBuffer _ => "Config.ReadBuffer"
  | opWriteBuffer _ => "Config.WriteBuffer"
  | opInitMsg _ _ _ _ => "Config.InitMsg"
  | opFragmentInterleave _ => "Config.FragmentInterleave"
  | opAuthentication _ => "Config.Authentication"
  | opHMACIdentifiers _ => "Config.HMACIdentifiers"
  | opAuthChunk _ => "Config.AuthChunks (chunk type %d)"
  | opDynamicAddressReconfiguration _ => "Config.DynamicAddressReconfiguration"
  | opPartialReliability _ => "Config.PartialReliability"
  | opStreamReconfiguration _ => "Config.StreamReconfiguration"
  | opStreamResetMask _ => "Config.StreamResetMask"
  | opMessageInterleaving _ => "Config.MessageInterleaving"
  | opExperimentalECN _ => "Config.ExperimentalECN"
  | opAdaptationLayer _ => "Config.AdaptationLayer"
  | opRTOInfo _ _ _ => "Config.RTOInfo"
  | opDelayedSACK _ _ => "Config.DelayedSACK"
  | opFragmentsDisabled _ => "Config.FragmentsDisabled"
  | opReusePort _ => "Config.ReusePort"
  | opReceiveNxtInfo _ => "Config.ReceiveNxtInfo"
  | opNoDelay _ => "Config.NoDelay"
  | opDefaultSndInfo _ _ _ _ => "Config.DefaultSndInfo"
  | opDefaultPrInfo _ _ => "Config.DefaultPrInfo"
  | opNotification _ => "Config.Notifications (%v)"
  end.

Definition boolValue (on : bool) : Z := if on then 1 else 0.

Section Apply.
Context `{A : Arch} `{ZE : ZoneEnv} `{K : Kernel}.

(** ** Plain options, events *)
Definition setIntOpt (level opt v : Z) : sys unit :=
  b ← pure (put_at NativeEndian 4 (zeros sizeInt) 0 (u32 v));
  rawSetsockopt level opt b.

Definition setAssocValue (opt v : Z) : sys unit :=
  b ← pure (put_at NativeEndian 4 (zeros sizeAssocValue) assocValueValueOff v);
  rawSetsockopt ipprotoSCTP opt b.

Definition setEvent (t : Z) (on : bool) : sys unit :=
  b ← pure (put_at NativeEndian 2 (zeros sizeEvent) eventTypeFieldOff (u16 t));
  b ← pure (if on then copy_at b eventOnOff [Byte.x01] else Ret b);
  rawSetsockopt ipprotoSCTP optEvent b.

Definition getEvent (t : Z) : sys bool :=
  b ← pure (put_at NativeEndian 2 (zeros sizeEvent) eventTypeFieldOff (u16 t));
  '(b, _) ← rawGetsockopt ipprotoSCTP optEvent b;
  on ← pure (get_at NativeEndian 1 b eventOnOff);
  mret (negb (on =? 0)).

(** The loop over eventTypeNames, a map, in the order [types]. *)
Fixpoint subscriptions_loop (types : list Z) (set : Z) : sys Z :=
  match types with
  | [] => mret set
  | t :: types =>
      if (t =? EventAssocChange) || (t =? EventPartialDelivery) then subscriptions_loop types set else
      got ← caught (getEvent t);
      subscriptions_loop types (match got with inl true => Z.lor set (eventBit t) | _ => set end)
  end.

Definition kernelSubscriptions (types : list Z) : sys Z := sock_control (subscriptions_loop types 0).

(** ** Default send parameters (send_linux.go) *)
Definition getDefaultSndInfo : sys SndInfo :=
  '(b, _) ← rawGetsockopt ipprotoSCTP optDefaultSndInfo (zeros sizeSndInfo);
  raw ← pure (get_at NativeEndian 2 b sndInfoFlagsOff);
  let '(flags, _) := splitDefaultFlags raw in
  stream ← pure (get_at NativeEndian 2 b sndInfoStreamOff);
  ppid ← pure (get_at BigEndian 4 b sndInfoPPIDOff);
  context ← pure (get_at NativeEndian 4 b sndInfoContextOff);
  mret {| snd_Stream := stream; snd_Flags := flags; snd_PPID := ppid; snd_Context := context |}.

Definition getDefaultPrInfo : sys PrInfo :=
  '(b, _) ← rawGetsockopt ipprotoSCTP optDefaultPRInfo (zeros sizeDefaultPRInfo);
  policy ← pure (get_at NativeEndian 2 b defaultPRInfoPolicyOff);
  value ← pure (get_at NativeEndian 4 b defaultPRInfoValueOff);
  mret (prInfoFromKernel policy value).

Definition setDefaultPrInfo (policy value : Z) : sys unit :=
  b ← pure (put_at NativeEndian 4 (zeros sizeDefaultPRInfo) defaultPRInfoValueOff value);
  b ← pure (put_at NativeEndian 2 b defaultPRInfoPolicyOff policy);
  rawSetsockopt ipprotoSCTP optDefaultPRInfo b.

Definition setDefaultSndInfo (stream flags ppid context : Z) : sys unit :=
  '(pr, _) ← rawGetsockopt ipprotoSCTP optDefaultPRInfo (zeros sizeDefaultPRInfo);
  b ← pure (put_at NativeEndian 2 (zeros sizeSndInfo) sndInfoStreamOff stream);
  b ← pure (put_at NativeEndian 2 b sndInfoFlagsOff flags);
  b ← pure (put_at NativeEndian 4 b sndInfoPPIDOff ppid);
  b ← pure (put_at NativeEndian 4 b sndInfoContextOff context);
  _ ← rawSetsockopt ipprotoSCTP optDefaultSndInfo b;
  policy ← pure (get_at NativeEndian 2 pr defaultPRInfoPolicyOff);
  let policy := Z.land policy prPolicyMask in
  if policy =? PRNone then mret tt else
  value ← pure (get_at NativeEndian 4 pr defaultPRInfoValueOff);
  setDefaultPrInfo policy value.

(** ** Operations *)
Definition applyOp (op : configOp) : sys unit :=
  match op with
  | opRecvRcvInfo => setIntOpt ipprotoSCTP optRecvRcvInfo 1
  | opAssocChange =>
      _ ← setEvent EventAssocChange true;
      setEvent EventPartialDelivery true
  | opReadBuffer bytes => setIntOpt SOL_SOCKET SO_RCVBUF bytes
  | opWriteBuffer bytes => setIntOpt SOL_SOCKET SO_SNDBUF bytes
  | opInitMsg outStreams maxInStreams maxAttempts maxInitTimeoutMS =>
      b ← pure (put_at NativeEndian 2 (zeros sizeInitMsg) initMsgOutStreamsOff outStreams);
      b ← pure (put_at NativeEndian 2 b initMsgMaxInStreamsOff maxInStreams);
      b ← pure (put_at NativeEndian 2 b initMsgMaxAttemptsOff maxAttempts);
      b ← pure (put_at NativeEndian 2 b initMsgMaxInitTimeoOff (u16 maxInitTimeoutMS));
      rawSetsockopt ipprotoSCTP optInitMsg b
  | opFragmentInterleave level => setIntOpt ipprotoSCTP optFragmentInterleave (i32 level)
  | opAuthentication on => setAssocValue optAuthSupported (boolValue on)
  | opHMACIdentifiers ids =>
      b ← pure (put_at NativeEndian 4 (zeros (sizeHMACAlgo + 2 * len ids)) hmacAlgoNumIdentsOff (u32 (len ids)));
      b ← pure (put_list NativeEndian 2 b hmacAlgoIdentsOff (u16 <$> ids));
      rawSetsockopt ipprotoSCTP optHMACIdent b
  | opAuthChunk chunk => rawSetsockopt ipprotoSCTP optAuthChunk (bytes_of NativeEndian 1 chunk)
  | opDynamicAddressReconfiguration on => setAssocValue optASCONFSupported (boolValue on)
  | opPartialReliability on => setAssocValue optPRSupported (boolValue on)
  | opStreamReconfiguration on => setAssocValue optReconfigSupported (boolValue on)
  | opStreamResetMask v => setAssocValue optEnableStreamReset v
  | opMessageInterleaving on => setAssocValue optInterleavingSupported (boolValue on)
  | opExperimentalECN on => setAssocValue optECNSupported (boolValue on)
  | opAdaptationLayer v =>
      b ← pure (put_at NativeEndian 4 (zeros sizeSetAdaptation) 0 v);
      rawSetsockopt ipprotoSCTP optAdaptationLayer b
  | opRTOInfo initialMS maxMS minMS =>
      b ← pure (put_at NativeEndian 4 (zeros sizeRTOInfo) rtoInfoInitialOff initialMS);
      b ← pure (put_at NativeEndian 4 b rtoInfoMaxOff maxMS);
      b ← pure (put_at NativeEndian 4 b rtoInfoMinOff minMS);
      rawSetsockopt ipprotoSCTP optRTOInfo b
  | opDelayedSACK delayMS frequency =>
      b ← pure (put_at NativeEndian 4 (zeros sizeDelayedSACK) delayedSACKDelayOff delayMS);
      b ← pure (put_at NativeEndian 4 b delayedSACKFrequencyOff frequency);
      rawSetsockopt ipprotoSCTP optDelayedAckTime b
  | opFragmentsDisabled on => setIntOpt ipprotoSCTP optDisableFragments (boolValue on)
  | opReusePort on => setIntOpt ipprotoSCTP optReusePort (boolValue on)
  | opReceiveNxtInfo on => setIntOpt ipprotoSCTP optRecvNxtInfo (boolValue on)
  | opNoDelay on => setIntOpt ipprotoSCTP optNoDelay (boolValue on)
  | opDefaultSndInfo stream flags ppid context => setDefaultSndInfo stream flags ppid context
  | opDefaultPrInfo policy value => setDefaultPrInfo policy value
  | opNotification event => setEvent event true
  end.

Definition apply_error (op : configOp) (err : error) : option error :=
  Wrapf ("sctp: applying " +:+ field op +:+ ": %w") <$> NewSyscallError "setsockopt" (Some err).

Fixpoint apply_ops (ops : list configOp) : sys unit :=
  match ops with
  | [] => mret tt
  | op :: ops => _ ← wrapped (apply_error op) (applyOp op); apply_ops ops
  end.

Definition applyConfig (ops : list configOp) : sys unit := sock_control (apply_ops ops).

(** ** Keys before the association *)
Definition enableAuth : sys unit :=
  wrapped (fun e => NewSyscallError "setsockopt" (Some e)) (setAssocValue optAuthSupported 1).

(** A syscall.RawConn of the caller: nil, or one whose Control reports
    [closed] once its descriptor has been released. *)
Definition raw_Control {X} (closed : error) (fn : sys X) : sys X := fun s =>
  let '(w, ok) := k_control (kern s) in
  let s := {| kern := w; storageLayoutCache := storageLayoutCache s |} in
  if ok then fn s else (s, [], Err closed).

Definition key_call (closed : error) (opt : Z) (b : bytes) : sys unit :=
  raw_Control closed
    (_ ← enableAuth;
     wrapped (fun e => NewSyscallError "setsockopt" (Some e)) (rawSetsockopt ipprotoSCTP opt b)).

Definition InstallAuthKey (c : option error) (key : Z) (secret : bytes) : sys unit :=
  match c with
  | None => fails (Some (invalidArg "InstallAuthKey needs a non-nil syscall.RawConn"))
  | Some closed =>
      if len secret =? 0 then
        fails (Some (invalidArg "InstallAuthKey secret is empty; Linux refuses a zero-length key (net/sctp/socket.c: sctp_setsockopt_auth_key)"))
      else if MaxUint16 <? len secret then
        fails (Some (invalidArg "InstallAuthKey secret is %d bytes, more than the 65535 sca_keylength can describe"))
      else
        b ← pure (put_at NativeEndian 2 (zeros (sizeAuthKey + len secret)) authKeyKeyNumberOff key);
        b ← pure (put_at NativeEndian 2 b authKeyKeyLengthOff (u16 (len secret)));
        b ← pure (copy_at b authKeyKeyOff secret);
        key_call closed optAuthKey b
  end.

Definition ActivateAuthKey (c : option error) (key : Z) : sys unit :=
  match c with
  | None => fails (Some (invalidArg "ActivateAuthKey needs a non-nil syscall.RawConn"))
  | Some closed =>
      b ← pure (put_at NativeEndian 2 (zeros sizeAuthKeyID) authKeyIDKeyNumberOff key);
      key_call closed optAuthActiveKey b
  end.
End Apply.

(** ** Structs written over zeros

    The code writes the fields of a struct in increasing order, into a
    buffer that is zero from the last one on. *)
Section Layout.
Context `{A : Arch}.

Lemma zeros_rest k n : drop k (zeros n) = zeros (n - Z.of_nat k).
Proof. unfold zeros. rewrite drop_replicate. f_equal. lia. Qed.

Lemma zeros_app a b : 0 <= a -> 0 <= b -> zeros (a + b) = zeros a ++ zeros b.
Proof. intros. unfold zeros. by rewrite Z2Nat.inj_add, replicate_add by lia. Qed.

Lemma put_first o n size off v :
  0 <= off -> off + Z.of_nat n <= size ->
  put_at (E:=error) o n (zeros size) off v = Ret ((zeros off ++ bytes_of o n v) ++ zeros (size - off - Z.of_nat n)).
Proof.
  intros. replace size with (off + (size - off)) at 1 by lia. rewrite zeros_app by lia.
  rewrite put_at_app by (rewrite ?len_zeros; lia). by rewrite zeros_rest.
Qed.

Lemma put_next o n (l : bytes) k off v :
  off = len l -> Z.of_nat n <= k ->
  put_at (E:=error) o n (l ++ zeros k) off v = Ret ((l ++ bytes_of o n v) ++ zeros (k - Z.of_nat n)).
Proof. intros. rewrite put_at_app by (rewrite ?len_zeros; lia). by rewrite zeros_rest. Qed.

Lemma put_list_next o n (l : bytes) k off vs :
  off = len l -> Z.of_nat n * len vs = k ->
  put_list (E:=error) o n (l ++ zeros k) off vs = Ret (l ++ concat (bytes_of o n <$> vs)).
Proof.
  revert l k off. induction vs as [| v vs IH]; intros l k off Ho Hk.
  - rewrite len_nil, Z.mul_0_r in Hk. subst k. done.
  - rewrite len_cons in Hk. cbn [put_list]. rewrite put_next by (try done; pose proof (len_nonneg vs); nia). next.
    rewrite IH; [by rewrite <- app_assoc | rewrite len_app, len_bytes_of; lia | lia].
Qed.
End Layout.

(** [lay] computes a struct built by such writes. *)
Ltac lay_side := rewrite ?len_app, ?len_bytes_of, ?len_zeros by lia; cbn; lia.
Ltac lay := repeat (first [ rewrite put_first by (cbn; lia) | rewrite put_next by lay_side ]; next).
Ltac laid := abi; lay; cbn [Z.sub Z.of_nat]; rewrite ?app_nil_r, <- ?app_assoc; reflexivity.

(** ** What each operation asks of the kernel *)
Section Spec.
Context `{A : Arch} `{ZE : ZoneEnv} `{K : Kernel}.

Definition n2 (v : Z) : bytes := bytes_of NativeEndian 2 v.
Definition n4 (v : Z) : bytes := bytes_of NativeEndian 4 v.

Definition set_sctp (opt : Z) (b : bytes) : syscall := Setsockopt ipprotoSCTP opt b.
Definition set_int (level opt v : Z) : syscall := Setsockopt level opt (n4 (u32 v)).
Definition set_value (opt v : Z) : syscall := set_sctp opt (n4 0 ++ n4 v).
Definition set_event (t : Z) (on : bool) : syscall :=
  set_sctp optEvent (n4 0 ++ n2 (u16 t) ++ [if on then Byte.x01 else Byte.x00; Byte.x00]).
Definition set_snd (stream flags ppid context : Z) : syscall :=
  set_sctp optDefaultSndInfo (n2 stream ++ n2 flags ++ n4 ppid ++ n4 context ++ n4 0).
Definition set_pr (policy value : Z) : syscall :=
  set_sctp optDefaultPRInfo (n4 0 ++ n4 value ++ n2 policy ++ n2 0).
Definition get_pr : syscall := Getsockopt ipprotoSCTP optDefaultPRInfo (zeros sizeDefaultPRInfo).

(** The structs of the kernel, field by field, association id 0. *)
Definition op_sets (op : configOp) : list syscall :=
  match op with
  | opRecvRcvInfo => [set_int ipprotoSCTP optRecvRcvInfo 1]
  | opAssocChange => [set_event EventAssocChange true; set_event EventPartialDelivery true]
  | opReadBuffer n => [set_int SOL_SOCKET SO_RCVBUF n]
  | opWriteBuffer n => [set_int SOL_SOCKET SO_SNDBUF n]
  | opInitMsg outs ins att ms => [set_sctp optInitMsg (n2 outs ++ n2 ins ++ n2 att ++ n2 (u16 ms))]
  | opFragmentInterleave level => [set_int ipprotoSCTP optFragmentInterleave (i32 level)]
  | opAuthentication on => [set_value optAuthSupported (boolValue on)]
  | opHMACIdentifiers ids => [set_sctp optHMACIdent (n4 (u32 (len ids)) ++ concat (n2 <$> (u16 <$> ids)))]
  | opAuthChunk chunk => [set_sctp optAuthChunk (bytes_of NativeEndian 1 chunk)]
  | opDynamicAddressReconfiguration on => [set_value optASCONFSupported (boolValue on)]
  | opPartialReliability on => [set_value optPRSupported (boolValue on)]
  | opStreamReconfiguration on => [set_value optReconfigSupported (boolValue on)]
  | opStreamResetMask v => [set_value optEnableStreamReset v]
  | opMessageInterleaving on => [set_value optInterleavingSupported (boolValue on)]
  | opExperimentalECN on => [set_value optECNSupported (boolValue on)]
  | opAdaptationLayer v => [set_sctp optAdaptationLayer (n4 v)]
  | opRTOInfo i mx mn => [set_sctp optRTOInfo (n4 0 ++ n4 i ++ n4 mx ++ n4 mn)]
  | opDelayedSACK d f => [set_sctp optDelayedAckTime (n4 0 ++ n4 d ++ n4 f)]
  | opFragmentsDisabled on => [set_int ipprotoSCTP optDisableFragments (boolValue on)]
  | opReusePort on => [set_int ipprotoSCTP optReusePort (boolValue on)]
  | opReceiveNxtInfo on => [set_int ipprotoSCTP optRecvNxtInfo (boolValue on)]
  | opNoDelay on => [set_int ipprotoSCTP optNoDelay (boolValue on)]
  | opDefaultSndInfo stream flags ppid context => [set_snd stream flags ppid context]
  | opDefaultPrInfo policy value => [set_pr policy value]
  | opNotification t => [set_event t true]
  end.

(** The default PR-SCTP policy in a reply, put back when there is one. *)
Definition pr_policy (pr : bytes) : Z := Z.land (uint_of NativeEndian (sub pr defaultPRInfoPolicyOff 2)) prPolicyMask.
Definition pr_value (pr : bytes) : Z := uint_of NativeEndian (sub pr defaultPRInfoValueOff 4).
Definition restore_pr (pr : bytes) : list syscall :=
  if pr_policy pr =? PRNone then [] else [set_pr (pr_policy pr) (pr_value pr)].

Definition ok (q : syscall) : done := Did q 0 [].

(** The calls [qs] were made in order, all of them, or up to the first the
    kernel refused, whose errno is then the error. *)
Definition made (qs : list syscall) (l : calls) (r : out error unit) : Prop :=
  (l = ok <$> qs /\ r = Ret tt) \/
  (exists before q after errno, qs = before ++ q :: after /\ errno <> 0 /\
     l = (ok <$> before) ++ [Did q errno []] /\ r = Err (errno_error errno)).

(** An operation: SCTP_DEFAULT_SNDINFO is set between a look at the default
    PR-SCTP policy, which it would erase, and putting that back. *)
Definition op_runs (op : configOp) (l : calls) (r : out error unit) : Prop :=
  match op with
  | opDefaultSndInfo _ _ _ _ =>
      (exists errno, errno <> 0 /\ l = [Did get_pr errno []] /\ r = Err (errno_error errno)) \/
      (exists pr l', len pr = sizeDefaultPRInfo /\ l = Did get_pr 0 pr :: l' /\ made (op_sets op ++ restore_pr pr) l' r)
  | _ => made (op_sets op) l r
  end.

Lemma made_nil : made [] [] (Ret tt).
Proof. by left. Qed.

Lemma made_set level opt b : len b <> 0 -> emits (rawSetsockopt level opt b) (made [Setsockopt level opt b]).
Proof.
  intros Hb. apply emits_set; [done |]. intros errno. unfold set_outcome.
  destruct (Z.eqb_spec errno 0) as [-> | He]; [by left | right]. eexists [], _, [], errno. done.
Qed.

(** Calls after calls. *)
Lemma made_app qs1 qs2 (m : sys unit) (k : unit -> sys unit) :
  emits m (made qs1) -> emits (k tt) (made qs2) -> emits (m ≫= k) (made (qs1 ++ qs2)).
Proof.
  intros H1 H2. apply emits_bind. eapply emits_mono; [exact H1 |]. intros l r [[-> ->] | (b & q & a & n & -> & Hn & -> & ->)].
  - cbn [then_]. eapply emits_mono; [exact H2 |]. intros l r [[-> ->] | (b & q & a & n & -> & Hn & -> & ->)].
    + left. by rewrite fmap_app.
    + right. exists (qs1 ++ b), q, a, n. rewrite fmap_app, <- !app_assoc. done.
  - right. exists b, q, (a ++ qs2), n. rewrite <- app_assoc. done.
Qed.

Lemma made_pure (r : out error bytes) (k : bytes -> sys unit) b qs :
  r = Ret b -> emits (k b) (made qs) -> emits (pure r ≫= k) (made qs).
Proof. intros -> H. by apply emits_pure_bind. Qed.

Lemma len_n4 v : len (n4 v) = 4.
Proof. apply len_bytes_of. Qed.
Lemma len_n2 v : len (n2 v) = 2.
Proof. apply len_bytes_of. Qed.
Lemma n4_0 : n4 0 = zeros 4.
Proof. unfold n4. by destruct NativeEndian. Qed.
Lemma n2_0 : n2 0 = zeros 2.
Proof. unfold n2. by destruct NativeEndian. Qed.

Ltac len_pos := unfold n2, n4; autorewrite with sctp_len; lia.

(** One option whose struct, once laid out, is [b]. *)
Lemma laid_set level opt b (r : out error bytes) :
  r = Ret b -> 0 < len b -> emits (b ← pure r; rawSetsockopt level opt b) (made [Setsockopt level opt b]).
Proof. intros -> H. apply emits_pure_bind, made_set. lia. Qed.

Lemma pure_bind {X Y Z} (r : out error X) (f : X -> out error Y) (k : Y -> sys Z) Q :
  emits (pure (r ≫= f) ≫= k) Q -> emits (pure r ≫= fun x => pure (f x) ≫= k) Q.
Proof.
  intros H s. specialize (H s). destruct r as [x | |]; [| exact H..]. revert H. run_sys.
  destruct (f x) as [y | |]; [destruct (k y s) as [[? ?] ?] | |]; done.
Qed.

Lemma setIntOpt_made level opt v : emits (setIntOpt level opt v) (made [set_int level opt v]).
Proof. apply laid_set; [laid | len_pos]. Qed.

Lemma setAssocValue_made opt v : emits (setAssocValue opt v) (made [set_value opt v]).
Proof. apply laid_set; [rewrite n4_0; laid | len_pos]. Qed.

Lemma setEvent_made t on : emits (setEvent t on) (made [set_event t on]).
Proof.
  unfold setEvent. apply pure_bind, laid_set; [| len_pos].
  rewrite n4_0. abi. lay. destruct on; [| laid].
  rewrite copy_at_app by (rewrite ?len_app, ?len_bytes_of; done). by rewrite <- !app_assoc.
Qed.

Lemma setDefaultPrInfo_made policy value : emits (setDefaultPrInfo policy value) (made [set_pr policy value]).
Proof.
  unfold setDefaultPrInfo. apply pure_bind, laid_set; [rewrite n4_0, n2_0; laid | len_pos].
Qed.

Lemma restore_made pr :
  len pr = sizeDefaultPRInfo ->
  emits (policy ← pure (get_at NativeEndian 2 pr defaultPRInfoPolicyOff);
         let policy := Z.land policy prPolicyMask in
         if policy =? PRNone then mret tt else
         value ← pure (get_at NativeEndian 4 pr defaultPRInfoValueOff);
         setDefaultPrInfo policy value) (made (restore_pr pr)).
Proof.
  intros Hpr. apply emits_pure_bind. rewrite get2_ok by (abi; lia). unfold restore_pr. fold (pr_policy pr).
  cbv zeta. destruct (pr_policy pr =? PRNone); [by apply emits_ret, made_nil |].
  apply emits_pure_bind. rewrite get4_ok by (abi; lia). apply setDefaultPrInfo_made.
Qed.

Lemma setDefaultSndInfo_runs stream flags ppid context :
  emits (setDefaultSndInfo stream flags ppid context) (op_runs (opDefaultSndInfo stream flags ppid context)).
Proof.
  unfold setDefaultSndInfo. apply emits_bind, emits_get; [by abi |]. intros errno pr n Hpr.
  rewrite len_zeros in Hpr by (abi; lia).
  destruct (Z.eqb_spec errno 0) as [-> | He]; cbn [then_ op_runs op_sets]; [| left; eauto].
  eapply emits_mono with (Q := made ([set_snd stream flags ppid context] ++ restore_pr pr)).
  - do 3 apply pure_bind. apply emits_pure_bind. set (b := n2 stream ++ n2 flags ++ n4 ppid ++ n4 context ++ n4 0).
    match goal with |- match ?r with _ => _ end => assert (Hb : r = Ret b) by (unfold b; rewrite n4_0; laid) end.
    rewrite Hb. apply (made_app [_]); [apply made_set; unfold b; len_pos | by apply restore_made].
  - intros l r H. right. exists pr, l. done.
Qed.

#[local] Opaque setIntOpt setAssocValue setEvent setDefaultPrInfo setDefaultSndInfo.

Lemma applyOp_runs op : emits (applyOp op) (op_runs op).
Proof.
  destruct op; cbn [applyOp op_runs op_sets]; try apply setIntOpt_made; try apply setAssocValue_made;
    try apply setEvent_made; try apply setDefaultPrInfo_made.
  - exact (made_app _ _ _ _ (setEvent_made _ _) (setEvent_made _ _)).
  - do 3 apply pure_bind. apply laid_set; [laid | len_pos].
  - apply pure_bind, laid_set; [| rewrite len_app, len_n4; pose proof (len_nonneg (concat (n2 <$> (u16 <$> hmacIdentifiers)))); lia].
    abi. pose proof (len_nonneg hmacIdentifiers). rewrite put_first by (cbn; lia). next.
    rewrite put_list_next; [done | by rewrite len_app, len_bytes_of |]. unfold len. rewrite length_fmap. lia.
  - apply made_set. by rewrite len_bytes_of.
  - apply laid_set; [laid | len_pos].
  - do 2 apply pure_bind. apply laid_set; [rewrite n4_0; laid | len_pos].
  - apply pure_bind, laid_set; [rewrite n4_0; laid | len_pos].
  - apply setDefaultSndInfo_runs.
Qed.
End Spec.

(** ** Whole Configs *)
Section Configs.
Context `{A : Arch} `{ZE : ZoneEnv} `{K : Kernel}.

(** The operations were carried out in order: all of them, or up to the
    first with a call the kernel refused; the error then names its field
    and carries the errno. *)
Inductive applied : list configOp -> calls -> out error unit -> Prop :=
| applied_all : applied [] [] (Ret tt)
| applied_op op ops l l' r : op_runs op l (Ret tt) -> applied ops l' r -> applied (op :: ops) (l ++ l') r
| applied_stops op ops l errno :
    op_runs op l (Err (errno_error errno)) ->
    applied (op :: ops) l
      (Err (Wrapf ("sctp: applying " +:+ field op +:+ ": %w") (SyscallErr "setsockopt" (errno_error errno)))).

Lemma op_runs_outcome op l r :
  op_runs op l r -> r = Ret tt \/ exists errno, errno <> 0 /\ r = Err (errno_error errno).
Proof.
  assert (Hm : forall qs l r, made qs l r -> r = Ret tt \/ exists errno, errno <> 0 /\ r = Err (errno_error errno)).
  { intros qs l0 r0 [[_ ->] | (? & ? & ? & errno & _ & Hn & _ & ->)]; eauto. }
  destruct op; try apply Hm. intros [(errno & Hn & _ & ->) | (pr & l' & _ & _ & H)]; [eauto | by eapply Hm].
Qed.

Lemma apply_ops_applied ops : emits (apply_ops ops) (applied ops).
Proof.
  induction ops as [| op ops IH]; [apply emits_ret; constructor |]. cbn [apply_ops].
  apply emits_bind, emits_wrapped. eapply emits_mono; [apply applyOp_runs |].
  intros l r H. destruct (op_runs_outcome op l r H) as [-> | (errno & Hn & ->)].
  - cbn [then_]. eapply emits_mono; [exact IH |]. intros l' r' H'. by apply applied_op.
  - by apply applied_stops.
Qed.

Lemma applied_Is ops l r :
  applied ops l r -> r = Ret tt \/
  exists e q errno before, r = Err e /\ errno <> 0 /\ errors_Is e (Errno errno) = true /\ l = before ++ [Did q errno []].
Proof.
  intros H. induction H as [| op ops l l' r Ho H IH | op ops l errno Ho]; [by left | |].
  - destruct IH as [-> | (e & q & n & b & -> & Hn & He & ->)]; [by left |].
    right. exists e, q, n, (l ++ b). rewrite <- app_assoc. done.
  - right. assert (Hm : forall qs l, made qs l (Err (errno_error errno)) ->
      errno <> 0 /\ exists q before, l = before ++ [Did q errno []]).
    { intros qs l0 [[_ [=]] | (b & q & a & n & _ & Hn & -> & [= <-])]. eauto. }
    assert (He : errno <> 0 /\ exists q before, l = before ++ [Did q errno []]).
    { destruct op; try by eapply Hm. destruct Ho as [(n & Hn & -> & [= <-]) | (pr & l' & _ & -> & Ho)].
      - split; [done |]. by exists get_pr, [].
      - apply Hm in Ho as (Hn & q & b & ->). split; [done |]. by exists q, (Did get_pr 0 pr :: b). }
    destruct He as (Hn & q & b & ->). eexists _, q, errno, b. split_and!; [done | done | | done].
    cbn. apply plain_Is_refl.
Qed.

Lemma prepare_ops_first c style p :
  prepare (Some c) style = Ret p -> exists ops, p_ops p = opRecvRcvInfo :: opAssocChange :: ops.
Proof.
  intros H. destruct (prepare_cases c style p H) as [(_ & -> & _) | (_ & _ & ->)]; eexists; reflexivity.
Qed.

(** C31 A prepared Config reaches the descriptor operation by operation, in
    its order, each as the setsockopt of exactly its struct, with the
    association id of the endpoint, and stops at the first call the kernel
    refuses, with an error that names the field and matches the errno.
    When it succeeds, SCTP_RECVRCVINFO is on and the two notification types
    the package needs are subscribed, before anything else was set. *)
Theorem applyConfig_spec c style p s (Hp : prepare (Some c) style = Ret p) :
  let '(_, l, r) := applyConfig (p_ops p) s in
  (l = [] /\ r = Err (Plain NetErrClosed)) \/
  applied (p_ops p) l r /\
  match r with
  | Ret _ => take 3 l = ok <$> [set_int ipprotoSCTP optRecvRcvInfo 1; set_event EventAssocChange true;
                                set_event EventPartialDelivery true]
  | Err e => exists q errno before, errno <> 0 /\ errors_Is e (Errno errno) = true /\ l = before ++ [Did q errno []]
  | Panic => False
  end.
Proof.
  pose proof (emits_unfold (applyConfig (p_ops p)) s (fun l r => (l = [] /\ r = Err (Plain NetErrClosed)) \/
    applied (p_ops p) l r)) as H. destruct (applyConfig (p_ops p) s) as [[s' l] r]. cbn in H.
  destruct H as [H | H].
  - apply emits_control; [| by left]. eapply emits_mono; [apply apply_ops_applied |]. auto.
  - by left.
  - right. split; [done |]. destruct (applied_Is _ _ _ H) as [-> | (e & q & n & b & -> & Hn & He & ->)]; [| eauto 8].
    destruct (prepare_ops_first c style p Hp) as [ops Hops]. rewrite Hops in H.
    inversion H as [| op ops' l1 l2 r' H1 H2 |]; subst. inversion H2 as [| op ops' l3 l4 r' H3 H4 |]; subst.
    destruct H1 as [[-> _] | (? & ? & ? & ? & ? & ? & ? & ?)]; [| done].
    destruct H3 as [[-> _] | (? & ? & ? & ? & ? & ? & ? & ?)]; done.
Qed.
End Configs.

(** ** The socket's default send parameters

    Linux keeps the defaults of an endpoint or association in one record:
    the stream, a flags word that also holds the PR-SCTP policy, the PPID
    in network order, the context, and the policy's value. *)
Record defaults := { d_stream : Z; d_flags : Z; d_ppid : Z; d_context : Z; d_value : Z }.

Section Defaults.
Context `{A : Arch} `{ZE : ZoneEnv} `{K : Kernel}.

Definition defaults_wf (d : defaults) : Prop :=
  is_u16 (d_stream d) /\ is_u16 (d_flags d) /\ is_u32 (d_ppid d) /\ is_u32 (d_context d) /\ is_u32 (d_value d).

Definition snd_struct (d : defaults) : bytes :=
  n2 (d_stream d) ++ n2 (d_flags d) ++ n4 (d_ppid d) ++ n4 (d_context d) ++ n4 0.
Definition pr_struct (d : defaults) : bytes :=
  n4 0 ++ n4 (d_value d) ++ n2 (Z.land (d_flags d) prPolicyMask) ++ n2 0.

(** What Linux documents: SCTP_DEFAULT_SNDINFO replaces the whole flags
    word, SCTP_DEFAULT_PRINFO the policy in it, and the getters report the
    record. *)
Record default_laws (view : world -> defaults) : Prop := {
  law_wf w : defaults_wf (view w);
  law_set_snd w d w' :
    defaults_wf d -> k_setsockopt w ipprotoSCTP optDefaultSndInfo (snd_struct d) = (w', 0) ->
    view w' = {| d_stream := d_stream d; d_flags := d_flags d; d_ppid := d_ppid d;
                 d_context := d_context d; d_value := d_value (view w) |};
  law_set_pr w d w' :
    defaults_wf d -> k_setsockopt w ipprotoSCTP optDefaultPRInfo (pr_struct d) = (w', 0) ->
    view w' = {| d_stream := d_stream (view w);
                 d_flags := Z.lor (Z.ldiff (d_flags (view w)) prPolicyMask) (Z.land (d_flags d) prPolicyMask);
                 d_ppid := d_ppid (view w); d_context := d_context (view w);
                 d_value := if Z.land (d_flags d) prPolicyMask =? PRNone then 0 else d_value d |};
  law_get_snd w b : len b = sizeSndInfo ->
    exists w', k_getsockopt w ipprotoSCTP optDefaultSndInfo b = (w', (0, (snd_struct (view w), sizeSndInfo))) /\ view w' = view w;
  law_get_pr w b : len b = sizeDefaultPRInfo ->
    exists w', k_getsockopt w ipprotoSCTP optDefaultPRInfo b = (w', (0, (pr_struct (view w), sizeDefaultPRInfo))) /\ view w' = view w;
}.

Context (view : world -> defaults) (HL : default_laws view).

Lemma reply_all b r : len r = len b -> reply_into b r = r.
Proof.
  intros H. unfold reply_into. rewrite take_ge by (unfold len in H; lia). by rewrite drop_ge, app_nil_r by (unfold len in H; lia).
Qed.

Lemma u16_land v m : is_u16 v -> is_u16 (Z.land v m).
Proof.
  intros H. rewrite <- (u16_small v H). unfold u16, is_u16. rewrite <- Z.land_ones by lia.
  rewrite <- Z.land_assoc, (Z.land_comm (Z.ones 16)), Z.land_assoc, Z.land_ones by lia. apply Z.mod_pos_bound. lia.
Qed.

(** The fields of the two structs. *)
Lemma field2 l v r off : off = len l -> is_u16 v ->
  get_at (E:=error) NativeEndian 2 (l ++ n2 v ++ r) off = Ret v.
Proof.
  intros -> Hv. pose proof (len_nonneg l). pose proof (len_nonneg r).
  rewrite get2_ok by (rewrite ?len_app, ?len_n2; lia). f_equal.
  rewrite sub_app_r, Z.sub_diag, sub_app_l, sub_full by (rewrite ?len_n2; lia). unfold n2. rewrite uint_of_2. by apply u16_small.
Qed.

Lemma field4 l v r off : off = len l -> is_u32 v ->
  get_at (E:=error) NativeEndian 4 (l ++ n4 v ++ r) off = Ret v.
Proof.
  intros -> Hv. pose proof (len_nonneg l). pose proof (len_nonneg r).
  rewrite get4_ok by (rewrite ?len_app, ?len_n4; lia). f_equal.
  rewrite sub_app_r, Z.sub_diag, sub_app_l, sub_full by (rewrite ?len_n4; lia). unfold n4. rewrite uint_of_4. by apply u32_small.
Qed.

Lemma pr_fields d :
  defaults_wf d ->
  get_at (E:=error) NativeEndian 2 (pr_struct d) defaultPRInfoPolicyOff = Ret (Z.land (d_flags d) prPolicyMask) /\
  get_at (E:=error) NativeEndian 4 (pr_struct d) defaultPRInfoValueOff = Ret (d_value d).
Proof.
  intros (_ & Hf & _ & _ & Hv). unfold pr_struct. split; [| by apply field4; rewrite ?len_n4].
  rewrite app_assoc. apply field2; [by rewrite len_app, !len_n4 | by apply u16_land].
Qed.

Lemma len_pr_struct d : len (pr_struct d) = sizeDefaultPRInfo.
Proof. unfold pr_struct. by rewrite !len_app, !len_n4, !len_n2. Qed.

Lemma len_snd_struct d : len (snd_struct d) = sizeSndInfo.
Proof. unfold snd_struct. by rewrite !len_app, !len_n4, !len_n2. Qed.

(** What the getters return, in terms of the kernel's record. *)
Lemma get_pr_run s :
  exists w', rawGetsockopt ipprotoSCTP optDefaultPRInfo (zeros sizeDefaultPRInfo) s =
    ({| kern := w'; storageLayoutCache := storageLayoutCache s |}, [Did get_pr 0 (pr_struct (view (kern s)))],
     Ret (pr_struct (view (kern s)), u32 sizeDefaultPRInfo)) /\ view w' = view (kern s).
Proof.
  destruct (law_get_pr view HL (kern s) (zeros sizeDefaultPRInfo)) as (w' & Hw & Hv); [by apply len_zeros |].
  exists w'. split; [| done]. unfold rawGetsockopt. rewrite len_zeros by done. cbn [Z.eqb sizeDefaultPRInfo].
  rewrite Hw. cbn. rewrite reply_all by (rewrite len_pr_struct, len_zeros; done). done.
Qed.

Lemma getDefaultPrInfo_run s :
  exists w', (getDefaultPrInfo s).1.1 = {| kern := w'; storageLayoutCache := storageLayoutCache s |} /\
  view w' = view (kern s) /\
  (getDefaultPrInfo s).2 =
    Ret (prInfoFromKernel (Z.land (d_flags (view (kern s))) prPolicyMask) (d_value (view (kern s)))).
Proof.
  destruct (get_pr_run s) as (w' & Hg & Hv). destruct (pr_fields (view (kern s)) (law_wf view HL _)) as [Hp Hval].
  exists w'. unfold getDefaultPrInfo. run_sys. rewrite Hg, Hp, Hval. done.
Qed.

(** The SndInfo the record holds. *)
Definition snd_of (d : defaults) : SndInfo := {|
  snd_Stream := d_stream d; snd_Flags := Z.land (d_flags d) sndFlagUnordered;
  snd_PPID := networkOrderUint32 (d_ppid d); snd_Context := d_context d |}.

Lemma networkOrder_spec v : is_u32 v -> uint_of BigEndian (n4 v) = networkOrderUint32 v.
Proof.
  intros _. unfold networkOrderUint32, n4. by destruct NativeEndian.
Qed.

Lemma getDefaultSndInfo_run s :
  exists w', (getDefaultSndInfo s).1.1 = {| kern := w'; storageLayoutCache := storageLayoutCache s |} /\
  view w' = view (kern s) /\ (getDefaultSndInfo s).2 = Ret (snd_of (view (kern s))).
Proof.
  destruct (law_get_snd view HL (kern s) (zeros sizeSndInfo)) as (w' & Hw & Hv); [by apply len_zeros |].
  pose proof (law_wf view HL (kern s)) as (Hs & Hf & Hp & Hc & _). exists w'. set (d := view (kern s)) in *.
  assert (H2 : get_at (E:=error) NativeEndian 2 (snd_struct d) sndInfoFlagsOff = Ret (d_flags d))
    by (unfold snd_struct; by apply field2; rewrite ?len_n2).
  assert (H0 : get_at (E:=error) NativeEndian 2 (snd_struct d) sndInfoStreamOff = Ret (d_stream d))
    by (unfold snd_struct; by apply (field2 [])).
  assert (H8 : get_at (E:=error) NativeEndian 4 (snd_struct d) sndInfoContextOff = Ret (d_context d)).
  { unfold snd_struct. rewrite 2!app_assoc. apply field4; [by rewrite !len_app, !len_n2, len_n4 | done]. }
  assert (H4 : get_at (E:=error) BigEndian 4 (snd_struct d) sndInfoPPIDOff = Ret (networkOrderUint32 (d_ppid d))).
  { rewrite get4_ok by (rewrite ?len_snd_struct; abi; lia). f_equal. unfold snd_struct. rewrite app_assoc.
    rewrite sub_app_r, len_app, !len_n2, sub_app_l, sub_full by (rewrite ?len_app, ?len_n2, ?len_n4; abi; lia).
    by apply networkOrder_spec. }
  unfold getDefaultSndInfo, rawGetsockopt. run_sys. rewrite len_zeros by done. cbn [Z.eqb sizeSndInfo].
  rewrite Hw. cbn. rewrite reply_all by (rewrite len_snd_struct, len_zeros; done).
  rewrite H2. cbn. rewrite H0, H4, H8. done.
Qed.

Lemma rawSetsockopt_run level opt b s w' :
  0 < len b -> k_setsockopt (kern s) level opt b = (w', 0) ->
  rawSetsockopt level opt b s =
    ({| kern := w'; storageLayoutCache := storageLayoutCache s |}, [ok (Setsockopt level opt b)], Ret tt).
Proof. intros Hb Hw. unfold rawSetsockopt. rewrite (proj2 (Z.eqb_neq _ _)) by lia. by rewrite Hw. Qed.

Lemma rawSetsockopt_ret level opt b s s' l :
  rawSetsockopt level opt b s = (s', l, Ret tt) ->
  k_setsockopt (kern s) level opt b = (kern s', 0).
Proof.
  unfold rawSetsockopt. destruct (len b =? 0); [done |]. destruct (k_setsockopt _ _ _ _) as [w n].
  destruct (Z.eqb_spec n 0) as [-> |]; [| done]. by intros [= <- _].
Qed.

(** Setting the PR default, and setting the send default whole. *)
Lemma setDefaultPrInfo_run policy value s s' l :
  is_u16 policy -> is_u32 value -> setDefaultPrInfo (Z.land policy prPolicyMask) value s = (s', l, Ret tt) ->
  d_value (view (kern s')) = (if Z.land policy prPolicyMask =? PRNone then 0 else value) /\
  d_flags (view (kern s')) = Z.lor (Z.ldiff (d_flags (view (kern s))) prPolicyMask) (Z.land policy prPolicyMask) /\
  snd_of (view (kern s')) = snd_of (view (kern s)).
Proof.
  intros Hp Hv H. set (d := {| d_stream := 0; d_flags := policy; d_ppid := 0; d_context := 0; d_value := value |}).
  assert (Hd : defaults_wf d) by (unfold defaults_wf, is_u16, is_u32 in *; cbn; lia).
  unfold setDefaultPrInfo in H.
  assert (Hb : (b ← put_at (E:=error) NativeEndian 4 (zeros sizeDefaultPRInfo) defaultPRInfoValueOff value;
                put_at NativeEndian 2 b defaultPRInfoPolicyOff (Z.land policy prPolicyMask)) = Ret (pr_struct d)).
  { unfold pr_struct. rewrite n4_0, n2_0. laid. }
  revert H Hb. run_sys. destruct (put_at NativeEndian 4 _ _ _) as [b | |]; [| done..]. cbn.
  destruct (put_at NativeEndian 2 _ _ _) as [b' | |]; [| done..]. intros H [= ->].
  destruct (rawSetsockopt ipprotoSCTP optDefaultPRInfo (pr_struct d) s) as [[s1 l1] r] eqn:E.
  injection H as <- <- ->. apply rawSetsockopt_ret in E.
  rewrite (law_set_pr view HL _ d _ Hd E). split; [done |]. split; [done |]. unfold snd_of. cbn. f_equal.
  rewrite Z.land_lor_distr_l. rewrite <- Z.land_assoc. change (Z.land prPolicyMask sndFlagUnordered) with 0.
  rewrite Z.land_0_r, Z.lor_0_r. apply Z.bits_inj'. intros i Hi.
  rewrite !Z.land_spec, Z.ldiff_spec. destruct (Z.testbit sndFlagUnordered i) eqn:Ei; [| by rewrite !andb_false_r].
  replace (Z.testbit prPolicyMask i) with false; [by rewrite andb_true_r |].
  assert (Hz : Z.testbit (Z.land prPolicyMask sndFlagUnordered) i = false) by (change (Z.land prPolicyMask sndFlagUnordered) with 0; apply Z.bits_0).
  rewrite Z.land_spec, Ei, andb_true_r in Hz. done.
Qed.

Lemma setDefaultSndInfo_ret stream flags ppid context s s' l :
  is_u16 stream -> is_u16 flags -> is_u32 ppid -> is_u32 context ->
  setDefaultSndInfo stream flags ppid context s = (s', l, Ret tt) ->
  exists s1, view (kern s1) = {| d_stream := stream; d_flags := flags; d_ppid := ppid; d_context := context;
                                 d_value := d_value (view (kern s)) |} /\
  let policy := Z.land (d_flags (view (kern s))) prPolicyMask in
  if policy =? PRNone then s' = s1
  else exists l1, setDefaultPrInfo (Z.land policy prPolicyMask) (d_value (view (kern s))) s1 = (s', l1, Ret tt).
Proof.
  intros H1 H2 H3 H4 H. destruct (get_pr_run s) as (w1 & Hg & Hv).
  destruct (pr_fields (view (kern s)) (law_wf view HL _)) as [Hp Hval].
  set (d := {| d_stream := stream; d_flags := flags; d_ppid := ppid; d_context := context; d_value := 0 |}).
  assert (Hd : defaults_wf d) by (unfold defaults_wf, is_u16, is_u32 in *; cbn; lia).
  assert (Hb : (b ← put_at (E:=error) NativeEndian 2 (zeros sizeSndInfo) sndInfoStreamOff stream;
                b ← put_at NativeEndian 2 b sndInfoFlagsOff flags;
                b ← put_at NativeEndian 4 b sndInfoPPIDOff ppid;
                put_at NativeEndian 4 b sndInfoContextOff context) = Ret (snd_struct d)).
  { unfold snd_struct. rewrite n4_0. laid. }
  unfold setDefaultSndInfo in H. revert H Hb. run_sys. rewrite Hg. cbn.
  destruct (put_at NativeEndian 2 _ sndInfoStreamOff _) as [b | |]; [| done..]. cbn.
  destruct (put_at NativeEndian 2 _ sndInfoFlagsOff _) as [b1 | |]; [| done..]. cbn.
  destruct (put_at NativeEndian 4 _ sndInfoPPIDOff _) as [b2 | |]; [| done..]. cbn.
  destruct (put_at NativeEndian 4 _ sndInfoContextOff _) as [b3 | |]; [| done..]. intros H [= ->].
  destruct (rawSetsockopt ipprotoSCTP optDefaultSndInfo (snd_struct d) _) as [[s1 l1] r] eqn:E.
  destruct r as [[] | |]; [| done..]. rewrite Hp, Hval in H. apply rawSetsockopt_ret in E.
  exists s1. split; [rewrite (law_set_snd view HL _ d _ Hd E); cbn [kern]; rewrite Hv; done |].
  assert (Hm : forall v, Z.land (Z.land v prPolicyMask) prPolicyMask = Z.land v prPolicyMask)
    by (intros v; by rewrite <- Z.land_assoc).
  rewrite Hm in *. cbv zeta. destruct (Z.land (d_flags (view (kern s))) prPolicyMask =? PRNone).
  - by injection H as <-.
  - destruct (setDefaultPrInfo _ _ s1) as [[s2 l2] r]. injection H as -> _ ->. eauto.
Qed.

Lemma no_policy flags : flags = 0 \/ flags = sndFlagUnordered -> Z.land flags prPolicyMask = 0 /\ is_u16 flags.
Proof. by intros [-> | ->]. Qed.

(** The default SndInfo and the default PR-SCTP policy are independent,
    although Linux keeps the policy in the flags word that setting the
    SndInfo overwrites: after setDefaultSndInfo succeeds, the SndInfo reads
    back as it was set and the default PrInfo as it was before; after
    setDefaultPrInfo, the PrInfo reads back and the SndInfo is unchanged. *)
Theorem defaults_independent stream flags ppid context policy value s s' l
    (Hst : is_u16 stream) (Hfl : flags = 0 \/ flags = sndFlagUnordered) (Hpp : is_u32 ppid) (Hcx : is_u32 context)
    (Hpo : is_u16 policy) (Hva : is_u32 value) :
  (setDefaultSndInfo stream flags ppid context s = (s', l, Ret tt) ->
   (getDefaultPrInfo s').2 = (getDefaultPrInfo s).2 /\
   (getDefaultSndInfo s').2 = Ret {| snd_Stream := stream; snd_Flags := flags;
                                     snd_PPID := networkOrderUint32 ppid; snd_Context := context |}) /\
  (setDefaultPrInfo (Z.land policy prPolicyMask) value s = (s', l, Ret tt) ->
   (getDefaultSndInfo s').2 = (getDefaultSndInfo s).2 /\
   (getDefaultPrInfo s').2 = Ret (prInfoFromKernel policy value)).
Proof.
  assert (Hm : forall v, Z.land (Z.land v prPolicyMask) prPolicyMask = Z.land v prPolicyMask)
    by (intros v; by rewrite <- Z.land_assoc).
  assert (Hk : forall v w x, prInfoFromKernel (Z.land (Z.lor (Z.ldiff v prPolicyMask) (Z.land w prPolicyMask)) prPolicyMask)
      (if Z.land w prPolicyMask =? PRNone then 0 else x) = prInfoFromKernel w x).
  { intros v w x. unfold prInfoFromKernel. rewrite Hm, Z.land_lor_distr_l, Hm, Z.land_ldiff, Z.lor_0_l.
    by destruct (Z.land w prPolicyMask =? PRNone). }
  assert (Hi : forall v x, prInfoFromKernel (Z.land v prPolicyMask) x = prInfoFromKernel v x)
    by (intros v x; unfold prInfoFromKernel; by rewrite Hm).
  destruct (getDefaultPrInfo_run s) as (wp & _ & _ & Hpr). destruct (getDefaultPrInfo_run s') as (wp' & _ & _ & Hpr').
  destruct (getDefaultSndInfo_run s) as (ws & _ & _ & Hsn). destruct (getDefaultSndInfo_run s') as (ws' & _ & _ & Hsn').
  rewrite Hpr, Hpr', Hsn, Hsn', !Hi. split.
  - intros H. destruct (no_policy flags Hfl) as [Hz Hfu].
    destruct (setDefaultSndInfo_ret stream flags ppid context s s' l) as (s1 & Hv1 & Hr); [done.. |]. cbv zeta in Hr.
    destruct (law_wf view HL (kern s)) as (_ & Hfs & _ & _ & Hvs).
    assert (Hsnd : snd_of (view (kern s1)) = {| snd_Stream := stream; snd_Flags := flags;
      snd_PPID := networkOrderUint32 ppid; snd_Context := context |}).
    { rewrite Hv1. unfold snd_of. cbn. f_equal. by destruct Hfl as [-> | ->]. }
    destruct (Z.eqb_spec (Z.land (d_flags (view (kern s))) prPolicyMask) PRNone) as [E | E].
    + subst s1. split; [| by rewrite Hsnd]. rewrite Hv1. cbn. unfold prInfoFromKernel. by rewrite Hz, E.
    + destruct Hr as [l1 Hr]. apply setDefaultPrInfo_run in Hr as (Hv & Hf & Hsn1); [| by apply u16_land | done].
      rewrite Hsn1, Hsnd. split; [| done]. rewrite Hf, Hv, <- Hi, Hk, Hi. done.
  - intros H. apply setDefaultPrInfo_run in H as (Hv & Hf & ->); [| done..]. split; [done |].
    by rewrite Hf, Hv, <- Hi, Hk.
Qed.
End Defaults.

(** ** Keys *)
Section Keys.
Context `{A : Arch} `{ZE : ZoneEnv} `{K : Kernel}.

Definition sys_err (r : out error unit) : out error unit :=
  match r with Err e => Err (SyscallErr "setsockopt" e) | r => r end.

Lemma key_call_made closed opt b :
  0 < len b ->
  emits (key_call closed opt b) (fun l r => (l = [] /\ r = Err closed) \/
    exists r', made [set_value optAuthSupported 1; set_sctp opt b] l r' /\ r = sys_err r').
Proof.
  intros Hb. assert (Hin : emits (_ ← enableAuth;
    wrapped (fun e => NewSyscallError "setsockopt" (Some e)) (rawSetsockopt ipprotoSCTP opt b))
    (fun l r => exists r', made ([set_value optAuthSupported 1] ++ [set_sctp opt b]) l r' /\ r = sys_err r')).
  { apply emits_bind, emits_wrapped. eapply emits_mono; [apply setAssocValue_made |].
    intros l r [[-> ->] | (be & q & a & n & E & Hn & -> & ->)]; cbn [then_ NewSyscallError fmap option_fmap option_map].
    - apply emits_wrapped. apply emits_set; [lia |]. intros errno. unfold set_outcome.
      destruct (Z.eqb_spec errno 0) as [-> | Hn].
      + exists (Ret tt). split; [by left | done].
      + cbn. exists (Err (errno_error errno)). split; [| done]. right.
        exists [set_value optAuthSupported 1], (set_sctp opt b), [], errno. done.
    - exists (Err (errno_error n)). split; [| done]. right. exists be, q, (a ++ [set_sctp opt b]), n.
      rewrite E, <- app_assoc. done. }
  intros s. unfold key_call, raw_Control. destruct (k_control (kern s)) as [w []]; [| by left].
  right. exact (Hin _).
Qed.

(** A key is installed or activated only after AUTH has been switched on
    for the socket: the two calls are made in that order, the second only
    when the first succeeded, with the struct of the key, and an errno is
    reported as a setsockopt's; a nil RawConn, an empty secret and one that
    does not fit sca_keylength are refused with EINVAL before any call. *)
Theorem auth_keys_spec c key secret s :
  (let '(_, l, r) := InstallAuthKey c key secret s in
   match c with
   | Some closed =>
       if (1 <=? len secret) && (len secret <=? MaxUint16) then
         (l = [] /\ r = Err closed) \/
         exists r', made [set_value optAuthSupported 1;
                          set_sctp optAuthKey (n4 0 ++ n2 key ++ n2 (len secret) ++ secret)] l r' /\ r = sys_err r'
       else l = [] /\ exists m, r = Err (InvalidArg m)
   | None => l = [] /\ exists m, r = Err (InvalidArg m)
   end) /\
  (let '(_, l, r) := ActivateAuthKey c key s in
   match c with
   | Some closed =>
       (l = [] /\ r = Err closed) \/
       exists r', made [set_value optAuthSupported 1; set_sctp optAuthActiveKey (n4 0 ++ n2 key ++ n2 0)] l r' /\ r = sys_err r'
   | None => l = [] /\ exists m, r = Err (InvalidArg m)
   end).
Proof.
  unfold InstallAuthKey, ActivateAuthKey. split; (destruct c as [closed |]; [| split; [done | by eexists]]).
  - pose proof (len_nonneg secret). destruct (Z.eqb_spec (len secret) 0) as [E | E].
    { rewrite (proj2 (Z.leb_gt _ _)) by lia. split; [done | by eexists]. }
    rewrite (proj2 (Z.leb_le 1 _)) by lia. cbn [andb]. destruct (Z.ltb_spec MaxUint16 (len secret)) as [Hm | Hm].
    { rewrite (proj2 (Z.leb_gt _ _)) by lia. split; [done | by eexists]. }
    rewrite (proj2 (Z.leb_le _ _)) by lia. set (b := n4 0 ++ n2 key ++ n2 (len secret) ++ secret).
    assert (Hb : 0 < len b) by (unfold b; rewrite !len_app, len_n4, !len_n2; lia).
    assert (Hl : (b ← put_at (E:=error) NativeEndian 2 (zeros (sizeAuthKey + len secret)) authKeyKeyNumberOff key;
      b ← put_at NativeEndian 2 b authKeyKeyLengthOff (u16 (len secret)); copy_at b authKeyKeyOff secret) = Ret b).
    { unfold b. rewrite n4_0, u16_small by (unfold is_u16, MaxUint16 in *; lia). abi.
      rewrite put_first by (cbn; lia). next. rewrite put_next by (rewrite ?len_app, ?len_bytes_of, ?len_zeros by lia; cbn; lia). next.
      rewrite copy_at_app by (rewrite ?len_app, ?len_bytes_of, ?len_zeros by lia; cbn; lia).
      rewrite zeros_rest. replace (_ - Z.of_nat (length secret)) with 0 by (unfold len; lia).
      by rewrite <- !app_assoc, app_nil_r. }
    pose proof (key_call_made closed optAuthKey b Hb s) as Hk.
    revert Hl Hk. run_sys. destruct (put_at NativeEndian 2 _ authKeyKeyNumberOff _) as [b1 | |]; [| done..]. cbn.
    destruct (put_at NativeEndian 2 _ authKeyKeyLengthOff _) as [b2 | |]; [| done..]. cbn. intros ->. cbn.
    destruct (key_call closed optAuthKey b s) as [[? ?] ?]. done.
  - set (b := n4 0 ++ n2 key ++ n2 0). assert (Hb : 0 < len b) by (unfold b; rewrite !len_app, len_n4, !len_n2; lia).
    assert (Hl : put_at (E:=error) NativeEndian 2 (zeros sizeAuthKeyID) authKeyIDKeyNumberOff key = Ret b).
    { unfold b. rewrite n4_0, n2_0. laid. }
    pose proof (key_call_made closed optAuthActiveKey b Hb s) as Hk. revert Hk. run_sys. rewrite Hl.
    destruct (key_call closed optAuthActiveKey b s) as [[? ?] ?]. done.
Qed.
End Keys.

(** ** A kernel that keeps the defaults, for the witnesses *)
Definition kept_defaults (d : defaults) : defaults := {|
  d_stream := u16 (d_stream d); d_flags := u16 (d_flags d); d_ppid := u32 (d_ppid d);
  d_context := u32 (d_context d); d_value := u32 (d_value d) |}.

Section DefaultsKernel.
Context `{A : Arch}.

Definition field_of (b : bytes) (off n : Z) : Z := uint_of NativeEndian (sub b off n).

Definition default_set (d : defaults) (opt : Z) (b : bytes) : defaults :=
  if opt =? optDefaultSndInfo then
    {| d_stream := field_of b 0 2; d_flags := field_of b 2 2; d_ppid := field_of b 4 4;
       d_context := field_of b 8 4; d_value := d_value d |}
  else if opt =? optDefaultPRInfo then
    let policy := Z.land (field_of b 8 2) prPolicyMask in
    {| d_stream := d_stream d; d_flags := Z.lor (Z.ldiff (d_flags d) prPolicyMask) policy; d_ppid := d_ppid d;
       d_context := d_context d; d_value := if policy =? PRNone then 0 else field_of b 4 4 |}
  else d.

Definition default_get (d : defaults) (opt : Z) (b : bytes) : bytes :=
  if opt =? optDefaultSndInfo then snd_struct d else if opt =? optDefaultPRInfo then pr_struct d else b.

Definition default_kernel : Kernel := {|
  numbers := amd64_numbers;
  world := defaults;
  k_control w := (w, true);
  k_setsockopt w _ opt b := (kept_defaults (default_set (kept_defaults w) opt b), 0);
  k_getsockopt w _ opt b := (w, (0, (default_get (kept_defaults w) opt b, len b))) |}.

Lemma field_at2 l v r off : off = len l -> is_u16 v -> field_of (l ++ n2 v ++ r) off 2 = v.
Proof.
  intros -> Hv. unfold field_of. pose proof (len_nonneg l).
  rewrite sub_app_r, Z.sub_diag, sub_app_l, sub_full by (rewrite ?len_n2; lia). unfold n2. rewrite uint_of_2. by apply u16_small.
Qed.

Lemma field_at4 l v r off : off = len l -> is_u32 v -> field_of (l ++ n4 v ++ r) off 4 = v.
Proof.
  intros -> Hv. unfold field_of. pose proof (len_nonneg l).
  rewrite sub_app_r, Z.sub_diag, sub_app_l, sub_full by (rewrite ?len_n4; lia). unfold n4. rewrite uint_of_4. by apply u32_small.
Qed.

Lemma kept_wf d : defaults_wf (kept_defaults d).
Proof. unfold defaults_wf, is_u16, is_u32. cbn. unfold u16, u32. split_and!; apply Z.mod_pos_bound; lia. Qed.

Lemma kept_id d : defaults_wf d -> kept_defaults d = d.
Proof.
  intros (H1 & H2 & H3 & H4 & H5). destruct d. unfold kept_defaults. cbn in *.
  by rewrite !u16_small, !u32_small by done.
Qed.

Lemma u16_lor_policy v w : is_u16 v -> is_u16 w -> is_u16 (Z.lor (Z.ldiff v prPolicyMask) (Z.land w prPolicyMask)).
Proof.
  intros Hv Hw. rewrite <- (u16_small v Hv), <- (u16_small w Hw). unfold is_u16, u16.
  rewrite <- !Z.land_ones by lia.
  replace (Z.lor _ _) with (Z.land (Z.lor (Z.ldiff v prPolicyMask) (Z.land w prPolicyMask)) (Z.ones 16)).
  - rewrite Z.land_ones by lia. apply Z.mod_pos_bound. lia.
  - apply Z.bits_inj'. intros i Hi. rewrite !Z.land_spec, !Z.lor_spec, !Z.ldiff_spec, !Z.land_spec.
    destruct (Z.testbit v i), (Z.testbit w i), (Z.testbit prPolicyMask i), (Z.testbit (Z.ones 16) i); done.
Qed.

Lemma default_kernel_laws : default_laws (K := default_kernel) kept_defaults.
Proof.
  split; cbn.
  - apply kept_wf.
  - intros w d w' Hd [= <-]. pose proof Hd as (H1 & H2 & H3 & H4 & _).
    unfold default_set. cbn [Z.eqb optDefaultSndInfo Pos.eqb].
    assert (E : forall x, is_u32 x -> kept_defaults {| d_stream := field_of (snd_struct d) 0 2; d_flags := field_of (snd_struct d) 2 2;
       d_ppid := field_of (snd_struct d) 4 4; d_context := field_of (snd_struct d) 8 4; d_value := x |} =
       {| d_stream := d_stream d; d_flags := d_flags d; d_ppid := d_ppid d; d_context := d_context d; d_value := x |}).
    { intros x Hx.
      assert (E1 : field_of (snd_struct d) 0 2 = d_stream d) by exact (field_at2 [] _ _ 0 eq_refl H1).
      assert (E2 : field_of (snd_struct d) 2 2 = d_flags d) by (apply field_at2; rewrite ?len_n2; done).
      assert (E3 : field_of (snd_struct d) 4 4 = d_ppid d).
      { unfold snd_struct. rewrite app_assoc. apply field_at4; [by rewrite len_app, !len_n2 | done]. }
      assert (E4 : field_of (snd_struct d) 8 4 = d_context d).
      { unfold snd_struct. rewrite 2!app_assoc. apply field_at4; [by rewrite !len_app, !len_n2, len_n4 | done]. }
      rewrite E1, E2, E3, E4. by apply kept_id. }
    rewrite E by apply kept_wf. apply kept_id. split_and!; try done. apply kept_wf.
  - intros w d w' Hd [= <-]. pose proof Hd as (H1 & H2 & H3 & H4 & H5). pose proof (kept_wf w) as (W1 & W2 & W3 & W4 & W5).
    unfold default_set. cbn [Z.eqb optDefaultSndInfo optDefaultPRInfo Pos.eqb].
    assert (Ep : field_of (pr_struct d) 8 2 = Z.land (d_flags d) prPolicyMask).
    { unfold pr_struct. rewrite app_assoc. apply field_at2; [by rewrite len_app, !len_n4 | by apply u16_land]. }
    assert (Ev : field_of (pr_struct d) 4 4 = d_value d) by (unfold pr_struct; apply field_at4; [by rewrite len_n4 | done]).
    rewrite Ep, Ev, <- Z.land_assoc. change (Z.land prPolicyMask prPolicyMask) with prPolicyMask.
    match goal with |- kept_defaults (kept_defaults ?e) = _ => assert (He : defaults_wf e) end.
    { split_and!; try done; cbn; [by apply u16_lor_policy | by destruct (_ =? PRNone)]. }
    by rewrite !(kept_id _ He).
  - intros w b Hb. exists w. unfold default_get. cbn [Z.eqb optDefaultSndInfo Pos.eqb]. by rewrite Hb.
  - intros w b Hb. exists w. unfold default_get. cbn [Z.eqb optDefaultSndInfo optDefaultPRInfo Pos.eqb]. by rewrite Hb.
Qed.
End DefaultsKernel.

(** An unordered SndInfo, set while the default policy is PRRtx with two
    retransmissions. *)
Definition rtx_defaults : defaults := {|
  d_stream := 0; d_flags := PRRtx; d_ppid := 0; d_context := 0; d_value := 2 |}.

#[local] Instance amd64_defaults : Kernel := default_kernel (A := amd64).

Definition rtx_state : proc := {| kern := rtx_defaults; storageLayoutCache := storageLayoutUnknown |}.

Definition after_snd : proc := (setDefaultSndInfo (A := amd64) 3 sndFlagUnordered 7 9 rtx_state).1.1.

Lemma defaults_independent_witness :
  (getDefaultPrInfo (A := amd64) after_snd).2 = Ret {| pr_Policy := PRRtx; pr_TTL := 0; pr_Value := 2 |} /\
  (getDefaultSndInfo (A := amd64) after_snd).2 =
    Ret {| snd_Stream := 3; snd_Flags := sndFlagUnordered; snd_PPID := networkOrderUint32 (A := amd64) 7; snd_Context := 9 |}.
Proof.
  assert (H3 : is_u16 3) by (unfold is_u16; lia). assert (H7 : is_u32 7) by (unfold is_u32; lia).
  assert (H9 : is_u32 9) by (unfold is_u32; lia). assert (H0 : is_u16 0) by (unfold is_u16; lia).
  assert (H0' : is_u32 0) by (unfold is_u32; lia).
  pose proof (proj1 (defaults_independent (A := amd64) kept_defaults (default_kernel_laws (A := amd64)) 3 sndFlagUnordered 7 9 0 0
    rtx_state after_snd (setDefaultSndInfo (A := amd64) 3 sndFlagUnordered 7 9 rtx_state).1.2
    H3 (or_intror eq_refl) H7 H9 H0 H0')) as H.
  destruct H as [Hp Hs].
  { match goal with |- ?x = _ => vm_cast_no_check (eq_refl x) end. }
 split; [| exact Hs]. rewrite Hp. vm_compute. reflexivity.
Defined.

Lemma applyConfig_spec_witness :
  prepare (A := amd64) (Some sample_config) styleListenEndpoint = Ret sample_prepared /\
  take 3 (applyConfig (A := amd64) (p_ops sample_prepared) rtx_state).1.2 =
    ok <$> [set_int (A := amd64) ipprotoSCTP optRecvRcvInfo 1; set_event (A := amd64) EventAssocChange true;
            set_event (A := amd64) EventPartialDelivery true].
Proof.
  assert (H : prepare (A := amd64) (Some sample_config) styleListenEndpoint = Ret sample_prepared)
    by (vm_compute; reflexivity).
  split; [exact H |].
  pose proof (applyConfig_spec (A := amd64) sample_config styleListenEndpoint sample_prepared rtx_state H) as Hc.
  assert (Hr : (applyConfig (A := amd64) (p_ops sample_prepared) rtx_state).2 = Ret tt) by (vm_compute; reflexivity).
  destruct (applyConfig (A := amd64) (p_ops sample_prepared) rtx_state) as [[s' l] r]. cbn in Hr. subst r.
  destruct Hc as [[_ Hc] | [_ Hc]]; [discriminate Hc | exact Hc].
Defined.
