(* ===== verification/ConnOptions.v ===== *)
(** * The typed options of a Conn (src/options_linux.go, src/options_ext_linux.go,
    the defaults of src/send_linux.go)

    Every getter and setter of Conn.  Each checks that the connection is
    open, checks its arguments, lays the request out, makes its system call,
    and reads the reply; an error is wrapped once, with Op "get" or "set".

    The locks optMu and subMu keep a sequence of calls of one method from
    interleaving with another's; a method is therefore a function of the
    state, and what the kernel does between two calls of a method is up to
    the kernel.

    The theorems: for every method and every kernel, no panic, no call when
    the connection is closed or an argument is refused, only calls of the
    method's own option with a buffer of the struct's size that names the
    association, and errors wrapped once; and a partial change of the path
    thresholds keeps the others. *)
From Stdlib Require Import ZArith Lia Bool.
From stdpp Require Import base list option strings.
From coqutil Require Import Byte.
From S2P Require Import Prelude Close Abi Errors Enums Netip Sockaddr Options OptionCodecs MsgInfo Config Addr Term Recv Sys Apply.

(** The parts of a Conn an option method reads; laddr is the snapshot
    LocalAddr copies. *)
Record Conn := {
  base : conn;
  assoc : Z;
  family : Z;
  peerPort : Z;
  pathScope : Z;
  laddr : option SctpAddr;
}.

Definition c_opened (c : Conn) : bool := opened (base c).
Definition network (c : Conn) : string :=
  if bool_decide (c_network (base c) = "") then "sctp" else c_network (base c).

Section Options.
Context `{A : Arch} `{ZE : ZoneEnv} `{K : Kernel} `{CS : ClosingSentinel}.

(** ** Errors *)
Definition optionError (c : Conn) (op : string) (err : error) : option error :=
  let call := if bool_decide (op = "set") then "setsockopt" else "getsockopt" in
  optError op call (network c) None (c_local (base c)) (Some err).

Definition callError (c : Conn) (op call : string) (err : error) : option error :=
  optError op call (network c) None (c_local (base c)) (Some err).

Definition argError (c : Conn) (op : string) (err : error) : option error :=
  opError op (network c) None (c_local (base c)) (Some err).

(** [if !c.opened() { return ..., c.optionError(op, net.ErrClosed) }] *)
Definition if_open {X} (c : Conn) (op : string) (m : sys X) : sys X :=
  if negb (c_opened c) then fails (optionError c op (Plain NetErrClosed)) else m.

(** [if err := check; err != nil { return ..., c.argError(op, err) }] *)
Definition checked {X} (c : Conn) (op : string) (r : out error X) : sys X :=
  wrapped (argError c op) (pure r).

(** ** One call *)
Definition getOpt (c : Conn) (opt : Z) (b : bytes) : sys (bytes * Z) :=
  if_open c "get" (wrapped (optionError c "get") (getsockopt opt b)).

Definition setOpt (c : Conn) (opt : Z) (b : bytes) : sys unit :=
  if_open c "set" (wrapped (optionError c "set") (setsockopt opt b)).

Definition intOption (c : Conn) (level opt : Z) : sys Z :=
  if_open c "get"
    ('(b, _) ← wrapped (optionError c "get") (getsockoptAt level opt (zeros sizeInt));
     v ← pure (get_at NativeEndian 4 b 0);
     mret (i32 v)).

Definition setIntOption (c : Conn) (level opt v : Z) : sys unit :=
  if_open c "set"
    (b ← pure (put_at NativeEndian 4 (zeros sizeInt) 0 (u32 v));
     wrapped (optionError c "set") (setsockoptAt level opt b)).

Definition boolOption (c : Conn) (opt : Z) : sys bool :=
  v ← intOption c ipprotoSCTP opt; mret (negb (v =? 0)).

Definition setBoolOption (c : Conn) (opt : Z) (on : bool) : sys unit :=
  setIntOption c ipprotoSCTP opt (boolValue on).

Definition assocValueOption (c : Conn) (opt : Z) : sys Z :=
  b ← pure (put_at NativeEndian 4 (zeros sizeAssocValue) assocValueAssocIDOff (u32 (assoc c)));
  '(b, _) ← getOpt c opt b;
  pure (get_at NativeEndian 4 b assocValueValueOff).

Definition setAssocValueOption (c : Conn) (opt v : Z) : sys unit :=
  b ← pure (put_at NativeEndian 4 (zeros sizeAssocValue) assocValueAssocIDOff (u32 (assoc c)));
  b ← pure (put_at NativeEndian 4 b assocValueValueOff v);
  setOpt c opt b.

(** ** Addresses in a request

    [in_field b off f]: [f] writes into b[off:]. *)
Definition in_field {X} (b : bytes) (off : Z) (f : bytes -> out error (bytes * X)) : out error (bytes * X) :=
  dst ← slice_from b off;
  '(dst, x) ← f dst;
  b ← copy_at b off dst;
  Ret (b, x).

(** An address error with the method's name in front. *)
Definition named {X} (name : string) (r : out error X) : out error X :=
  match r with Err e => Err (invalidArg (name +:+ ": " +:+ trim_sctp e)) | r => r end.

Definition pathAddr (c : Conn) (dst : bytes) (name : string) (path : Addr) : out error (bytes * Z) :=
  named name (encodePathAddr dst (family c) path (peerPort c) (pathScope c)).

(** [var addr [sizeSockaddrIn6]byte], encoded and cut to its length. *)
Definition path_bytes (c : Conn) (name : string) (path : Addr) : out error bytes :=
  '(addr, n) ← pathAddr c (zeros sizeSockaddrIn6) name path;
  slice addr 0 n.

(** ** Buffers *)
Definition ReadBuffer (c : Conn) : sys Z := intOption c SOL_SOCKET SO_RCVBUF.

Definition SetReadBuffer (c : Conn) (n : Z) : sys unit :=
  if_open c "set" (v ← checked c "set" (bufferSizeArg "SetReadBuffer" n); setIntOption c SOL_SOCKET SO_RCVBUF v).

Definition WriteBuffer (c : Conn) : sys Z := intOption c SOL_SOCKET SO_SNDBUF.

Definition SetWriteBuffer (c : Conn) (n : Z) : sys unit :=
  if_open c "set" (v ← checked c "set" (bufferSizeArg "SetWriteBuffer" n); setIntOption c SOL_SOCKET SO_SNDBUF v).

(** ** Paths *)
Definition PrimaryAddr (c : Conn) : sys Addr :=
  b ← pure (put_at NativeEndian 4 (zeros sizePrim) primAssocIDOff (u32 (assoc c)));
  '(b, _) ← getOpt c optPrimaryAddr b;
  field ← pure (slice_from b primAddrOff);
  a ← checked c "get" (decodeAddr field);
  mret (ap_addr a).

Definition valid_path (ip : Addr) (msg : string) : out error unit :=
  if negb (IsValid ip) then Err (invalidArg msg) else Ret tt.

Definition SetPrimaryAddr (c : Conn) (path : Addr) : sys unit :=
  if_open c "set"
    (_ ← checked c "set" (valid_path path "SetPrimaryAddr needs one peer address, not the zero netip.Addr");
     '(b, _) ← checked c "set" (in_field (zeros sizePrim) primAddrOff (fun dst => pathAddr c dst "SetPrimaryAddr" path));
     b ← pure (put_at NativeEndian 4 b primAssocIDOff (u32 (assoc c)));
     setOpt c optPrimaryAddr b).

Definition RequestPeerPrimary (c : Conn) (local : Addr) : sys unit :=
  if_open c "set"
    (_ ← checked c "set" (valid_path local "RequestPeerPrimary needs one local address, not the zero netip.Addr");
     let port := match laddr c with Some a => Port a | None => 0 end in
     '(b, _) ← checked c "set" (in_field (zeros sizeSetPeerPrim) setPeerPrimAddrOff
                  (fun dst => named "RequestPeerPrimary" (encodeAddr dst (family c) local port)));
     b ← pure (put_at NativeEndian 4 b setPeerPrimAssocIDOff (u32 (assoc c)));
     setOpt c optSetPeerPrimaryAddr b).

Definition GetPathInfo (c : Conn) (path : Addr) : sys PathInfo :=
  if_open c "get"
    (_ ← checked c "get" (valid_path path "PathInfo needs one peer address, not the zero netip.Addr");
     '(b, _) ← checked c "get" (in_field (zeros sizePathInfo) pathInfoAddressOff (fun dst => pathAddr c dst "PathInfo" path));
     b ← pure (put_at NativeEndian 4 b pathInfoAssocIDOff (u32 (assoc c)));
     '(b, _) ← getOpt c optGetPeerAddrInfo b;
     pure (decodePathInfo b)).

Definition GetPathParams (c : Conn) (path : Addr) : sys PathParams :=
  if_open c "get"
    ('(b, _) ← checked c "get" (in_field (zeros sizePathParams) pathParamsAddressOff (fun dst => pathAddr c dst "PathParams" path));
     b ← pure (put_at NativeEndian 4 b pathParamsAssocIDOff (u32 (assoc c)));
     '(b, _) ← getOpt c optPeerAddrParams b;
     pure (decodePathParams b)).

(** [if p == nil { return c.argError("set", invalidArg(...)) }] *)
Definition not_nil {X} (p : option X) (msg : string) : out error X :=
  match p with Some x => Ret x | None => Err (invalidArg msg) end.

Definition SetPathParams (c : Conn) (path : Addr) (p : option PathParams) : sys unit :=
  if_open c "set"
    (p ← checked c "set" (not_nil p "SetPathParams needs a non-nil *PathParams");
     addr ← checked c "set" (path_bytes c "SetPathParams" path);
     b ← checked c "set" (encodePathParams (zeros sizePathParams) (assoc c) addr p "PathParams");
     setOpt c optPeerAddrParams b).

Definition RequestHeartbeat (c : Conn) (path : Addr) : sys unit :=
  if_open c "set"
    (addr ← checked c "set" (path_bytes c "RequestHeartbeat" path);
     b ← pure (heartbeatDemand (zeros sizePathParams) (assoc c) addr);
     setOpt c optPeerAddrParams b).

(** ** Thresholds *)
Definition readThresholds (c : Conn) (addr : bytes) : sys thresholdValues :=
  l ← storageLayout;
  b ← pure (pathThresholds l (zeros sizePathThresholdsKernel64) (assoc c) addr
              {| tv_maxRetrans := 0; tv_pf := 0; tv_switchover := 0 |});
  '(b, _) ← getsockopt optPathThresholds b;
  pure (read_thresholdValues l b).

Definition GetPathThresholds (c : Conn) (path : Addr) : sys PathThresholds :=
  if_open c "get"
    (addr ← checked c "get" (path_bytes c "PathThresholds" path);
     v ← wrapped (callError c "get" "getsockopt") (readThresholds c addr);
     mret {| pt_PathMaxRetrans := Some (tv_maxRetrans v); pt_PFThreshold := Some (tv_pf v);
             pt_PrimarySwitchover := Some (tv_switchover v) |}).

Definition SetPathThresholds (c : Conn) (path : Addr) (t : option PathThresholds) : sys unit :=
  if_open c "set"
    (t ← checked c "set" (not_nil t "SetPathThresholds needs a non-nil *PathThresholds");
     _ ← checked c "set" (match pt_PathMaxRetrans t with
           | Some 0 => Err (invalidArg "PathThresholds.PathMaxRetrans is 0, which Linux reads as leaving the value unchanged")
           | _ => Ret tt
           end);
     addr ← checked c "set" (path_bytes c "SetPathThresholds" path);
     cur ← wrapped (callError c "set" "getsockopt") (readThresholds c addr);
     v ← checked c "set" (mergePathThresholds cur t "PathThresholds");
     l ← wrapped (callError c "set" "getsockopt") storageLayout;
     b ← pure (pathThresholds l (zeros sizePathThresholdsKernel64) (assoc c) addr v);
     setOpt c optPathThresholds b).

Definition GetPFExposure (c : Conn) : sys Z := assocValueOption c optExposePotentiallyFailedState.

Definition refuse_if (b : bool) (msg : string) : out error unit := if b then Err (invalidArg msg) else Ret tt.

Definition SetPFExposure (c : Conn) (e : Z) : sys unit :=
  if_open c "set"
    (_ ← checked c "set" (refuse_if (PFExposeEnabled <? e)
           "SetPFExposure: %v is not PFExposeUnset, PFExposeDisabled or PFExposeEnabled");
     setAssocValueOption c optExposePotentiallyFailedState (u32 e)).

Definition AutoASCONF (c : Conn) : sys bool := boolOption c optAutoAsconf.
Definition SetAutoASCONF (c : Conn) (on : bool) : sys unit := setBoolOption c optAutoAsconf on.

(** ** Options whose struct embeds a sockaddr_storage *)
Definition RemoteUDPEncapsPort (c : Conn) (path : Addr) : sys Z :=
  if_open c "get"
    (addr ← checked c "get" (path_bytes c "RemoteUDPEncapsPort" path);
     l ← wrapped (callError c "get" "getsockopt") storageLayout;
     b ← pure (udpEncaps l (zeros sizeUDPEncapsKernel64) (assoc c) addr 0);
     '(b, _) ← getOpt c optRemoteUDPEncapsPort b;
     pure (udpEncapsPort l b)).

Definition SetRemoteUDPEncapsPort (c : Conn) (path : Addr) (port : Z) : sys unit :=
  if_open c "set"
    (addr ← checked c "set" (path_bytes c "SetRemoteUDPEncapsPort" path);
     l ← wrapped (callError c "set" "getsockopt") storageLayout;
     b ← pure (udpEncaps l (zeros sizeUDPEncapsKernel64) (assoc c) addr port);
     setOpt c optRemoteUDPEncapsPort b).

Definition PLPMTUDProbeInterval (c : Conn) (path : Addr) : sys Z :=
  if_open c "get"
    (addr ← checked c "get" (path_bytes c "PLPMTUDProbeInterval" path);
     l ← wrapped (callError c "get" "getsockopt") storageLayout;
     b ← pure (probeInterval l (zeros sizeProbeIntervalKernel64) (assoc c) addr 0);
     '(b, _) ← getOpt c optPLPMTUDProbeInterval b;
     ms ← pure (probeIntervalMS l b);
     mret (millisToDuration ms)).

Definition SetPLPMTUDProbeInterval (c : Conn) (path : Addr) (d : Z) : sys unit :=
  if_open c "set"
    (ms ← checked c "set" (durationToMillis "SetPLPMTUDProbeInterval" d MaxUint32);
     _ ← checked c "set" (refuse_if (negb (ms =? 0) && (ms <? minProbeIntervalMS))
           "SetPLPMTUDProbeInterval: %s is below the 5s Linux accepts (SCTP_PROBE_TIMER_MIN)");
     addr ← checked c "set" (path_bytes c "SetPLPMTUDProbeInterval" path);
     l ← wrapped (callError c "set" "getsockopt") storageLayout;
     b ← pure (probeInterval l (zeros sizeProbeIntervalKernel64) (assoc c) addr ms);
     setOpt c optPLPMTUDProbeInterval b).

(** ** The association *)

(** A request of [size] bytes that names the association at [off], and
    getOpt with it. *)
Definition assoc_request (c : Conn) (size off : Z) : out error bytes :=
  put_at NativeEndian 4 (zeros size) off (u32 (assoc c)).

Definition GetStatus (c : Conn) : sys Status :=
  b ← pure (assoc_request c sizeStatus statusAssocIDOff);
  '(b, _) ← getOpt c optStatus b;
  pure (decodeStatus b).

Definition Stats (c : Conn) : sys AssocStats :=
  if_open c "get"
    (l ← wrapped (callError c "get" "getsockopt") storageLayout;
     b ← pure (assocStatsRequest l (zeros sizeAssocStatsKernel64) (assoc c));
     '(b, _) ← getOpt c optGetAssocStats b;
     pure (assocStats l b)).

Definition GetAssocInfo (c : Conn) : sys AssocInfo :=
  b ← pure (assoc_request c sizeAssocInfo assocInfoAssocIDOff);
  '(b, _) ← getOpt c optAssocInfo b;
  pure (decodeAssocInfo b).

Definition SetAssocInfo (c : Conn) (a : option AssocInfo) : sys unit :=
  if_open c "set"
    (a ← checked c "set" (not_nil a "SetAssocInfo needs a non-nil *AssocInfo");
     b ← checked c "set" (encodeAssocInfo (zeros sizeAssocInfo) (assoc c) a "AssocInfo");
     setOpt c optAssocInfo b).

Definition GetRTOInfo (c : Conn) : sys RTOInfo :=
  b ← pure (assoc_request c sizeRTOInfo rtoInfoAssocIDOff);
  '(b, _) ← getOpt c optRTOInfo b;
  pure (decodeRTOInfo b).

Definition SetRTOInfo (c : Conn) (r : option RTOInfo) : sys unit :=
  if_open c "set"
    (r ← checked c "set" (not_nil r "SetRTOInfo needs a non-nil *RTOInfo");
     b ← checked c "set" (encodeRTOInfo (zeros sizeRTOInfo) (assoc c) r "RTOInfo");
     setOpt c optRTOInfo b).

Definition GetInitMsg (c : Conn) : sys InitMsg :=
  '(b, _) ← getOpt c optInitMsg (zeros sizeInitMsg);
  pure (decodeInitMsg b).

Definition GetDelayedSACK (c : Conn) : sys DelayedSACK :=
  b ← pure (assoc_request c sizeDelayedSACK delayedSACKAssocIDOff);
  '(b, _) ← getOpt c optDelayedAckTime b;
  pure (decodeDelayedSACK b).

Definition SetDelayedSACK (c : Conn) (d : option DelayedSACK) : sys unit :=
  if_open c "set"
    (d ← checked c "set" (not_nil d "SetDelayedSACK needs a non-nil *DelayedSACK");
     b ← checked c "set" (encodeDelayedSACK (zeros sizeDelayedSACK) (assoc c) d "DelayedSACK");
     setOpt c optDelayedAckTime b).

Definition AdaptationLayer (c : Conn) : sys Z :=
  '(b, _) ← getOpt c optAdaptationLayer (zeros sizeSetAdaptation);
  pure (get_at NativeEndian 4 b 0).

(** ** Messages *)
Definition NoDelay (c : Conn) : sys bool := boolOption c optNoDelay.
Definition SetNoDelay (c : Conn) (on : bool) : sys unit := setBoolOption c optNoDelay on.

(** [int(v)] of a uint32: a 32-bit build wraps. *)
Definition MaxSeg (c : Conn) : sys Z := v ← assocValueOption c optMaxSeg; mret (to_int v).

Definition SetMaxSeg (c : Conn) (n : Z) : sys unit :=
  if_open c "set" (v ← checked c "set" (uint32Arg "SetMaxSeg" n); setAssocValueOption c optMaxSeg v).

Definition MaxBurst (c : Conn) : sys Z := v ← assocValueOption c optMaxBurst; mret (to_int v).

Definition SetMaxBurst (c : Conn) (n : Z) : sys unit :=
  if_open c "set" (v ← checked c "set" (uint32Arg "SetMaxBurst" n); setAssocValueOption c optMaxBurst v).

Definition FragmentsDisabled (c : Conn) : sys bool := boolOption c optDisableFragments.
Definition SetFragmentsDisabled (c : Conn) (on : bool) : sys unit := setBoolOption c optDisableFragments on.

(** FragmentInterleave is a uint32. *)
Definition GetFragmentInterleave (c : Conn) : sys Z :=
  v ← intOption c ipprotoSCTP optFragmentInterleave; mret (u32 v).

Definition interleave_level (level : Z) : out error unit :=
  if (level =? InterleaveNone) || (level =? InterleaveAssocs) then Ret tt
  else if level =? InterleaveStreams then
    Err (unsupportedField "SetFragmentInterleave" "Linux stores SCTP_FRAGMENT_INTERLEAVE as a boolean and collapses any nonzero value to InterleaveAssocs (net/sctp/socket.c: sctp_setsockopt_fragment_interleave), so level 2 cannot be selected; negotiated I-DATA can still interleave streams (RFC 8260)")
  else Err (invalidArg "SetFragmentInterleave: %v is not InterleaveNone, InterleaveAssocs or InterleaveStreams").

Definition SetFragmentInterleave (c : Conn) (level : Z) : sys unit :=
  if_open c "set"
    (_ ← checked c "set" (interleave_level level);
     setIntOption c ipprotoSCTP optFragmentInterleave (i32 level)).

Definition PartialDeliveryPoint (c : Conn) : sys Z :=
  '(b, _) ← getOpt c optPartialDeliveryPoint (zeros sizeInt);
  v ← pure (get_at NativeEndian 4 b 0);
  mret (to_int v).

Definition SetPartialDeliveryPoint (c : Conn) (n : Z) : sys unit :=
  if_open c "set"
    (v ← checked c "set" (uint32Arg "SetPartialDeliveryPoint" n);
     b ← pure (put_at NativeEndian 4 (zeros sizeInt) 0 v);
     setOpt c optPartialDeliveryPoint b).

Definition ReceiveNxtInfo (c : Conn) : sys bool := boolOption c optRecvNxtInfo.
Definition SetReceiveNxtInfo (c : Conn) (on : bool) : sys unit := setBoolOption c optRecvNxtInfo on.
Definition DefaultContext (c : Conn) : sys Z := assocValueOption c optContext.
Definition SetDefaultContext (c : Conn) (v : Z) : sys unit := setAssocValueOption c optContext v.

(** ** Negotiated extensions (options_ext_linux.go) *)
Definition negotiated (c : Conn) (opt : Z) : sys bool :=
  v ← assocValueOption c opt; mret (negb (v =? 0)).

Definition PRSupported (c : Conn) : sys bool := negotiated c optPRSupported.
Definition ReconfigSupported (c : Conn) : sys bool := negotiated c optReconfigSupported.
Definition ASCONFSupported (c : Conn) : sys bool := negotiated c optASCONFSupported.
Definition AuthSupported (c : Conn) : sys bool := negotiated c optAuthSupported.
Definition InterleavingSupported (c : Conn) : sys bool := negotiated c optInterleavingSupported.
Definition ECNSupported (c : Conn) : sys bool := negotiated c optECNSupported.

(** ** Keys and AUTH *)
Definition SetAuthKey (c : Conn) (key : Z) (secret : bytes) : sys unit :=
  if_open c "set"
    (b ← checked c "set" (encodeAuthKey (assoc c) key secret "SetAuthKey");
     setOpt c optAuthKey b).

Definition authKeyID (c : Conn) (key : Z) : out error bytes :=
  b ← put_at NativeEndian 4 (zeros sizeAuthKeyID) authKeyIDAssocIDOff (u32 (assoc c));
  put_at NativeEndian 2 b authKeyIDKeyNumberOff key.

Definition ActiveAuthKey (c : Conn) : sys Z :=
  b ← pure (authKeyID c 0);
  '(b, _) ← getOpt c optAuthActiveKey b;
  pure (get_at NativeEndian 2 b authKeyIDKeyNumberOff).

Definition key_option (c : Conn) (opt key : Z) : sys unit :=
  if_open c "set" (b ← pure (authKeyID c key); setOpt c opt b).

Definition SetActiveAuthKey (c : Conn) (key : Z) : sys unit := key_option c optAuthActiveKey key.
Definition DeactivateAuthKey (c : Conn) (key : Z) : sys unit := key_option c optAuthDeactivateKey key.
Definition DeleteAuthKey (c : Conn) (key : Z) : sys unit := key_option c optAuthDeleteKey key.

Definition HMACIdentifiers (c : Conn) : sys (list Z) :=
  '(b, n) ← getOpt c optHMACIdent (zeros (sizeHMACAlgo + 2 * maxHMACIdents));
  checked c "get" (decodeHMACIdents b (to_int n)).

Definition authChunks (c : Conn) (opt : Z) : sys bytes :=
  b ← pure (assoc_request c (sizeAuthChunks + maxAuthChunkList) authChunksAssocIDOff);
  '(b, n) ← getOpt c opt b;
  checked c "get" (decodeAuthChunks b (to_int n)).

Definition LocalAuthChunks (c : Conn) : sys bytes := authChunks c optLocalAuthChunks.
Definition PeerAuthChunks (c : Conn) : sys bytes := authChunks c optPeerAuthChunks.

(** ** Streams *)
Definition GetStreamResetMask (c : Conn) : sys Z := assocValueOption c optEnableStreamReset.

Definition SetStreamResetMask (c : Conn) (m : Z) : sys unit :=
  if_open c "set"
    (_ ← checked c "set" (refuse_if (negb (andnot m streamResetKnownBits =? 0))
           "SetStreamResetMask: %#x has unknown bits %#x");
     setAssocValueOption c optEnableStreamReset (u32 m)).

Definition ResetStreams (c : Conn) (dir : Z) (streams : list Z) : sys unit :=
  if_open c "set"
    (b ← checked c "set" (encodeResetStreams (assoc c) dir streams);
     setOpt c optResetStreams b).

Definition ResetAssoc (c : Conn) : sys unit :=
  if_open c "set" (b ← pure (assoc_request c sizeAssocID 0); setOpt c optResetAssoc b).

Definition AddStreams (c : Conn) (ins outs : Z) : sys unit :=
  if_open c "set"
    (_ ← checked c "set" (refuse_if ((ins =? 0) && (outs =? 0)) "AddStreams needs at least one stream to add");
     b ← pure (assoc_request c sizeAddStreams addStreamsAssocIDOff);
     b ← pure (put_at NativeEndian 2 b addStreamsInStreamsOff ins);
     b ← pure (put_at NativeEndian 2 b addStreamsOutStreamsOff outs);
     setOpt c optAddStreams b).

Definition StreamScheduler (c : Conn) : sys Z := assocValueOption c optStreamScheduler.

Definition SetStreamScheduler (c : Conn) (s : Z) : sys unit :=
  if_open c "set"
    (_ ← checked c "set" (refuse_if (SchedWFQ <? s) "SetStreamScheduler: %v is not a scheduler Linux implements");
     setAssocValueOption c optStreamScheduler (u32 s)).

Definition streamValue (c : Conn) (stream value : Z) : out error bytes :=
  b ← assoc_request c sizeStreamValue streamValueAssocIDOff;
  b ← put_at NativeEndian 2 b streamValueStreamIDOff stream;
  put_at NativeEndian 2 b streamValueValueOff value.

Definition StreamSchedulerValue (c : Conn) (stream : Z) : sys Z :=
  b ← pure (streamValue c stream 0);
  '(b, _) ← getOpt c optStreamSchedulerValue b;
  pure (get_at NativeEndian 2 b streamValueValueOff).

Definition SetStreamSchedulerValue (c : Conn) (stream value : Z) : sys unit :=
  if_open c "set" (b ← pure (streamValue c stream value); setOpt c optStreamSchedulerValue b).

(** ** PR-SCTP status *)
Definition prStatus (c : Conn) (opt : Z) (name : string) (stream policy : Z) : sys PRStatus :=
  if_open c "get"
    (_ ← checked c "get" (fail_on (validateStatusPolicy name policy));
     b ← pure (prStatusRequest (zeros sizePRStatus) (assoc c) stream policy);
     '(b, _) ← getOpt c opt b;
     pure (decodePRStatus b)).

Definition PRStreamStatus (c : Conn) (stream policy : Z) : sys PRStatus :=
  prStatus c optPRStreamStatus "PRStreamStatus" stream policy.
Definition PRAssocStatus (c : Conn) (policy : Z) : sys PRStatus :=
  prStatus c optPRAssocStatus "PRAssocStatus" 0 policy.

(** ** Default send parameters (send_linux.go)

    The setters also return what they leave in the send path's cache. *)
Definition DefaultSndInfo (c : Conn) : sys SndInfo :=
  if_open c "get" (wrapped (optionError c "get") (sock_control getDefaultSndInfo)).

Definition SetDefaultSndInfo (c : Conn) (info : option SndInfo) : sys SndInfo :=
  if_open c "set"
    (info ← checked c "set" (not_nil info "SetDefaultSndInfo needs a non-nil *SndInfo");
     _ ← checked c "set" (fail_on (validateDefaultSndInfo "SetDefaultSndInfo" info));
     _ ← wrapped (optionError c "set")
           (sock_control (setDefaultSndInfo (snd_Stream info) (u16 (snd_Flags info))
                            (networkOrderUint32 (snd_PPID info)) (snd_Context info)));
     mret info).

Definition DefaultPrInfo (c : Conn) : sys PrInfo :=
  if_open c "get" (wrapped (optionError c "get") (sock_control getDefaultPrInfo)).

Definition SetDefaultPrInfo (c : Conn) (pr : option PrInfo) : sys PrInfo :=
  if_open c "set"
    (pr ← checked c "set" (not_nil pr "SetDefaultPrInfo needs a non-nil *PrInfo");
     _ ← checked c "set" (fail_on (validatePrInfo "SetDefaultPrInfo" pr));
     let '(policy, value) := resolvePrInfo pr in
     _ ← wrapped (optionError c "set") (sock_control (setDefaultPrInfo policy value));
     mret (prInfoFromKernel policy value)).

(** ** Subscriptions (recv_linux.go)

    [subs] is the caller's set; the result is the set after the call. *)
Definition known_type (t : Z) : bool := existsb (fun e => fst e =? t) eventTypeNames.

Definition Subscribe (c : Conn) (subs t : Z) (on : bool) : sys Z :=
  if_open c "set"
    (_ ← checked c "set" (refuse_if (negb (known_type t)) "Subscribe: %v is not a notification type");
     _ ← (if negb (t =? EventAssocChange) && negb (t =? EventPartialDelivery)
          then wrapped (optionError c "set") (sock_control (setEvent t on)) else mret tt);
     mret (if on then Z.lor subs (eventBit t) else Z.land subs (Z.lxor (eventBit t) MaxUint32))).

Definition Subscribed (c : Conn) (subs t : Z) : sys bool :=
  if_open c "get"
    (_ ← checked c "get" (refuse_if (negb (known_type t)) "Subscribed: %v is not a notification type");
     mret (has (u16 subs) t)).
End Options.

(** ** Requests

    [fine P r]: [r] returns something in [P], or refuses an argument. *)
Definition refused (e : error) : Prop := (exists m, e = InvalidArg m) \/ (exists m, e = Wrapf m ErrUnsupported).

Definition fine {X} (P : X -> Prop) (r : out error X) : Prop :=
  match r with Ret x => P x | Err e => refused e | Panic => False end.

Lemma fine_bind {X Y} (P : X -> Prop) (Q : Y -> Prop) (r : out error X) (k : X -> out error Y) :
  fine P r -> (forall x, P x -> fine Q (k x)) -> fine Q (r ≫= k).
Proof. destruct r; simpl; auto. Qed.

Lemma fine_mono {X} (P Q : X -> Prop) (r : out error X) : fine P r -> (forall x, P x -> Q x) -> fine Q r.
Proof. destruct r; simpl; auto. Qed.

Lemma fine_refuse b msg : fine (fun _ => b = false) (refuse_if b msg).
Proof. destruct b; simpl; [left; by eexists | done]. Qed.

Lemma fine_not_nil {X} (p : option X) msg : fine (fun x => p = Some x) (not_nil p msg).
Proof. destruct p; simpl; [done | left; by eexists]. Qed.

Lemma fine_valid ip msg : fine (fun _ => True) (valid_path ip msg).
Proof. unfold valid_path. destruct (IsValid ip); simpl; [done | left; by eexists]. Qed.

Section Requests.
Context `{A : Arch} `{AK : !ArchOk A} `{ZE : ZoneEnv}.

(** A request of [size] bytes that names association [a]. *)
Definition req (a size : Z) (b : bytes) : Prop := len b = size /\ uint_of NativeEndian (sub b 0 4) = u32 a.

Lemma fine_put_len o n b off v size :
  len b = size -> 0 <= off -> off + Z.of_nat n <= size -> fine (fun b' => len b' = size) (put_at o n b off v).
Proof.
  intros <- H1 H2. destruct (put_at_frame (E:=error) o n b off v H1 H2) as (b' & -> & [Hl _] & _). exact Hl.
Qed.

Lemma fine_put o n b off v a size :
  req a size b -> 4 <= off -> off + Z.of_nat n <= size -> fine (req a size) (put_at o n b off v).
Proof.
  intros [<- Ha] H1 H2. destruct (put_at_frame (E:=error) o n b off v) as (b' & -> & [Hl Hf] & _); [lia.. |].
  split; [done |]. by rewrite Hf by lia.
Qed.

Lemma fine_put_assoc b off a size :
  off = 0 -> len b = size -> 4 <= size -> fine (req a size) (put_at NativeEndian 4 b off (u32 a)).
Proof.
  intros -> <- H. destruct (put_at_frame (E:=error) NativeEndian 4 b 0 (u32 a)) as (b' & -> & [Hl _] & Hv); [lia.. |].
  split; [done |]. change (Z.of_nat 4) with 4 in Hv. rewrite Hv. unfold u32. apply Z.mod_mod. lia.
Qed.

Lemma fine_copy b off v a size :
  req a size b -> 4 <= off -> off + len v <= size -> fine (req a size) (copy_at b off v).
Proof.
  intros [<- Ha] H1 H2. rewrite copy_at_ok by lia. pose proof (len_nonneg v).
  destruct (splice_frame b v off (len v)) as [Hl Hf]; [lia.. |]. split; [done |]. by rewrite Hf by lia.
Qed.

Lemma fine_copy_field b off n v a size :
  req a size b -> 4 <= off -> 0 <= n -> off + n <= size -> fine (req a size) (copy_field b off n v).
Proof.
  intros [<- Ha] H1 H2 H3. destruct (copy_field_frame b off n v) as (b' & -> & [Hl Hf] & _); [lia.. |].
  split; [done |]. by rewrite Hf by lia.
Qed.


Lemma slice_head (b : bytes) n : 0 <= n <= len b -> slice (E:=error) b 0 n = Ret (sub b 0 n) /\ len (sub b 0 n) = n.
Proof. intros H. rewrite slice_ok by lia. rewrite Z.sub_0_r, len_sub by lia. done. Qed.

Lemma len_zeros_ge n : 0 <= n -> len (zeros n) = n.
Proof. apply len_zeros. Qed.

Lemma clear_all (b : bytes) : clear_at (E:=error) b 0 (len b) = Ret (zeros (len b)).
Proof.
  pose proof (len_nonneg b). rewrite clear_at_ok, splice_all by (rewrite ?len_zeros; lia). by rewrite Z.sub_0_r.
Qed.

Lemma fine_millis field d : fine is_u32 (durationToMillis field d MaxUint32).
Proof.
  pose proof (durationToMillis_outcome field d MaxUint32) as H. destruct (durationToMillis field d MaxUint32); simpl.
  - destruct H as [H _]; [unfold MaxUint32; lia |]. unfold is_u32, MaxUint32 in *. lia.
  - destruct H as [[m ->] _]; [unfold MaxUint32; lia |]. left. by exists m.
  - apply H. unfold MaxUint32. lia.
Qed.

(** [fine_steps] runs the writes of an encoder. *)
Ltac fine_steps :=
  repeat first
    [ eapply fine_bind; [eapply fine_put_assoc; [reflexivity | eassumption || (by apply len_zeros) | abi; lia] | cbv beta; intros ? ?]
    | eapply fine_bind; [eapply fine_put; [eassumption | abi; lia | abi; lia] | cbv beta; intros ? ?]
    | eapply fine_bind; [eapply fine_copy_field; [eassumption | abi; lia | abi; lia | abi; lia] | cbv beta; intros ? ?]
    | eapply fine_put; [eassumption | abi; lia | abi; lia]
    | eapply fine_put_assoc; [reflexivity | eassumption || (by apply len_zeros) | abi; lia] ].

Lemma fine_rto a r field : fine (req a sizeRTOInfo) (encodeRTOInfo (zeros sizeRTOInfo) a r field).
Proof.
  unfold encodeRTOInfo. do 3 (eapply fine_bind; [apply fine_millis | intros ? ?]).
  destruct (_ && _); [left; by eexists |].
  destruct (slice_head (zeros sizeRTOInfo) sizeRTOInfo) as [-> Hl]; [rewrite len_zeros; abi; lia |]. next. fine_steps.
Qed.

Lemma fine_sack a d field : fine (req a sizeDelayedSACK) (encodeDelayedSACK (zeros sizeDelayedSACK) a d field).
Proof.
  unfold encodeDelayedSACK. eapply fine_bind; [apply fine_millis | intros ? ?].
  destruct (_ <? _); [left; by eexists |].
  destruct (slice_head (zeros sizeDelayedSACK) sizeDelayedSACK) as [-> Hl]; [rewrite len_zeros; abi; lia |]. next. fine_steps.
Qed.

Lemma fine_assocInfo a v field : fine (req a sizeAssocInfo) (encodeAssocInfo (zeros sizeAssocInfo) a v field).
Proof.
  unfold encodeAssocInfo. eapply fine_bind; [apply fine_millis | intros ? ?].
  destruct (slice_head (zeros sizeAssocInfo) sizeAssocInfo) as [-> Hl]; [rewrite len_zeros; abi; lia |]. next.
  rewrite clear_all, Hl. next. fine_steps.
Qed.

Lemma fine_heartbeat a addr : fine (req a sizePathParams) (heartbeatDemand (zeros sizePathParams) a addr).
Proof.
  unfold heartbeatDemand.
  destruct (slice_head (zeros sizePathParams) sizePathParams) as [-> Hl]; [rewrite len_zeros; abi; lia |]. next.
  rewrite clear_all, Hl. next. fine_steps.
Qed.

Lemma fine_prStatus a stream policy : fine (req a sizePRStatus) (prStatusRequest (zeros sizePRStatus) a stream policy).
Proof.
  unfold prStatusRequest.
  destruct (slice_head (zeros sizePRStatus) sizePRStatus) as [-> Hl]; [rewrite len_zeros; abi; lia |]. next.
  rewrite clear_all, Hl. next. fine_steps.
Qed.

Lemma fine_authKeyID c key : fine (req (assoc c) sizeAuthKeyID) (authKeyID c key).
Proof. unfold authKeyID. fine_steps. Qed.

Lemma fine_streamValue c stream value : fine (req (assoc c) sizeStreamValue) (streamValue c stream value).
Proof. unfold streamValue, assoc_request. fine_steps. Qed.

Lemma fine_pathParams a addr p field :
  pp_wf p -> fine (req a sizePathParams) (encodePathParams (zeros sizePathParams) a addr p field).
Proof.
  intros Hp. pose proof (encodePathParams_outcome (zeros sizePathParams) a addr p field Hp) as H.
  destruct (encodePathParams _ _ _ _ _); simpl.
  - destruct H as (_ & (Hl & Ha & _) & _); [rewrite len_zeros; abi; lia |]. by split.
  - destruct H as (_ & m & ->); [rewrite len_zeros; abi; lia |]. left. by exists m.
  - apply H. rewrite len_zeros; abi; lia.
Qed.

Lemma fine_authKey a key secret name :
  fine (req a (sizeAuthKey + len secret)) (encodeAuthKey a key secret name).
Proof.
  unfold encodeAuthKey. pose proof (len_nonneg secret). destruct (_ =? _); [left; by eexists |]. destruct (_ <? _); [left; by eexists |].
  assert (Hz : len (zeros (sizeAuthKey + len secret)) = sizeAuthKey + len secret) by (apply len_zeros; abi; lia).
  fine_steps. eapply fine_copy; [eassumption | abi; lia | abi; lia].
Qed.

Lemma fine_put_list n a size vs : forall b off,
  req a size b -> 4 <= off -> off + Z.of_nat n * len vs <= size -> fine (req a size) (put_list NativeEndian n b off vs).
Proof.
  induction vs as [| v vs IH]; intros b off Hb Ho Hs; simpl; [done |]. rewrite len_cons in Hs. pose proof (len_nonneg vs).
  eapply fine_bind; [eapply fine_put; [eassumption | lia | nia] |]. intros b' Hb'. apply IH; [done | lia | lia].
Qed.

Lemma fine_resetStreams a dir streams :
  fine (req a (sizeResetStreams + 2 * len streams)) (encodeResetStreams a dir streams).
Proof.
  unfold encodeResetStreams. pose proof (len_nonneg streams). do 3 (destruct (_ : bool); [left; by eexists |]).
  assert (Hz : len (zeros (sizeResetStreams + 2 * len streams)) = sizeResetStreams + 2 * len streams) by (apply len_zeros; abi; lia).
  fine_steps. eapply fine_put_list; [eassumption | abi; lia | abi; lia].
Qed.

(** ** Addresses *)
Lemma fine_encodeAddr dst fam ip port :
  addr_wf ip ->
  fine (fun '(d, n) => len d = len dst /\ 0 <= n <= sizeSockaddrIn6 /\ n <= len dst) (encodeAddr dst fam ip port).
Proof.
  intros Hw. pose proof (encodeAddr_outcome dst fam ip port Hw) as H.
  destruct (encodeAddr dst fam ip port) as [[d n] | e |]; simpl; [| left; tauto | done].
  destruct H as (Hacc & _ & Hn & Hle & ->). pose proof (len_sockaddr_bytes fam ip port Hw Hacc) as Hl.
  assert (0 <= n <= sizeSockaddrIn6) by (rewrite Hn; unfold sockaddr_len; abi; destruct (_ =? _); lia).
  split; [| lia]. rewrite len_app, Hl, len_drop_Z. rewrite Hn in *. lia.
Qed.

Lemma fine_encodePathAddr dst fam path port scope :
  addr_wf path -> sizeSockaddrIn6 <= len dst ->
  fine (fun '(d, n) => len d = len dst /\ 0 <= n <= sizeSockaddrIn6) (encodePathAddr dst fam path port scope).
Proof.
  intros Hw Hd. unfold encodePathAddr. destruct (IsValid path); simpl; [| abi; lia].
  eapply fine_bind; [by apply fine_encodeAddr |]. intros [d n] (Hl & Hn & _). destruct (_ && _ && _ && _); [| done].
  eapply fine_bind; [apply (fine_put_len _ _ d _ _ (len dst)); [done | abi; lia | abi; lia] |]. intros d' Hd'. simpl. done.
Qed.

Lemma fine_named {X} (P : X -> Prop) name r : fine P r -> fine P (named name r).
Proof. destruct r; simpl; [done | | done]. intros _. left. by eexists. Qed.

Lemma fine_pathAddr c dst name path :
  addr_wf path -> sizeSockaddrIn6 <= len dst ->
  fine (fun '(d, n) => len d = len dst /\ 0 <= n <= sizeSockaddrIn6) (pathAddr c dst name path).
Proof. intros. by apply fine_named, fine_encodePathAddr. Qed.

Lemma fine_path_bytes c name path : addr_wf path -> fine (fun _ => True) (path_bytes c name path).
Proof.
  intros Hw. unfold path_bytes. eapply fine_bind; [apply fine_pathAddr; [done | rewrite len_zeros; abi; lia] |].
  intros [d n] [Hl Hn]. rewrite len_zeros in Hl by (abi; lia). rewrite slice_ok by lia. done.
Qed.

Lemma fine_in_field {X} size off (f : bytes -> out error (bytes * X)) :
  0 <= off <= size -> (forall dst, len dst = size - off -> fine (fun '(d, _) => len d = len dst) (f dst)) ->
  fine (fun '(b, _) => len b = size) (in_field (zeros size) off f).
Proof.
  intros Ho Hf. unfold in_field, slice_from. assert (Hz : len (zeros size) = size) by (apply len_zeros; lia).
  rewrite slice_ok by lia. next. rewrite Hz.
  assert (Hl : len (sub (zeros size) off (size - off)) = size - off) by (apply len_sub; lia).
  eapply fine_bind; [by apply Hf |]. intros [d x] Hd. rewrite Hl in Hd. rewrite copy_at_ok by lia. simpl.
  by rewrite len_splice by lia.
Qed.

(** ** Structs that embed a sockaddr_storage *)
Lemma layout_of l : is_layout l -> layout_fits l.
Proof. intros [-> | ->]; apply layouts_fit. Qed.

Lemma layout_sizes l :
  is_layout l -> l_sizeUDPEncaps l <= sizeUDPEncapsKernel64 /\ l_sizeProbeInterval l <= sizeProbeIntervalKernel64 /\
  l_sizePathThresholds l <= sizePathThresholdsKernel64 /\ l_sizeAssocStats l <= sizeAssocStatsKernel64.
Proof. intros [-> | ->]; arch_cases A; vm_compute; repeat split; discriminate. Qed.

Lemma fine_header l b a addr size :
  is_layout l -> len b = size -> l_addrOff l + sizeSockaddrStorage <= size -> fine (req a size) (storageHeader l b a addr).
Proof.
  intros Hl <- Hs. destruct (layout_of l Hl) as [H4 _].
  destruct (storageHeader_ok l b a addr) as (b' & -> & Hb & Ha & _); [done.. |]. by split.
Qed.

Lemma fine_udpEncaps l a addr port :
  is_layout l -> fine (req a (l_sizeUDPEncaps l)) (udpEncaps l (zeros sizeUDPEncapsKernel64) a addr port).
Proof.
  intros Hl. destruct (layout_of l Hl) as (H4 & [Hu Hu'] & _). destruct (layout_sizes l Hl) as (Hs & _).
  unfold udpEncaps. assert (0 <= sizeSockaddrStorage) by done.
  destruct (slice_head (zeros sizeUDPEncapsKernel64) (l_sizeUDPEncaps l)) as [-> Hb]; [rewrite len_zeros by done; lia |]. next.
  eapply fine_bind; [eapply fine_header; [done | exact Hb | lia] |]. intros b Hr. eapply fine_put; [exact Hr | lia | lia].
Qed.

Lemma fine_probeInterval l a addr ms :
  is_layout l -> fine (req a (l_sizeProbeInterval l)) (probeInterval l (zeros sizeProbeIntervalKernel64) a addr ms).
Proof.
  intros Hl. destruct (layout_of l Hl) as (H4 & _ & [Hu Hu'] & _). destruct (layout_sizes l Hl) as (_ & Hs & _).
  unfold probeInterval. assert (0 <= sizeSockaddrStorage) by done.
  destruct (slice_head (zeros sizeProbeIntervalKernel64) (l_sizeProbeInterval l)) as [-> Hb]; [rewrite len_zeros by done; lia |]. next.
  eapply fine_bind; [eapply fine_header; [done | exact Hb | lia] |]. intros b Hr. eapply fine_put; [exact Hr | lia | lia].
Qed.

Lemma fine_pathThresholds l a addr v :
  is_layout l -> fine (req a (l_sizePathThresholds l)) (pathThresholds l (zeros sizePathThresholdsKernel64) a addr v).
Proof.
  intros Hl. destruct (layout_of l Hl) as (H4 & _ & _ & (Hu & Hu' & Hu'' & Hu3) & _). destruct (layout_sizes l Hl) as (_ & _ & Hs & _).
  unfold pathThresholds. assert (0 <= sizeSockaddrStorage) by done.
  destruct (slice_head (zeros sizePathThresholdsKernel64) (l_sizePathThresholds l)) as [-> Hb]; [rewrite len_zeros by done; lia |]. next.
  eapply fine_bind; [eapply fine_header; [done | exact Hb | lia] |]. intros b Hr.
  do 2 (eapply fine_bind; [eapply fine_put; [eassumption | lia | lia] | intros ? ?]). eapply fine_put; [eassumption | lia | lia].
Qed.

Lemma fine_stats l a :
  is_layout l -> fine (req a (l_sizeAssocStats l)) (assocStatsRequest l (zeros sizeAssocStatsKernel64) a).
Proof.
  intros Hl. destruct (layout_of l Hl) as (H4 & _ & _ & _ & Hu & Hu'). destruct (layout_sizes l Hl) as (_ & _ & _ & Hs).
  unfold assocStatsRequest. assert (0 <= sizeSockaddrStorage /\ 0 <= assocStatsCounters) as [] by done.
  destruct (slice_head (zeros sizeAssocStatsKernel64) (l_sizeAssocStats l)) as [-> Hb]; [rewrite len_zeros by done; lia |]. next.
  eapply fine_header; [done | exact Hb | lia].
Qed.

(** ** Replies: a reply of the struct's size is always read *)
Definition sure {X} (r : out error X) : Prop := exists x, r = Ret x.

Lemma sure_bind {X Y} (r : out error X) (k : X -> out error Y) : sure r -> (forall x, sure (k x)) -> sure (r ≫= k).
Proof. intros [x ->] H. apply H. Qed.

Lemma sure_get o n b off : 0 <= off -> off + Z.of_nat n <= len b -> sure (get_at o n b off).
Proof. intros. rewrite get_at_ok by done. by eexists. Qed.

Lemma sure_ret {X} (x : X) : sure (Ret x).
Proof. by exists x. Qed.

Lemma sure_addr b : sure (addr_or_zero b).
Proof.
  unfold addr_or_zero. pose proof (decodeAddr_outcome b) as H. destruct (decodeAddr b); [by eexists.. | done].
Qed.

Lemma sure_slice (b : bytes) lo hi (k : bytes -> out error PathInfo) :
  0 <= lo -> lo <= hi -> hi <= len b -> sure (k (sub b lo (hi - lo))) -> sure (slice b lo hi ≫= k).
Proof. intros. by rewrite slice_ok. Qed.

Ltac sure_steps := repeat first
  [ apply sure_ret | apply sure_bind; [apply sure_get; abi; lia | intros ?] | apply sure_bind; [apply sure_addr | intros ?]
  | apply sure_get; abi; lia ].

Lemma sure_pathInfo b : len b = sizePathInfo -> sure (decodePathInfo b).
Proof. intros Hb. unfold decodePathInfo. rewrite slice_ok by (abi; lia). next. sure_steps. Qed.

Lemma sure_status b : len b = sizeStatus -> sure (decodeStatus b).
Proof.
  intros Hb. unfold decodeStatus. sure_steps. rewrite slice_ok by (abi; lia). next.
  apply sure_bind; [apply sure_pathInfo; rewrite len_sub; abi; lia |]. intros ?. sure_steps.
Qed.

Lemma sure_pathParams b : len b = sizePathParams -> sure (decodePathParams b).
Proof.
  intros Hb. unfold decodePathParams. sure_steps. apply sure_bind; [destruct (has_bits _ _); sure_steps |]. intros ?.
  apply sure_bind; [destruct (has_bits _ _); sure_steps |]. intros ?. sure_steps.
Qed.

Lemma sure_assocInfo b : len b = sizeAssocInfo -> sure (decodeAssocInfo b).
Proof. intros Hb. unfold decodeAssocInfo. sure_steps. Qed.
Lemma sure_rto b : len b = sizeRTOInfo -> sure (decodeRTOInfo b).
Proof. intros Hb. unfold decodeRTOInfo. sure_steps. Qed.
Lemma sure_sack b : len b = sizeDelayedSACK -> sure (decodeDelayedSACK b).
Proof. intros Hb. unfold decodeDelayedSACK. sure_steps. Qed.
Lemma sure_init b : len b = sizeInitMsg -> sure (decodeInitMsg b).
Proof. intros Hb. unfold decodeInitMsg. sure_steps. Qed.
Lemma sure_prStatus b : len b = sizePRStatus -> sure (decodePRStatus b).
Proof. intros Hb. unfold decodePRStatus. sure_steps. Qed.

Lemma sure_udpEncaps l b : is_layout l -> len b = l_sizeUDPEncaps l -> sure (udpEncapsPort l b).
Proof.
  intros Hl Hb. destruct (layout_of l Hl) as (H4 & [Hu Hu'] & _). assert (0 <= sizeSockaddrStorage) by done.
  apply sure_get; lia.
Qed.
Lemma sure_probeInterval l b : is_layout l -> len b = l_sizeProbeInterval l -> sure (probeIntervalMS l b).
Proof.
  intros Hl Hb. destruct (layout_of l Hl) as (H4 & _ & [Hu Hu'] & _). assert (0 <= sizeSockaddrStorage) by done.
  apply sure_get; lia.
Qed.
Lemma sure_thresholds l b : is_layout l -> len b = l_sizePathThresholds l -> sure (read_thresholdValues l b).
Proof.
  intros Hl Hb. destruct (layout_of l Hl) as (H4 & _ & _ & (Hu & Hu' & Hu'' & Hu3) & _). assert (0 <= sizeSockaddrStorage) by done.
  unfold read_thresholdValues. do 3 (apply sure_bind; [apply sure_get; lia | intros ?]). apply sure_ret.
Qed.
Lemma sure_stats l b : is_layout l -> len b = l_sizeAssocStats l -> sure (assocStats l b).
Proof.
  intros Hl Hb. destruct (layout_of l Hl) as (H4 & _ & _ & _ & Hu & Hu'). assert (0 <= sizeSockaddrStorage) by done.
  change assocStatsCounters with 15 in Hu'. unfold assocStats. rewrite slice_ok by lia. next.
  apply sure_bind; [apply sure_addr | intros ?].
  unfold assocStatsMaxRTO, assocStatsISACKs, assocStatsOSACKs, assocStatsIPackets, assocStatsOPackets, assocStatsRtxChunks,
    assocStatsOutOfSeqTSNs, assocStatsIDupChunks, assocStatsGapCount, assocStatsIUODChunks, assocStatsOUODChunks,
    assocStatsIODChunks, assocStatsOODChunks, assocStatsICtrlChunks, assocStatsOCtrlChunks.
  repeat (apply sure_bind; [apply sure_get; lia | intros ?]). apply sure_ret.
Qed.
End Requests.

(** ** The methods, as a type

    What each method is, for the theorem about all of them. *)
Inductive method :=
| mReadBuffer
| mSetReadBuffer (n : Z)
| mWriteBuffer
| mSetWriteBuffer (n : Z)
| mPrimaryAddr
| mSetPrimaryAddr (path : Addr)
| mRequestPeerPrimary (local : Addr)
| mGetPathInfo (path : Addr)
| mGetPathParams (path : Addr)
| mSetPathParams (path : Addr) (p : option PathParams)
| mRequestHeartbeat (path : Addr)
| mGetPathThresholds (path : Addr)
| mSetPathThresholds (path : Addr) (t : option PathThresholds)
| mGetPFExposure
| mSetPFExposure (e : Z)
| mAutoASCONF
| mSetAutoASCONF (on : bool)
| mNoDelay
| mSetNoDelay (on : bool)
| mFragmentsDisabled
| mSetFragmentsDisabled (on : bool)
| mReceiveNxtInfo
| mSetReceiveNxtInfo (on : bool)
| mRemoteUDPEncapsPort (path : Addr)
| mSetRemoteUDPEncapsPort (path : Addr) (port : Z)
| mPLPMTUDProbeInterval (path : Addr)
| mSetPLPMTUDProbeInterval (path : Addr) (d : Z)
| mGetStatus
| mStats
| mGetAssocInfo
| mSetAssocInfo (a : option AssocInfo)
| mGetRTOInfo
| mSetRTOInfo (r : option RTOInfo)
| mGetInitMsg
| mGetDelayedSACK
| mSetDelayedSACK (d : option DelayedSACK)
| mAdaptationLayer
| mMaxSeg
| mSetMaxSeg (n : Z)
| mMaxBurst
| mSetMaxBurst (n : Z)
| mGetFragmentInterleave
| mSetFragmentInterleave (level : Z)
| mPartialDeliveryPoint
| mSetPartialDeliveryPoint (n : Z)
| mDefaultContext
| mSetDefaultContext (v : Z)
| mPRSupported
| mReconfigSupported
| mASCONFSupported
| mAuthSupported
| mInterleavingSupported
| mECNSupported
| mSetAuthKey (key : Z) (secret : bytes)
| mActiveAuthKey
| mSetActiveAuthKey (key : Z)
| mDeactivateAuthKey (key : Z)
| mDeleteAuthKey (key : Z)
| mHMACIdentifiers
| mLocalAuthChunks
| mPeerAuthChunks
| mGetStreamResetMask
| mSetStreamResetMask (mask : Z)
| mResetStreams (dir : Z) (streams : list Z)
| mResetAssoc
| mAddStreams (ins : Z) (outs : Z)
| mStreamScheduler
| mSetStreamScheduler (s : Z)
| mStreamSchedulerValue (stream : Z)
| mSetStreamSchedulerValue (stream : Z) (value : Z)
| mPRStreamStatus (stream : Z) (policy : Z)
| mPRAssocStatus (policy : Z)
| mDefaultSndInfo
| mSetDefaultSndInfo (info : option SndInfo)
| mDefaultPrInfo
| mSetDefaultPrInfo (pr : option PrInfo).

(** Whether it sets; whether it also reads what it changes; its options;
    for each of them, where its struct has an association id, if it has one,
    and whether that is the connection's (or left 0); and the size of the
    struct, or its sizes in the two layouts a kernel may have. *)
Record shape := {
  sh_set : bool; sh_reads : bool; sh_level : Z; sh_opts : list Z;
  sh_id : Z -> option (Z * bool); sh_size : Z -> list Z }.

Definition verb (sh : shape) : string := if sh_set sh then "set" else "get".

Section Methods.
Context `{A : Arch} `{AK : !ArchOk A} `{ZE : ZoneEnv} `{K : Kernel} `{CS : ClosingSentinel}.

(** The sizes of a struct that embeds a sockaddr_storage: the build's, and
    a 64-bit kernel's. *)
Definition in_layouts (f : sockaddrStorageLayout -> Z) : list Z := [f nativeStorageLayout; f kernel64StorageLayout].

Definition shape_of (m : method) : shape :=
  let sh s r level opts named size :=
    {| sh_set := s; sh_reads := r; sh_level := level; sh_opts := opts;
       sh_id := fun _ => if named : bool then Some (0, true) else None; sh_size := fun _ => size |} in
  let defaults s r opts :=
    {| sh_set := s; sh_reads := r; sh_level := ipprotoSCTP; sh_opts := opts;
       sh_id := fun opt => Some (if opt =? optDefaultSndInfo then sndInfoAssocIDOff else defaultPRInfoAssocIDOff, false);
       sh_size := fun opt => [if opt =? optDefaultSndInfo then sizeSndInfo else sizeDefaultPRInfo] |} in
  match m with
  | mReadBuffer => sh false false SOL_SOCKET [SO_RCVBUF] false [sizeInt]
  | mSetReadBuffer _ => sh true false SOL_SOCKET [SO_RCVBUF] false [sizeInt]
  | mWriteBuffer => sh false false SOL_SOCKET [SO_SNDBUF] false [sizeInt]
  | mSetWriteBuffer _ => sh true false SOL_SOCKET [SO_SNDBUF] false [sizeInt]
  | mPrimaryAddr => sh false false ipprotoSCTP [optPrimaryAddr] true [sizePrim]
  | mSetPrimaryAddr _ => sh true false ipprotoSCTP [optPrimaryAddr] true [sizePrim]
  | mRequestPeerPrimary _ => sh true false ipprotoSCTP [optSetPeerPrimaryAddr] true [sizeSetPeerPrim]
  | mGetPathInfo _ => sh false false ipprotoSCTP [optGetPeerAddrInfo] true [sizePathInfo]
  | mGetPathParams _ => sh false false ipprotoSCTP [optPeerAddrParams] true [sizePathParams]
  | mSetPathParams _ _ => sh true false ipprotoSCTP [optPeerAddrParams] true [sizePathParams]
  | mRequestHeartbeat _ => sh true false ipprotoSCTP [optPeerAddrParams] true [sizePathParams]
  | mGetPathThresholds _ => sh false false ipprotoSCTP [optPathThresholds] true (in_layouts l_sizePathThresholds)
  | mSetPathThresholds _ _ => sh true true ipprotoSCTP [optPathThresholds] true (in_layouts l_sizePathThresholds)
  | mGetPFExposure => sh false false ipprotoSCTP [optExposePotentiallyFailedState] true [sizeAssocValue]
  | mSetPFExposure _ => sh true false ipprotoSCTP [optExposePotentiallyFailedState] true [sizeAssocValue]
  | mAutoASCONF => sh false false ipprotoSCTP [optAutoAsconf] false [sizeInt]
  | mSetAutoASCONF _ => sh true false ipprotoSCTP [optAutoAsconf] false [sizeInt]
  | mNoDelay => sh false false ipprotoSCTP [optNoDelay] false [sizeInt]
  | mSetNoDelay _ => sh true false ipprotoSCTP [optNoDelay] false [sizeInt]
  | mFragmentsDisabled => sh false false ipprotoSCTP [optDisableFragments] false [sizeInt]
  | mSetFragmentsDisabled _ => sh true false ipprotoSCTP [optDisableFragments] false [sizeInt]
  | mReceiveNxtInfo => sh false false ipprotoSCTP [optRecvNxtInfo] false [sizeInt]
  | mSetReceiveNxtInfo _ => sh true false ipprotoSCTP [optRecvNxtInfo] false [sizeInt]
  | mRemoteUDPEncapsPort _ => sh false false ipprotoSCTP [optRemoteUDPEncapsPort] true (in_layouts l_sizeUDPEncaps)
  | mSetRemoteUDPEncapsPort _ _ => sh true false ipprotoSCTP [optRemoteUDPEncapsPort] true (in_layouts l_sizeUDPEncaps)
  | mPLPMTUDProbeInterval _ => sh false false ipprotoSCTP [optPLPMTUDProbeInterval] true (in_layouts l_sizeProbeInterval)
  | mSetPLPMTUDProbeInterval _ _ => sh true false ipprotoSCTP [optPLPMTUDProbeInterval] true (in_layouts l_sizeProbeInterval)
  | mGetStatus => sh false false ipprotoSCTP [optStatus] true [sizeStatus]
  | mStats => sh false false ipprotoSCTP [optGetAssocStats] true (in_layouts l_sizeAssocStats)
  | mGetAssocInfo => sh false false ipprotoSCTP [optAssocInfo] true [sizeAssocInfo]
  | mSetAssocInfo _ => sh true false ipprotoSCTP [optAssocInfo] true [sizeAssocInfo]
  | mGetRTOInfo => sh false false ipprotoSCTP [optRTOInfo] true [sizeRTOInfo]
  | mSetRTOInfo _ => sh true false ipprotoSCTP [optRTOInfo] true [sizeRTOInfo]
  | mGetInitMsg => sh false false ipprotoSCTP [optInitMsg] false [sizeInitMsg]
  | mGetDelayedSACK => sh false false ipprotoSCTP [optDelayedAckTime] true [sizeDelayedSACK]
  | mSetDelayedSACK _ => sh true false ipprotoSCTP [optDelayedAckTime] true [sizeDelayedSACK]
  | mAdaptationLayer => sh false false ipprotoSCTP [optAdaptationLayer] false [sizeSetAdaptation]
  | mMaxSeg => sh false false ipprotoSCTP [optMaxSeg] true [sizeAssocValue]
  | mSetMaxSeg _ => sh true false ipprotoSCTP [optMaxSeg] true [sizeAssocValue]
  | mMaxBurst => sh false false ipprotoSCTP [optMaxBurst] true [sizeAssocValue]
  | mSetMaxBurst _ => sh true false ipprotoSCTP [optMaxBurst] true [sizeAssocValue]
  | mGetFragmentInterleave => sh false false ipprotoSCTP [optFragmentInterleave] false [sizeInt]
  | mSetFragmentInterleave _ => sh true false ipprotoSCTP [optFragmentInterleave] false [sizeInt]
  | mPartialDeliveryPoint => sh false false ipprotoSCTP [optPartialDeliveryPoint] false [sizeInt]
  | mSetPartialDeliveryPoint _ => sh true false ipprotoSCTP [optPartialDeliveryPoint] false [sizeInt]
  | mDefaultContext => sh false false ipprotoSCTP [optContext] true [sizeAssocValue]
  | mSetDefaultContext _ => sh true false ipprotoSCTP [optContext] true [sizeAssocValue]
  | mPRSupported => sh false false ipprotoSCTP [optPRSupported] true [sizeAssocValue]
  | mReconfigSupported => sh false false ipprotoSCTP [optReconfigSupported] true [sizeAssocValue]
  | mASCONFSupported => sh false false ipprotoSCTP [optASCONFSupported] true [sizeAssocValue]
  | mAuthSupported => sh false false ipprotoSCTP [optAuthSupported] true [sizeAssocValue]
  | mInterleavingSupported => sh false false ipprotoSCTP [optInterleavingSupported] true [sizeAssocValue]
  | mECNSupported => sh false false ipprotoSCTP [optECNSupported] true [sizeAssocValue]
  | mSetAuthKey _ secret => sh true false ipprotoSCTP [optAuthKey] true [sizeAuthKey + len secret]
  | mActiveAuthKey => sh false false ipprotoSCTP [optAuthActiveKey] true [sizeAuthKeyID]
  | mSetActiveAuthKey _ => sh true false ipprotoSCTP [optAuthActiveKey] true [sizeAuthKeyID]
  | mDeactivateAuthKey _ => sh true false ipprotoSCTP [optAuthDeactivateKey] true [sizeAuthKeyID]
  | mDeleteAuthKey _ => sh true false ipprotoSCTP [optAuthDeleteKey] true [sizeAuthKeyID]
  | mHMACIdentifiers => sh false false ipprotoSCTP [optHMACIdent] false [sizeHMACAlgo + 2 * maxHMACIdents]
  | mLocalAuthChunks => sh false false ipprotoSCTP [optLocalAuthChunks] true [sizeAuthChunks + maxAuthChunkList]
  | mPeerAuthChunks => sh false false ipprotoSCTP [optPeerAuthChunks] true [sizeAuthChunks + maxAuthChunkList]
  | mGetStreamResetMask => sh false false ipprotoSCTP [optEnableStreamReset] true [sizeAssocValue]
  | mSetStreamResetMask _ => sh true false ipprotoSCTP [optEnableStreamReset] true [sizeAssocValue]
  | mResetStreams _ streams => sh true false ipprotoSCTP [optResetStreams] true [sizeResetStreams + 2 * len streams]
  | mResetAssoc => sh true false ipprotoSCTP [optResetAssoc] true [sizeAssocID]
  | mAddStreams _ _ => sh true false ipprotoSCTP [optAddStreams] true [sizeAddStreams]
  | mStreamScheduler => sh false false ipprotoSCTP [optStreamScheduler] true [sizeAssocValue]
  | mSetStreamScheduler _ => sh true false ipprotoSCTP [optStreamScheduler] true [sizeAssocValue]
  | mStreamSchedulerValue _ => sh false false ipprotoSCTP [optStreamSchedulerValue] true [sizeStreamValue]
  | mSetStreamSchedulerValue _ _ => sh true false ipprotoSCTP [optStreamSchedulerValue] true [sizeStreamValue]
  | mPRStreamStatus _ _ => sh false false ipprotoSCTP [optPRStreamStatus] true [sizePRStatus]
  | mPRAssocStatus _ => sh false false ipprotoSCTP [optPRAssocStatus] true [sizePRStatus]
  | mDefaultSndInfo => defaults false false [optDefaultSndInfo]
  | mSetDefaultSndInfo _ => defaults true true [optDefaultSndInfo; optDefaultPRInfo]
  | mDefaultPrInfo => defaults false false [optDefaultPRInfo]
  | mSetDefaultPrInfo _ => defaults true false [optDefaultPRInfo]
  end.

(** The call, its result dropped. *)
Definition drop_result {X} (m : sys X) : sys unit := _ ← m; mret tt.

Definition perform (c : Conn) (m : method) : sys unit :=
  match m with
  | mReadBuffer => drop_result (ReadBuffer c)
  | mSetReadBuffer n => drop_result (SetReadBuffer c n)
  | mWriteBuffer => drop_result (WriteBuffer c)
  | mSetWriteBuffer n => drop_result (SetWriteBuffer c n)
  | mPrimaryAddr => drop_result (PrimaryAddr c)
  | mSetPrimaryAddr path => drop_result (SetPrimaryAddr c path)
  | mRequestPeerPrimary local => drop_result (RequestPeerPrimary c local)
  | mGetPathInfo path => drop_result (GetPathInfo c path)
  | mGetPathParams path => drop_result (GetPathParams c path)
  | mSetPathParams path p => drop_result (SetPathParams c path p)
  | mRequestHeartbeat path => drop_result (RequestHeartbeat c path)
  | mGetPathThresholds path => drop_result (GetPathThresholds c path)
  | mSetPathThresholds path t => drop_result (SetPathThresholds c path t)
  | mGetPFExposure => drop_result (GetPFExposure c)
  | mSetPFExposure e => drop_result (SetPFExposure c e)
  | mAutoASCONF => drop_result (AutoASCONF c)
  | mSetAutoASCONF on => drop_result (SetAutoASCONF c on)
  | mNoDelay => drop_result (NoDelay c)
  | mSetNoDelay on => drop_result (SetNoDelay c on)
  | mFragmentsDisabled => drop_result (FragmentsDisabled c)
  | mSetFragmentsDisabled on => drop_result (SetFragmentsDisabled c on)
  | mReceiveNxtInfo => drop_result (ReceiveNxtInfo c)
  | mSetReceiveNxtInfo on => drop_result (SetReceiveNxtInfo c on)
  | mRemoteUDPEncapsPort path => drop_result (RemoteUDPEncapsPort c path)
  | mSetRemoteUDPEncapsPort path port => drop_result (SetRemoteUDPEncapsPort c path port)
  | mPLPMTUDProbeInterval path => drop_result (PLPMTUDProbeInterval c path)
  | mSetPLPMTUDProbeInterval path d => drop_result (SetPLPMTUDProbeInterval c path d)
  | mGetStatus => drop_result (GetStatus c)
  | mStats => drop_result (Stats c)
  | mGetAssocInfo => drop_result (GetAssocInfo c)
  | mSetAssocInfo a => drop_result (SetAssocInfo c a)
  | mGetRTOInfo => drop_result (GetRTOInfo c)
  | mSetRTOInfo r => drop_result (SetRTOInfo c r)
  | mGetInitMsg => drop_result (GetInitMsg c)
  | mGetDelayedSACK => drop_result (GetDelayedSACK c)
  | mSetDelayedSACK d => drop_result (SetDelayedSACK c d)
  | mAdaptationLayer => drop_result (AdaptationLayer c)
  | mMaxSeg => drop_result (MaxSeg c)
  | mSetMaxSeg n => drop_result (SetMaxSeg c n)
  | mMaxBurst => drop_result (MaxBurst c)
  | mSetMaxBurst n => drop_result (SetMaxBurst c n)
  | mGetFragmentInterleave => drop_result (GetFragmentInterleave c)
  | mSetFragmentInterleave level => drop_result (SetFragmentInterleave c level)
  | mPartialDeliveryPoint => drop_result (PartialDeliveryPoint c)
  | mSetPartialDeliveryPoint n => drop_result (SetPartialDeliveryPoint c n)
  | mDefaultContext => drop_result (DefaultContext c)
  | mSetDefaultContext v => drop_result (SetDefaultContext c v)
  | mPRSupported => drop_result (PRSupported c)
  | mReconfigSupported => drop_result (ReconfigSupported c)
  | mASCONFSupported => drop_result (ASCONFSupported c)
  | mAuthSupported => drop_result (AuthSupported c)
  | mInterleavingSupported => drop_result (InterleavingSupported c)
  | mECNSupported => drop_result (ECNSupported c)
  | mSetAuthKey key secret => drop_result (SetAuthKey c key secret)
  | mActiveAuthKey => drop_result (ActiveAuthKey c)
  | mSetActiveAuthKey key => drop_result (SetActiveAuthKey c key)
  | mDeactivateAuthKey key => drop_result (DeactivateAuthKey c key)
  | mDeleteAuthKey key => drop_result (DeleteAuthKey c key)
  | mHMACIdentifiers => drop_result (HMACIdentifiers c)
  | mLocalAuthChunks => drop_result (LocalAuthChunks c)
  | mPeerAuthChunks => drop_result (PeerAuthChunks c)
  | mGetStreamResetMask => drop_result (GetStreamResetMask c)
  | mSetStreamResetMask mask => drop_result (SetStreamResetMask c mask)
  | mResetStreams dir streams => drop_result (ResetStreams c dir streams)
  | mResetAssoc => drop_result (ResetAssoc c)
  | mAddStreams ins outs => drop_result (AddStreams c ins outs)
  | mStreamScheduler => drop_result (StreamScheduler c)
  | mSetStreamScheduler s => drop_result (SetStreamScheduler c s)
  | mStreamSchedulerValue stream => drop_result (StreamSchedulerValue c stream)
  | mSetStreamSchedulerValue stream value => drop_result (SetStreamSchedulerValue c stream value)
  | mPRStreamStatus stream policy => drop_result (PRStreamStatus c stream policy)
  | mPRAssocStatus policy => drop_result (PRAssocStatus c policy)
  | mDefaultSndInfo => drop_result (DefaultSndInfo c)
  | mSetDefaultSndInfo info => drop_result (SetDefaultSndInfo c info)
  | mDefaultPrInfo => drop_result (DefaultPrInfo c)
  | mSetDefaultPrInfo pr => drop_result (SetDefaultPrInfo c pr)
  end.

(** The arguments have their Go types. *)
Definition m_wf (m : method) : Prop :=
  match m with
  | mSetPrimaryAddr path => addr_wf path
  | mRequestPeerPrimary local => addr_wf local
  | mGetPathInfo path => addr_wf path
  | mGetPathParams path => addr_wf path
  | mSetPathParams path p => addr_wf path /\ match p with Some p => pp_wf p | None => True end
  | mRequestHeartbeat path => addr_wf path
  | mGetPathThresholds path => addr_wf path
  | mSetPathThresholds path _ => addr_wf path
  | mRemoteUDPEncapsPort path => addr_wf path
  | mSetRemoteUDPEncapsPort path _ => addr_wf path
  | mPLPMTUDProbeInterval path => addr_wf path
  | mSetPLPMTUDProbeInterval path _ => addr_wf path
  | _ => True
  end.
(** ** What a method may do *)
Definition call_of (d : done) : syscall := let '(Did q _ _) := d in q.

Definition ours (c : Conn) (sh : shape) (level opt : Z) (b : bytes) : Prop :=
  level = sh_level sh /\ opt ∈ sh_opts sh /\
  match sh_id sh opt with
  | Some (off, named) => uint_of NativeEndian (sub b off 4) = if named then u32 (assoc c) else 0
  | None => True
  end /\
  len b ∈ sh_size sh opt.

(** A call of the method: of its own option, a set only by a setter, a get
    only by a getter or by a setter that keeps part of what it finds; or,
    on a 32-bit build, the question which layout the kernel has. *)
Definition own (c : Conn) (sh : shape) (q : syscall) : Prop :=
  match q with
  | Setsockopt level opt b => sh_set sh = true /\ ours c sh level opt b
  | Getsockopt level opt b =>
      ((sh_set sh = false \/ sh_reads sh = true) /\ ours c sh level opt b) \/
      (wordSize = 4 /\ level = ipprotoSCTP /\ opt = optPathThresholdsProbe /\ b = zeros sizePathThresholdsProbe)
  end.

Definition is_set (q : syscall) : bool := match q with Setsockopt _ _ _ => true | _ => false end.

(** The last call succeeded, and is the set of a setter. *)
Definition ends_ok (sh : shape) (l : calls) : Prop :=
  exists l' q reply, l = l' ++ [Did q 0 reply] /\ (sh_set sh = true -> is_set q = true).

(** An error: wrapped once; and, when nothing was asked of the kernel, a
    refused argument or a closed connection. *)
Definition good_error (c : Conn) (sh : shape) (st : bool) (l : calls) (e : error) : Prop :=
  exists cause, e = OpErr (verb sh) (network c) None (c_local (base c)) cause /\
  (st = false -> l = [] -> refused cause \/ cause = Plain NetErrClosed).

(** [st] says that the method's getsockopt has been answered. *)
Definition good (c : Conn) (sh : shape) (st : bool) {X} (l : calls) (r : out error X) : Prop :=
  Forall (fun d => own c sh (call_of d)) l /\
  match r with
  | Ret _ => (st = true /\ l = []) \/ ends_ok sh l
  | Err e => good_error c sh st l e
  | Panic => False
  end.

(** A part of a method before its last call, or after it. *)
Definition going (c : Conn) (sh : shape) (st : bool) {X} (P : X -> Prop) (l : calls) (r : out error X) : Prop :=
  Forall (fun d => own c sh (call_of d)) l /\ (st = true -> l = []) /\
  match r with Ret x => P x | Err e => good_error c sh st l e | Panic => False end.

Lemma good_bind {X Y} c sh st (P : X -> Prop) (m : sys X) (k : X -> sys Y) :
  emits m (going c sh st P) -> (forall x, P x -> emits (k x) (good c sh st)) -> emits (m ≫= k) (good c sh st).
Proof.
  intros Hm Hk. apply emits_bind. eapply emits_mono; [exact Hm |].
  intros l [x | e |] (Hl & Hst & Hr); simpl; [| by split | done].
  eapply emits_mono; [by apply Hk |]. intros l2 r2 [Hl2 Hr2]. split; [by apply Forall_app |].
  destruct r2 as [y | e |]; [| | done].
  - destruct Hr2 as [[-> ->] | (l' & q & rep & -> & Hq)]; [left; by rewrite Hst |].
    right. exists (l ++ l'), q, rep. by rewrite <- app_assoc.
  - destruct Hr2 as (cause & -> & Hc). exists cause. split; [done |]. intros Hs Hn. apply Hc; [done |]. by destruct l.
Qed.

(** Binds associate. *)
Lemma emits_assoc {X Y W} (m : sys X) (f : X -> sys Y) (g : Y -> sys W) Q :
  emits (m ≫= fun x => f x ≫= g) Q -> emits ((m ≫= f) ≫= g) Q.
Proof.
  intros H s. specialize (H s). revert H. unfold mbind, sys_bind. destruct (m s) as [[s1 l1] [x | e |]]; [| done..].
  destruct (f x s1) as [[s2 l2] [y | e |]]; [| done..]. destruct (g y s2) as [[s3 l3] r]. by rewrite app_assoc.
Qed.

Lemma emits_ret_bind {X Y} (x : X) (k : X -> sys Y) Q : emits (k x) Q -> emits (mret x ≫= k) Q.
Proof. intros H s. specialize (H s). revert H. run_sys. by destruct (k x s) as [[? ?] ?]. Qed.

(** *** Errors *)
Lemma opError_wraps op nw src adr e :
  (forall a b x y z, e <> OpErr a b x y z) -> e <> Plain EOF ->
  opError op nw src adr (Some e) = Some (OpErr op nw src adr (if closed_cause e then Plain NetErrClosed else e)).
Proof. intros H1 H2. destruct e as [[[] |] | | | | | | |]; try done. by edestruct H1. Qed.

Lemma refused_wraps op nw src adr e :
  refused e -> exists cause, opError op nw src adr (Some e) = Some (OpErr op nw src adr cause) /\
  (refused cause \/ cause = Plain NetErrClosed).
Proof.
  intros H. eexists. split.
  - apply opError_wraps; destruct H as [[m ->] | [m ->]]; done.
  - destruct (closed_cause e); auto.
Qed.

Lemma optError_wraps op call nw src adr e :
  exists cause, optError op call nw src adr (Some e) = Some (OpErr op nw src adr cause) /\
  (e = Plain NetErrClosed -> cause = Plain NetErrClosed).
Proof. eexists. split; [by apply opError_wraps |]. intros ->. done. Qed.

Lemma verb_call sh : bool_decide (verb sh = "set") = sh_set sh.
Proof. unfold verb. by destruct (sh_set sh). Qed.

(** *** The parts of a method *)
Lemma going_checked {X} c sh st (P : X -> Prop) r : fine P r -> emits (checked c (verb sh) r) (going c sh st P).
Proof.
  intros H. unfold checked. apply emits_wrapped, emits_pure. destruct r as [x | e |]; simpl in H; [| | done].
  - by split.
  - unfold argError. destruct (refused_wraps (verb sh) (network c) None (c_local (base c)) e H) as (cause & -> & Hc).
    split; [done |]. split; [done |]. exists cause. auto.
Qed.

(** The reply of a list option may be malformed. *)
Lemma good_list {X} c sh (r : out error X) :
  match r with Ret _ => True | Err e => (exists m, e = Opaque m) \/ refused e | Panic => False end ->
  emits (checked c (verb sh) r) (good c sh true).
Proof.
  intros H. unfold checked. apply emits_wrapped, emits_pure. destruct r as [x | e |]; [| | done].
  - split; [done |]. by left.
  - unfold argError. rewrite opError_wraps.
    + split; [done |]. eexists. split; [done |]. done.
    + by destruct H as [[m ->] | [[m ->] | [m ->]]].
    + by destruct H as [[m ->] | [[m ->] | [m ->]]].
Qed.

Lemma going_pure {X} c sh st (P : X -> Prop) r : (exists x, r = Ret x /\ P x) -> emits (pure r : sys X) (going c sh st P).
Proof. intros (x & -> & HP). apply emits_pure. by split. Qed.

Lemma good_pure {X} c sh (r : out error X) : sure r -> emits (pure r : sys X) (good c sh true).
Proof. intros [x ->]. apply emits_pure. split; [done |]. by left. Qed.

Lemma good_ret {X} c sh (x : X) : emits (mret x : sys X) (good c sh true).
Proof. apply emits_ret. split; [done |]. by left. Qed.

Lemma good_closed {X} c sh st l : Forall (fun d => own c sh (call_of d)) l ->
  match optionError c (verb sh) (Plain NetErrClosed) with
  | Some e => good (X := X) c sh st l (Err e) | None => False end.
Proof.
  intros Hl. unfold optionError. destruct (optError_wraps (verb sh) (if bool_decide (verb sh = "set") then "setsockopt" else "getsockopt")
    (network c) None (c_local (base c)) (Plain NetErrClosed)) as (cause & -> & Hc).
  split; [done |]. exists cause. rewrite Hc by done. auto.
Qed.

Lemma good_if_open {X} c sh st (m : sys X) :
  (c_opened c = true -> emits m (good c sh st)) -> emits (if_open c (verb sh) m) (good c sh st).
Proof.
  intros Hm. unfold if_open. destruct (c_opened c) eqn:Ho; [by apply Hm |]. cbn [negb].
  pose proof (good_closed (X := X) c sh st [] (List.Forall_nil _)) as H.
  destruct (optionError c (verb sh) (Plain NetErrClosed)) as [e |]; [| done]. by apply emits_fails.
Qed.

Lemma good_drop {X} c sh st (m : sys X) : emits m (good c sh st) -> emits (drop_result m) (good c sh st).
Proof.
  intros H. apply emits_bind. eapply emits_mono; [exact H |]. intros l [x | e |] [Hl Hr]; simpl; [| by split | done].
  apply emits_ret. rewrite app_nil_r. by split.
Qed.

Lemma own_one c sh q errno reply : own c sh q -> Forall (fun d => own c sh (call_of d)) [Did q errno reply].
Proof. intros H. by constructor. Qed.

(** A call, wrapped. *)
Lemma good_called {X} c sh st (q : syscall) errno reply e :
  own c sh q -> errno <> 0 -> optionError c (verb sh) (errno_error errno) = Some e ->
  good (X := X) c sh st [Did q errno reply] (Err e).
Proof.
  intros Hq Hn He. split; [by apply own_one |]. unfold optionError in He.
  destruct (optError_wraps (verb sh) (if bool_decide (verb sh = "set") then "setsockopt" else "getsockopt")
    (network c) None (c_local (base c)) (errno_error errno)) as (cause & Hc & _).
  rewrite He in Hc. injection Hc as ->. exists cause. by split.
Qed.

Lemma optionError_some c op e : exists e', optionError c op e = Some e'.
Proof. unfold optionError. edestruct optError_wraps as (cause & -> & _). eauto. Qed.

Lemma good_setsockopt c sh st level opt b :
  own c sh (Setsockopt level opt b) -> len b <> 0 ->
  emits (wrapped (optionError c (verb sh)) (setsockoptAt level opt b)) (good c sh st).
Proof.
  intros Hq Hb. apply emits_wrapped, emits_control.
  - apply emits_set; [done |]. intros errno. unfold set_outcome. destruct (Z.eqb_spec errno 0) as [-> | Hn].
    + split; [by apply own_one |]. right. exists [], (Setsockopt level opt b), []. done.
    + destruct (optionError_some c (verb sh) (errno_error errno)) as [e He]. rewrite He. by apply good_called.
  - pose proof (good_closed (X := unit) c sh st [] (List.Forall_nil _)) as H.
    destruct (optionError c (verb sh) (Plain NetErrClosed)); done.
Qed.

Lemma good_getsockopt {X} c sh st level opt b (k : bytes * Z -> sys X) :
  own c sh (Getsockopt level opt b) -> len b <> 0 -> sh_set sh = false ->
  (forall b' n, len b' = len b -> emits (k (b', n)) (good c sh true)) ->
  emits (wrapped (optionError c (verb sh)) (getsockoptAt level opt b) ≫= k) (good c sh st).
Proof.
  intros Hq Hb Hsh Hk. apply emits_bind, emits_wrapped, emits_control.
  - apply emits_get; [done |]. intros errno b' n Hl. destruct (Z.eqb_spec errno 0) as [-> | Hn]; cbn [then_ app].
    + eapply emits_mono; [by apply Hk |]. intros l2 r2 [Hl2 Hr2]. split; [by constructor |].
      destruct r2 as [y | e |]; [right | | done].
      * destruct Hr2 as [[_ ->] | (l' & q & rep & -> & Hx)].
        -- exists [], (Getsockopt level opt b), b'. split; [done |]. rewrite Hsh. done.
        -- exists (Did (Getsockopt level opt b) 0 b' :: l'), q, rep. done.
      * destruct Hr2 as (cause & -> & _). exists cause. done.
    + destruct (optionError_some c (verb sh) (errno_error errno)) as [e He]. rewrite He. cbn [then_].
      by apply (good_called (X := X)).
  - pose proof (good_closed (X := X) c sh st [] (List.Forall_nil _)) as H.
    destruct (optionError c (verb sh) (Plain NetErrClosed)); done.
Qed.

(** *** Requests are the method's own *)
Lemma ours_req c sh level opt b n :
  level = sh_level sh -> opt ∈ sh_opts sh -> sh_id sh opt = Some (0, true) -> req (assoc c) n b -> n ∈ sh_size sh opt ->
  ours c sh level opt b.
Proof. intros Hl Ho Hi [Hn Ha] Hs. split_and!; [done | done | by rewrite Hi | by rewrite Hn]. Qed.

Lemma ours_plain c sh level opt b n :
  level = sh_level sh -> opt ∈ sh_opts sh -> sh_id sh opt = None -> len b = n -> n ∈ sh_size sh opt ->
  ours c sh level opt b.
Proof. intros Hl Ho Hf Hn Hs. split_and!; [done | done | by rewrite Hf | by rewrite Hn]. Qed.

Lemma good_get {X} c sh st opt b (k : bytes * Z -> sys X) :
  sh_set sh = false -> ours c sh ipprotoSCTP opt b -> len b <> 0 ->
  (forall b' n, len b' = len b -> emits (k (b', n)) (good c sh true)) ->
  emits (getOpt c opt b ≫= k) (good c sh st).
Proof.
  intros Hs Ho Hb Hk. assert (Hv : verb sh = "get") by (unfold verb; by rewrite Hs). unfold getOpt, if_open.
  destruct (c_opened c); cbn [negb].
  - rewrite <- Hv. apply good_getsockopt; auto. left. auto.
  - rewrite <- Hv. pose proof (good_closed (X := X) c sh st [] (List.Forall_nil _)) as H.
    destruct (optionError c (verb sh) (Plain NetErrClosed)) as [e |]; [| done]. by apply emits_bind, emits_fails.
Qed.

Lemma good_set c sh st opt b :
  sh_set sh = true -> ours c sh ipprotoSCTP opt b -> len b <> 0 -> emits (setOpt c opt b) (good c sh st).
Proof.
  intros Hs Ho Hb. assert (Hv : verb sh = "set") by (unfold verb; by rewrite Hs). unfold setOpt. rewrite <- Hv.
  apply good_if_open. intros _. apply good_setsockopt; [by split | done].
Qed.

Lemma good_int {X} c sh st level opt (k : Z -> sys X) :
  sh_set sh = false -> sh_id sh opt = None -> sizeInt ∈ sh_size sh opt -> level = sh_level sh -> opt ∈ sh_opts sh ->
  (forall v, emits (k v) (good c sh true)) -> emits (intOption c level opt ≫= k) (good c sh st).
Proof.
  intros Hs Hf Hn Hl Ho Hk. assert (Hv : verb sh = "get") by (unfold verb; by rewrite Hs). unfold intOption, if_open.
  assert (Hz : len (zeros sizeInt) = sizeInt) by (by apply len_zeros).
  destruct (c_opened c); cbn [negb]; rewrite <- Hv.
  - apply emits_assoc, good_getsockopt; [left; split; [by left |]; by eapply ours_plain | rewrite Hz; done | done |].
    intros b' n Hb'. apply emits_assoc, emits_pure_bind. rewrite get4_ok by (rewrite ?Hb', ?Hz; abi; lia).
    apply emits_ret_bind, Hk.
  - pose proof (good_closed (X := X) c sh st [] (List.Forall_nil _)) as H.
    destruct (optionError c (verb sh) (Plain NetErrClosed)) as [e |]; [| done]. by apply emits_bind, emits_fails.
Qed.

Lemma good_setInt c sh st level opt v :
  sh_set sh = true -> sh_id sh opt = None -> sizeInt ∈ sh_size sh opt -> level = sh_level sh -> opt ∈ sh_opts sh ->
  emits (setIntOption c level opt v) (good c sh st).
Proof.
  intros Hs Hf Hn Hl Ho. assert (Hv : verb sh = "set") by (unfold verb; by rewrite Hs). unfold setIntOption. rewrite <- Hv.
  apply good_if_open. intros _. apply emits_pure_bind. change sizeInt with 4.
  rewrite put_head by (cbn; lia). change (zeros (4 - Z.of_nat 4)) with (@nil byte). rewrite app_nil_r.
  apply good_setsockopt; [| by rewrite len_bytes_of]. split; [done |].
  eapply ours_plain; try done. by rewrite len_bytes_of.
Qed.

Lemma req_assoc_value c : fine (req (assoc c) sizeAssocValue) (put_at NativeEndian 4 (zeros sizeAssocValue) assocValueAssocIDOff (u32 (assoc c))).
Proof. apply fine_put_assoc; [done | by apply len_zeros | abi; lia]. Qed.

(** A request laid out without a check never fails. *)
Lemma going_laid c sh st (P : bytes -> Prop) r :
  fine P r -> (forall e, r <> Err e) -> emits (pure r : sys bytes) (going c sh st P).
Proof.
  intros Hf Hn. apply going_pure. destruct r as [b | e |]; [by exists b | by destruct (Hn e) | done].
Qed.

Lemma put_at_no_err o n b off v e : put_at (E:=error) o n b off v <> Err e.
Proof. unfold put_at. by destruct (_ && _). Qed.

Lemma no_err_bind {X Y} (r : out error X) (k : X -> out error Y) :
  (forall e, r <> Err e) -> (forall x e, k x <> Err e) -> forall e, (r ≫= k) <> Err e.
Proof. intros H1 H2 e. destruct r; simpl; [apply H2 | intros E; injection E as ->; by eapply H1 | done]. Qed.

Lemma slice_no_err (b : bytes) lo hi e : slice (E:=error) b lo hi <> Err e.
Proof. unfold slice. by destruct (_ && _). Qed.
Lemma copy_at_no_err b off v e : copy_at (E:=error) b off v <> Err e.
Proof. unfold copy_at. by destruct (_ && _). Qed.
Lemma clear_at_no_err b lo hi e : clear_at (E:=error) b lo hi <> Err e.
Proof. unfold clear_at. by destruct (_ && _). Qed.

Ltac no_err := repeat (first [ apply put_at_no_err | apply slice_no_err | apply copy_at_no_err | apply clear_at_no_err
  | apply no_err_bind; [| intros ?] ]; intros).

Lemma no_err_thresholds l buf a addr v e : pathThresholds l buf a addr v <> Err e.
Proof. revert e. unfold pathThresholds, storageHeader, copy_field. no_err. Qed.
Lemma no_err_udpEncaps l buf a addr v e : udpEncaps l buf a addr v <> Err e.
Proof. revert e. unfold udpEncaps, storageHeader, copy_field. no_err. Qed.
Lemma no_err_probeInterval l buf a addr v e : probeInterval l buf a addr v <> Err e.
Proof. revert e. unfold probeInterval, storageHeader, copy_field. no_err. Qed.
Lemma no_err_stats l buf a e : assocStatsRequest l buf a <> Err e.
Proof. revert e. unfold assocStatsRequest, storageHeader, copy_field. no_err. Qed.
Lemma no_err_heartbeat b a addr e : heartbeatDemand b a addr <> Err e.
Proof. revert e. unfold heartbeatDemand, copy_field. no_err. Qed.
Lemma no_err_prStatus b a x y e : prStatusRequest b a x y <> Err e.
Proof. revert e. unfold prStatusRequest. no_err. Qed.
Lemma no_err_authKeyID c key e : authKeyID c key <> Err e.
Proof. revert e. unfold authKeyID. no_err. Qed.
Lemma no_err_streamValue c x y e : streamValue c x y <> Err e.
Proof. revert e. unfold streamValue, assoc_request. no_err. Qed.

Lemma req_pos a n b : req a n b -> 0 < n -> len b <> 0.
Proof. intros [-> _]. lia. Qed.

Lemma good_assocValue {X} c sh st opt (k : Z -> sys X) :
  sh_set sh = false -> sh_id sh opt = Some (0, true) -> sizeAssocValue ∈ sh_size sh opt -> ipprotoSCTP = sh_level sh -> opt ∈ sh_opts sh ->
  (forall v, emits (k v) (good c sh true)) -> emits (assocValueOption c opt ≫= k) (good c sh st).
Proof.
  intros Hs Hi Hn Hl Ho Hk. unfold assocValueOption. apply emits_assoc. eapply good_bind.
  - apply going_laid; [apply req_assoc_value | apply put_at_no_err].
  - intros b Hb. apply emits_assoc, good_get; [done | by eapply ours_req; eauto | by eapply req_pos |].
    intros b' n Hb'. destruct Hb as [Hb _]. apply emits_pure_bind. rewrite get4_ok by (rewrite ?Hb', ?Hb; abi; lia). apply Hk.
Qed.

Lemma good_setAssocValue c sh st opt v :
  sh_set sh = true -> sh_id sh opt = Some (0, true) -> sizeAssocValue ∈ sh_size sh opt -> ipprotoSCTP = sh_level sh -> opt ∈ sh_opts sh ->
  emits (setAssocValueOption c opt v) (good c sh st).
Proof.
  intros Hs Hi Hn Hl Ho. unfold setAssocValueOption. eapply good_bind.
  - apply going_laid; [apply req_assoc_value | apply put_at_no_err].
  - intros b Hb. eapply good_bind.
    + apply going_laid; [| apply put_at_no_err]. eapply fine_put; [exact Hb | abi; lia | abi; lia].
    + intros b' Hb'. apply good_set; [done | by eapply ours_req; eauto | by eapply req_pos].
Qed.

(** The layout, asked for once on a 32-bit build. *)
Lemma callError_some c op call e :
  exists cause, callError c op call e = Some (OpErr op (network c) None (c_local (base c)) cause) /\
  (e = Plain NetErrClosed -> cause = Plain NetErrClosed).
Proof. unfold callError. apply optError_wraps. Qed.

Lemma emits_layout :
  emits storageLayout (fun l r =>
    Forall (fun d => wordSize = 4 /\ call_of d = Getsockopt ipprotoSCTP optPathThresholdsProbe (zeros sizePathThresholdsProbe)) l /\
    match r with Ret y => is_layout y | Err e => l = [] /\ e = Plain NetErrClosed \/ l <> [] | Panic => False end).
Proof.
  unfold storageLayout. destruct (Z.eqb_spec wordSize 8) as [H8 | H8]; [apply emits_ret; split; [done | by left] |].
  assert (H4 : wordSize = 4) by (destruct (@wordSize_cases A AK); lia).
  intros s. unfold mbind, sys_bind. cbn -[mbind sys_bind selectStorageLayout err_of probeKernelWordSize zeros].
  destruct (storageLayoutCache s); cbn -[err_of probeKernelWordSize zeros].
  - assert (Hp : emits (err_of probeKernelWordSize) (fun l r =>
      Forall (fun d => wordSize = 4 /\ call_of d = Getsockopt ipprotoSCTP optPathThresholdsProbe (zeros sizePathThresholdsProbe)) l /\
      match r with Ret (Some e) => l = [] /\ e = Plain NetErrClosed \/ l <> [] | Ret None => True | _ => False end)).
    { unfold err_of, probeKernelWordSize. apply emits_bind, emits_caught, emits_bind, emits_control.
      - apply emits_get; [rewrite len_zeros by (arch_cases A; done); arch_cases A; done |].
        intros errno b' n Hb'. destruct (errno =? 0); cbn [then_].
        + apply emits_ret. cbn [then_]. apply emits_ret. split; [by repeat constructor | done].
        + cbn [then_]. apply emits_ret. split; [by repeat constructor | by right].
      - cbn [then_]. apply emits_ret. split; [done | by left]. }
    specialize (Hp s). destruct (err_of probeKernelWordSize s) as [[s1 l1] [p | e |]]; cbn in Hp; [| tauto | tauto].
    destruct Hp as [Hl Hp]. destruct p as [e |]; cbn.
    + destruct (errors_Is e (Errno EINVAL)); cbn; rewrite app_nil_r; (split; [done |]); [by right | done].
    + rewrite app_nil_r. split; [done | by left].
  - split; [done | by left].
  - split; [done | by right].
Qed.

Lemma going_layout c sh :
  emits (wrapped (callError c (verb sh) "getsockopt") storageLayout) (going c sh false is_layout).
Proof.
  apply emits_wrapped. eapply emits_mono; [apply emits_layout |]. intros l r [Hl Hr].
  assert (Ho : Forall (fun d => own c sh (call_of d)) l).
  { eapply Forall_impl; [exact Hl |]. intros d [H4 Hd]. rewrite Hd. by right. }
  destruct r as [y | e |]; [by split | | done].
  destruct (callError_some c (verb sh) "getsockopt" e) as (cause & -> & Hc). split; [done |]. split; [done |].
  exists cause. split; [done |]. intros _ Hn. destruct Hr as [[_ ->] | Hr]; [right; by apply Hc | done].
Qed.

Lemma elem_of_layouts f y : is_layout y -> f y ∈ in_layouts f.
Proof. intros [-> | ->]; [by left | by right; left]. Qed.

(** A query that a later step builds on, or that is the method's own. *)
Definition read_done (c : Conn) (sh : shape) {X} (l : calls) (r : out error X) : Prop :=
  Forall (fun d => own c sh (call_of d)) l /\
  match r with
  | Ret _ => exists l' q reply, l = l' ++ [Did q 0 reply]
  | Err e => good_error c sh false l e
  | Panic => False
  end.

Lemma read_going {X} c sh (m : sys X) : emits m (read_done c sh) -> emits m (going c sh false (fun _ => True)).
Proof. intros H. eapply emits_mono; [exact H |]. intros l [x | e |] [Hl Hr]; by split. Qed.

Lemma read_good {X Y} c sh (m : sys X) (k : X -> sys Y) :
  sh_set sh = false -> emits m (read_done c sh) -> (forall x, emits (k x) (good c sh true)) -> emits (m ≫= k) (good c sh false).
Proof.
  intros Hs Hm Hk. apply emits_bind. eapply emits_mono; [exact Hm |]. intros l [x | e |] [Hl Hr]; cbn [then_]; [| by split | done].
  destruct Hr as (l' & q & rep & ->). eapply emits_mono; [apply Hk |]. intros l2 r2 [Hl2 Hr2].
  split; [by apply Forall_app |]. destruct r2 as [y | e |]; [| | done].
  - right. destruct Hr2 as [[_ ->] | (l2' & q2 & rep2 & -> & Hq)].
    + exists l', q, rep. rewrite app_nil_r. split; [done |]. by rewrite Hs.
    + exists ((l' ++ [Did q 0 rep]) ++ l2'), q2, rep2. rewrite !app_assoc. done.
  - destruct Hr2 as (cause & -> & _). exists cause. split; [done |]. intros _ Hn. by destruct l'.
Qed.

Lemma read_thresholds c sh addr :
  sh_id sh optPathThresholds = Some (0, true) -> sh_size sh optPathThresholds = in_layouts l_sizePathThresholds ->
  ipprotoSCTP = sh_level sh -> sh_opts sh = [optPathThresholds] -> sh_reads sh = true \/ sh_set sh = false ->
  emits (wrapped (callError c (verb sh) "getsockopt") (readThresholds c addr)) (read_done c sh).
Proof.
  intros Hi Hs Hl Ho Hr. apply emits_wrapped. unfold readThresholds. apply emits_bind.
  eapply emits_mono; [apply emits_layout |]. intros l r [Hp Hy].
  assert (Hown : Forall (fun d => own c sh (call_of d)) l).
  { eapply Forall_impl; [exact Hp |]. intros d [H4 Hd]. rewrite Hd. by right. }
  assert (Hfail : forall l' e, Forall (fun d => own c sh (call_of d)) l' -> (l' = [] -> e = Plain NetErrClosed) ->
    match callError c (verb sh) "getsockopt" e with
    | Some e => read_done (X := thresholdValues) c sh l' (Err e)
    | None => read_done (X := thresholdValues) c sh l' Panic end).
  { intros l' e Ho' He. destruct (callError_some c (verb sh) "getsockopt" e) as (cause & -> & Hc).
    split; [done |]. exists cause. split; [done |]. intros _ Hn. right. auto. }
  destruct r as [y | e |]; cbn [then_]; [| | done].
  - apply emits_pure_bind. pose proof (fine_pathThresholds y (assoc c) addr {| tv_maxRetrans := 0; tv_pf := 0; tv_switchover := 0 |} Hy) as Hf.
    destruct (pathThresholds y _ _ _ _) as [b | e |] eqn:Eb; cbn in Hf; [| | done].
    + assert (Hpos : 0 < l_sizePathThresholds y).
      { destruct (layout_of y Hy) as (H4 & _ & _ & (Hu & Hu' & Hu'' & Hu3) & _). assert (0 <= sizeSockaddrStorage) by done. lia. }
      assert (Hq : own c sh (Getsockopt ipprotoSCTP optPathThresholds b)).
      { left. split; [tauto |]. eapply ours_req; [done | rewrite Ho; constructor | done | exact Hf |]. rewrite Hs. by apply elem_of_layouts. }
      apply emits_bind, emits_control.
      * apply emits_get; [by eapply req_pos |]. intros errno b' n Hb'.
        assert (Hall : forall rep, Forall (fun d => own c sh (call_of d)) (l ++ [Did (Getsockopt ipprotoSCTP optPathThresholds b) errno rep])).
        { intros rep. apply Forall_app. split; [done | by apply own_one]. }
        destruct (Z.eqb_spec errno 0) as [-> | _]; cbn [then_].
        -- destruct (sure_thresholds y b' Hy) as [v Hv]; [destruct Hf; congruence |]. rewrite Hv. apply emits_pure.
           rewrite app_nil_r. split; [apply Hall |]. eauto.
        -- apply Hfail; [apply Hall | by destruct l].
      * cbn [then_]. rewrite app_nil_r. apply Hfail; [done |]. done.
    + exfalso. revert Eb. apply (no_err_thresholds y).
  - apply Hfail; [done |]. intros ->. by destruct Hy as [[_ ->] | Hy].
Qed.

Lemma emits_bind_ret {X} (m : sys X) Q : emits (m ≫= mret) Q -> emits m Q.
Proof.
  intros H s. specialize (H s). revert H. unfold mbind, sys_bind, mret, sys_ret.
  destruct (m s) as [[s1 l] [x | |]]; [by rewrite app_nil_r | done..].
Qed.

(** The list decoders, on the buffers the methods use. *)
Lemma get_at_no_err o n b off e : get_at (E:=error) o n b off <> Err e.
Proof. unfold get_at, slice_from, get. revert e. apply no_err_bind; [apply slice_no_err | intros x e; by destruct (_ <=? _)]. Qed.

Lemma get_list_no_err o n b k : forall off e, get_list (E:=error) o n b off k <> Err e.
Proof.
  induction k as [| k IH]; intros off e; simpl; [done |]. revert e. apply no_err_bind; [apply get_at_no_err | intros v].
  apply no_err_bind; [apply IH | done].
Qed.

Definition list_reply {X} (r : out error X) : Prop :=
  match r with Ret _ => True | Err e => (exists m, e = Opaque m) \/ refused e | Panic => False end.

Lemma list_reply_of {X} (r : out error X) : r <> Panic -> (forall e, r = Err e -> exists m, e = Opaque m) -> list_reply r.
Proof. intros H1 H2. destruct r; [done | left; by apply H2 | done]. Qed.

Lemma hmac_reply b n : len b < 2 ^ 32 -> list_reply (decodeHMACIdents b n).
Proof.
  intros Hb. apply list_reply_of.
  - destruct (auth_lists_total b n Hb) as [H _]. intros E. by rewrite E in H.
  - intros e. unfold decodeHMACIdents. destruct (_ || _); [intros [= <-]; eauto |]. destruct (negb _); [intros [= <-]; eauto |].
    pose proof (get_at_no_err NativeEndian 4 b hmacAlgoNumIdentsOff) as Hg. destruct (get_at _ _ _ _) as [v | e' |]; [| by destruct (Hg e') | done].
    simpl. destruct (negb _); [intros [= <-]; eauto |]. intros H. by apply get_list_no_err in H.
Qed.

Lemma chunks_reply b n : len b < 2 ^ 32 -> list_reply (decodeAuthChunks b n).
Proof.
  intros Hb. apply list_reply_of.
  - destruct (auth_lists_total b n Hb) as (_ & H & _). intros E. by rewrite E in H.
  - intros e. unfold decodeAuthChunks. destruct (_ || _); [intros [= <-]; eauto |].
    pose proof (get_at_no_err NativeEndian 4 b authChunksNumChunksOff) as Hg. destruct (get_at _ _ _ _) as [v | e' |]; [| by destruct (Hg e') | done].
    simpl. destruct (negb _); [intros [= <-]; eauto |]. intros H. by apply slice_no_err in H.
Qed.

Lemma layout_pos l :
  is_layout l -> 0 < l_sizeUDPEncaps l /\ 0 < l_sizeProbeInterval l /\ 0 < l_sizePathThresholds l /\ 0 < l_sizeAssocStats l.
Proof. intros [-> | ->]; arch_cases A; vm_compute; done. Qed.

Lemma good_pure_bind {X Y} c sh (r : out error X) (k : X -> sys Y) :
  sure r -> (forall x, r = Ret x -> emits (k x) (good c sh true)) -> emits (pure r ≫= k) (good c sh true).
Proof. intros [x ->] Hk. by apply emits_pure_bind, Hk. Qed.

(** A wrapped sequence of calls of the method. *)
Lemma good_wrapped {X Y} c sh (m : sys X) (k : X -> sys Y) :
  emits m (fun l r => Forall (fun d => own c sh (call_of d)) l /\
    match r with Ret _ => ends_ok sh l | Err e => l <> [] | Panic => False end) ->
  (forall x, emits (k x) (good c sh true)) ->
  emits (wrapped (optionError c (verb sh)) (sock_control m) ≫= k) (good c sh false).
Proof.
  intros Hm Hk. apply emits_bind, emits_wrapped, emits_control.
  - eapply emits_mono; [exact Hm |]. intros l [x | e |] [Hl Hr]; [| | done].
    + cbn [then_]. eapply emits_mono; [apply Hk |]. intros l2 r2 [Hl2 Hr2]. split; [by apply Forall_app |].
      destruct Hr as (l' & q & rep & -> & Hq). destruct r2 as [y | e |]; [right | | done].
      * destruct Hr2 as [[_ ->] | (l2' & q2 & rep2 & -> & Hq2)]; [rewrite app_nil_r; by exists l', q, rep |].
        exists ((l' ++ [Did q 0 rep]) ++ l2'), q2, rep2. rewrite !app_assoc. done.
      * destruct Hr2 as (cause & -> & _). exists cause. split; [done |]. intros _ Hn. by destruct l'.
    + unfold optionError. edestruct optError_wraps as (cause & -> & _). cbn [then_]. split; [done |].
      exists cause. split; [done |]. intros _ Hn. by destruct Hr.
  - pose proof (good_closed (X := Y) c sh false [] (List.Forall_nil _)) as H.
    destruct (optionError c (verb sh) (Plain NetErrClosed)); done.
Qed.

Lemma made_own c sh qs l r :
  Forall (own c sh) qs -> qs <> [] -> Forall (fun q => is_set q = true) qs -> made qs l r ->
  Forall (fun d => own c sh (call_of d)) l /\
  match r with Ret _ => ends_ok sh l | Err e => l <> [] | Panic => False end.
Proof.
  intros Ho Hn Hs [[-> ->] | (b & q & a & n & -> & Hne & -> & ->)].
  - split; [by apply Forall_fmap |]. destruct (@exists_last _ qs Hn) as (l' & q & ->).
    exists (ok <$> l'), q, []. rewrite fmap_app. split; [done |]. intros _. by apply Forall_app in Hs as [_ Hs%Forall_inv].
  - apply Forall_app in Ho as [Ho1 Ho2]. inversion Ho2; subst. split; [| by destruct b].
    apply Forall_app. split; [by apply Forall_fmap | by apply own_one].
Qed.
End Methods.

(** ** All the methods *)

(** The arguments a method checks. *)
Lemma fine_bufferSize name n : fine (fun _ => True) (bufferSizeArg name n).
Proof. unfold bufferSizeArg. destruct (_ <=? _); [left; by eexists |]. destruct (_ <? _); [left; by eexists | done]. Qed.
Lemma fine_uint32 name n : fine (fun v => v = n /\ is_u32 n) (uint32Arg name n).
Proof.
  unfold uint32Arg. destruct (Z.ltb_spec n 0); [left; by eexists |]. destruct (Z.ltb_spec MaxUint32 n); [left; by eexists |].
  assert (is_u32 n) by (unfold is_u32, MaxUint32 in *; lia). split; [by apply u32_small | done].
Qed.
Lemma fine_interleave level : fine (fun _ => True) (interleave_level level).
Proof.
  unfold interleave_level. destruct (_ || _); [done |]. destruct (_ =? _); [right; by eexists | left; by eexists].
Qed.
Lemma fine_statusPolicy name p : fine (fun _ => True) (fail_on (validateStatusPolicy name p)).
Proof. unfold validateStatusPolicy. destruct (_ || _ || _ || _); [done | left; by eexists]. Qed.
Lemma fine_merge cur t field : fine (fun _ => True) (mergePathThresholds cur t field).
Proof.
  unfold mergePathThresholds. eapply fine_bind with (P := fun _ => True); [| done].
  destruct (pt_PathMaxRetrans t) as [v |]; [| done]. destruct (_ =? _); [left; by eexists | done].
Qed.
Lemma fine_retrans (o : option Z) msg :
  fine (fun _ => True) (match o with Some 0 => Err (invalidArg msg) | _ => Ret tt end).
Proof. destruct o as [[] |]; try done. left. by eexists. Qed.
Lemma fine_decodeAddr `{A : Arch} `{ZE : ZoneEnv} b : fine (fun _ => True) (decodeAddr b).
Proof.
  pose proof (decodeAddr_outcome b) as H. destruct (decodeAddr b); [done | | done].
  left. destruct H as [-> | ->]; by eexists.
Qed.
Lemma fine_snd field i : fine (fun _ => validateDefaultSndInfo field i = None) (fail_on (validateDefaultSndInfo field i)).
Proof. unfold validateDefaultSndInfo. destruct (negb _); [left; by eexists | done]. Qed.
Lemma fine_pr field p : fine (fun _ => validatePrInfo field p = None) (fail_on (validatePrInfo field p)).
Proof. unfold validatePrInfo. repeat case_match; done || (left; by eexists). Qed.

Ltac fine_arg :=
  lazymatch goal with
  | |- fine _ (refuse_if _ _) => apply fine_refuse
  | |- fine _ (not_nil _ _) => apply fine_not_nil
  | |- fine _ (valid_path _ _) => apply fine_valid
  | |- fine _ (durationToMillis _ _ _) => apply fine_millis
  | |- fine _ (encodeRTOInfo _ _ _ _) => apply fine_rto
  | |- fine _ (encodeDelayedSACK _ _ _ _) => apply fine_sack
  | |- fine _ (encodeAssocInfo _ _ _ _) => apply fine_assocInfo
  | |- fine _ (encodeAuthKey _ _ _ _) => apply fine_authKey
  | |- fine _ (encodeResetStreams _ _ _) => apply fine_resetStreams
  | |- fine _ (encodePathParams _ _ _ _ _) => apply fine_pathParams; simpl in *; by intuition (subst; eauto)
  | |- fine _ (path_bytes _ _ _) => apply fine_path_bytes; simpl in *; tauto
  | |- fine _ (bufferSizeArg _ _) => apply fine_bufferSize
  | |- fine _ (uint32Arg _ _) => apply fine_uint32
  | |- fine _ (interleave_level _) => apply fine_interleave
  | |- fine _ (fail_on (validateStatusPolicy _ _)) => apply fine_statusPolicy
  | |- fine _ (fail_on (validateDefaultSndInfo _ _)) => apply fine_snd
  | |- fine _ (fail_on (validatePrInfo _ _)) => apply fine_pr
  | |- fine _ (mergePathThresholds _ _ _) => apply fine_merge
  | |- fine _ (match pt_PathMaxRetrans _ with _ => _ end) => apply fine_retrans
  | |- fine _ (decodeAddr _) => apply fine_decodeAddr
  | |- fine _ (in_field (zeros ?n) _ _) =>
      apply (fine_in_field n); [abi; lia |]; intros ? ?;
      first [ eapply fine_mono; [apply fine_pathAddr; [simpl in *; tauto | abi; lia] | intros []; tauto]
            | eapply fine_mono; [apply fine_named, fine_encodeAddr; simpl in *; tauto | intros []; tauto] ]
  end.

(** The structs a method lays out. *)
Ltac laid_arg :=
  lazymatch goal with
  | |- fine _ (heartbeatDemand _ _ _) /\ _ => split; [apply fine_heartbeat | apply no_err_heartbeat]
  | |- fine _ (prStatusRequest _ _ _ _) /\ _ => split; [apply fine_prStatus | apply no_err_prStatus]
  | |- fine _ (authKeyID _ _) /\ _ => split; [apply fine_authKeyID | apply no_err_authKeyID]
  | |- fine _ (streamValue _ _ _) /\ _ => split; [apply fine_streamValue | apply no_err_streamValue]
  | |- fine _ (udpEncaps _ _ _ _ _) /\ _ => split; [by apply fine_udpEncaps | apply no_err_udpEncaps]
  | |- fine _ (probeInterval _ _ _ _ _) /\ _ => split; [by apply fine_probeInterval | apply no_err_probeInterval]
  | |- fine _ (pathThresholds _ _ _ _ _) /\ _ => split; [by apply fine_pathThresholds | apply no_err_thresholds]
  | |- fine _ (assocStatsRequest _ _ _) /\ _ => split; [by apply fine_stats | apply no_err_stats]
  | |- fine _ (put_at NativeEndian 4 (zeros _) _ (u32 (assoc _))) /\ _ =>
      split; [eapply fine_put_assoc; [reflexivity | by apply len_zeros | abi; lia] | apply put_at_no_err]
  | |- fine _ (put_at NativeEndian 4 (zeros _) 0 _) /\ _ =>
      split; [eapply fine_put_len; [by apply len_zeros | lia | abi; lia] | apply put_at_no_err]
  | |- fine _ (put_at NativeEndian 4 _ _ (u32 (assoc _))) /\ _ =>
      split; [eapply fine_put_assoc; [reflexivity | eassumption | abi; lia] | apply put_at_no_err]
  | |- fine _ (put_at _ _ _ _ _) /\ _ =>
      split; [eapply fine_put; [eassumption | abi; lia | abi; lia] | apply put_at_no_err]
  end.

Lemma going_laid2 `{A : Arch} `{K : Kernel} c sh st (P : bytes -> Prop) r :
  fine P r /\ (forall e, r <> Err e) -> emits (pure r : sys bytes) (going c sh st P).
Proof. intros [H1 H2]. by apply going_laid. Qed.

Ltac own_get := first
  [ eapply ours_req; [reflexivity | constructor | reflexivity | eassumption | first [by constructor | by apply elem_of_layouts]]
  | eapply ours_plain; [reflexivity | constructor | reflexivity | eassumption || (by apply len_zeros) | constructor] ].

(** A buffer of the struct's size is not empty. *)
Ltac nonempty :=
  lazymatch goal with
  | |- len (zeros _) <> 0 => by rewrite len_zeros
  | H : req _ (l_sizeUDPEncaps ?l) ?b |- len ?b <> 0 => eapply req_pos; [exact H | by apply layout_pos]
  | H : req _ (l_sizeProbeInterval ?l) ?b |- len ?b <> 0 => eapply req_pos; [exact H | by apply layout_pos]
  | H : req _ (l_sizePathThresholds ?l) ?b |- len ?b <> 0 => eapply req_pos; [exact H | by apply layout_pos]
  | H : req _ (l_sizeAssocStats ?l) ?b |- len ?b <> 0 => eapply req_pos; [exact H | by apply layout_pos]
  | H : req _ (_ + len ?x) ?b |- len ?b <> 0 => eapply req_pos; [exact H | pose proof (len_nonneg x); abi; lia]
  | H : req _ (_ + 2 * len ?x) ?b |- len ?b <> 0 => eapply req_pos; [exact H | pose proof (len_nonneg x); abi; lia]
  | H : req _ _ ?b |- len ?b <> 0 => eapply req_pos; [exact H | abi; lia]
  | H : len ?b = _ |- len ?b <> 0 => rewrite H; done
  end.

(** The length of a reply. *)
Ltac reply_len :=
  repeat match goal with
  | H : len ?b = len (zeros ?n) |- _ => rewrite (len_zeros n) in H by done
  | H : len ?b = len ?x, R : req _ _ ?x |- _ => rewrite (proj1 R) in H
  end; first [eassumption | abi; lia].
Ltac sure_reply :=
  lazymatch goal with
  | |- sure (decodePathInfo _) => apply sure_pathInfo; reply_len
  | |- sure (decodePathParams _) => apply sure_pathParams; reply_len
  | |- sure (decodeStatus _) => apply sure_status; reply_len
  | |- sure (decodeAssocInfo _) => apply sure_assocInfo; reply_len
  | |- sure (decodeRTOInfo _) => apply sure_rto; reply_len
  | |- sure (decodeInitMsg _) => apply sure_init; reply_len
  | |- sure (decodeDelayedSACK _) => apply sure_sack; reply_len
  | |- sure (decodePRStatus _) => apply sure_prStatus; reply_len
  | |- sure (udpEncapsPort _ _) => apply sure_udpEncaps; [eassumption | reply_len]
  | |- sure (probeIntervalMS _ _) => apply sure_probeInterval; [eassumption | reply_len]
  | |- sure (assocStats _ _) => apply sure_stats; [eassumption | reply_len]
  | |- sure (get_at _ _ _ _) => apply sure_get; [done | reply_len]
  | |- sure (slice_from _ _) => unfold slice_from; rewrite slice_ok; [by eexists | done | reply_len | lia]
  end.
Ltac list_arg :=
  lazymatch goal with
  | |- match decodeHMACIdents _ _ with _ => _ end => apply hmac_reply; reply_len
  | |- match decodeAuthChunks _ _ with _ => _ end => apply chunks_reply; reply_len
  end.

Ltac method_step :=
  lazymatch goal with
  | |- emits (if_open ?c _ _) (good _ ?sh ?st) => apply (good_if_open c sh st); intros _
  | |- emits (mret _) _ => apply good_ret
  | |- emits (checked ?c _ ?r ≫= ?k) (good _ ?sh ?st) =>
      eapply (good_bind c sh st _ (checked c (verb sh) r) k); [apply (going_checked c sh st); fine_arg | cbv beta; intros ? ?]
  | |- emits (let _ := _ in _) _ => cbv zeta
  | |- emits (let '(_, _) := ?x in _) _ => destruct x
  | |- emits (checked ?c _ ?r) (good _ ?sh true) => apply (good_list c sh); list_arg
  | |- emits (wrapped (callError ?c _ _) (readThresholds ?c ?addr) ≫= ?k) (good _ ?sh ?st) =>
      let H := fresh in
      pose proof (read_thresholds c sh addr eq_refl eq_refl eq_refl eq_refl) as H;
      first [ apply (read_good c sh _ k); [reflexivity | apply H; by auto | intros ?; clear H]
            | eapply (good_bind c sh st _ _ k); [apply read_going, H; by auto | intros ? _; clear H] ]
  | |- emits (wrapped (callError ?c _ _) storageLayout ≫= ?k) (good _ ?sh ?st) =>
      eapply (good_bind c sh st is_layout _ k); [apply (going_layout c sh) | intros ? ?]
  | |- emits (getOpt ?c ?opt ?b ≫= ?k) (good _ ?sh ?st) =>
      apply (good_get c sh st opt b k); [reflexivity | own_get | nonempty | intros ? ? ?; cbv beta iota]
  | |- emits (setOpt ?c ?opt ?b) (good _ ?sh ?st) =>
      apply (good_set c sh st opt b); [reflexivity | own_get | nonempty]
  | |- emits (intOption ?c ?level ?opt ≫= ?k) (good _ ?sh ?st) =>
      apply (good_int c sh st level opt k); [reflexivity | reflexivity | constructor | reflexivity | constructor | intros ?; cbv beta]
  | |- emits (intOption ?c ?level ?opt) (good _ ?sh ?st) => apply emits_bind_ret
  | |- emits (setIntOption ?c ?level ?opt ?v) (good _ ?sh ?st) =>
      apply (good_setInt c sh st level opt v); [reflexivity | reflexivity | constructor | reflexivity | constructor]
  | |- emits (assocValueOption ?c ?opt ≫= ?k) (good _ ?sh ?st) =>
      apply (good_assocValue c sh st opt k); [reflexivity | reflexivity | constructor | reflexivity | constructor | intros ?; cbv beta]
  | |- emits (assocValueOption ?c ?opt) (good _ ?sh ?st) => apply emits_bind_ret
  | |- emits (setAssocValueOption ?c ?opt ?v) (good _ ?sh ?st) =>
      apply (good_setAssocValue c sh st opt v); [reflexivity | reflexivity | constructor | reflexivity | constructor]
  | |- emits (pure ?r ≫= ?k) (good ?c ?sh false) =>
      eapply (good_bind c sh false _ (pure r) k); [apply (going_laid2 c sh false); laid_arg | cbv beta; intros ? ?]
  | |- emits (pure ?r ≫= ?k) (good ?c ?sh true) =>
      apply (good_pure_bind c sh r k); [sure_reply | intros ? ?]
  | |- emits (pure ?r) (good ?c ?sh true) => apply (good_pure c sh r); sure_reply
  end.

Section All.
Context `{A : Arch} `{AK : !ArchOk A} `{ZE : ZoneEnv} `{K : Kernel} `{CS : ClosingSentinel}.

(** One getsockopt and what is read from its reply. *)
Lemma emits_read {X} c sh opt n (k : bytes * Z -> sys X) :
  0 < n -> sh_set sh = false -> ours c sh ipprotoSCTP opt (zeros n) ->
  (forall b l, len b = n -> exists x, forall s, k (b, l) s = (s, [], Ret x)) ->
  emits (rawGetsockopt ipprotoSCTP opt (zeros n) ≫= k) (fun l r =>
    Forall (fun d => own c sh (call_of d)) l /\
    match r with Ret _ => ends_ok sh l | Err e => l <> [] | Panic => False end).
Proof.
  intros Hn Hs Ho Hk. assert (Hq : own c sh (Getsockopt ipprotoSCTP opt (zeros n))) by (left; auto).
  apply emits_bind, emits_get; [rewrite len_zeros; lia |]. intros errno b l Hb. rewrite len_zeros in Hb by lia.
  destruct (Z.eqb_spec errno 0) as [-> | He]; cbn [then_].
  - destruct (Hk b l Hb) as [x Hx]. intros s. rewrite Hx. cbn. split; [by apply own_one |].
    exists [], (Getsockopt ipprotoSCTP opt (zeros n)), b. by rewrite Hs.
  - split; [by apply own_one | done].
Qed.

Lemma getDefaultSndInfo_own c sh :
  sh_set sh = false -> ours c sh ipprotoSCTP optDefaultSndInfo (zeros sizeSndInfo) ->
  emits getDefaultSndInfo (fun l r => Forall (fun d => own c sh (call_of d)) l /\
    match r with Ret _ => ends_ok sh l | Err e => l <> [] | Panic => False end).
Proof.
  intros Hs Ho. apply emits_read; [abi; lia | done | done |]. intros b l Hb.
  eexists. intros s. run_sys. rewrite (get2_ok NativeEndian b sndInfoFlagsOff), (get2_ok NativeEndian b sndInfoStreamOff) by (abi; lia).
  cbn. rewrite !get4_ok by (abi; lia). reflexivity.
Qed.

Lemma getDefaultPrInfo_own c sh :
  sh_set sh = false -> ours c sh ipprotoSCTP optDefaultPRInfo (zeros sizeDefaultPRInfo) ->
  emits getDefaultPrInfo (fun l r => Forall (fun d => own c sh (call_of d)) l /\
    match r with Ret _ => ends_ok sh l | Err e => l <> [] | Panic => False end).
Proof.
  intros Hs Ho. apply emits_read; [abi; lia | done | done |]. intros b l Hb.
  eexists. intros s. run_sys. rewrite get2_ok by (abi; lia). cbn. rewrite get4_ok by (abi; lia). reflexivity.
Qed.

(** The send defaults are the socket's: association 0. *)
Lemma zero_id n off : 0 <= off -> off + 4 <= n -> uint_of NativeEndian (sub (zeros n) off 4) = 0.
Proof. intros. rewrite sub_zeros by lia. apply uint_of_zeros. Qed.

Lemma uint_of_n4_0 : uint_of NativeEndian (n4 0) = 0.
Proof. unfold n4. by rewrite uint_of_bytes_of. Qed.

Lemma snd_ours c sh stream flags ppid context :
  sh_level sh = ipprotoSCTP -> optDefaultSndInfo ∈ sh_opts sh -> sh_id sh optDefaultSndInfo = Some (sndInfoAssocIDOff, false) ->
  sh_size sh optDefaultSndInfo = [sizeSndInfo] ->
  ours c sh ipprotoSCTP optDefaultSndInfo (n2 stream ++ n2 flags ++ n4 ppid ++ n4 context ++ n4 0).
Proof.
  intros Hl Ho Hi Hs. split_and!; [done | done | rewrite Hi | rewrite Hs, !len_app, !len_n4, !len_n2; constructor].
  rewrite !app_assoc, sub_app_r by (rewrite !len_app, !len_n4, !len_n2; abi; lia).
  rewrite !len_app, !len_n4, !len_n2, sub_whole by (rewrite ?len_n4; abi; lia). apply uint_of_n4_0.
Qed.

Lemma pr_ours c sh policy value :
  sh_level sh = ipprotoSCTP -> optDefaultPRInfo ∈ sh_opts sh -> sh_id sh optDefaultPRInfo = Some (defaultPRInfoAssocIDOff, false) ->
  sh_size sh optDefaultPRInfo = [sizeDefaultPRInfo] ->
  ours c sh ipprotoSCTP optDefaultPRInfo (n4 0 ++ n4 value ++ n2 policy ++ n2 0).
Proof.
  intros Hl Ho Hi Hs. split_and!; [done | done | rewrite Hi | rewrite Hs, !len_app, !len_n4, !len_n2; constructor].
  rewrite sub_app_l by (rewrite ?len_n4; abi; lia). rewrite sub_whole by (rewrite ?len_n4; abi; lia). apply uint_of_n4_0.
Qed.

Lemma perform_good c m : m_wf m -> emits (perform c m) (good c (shape_of m) false).
Proof.
  intros Hw. destruct m; cbn [perform]; apply good_drop;
    cbv delta [ReadBuffer SetReadBuffer WriteBuffer SetWriteBuffer PrimaryAddr SetPrimaryAddr RequestPeerPrimary GetPathInfo
    GetPathParams SetPathParams RequestHeartbeat GetPathThresholds SetPathThresholds GetPFExposure SetPFExposure
    AutoASCONF SetAutoASCONF NoDelay SetNoDelay FragmentsDisabled SetFragmentsDisabled ReceiveNxtInfo
    SetReceiveNxtInfo RemoteUDPEncapsPort SetRemoteUDPEncapsPort PLPMTUDProbeInterval SetPLPMTUDProbeInterval
    GetStatus Stats GetAssocInfo SetAssocInfo GetRTOInfo SetRTOInfo GetInitMsg GetDelayedSACK SetDelayedSACK
    AdaptationLayer MaxSeg SetMaxSeg MaxBurst SetMaxBurst GetFragmentInterleave SetFragmentInterleave
    PartialDeliveryPoint SetPartialDeliveryPoint DefaultContext SetDefaultContext PRSupported ReconfigSupported
    ASCONFSupported AuthSupported InterleavingSupported ECNSupported SetAuthKey ActiveAuthKey SetActiveAuthKey
    DeactivateAuthKey DeleteAuthKey HMACIdentifiers LocalAuthChunks PeerAuthChunks GetStreamResetMask
    SetStreamResetMask ResetStreams ResetAssoc AddStreams StreamScheduler SetStreamScheduler StreamSchedulerValue
    SetStreamSchedulerValue PRStreamStatus PRAssocStatus DefaultSndInfo SetDefaultSndInfo DefaultPrInfo
    SetDefaultPrInfo
    boolOption setBoolOption negotiated authChunks key_option prStatus assoc_request] beta.
  all: repeat method_step.
  - apply emits_bind_ret, (good_wrapped c (shape_of mDefaultSndInfo)); [| intros; apply good_ret].
    apply getDefaultSndInfo_own; [done |]. split_and!; [done | constructor | by apply (zero_id sizeSndInfo sndInfoAssocIDOff) | constructor].
  - set (sh := shape_of (mSetDefaultSndInfo info)). apply (good_wrapped c sh); [| intros; apply good_ret].
    assert (Hget : own c sh get_pr).
    { left. split; [by right |]. split_and!; [done | right; constructor | by apply (zero_id sizeDefaultPRInfo defaultPRInfoAssocIDOff) | constructor]. }
    eapply emits_mono; [apply setDefaultSndInfo_runs |]. intros l r [(errno & Hn & -> & ->) | (pr & l' & Hpr & -> & Hm)].
    + split; [| done]. by apply own_one.
    + apply (made_own c sh) in Hm as [Hl Hr].
      * split; [by constructor |].
        destruct r as [y | e |]; [| by destruct l' | done].
        destruct Hr as (l2 & q & rep & -> & Hq). by exists (Did get_pr 0 pr :: l2), q, rep.
      * constructor; [split; [done |]; apply snd_ours; [done | constructor | done | done] |]. unfold restore_pr. destruct (_ =? _); [constructor |].
        constructor; [split; [done |]; apply pr_ours; [done | right; constructor | done | done] | constructor].
      * done.
      * constructor; [done |]. unfold restore_pr. destruct (_ =? _); repeat constructor.
  - apply emits_bind_ret, (good_wrapped c (shape_of mDefaultPrInfo)); [| intros; apply good_ret].
    apply getDefaultPrInfo_own; [done |]. split_and!; [done | constructor | by apply (zero_id sizeDefaultPRInfo defaultPRInfoAssocIDOff) | constructor].
  - set (sh := shape_of (mSetDefaultPrInfo pr)). apply (good_wrapped c sh); [| intros; apply good_ret].
    eapply emits_mono; [apply setDefaultPrInfo_made |]. intros l r Hm. eapply made_own; [| | | exact Hm]; [| done | by repeat constructor].
    constructor; [| constructor]. split; [done |]. apply pr_ours; [done | constructor | done | done].
Qed.

(** *** A closed connection *)
Definition closed_error (c : Conn) (sh : shape) : error :=
  OpErr (verb sh) (network c) None (c_local (base c)) (Plain NetErrClosed).

Definition shut (c : Conn) (sh : shape) {X} (l : calls) (r : out error X) : Prop := l = [] /\ r = Err (closed_error c sh).

Lemma shut_open {X} c sh (m : sys X) : c_opened c = false -> emits (if_open c (verb sh) m) (shut c sh).
Proof.
  intros Ho. unfold if_open. rewrite Ho. cbn [negb]. unfold optionError.
  destruct (optError_wraps (verb sh) (if bool_decide (verb sh = "set") then "setsockopt" else "getsockopt")
    (network c) None (c_local (base c)) (Plain NetErrClosed)) as (cause & -> & Hc).
  apply emits_fails. unfold shut, closed_error. by rewrite Hc.
Qed.

Lemma shut_bind {X Y} c sh (m : sys X) (k : X -> sys Y) : emits m (shut c sh) -> emits (m ≫= k) (shut c sh).
Proof. intros H. apply emits_bind. eapply emits_mono; [exact H |]. intros l r [-> ->]. done. Qed.

Lemma shut_pure {Y} c sh (P : bytes -> Prop) r (k : bytes -> sys Y) :
  fine P r /\ (forall e, r <> Err e) -> (forall b, P b -> emits (k b) (shut c sh)) -> emits (pure r ≫= k) (shut c sh).
Proof.
  intros [Hf Hn] Hk. apply emits_pure_bind. destruct r as [b | e |]; [by apply Hk | by destruct (Hn e) | done].
Qed.

Lemma perform_closed c m : c_opened c = false -> emits (perform c m) (shut c (shape_of m)).
Proof.
  intros Ho. destruct m; cbn [perform]; apply shut_bind;
    cbv delta [ReadBuffer SetReadBuffer WriteBuffer SetWriteBuffer PrimaryAddr SetPrimaryAddr RequestPeerPrimary GetPathInfo
    GetPathParams SetPathParams RequestHeartbeat GetPathThresholds SetPathThresholds GetPFExposure SetPFExposure
    AutoASCONF SetAutoASCONF NoDelay SetNoDelay FragmentsDisabled SetFragmentsDisabled ReceiveNxtInfo
    SetReceiveNxtInfo RemoteUDPEncapsPort SetRemoteUDPEncapsPort PLPMTUDProbeInterval SetPLPMTUDProbeInterval
    GetStatus Stats GetAssocInfo SetAssocInfo GetRTOInfo SetRTOInfo GetInitMsg GetDelayedSACK SetDelayedSACK
    AdaptationLayer MaxSeg SetMaxSeg MaxBurst SetMaxBurst GetFragmentInterleave SetFragmentInterleave
    PartialDeliveryPoint SetPartialDeliveryPoint DefaultContext SetDefaultContext PRSupported ReconfigSupported
    ASCONFSupported AuthSupported InterleavingSupported ECNSupported SetAuthKey ActiveAuthKey SetActiveAuthKey
    DeactivateAuthKey DeleteAuthKey HMACIdentifiers LocalAuthChunks PeerAuthChunks GetStreamResetMask
    SetStreamResetMask ResetStreams ResetAssoc AddStreams StreamScheduler SetStreamScheduler StreamSchedulerValue
    SetStreamSchedulerValue PRStreamStatus PRAssocStatus DefaultSndInfo SetDefaultSndInfo DefaultPrInfo
    SetDefaultPrInfo
    boolOption setBoolOption negotiated authChunks key_option prStatus assoc_request
    intOption setIntOption assocValueOption setAssocValueOption getOpt setOpt] beta.
  all: repeat lazymatch goal with
    | |- emits (if_open ?c _ ?m) (shut _ ?sh) => apply (shut_open c sh m Ho)
    | |- emits (pure _ ≫= _) (shut ?c ?sh) => eapply (shut_pure c sh); [laid_arg | cbv beta; intros ? ?]
    | |- emits (_ ≫= _) (shut ?c ?sh) => apply (shut_bind c sh)
    end.
Qed.

End All.

(** ** A partial change of the path thresholds *)
Section Thresholds.
Context `{A : Arch} `{AK : !ArchOk A} `{ZE : ZoneEnv} `{K : Kernel} `{CS : ClosingSentinel}.

(** [cur] with the fields [t] sets. *)
Definition changed (cur : thresholdValues) (t : PathThresholds) : thresholdValues := {|
  tv_maxRetrans := default (tv_maxRetrans cur) (pt_PathMaxRetrans t);
  tv_pf := default (tv_pf cur) (pt_PFThreshold t);
  tv_switchover := default (tv_switchover cur) (pt_PrimarySwitchover t) |}.

Definition values_wf (v : thresholdValues) : Prop :=
  is_u16 (tv_maxRetrans v) /\ is_u16 (tv_pf v) /\ is_u16 (tv_switchover v).

Definition thresholds_wf (t : PathThresholds) : Prop :=
  (forall v, pt_PathMaxRetrans t = Some v -> is_u16 v) /\ (forall v, pt_PFThreshold t = Some v -> is_u16 v) /\
  (forall v, pt_PrimarySwitchover t = Some v -> is_u16 v).

Lemma merge_changed cur t field v : mergePathThresholds cur t field = Ret v -> v = changed cur t.
Proof.
  unfold mergePathThresholds, changed. destruct cur, t as [[m |] [p |] [q |]]; cbn; try destruct (m =? 0); by intros [= <-].
Qed.

Lemma changed_wf cur t : values_wf cur -> thresholds_wf t -> values_wf (changed cur t).
Proof.
  intros (H1 & H2 & H3) (T1 & T2 & T3). unfold changed, values_wf; cbn.
  split_and!; [destruct (pt_PathMaxRetrans t) | destruct (pt_PFThreshold t) | destruct (pt_PrimarySwitchover t)]; cbn; auto.
Qed.

Lemma read_values_wf l b v : is_layout l -> len b = l_sizePathThresholds l -> read_thresholdValues l b = Ret v -> values_wf v.
Proof.
  intros Hl Hb. destruct (layout_of l Hl) as (H4 & _ & _ & (T1 & T2 & T3 & T4) & _).
  assert (0 <= sizeSockaddrStorage) by done.
  unfold read_thresholdValues. rewrite !get2_ok by lia. cbn. intros [= <-].
  assert (Hu : forall o, 0 <= o -> o + 2 <= len b -> is_u16 (uint_of NativeEndian (sub b o 2))).
  { intros o Ho Ho'. apply (uint_of_range NativeEndian (sub b o 2) 2). apply len_sub; lia. }
  unfold values_wf; cbn. split_and!; apply Hu; lia.
Qed.

Lemma if_open_ret_inv {X} c op (m : sys X) s s' l x : if_open c op m s = (s', l, Ret x) -> m s = (s', l, Ret x).
Proof. unfold if_open, fails. destruct (negb _); [by destruct (optionError _ _ _) | done]. Qed.

Lemma getsockopt_ret_inv opt b s s' l x :
  getsockopt opt b s = (s', l, Ret x) ->
  l = [Did (Getsockopt ipprotoSCTP opt b) 0 x.1] /\ len x.1 = len b /\ storageLayoutCache s' = storageLayoutCache s.
Proof.
  unfold getsockopt, getsockoptAt, sock_control, rawGetsockopt. destruct (k_control (kern s)) as [w []]; [| done].
  destruct (len b =? 0); [done |]. cbn. destruct (k_getsockopt w ipprotoSCTP opt b) as [w' [errno [r n]]].
  destruct (Z.eqb_spec errno 0) as [-> |]; [| done]. cbn. intros [= <- <- <-]. cbn. by rewrite len_reply_into.
Qed.

Lemma setsockopt_ret_inv opt b s s' l x :
  setsockopt opt b s = (s', l, Ret x) -> l = [Did (Setsockopt ipprotoSCTP opt b) 0 []].
Proof.
  unfold setsockopt, setsockoptAt, sock_control, rawSetsockopt. destruct (k_control (kern s)) as [w []]; [| done].
  destruct (len b =? 0); [done |]. cbn. destruct (k_setsockopt w ipprotoSCTP opt b) as [w' errno].
  destruct (Z.eqb_spec errno 0) as [-> |]; [| done]. cbn. by intros [= <- <-].
Qed.

(** A layout once found is the one the next call finds, with no probe. *)
Lemma storageLayout_again s s1 l lay s2 :
  storageLayout s = (s1, l, Ret lay) -> storageLayoutCache s2 = storageLayoutCache s1 ->
  storageLayout s2 = (s2, [], Ret lay).
Proof.
  unfold storageLayout. destruct (wordSize =? 8); [by intros [= <- <- <-] |].
  intros (sa & la & cache & lb & Hc & H & ->)%bind_ret_inv. injection Hc as <- <- <-.
  apply bind_ret_inv in H as (sb & lc & probe & ld & Hp & H & ->).
  pose proof (selectStorageLayout_spec (storageLayoutCache s) probe) as Hsp.
  destruct (selectStorageLayout (storageLayoutCache s) probe) as [cache r] eqn:Hsel.
  apply bind_ret_inv in H as (sc & le & [] & lf & Hset & H & ->). injection Hset as <- <-.
  apply pure_ret_inv in H as (-> & -> & ->). cbn. intros Hcache.
  destruct Hsp as (_ & _ & Hagain & _). specialize (Hagain lay None eq_refl).
  destruct s2 as [k2 c2]. cbn in Hcache. subst c2. run_sys.
  assert (Hk : cache <> storageLayoutUnknown).
  { intros ->. revert Hsel. unfold selectStorageLayout. destruct (storageLayoutCache s); [| congruence..].
    destruct probe as [e |]; [destruct (errors_Is e (Errno EINVAL)) |]; congruence. }
  destruct cache; [done | |]; cbn in Hagain; injection Hagain as <-; reflexivity.
Qed.

Lemma buffers_fit lay :
  is_layout lay -> l_sizeUDPEncaps lay <= len (zeros sizePathThresholdsKernel64) /\
    l_sizeProbeInterval lay <= len (zeros sizePathThresholdsKernel64) /\ l_sizePathThresholds lay <= len (zeros sizePathThresholdsKernel64).
Proof. rewrite len_zeros by done. intros [-> | ->]; arch_cases A; vm_compute; repeat split; discriminate. Qed.

(** SetPathThresholds changes what its argument sets and nothing else:
    when it succeeds, it has read the path's three thresholds, and its last
    call writes, for the same association and path in the same layout, the
    values read with the non-nil fields of the argument in their place. *)
Theorem thresholds_kept c path t s s' l
    (Ht : thresholds_wf t) (H : SetPathThresholds c path (Some t) s = (s', l, Ret tt)) :
  exists lay addr q b0 b1 cur pre,
    is_layout lay /\ path_bytes c "SetPathThresholds" path = Ret addr /\
    l = pre ++ [Did (Getsockopt ipprotoSCTP optPathThresholds q) 0 b0; Did (Setsockopt ipprotoSCTP optPathThresholds b1) 0 []] /\
    pathThresholds lay (zeros sizePathThresholdsKernel64) (assoc c) addr {| tv_maxRetrans := 0; tv_pf := 0; tv_switchover := 0 |} = Ret q /\
    pathThresholds lay (zeros sizePathThresholdsKernel64) (assoc c) addr (changed cur t) = Ret b1 /\
    read_thresholdValues lay b0 = Ret cur /\ read_thresholdValues lay b1 = Ret (changed cur t).
Proof.
  apply if_open_ret_inv in H. unfold SetPathThresholds, checked in H.
  repeat match goal with
  | H : (_ ≫= _) _ = (_, _, Ret _) |- _ => apply bind_ret_inv in H as (? & ? & ? & ? & ? & H & ->)
  | H : wrapped _ _ _ = (_, _, Ret _) |- _ => apply wrapped_ret_inv in H
  | H : pure _ _ = (_, _, Ret _) |- _ => apply pure_ret_inv in H as (-> & -> & H)
  end.
  match goal with H : readThresholds _ _ _ = _ |- _ => rename H into Hr end.
  match goal with H : storageLayout _ = _ |- _ => rename H into Hl2 end.
  match goal with H : mergePathThresholds _ _ _ = _ |- _ => rename H into Hm end.
  match goal with H : setOpt _ _ _ _ = _ |- _ => apply if_open_ret_inv, wrapped_ret_inv, setsockopt_ret_inv in H as -> end.
  match goal with H : not_nil _ _ = _ |- _ => injection H as <- end.
  apply bind_ret_inv in Hr as (s1 & l1 & lay & l2 & Hl1 & Hr & ->).
  apply bind_ret_inv in Hr as (s2 & l3 & q & l4 & Hq & Hr & ->). apply pure_ret_inv in Hq as (-> & -> & Hq).
  apply bind_ret_inv in Hr as (s3 & l5 & [b0 n] & l6 & Hg & Hr & ->). apply getsockopt_ret_inv in Hg as (-> & Hb0 & Hc).
  apply pure_ret_inv in Hr as (-> & -> & Hcur). cbn in Hb0.
  rewrite (storageLayout_again _ _ _ _ _ Hl1 Hc) in Hl2. injection Hl2 as <- <- <-.
  match type of Hl1 with storageLayout ?s0 = _ => pose proof (emits_layout s0) as [_ Hlay] end. rewrite Hl1 in Hlay. cbn in Hlay.
  apply merge_changed in Hm as ->.
  match goal with H : path_bytes _ _ _ = Ret ?a |- _ => rename H into Ha; rename a into addr end.
  pose proof (fine_pathThresholds lay (assoc c) addr {| tv_maxRetrans := 0; tv_pf := 0; tv_switchover := 0 |} Hlay) as Hfq.
  rewrite Hq in Hfq. destruct Hfq as [Hlq _].
  match goal with H : pathThresholds lay _ _ _ (changed ?x _) = Ret ?b |- _ => rename H into Hb1; rename x into cur; rename b into b1 end.
  assert (Hw : values_wf (changed cur t)).
  { apply changed_wf; [| done]. eapply read_values_wf; [exact Hlay | rewrite Hb0; exact Hlq | exact Hcur]. }
  destruct (storage_roundtrip lay (zeros sizePathThresholdsKernel64) (assoc c) addr 0 0 (changed cur t) Hlay)
    as (_ & _ & b & Hb & _ & Hrd); [unfold is_u16; lia | unfold is_u32; lia | exact Hw | by apply buffers_fit |].
  assert (b = b1) as -> by congruence. exists lay, addr, q, b0, b1, cur, l1.
  split_and!; try done. by rewrite <- !app_assoc.
Qed.
End Thresholds.

(** ** Subscriptions *)
Section Subscriptions.
Context `{A : Arch} `{AK : !ArchOk A} `{ZE : ZoneEnv} `{K : Kernel} `{CS : ClosingSentinel}.

Lemma known_type_event t : known_type t = true <-> known_event t.
Proof.
  unfold known_type, known_event. rewrite existsb_exists, list_elem_of_fmap. split.
  - intros (e & He%list_elem_of_In & Hz%Z.eqb_eq). exists e. by subst.
  - intros (e & -> & He%list_elem_of_In). exists e. by rewrite Z.eqb_refl.
Qed.

(** The caller's types in a set of 16 bits. *)
Definition subscribed (subs t : Z) : bool := has (u16 subs) t.

Lemma subscribed_on subs t u : known_event t -> known_event u ->
  subscribed (Z.lor subs (eventBit u)) t = subscribed subs t || (t =? u).
Proof.
  intros Ht%known_event_range Hu%known_event_range. unfold subscribed, u16. rewrite !has_testbit by done.
  change 65536 with (2 ^ 16). rewrite !Z.mod_pow2_bits_low, Z.lor_spec, eventBit_known, Z.pow2_bits_eqb by (done || lia).
  f_equal. destruct (Z.eqb_spec (u - EventAssocChange) (t - EventAssocChange)), (Z.eqb_spec t u); lia || done.
Qed.

Lemma subscribed_off subs t u : known_event t -> known_event u ->
  subscribed (Z.land subs (Z.lxor (eventBit u) MaxUint32)) t = subscribed subs t && negb (t =? u).
Proof.
  intros Ht%known_event_range Hu%known_event_range. unfold subscribed, u16. rewrite !has_testbit by done.
  change 65536 with (2 ^ 16). rewrite !Z.mod_pow2_bits_low, Z.land_spec, Z.lxor_spec, eventBit_known, Z.pow2_bits_eqb by (done || lia).
  change MaxUint32 with (Z.ones 32). rewrite Z.ones_spec_low, xorb_true_r by lia.
  do 2 f_equal. destruct (Z.eqb_spec (u - EventAssocChange) (t - EventAssocChange)), (Z.eqb_spec t u); lia || done.
Qed.

Definition subscribe_fails (c : Conn) (t : Z) (on : bool) (own : list syscall) (l : calls) (e : error) : Prop :=
  (known_type t = false /\ l = [] /\ exists msg, argError c "set" (invalidArg msg) = Some e) \/
  (known_type t = true /\ own = [set_event t on] /\
   ((l = [] /\ optionError c "set" (Plain NetErrClosed) = Some e) \/
    exists errno, errno <> 0 /\ l = [Did (set_event t on) errno []] /\ optionError c "set" (errno_error errno) = Some e)).

(** Subscribe and Subscribed: a type EventType does not name is refused
    without a call; the two types the package needs itself never reach the
    kernel, and any other is set with one SCTP_EVENT call; when that is
    refused the caller's set stays, and when it is accepted Subscribed
    answers as asked for the type, and as before for every other. *)
Theorem subscribe_spec c subs t on s (Ho : c_opened c = true) :
  let '(_, l, r) := Subscribe c subs t on s in
  let own := if (t =? EventAssocChange) || (t =? EventPartialDelivery) then [] else [set_event t on] in
  match r with
  | Ret subs' => known_type t = true /\ l = ok <$> own /\
      forall u s2, known_type u = true ->
        Subscribed c subs' u s2 = (s2, [], Ret (if u =? t then on else subscribed subs u))
  | Err e => subscribe_fails c t on own l e
  | Panic => False
  end.
Proof.
  assert (Hsub : forall subs' u s2, known_type u = true -> Subscribed c subs' u s2 = (s2, [], Ret (subscribed subs' u))).
  { intros subs' u s2 Hu. unfold Subscribed, if_open. by rewrite Ho, Hu. }
  enough (H : emits (Subscribe c subs t on) (fun l r =>
    let own := if (t =? EventAssocChange) || (t =? EventPartialDelivery) then [] else [set_event t on] in
    match r with
    | Ret subs' => known_type t = true /\ l = ok <$> own /\
        forall u, known_type u = true -> subscribed subs' u = if u =? t then on else subscribed subs u
    | Err e => subscribe_fails c t on own l e
    | Panic => False
    end)).
  { specialize (H s). destruct (Subscribe c subs t on s) as [[s' l] [subs' | e |]]; cbn in *; [| exact H | exact H].
    destruct H as (Ht & Hl & Hu). split; [done |]. split; [done |]. intros u s2 Hku. by rewrite Hsub, Hu. }
  unfold Subscribe, if_open. rewrite Ho. cbn [negb].
  destruct (known_type t) eqn:Ht.
  2: { apply emits_bind, emits_wrapped, emits_pure. cbn [refuse_if negb].
       unfold argError. cbn. left. split; [done |]. split; [done |]. by eexists. }
  apply emits_bind, emits_wrapped, emits_pure. cbn [refuse_if negb then_ app]. apply emits_bind.
  assert (Hset : forall u, known_type u = true ->
    subscribed (if on then Z.lor subs (eventBit t) else Z.land subs (Z.lxor (eventBit t) MaxUint32)) u = if u =? t then on else subscribed subs u).
  { intros u Hu. apply known_type_event in Ht, Hu. destruct on; [rewrite subscribed_on by done | rewrite subscribed_off by done].
    - destruct (u =? t); [apply orb_true_r | apply orb_false_r].
    - destruct (u =? t); [apply andb_false_r | apply andb_true_r]. }
  rewrite <- negb_orb. destruct ((t =? EventAssocChange) || (t =? EventPartialDelivery)) eqn:Hi; cbn [negb].
  - apply emits_ret. cbn [then_]. by apply emits_ret.
  - apply emits_wrapped, emits_control.
    + eapply emits_mono; [apply setEvent_made |]. intros l r [[-> ->] | (before & q & after & errno & Hq & Hn & -> & ->)].
      * cbn [then_]. by apply emits_ret.
      * destruct before as [| ? []]; [| by destruct after..]. injection Hq as <- <-.
        destruct (optionError c "set" (errno_error errno)) as [e |] eqn:He; cbn [then_]; [right; split; [done |]; split; [done |]; right; exists errno; split; [done |]; split; [| done]; done |].
        by destruct (optionError_some c "set" (errno_error errno)) as [? ?]; congruence.
    + destruct (optionError_some c "set" (Plain NetErrClosed)) as [e He]. rewrite He. cbn [then_].
      right. split; [done |]. split; [done |]. left. done.
Qed.
End Subscriptions.

(** ** Witnesses: an open connection on a kernel that keeps one struct *)
Definition struct_kernel : Kernel := {|
  numbers := amd64_numbers;
  world := bytes;
  k_control w := (w, true);
  k_setsockopt w _ _ b := (b, 0);
  k_getsockopt w _ _ b := (w, (0, (w, len b))) |}.

#[local] Instance keeps_struct : Kernel := struct_kernel.
#[local] Instance go_runtime : ClosingSentinel := { captured := true; strerror := fun _ => "errno" }.
#[local] Instance amd64_target : Arch := amd64.
#[local] Instance amd64_zones : ZoneEnv := host_zones.

Definition open_conn : Conn := {|
  base := {| handler := None; c_sock := true; c_life := lifeOpen; abort_result := None; c_network := "sctp4";
             c_local := Some "10.0.0.1:7"; c_remote := None |};
  assoc := 3; family := afInet; peerPort := 7; pathScope := 0; laddr := None |}.

Definition kept_values : thresholdValues := {| tv_maxRetrans := 5; tv_pf := 2; tv_switchover := 65535 |}.

Definition kept_struct : bytes :=
  match pathThresholds nativeStorageLayout (zeros sizePathThresholdsKernel64) 3 [] kept_values with Ret b => b | _ => [] end.

Definition kept_state : proc := {| kern := kept_struct : world; storageLayoutCache := storageLayoutUnknown |}.

Definition only_pf : PathThresholds := {| pt_PathMaxRetrans := None; pt_PFThreshold := Some 4; pt_PrimarySwitchover := None |}.

Lemma thresholds_kept_witness :
  exists pre q b0 b1,
    (SetPathThresholds open_conn IPv4Unspecified (Some only_pf) kept_state).1.2 =
      pre ++ [Did (Getsockopt ipprotoSCTP optPathThresholds q) 0 b0; Did (Setsockopt ipprotoSCTP optPathThresholds b1) 0 []] /\
    read_thresholdValues nativeStorageLayout b1 = Ret {| tv_maxRetrans := 5; tv_pf := 4; tv_switchover := 65535 |}.
Proof.
  destruct (thresholds_kept (AK := amd64_ok) open_conn IPv4Unspecified only_pf kept_state
    (SetPathThresholds open_conn IPv4Unspecified (Some only_pf) kept_state).1.1
    (SetPathThresholds open_conn IPv4Unspecified (Some only_pf) kept_state).1.2)
    as (lay & addr & q & b0 & b1 & cur & pre & Hlay & _ & Hl & _ & _ & Hc & Hr).
  { unfold thresholds_wf, is_u16. cbn. split_and!; intros v; [discriminate | intros [= <-]; lia | discriminate]. }
  { match goal with |- ?x = _ => vm_cast_no_check (eq_refl x) end. }
  exists pre, q, b0, b1. split; [exact Hl |].
  assert (lay = nativeStorageLayout) as -> by (destruct Hlay as [-> | ->]; reflexivity).
  etransitivity; [exact Hr |]. f_equal.
  assert (Hb : b0 = kept_struct).
  { assert (E : last (take 1 (SetPathThresholds open_conn IPv4Unspecified (Some only_pf) kept_state).1.2) =
      Some (Did (Getsockopt ipprotoSCTP optPathThresholds q) 0 b0)).
    { rewrite Hl. assert (pre = []) as ->; [| reflexivity]. apply (f_equal length) in Hl. rewrite length_app in Hl.
      replace (length (SetPathThresholds open_conn IPv4Unspecified (Some only_pf) kept_state).1.2) with 2%nat in Hl by (vm_compute; reflexivity).
      cbn in Hl. destruct pre; [done | cbn in Hl; lia]. }
    vm_compute in E. vm_compute. congruence. }
  subst b0. vm_compute in Hc. injection Hc as <-. reflexivity.
Defined.


Lemma subscribe_spec_witness :
  (Subscribe open_conn 0 EventSendFailed true kept_state).1.2 = [ok (set_event EventSendFailed true)] /\
  Subscribed open_conn (eventBit EventSendFailed) EventSendFailed kept_state = (kept_state, [], Ret true).
Proof.
  pose proof (subscribe_spec open_conn 0 EventSendFailed true kept_state eq_refl) as H.
  assert (Hr : (Subscribe open_conn 0 EventSendFailed true kept_state).2 = Ret (eventBit EventSendFailed)) by (vm_compute; reflexivity).
  destruct (Subscribe open_conn 0 EventSendFailed true kept_state) as [[s l] r]. cbn in Hr. subst r.
  destruct H as (_ & Hl & Hs). split; [exact Hl |]. exact (Hs EventSendFailed kept_state eq_refl).
Defined.
