(* ===== verification/Mutex.v ===== *)
(** * Calls under a mutex

    Many methods of the package hold a mutex (sync.Mutex) through several
    system calls.  [critical] is such a computation cut at its system calls,
    and [run] the computation it is cut from.  In a [scene] any number of
    them run at the same time, each system call a step of its own; the
    invariant says that in every interleaving they have the effect of [run]
    one after the other, in the order they release the mutex.

    OptionLock.v and ConnLocks.v apply it to optMu, subMu and bindMu. *)
From Stdlib Require Import ZArith Lia Bool.
From stdpp Require Import base list option strings relations.
From S2P Require Import Prelude Errors Sys.

(** ** A computation cut at its system calls *)

(** What a call does while it holds the mutex. *)
Inductive critical (S L X : Type) :=
| Leave (r : out error X)
| Step {Y : Type} (m : logged S L Y) (k : out error Y -> critical S L X).
#[global] Arguments Leave {S L X} r.
#[global] Arguments Step {S L X Y} m k.

Section Cut.
Context {S L : Type}.

(** All of it at once. *)
Fixpoint run {X} (p : critical S L X) : logged S L X :=
  match p with
  | Leave r => pure r
  | Step m k => fun s =>
      let '(s, l1, r) := m s in
      let '(s, l2, r) := run (k r) s in (s, l1 ++ l2, r)
  end.

(** One system call; a sequence; an error wrapped. *)
Definition call {X} (m : logged S L X) : critical S L X := Step m Leave.

Fixpoint sequence {X Y} (k : X -> critical S L Y) (p : critical S L X) : critical S L Y :=
  match p with
  | Leave (Ret x) => k x
  | Leave (Err e) => Leave (Err e)
  | Leave Panic => Leave Panic
  | Step m j => Step m (fun r => sequence k (j r))
  end.

#[global] Instance critical_bind : MBind (critical S L) := @sequence.

Fixpoint with_error {X} (wrap : error -> option error) (p : critical S L X) : critical S L X :=
  match p with
  | Leave (Err e) => Leave (match wrap e with Some e => Err e | None => Panic end)
  | Leave r => Leave r
  | Step m j => Step m (fun r => with_error wrap (j r))
  end.

Lemma run_call {X} (m : logged S L X) s : run (call m) s = m s.
Proof. cbn. destruct (m s) as [[s' l] r]. unfold pure. by rewrite app_nil_r. Qed.

Lemma run_leave {X} (r : out error X) s : run (Leave r) s = pure r s.
Proof. done. Qed.

Lemma run_sequence {X Y} (p : critical S L X) (k : X -> critical S L Y) s :
  run (p ≫= k) s = (run p ≫= fun x => run (k x)) s.
Proof.
  change (run (sequence k p) s = (run p ≫= fun x => run (k x)) s). unfold mbind, sys_bind.
  revert s. induction p as [r | Z m j IH]; intros s; cbn.
  - destruct r as [x | e |]; cbn; [| done..]. by destruct (run (k x) s) as [[? ?] ?].
  - destruct (m s) as [[s1 l1] r1]. rewrite IH. destruct (run (j r1) s1) as [[s2 l2] [x | e |]]; [| done..].
    destruct (run (k x) s2) as [[s3 l3] r3]. by rewrite app_assoc.
Qed.

Lemma run_with_error {X} wrap (p : critical S L X) s : run (with_error wrap p) s = wrapped wrap (run p) s.
Proof.
  unfold wrapped, caught, mbind, sys_bind. revert s. induction p as [r | Z m j IH]; intros s; cbn.
  - destruct r as [x | e |]; cbn; [done | by destruct (wrap e) | done].
  - destruct (m s) as [[s1 l1] r1]. rewrite IH. destruct (run (j r1) s1) as [[s2 l2] [x | e |]]; cbn.
    + by rewrite !app_nil_r.
    + destruct (wrap e); cbn; by rewrite !app_nil_r.
    + done.
Qed.

Lemma bind_ext {X Y} (m m' : logged S L X) (k k' : X -> logged S L Y) s :
  m s = m' s -> (forall x s, k x s = k' x s) -> (m ≫= k) s = (m' ≫= k') s.
Proof. intros Hm Hk. unfold mbind, sys_bind. rewrite Hm. destruct (m' s) as [[s1 l] [x | e |]]; [| done..]. by rewrite Hk. Qed.

Lemma wrapped_ext {X} wrap (m m' : logged S L X) s : m s = m' s -> wrapped wrap m s = wrapped wrap m' s.
Proof. intros Hm. unfold wrapped, caught, mbind, sys_bind. by rewrite Hm. Qed.
End Cut.

(** ** Calls under one mutex *)
Section Mutex.
Context {S L X : Type}.
#[local] Abbreviation critical := (critical S L X).

(** The calls there can be. *)
Variable allowed : critical -> Prop.

(** A call: waiting for the mutex, holding it, or returned. *)
Inductive caller :=
| Outside (p : critical)
| Inside (whole : critical) (rest : critical) (made : list L)
| Returned (r : out error X).

Record commit := { cm_caller : nat; cm_whole : critical; cm_made : list L; cm_result : out error X }.

Record scene := { mutex : option nat; store : S; callers : list caller; history : list commit }.

Inductive scene_step : scene -> scene -> Prop :=
| StepCall v s cs h p :
    allowed p ->
    scene_step {| mutex := v; store := s; callers := cs; history := h |}
               {| mutex := v; store := s; callers := cs ++ [Outside p]; history := h |}
| StepLock n s cs h p :
    cs !! n = Some (Outside p) ->
    scene_step {| mutex := None; store := s; callers := cs; history := h |}
               {| mutex := Some n; store := s; callers := <[n := Inside p p []]> cs; history := h |}
| StepWork n v s cs h p Y (m : logged S L Y) k l s' l' r :
    cs !! n = Some (Inside p (Step m k) l) -> m s = (s', l', r) ->
    scene_step {| mutex := v; store := s; callers := cs; history := h |}
               {| mutex := v; store := s'; callers := <[n := Inside p (k r) (l ++ l')]> cs; history := h |}
| StepUnlock n v s cs h p r l :
    cs !! n = Some (Inside p (Leave r) l) ->
    scene_step {| mutex := v; store := s; callers := cs; history := h |}
               {| mutex := None; store := s; callers := <[n := Returned r]> cs;
                  history := h ++ [{| cm_caller := n; cm_whole := p; cm_made := l; cm_result := r |}] |}.

Definition scene_start (s : S) : scene := {| mutex := None; store := s; callers := []; history := [] |}.

(** The calls of a history, one after the other. *)
Inductive in_turn (s : S) : list commit -> S -> Prop :=
| InTurnNil : in_turn s [] s
| InTurnSnoc h s1 m s2 :
    in_turn s h s1 -> run (cm_whole m) s1 = (s2, cm_made m, cm_result m) -> in_turn s (h ++ [m]) s2.

Definition inside (c : caller) : bool := match c with Inside _ _ _ => true | _ => false end.

(** A call inside has done the first part of [run]. *)
Definition caller_ok (s1 s : S) (c : caller) : Prop :=
  match c with
  | Inside p q l => run p s1 = (let '(s', l', r) := run q s in (s', l ++ l', r))
  | _ => True
  end.

Definition caller_allowed (c : caller) : Prop :=
  match c with Outside p | Inside p _ _ => allowed p | Returned _ => True end.

Definition scene_ok (s0 : S) (w : scene) : Prop :=
  exists s1, in_turn s0 (history w) s1 /\ (mutex w = None -> store w = s1) /\
    (forall n c, callers w !! n = Some c -> inside c = true -> mutex w = Some n) /\
    (forall n c, callers w !! n = Some c -> caller_ok s1 (store w) c) /\
    (forall n r, callers w !! n = Some (Returned r) -> exists p l,
       {| cm_caller := n; cm_whole := p; cm_made := l; cm_result := r |} ∈ history w) /\
    (forall n c, callers w !! n = Some c -> caller_allowed c) /\ (forall m, m ∈ history w -> allowed (cm_whole m)).

(** A step of caller [n], the only one that may be inside. *)
Lemma scene_update s0 w n c c' (v' : option nat) s' h' s1' :
  scene_ok s0 w -> callers w !! n = Some c -> (mutex w = None \/ mutex w = Some n) ->
  in_turn s0 (history w ++ h') s1' -> (v' = None -> s' = s1') -> (inside c' = true -> v' = Some n) ->
  caller_ok s1' s' c' ->
  (forall r, c' = Returned r -> exists p l, {| cm_caller := n; cm_whole := p; cm_made := l; cm_result := r |} ∈ h') ->
  caller_allowed c' -> (forall m, m ∈ h' -> allowed (cm_whole m)) ->
  scene_ok s0 {| mutex := v'; store := s'; callers := <[n := c']> (callers w); history := history w ++ h' |}.
Proof.
  intros (s1 & _ & _ & Hin & Hok & Hret & Hcs & Hh) Hn Hv Ht Hs Hi Hc Hr Hc' Hh'. exists s1'. cbn.
  assert (Hout : forall m u, m <> n -> callers w !! m = Some u -> inside u = false).
  { intros m u Hmn Hm. destruct (inside u) eqn:E; [| done]. specialize (Hin m u Hm E). destruct Hv; congruence. }
  split_and!; [done | done | ..].
  - intros m u [(<- & <- & _) | [Hmn Hm]]%list_lookup_insert_Some Hu; [by apply Hi |].
    rewrite (Hout m u) in Hu; done.
  - intros m u [(<- & <- & _) | [Hmn Hm]]%list_lookup_insert_Some; [done |].
    specialize (Hout m u ltac:(done) Hm). by destruct u.
  - intros m r [(<- & -> & _) | [Hmn Hm]]%list_lookup_insert_Some.
    + destruct (Hr r eq_refl) as (p & l & H). exists p, l. apply elem_of_app. by right.
    + destruct (Hret m r Hm) as (p & l & H). exists p, l. apply elem_of_app. by left.
  - intros m u [(<- & <- & _) | [Hmn Hm]]%list_lookup_insert_Some; [done | by apply (Hcs m)].
  - intros m [Hm | Hm]%elem_of_app; auto.
Qed.

Lemma scene_ok_call s0 w p :
  allowed p -> scene_ok s0 w ->
  scene_ok s0 {| mutex := mutex w; store := store w; callers := callers w ++ [Outside p]; history := history w |}.
Proof.
  intros Ha (s1 & Ht & Hs & Hin & Hok & Hret & Hcs & Hh). exists s1. cbn. split_and!; [done | done | .. | done].
  all: intros n c [Hn | [_ Hn]]%lookup_app_Some;
    [eauto | apply list_lookup_singleton_Some in Hn as [_ Hn]; subst; done || (intros; done)].
Qed.

Lemma scene_ok_step s0 w w' : scene_step w w' -> scene_ok s0 w -> scene_ok s0 w'.
Proof.
  intros Hst Hw. pose proof Hw as (s1 & Ht & Hs & Hin & Hok & _ & Hcs & _).
  assert (Hnil : forall m : commit, m ∈ [] -> allowed (cm_whole m)) by (intros m Hm; by apply elem_of_nil in Hm).
  destruct Hst as [v s cs h p Ha | n s cs h p Hn | n v s cs h p Y m k l s' l' r Hn Hm | n v s cs h p r l Hn]; cbn in *;
    [exact (scene_ok_call s0 _ p Ha Hw) | ..]; specialize (Hok n _ Hn); specialize (Hcs n _ Hn); cbn in Hok, Hcs.
  - rewrite <- (app_nil_r h). eapply (scene_update s0 _ n _ _ _ _ [] s1 Hw Hn); cbn; rewrite ?app_nil_r; auto; try done.
    rewrite (Hs eq_refl). by destruct (run p s1) as [[? ?] ?].
  - assert (v = Some n) as -> by exact (Hin n _ Hn eq_refl).
    rewrite <- (app_nil_r h). eapply (scene_update s0 _ n _ _ _ _ [] s1 Hw Hn); cbn; rewrite ?app_nil_r; auto; try done.
    rewrite Hok, Hm. destruct (run (k r) s') as [[? ?] ?]. by rewrite app_assoc.
  - assert (v = Some n) as -> by exact (Hin n _ Hn eq_refl).
    unfold pure in Hok. rewrite app_nil_r in Hok.
    eapply (scene_update s0 _ n _ _ _ _ _ s Hw Hn); cbn; auto; try done.
    + by eapply InTurnSnoc.
    + intros r' [= <-]. exists p, l. constructor.
    + by intros m ->%list_elem_of_singleton.
Qed.

Lemma scene_ok_reachable s w : rtc scene_step (scene_start s) w -> scene_ok s w.
Proof.
  intros Hw. assert (H0 : scene_ok s (scene_start s)) by (exists s; split_and!; try done; [constructor | by intros m ?%elem_of_nil]).
  induction Hw as [| w0 w1 w2 Hst _ IH]; [done |]. by apply IH, (scene_ok_step s w0).
Qed.
End Mutex.

(** ** A variable the mutex guards

    [T] is a variable of the Go object beside the state [S]. *)
Section Guarded.
Context {S T L : Type}.

(** A system call; the variable read, and changed. *)
Definition lift {X} (m : logged S L X) : logged (S * T) L X := fun '(s, t) =>
  let '(s, l, r) := m s in ((s, t), l, r).
Definition load : logged (S * T) L T := fun '(s, t) => ((s, t), [], Ret t).
Definition change (f : T -> T) : logged (S * T) L unit := fun '(s, t) => ((s, f t), [], Ret tt).

(** A method that takes the variable and returns it changed, when it
    succeeds. *)
Definition method (f : T -> logged S L T) : logged (S * T) L unit := fun '(s, t) =>
  let '(s, l, r) := f t s in
  match r with
  | Ret t' => ((s, t'), l, Ret tt)
  | Err e => ((s, t), l, Err e)
  | Panic => ((s, t), l, Panic)
  end.

Lemma run_lift {X} (m : logged S L X) s t : run (call (lift m)) (s, t) = lift m (s, t).
Proof. apply run_call. Qed.
End Guarded.

Lemma pair_app_nil {A B C} (a : A) (l : list B) (c : C) : (a, l ++ [], c) = (a, l, c).
Proof. by rewrite app_nil_r. Qed.
