(* ===== verification/OptionLock.v ===== *)
(** * The option lock (src/options_linux.go)

    SetPathThresholds reads the thresholds of a path, merges its argument
    and writes them back; SetPathParams writes one of the same values.  Both
    do so under optMu.  The theorem: however many of these calls run at the
    same time, they are the calls of ConnOptions.v one after the other, so
    no change is lost. *)
From Stdlib Require Import ZArith Lia Bool.
From stdpp Require Import base list option strings relations.
From coqutil Require Import Byte.
From S2P Require Import Prelude Abi Errors Netip Sockaddr Options OptionCodecs Config Recv Addr Sys ConnOptions Mutex.

(** ** The two methods under optMu *)
Section Options.
Context `{A : Arch} `{ZE : ZoneEnv} `{K : Kernel} `{CS : ClosingSentinel}.
#[local] Abbreviation locked := (critical proc done).

(** readThresholds, one system call at a time. *)
Definition readThresholds_locked (c : Conn) (addr : bytes) : locked thresholdValues :=
  l ← call storageLayout;
  b ← Leave (pathThresholds l (zeros sizePathThresholdsKernel64) (assoc c) addr
               {| tv_maxRetrans := 0; tv_pf := 0; tv_switchover := 0 |});
  '(b, _) ← call (getsockopt optPathThresholds b);
  Leave (read_thresholdValues l b).

(** SetPathThresholds between c.optMu.Lock() and its Unlock. *)
Definition SetPathThresholds_locked (c : Conn) (addr : bytes) (t : PathThresholds) : locked unit :=
  cur ← with_error (callError c "set" "getsockopt") (readThresholds_locked c addr);
  v ← with_error (argError c "set") (Leave (mergePathThresholds cur t "PathThresholds"));
  l ← with_error (callError c "set" "getsockopt") (call storageLayout);
  b ← Leave (pathThresholds l (zeros sizePathThresholdsKernel64) (assoc c) addr v);
  call (setOpt c optPathThresholds b).

(** SetPathParams between c.optMu.Lock() and its Unlock. *)
Definition SetPathParams_locked (c : Conn) (b : bytes) : locked unit := call (setOpt c optPeerAddrParams b).

Inductive option_call :=
| CallSetPathThresholds (path : Addr) (t : PathThresholds)
| CallSetPathParams (path : Addr) (p : PathParams).

Definition perform_call (c : Conn) (q : option_call) : sys unit :=
  match q with
  | CallSetPathThresholds path t => SetPathThresholds c path (Some t)
  | CallSetPathParams path p => SetPathParams c path (Some p)
  end.

(** What a call does under the lock; [None] when it is refused before. *)
Definition section_of (c : Conn) (q : option_call) : option (locked unit) :=
  if negb (c_opened c) then None else
  match q with
  | CallSetPathThresholds path t =>
      if bool_decide (pt_PathMaxRetrans t = Some 0) then None else
      match path_bytes c "SetPathThresholds" path with
      | Ret addr => Some (SetPathThresholds_locked c addr t)
      | _ => None
      end
  | CallSetPathParams path p =>
      match path_bytes c "SetPathParams" path with
      | Ret addr =>
          match encodePathParams (zeros sizePathParams) (assoc c) addr p "PathParams" with
          | Ret b => Some (SetPathParams_locked c b)
          | _ => None
          end
      | _ => None
      end
  end.

Definition option_section (c : Conn) (p : locked unit) : Prop := exists q, section_of c q = Some p.

Lemma checked_ret {X Y} c op (r : out error X) x (k : X -> sys Y) s :
  r = Ret x -> (checked c op r ≫= k) s = k x s.
Proof. intros ->. unfold checked, wrapped, caught, mbind, sys_bind, pure. cbn. by destruct (k x s) as [[? ?] ?]. Qed.

Lemma run_readThresholds c addr s : run (readThresholds_locked c addr) s = readThresholds c addr s.
Proof.
  unfold readThresholds_locked, readThresholds. rewrite run_sequence. apply bind_ext; [apply run_call |]. intros l s1.
  rewrite run_sequence. apply bind_ext; [done |]. intros b s2.
  rewrite run_sequence. apply bind_ext; [apply run_call |]. by intros [b' n] s3.
Qed.

Lemma run_SetPathThresholds c addr t s :
  run (SetPathThresholds_locked c addr t) s =
  (cur ← wrapped (callError c "set" "getsockopt") (readThresholds c addr);
   v ← checked c "set" (mergePathThresholds cur t "PathThresholds");
   l ← wrapped (callError c "set" "getsockopt") storageLayout;
   b ← pure (pathThresholds l (zeros sizePathThresholdsKernel64) (assoc c) addr v);
   setOpt c optPathThresholds b) s.
Proof.
  unfold SetPathThresholds_locked. rewrite run_sequence. apply bind_ext.
  { rewrite run_with_error. apply wrapped_ext, run_readThresholds. }
  intros cur s1. rewrite run_sequence. apply bind_ext; [by rewrite run_with_error |]. intros v s2.
  rewrite run_sequence. apply bind_ext; [rewrite run_with_error; apply wrapped_ext, run_call |]. intros l s3.
  rewrite run_sequence. apply bind_ext; [done |]. intros b s4. apply run_call.
Qed.

(** The part of each method under the lock is the method. *)
Lemma section_performs c q p s : section_of c q = Some p -> run p s = perform_call c q s.
Proof.
  unfold section_of. destruct (c_opened c) eqn:Ho; [| done]. cbn [negb]. destruct q as [path t | path v]; cbn [perform_call].
  - case_bool_decide as Hz; [done |]. destruct (path_bytes c _ path) as [addr | |] eqn:Ha; [| done..]. intros [= <-].
    rewrite run_SetPathThresholds. unfold SetPathThresholds, if_open. rewrite Ho. cbn [negb].
    rewrite (checked_ret _ _ _ t) by done. rewrite (checked_ret _ _ _ tt) by (destruct (pt_PathMaxRetrans t) as [[] |]; done).
    by rewrite (checked_ret _ _ _ addr).
  - destruct (path_bytes c _ path) as [addr | |] eqn:Ha; [| done..].
    destruct (encodePathParams _ _ _ _ _) as [b | |] eqn:Hb; [| done..]. intros [= <-].
    unfold SetPathParams_locked. rewrite run_call. unfold SetPathParams, if_open. rewrite Ho. cbn [negb].
    rewrite (checked_ret _ _ _ v), (checked_ret _ _ _ addr) by done. by rewrite (checked_ret _ _ _ b).
Qed.

(** C34 No change of the path settings is lost: with any number of
    SetPathThresholds and SetPathParams calls running on one Conn, every
    system call a step of its own, in every interleaving that optMu allows
    the calls that have returned are, in the order they released it, the
    methods one after the other, each with its own system calls and result;
    and while the mutex is free the kernel is in the state they leave.  So a
    SetPathThresholds never writes back a value that another call has
    changed since it read it. *)
Theorem options_serial c s w (Hw : rtc (scene_step (option_section c)) (scene_start s) w) :
  (exists s1, in_turn s (history w) s1 /\ (mutex w = None -> store w = s1)) /\
  (forall m, m ∈ history w -> exists q, forall s, run (cm_whole m) s = perform_call c q s) /\
  (forall n r, callers w !! n = Some (Returned r) -> exists p l,
     {| cm_caller := n; cm_whole := p; cm_made := l; cm_result := r |} ∈ history w) /\
  (forall n u, callers w !! n = Some u -> inside u = true -> mutex w = Some n).
Proof.
  destruct (scene_ok_reachable _ s w Hw) as (s1 & Ht & Hs & Hin & _ & Hr & _ & Hh).
  split; [by exists s1 |]. split_and!; [| done | done].
  intros m Hm. destruct (Hh m Hm) as [q Hq]. exists q. intros s2. by apply section_performs.
Qed.
End Options.

(** ** An execution: two calls at the same time *)
Section Play.
Context `{A : Arch} `{ZE : ZoneEnv} `{K : Kernel} `{CS : ClosingSentinel}.

(** A call begins, or caller [n] takes its next step. *)
Inductive move := Begin (q : option_call) | Go (n : nat).

Definition play_move (c : Conn) (w : scene) (m : move) : option scene :=
  match m with
  | Begin q =>
      match section_of c q with
      | Some p => Some {| mutex := mutex w; store := store w; callers := callers w ++ [Outside p]; history := history w |}
      | None => None
      end
  | Go n =>
      match callers w !! n with
      | Some (Outside p) =>
          match mutex w with
          | Some _ => None
          | None => Some {| mutex := Some n; store := store w; callers := <[n := Inside p p []]> (callers w); history := history w |}
          end
      | Some (Inside p (Step m k) l) =>
          let '(s, l', r) := m (store w) in
          Some {| mutex := mutex w; store := s; callers := <[n := Inside p (k r) (l ++ l')]> (callers w); history := history w |}
      | Some (Inside p (Leave r) l) =>
          Some {| mutex := None; store := store w; callers := <[n := Returned r]> (callers w);
                  history := history w ++ [{| cm_caller := n; cm_whole := p; cm_made := l; cm_result := r |}] |}
      | _ => None
      end
  end.

Lemma option_move_step c w m w' : play_move c w m = Some w' -> scene_step (option_section c) w w'.
Proof.
  destruct w as [v s cs h], m as [q | n]; cbn.
  - destruct (section_of c q) as [p |] eqn:E; [| done]. intros [= <-]. constructor. by exists q.
  - destruct (cs !! n) as [[p | p [r | Y m k] l | r] |] eqn:Hn; try done.
    + destruct v; [done |]. intros [= <-]. by constructor.
    + intros [= <-]. by constructor.
    + destruct (m s) as [[s' l'] r] eqn:Hm. intros [= <-]. by econstructor.
Qed.

Fixpoint play (c : Conn) (w : scene) (ms : list move) : scene :=
  match ms with
  | [] => w
  | m :: ms => match play_move c w m with Some w => play c w ms | None => w end
  end.

Lemma option_play_reachable c ms : forall w, rtc (scene_step (option_section c)) w (play c w ms).
Proof.
  induction ms as [| m ms IH]; intros w; cbn; [done |]. destruct (play_move c w m) as [w1 |] eqn:E; [| done].
  eapply rtc_l; [by eapply option_move_step | apply IH].
Qed.
End Play.

(** One call sets the PF threshold while another sets the limit of
    retransmissions. *)
Section Demo.
#[local] Existing Instances struct_kernel go_runtime amd64.
#[local] Instance demo_zones : ZoneEnv := host_zones.

Definition only_max : PathThresholds := {| pt_PathMaxRetrans := Some 7; pt_PFThreshold := None; pt_PrimarySwitchover := None |}.

Definition both_moves : list move :=
  [Begin (CallSetPathThresholds IPv4Unspecified only_pf); Begin (CallSetPathThresholds IPv4Unspecified only_max)] ++
  replicate 6 (Go 1) ++ replicate 6 (Go 0).

Definition both_scene : scene := play open_conn (scene_start kept_state) both_moves.

(** Both changes are there. *)
Example both_kept :
  read_thresholdValues nativeStorageLayout (kern (store both_scene)) =
    Ret {| tv_maxRetrans := 7; tv_pf := 4; tv_switchover := 65535 |} /\
  mutex both_scene = None /\ cm_result <$> history both_scene = [Ret tt; Ret tt].
Proof. vm_compute. done. Qed.

Lemma options_serial_witness :
  exists s1, in_turn kept_state (history both_scene) s1 /\ store both_scene = s1.
Proof.
  destruct (options_serial open_conn kept_state both_scene (option_play_reachable open_conn both_moves (scene_start kept_state)))
    as [(s1 & Ht & Hs) _].
  exists s1. split; [exact Ht |]. apply Hs. vm_compute. reflexivity.
Defined.
End Demo.
