(* ===== verification/Send.v ===== *)
(** * The send path (src/send_linux.go)

    sendState: the storage every send of a descriptor shares under the send
    lock, and the write deadline, which the caller, a context that is done
    and a local shutdown all move.

    A send is a thread with a program counter, and [exec] is one atomic step
    of it: taking the send lock, one critical section of deadlineMu, one
    sendmsg under the latch mutex, one wait of the poller.  The callback
    that context.AfterFunc starts is a goroutine of its own ([reg]), and the
    calls of setDeadline and wakeShutdown, the passing of time and the end
    of a context can come between any two steps.  What the kernel answers is
    an input of a step.

    [SendMsg] and its checks come first; they need no lock.

    The theorems hold for every interleaving: a message given to the
    kernel is the one its own caller gave, completed with the descriptor's
    defaults, and is queued once; the result says whether it was queued;
    the write deadline is the caller's own again after every send, and is
    moved only while one is in progress; an interrupted send reports what
    came first; and no wake-up of a waiting send is lost. *)
From Stdlib Require Import ZArith Lia Bool.
From stdpp Require Import base list option strings gmap relations.
From coqutil Require Import Byte.
From S2P Require Import Prelude Abi Errors Enums Netip Sockaddr Options MsgInfo Config Term Recv Sys Apply ConnOptions.

Definition ESHUTDOWN : Z := 108.
Definition EADDRNOTAVAIL : Z := 99.
Definition EMSGSIZE : Z := 90.

(** ** A send before the lock

    [kindZero] is the kind of a Conn the package never opened. *)
Inductive connKind := kindZero | kindDialed | kindAccepted | kindPeeled | kindAdopted.

#[global] Instance connKind_eq_dec : EqDecision connKind.
Proof. solve_decision. Defined.

(** noContext, a context that is never done (Done returns nil), and one
    that may be. *)
Inductive context := noContext | Background | Ctx (c : nat).

(** What SendMsg hands to send. *)
Record arguments := {
  a_ctx : context;
  a_b : bytes;
  a_opts : SendOptions;
  a_name : bytes;
  a_assoc : Z;
}.

Section Checks.
Context `{A : Arch} `{ZE : ZoneEnv} `{CS : ClosingSentinel}.

(** [pagesize] is os.Getpagesize(). *)
Definition maxSendSize (pagesize : Z) : Z := andnot MaxInt32 (pagesize - 1).

Definition checkSendSize (pagesize n : Z) : option error :=
  if n <=? 0 then Some (invalidArg "a send needs a message of at least one byte")
  else if maxSendSize pagesize <? n then Some (Plain (Errno EMSGSIZE))
  else None.

Definition writeError (c : Conn) (err : error) : option error :=
  opError "write" (network c) (c_local (base c)) (c_remote (base c)) (Some err).

(** The encoded destination, empty without one. *)
Definition checkSend (pagesize : Z) (kind : connKind) (c : Conn) (b : bytes) (opts : SendOptions) : out error bytes :=
  match checkSendSize pagesize (len b) with
  | Some e => Err e
  | None =>
      match validateSendOptions opts with
      | Some e => Err e
      | None =>
          if negb (IsValid (so_Path opts)) then Ret []
          else if bool_decide (kind = kindPeeled) then
            Err (invalidArg "SendOptions.Path is set on a connection peeled off an Endpoint, whose sends Linux never directs (net/sctp/socket.c: sctp_sendmsg_get_daddr ignores msg_name there)")
          else
            match encodePathAddr (zeros sizeSockaddrIn6) (family c) (so_Path opts) (peerPort c) (pathScope c) with
            | Err e => Err (invalidArg ("SendOptions.Path: " +:+ trim_sctp e))
            | Panic => Panic
            | Ret (name, n) => if assoc c =? 0 then Ret [] else slice name 0 n
            end
      end
  end.

(** sendMsg up to the call of send: the arguments it passes, or the error
    it returns.  [t] is the latch. *)
Definition sendMsg (pagesize : Z) (kind : connKind) (c : Conn) (t : termState) (ctx : context) (b : bytes)
    (opts : SendOptions) : out error arguments :=
  let refuse err := match writeError c err with Some e => Err e | None => Panic end in
  if negb (c_opened c) then refuse (Plain NetErrClosed) else
  match checkSend pagesize kind c b opts with
  | Err e => refuse e
  | Panic => Panic
  | Ret name =>
      match latched t with
      | Some e => refuse e
      | None => Ret {| a_ctx := ctx; a_b := b; a_opts := opts; a_name := name; a_assoc := 0 |}
      end
  end.

Definition SendMsg (pagesize : Z) (kind : connKind) (c : Conn) (t : termState) (b : bytes) (opts : SendOptions) :=
  sendMsg pagesize kind c t noContext b opts.

(** [ctx] is nil, or a context with its Err() on entry. *)
Definition SendMsgContext (pagesize : Z) (kind : connKind) (c : Conn) (t : termState) (ctx : option (context * option error))
    (b : bytes) (opts : SendOptions) : out error arguments :=
  let refuse err := match writeError c err with Some e => Err e | None => Panic end in
  match ctx with
  | None => refuse (invalidArg "SendMsgContext needs a non-nil context")
  | Some (_, Some e) => refuse e
  | Some (ctx, None) => sendMsg pagesize kind c t ctx b opts
  end.

Definition zeroSendOptions : SendOptions := {|
  so_Info := None; so_PR := None; so_AuthKey := None; so_Path := AddrZero; so_More := false; so_NoWait := false |}.

Definition Write (pagesize : Z) (kind : connKind) (c : Conn) (t : termState) (b : bytes) :=
  SendMsg pagesize kind c t b zeroSendOptions.

(** sendMsg's results from send's. *)
Definition sendMsg_result (c : Conn) (n : Z) (err : option error) : Z * option error :=
  (n, match err with Some e => writeError c e | None => None end).
End Checks.

(** ** The shared state *)

(** The message of a sendmsg(2) call. *)
Record message := { m_iov : bytes; m_control : bytes; m_name : option bytes; m_flags : Z }.

(** The storage of one send: cbuf, msg and iov, and the fields that carry
    the send into attempt and its result back out.  [controllen] is 0 for a
    nil Control, [iov] is [None] for a nil Base. *)
Record storage := {
  cbuf : bytes;
  controllen : Z;
  iov : option bytes;
  name : option bytes;
  flags : Z;
  wait : bool;
  n : Z;
  err : option error;
}.

(** The fields deadlineMu guards; a zero time.Time is [None]. *)
Record deadlines := {
  callerDeadline : option Z;
  callerCrossed : bool;
  callerFirst : bool;
  parked : bool;
  shutdownWake : bool;
  interrupted : bool;
}.

(** [owner] is the send that holds mu; [stop] the registration of the
    context callback, an index into [regs]; [interruptDone] counts the
    values in the channel. *)
Record sendState := {
  owner : option nat;
  defSnd : SndInfo;
  defPR : PrInfo;
  explicit : bool;
  st : storage;
  dl : deadlines;
  slow : bool;
  s_ctx : context;
  stop : option nat;
  interruptDone : nat;
  term : option termState;
}.

(** A callback registered with context.AfterFunc: not started, before its
    critical section, before its channel send, done with its value in the
    channel, and over (stopped, or its value received). *)
Inductive reg := Registered (c : nat) | Running (c : nat) | Sending (c : nat) | Sent (c : nat) | Over.

(** A call a send made to the kernel: sendmsg(2) with its message and the
    answer, the bytes taken or an errno, and the status query of
    assocEnded; [j] is the send, and [d] the descriptor's defaults at the
    time. *)
Inductive event :=
| Sendmsg (j : nat) (d : SndInfo * PrInfo) (m : message) (r : Z + Z)
| Ended (j : nat) (r : bytes + Z).

(** The rest of the world: the clock, the descriptor's deadlines (the write
    one is what the poller goes by), the contexts that are done, the
    callbacks, and what became of the association.

    The last four fields are history that no code reads: the calls made to
    the kernel, first call first; the defaults the descriptor was last given,
    when it was made or by SetDefaultSndInfo and SetDefaultPrInfo since;
    whether a write deadline the caller set has passed since the send in
    progress began to watch, and what that was when the send was last
    woken. *)
Record host := {
  now : Z;
  fdWrite : option Z;
  fdRead : option Z;
  file_open : bool;
  ctx_err : gmap nat error;
  regs : list reg;
  moved : bool;
  woken : bool;
  gone : bool;
  log : list event;
  chosen : SndInfo * PrInfo;
  crossing : bool;
  at_wake : bool;
}.

(** The messages the kernel accepted, each with the send it came from. *)
Definition accepted (e : event) : option (nat * message * Z) :=
  match e with Sendmsg j _ m (inl k) => Some (j, m, k) | _ => None end.
Definition wire (h : host) : list (nat * message * Z) := omap accepted (log h).

(** *** Setters *)
Definition set_dl (s : sendState) (d : deadlines) : sendState := {|
  owner := owner s; defSnd := defSnd s; defPR := defPR s; explicit := explicit s; st := st s; dl := d;
  slow := slow s; s_ctx := s_ctx s; stop := stop s; interruptDone := interruptDone s; term := term s |}.
Definition set_st (s : sendState) (x : storage) : sendState := {|
  owner := owner s; defSnd := defSnd s; defPR := defPR s; explicit := explicit s; st := x; dl := dl s;
  slow := slow s; s_ctx := s_ctx s; stop := stop s; interruptDone := interruptDone s; term := term s |}.
Definition set_owner (s : sendState) (o : option nat) : sendState := {|
  owner := o; defSnd := defSnd s; defPR := defPR s; explicit := explicit s; st := st s; dl := dl s;
  slow := slow s; s_ctx := s_ctx s; stop := stop s; interruptDone := interruptDone s; term := term s |}.
Definition set_slow (s : sendState) (b : bool) : sendState := {|
  owner := owner s; defSnd := defSnd s; defPR := defPR s; explicit := explicit s; st := st s; dl := dl s;
  slow := b; s_ctx := s_ctx s; stop := stop s; interruptDone := interruptDone s; term := term s |}.
Definition set_ctx (s : sendState) (c : context) (r : option nat) : sendState := {|
  owner := owner s; defSnd := defSnd s; defPR := defPR s; explicit := explicit s; st := st s; dl := dl s;
  slow := slow s; s_ctx := c; stop := r; interruptDone := interruptDone s; term := term s |}.
Definition set_tokens (s : sendState) (k : nat) : sendState := {|
  owner := owner s; defSnd := defSnd s; defPR := defPR s; explicit := explicit s; st := st s; dl := dl s;
  slow := slow s; s_ctx := s_ctx s; stop := stop s; interruptDone := k; term := term s |}.
Definition set_latch (s : sendState) (t : option termState) : sendState := {|
  owner := owner s; defSnd := defSnd s; defPR := defPR s; explicit := explicit s; st := st s; dl := dl s;
  slow := slow s; s_ctx := s_ctx s; stop := stop s; interruptDone := interruptDone s; term := t |}.
Definition set_defaults (s : sendState) (i : SndInfo) (p : PrInfo) : sendState := {|
  owner := owner s; defSnd := i; defPR := p; explicit := explicit s; st := st s; dl := dl s;
  slow := slow s; s_ctx := s_ctx s; stop := stop s; interruptDone := interruptDone s; term := term s |}.

Definition set_result (x : storage) (k : Z) (e : option error) : storage := {|
  cbuf := cbuf x; controllen := controllen x; iov := iov x; name := name x; flags := flags x; wait := wait x; n := k; err := e |}.
Definition set_name (x : storage) (nm : option bytes) : storage := {|
  cbuf := cbuf x; controllen := controllen x; iov := iov x; name := nm; flags := flags x; wait := wait x; n := n x; err := err x |}.

Definition set_fds (h : host) (w r : option Z) : host := {|
  now := now h; fdWrite := w; fdRead := r; file_open := file_open h; ctx_err := ctx_err h; regs := regs h;
  moved := moved h; woken := woken h; gone := gone h; log := log h; chosen := chosen h; crossing := crossing h; at_wake := at_wake h |}.
Definition set_regs (h : host) (l : list reg) : host := {|
  now := now h; fdWrite := fdWrite h; fdRead := fdRead h; file_open := file_open h; ctx_err := ctx_err h; regs := l;
  moved := moved h; woken := woken h; gone := gone h; log := log h; chosen := chosen h; crossing := crossing h; at_wake := at_wake h |}.
Definition set_log (h : host) (l : list event) : host := {|
  now := now h; fdWrite := fdWrite h; fdRead := fdRead h; file_open := file_open h; ctx_err := ctx_err h; regs := regs h;
  moved := moved h; woken := woken h; gone := gone h; log := l; chosen := chosen h; crossing := crossing h; at_wake := at_wake h |}.
Definition set_history (h : host) (c a : bool) : host := {|
  now := now h; fdWrite := fdWrite h; fdRead := fdRead h; file_open := file_open h; ctx_err := ctx_err h; regs := regs h;
  moved := moved h; woken := woken h; gone := gone h; log := log h; chosen := chosen h; crossing := c; at_wake := a |}.
Definition choose (h : host) (d : SndInfo * PrInfo) : host := {|
  now := now h; fdWrite := fdWrite h; fdRead := fdRead h; file_open := file_open h; ctx_err := ctx_err h; regs := regs h;
  moved := moved h; woken := woken h; gone := gone h; log := log h; chosen := d; crossing := crossing h; at_wake := at_wake h |}.
Definition set_assoc (h : host) (m w g : bool) : host := {|
  now := now h; fdWrite := fdWrite h; fdRead := fdRead h; file_open := file_open h; ctx_err := ctx_err h; regs := regs h;
  moved := m; woken := w; gone := g; log := log h; chosen := chosen h; crossing := crossing h; at_wake := at_wake h |}.

(** ** Deadlines *)

(** [!t.IsZero() && !t.After(time.Now())] *)
Definition expired (t : option Z) (now : Z) : bool := match t with Some t => t <=? now | None => false end.

(** time.Unix(1, 0), in nanoseconds. *)
Definition aLongTimeAgo : Z := 1000000000.

(** os.File.SetWriteDeadline, SetReadDeadline and SetDeadline. *)
Definition setWriteDeadline (h : host) (t : option Z) : host * option error :=
  if file_open h then (set_fds h t (fdRead h), None) else (h, Some (Plain ErrFileClosing)).
Definition setReadDeadline (h : host) (t : option Z) : host * option error :=
  if file_open h then (set_fds h (fdWrite h) t, None) else (h, Some (Plain ErrFileClosing)).
Definition setBothDeadlines (h : host) (t : option Z) : host * option error :=
  if file_open h then (set_fds h t t, None) else (h, Some (Plain ErrFileClosing)).

Definition set_crossed (d : deadlines) (b : bool) : deadlines := {|
  callerDeadline := callerDeadline d; callerCrossed := b; callerFirst := callerFirst d; parked := parked d;
  shutdownWake := shutdownWake d; interrupted := interrupted d |}.
Definition set_parked (d : deadlines) (b : bool) : deadlines := {|
  callerDeadline := callerDeadline d; callerCrossed := callerCrossed d; callerFirst := callerFirst d; parked := b;
  shutdownWake := shutdownWake d; interrupted := interrupted d |}.
Definition set_wakes (d : deadlines) (first sw i : bool) : deadlines := {|
  callerDeadline := callerDeadline d; callerCrossed := callerCrossed d; callerFirst := first; parked := parked d;
  shutdownWake := sw; interrupted := i |}.

Definition crossed_first (d : deadlines) (now : Z) : bool := callerCrossed d || expired (callerDeadline d) now.

(** The critical section of interrupt. *)
Definition interrupt (d : deadlines) (h : host) : deadlines * host :=
  if negb (shutdownWake d) then
    (set_wakes d (crossed_first d (now h)) (shutdownWake d) true,
     set_history (fst (setWriteDeadline h (Some aLongTimeAgo))) (crossing h) (crossing h))
  else (d, h).

Definition wakeShutdown (d : deadlines) (h : host) : deadlines * host :=
  if parked d && negb (interrupted d) && negb (shutdownWake d) then
    (set_wakes d (crossed_first d (now h)) true (interrupted d),
     set_history (fst (setWriteDeadline h (Some aLongTimeAgo))) (crossing h) (crossing h))
  else (d, h).

Inductive mode := mode_r | mode_w | mode_b.

Definition setDeadline (d : deadlines) (h : host) (t : option Z) (m : mode) : deadlines * host * option error :=
  match m with
  | mode_r => let '(h, e) := setReadDeadline h t in (d, h, e)
  | _ =>
      let d := {| callerDeadline := t;
                  callerCrossed := if expired (callerDeadline d) (now h) then true else callerCrossed d;
                  callerFirst := callerFirst d; parked := parked d; shutdownWake := shutdownWake d;
                  interrupted := interrupted d |} in
      let '(h, e) :=
        if interrupted d || shutdownWake d then
          match m with mode_b => setReadDeadline h t | _ => (h, None) end
        else match m with mode_b => setBothDeadlines h t | _ => setWriteDeadline h t end in
      (d, set_history h (crossing h || expired t (now h)) (at_wake h), e)
  end.

(** ** One send *)
Section Send.
Context `{A : Arch}.

(** encode: the bytes of cbuf after it, and their length. *)
Definition encode (s : sendState) (opts : SendOptions) (assoc : Z) : out error (bytes * Z) :=
  let '(snd, pr) :=
    if explicit s || bool_decide (so_Info opts <> None) || bool_decide (so_PR opts <> None) then
      (Some (default (defSnd s) (so_Info opts)),
       match so_PR opts with
       | Some pr => Some pr
       | None => if negb (pr_Policy (defPR s) =? PRNone) then Some (defPR s) else None
       end)
    else (None, None) in
  appendSendCmsgs 0 (cbuf (st s)) snd assoc pr (so_AuthKey opts).

Definition MSG_DONTWAIT : Z := 0x40.
Definition MSG_NOSIGNAL : Z := 0x4000.
Definition MSG_MORE : Z := 0x8000.
Definition sendFlags : Z := Z.lor MSG_DONTWAIT MSG_NOSIGNAL.

(** send's preparation of msg. *)
Definition fill (s : sendState) (a : arguments) : out error storage :=
  match encode s (a_opts a) (a_assoc a) with
  | Ret (buf, k) =>
      Ret {| cbuf := buf; controllen := if 0 <? k then k else 0; iov := Some (a_b a);
             name := if 0 <? len (a_name a) then Some (a_name a) else None;
             flags := if so_More (a_opts a) then Z.lor sendFlags MSG_MORE else sendFlags;
             wait := negb (so_NoWait (a_opts a)); n := n (st s); err := err (st s) |}
  | Err e => Err e
  | Panic => Panic
  end.

(** The message sendmsg passes to the kernel. *)
Definition message_of (x : storage) : message := {|
  m_iov := default [] (iov x); m_control := take (Z.to_nat (controllen x)) (cbuf x);
  m_name := name x; m_flags := flags x |}.

(** A kernel answer to getsockopt(SCTP_STATUS): the struct, or an errno. *)
Definition status_answer : Type := bytes + Z.

Definition state_in (b : bytes) : Z := i32 (uint_of NativeEndian (sub b statusStateOff 4)).

Definition assocShuttingDown (r : status_answer) : bool :=
  match r with inl b => StateShutdownPending <=? state_in b | inr _ => false end.

Definition assocEnded (r : status_answer) : bool :=
  match r with inl b => state_in b =? StateClosed | inr errno => errno =? EINVAL end.

(** What the environment decides in one step: the answers to a sendmsg, to
    the one made again without a destination and to a status query; whether
    the poller reports the descriptor writable; and whether LockContext
    gives up when it could. *)
Record input := {
  in_send : Z + Z;
  in_resend : Z + Z;
  in_status : status_answer;
  in_ready : bool;
  in_cancel : bool;
}.

(** sendmsg: the kernel takes the message, or refuses it. *)
Definition sendmsg (j : nat) (x : storage) (h : host) (answer : Z + Z) : host * Z * option error :=
  let h := set_log h (log h ++ [Sendmsg j (chosen h) (message_of x) answer]) in
  match answer with
  | inl k => (h, k, None)
  | inr errno => (h, 0, Some (Plain (Errno errno)))
  end.

Definition sendOnce (j : nat) (s : sendState) (h : host) (i : input) : sendState * host * Z * option error :=
  match term s with
  | None => let '(h, k, e) := sendmsg j (st s) h (in_send i) in (s, h, k, e)
  | Some t =>
      match t_err t with
      | Some e => (s, h, 0, Some e)
      | None =>
          let '(h, k, e) := sendmsg j (st s) h (in_send i) in
          let '(s, h, k, e) :=
            if err_is e (Errno EADDRNOTAVAIL) && bool_decide (name (st s) <> None) then
              let h := set_log h (log h ++ [Ended j (in_status i)]) in
              if assocEnded (in_status i) then
                let s := set_st s (set_name (st s) None) in
                let '(h, k, e) := sendmsg j (st s) h (in_resend i) in (s, h, k, e)
              else (s, h, k, e)
            else (s, h, k, e) in
          match e with
          | Some _ => let '(t, e) := sendErrorLocked t e in (set_latch s (Some t), h, k, e)
          | None => (s, h, k, e)
          end
      end
  end.

(** Where a send is.  [e] is what raw.Write returned, and [first] whether,
    in fact, a deadline of the caller passed before the send was woken or
    its raw.Write returned. *)
Inductive pc :=
| Lock                                       (* s.mu.Lock, s.mu.LockContext *)
| CtxCheck                                   (* ctx.Err() with the lock *)
| CtxReset                                   (* callerCrossed = false; s.ctx = ctx *)
| Fill                                       (* msg, iov, flags and wait *)
| Prepare                                    (* raw.Write: writeLock, prepareWrite *)
| Attempt                                    (* attempt: sendOnce *)
| Park (k : Z)                               (* attempt: EAGAIN, the status query *)
| Register (k : Z)                           (* attempt: NoWait, or AfterFunc *)
| Wait                                       (* raw.Write: waitWrite *)
| Stop (e : option error)                    (* s.stop() *)
| Join (e : option error)                    (* <-s.interruptDone *)
| Restore (e : option error)                 (* the deadline back *)
| Finish (e : option error) (first : bool)   (* the results, s.mu.Unlock *)
| Returned (k : Z) (e : option error) (first : bool).

Definition ctx_Err (h : host) (c : context) : option error :=
  match c with Ctx c => ctx_err h !! c | _ => None end.

Definition is_woken (d : deadlines) : bool := interrupted d || shutdownWake d.

(** Whether a caller's deadline came first. *)
Definition came_first (s : sendState) (h : host) : bool := if is_woken (dl s) then at_wake h else crossing h.

(** send up to raw.Write. *)
Definition exec_begin (j : nat) (a : arguments) (s : sendState) (h : host) (p : pc) (i : input)
    : option (sendState * host * pc) :=
  match p with
  | Lock =>
      match a_ctx a with
      | noContext => if bool_decide (owner s = None) then Some (set_owner s (Some j), h, Fill) else None
      | c =>
          if bool_decide (ctx_Err h c <> None) && (in_cancel i || bool_decide (owner s <> None))
          then Some (s, h, Returned 0 (ctx_Err h c) false)
          else if bool_decide (owner s = None) then Some (set_owner s (Some j), h, CtxCheck) else None
      end
  | CtxCheck =>
      match ctx_Err h (a_ctx a) with
      | Some e => Some (set_owner s None, h, Returned 0 (Some e) false)
      | None => Some (s, h, CtxReset)
      end
  | CtxReset =>
      let d := set_crossed (dl s) false in
      Some (set_ctx (set_dl s d) (a_ctx a) (stop s), set_history h (expired (callerDeadline d) (now h)) (at_wake h), Fill)
  | Fill => match fill s a with Ret x => Some (set_st s x, h, Prepare) | _ => None end
  | _ => None
  end.

(** attempt returns true. *)
Definition attempted (s : sendState) (h : host) (k : Z) (e : option error) : sendState * host * pc :=
  (set_st s (set_result (st s) k e), h, Stop None).

(** attempt, after one sendOnce; the part that finds EAGAIN. *)
Definition exec_attempt (j : nat) (s : sendState) (h : host) (p : pc) (i : input) : option (sendState * host * pc) :=
  match p with
  | Attempt =>
      let '(s, h, k, e) := sendOnce j s h i in
      if err_is e (Errno EINTR) then Some (s, h, Attempt)
      else if err_is e (Errno EAGAIN) then Some (s, h, Park k)
      else Some (attempted s h k e)
  | Park k =>
      match term s with
      | None => Some (s, h, Register k)
      | Some _ =>
          if wait (st s) then
            let reset := negb (slow s) && match s_ctx s with noContext => true | _ => false end in
            let d := if reset then set_crossed (dl s) false else dl s in
            let h := if reset then set_history h (expired (callerDeadline d) (now h)) (at_wake h) else h in
            let s := set_slow (set_dl s (set_parked d true)) true in
            if assocShuttingDown (in_status i) then Some (attempted s h 0 (Some (Plain (Errno ESHUTDOWN))))
            else Some (s, h, Register k)
          else if assocShuttingDown (in_status i) then Some (attempted s h 0 (Some (Plain (Errno ESHUTDOWN))))
          else Some (s, h, Register k)
      end
  | Register k =>
      if negb (wait (st s)) then Some (attempted s h k (Some (Plain (Errno EAGAIN))))
      else match stop s, s_ctx s with
           | None, Ctx c => Some (set_ctx s (Ctx c) (Some (length (regs h))), set_regs h (regs h ++ [Registered c]), Wait)
           | _, _ => Some (s, h, Wait)
           end
  | _ => None
  end.

(** raw.Write around attempt (internal/poll: FD.RawWrite). *)
Definition exec_poll (s : sendState) (h : host) (p : pc) (i : input) : option (sendState * host * pc) :=
  match p with
  | Prepare =>
      if negb (file_open h) then Some (s, h, Stop (Some (Plain ErrFileClosing)))
      else if expired (fdWrite h) (now h) then Some (s, h, Stop (Some (Plain ErrDeadlineExceeded)))
      else Some (s, h, Attempt)
  | Wait =>
      if in_ready i then Some (s, h, Attempt)
      else if negb (file_open h) then Some (s, h, Stop (Some (Plain ErrFileClosing)))
      else if expired (fdWrite h) (now h) then Some (s, h, Stop (Some (Plain ErrDeadlineExceeded)))
      else None
  | _ => None
  end.

(** The deadline back, and the error of a send that was woken. *)
Definition restore (a : arguments) (s : sendState) (h : host) (e : option error) : sendState * host * option error :=
  let d := dl s in
  let '(d, h, e) :=
    if is_woken d then
      (set_wakes d (callerFirst d) false false, fst (setWriteDeadline h (callerDeadline d)),
       if Is e ErrDeadlineExceeded && negb (callerFirst d)
       then if shutdownWake d then Some (Plain (Errno ESHUTDOWN)) else ctx_Err h (a_ctx a)
       else e)
    else (d, h, e) in
  (set_dl s (set_parked d false), h, e).

(** send after raw.Write. *)
Definition exec_end (a : arguments) (s : sendState) (h : host) (p : pc) (i : input) : option (sendState * host * pc) :=
  match p with
  | Stop e =>
      if slow s || bool_decide (stop s <> None) then
        match stop s with
        | None => Some (s, h, Restore e)
        | Some r =>
            match regs h !! r with
            | Some (Registered _) => Some (s, set_regs h (<[r := Over]> (regs h)), Restore e)
            | _ => Some (s, h, Join e)
            end
        end
      else Some (s, h, Finish e (came_first s h))
  | Join e =>
      match interruptDone s, stop s with
      | S k, Some r => Some (set_tokens s k, set_regs h (<[r := Over]> (regs h)), Restore e)
      | _, _ => None
      end
  | Restore e =>
      let first := came_first s h in
      let '(s, h, e) := restore a s h e in Some (s, h, Finish e first)
  | Finish e first =>
      let x := st s in
      let s' := set_st (set_ctx (set_slow s false) noContext None)
        {| cbuf := cbuf x; controllen := controllen x; iov := None; name := name x; flags := flags x; wait := wait x;
           n := 0; err := None |} in
      let e := match e with Some _ => e | None => err x end in
      Some (set_owner s' None, h,
        match e with
        | Some _ => Returned 0 e first
        | None => if n x =? len (a_b a) then Returned (n x) None first else Returned (n x) (Some (Plain ErrShortWrite)) first
        end)
  | _ => None
  end.

Definition exec (j : nat) (a : arguments) (s : sendState) (h : host) (p : pc) (i : input) : option (sendState * host * pc) :=
  match p with
  | Lock | CtxCheck | CtxReset | Fill => exec_begin j a s h p i
  | Prepare | Wait => exec_poll s h p i
  | Attempt | Park _ | Register _ => exec_attempt j s h p i
  | _ => exec_end a s h p i
  end.
End Send.

(** ** Executions *)
Record world := { send : sendState; hst : host; threads : list (arguments * pc) }.

Section Executions.
Context `{A : Arch}.

(** The kernel's answers fit what became of the association: until it is
    gone, a status query finds one that a local shutdown has moved. *)
Definition answers (h : host) (i : input) : Prop :=
  moved h = true -> gone h = false -> assocShuttingDown (in_status i) = true.

(** One step of send [j]. *)
Inductive send_step (j : nat) : world -> world -> Prop :=
| SendStep s h ts a p i s' h' p' :
    ts !! j = Some (a, p) -> answers h i -> exec j a s h p i = Some (s', h', p') ->
    send_step j {| send := s; hst := h; threads := ts |} {| send := s'; hst := h'; threads := <[j := (a, p')]> ts |}.

(** One step of the callback [r]: it starts once its context is done, moves
    the deadline, and reports. *)
Inductive callback_step (r : nat) : world -> world -> Prop :=
| CallbackStart s h ts c :
    regs h !! r = Some (Registered c) -> ctx_err h !! c <> None ->
    callback_step r {| send := s; hst := h; threads := ts |}
      {| send := s; hst := set_regs h (<[r := Running c]> (regs h)); threads := ts |}
| CallbackSection s h ts c d h' :
    regs h !! r = Some (Running c) -> interrupt (dl s) h = (d, h') ->
    callback_step r {| send := s; hst := h; threads := ts |}
      {| send := set_dl s d; hst := set_regs h' (<[r := Sending c]> (regs h')); threads := ts |}
| CallbackReport s h ts c :
    regs h !! r = Some (Sending c) -> interruptDone s = 0%nat ->
    callback_step r {| send := s; hst := h; threads := ts |}
      {| send := set_tokens s 1; hst := set_regs h (<[r := Sent c]> (regs h)); threads := ts |}.

Definition later (h : host) (t : Z) (d : deadlines) : host := {|
  now := t; fdWrite := fdWrite h; fdRead := fdRead h; file_open := file_open h; ctx_err := ctx_err h; regs := regs h;
  moved := moved h; woken := woken h; gone := gone h; log := log h; chosen := chosen h;
  crossing := crossing h || expired (callerDeadline d) t; at_wake := at_wake h |}.

Definition end_ctx (h : host) (c : nat) (e : error) : host := {|
  now := now h; fdWrite := fdWrite h; fdRead := fdRead h; file_open := file_open h; ctx_err := <[c := e]> (ctx_err h);
  regs := regs h; moved := moved h; woken := woken h; gone := gone h; log := log h; chosen := chosen h;
  crossing := crossing h; at_wake := at_wake h |}.

Definition close_file (h : host) : host := {|
  now := now h; fdWrite := fdWrite h; fdRead := fdRead h; file_open := false; ctx_err := ctx_err h; regs := regs h;
  moved := moved h; woken := woken h; gone := gone h; log := log h; chosen := chosen h; crossing := crossing h; at_wake := at_wake h |}.

(** context.Canceled or context.DeadlineExceeded. *)
Definition context_error (e : error) : Prop := e = Plain Canceled \/ e = Plain DeadlineExceeded.

(** What everything else may do between two steps of a send. *)
Inductive outside : world -> world -> Prop :=
| OutTime s h ts t : now h <= t -> outside {| send := s; hst := h; threads := ts |} {| send := s; hst := later h t (dl s); threads := ts |}
| OutCtx s h ts c e :
    context_error e -> ctx_err h !! c = None ->
    outside {| send := s; hst := h; threads := ts |} {| send := s; hst := end_ctx h c e; threads := ts |}
| OutDeadline s h ts t m d h' e :
    setDeadline (dl s) h t m = (d, h', e) ->
    outside {| send := s; hst := h; threads := ts |} {| send := set_dl s d; hst := h'; threads := ts |}
| OutMove s h ts : outside {| send := s; hst := h; threads := ts |} {| send := s; hst := set_assoc h true (woken h) (gone h); threads := ts |}
| OutWake s h ts d h' :
    moved h = true -> wakeShutdown (dl s) h = (d, h') ->
    outside {| send := s; hst := h; threads := ts |} {| send := set_dl s d; hst := set_assoc h' true true (gone h'); threads := ts |}
| OutGone s h ts : outside {| send := s; hst := h; threads := ts |} {| send := s; hst := set_assoc h (moved h) (woken h) true; threads := ts |}
| OutClose s h ts : outside {| send := s; hst := h; threads := ts |} {| send := s; hst := close_file h; threads := ts |}
| OutLatch s h ts t o :
    term s = Some t -> outside {| send := s; hst := h; threads := ts |} {| send := set_latch s (Some (fst (apply_op t o))); hst := h; threads := ts |}
| OutDefaults s h ts i p :
    owner s = None -> outside {| send := s; hst := h; threads := ts |} {| send := set_defaults s i p; hst := choose h (i, p); threads := ts |}
| OutCall s h ts a : outside {| send := s; hst := h; threads := ts |} {| send := s; hst := h; threads := ts ++ [(a, Lock)] |}.

Inductive step : world -> world -> Prop :=
| StepSend j w w' : send_step j w w' -> step w w'
| StepCallback r w w' : callback_step r w w' -> step w w'
| StepOutside w w' : outside w w' -> step w w'.

(** A sendState as bind and init leave it, for a Conn or an Endpoint, on an
    open descriptor with a write deadline the caller may have set. *)
Definition new_storage (buf : bytes) : storage := {|
  cbuf := buf; controllen := 0; iov := None; name := None; flags := 0; wait := false; n := 0; err := None |}.

(** The zero sendState. *)
Definition zero_sendState : sendState := {|
  owner := None; defSnd := {| snd_Stream := 0; snd_Flags := 0; snd_PPID := 0; snd_Context := 0 |};
  defPR := {| pr_Policy := 0; pr_TTL := 0; pr_Value := 0 |}; explicit := false; st := new_storage (zeros sndCmsgSpace);
  dl := {| callerDeadline := None; callerCrossed := false; callerFirst := false; parked := false; shutdownWake := false; interrupted := false |};
  slow := false; s_ctx := noContext; stop := None; interruptDone := 0; term := None |}.

(** [latch] is the connection's latch, or [None] for an Endpoint. *)
Definition bind (s : sendState) (latch : option termState) : sendState := set_latch (set_tokens s 0) latch.

Definition readDefaults `{K : Kernel} (s : sendState) : sys sendState :=
  r ← caught (sock_control (snd ← getDefaultSndInfo; pr ← getDefaultPrInfo; mret (snd, pr)));
  mret (match r with inl (snd, pr) => set_defaults s snd pr | inr _ => s end).

Definition init `{K : Kernel} (s : sendState) : sys sendState := readDefaults (bind s (Some zero_termState)).

Definition new_sendState (snd : SndInfo) (pr : PrInfo) (endpoint : bool) : sendState := {|
  owner := None; defSnd := snd; defPR := pr; explicit := endpoint; st := new_storage (zeros sndCmsgSpace);
  dl := {| callerDeadline := None; callerCrossed := false; callerFirst := false; parked := false; shutdownWake := false; interrupted := false |};
  slow := false; s_ctx := noContext; stop := None; interruptDone := 0;
  term := if endpoint then None else Some zero_termState |}.

Lemma getDefaultSndInfo_fine `{K : Kernel} : emits getDefaultSndInfo (fun _ r => r <> Panic).
Proof.
  unfold getDefaultSndInfo. apply emits_bind, emits_get; [done |]. intros errno b k Hb. destruct (errno =? 0); [| done].
  change (len (zeros sizeSndInfo)) with 16 in Hb. cbn [then_]. intros s. run_sys.
  rewrite (get2_ok NativeEndian b sndInfoFlagsOff), (get2_ok NativeEndian b sndInfoStreamOff) by (abi; lia).
  cbn. by rewrite !get4_ok by (abi; lia).
Qed.

Lemma getDefaultPrInfo_fine `{K : Kernel} : emits getDefaultPrInfo (fun _ r => r <> Panic).
Proof.
  unfold getDefaultPrInfo. apply emits_bind, emits_get; [done |]. intros errno b k Hb. destruct (errno =? 0); [| done].
  change (len (zeros sizeDefaultPRInfo)) with 12 in Hb. cbn [then_]. intros s. run_sys.
  rewrite get2_ok by (abi; lia). cbn. by rewrite get4_ok by (abi; lia).
Qed.

(** init leaves such a state, with the kernel's defaults or the zero ones,
    and never fails. *)
Lemma init_new `{K : Kernel} : emits (init zero_sendState) (fun _ r => exists snd pr, r = Ret (new_sendState snd pr false)).
Proof.
  unfold init, readDefaults. apply emits_bind, emits_caught, emits_control.
  2: { cbn [then_]. apply emits_ret. by eexists _, _. }
  apply emits_bind. eapply emits_mono; [apply getDefaultSndInfo_fine |]. intros l [snd | e |] Hs; [| | by destruct Hs].
  2: { cbn [then_]. apply emits_ret. by eexists _, _. }
  cbn [then_]. apply emits_bind. eapply emits_mono; [apply getDefaultPrInfo_fine |]. intros l' [pr | e |] Hp; [| | by destruct Hp].
  2: { cbn [then_]. apply emits_ret. by eexists _, _. }
  cbn [then_]. apply emits_ret. cbn [then_]. apply emits_ret. by eexists _, _.
Qed.

Definition new_host (d : SndInfo * PrInfo) (t : Z) : host := {|
  now := t; fdWrite := None; fdRead := None; file_open := true; ctx_err := ∅; regs := []; moved := false; woken := false;
  gone := false; log := []; chosen := d; crossing := false; at_wake := false |}.

Inductive initial : world -> Prop :=
| Initial snd pr endpoint t : aLongTimeAgo <= t ->
    initial {| send := new_sendState snd pr endpoint; hst := new_host (snd, pr) t; threads := [] |}.

Definition reachable (w : world) : Prop := exists w0, initial w0 /\ rtc step w0 w.
End Executions.

(** ** The invariant *)
Section Invariant.
Context `{A : Arch} `{AK : !ArchOk A}.

(** *** What a send asks for *)
Definition sent_snd (ex : bool) (o : SendOptions) (i : SndInfo) : option SndInfo :=
  if ex || bool_decide (so_Info o <> None) || bool_decide (so_PR o <> None) then Some (default i (so_Info o)) else None.

Definition sent_pr (ex : bool) (o : SendOptions) (p : PrInfo) : option PrInfo :=
  if ex || bool_decide (so_Info o <> None) || bool_decide (so_PR o <> None) then
    match so_PR o with Some pr => Some pr | None => if negb (pr_Policy p =? PRNone) then Some p else None end
  else None.

(** The message of a call whose defaults are [i] and [p]; [dropped] when it
    was made again without its destination. *)
Definition asked (ex : bool) (a : arguments) (i : SndInfo) (p : PrInfo) (dropped : bool) : message := {|
  m_iov := a_b a;
  m_control := concat (map cmsg_bytes (send_records (sent_snd ex (a_opts a) i) (a_assoc a) (sent_pr ex (a_opts a) p) (so_AuthKey (a_opts a))));
  m_name := if dropped || (len (a_name a) <=? 0) then None else Some (a_name a);
  m_flags := if so_More (a_opts a) then Z.lor sendFlags MSG_MORE else sendFlags |}.

Definition carries (ex : bool) (a : arguments) (m : message) : Prop := exists i p dropped, m = asked ex a i p dropped.

(** The messages of send [j] that the kernel accepted. *)
Definition wire_of (h : host) (j : nat) : list (message * Z) :=
  (fun e => (e.1.2, e.2)) <$> filter (fun e => e.1.1 = j) (wire h).

(** *** The parts *)
Definition dl_ok (s : sendState) (h : host) : Prop :=
  (interrupted (dl s) && shutdownWake (dl s) = false) /\
  (file_open h = true -> fdWrite h = if is_woken (dl s) then Some aLongTimeAgo else callerDeadline (dl s)) /\
  crossing h = crossed_first (dl s) (now h) /\
  (is_woken (dl s) = true -> callerFirst (dl s) = at_wake h) /\
  aLongTimeAgo <= now h /\
  (shutdownWake (dl s) = true -> parked (dl s) = true) /\
  (woken h = true -> moved h = true) /\
  (parked (dl s) = true -> slow s = true).

(** The callback of the send in progress; every other one is over. *)
Definition callback (s : sendState) (h : host) : option reg := r ← stop s; regs h !! r.

Definition ctx_of (x : reg) : option nat :=
  match x with Registered c | Running c | Sending c | Sent c => Some c | Over => None end.

Definition started (x : reg) : bool := match x with Running _ | Sending _ | Sent _ => true | _ => false end.

Definition reg_ok (s : sendState) (h : host) : Prop :=
  (forall r x, regs h !! r = Some x -> x = Over \/ stop s = Some r) /\
  (stop s <> None -> callback s h <> None) /\
  (forall x c, callback s h = Some x -> ctx_of x = Some c -> s_ctx s = Ctx c /\ (started x = true -> ctx_err h !! c <> None)) /\
  interruptDone s = match callback s h with Some (Sent _) => 1%nat | _ => 0%nat end /\
  (interrupted (dl s) = true -> stop s <> None /\ exists c, s_ctx s = Ctx c /\ ctx_err h !! c <> None) /\
  (forall c e, ctx_err h !! c = Some e -> context_error e).

Definition quiet (s : sendState) : Prop :=
  is_woken (dl s) = false /\ parked (dl s) = false /\ slow s = false /\ stop s = None /\ n (st s) = 0 /\ err (st s) = None.

Definition is_errno (e : option error) : Prop := forall e', e = Some e' -> exists k, e' = Plain (Errno k).

(** The storage holds the call's own message. *)
Definition stored (s : sendState) (a : arguments) : Prop :=
  carries (explicit s) a (message_of (st s)) /\ wait (st s) = negb (so_NoWait (a_opts a)) /\ n (st s) = 0 /\ err (st s) = None.

(** A result and what is on the wire agree. *)
Definition told (ex : bool) (a : arguments) (l : list (message * Z)) (k : Z) (e : option error) : Prop :=
  (e = None /\ exists m, l = [(m, k)] /\ carries ex a m) \/ (e <> None /\ l = [] /\ k = 0).

(** No wake-up is lost: a send that has parked itself and not ended has been
    woken when a local shutdown was over, and so has one whose callback has
    left its critical section. *)
Definition reported (x : reg) : bool := match x with Sending _ | Sent _ => true | _ => false end.

Definition wake_ok (s : sendState) (h : host) : Prop :=
  (parked (dl s) = true -> woken h = true -> gone h = false -> is_woken (dl s) = true) /\
  (forall x, callback s h = Some x -> reported x = true -> is_woken (dl s) = true).

(** What raw.Write may return. *)
Definition write_result (s : sendState) (h : host) (e : option error) : Prop :=
  e = None \/ e = Some (Plain ErrFileClosing) \/
  (e = Some (Plain ErrDeadlineExceeded) /\ (is_woken (dl s) = false -> crossing h = true)).

Definition over_write (s : sendState) (h : host) (j : nat) (a : arguments) (e : option error) : Prop :=
  write_result s h e /\
  match e with
  | None => is_errno (err (st s)) /\ told (explicit s) a (wire_of h j) (n (st s)) (err (st s))
  | Some _ => n (st s) = 0 /\ err (st s) = None /\ wire_of h j = []
  end.

(** Why a send failed. *)
Definition cause_ok (h : host) (a : arguments) (e : option error) (first : bool) : Prop :=
  forall e', e = Some e' ->
    (context_error e' -> first = false /\ ctx_Err h (a_ctx a) = Some e') /\
    (e' = Plain ErrDeadlineExceeded -> first = true).

Definition phase (s : sendState) (h : host) (j : nat) (a : arguments) (p : pc) : Prop :=
  match p with
  | Lock | Returned _ _ _ => False
  | CtxCheck | CtxReset => quiet s /\ s_ctx s = noContext /\ wire_of h j = []
  | Fill => quiet s /\ s_ctx s = a_ctx a /\ wire_of h j = []
  | Prepare => quiet s /\ s_ctx s = a_ctx a /\ wire_of h j = [] /\ stored s a
  | Attempt => callback s h <> Some Over /\ s_ctx s = a_ctx a /\ wire_of h j = [] /\ stored s a /\ wake_ok s h
  | Park k => callback s h <> Some Over /\ s_ctx s = a_ctx a /\ wire_of h j = [] /\ stored s a /\ wake_ok s h /\ k = 0
  | Register k => callback s h <> Some Over /\ s_ctx s = a_ctx a /\ wire_of h j = [] /\ stored s a /\ wake_ok s h /\ k = 0 /\
      (term s <> None -> wait (st s) = true -> parked (dl s) = true)
  | Wait => callback s h <> Some Over /\ s_ctx s = a_ctx a /\ wire_of h j = [] /\ stored s a /\ wake_ok s h /\
      (term s <> None -> parked (dl s) = true) /\ (forall c, a_ctx a = Ctx c -> stop s <> None)
  | Stop e => callback s h <> Some Over /\ s_ctx s = a_ctx a /\ over_write s h j a e
  | Join e => (exists x, callback s h = Some x /\ started x = true) /\ s_ctx s = a_ctx a /\ over_write s h j a e
  | Restore e => (callback s h = None \/ callback s h = Some Over) /\ s_ctx s = a_ctx a /\ over_write s h j a e
  | Finish e first => (callback s h = None \/ callback s h = Some Over) /\ s_ctx s = a_ctx a /\
      is_woken (dl s) = false /\ parked (dl s) = false /\ cause_ok h a e first /\
      match e with
      | None => is_errno (err (st s)) /\ told (explicit s) a (wire_of h j) (n (st s)) (err (st s))
      | Some _ => wire_of h j = []
      end
  end.

(** The send that holds the lock, if any. *)
Definition holding (s : sendState) (h : host) (cur : option (nat * (arguments * pc))) : Prop :=
  match cur with
  | None => quiet s /\ s_ctx s = noContext
  | Some (j, (a, p)) => phase s h j a p
  end.

Definition latch_ok (s : sendState) : Prop := match term s with Some t => term_inv t | None => True end.

Definition own_ok (s : sendState) (h : host) (cur : option (nat * (arguments * pc))) : Prop :=
  dl_ok s h /\ reg_ok s h /\ latch_ok s /\ sndCmsgSpace <= len (cbuf (st s)) /\ holding s h cur.

(** A send that does not hold the lock. *)
Definition outside_ok (ex : bool) (h : host) (j : nat) (a : arguments) (p : pc) : Prop :=
  match p with
  | Lock => wire_of h j = []
  | Returned k e first =>
      cause_ok h a e first /\
      ((exists m, wire_of h j = [(m, k)] /\ carries ex a m /\ e = if k =? len (a_b a) then None else Some (Plain ErrShortWrite)) \/
       (wire_of h j = [] /\ k = 0 /\ e <> None))
  | _ => False
  end.
End Invariant.

Section Steps.
Context `{A : Arch} `{AK : !ArchOk A}.

(** *** The message *)
Lemma fill_message s a :
  sndCmsgSpace <= len (cbuf (st s)) ->
  exists x, fill s a = Ret x /\ message_of x = asked (explicit s) a (defSnd s) (defPR s) false /\
    wait x = negb (so_NoWait (a_opts a)) /\ n x = n (st s) /\ err x = err (st s) /\ sndCmsgSpace <= len (cbuf x).
Proof.
  intros Hb. unfold fill, encode.
  destruct (if explicit s || _ || _ then _ else _) as [snd pr] eqn:Hsp.
  destruct (appendSendCmsgs_writes (cbuf (st s)) snd (a_assoc a) pr (so_AuthKey (a_opts a)) Hb) as (-> & Hl & _).
  set (recs := concat _) in *. set (k := len recs) in *.
  eexists. split; [reflexivity |]. pose proof (len_nonneg recs) as Hk. split; [| split_and!; try done].
  - unfold asked, message_of; cbn.
    f_equal.
    + replace (if 0 <? k then k else 0) with k by (destruct (Z.ltb_spec 0 k); lia).
      unfold k, len. rewrite Nat2Z.id, take_app_length. unfold recs.
      unfold sent_snd, sent_pr. destruct (explicit s || _ || _); by injection Hsp as <- <-.
    + destruct (Z.ltb_spec 0 (len (a_name a))), (Z.leb_spec (len (a_name a)) 0); done || lia.
  - cbn. unfold len. rewrite length_app, length_drop. unfold len in *. lia.
Qed.

Lemma fill_stored s a :
  sndCmsgSpace <= len (cbuf (st s)) -> n (st s) = 0 -> err (st s) = None ->
  exists x, fill s a = Ret x /\ stored (set_st s x) a /\ sndCmsgSpace <= len (cbuf x).
Proof.
  intros Hb Hn He. destruct (fill_message s a Hb) as (x & Hx & Hm & Hw & Hxn & Hxe & Hl). exists x.
  split; [done |]. split; [| done]. unfold stored. cbn. split_and!; try congruence. by exists (defSnd s), (defPR s), false.
Qed.

Lemma wire_of_app h j l :
  wire_of (set_log h (log h ++ l)) j = wire_of h j ++ ((fun e => (e.1.2, e.2)) <$> filter (fun e => e.1.1 = j) (omap accepted l)).
Proof. unfold wire_of, wire. cbn. by rewrite omap_app, filter_app, fmap_app. Qed.

Lemma wire_of_own h j d m k : wire_of (set_log h (log h ++ [Sendmsg j d m (inl k)])) j = wire_of h j ++ [(m, k)].
Proof. rewrite wire_of_app. cbn. by rewrite decide_True. Qed.

Lemma wire_of_other h j i d m k : i <> j -> wire_of (set_log h (log h ++ [Sendmsg j d m (inl k)])) i = wire_of h i.
Proof. intros Hi. rewrite wire_of_app. cbn. rewrite decide_False by (cbn; congruence). apply app_nil_r. Qed.

(** Calls the kernel refused leave the wire as it was. *)
Lemma wire_of_refused h j e : accepted e = None -> wire_of (set_log h (log h ++ [e])) j = wire_of h j.
Proof. intros He. rewrite wire_of_app. cbn. rewrite He. apply app_nil_r. Qed.

(** The hosts that differ in the wire and the history alone. *)
Definition same_host (h h' : host) : Prop :=
  now h' = now h /\ fdWrite h' = fdWrite h /\ file_open h' = file_open h /\ ctx_err h' = ctx_err h /\ regs h' = regs h /\
  moved h' = moved h /\ woken h' = woken h /\ gone h' = gone h /\ crossing h' = crossing h /\ at_wake h' = at_wake h.

Lemma sendmsg_spec j x h ans a ex h' k e :
  carries ex a (message_of x) -> wire_of h j = [] -> sendmsg j x h ans = (h', k, e) ->
  same_host h h' /\ (forall j', j' <> j -> wire_of h' j' = wire_of h j') /\ is_errno e /\ told ex a (wire_of h' j) k e.
Proof.
  intros Hc Hw. unfold sendmsg. destruct ans as [m | errno]; intros [= <- <- <-].
  - split; [done |]. split; [intros j' Hj; by apply wire_of_other |]. split; [done |]. left. split; [done |].
    exists (message_of x). by rewrite wire_of_own, Hw.
  - split; [done |]. split; [intros j' _; by apply wire_of_refused |]. split; [intros e' [= <-]; by eexists |].
    right. by rewrite wire_of_refused.
Qed.

Lemma carries_dropped ex a x : carries ex a (message_of x) -> carries ex a (message_of (set_name x None)).
Proof. intros (i & p & b & H). exists i, p, true. unfold asked, message_of in *. cbn. by injection H as -> -> _ ->. Qed.

Lemma sendErrorLocked_errno t e : term_inv t -> is_errno (Some e) ->
  exists e', snd (sendErrorLocked t (Some e)) = Some e' /\ is_errno (Some e').
Proof.
  intros [Ht _] He. unfold sendErrorLocked, storeLocked.
  assert (Hl : forall e', latchable e' -> is_errno (Some e')).
  { intros e' [-> | [-> | [-> | ->]]] e2 [= <-]; by eexists. }
  destruct (isAssocFailure (Some e)); cbn; [by exists e |].
  destruct (negb _); [by exists e |]. destruct (t_err t) as [e' |] eqn:Et; [exists e'; auto |].
  destruct (failed t); [| by exists e]. eexists. split; [reflexivity |]. intros e2 [= <-]. by eexists.
Qed.

(** One sendOnce: the kernel took the call's message, or took nothing. *)
Lemma sendOnce_spec j s h i a s' h' k e :
  stored s a -> latch_ok s -> wire_of h j = [] -> sendOnce j s h i = (s', h', k, e) ->
  (exists x t, s' = set_latch (set_st s x) t /\ stored (set_st s x) a /\ cbuf x = cbuf (st s) /\ latch_ok s' /\ (t = None <-> term s = None)) /\
  same_host h h' /\ (forall j', j' <> j -> wire_of h' j' = wire_of h j') /\ is_errno e /\ told (explicit s) a (wire_of h' j) k e.
Proof.
  intros Hst Hl Hw. unfold sendOnce.
  assert (Hsame : forall t, t = term s -> exists x t', s = set_latch (set_st s x) t' /\ stored (set_st s x) a /\ cbuf x = cbuf (st s) /\ latch_ok s /\ (t' = None <-> t = None)).
  { intros t ->. exists (st s), (term s). destruct s. done. }
  destruct (term s) as [t |] eqn:Et.
  2: { destruct (sendmsg j (st s) h (in_send i)) as [[h1 k1] e1] eqn:Hs. intros [= <- <- <- <-].
       split; [by apply Hsame | by eapply sendmsg_spec, Hs; [apply Hst |]]. }
  unfold latch_ok in Hl. rewrite Et in Hl. destruct (t_err t) as [e0 |] eqn:Ete.
  { intros [= <- <- <- <-]. split; [by apply Hsame |]. split; [done |]. split; [done |]. split; [| by right].
    intros e' [= <-]. destruct (proj1 Hl _ Ete) as [-> | [-> | [-> | ->]]]; by eexists. }
  destruct (sendmsg j (st s) h (in_send i)) as [[h1 k1] e1] eqn:Hs.
  destruct (sendmsg_spec _ _ _ _ a (explicit s) _ _ _ (proj1 Hst) Hw Hs) as (Hh1 & Ho1 & He1 & Ht1).
  assert (Hgo : exists x h2 k2 e2, (if err_is e1 (Errno EADDRNOTAVAIL) && bool_decide (name (st s) <> None)
      then if assocEnded (in_status i)
           then let '(h0, k0, e0) := sendmsg j (st (set_st s (set_name (st s) None))) (set_log h1 (log h1 ++ [Ended j (in_status i)])) (in_resend i) in
                (set_st s (set_name (st s) None), h0, k0, e0)
           else (s, set_log h1 (log h1 ++ [Ended j (in_status i)]), k1, e1)
      else (s, h1, k1, e1)) = (set_st s x, h2, k2, e2) /\ stored (set_st s x) a /\ cbuf x = cbuf (st s) /\
      same_host h h2 /\ (forall j', j' <> j -> wire_of h2 j' = wire_of h j') /\ is_errno e2 /\ told (explicit s) a (wire_of h2 j) k2 e2).
  { destruct (err_is e1 _ && _) eqn:Hr.
    - apply andb_prop in Hr as [Hr _]. set (h1' := set_log h1 _).
      assert (Hlog : forall j', wire_of h1' j' = wire_of h1 j') by (intros j'; by apply wire_of_refused).
      destruct (assocEnded (in_status i)).
      2: { exists (st s), h1', k1, e1. rewrite Hlog. split_and!; try done; [by destruct s |]. intros j' Hj. by rewrite Hlog, Ho1. }
      assert (Hw1 : wire_of h1' j = []) by (rewrite Hlog; destruct Ht1 as [[-> _] | (_ & H & _)]; done).
      destruct Hst as (Hc & Hst). pose proof (carries_dropped _ _ _ Hc) as Hc2.
      cbn [st set_st]. destruct (sendmsg j (set_name (st s) None) h1' (in_resend i)) as [[h0 k0] e0] eqn:Hs2.
      destruct (sendmsg_spec _ _ _ _ a (explicit s) _ _ _ Hc2 Hw1 Hs2) as (Hh2 & Ho2 & He2 & Ht2).
      exists (set_name (st s) None), h0, k0, e0. split; [done |]. split; [done |]. split; [done |].
      split; [unfold same_host, h1' in *; cbn in *; intuition congruence |]. split; [intros j' Hj; by rewrite Ho2, Hlog, Ho1 | done].
    - exists (st s), h1, k1, e1. by destruct s. }
  destruct Hgo as (x & h2 & k2 & e2 & -> & Hx & Hb & Hh2 & Ho2 & He2 & Ht2).
  destruct e2 as [e2 |].
  - destruct (sendErrorLocked_errno t e2 Hl He2) as (e3 & He3 & Hn3). pose proof (sendErrorLocked_kept t (Some e2) Hl) as Hk.
    destruct (sendErrorLocked t (Some e2)) as [t3 e4]. cbn in He3, Hk. subst e4. intros [= <- <- <- <-].
    split; [exists x, (Some t3); split_and!; try done; apply Hk |]. split_and!; try done.
    destruct Ht2 as [[? _] | (_ & Hw2 & ->)]; [done |]. by right.
  - intros [= <- <- <- <-]. split; [| done]. exists x, (Some t). split; [by destruct s; cbn in *; subst |].
    split; [done |]. split; [done |]. split; [| done]. unfold latch_ok. cbn. by rewrite Et.
Qed.
End Steps.

Section Preserved.
Context `{A : Arch} `{AK : !ArchOk A}.

Definition holds (p : pc) : bool := match p with Lock | Returned _ _ _ => false | _ => true end.

(** The holder after a step to [p]. *)
Definition now_at (j : nat) (a : arguments) (p : pc) : option (nat * (arguments * pc)) :=
  if holds p then Some (j, (a, p)) else None.

(** What a step of the holder [j] leaves. *)
Definition moves (s : sendState) (h : host) (j : nat) (a : arguments) (r : sendState * host * pc) : Prop :=
  let '(s', h', p') := r in
  own_ok s' h' (now_at j a p') /\ owner s' = (if holds p' then Some j else None) /\ explicit s' = explicit s /\
  (forall j', j' <> j -> wire_of h' j' = wire_of h j') /\ ctx_err h' = ctx_err h /\
  (holds p' = false -> outside_ok (explicit s) h' j a p').

Lemma dl_ok_ext s h s' h' :
  dl s' = dl s -> (slow s = true -> slow s' = true) -> same_host h h' -> dl_ok s h -> dl_ok s' h'.
Proof.
  intros Hd Hs (E1 & E2 & E3 & E4 & E5 & E6 & E7 & E8 & E9 & E10). unfold dl_ok. rewrite Hd, E1, E2, E3, E6, E7, E9, E10. tauto.
Qed.

Lemma reg_ok_ext s h s' h' :
  stop s' = stop s -> s_ctx s' = s_ctx s -> interruptDone s' = interruptDone s -> interrupted (dl s') = interrupted (dl s) ->
  regs h' = regs h -> ctx_err h' = ctx_err h -> reg_ok s h -> reg_ok s' h'.
Proof. intros E1 E2 E3 E4 E5 E6. unfold reg_ok, callback. by rewrite E1, E2, E3, E4, E5, E6. Qed.

(** A step that changes neither the state nor the world. *)
Lemma moves_here s h j a p p' :
  owner s = Some j -> own_ok s h (Some (j, (a, p))) -> phase s h j a p' -> moves s h j a (s, h, p').
Proof.
  intros Ho (H1 & H2 & H3 & H4 & _) Hp. assert (Hh : holds p' = true) by (destruct p'; done || by destruct Hp).
  unfold moves, now_at. rewrite Hh. split_and!; try done.
Qed.

Lemma woken_false d : is_woken d = false -> interrupted d = false /\ shutdownWake d = false.
Proof. unfold is_woken. by intros [-> ->]%orb_false_elim. Qed.

Lemma cause_ctx s h a e : reg_ok s h -> ctx_Err h (a_ctx a) = Some e -> cause_ok h a (Some e) false.
Proof.
  intros (_ & _ & _ & _ & _ & Hc) He e' [= <-]. split; [done |]. intros ->. exfalso.
  destruct (a_ctx a) as [| | c]; [done.. |]. by destruct (Hc _ _ He).
Qed.

Ltac own_parts := cbv beta iota delta [moves own_ok now_at holds holding]; split_and!.

Lemma begin_ok s h j a p i r :
  owner s = Some j -> own_ok s h (Some (j, (a, p))) -> p <> Lock -> exec_begin j a s h p i = Some r -> moves s h j a r.
Proof.
  intros Ho Hok Hp. pose proof Hok as (Hd & Hr & Hl & Hb & Hph). cbn in Hph. destruct p; try done; cbn [exec_begin]; cbn in Hph.
  - destruct Hph as (Hq & Hs & Hw). destruct (ctx_Err h (a_ctx a)) as [e |] eqn:He; intros [= <-].
    + own_parts; try done; try (by eapply dl_ok_ext, Hd); try (by eapply reg_ok_ext, Hr).
      intros _. cbn. split; [by eapply cause_ctx | by right].
    + by eapply moves_here.
  - destruct Hph as (Hq & Hs & Hw). intros [= <-]. own_parts; try done.
    + destruct Hd as (D1 & D2 & D3 & D4 & D5 & D6 & D7 & D8). split_and!; try done.
    + destruct Hr as (R1 & R2 & R3 & R4 & R5 & R6). destruct Hq as (Q1 & Q2 & Q3 & Q4 & Q5 & Q6).
      destruct (woken_false _ Q1) as [Q7 _].
      unfold reg_ok, callback in *. cbn. rewrite Q4, Q7 in *. split_and!; done.
  - destruct Hph as (Hq & Hs & Hw).
    destruct (fill_stored s a Hb) as (x & Hx & Hst & Hlx); [apply Hq.. |]. rewrite Hx. intros [= <-].
    own_parts; try done; try (by eapply dl_ok_ext, Hd); try (by eapply reg_ok_ext, Hr).
    cbn. split; [| done]. destruct Hq as (Q1 & Q2 & Q3 & Q4 & Q5 & Q6). unfold quiet. cbn. split_and!; try done; apply Hst.
Qed.

Lemma poll_ok s h j a p i r :
  owner s = Some j -> own_ok s h (Some (j, (a, p))) -> exec_poll s h p i = Some r -> moves s h j a r.
Proof.
  intros Ho Hok. pose proof Hok as (Hd & Hr & Hl & Hb & Hph). cbn in Hph.
  assert (Hend : forall e, callback s h <> Some Over -> s_ctx s = a_ctx a -> wire_of h j = [] -> stored s a ->
    (e = Plain ErrFileClosing \/ (e = Plain ErrDeadlineExceeded /\ file_open h = true /\ expired (fdWrite h) (now h) = true)) ->
    moves s h j a (s, h, Stop (Some e))).
  { intros e Hc Hs Hw Hst He. eapply moves_here; [done | exact Hok |]. cbn. split; [done |]. split; [done |].
    split; [| split_and!; [apply Hst | apply Hst | done]].
    destruct He as [-> | (-> & Hf & Hx)]; [by right; left |]. right; right. split; [done |]. intros Hk.
    destruct Hd as (_ & D2 & D3 & _). rewrite (D2 Hf), Hk in Hx. rewrite D3. unfold crossed_first. rewrite Hx. apply orb_true_r. }
  destruct p; try done; cbn [exec_poll]; cbn in Hph.
  - destruct Hph as (Hq & Hs & Hw & Hst). destruct Hq as (Q1 & Q2 & Q3 & Q4 & Q5 & Q6).
    assert (Hc : callback s h <> Some Over) by (unfold callback; by rewrite Q4).
    destruct (file_open h) eqn:Hf; cbn; [| intros [= <-]; apply Hend; tauto].
    destruct (expired (fdWrite h) (now h)) eqn:Hx; intros [= <-]; [apply Hend; tauto |].
    eapply moves_here; [done | exact Hok |]. cbn. split_and!; try done. unfold wake_ok, callback. by rewrite Q2, Q4.
  - destruct Hph as (Hc & Hs & Hw & Hst & Hk & _). destruct (in_ready i).
    { intros [= <-]. eapply moves_here; [done | exact Hok |]. done. }
    destruct (file_open h) eqn:Hf; cbn; [| intros [= <-]; apply Hend; tauto].
    destruct (expired (fdWrite h) (now h)) eqn:Hx; intros [= <-]. apply Hend; tauto.
Qed.

(** attempt is over: its result is in n and err. *)
Lemma attempted_ok s h j a s1 h1 k e :
  owner s1 = Some j -> dl_ok s1 h1 -> reg_ok s1 h1 -> latch_ok s1 -> sndCmsgSpace <= len (cbuf (st s1)) ->
  explicit s1 = explicit s -> ctx_err h1 = ctx_err h -> (forall j', j' <> j -> wire_of h1 j' = wire_of h j') ->
  callback s1 h1 <> Some Over -> s_ctx s1 = a_ctx a -> is_errno e -> told (explicit s) a (wire_of h1 j) k e ->
  moves s h j a (attempted s1 h1 k e).
Proof.
  intros Ho Hd Hr Hl Hb Hx Hce Hw Hc Hs He Ht. unfold attempted. own_parts; try done.
  cbn. split; [done |]. split; [done |]. split; [by left |]. cbn. rewrite Hx. done.
Qed.

Lemma told_empty ex a l k e : told ex a l k (Some e) -> l = [] /\ k = 0.
Proof. by intros [[? _] | (_ & ? & ?)]. Qed.

Lemma callback_ext s h s' h' : stop s' = stop s -> regs h' = regs h -> callback s' h' = callback s h.
Proof. unfold callback. by intros -> ->. Qed.

Lemma wake_ok_ext s h s' h' : dl s' = dl s -> stop s' = stop s -> same_host h h' -> wake_ok s h -> wake_ok s' h'.
Proof.
  intros Hd Hs (_ & _ & _ & _ & E5 & _ & E7 & E8 & _). unfold wake_ok. by rewrite (callback_ext s h s' h' Hs E5), Hd, E7, E8.
Qed.

Lemma attempt_step_ok s h j a i r :
  owner s = Some j -> own_ok s h (Some (j, (a, Attempt))) -> exec_attempt j s h Attempt i = Some r -> moves s h j a r.
Proof.
  intros Ho (Hd & Hr & Hl & Hb & (Hc & Hs & Hw & Hst & Hk)). cbn [exec_attempt].
  destruct (sendOnce j s h i) as [[[s1 h1] k] e] eqn:Hso.
  destruct (sendOnce_spec _ _ _ _ _ _ _ _ _ Hst Hl Hw Hso) as ((x & t & -> & Hst1 & Hcb & Hl1 & Ht1) & Hh & Hoth & He & Ht).
  assert (Hd1 : dl_ok (set_latch (set_st s x) t) h1) by by eapply dl_ok_ext, Hd.
  pose proof Hh as (_ & _ & _ & Hce & Hre & _).
  assert (Hr1 : reg_ok (set_latch (set_st s x) t) h1) by by eapply reg_ok_ext, Hr.
  assert (Hc1 : callback (set_latch (set_st s x) t) h1 <> Some Over) by (by erewrite callback_ext; [exact Hc | |]).
  assert (Hk1 : wake_ok (set_latch (set_st s x) t) h1) by by eapply wake_ok_ext, Hk.
  assert (Hb1 : sndCmsgSpace <= len (cbuf x)) by by rewrite Hcb.
  destruct (err_is e (Errno EINTR)) eqn:E1; [| destruct (err_is e (Errno EAGAIN)) eqn:E2]; intros [= <-].
  - destruct e as [e |]; [| done]. apply told_empty in Ht as [Hw1 ->]. by own_parts.
  - destruct e as [e |]; [| done]. apply told_empty in Ht as [Hw1 ->]. by own_parts.
  - by apply attempted_ok.
Qed.

Lemma parked_dl_ok s h (b : bool) :
  dl_ok s h ->
  dl_ok (set_slow (set_dl s (set_parked (if b then set_crossed (dl s) false else dl s) true)) true)
    (if b then set_history h (expired (callerDeadline (if b then set_crossed (dl s) false else dl s)) (now h)) (at_wake h) else h).
Proof. intros (D1 & D2 & D3 & D4 & D5 & D6 & D7 & D8). destruct b; unfold dl_ok; cbn; split_and!; done. Qed.

Lemma errno_told ex a k : is_errno (Some (Plain (Errno k))) /\ told ex a [] 0 (Some (Plain (Errno k))).
Proof. split; [intros e [= <-]; by eexists | by right]. Qed.

Lemma park_step_ok s h j a k i r :
  owner s = Some j -> own_ok s h (Some (j, (a, Park k))) -> answers h i ->
  exec_attempt j s h (Park k) i = Some r -> moves s h j a r.
Proof.
  intros Ho (Hd & Hr & Hl & Hb & (Hc & Hs & Hw & Hst & Hk & ->)) Hans. cbn [exec_attempt].
  destruct (errno_told (explicit s) a ESHUTDOWN) as [He Ht].
  destruct (term s) as [t |] eqn:Et; [| intros [= <-]; own_parts; try done; cbn; by rewrite Et].
  destruct (wait (st s)) eqn:Ew.
  - set (b := andb (negb (slow s)) match s_ctx s with noContext => true | _ => false end). pose proof (parked_dl_ok s h b Hd) as Hd1.
    set (s1 := set_slow _ true) in *. set (h1 := if b then set_history h _ _ else h) in *.
    assert (Hh : now h1 = now h /\ regs h1 = regs h /\ ctx_err h1 = ctx_err h /\ (forall j', wire_of h1 j' = wire_of h j') /\
      moved h1 = moved h /\ woken h1 = woken h /\ gone h1 = gone h) by (unfold h1; by destruct b).
    destruct Hh as (_ & H1 & H2 & H3 & H4 & H5 & H6).
    assert (Hr1 : reg_ok s1 h1).
    { eapply reg_ok_ext, Hr; try done. unfold s1. by destruct b. }
    assert (Hc1 : callback s1 h1 <> Some Over) by (by erewrite callback_ext; [exact Hc | |]).
    destruct (assocShuttingDown (in_status i)) eqn:Hsd; intros [= <-].
    + apply attempted_ok; try done. by rewrite H3, Hw.
    + own_parts; try done.
      cbn. rewrite H3. split_and!; try done.
      split; [| intros x; rewrite (callback_ext s h s1 h1) by done; unfold s1; destruct b; apply Hk].
      intros _ Hwk Hg. rewrite H5 in Hwk. rewrite H6 in Hg. destruct Hd as (_ & _ & _ & _ & _ & _ & D7 & _).
      rewrite Hans in Hsd by auto. done.
  - destruct (assocShuttingDown (in_status i)); intros [= <-].
    + apply attempted_ok; try done. by rewrite Hw.
    + own_parts; try done. cbn. rewrite Ew. split_and!; done.
Qed.

Lemma register_step_ok s h j a k i r :
  owner s = Some j -> own_ok s h (Some (j, (a, Register k))) -> exec_attempt j s h (Register k) i = Some r -> moves s h j a r.
Proof.
  intros Ho (Hd & Hr & Hl & Hb & (Hc & Hs & Hw & Hst & Hk & -> & Hp)). cbn [exec_attempt].
  destruct (wait (st s)) eqn:Ew; cbn [negb].
  2: { intros [= <-]. destruct (errno_told (explicit s) a EAGAIN) as [He Ht]. apply attempted_ok; try done. by rewrite Hw. }
  assert (Hgo : (forall c, a_ctx a = Ctx c -> stop s <> None) -> moves s h j a (s, h, Wait)).
  { intros Hx. own_parts; try done. cbn. split_and!; try done. auto. }
  destruct (stop s) as [r0 |] eqn:Es; [intros [= <-]; by apply Hgo |].
  destruct (s_ctx s) as [| | c] eqn:Ec; try (intros [= <-]; apply Hgo; congruence). intros [= <-].
  assert (Hcb : callback (set_ctx s (Ctx c) (Some (length (regs h)))) (set_regs h (regs h ++ [Registered c])) = Some (Registered c)).
  { unfold callback. cbn. by rewrite lookup_app_r, Nat.sub_diag by lia. }
  own_parts; try done.
  - destruct Hr as (R1 & R2 & R3 & R4 & R5 & R6). unfold reg_ok. rewrite Hcb. cbn. split_and!; try done.
    + intros r x Hx. destruct (decide (r < length (regs h))%nat).
      * rewrite lookup_app_l in Hx by done. destruct (R1 r x Hx); [by left | congruence].
      * right. apply lookup_lt_Some in Hx. rewrite length_app in Hx. cbn in Hx. f_equal. lia.
    + intros x c' [= <-] [= <-]. done.
    + rewrite R4. unfold callback. by rewrite Es.
    + intros Hi. destruct (R5 Hi) as [? _]. congruence.
  - cbv beta iota delta [phase]. rewrite Hcb. split_and!; try done; [| cbn; auto]. split; [apply Hk | by rewrite Hcb; intros x [= <-]].
Qed.

(** *** After raw.Write *)
Lemma over_write_ext s h s' h' j a e :
  is_woken (dl s') = is_woken (dl s) -> st s' = st s -> explicit s' = explicit s -> crossing h' = crossing h -> wire h' = wire h ->
  over_write s h j a e -> over_write s' h' j a e.
Proof. intros E1 E2 E3 E4 E5. unfold over_write, write_result, wire_of. by rewrite E1, E2, E3, E4, E5. Qed.

(** The callback is over: none is left. *)
Lemma reg_over s h k r :
  reg_ok s h -> stop s = Some r -> k = 0%nat -> reg_ok (set_tokens s k) (set_regs h (<[r := Over]> (regs h))) /\
  callback (set_tokens s k) (set_regs h (<[r := Over]> (regs h))) = Some Over.
Proof.
  intros (R1 & R2 & R3 & R4 & R5 & R6) Hs ->.
  assert (Hlt : (r < length (regs h))%nat).
  { unfold callback in R2. rewrite Hs in R2. cbn in R2. destruct (regs h !! r) eqn:E; [by apply lookup_lt_Some in E |]. by destruct R2. }
  assert (Hc : callback (set_tokens s 0) (set_regs h (<[r := Over]> (regs h))) = Some Over).
  { unfold callback. cbn. rewrite Hs. cbn. by apply list_lookup_insert_eq. }
  split; [| exact Hc]. unfold reg_ok. rewrite Hc. cbn. split_and!; try done.
  - intros r' x Hx. destruct (decide (r' = r)) as [-> | Hne]; [by right |]. rewrite list_lookup_insert_ne in Hx by done. eauto.
  - intros x c [= <-]. done.
Qed.

Lemma stop_step_ok s h j a e i r :
  owner s = Some j -> own_ok s h (Some (j, (a, Stop e))) -> exec_end a s h (Stop e) i = Some r -> moves s h j a r.
Proof.
  intros Ho Hok. pose proof Hok as (Hd & Hr & Hl & Hb & (Hc & Hs & Hov)). cbn [exec_end].
  destruct (stop s) as [r0 |] eqn:Es.
  - rewrite orb_true_r. pose proof Hr as (R1 & R2 & R3 & R4 & R5 & R6). unfold callback in *. rewrite Es in *. cbn in *.
    destruct (regs h !! r0) as [x |] eqn:Ex; [| by destruct R2].
    destruct x as [c | c | c | c |]; try done; intros [= <-];
      try (own_parts; try done; cbn; (split; [eexists; unfold callback; rewrite Es; cbn; rewrite Ex; done | done])).
    destruct (reg_over s h (interruptDone s) r0 Hr Es R4) as [Hr1 Hc1].
    replace (set_tokens s (interruptDone s)) with s in Hr1, Hc1 by by destruct s.
    own_parts; try done. cbv beta iota delta [phase]. rewrite Hc1. split_and!; [by right | done |].
    by eapply over_write_ext, Hov.
  - destruct (slow s) eqn:El; cbn [orb].
    + intros [= <-]. eapply moves_here; [done | exact Hok |]. cbn. split; [left; unfold callback; by rewrite Es | done].
    + intros [= <-]. eapply moves_here; [done | exact Hok |].
      assert (Hp : parked (dl s) = false) by (destruct (parked (dl s)) eqn:E; [apply Hd in E; congruence | done]).
      assert (Hsw : shutdownWake (dl s) = false) by (destruct (shutdownWake (dl s)) eqn:E; [apply Hd in E; congruence | done]).
      assert (Hi : interrupted (dl s) = false).
      { destruct (interrupted (dl s)) eqn:E; [| done]. destruct Hr as (_ & _ & _ & _ & R5 & _). destruct (R5 E); congruence. }
      assert (Hk : is_woken (dl s) = false) by (unfold is_woken; by rewrite Hi, Hsw).
      cbn. destruct Hov as [Hwr Hov]. split_and!; try done; [left; unfold callback; by rewrite Es | | destruct e; apply Hov].
      intros e' ->. unfold came_first. rewrite Hk.
      destruct Hwr as [? | [[= ->] | ([= ->] & Hx)]]; [done | |]; (split; [by intros [|] |]); [done | auto].
Qed.

Lemma join_step_ok s h j a e i r :
  owner s = Some j -> own_ok s h (Some (j, (a, Join e))) -> exec_end a s h (Join e) i = Some r -> moves s h j a r.
Proof.
  intros Ho (Hd & Hr & Hl & Hb & ((x & Hx & Hsx) & Hs & Hov)). cbn [exec_end].
  destruct (interruptDone s) as [| k] eqn:Ei; [done |]. destruct (stop s) as [r0 |] eqn:Es; [| done]. intros [= <-].
  assert (Hk : k = 0%nat).
  { destruct Hr as (_ & _ & _ & R4 & _). rewrite Hx in R4. destruct x; cbn in R4; lia. }
  destruct (reg_over s h k r0 Hr Es Hk) as [Hr1 Hc1].
  own_parts; try done. cbv beta iota delta [phase]. rewrite Hc1. split_and!; [by right | done |]. by eapply over_write_ext, Hov.
Qed.

(** The error after the deadline is back, with its cause. *)
Lemma restored_cause s h a e e' :
  dl_ok s h -> reg_ok s h -> s_ctx s = a_ctx a -> write_result s h e ->
  e' = (if is_woken (dl s) then
          if Is e ErrDeadlineExceeded && negb (callerFirst (dl s))
          then if shutdownWake (dl s) then Some (Plain (Errno ESHUTDOWN)) else ctx_Err h (a_ctx a)
          else e
        else e) ->
  cause_ok h a e' (came_first s h) /\ (e' = None <-> e = None).
Proof.
  intros (_ & _ & _ & D4 & _) Hr Hs Hw ->. unfold came_first.
  assert (Hplain : forall p first, p <> Sentinel ErrDeadlineExceeded -> ~ context_error (Plain p) -> cause_ok h a (Some (Plain p)) first).
  { intros p first H1 H2 e2 [= <-]. split; [done |]. intros [= ->]. done. }
  destruct (is_woken (dl s)) eqn:Hk.
  2: { split; [| done]. destruct Hw as [-> | [-> | (-> & Hx)]]; [done | apply Hplain; [done | by intros [|]] |].
       intros e' [= <-]. split; [by intros [|] | auto]. }
  destruct Hw as [-> | [-> | (-> & _)]]; [done | split; [apply Hplain; [done | by intros [|]] | done] |].
  specialize (D4 eq_refl). cbn [Is]. replace (errors_Is _ _) with true by done. cbn [andb]. rewrite <- D4.
  destruct (callerFirst (dl s)); cbn [negb]; [split; [| done]; intros e' [= <-]; split; [by intros [|] | done] |].
  destruct (shutdownWake (dl s)) eqn:Esw; [split; [apply Hplain; [done | by intros [|]] | done] |].
  assert (Hi : interrupted (dl s) = true) by (unfold is_woken in Hk; by rewrite Esw, orb_false_r in Hk).
  pose proof Hr as (_ & _ & _ & _ & R5 & _). destruct (R5 Hi) as (_ & c & Hc & Hd). rewrite Hs in Hc.
  destruct (ctx_Err h (a_ctx a)) as [e' |] eqn:He; [split; [by eapply cause_ctx | done] |].
  rewrite Hc in He. done.
Qed.

Lemma restore_step_ok s h j a e i r :
  owner s = Some j -> own_ok s h (Some (j, (a, Restore e))) -> exec_end a s h (Restore e) i = Some r -> moves s h j a r.
Proof.
  intros Ho (Hd & Hr & Hl & Hb & (Hc & Hs & [Hwr Hov])). cbn [exec_end]. unfold restore.
  edestruct (restored_cause s h a e) as [Hca Hn]; [done.. |].
  pose proof Hd as (D1 & D2 & D3 & D4 & D5 & D6 & D7 & D8).
  assert (Hend : forall e' : option error, (e' = None <-> e = None) ->
    match e' with
    | None => is_errno (err (st s)) /\ told (explicit s) a (wire_of h j) (n (st s)) (err (st s))
    | Some _ => wire_of h j = []
    end).
  { intros e' [H1 H2]. destruct e' as [e' |], e as [e0 |]; [apply Hov | by specialize (H2 eq_refl) | by specialize (H1 eq_refl) | apply Hov]. }
  destruct (is_woken (dl s)) eqn:Hk; intros [= <-].
  - assert (Hr1 : forall h1, regs h1 = regs h -> ctx_err h1 = ctx_err h ->
      reg_ok (set_dl s (set_parked (set_wakes (dl s) (callerFirst (dl s)) false false) false)) h1).
    { intros h1 E1 E2. destruct Hr as (R1 & R2 & R3 & R4 & R5 & R6). unfold reg_ok, callback in *. cbn. rewrite E1, E2. by split_and!. }
    assert (Hd1 : dl_ok (set_dl s (set_parked (set_wakes (dl s) (callerFirst (dl s)) false false) false))
                   (fst (setWriteDeadline h (callerDeadline (dl s))))).
    { unfold setWriteDeadline, dl_ok. destruct (file_open h) eqn:Hf; cbn; split_and!; try done. congruence. }
    unfold setWriteDeadline in *. specialize (Hend _ Hn). destruct (file_open h) eqn:Hf; own_parts; try done; by apply Hr1.
  - destruct (woken_false _ Hk) as [_ Hsw]. own_parts; try done.
    + unfold dl_ok, is_woken in *. cbn. rewrite Hsw, Hk in *. by split_and!.
    + cbn. split_and!; try done. by apply Hend.
Qed.

Lemma finish_step_ok s h j a e first i r :
  owner s = Some j -> own_ok s h (Some (j, (a, Finish e first))) -> exec_end a s h (Finish e first) i = Some r -> moves s h j a r.
Proof.
  intros Ho (Hd & Hr & Hl & Hb & (Hc & Hs & Hk & Hp & Hca & Hov)). cbn [exec_end].
  set (s' := set_st _ _). set (e1 := match e with Some _ => e | None => err (st s) end). intros [= <-].
  assert (Hown : own_ok (set_owner s' None) h None).
  { destruct Hd as (D1 & D2 & D3 & D4 & D5 & D6 & D7 & D8). destruct Hr as (R1 & R2 & R3 & R4 & R5 & R6).
    destruct (woken_false _ Hk) as [Hi Hsw].
    own_parts; try done.
    - unfold dl_ok. cbn. rewrite Hp, Hsw in *. by split_and!.
    - unfold reg_ok. cbn. rewrite Hi. split_and!; try done.
      + intros r x Hx. destruct (R1 r x Hx) as [-> | Hst]; [by left |]. left.
        unfold callback in Hc. rewrite Hst in Hc. cbn in Hc. destruct Hc; congruence.
      + rewrite R4. by destruct Hc as [-> | ->]. }
  assert (Hgo : forall k e2, outside_ok (explicit s) h j a (Returned k e2 first) -> moves s h j a (set_owner s' None, h, Returned k e2 first)).
  { intros k e2 Hout. own_parts; try done; apply Hown. }
  destruct e as [e |]; cbn in e1; subst e1.
  - apply Hgo. cbn. split; [done |]. by right.
  - destruct Hov as [He Ht]. destruct (err (st s)) as [e |] eqn:Ee.
    + apply told_empty in Ht as [Hw Hn]. apply Hgo. split; [| by right].
      intros e' [= <-]. destruct (He e eq_refl) as [k ->]. split; [by intros [|] | done].
    + destruct Ht as [(_ & m & Hw & Hm) | (? & _)]; [| done].
      destruct (n (st s) =? len (a_b a)) eqn:En; apply Hgo; cbn; (split; [| left; exists m; by rewrite En]).
      * done.
      * intros e' [= <-]. split; [by intros [|] | done].
Qed.
End Preserved.

(** *** Steps of others *)
Section Others.
Context `{A : Arch} `{AK : !ArchOk A}.

Definition in_write (p : pc) : bool :=
  match p with Attempt | Park _ | Register _ | Wait | Stop _ | Join _ | Restore _ => true | _ => false end.

(** A callback that has only gone on. *)
Definition went_on (x x' : option reg) : Prop :=
  x' = x \/ exists y y', x = Some y /\ x' = Some y' /\ y <> Over /\ y' <> Over /\ (started y = true -> started y' = true).

Lemma went_on_phase x x' :
  went_on x x' -> (x <> Some Over -> x' <> Some Over) /\
  ((exists y, x = Some y /\ started y = true) -> exists y, x' = Some y /\ started y = true) /\
  (x = None \/ x = Some Over -> x' = None \/ x' = Some Over).
Proof.
  intros [-> | (y & y' & -> & -> & H1 & H2 & H3)]; [done |]. split; [congruence |]. split.
  - intros (z & [= <-] & Hz). exists y'. auto.
  - intros [? | ?]; congruence.
Qed.

Lemma cause_ok_mono h h' a e first :
  (forall c x, ctx_err h !! c = Some x -> ctx_err h' !! c = Some x) -> cause_ok h a e first -> cause_ok h' a e first.
Proof.
  intros Hc H e' He. destruct (H e' He) as [H1 H2]. split; [| exact H2]. intros Hx. destruct (H1 Hx) as [-> He']. split; [done |].
  unfold ctx_Err in *. destruct (a_ctx a); [done.. |]. by apply Hc.
Qed.

(** What a step of another leaves of the send in progress. *)
Lemma phase_frame s h s' h' j a p :
  st s' = st s -> explicit s' = explicit s -> s_ctx s' = s_ctx s -> stop s' = stop s -> slow s' = slow s ->
  (term s' = None <-> term s = None) -> wire h' = wire h ->
  (forall c x, ctx_err h !! c = Some x -> ctx_err h' !! c = Some x) ->
  parked (dl s') = parked (dl s) -> (crossing h = true -> crossing h' = true) ->
  is_woken (dl s') = is_woken (dl s) \/ (is_woken (dl s') = true /\ in_write p = true) ->
  went_on (callback s h) (callback s' h') -> (wake_ok s h -> wake_ok s' h') ->
  phase s h j a p -> phase s' h' j a p.
Proof.
  intros E1 E2 E3 E4 E5 E6 E7 E8 E9 E10 Hk Hg Hwk.
  apply went_on_phase in Hg as (G1 & G2 & G3).
  assert (Hq : in_write p = false -> quiet s -> quiet s').
  { intros Hp. destruct Hk as [Hk | [_ Hk]]; [| congruence]. unfold quiet. by rewrite Hk, E1, E4, E5, E9. }
  assert (Hov : forall e, in_write p = true -> over_write s h j a e -> over_write s' h' j a e).
  { intros e _ [H1 H2]. split; [| unfold wire_of in *; rewrite E1, E2, E7; exact H2].
    destruct H1 as [-> | [-> | [-> H1]]]; [by left | by right; left | right; right]. split; [done |].
    intros Hw. apply E10, H1. destruct Hk as [<- | [? _]]; congruence. }
  assert (Hst : stored s a -> stored s' a) by (unfold stored; by rewrite E1, E2).
  assert (Hwo : wire_of h' j = wire_of h j) by (unfold wire_of; by rewrite E7).
  destruct p; cbn [phase]; try done; try (specialize (Hq eq_refl)); try (pose proof (fun e => Hov e eq_refl) as Hov');
    rewrite ?E3, ?Hwo, ?E9, ?E1, ?E4.
  - tauto.
  - tauto.
  - tauto.
  - tauto.
  - tauto.
  - tauto.
  - intros (H1 & H2 & H3 & H4 & H5 & H6 & H7). split_and!; auto. intros H8. apply H7. tauto.
  - intros (H1 & H2 & H3 & H4 & H5 & H6 & H7). split_and!; auto. intros H8. apply H6. tauto.
  - intros (H1 & H2 & H3). split_and!; auto.
  - intros (H1 & H2 & H3). split_and!; auto.
  - intros (H1 & H2 & H3). split_and!; auto.
  - intros (H1 & H2 & H3 & H4 & H5 & H6). split_and!; auto.
    + destruct Hk as [-> | [_ ?]]; done.
    + by eapply cause_ok_mono.
    + destruct e; [done |]. by rewrite E2.
Qed.

Lemma holding_frame s h s' h' cur :
  st s' = st s -> explicit s' = explicit s -> s_ctx s' = s_ctx s -> stop s' = stop s -> slow s' = slow s ->
  (term s' = None <-> term s = None) -> wire h' = wire h ->
  (forall c x, ctx_err h !! c = Some x -> ctx_err h' !! c = Some x) ->
  parked (dl s') = parked (dl s) -> (crossing h = true -> crossing h' = true) ->
  is_woken (dl s') = is_woken (dl s) \/ (is_woken (dl s') = true /\ exists j a p, cur = Some (j, (a, p)) /\ in_write p = true) ->
  went_on (callback s h) (callback s' h') -> (wake_ok s h -> wake_ok s' h') ->
  holding s h cur -> holding s' h' cur.
Proof.
  intros E1 E2 E3 E4 E5 E6 E7 E8 E9 E10 Hk Hg Hw. destruct cur as [(j & a & p) |].
  - apply phase_frame; try done. destruct Hk as [| (H1 & ? & ? & ? & [= <- <- <-] & H2)]; auto.
  - destruct Hk as [Hk | (_ & ? & ? & ? & ? & _)]; [| done]. cbn. unfold quiet. by rewrite E1, E3, E4, E5, E9, Hk.
Qed.

(** A callback that is not over belongs to a send inside raw.Write. *)
Lemma active_in_write s h cur r x :
  reg_ok s h -> holding s h cur -> regs h !! r = Some x -> x <> Over ->
  stop s = Some r /\ callback s h = Some x /\ exists j a p, cur = Some (j, (a, p)) /\ in_write p = true.
Proof.
  intros (R1 & _) Hh Hx Hn. destruct (R1 r x Hx) as [? | Hs]; [done |].
  assert (Hc : callback s h = Some x) by (unfold callback; by rewrite Hs). split; [done |]. split; [done |].
  destruct cur as [(j & a & p) |]; [| destruct Hh as [(_ & _ & _ & H & _) _]; congruence].
  exists j, a, p. split; [done |]. destruct p; cbn in *; try done;
    try (destruct Hh as [(_ & _ & _ & H & _) _]; congruence). destruct Hh as ([? | ?] & _); congruence.
Qed.

Lemma callback_after s h s' h' r x :
  stop s = Some r -> stop s' = stop s -> regs h' = <[r := x]> (regs h) -> callback s h <> None -> callback s' h' = Some x.
Proof.
  intros Hs Hs' Hr Hc. unfold callback in *. rewrite Hs', Hr, Hs in *. cbn in *. apply list_lookup_insert_eq.
  destruct (regs h !! r) eqn:E; [by apply lookup_lt_Some in E | done].
Qed.

(** The callback [r] goes from [x] to [x']. *)
Lemma reg_ok_next s h s' h' r x x' c :
  reg_ok s h -> stop s = Some r -> callback s h = Some x -> ctx_of x = Some c -> ctx_of x' = Some c -> ctx_err h !! c <> None ->
  stop s' = stop s -> s_ctx s' = s_ctx s -> regs h' = <[r := x']> (regs h) -> ctx_err h' = ctx_err h ->
  interruptDone s' = match x' with Sent _ => 1%nat | _ => 0%nat end -> reg_ok s' h'.
Proof.
  intros (R1 & R2 & R3 & R4 & R5 & R6) Hs Hc Hx Hx' Hd E1 E2 E3 E4 E5.
  assert (Hc' : callback s' h' = Some x') by (eapply callback_after; [exact Hs | done | done | congruence]).
  destruct (R3 x c Hc Hx) as [Hsc _]. unfold reg_ok. rewrite Hc', E2, E4, E1. split_and!; try done.
  - intros r' y Hy. rewrite E3 in Hy. destruct (decide (r' = r)) as [-> | Hne]; [by right |].
    rewrite list_lookup_insert_ne in Hy by done. eauto.
  - intros y c' [= <-] Hc2. assert (c' = c) as -> by congruence. done.
  - intros _. split; [congruence |]. by exists c.
Qed.

Lemma own_intro s h cur :
  dl_ok s h -> reg_ok s h -> latch_ok s -> sndCmsgSpace <= len (cbuf (st s)) -> holding s h cur -> own_ok s h cur.
Proof. unfold own_ok. auto. Qed.

Lemma wake_ok_woken s h : is_woken (dl s) = true -> wake_ok s h.
Proof. by split. Qed.

(** What an interrupt or a shutdown wake leaves. *)
Lemma woken_dl_ok s h d h' l :
  dl_ok s h -> d = set_wakes (dl s) (crossed_first (dl s) (now h)) (shutdownWake d) (interrupted d) -> is_woken d = true ->
  interrupted d && shutdownWake d = false -> (shutdownWake d = true -> parked (dl s) = true) ->
  h' = set_history (fst (setWriteDeadline h (Some aLongTimeAgo))) (crossing h) (crossing h) ->
  dl_ok (set_dl s d) (set_regs h' l).
Proof.
  intros (D1 & D2 & D3 & D4 & D5 & D6 & D7 & D8) Hd Hk Hx Hp ->. unfold dl_ok. cbn [dl set_dl]. rewrite Hk.
  unfold setWriteDeadline. destruct (file_open h) eqn:Hf; cbn -[is_woken]; rewrite ?Hf; split_and!; try done;
    rewrite Hd; cbn; try done; rewrite D3; done.
Qed.

Lemma callback_step_ok r w w' cur :
  callback_step r w w' -> own_ok (send w) (hst w) cur ->
  own_ok (send w') (hst w') cur /\ threads w' = threads w /\ owner (send w') = owner (send w) /\ explicit (send w') = explicit (send w) /\
  wire (hst w') = wire (hst w) /\ ctx_err (hst w') = ctx_err (hst w).
Proof.
  intros Hstep (Hd & Hr & Hl & Hb & Hh). pose proof Hr as (_ & _ & R3 & R4 & _).
  destruct Hstep as [s h ts c Hx Hc | s h ts c d h' Hx Hi | s h ts c Hx Ht]; cbn in *;
    (destruct (active_in_write s h cur r _ Hr Hh Hx) as (Hs & Hcb & Hin); [done |]).
  - split; [| done]. apply own_intro; try done.
    + eapply (reg_ok_next s h _ _ r _ (Running c) c); try done. by rewrite R4, Hcb.
    + assert (Hc1 : callback s (set_regs h (<[r := Running c]> (regs h))) = Some (Running c))
        by (eapply (callback_after s h); [exact Hs | done | done | congruence]).
      eapply holding_frame, Hh; try done; [by left | |].
      * right. by exists (Registered c), (Running c).
      * intros [Hw _]. split; [exact Hw |]. rewrite Hc1. by intros x [= <-].
  - destruct (R3 _ c Hcb eq_refl) as [_ Hdone]. specialize (Hdone eq_refl). unfold interrupt in Hi.
    assert (Hd1 : (d = dl s /\ h' = h /\ is_woken (dl s) = true) \/ d = set_wakes (dl s) (crossed_first (dl s) (now h)) (shutdownWake (dl s)) true /\
      h' = set_history (fst (setWriteDeadline h (Some aLongTimeAgo))) (crossing h) (crossing h) /\ shutdownWake (dl s) = false).
    { unfold is_woken. destruct (shutdownWake (dl s)) eqn:E; cbn in Hi; injection Hi as <- <-; [left; by rewrite orb_true_r | auto]. }
    assert (Hrw : regs h' = regs h /\ wire h' = wire h /\ ctx_err h' = ctx_err h).
    { destruct Hd1 as [(_ & -> & _) | (_ & -> & _)]; [done |]. unfold setWriteDeadline. by destruct (file_open h). }
    destruct Hrw as (Er & Ew & Ec). rewrite Er.
    assert (Hpk : parked d = parked (dl s)) by by destruct Hd1 as [(-> & _) | (-> & _)].
    assert (Hcr : crossing h' = crossing h).
    { destruct Hd1 as [(_ & -> & _) | (_ & -> & _)]; [done |]. unfold setWriteDeadline. by destruct (file_open h). }
    split; [| split_and!; done]. apply own_intro; try done.
    + destruct Hd1 as [(-> & -> & _) | (-> & -> & Hsw)]; [exact Hd |].
      eapply woken_dl_ok; try done; cbn; by rewrite Hsw.
    + eapply (reg_ok_next s h _ _ r _ (Sending c) c); try done. cbn. by rewrite R4, Hcb.
    + eapply holding_frame, Hh; try done; try (cbn; congruence).
      * destruct Hd1 as [(-> & -> & _) | (-> & _)]; [by left | right]. done.
      * right. exists (Running c), (Sending c). split_and!; try done.
        eapply (callback_after s h); [exact Hs | done | done | congruence].
      * intros _. apply wake_ok_woken. by destruct Hd1 as [(-> & _ & ?) | (-> & _)].
  - destruct (R3 _ c Hcb eq_refl) as [_ Hdone]. specialize (Hdone eq_refl).
    split; [| done]. apply own_intro; try done.
    + by eapply (reg_ok_next s h _ _ r _ (Sent c) c).
    + eapply holding_frame, Hh; try done; [by left | |].
      * right. exists (Sending c), (Sent c). split_and!; try done. eapply (callback_after s h); [exact Hs | done | done | congruence].
      * intros [Hw Hw']. apply wake_ok_woken, (Hw' _ Hcb). done.
Qed.

Lemma expired_mono d t t' : t <= t' -> expired d t = true -> expired d t' = true.
Proof. destruct d as [z |]; [| done]. cbn. rewrite !Z.leb_le. lia. Qed.

(** The parts of the send state that setDeadline does not touch. *)
Lemma setDeadline_ok s h t m d h' e :
  dl_ok s h -> setDeadline (dl s) h t m = (d, h', e) ->
  dl_ok (set_dl s d) h' /\ is_woken d = is_woken (dl s) /\ interrupted d = interrupted (dl s) /\ parked d = parked (dl s) /\
  wire h' = wire h /\ ctx_err h' = ctx_err h /\ regs h' = regs h /\ woken h' = woken h /\ gone h' = gone h /\
  (crossing h = true -> crossing h' = true).
Proof.
  intros Hd Hs. pose proof Hd as (D1 & D2 & D3 & D4 & D5 & D6 & D7 & D8). unfold setDeadline in Hs.
  assert (Hx : forall x, (if expired (callerDeadline (dl s)) (now h) then true else callerCrossed (dl s)) || x = crossing h || x).
  { intros x. rewrite D3. unfold crossed_first. by destruct (callerCrossed (dl s)), (expired _ _), x. }
  destruct m; unfold setReadDeadline, setWriteDeadline, setBothDeadlines in Hs; cbn [interrupted shutdownWake] in Hs;
    destruct (file_open h) eqn:Hf; unfold is_woken in *; destruct (interrupted (dl s) || shutdownWake (dl s)) eqn:Hw;
    injection Hs as <- <- <-; (split; [| split_and!; try done; try (by cbn; intros ->)]);
    unfold dl_ok, is_woken; cbn; rewrite ?Hf, ?Hw; split_and!; try done; by rewrite <- Hx.
Qed.

Definition unchanged (w w' : world) : Prop :=
  owner (send w') = owner (send w) /\ explicit (send w') = explicit (send w) /\ wire (hst w') = wire (hst w) /\
  (forall c x, ctx_err (hst w) !! c = Some x -> ctx_err (hst w') !! c = Some x).

Lemma parked_in_write s h cur :
  holding s h cur -> parked (dl s) = true -> exists j a p, cur = Some (j, (a, p)) /\ in_write p = true.
Proof.
  intros Hh Hp. destruct cur as [(j & a & p) |]; [| destruct Hh as [(_ & H & _) _]; congruence].
  exists j, a, p. split; [done |]. destruct p; cbn in *; try done; try (destruct Hh as [(_ & H & _) _]; congruence).
  destruct Hh as (_ & _ & _ & H & _). congruence.
Qed.

Lemma out_time_ok s h t cur : now h <= t -> own_ok s h cur -> own_ok s (later h t (dl s)) cur.
Proof.
  assert (Hg : forall x, went_on x x) by by left.
  intros Ht (Hd & Hr & Hl & Hb & Hh). assert (Hcr : crossing h = true -> crossing h || expired (callerDeadline (dl s)) t = true) by by intros ->.
  apply own_intro; try done.
  - destruct Hd as (D1 & D2 & D3 & D4 & D5 & D6 & D7 & D8). unfold dl_ok. cbn. split_and!; try done; [| lia].
    rewrite D3. unfold crossed_first. destruct (callerCrossed (dl s)); [done |]. cbn.
    destruct (expired _ (now h)) eqn:E; [by rewrite (expired_mono _ _ _ Ht E) | done].
  - eapply holding_frame, Hh; try done. by left.
Qed.

Lemma out_ctx_ok s h c e cur : context_error e -> ctx_err h !! c = None -> own_ok s h cur -> own_ok s (end_ctx h c e) cur.
Proof.
  assert (Hg : forall x, went_on x x) by by left.
  intros He Hc (Hd & Hr & Hl & Hb & Hh).
  assert (Hmono : forall c' x, ctx_err h !! c' = Some x -> <[c := e]> (ctx_err h) !! c' = Some x).
  { intros c' x Hx. rewrite lookup_insert_ne; [done | congruence]. }
  assert (Hnn : forall c', ctx_err h !! c' <> None -> <[c := e]> (ctx_err h) !! c' <> None).
  { intros c' Hx. destruct (ctx_err h !! c') eqn:E; [| done]. by erewrite Hmono. }
  apply own_intro; try done.
  - destruct Hr as (R1 & R2 & R3 & R4 & R5 & R6). unfold reg_ok, callback in *. cbn. split_and!; try done.
    + intros x c' H1 H2. destruct (R3 x c' H1 H2) as [H3 H4]. auto.
    + intros Hi. destruct (R5 Hi) as (H1 & c' & H2 & H3). eauto.
    + intros c' e'. destruct (decide (c' = c)) as [-> | Hne]; [rewrite lookup_insert_eq; by intros [= <-] |].
      rewrite lookup_insert_ne by done. eauto.
  - eapply holding_frame, Hh; try done. by left.
Qed.

Lemma out_wake_ok s h d h' cur : moved h = true -> wakeShutdown (dl s) h = (d, h') -> own_ok s h cur ->
  own_ok (set_dl s d) (set_assoc h' true true (gone h')) cur /\ wire h' = wire h /\ ctx_err h' = ctx_err h.
Proof.
  assert (Hg : forall x, went_on x x) by by left.
  intros Hm Hw (Hd & Hr & Hl & Hb & Hh). unfold wakeShutdown in Hw.
  destruct (parked (dl s) && negb (interrupted (dl s)) && negb (shutdownWake (dl s))) eqn:Hk; injection Hw as <- <-.
  - apply andb_prop in Hk as [[Hp Hi%negb_true_iff]%andb_prop Hsw%negb_true_iff].
    pose proof (parked_in_write _ _ _ Hh Hp) as Hin.
    rewrite Hi. set (h1 := set_history _ _ _). set (d := set_wakes _ _ _ _).
    assert (Hd1 : dl_ok (set_dl s d) (set_regs h1 (regs h))) by by eapply (woken_dl_ok s h d h1).
    assert (Hsame : wire (fst (setWriteDeadline h (Some aLongTimeAgo))) = wire h /\ ctx_err (fst (setWriteDeadline h (Some aLongTimeAgo))) = ctx_err h /\
      regs (fst (setWriteDeadline h (Some aLongTimeAgo))) = regs h) by (unfold setWriteDeadline; by destruct (file_open h)).
    destruct Hsame as (E1 & E2 & E3). subst h1 d. cbn. rewrite E2. split; [| split; [exact E1 | done]]. apply own_intro; try done.
    + destruct Hd1 as (D1 & D2 & D3 & D4 & D5 & D6 & D7 & D8). unfold dl_ok. by split_and!.
    + destruct Hr as (R1 & R2 & R3 & R4 & R5 & R6). unfold reg_ok, callback in *. cbn. rewrite E2, E3. by split_and!.
    + eapply holding_frame, Hh; try done; try exact E1; try (cbn; by rewrite E2); [by right |].
      left. apply callback_ext; [done | exact E3].
  - split; [| auto]. apply own_intro; try done.
    { destruct Hd as (D1 & D2 & D3 & D4 & D5 & D6 & D7 & D8). unfold dl_ok; cbn; by split_and!. }
    eapply holding_frame, Hh; try done; [by left |]. intros [_ Hx]. split; [| exact Hx]. intros Hp _ _. cbn in *. unfold is_woken.
    rewrite Hp in Hk. cbn in Hk. by destruct (interrupted (dl s)), (shutdownWake (dl s)).
Qed.

Lemma outside_step_ok w w' cur :
  outside w w' -> own_ok (send w) (hst w) cur ->
  own_ok (send w') (hst w') cur /\ unchanged w w' /\ (threads w' = threads w \/ exists a, threads w' = threads w ++ [(a, Lock)]).
Proof.
  intros Hstep Hown. pose proof Hown as (Hd & Hr & Hl & Hb & Hh).
  assert (Hg : forall x, went_on x x) by by left.
  destruct Hstep as [s h ts t Ht | s h ts c e He Hc | s h ts t m d h' e Hs | s h ts | s h ts d h' Hm Hw | s h ts | s h ts | s h ts t o Ht
    | s h ts i p Ho | s h ts a]; cbn in *; unfold unchanged; cbn.
  - (* time *)
    assert (Hcr : crossing h = true -> crossing h || expired (callerDeadline (dl s)) t = true) by by intros ->.
    split; [by apply out_time_ok | auto].
  - (* a context ends *)
    assert (Hmono : forall c' x, ctx_err h !! c' = Some x -> <[c := e]> (ctx_err h) !! c' = Some x)
      by (intros c' x Hx; rewrite lookup_insert_ne; [done | congruence]).
    split; [by apply out_ctx_ok | auto].
  - (* setDeadline *)
    destruct (setDeadline_ok s h t m d h' e Hd Hs) as (Hd1 & E1 & E2 & E3 & E4 & E5 & E6 & E7 & E8 & E9).
    rewrite E4, E5. split; [| auto]. apply own_intro; try done.
    + by eapply reg_ok_ext, Hr.
    + eapply holding_frame, Hh; try done; [by rewrite E5 | by left | |].
      * left. by apply callback_ext.
      * unfold wake_ok. rewrite (callback_ext s h (set_dl s d) h') by done. cbn. by rewrite E1, E3, E7, E8.
  - (* the association moves *)
    split; [| auto]. apply own_intro; try done.
    destruct Hd as (D1 & D2 & D3 & D4 & D5 & D6 & D7 & D8). unfold dl_ok; cbn; by split_and!.
  - (* wakeShutdown *) destruct (out_wake_ok s h d h' cur Hm Hw Hown) as (Hok & E1 & E2).
    rewrite E2. split; [exact Hok |]. split; [split_and!; done || exact E1 | auto].
  - (* the association is gone *)
    split; [| auto]. apply own_intro; try done.
    eapply holding_frame, Hh; try done; [by left |]. intros [_ Hx]. by split.
  - (* the file is closed *)
    split; [| auto]. apply own_intro; try done.
    destruct Hd as (D1 & D2 & D3 & D4 & D5 & D6 & D7 & D8). unfold dl_ok; cbn; by split_and!.
  - (* the latch *)
    split; [| auto]. apply own_intro; try done.
    + unfold latch_ok in *. rewrite Ht in Hl. cbn. apply (apply_op_kept t o Hl).
    + eapply holding_frame, Hh; try done; [cbn; rewrite Ht; split; done | by left].
  - (* the defaults *)
    split; [| auto]. by apply own_intro.
  - split; [done |]. split; [done |]. right. by exists a.
Qed.
End Others.

(** ** The whole invariant *)
Section Whole.
Context `{A : Arch} `{AK : !ArchOk A}.

(** The send that holds the lock. *)
Definition current (w : world) : option (nat * (arguments * pc)) :=
  j ← owner (send w); t ← threads w !! j; Some (j, t).

Record Inv (w : world) : Prop := {
  inv_own : own_ok (send w) (hst w) (current w);
  inv_lock : forall j a p, threads w !! j = Some (a, p) -> (holds p = true <-> owner (send w) = Some j);
  inv_owner : forall j, owner (send w) = Some j -> is_Some (threads w !! j);
  inv_out : forall j a p, threads w !! j = Some (a, p) -> holds p = false -> outside_ok (explicit (send w)) (hst w) j a p;
  inv_wire : forall j, threads w !! j = None -> wire_of (hst w) j = [];
}.

Lemma Inv_initial w : initial w -> Inv w.
Proof.
  intros [snd pr endpoint t Ht]. split; cbn; try done.
  assert (Hs : 0 <= sndCmsgSpace) by (arch_cases A; done).
  split; [unfold dl_ok; cbn; auto 10 |]. split; [| split; [| split]].
  - unfold reg_ok, callback. cbn. split_and!; try done.
  - unfold latch_ok. cbn. destruct endpoint; [done | apply zero_inv].
  - cbn. by rewrite len_zeros.
  - done.
Qed.

Lemma exec_ok s h j a p i r :
  owner s = Some j -> own_ok s h (Some (j, (a, p))) -> answers h i -> exec j a s h p i = Some r -> moves s h j a r.
Proof.
  intros Ho Hok Hans. destruct p; cbn [exec]; intros Hx;
    try (by eapply (begin_ok s h j a _ i); [exact Ho | exact Hok | | exact Hx]); try (by eapply (poll_ok s h j a _ i); [exact Ho | exact Hok | exact Hx]).
  - destruct Hok as (_ & _ & _ & _ & []).
  - by eapply attempt_step_ok.
  - by eapply park_step_ok.
  - by eapply register_step_ok.
  - by eapply stop_step_ok.
  - by eapply join_step_ok.
  - by eapply restore_step_ok.
  - by eapply finish_step_ok.
Qed.

Lemma outside_ok_mono ex h h' j a p :
  wire_of h' j = wire_of h j -> (forall c x, ctx_err h !! c = Some x -> ctx_err h' !! c = Some x) ->
  outside_ok ex h j a p -> outside_ok ex h' j a p.
Proof.
  intros Hw Hc. destruct p; cbn; try done; rewrite Hw; [done |]. intros [H1 H2]. split; [by eapply cause_ok_mono | done].
Qed.

(** Taking the lock, or giving up. *)
Lemma lock_step s h j a i s' h' p' :
  exec j a s h Lock i = Some (s', h', p') ->
  (s' = s /\ h' = h /\ exists e, ctx_Err h (a_ctx a) = Some e /\ p' = Returned 0 (Some e) false) \/
  (owner s = None /\ s' = set_owner s (Some j) /\ h' = h /\ (p' = CtxCheck \/ p' = Fill /\ a_ctx a = noContext)).
Proof.
  cbn. destruct (a_ctx a) as [| | c] eqn:Ec.
  - case_bool_decide; [| done]. intros [= <- <- <-]. right. auto 10.
  - cbn. case_bool_decide; [| done]. intros [= <- <- <-]. right. auto 10.
  - destruct (bool_decide _ && _) eqn:E.
    2: { clear E. case_bool_decide; [| done]. intros [= <- <- <-]. right. auto 10. }
    intros [= <- <- <-]. left. apply andb_prop in E as [E%bool_decide_eq_true _].
    destruct (ctx_err h !! c) as [e |] eqn:He; [| done]. split_and!; try done. exists e. cbn. by rewrite He.
Qed.

Lemma current_at w j a p : owner (send w) = Some j -> threads w !! j = Some (a, p) -> current w = Some (j, (a, p)).
Proof. unfold current. intros -> Ht. cbn. by rewrite Ht. Qed.

Lemma now_at_current s' h' ts j a p0 p' :
  ts !! j = Some (a, p0) -> owner s' = (if holds p' then Some j else None) ->
  current {| send := s'; hst := h'; threads := <[j := (a, p')]> ts |} = now_at j a p'.
Proof.
  intros Ht Ho. unfold current, now_at. cbn. rewrite Ho. destruct (holds p'); [cbn | done].
  by rewrite list_lookup_insert_eq by (by eapply lookup_lt_Some).
Qed.

Lemma Inv_send j w w' : send_step j w w' -> Inv w -> Inv w'.
Proof.
  intros [s h ts a p i s' h' p' Ht Hans Hx] [Hown Hlock Howner Hout Hwire]. cbn in *.
  pose proof (lookup_lt_Some _ _ _ Ht) as Hlt.
  assert (Hcase : forall k b q, <[j := (a, p')]> ts !! k = Some (b, q) -> (k = j /\ b = a /\ q = p') \/ (k <> j /\ ts !! k = Some (b, q))).
  { intros k b q. destruct (decide (k = j)) as [-> | Hne]; [rewrite list_lookup_insert_eq by done; intros [= <- <-]; auto |].
    rewrite list_lookup_insert_ne by done. auto. }
  destruct (holds p) eqn:Hp.
  - assert (Ho : owner s = Some j) by by apply (Hlock j a p).
    pose proof (current_at {| send := s; hst := h; threads := ts |} j a p Ho Ht) as Hcur. rewrite Hcur in Hown.
    destruct (exec_ok _ _ _ _ _ _ _ Ho Hown Hans Hx) as (H1 & H2 & H3 & H4 & H5 & H6).
    split; cbn.
    + by rewrite (now_at_current s' h' ts j a p p' Ht H2).
    + intros k b q [(-> & -> & ->) | [Hne Hk]]%Hcase; [rewrite H2; by destruct (holds p') |].
      specialize (Hlock k b q Hk). rewrite Ho in Hlock. rewrite Hlock, H2. destruct (holds p'); split; congruence.
    + intros k. rewrite H2. destruct (holds p'); [intros [= <-]; by rewrite list_lookup_insert_eq | done].
    + intros k b q [(-> & -> & ->) | [Hne Hk]]%Hcase Hq; rewrite H3; [auto |].
      eapply outside_ok_mono; [by apply H4 | by rewrite H5 | eauto].
    + intros k Hk. destruct (decide (k = j)) as [-> |]; [by rewrite list_lookup_insert_eq in Hk |].
      rewrite list_lookup_insert_ne in Hk by done. rewrite H4 by done. auto.
  - assert (p = Lock) as -> by (destruct p; done || (exfalso; by destruct (exec j a s h (Returned k e first) i))).
    pose proof (Hout j a Lock Ht eq_refl) as Hw. cbn in Hw.
    assert (Hj : owner s <> Some j) by (intros Ho; by apply (Hlock j a Lock) in Ho).
    destruct (lock_step _ _ _ _ _ _ _ _ Hx) as [(-> & -> & e & He & ->) | (Ho & -> & -> & Hp')].
    + split; cbn; try done.
      * unfold current in *. cbn in *. destruct (owner s) as [k |]; [| done]. cbn in *. by rewrite list_lookup_insert_ne by congruence.
      * intros k b q [(-> & -> & ->) | [Hne Hk]]%Hcase; [split; done | eauto].
      * intros k Hk. rewrite list_lookup_insert_ne by congruence. auto.
      * intros k b q [(-> & -> & ->) | [Hne Hk]]%Hcase Hq; [| eauto]. cbn. split; [eapply cause_ctx; [apply Hown | done] | by right].
      * intros k Hk. destruct (decide (k = j)) as [-> |]; [done |]. rewrite list_lookup_insert_ne in Hk by done. auto.
    + assert (Hh : holds p' = true) by (by destruct Hp' as [-> | [-> _]]).
      assert (Hcur : own_ok s h None).
      { unfold current in Hown. cbn in Hown. by rewrite Ho in Hown. }
      destruct Hcur as (Hd & Hr & Hl & Hb & Hq & Hs).
      split; cbn -[current]; try done.
      * rewrite (now_at_current (set_owner s (Some j)) h ts j a Lock p' Ht) by (by rewrite Hh). unfold now_at. rewrite Hh.
        apply own_intro; try done. destruct Hp' as [-> | [-> Hn]]; cbn; rewrite ?Hn; done.
      * intros k b q [(-> & -> & ->) | [Hne Hk]]%Hcase; [by rewrite Hh |]. rewrite (Hlock k b q Hk), Ho. split; congruence.
      * intros k [= <-]. by rewrite list_lookup_insert_eq.
      * intros k b q [(-> & -> & ->) | [Hne Hk]]%Hcase Hq'; [congruence | eauto].
      * intros k Hk. destruct (decide (k = j)) as [-> |]; [done |]. rewrite list_lookup_insert_ne in Hk by done. auto.
Qed.

Lemma Inv_others w w' :
  unchanged w w' -> threads w' = threads w \/ (exists a, threads w' = threads w ++ [(a, Lock)]) ->
  own_ok (send w') (hst w') (current w) -> Inv w -> Inv w'.
Proof.
  intros (E1 & E2 & E3 & E4) Ht Hown [_ Hlock Howner Hout Hwire].
  assert (Hw : forall j, wire_of (hst w') j = wire_of (hst w) j) by (intros j; unfold wire_of; by rewrite E3).
  assert (Hcase : forall j a p, threads w' !! j = Some (a, p) -> threads w !! j = Some (a, p) \/ (threads w !! j = None /\ p = Lock)).
  { intros j a p Hj. destruct Ht as [Ht | [b Ht]]; rewrite Ht in Hj; [by left |]. apply lookup_app_Some in Hj as [| [Hle Hj]]; [by left |].
    right. split; [by apply lookup_ge_None | ]. by apply list_lookup_singleton_Some in Hj as [_ [= _ <-]]. }
  assert (Hkeep : forall j t, threads w !! j = Some t -> threads w' !! j = Some t).
  { intros j t Hj. destruct Ht as [-> | [b ->]]; [done | by apply lookup_app_l_Some]. }
  split.
  - replace (current w') with (current w); [done |]. unfold current. rewrite E1. destruct (owner (send w)) as [j |] eqn:Ho; [| done].
    destruct (Howner j eq_refl) as [t Hj]. cbn. by rewrite Hj, (Hkeep _ _ Hj).
  - rewrite E1. intros j a p [Hj | [Hj ->]]%Hcase; [eauto |]. split; [done |]. intros Ho. destruct (Howner j Ho). congruence.
  - rewrite E1. intros j Ho. destruct (Howner j Ho) as [t Hj]. exists t. auto.
  - rewrite E2. intros j a p [Hj | [Hj ->]]%Hcase Hp; [eapply outside_ok_mono; eauto |]. cbn. rewrite Hw. auto.
  - intros j Hj. rewrite Hw. apply Hwire. destruct (threads w !! j) eqn:E; [by rewrite (Hkeep _ _ E) in Hj | done].
Qed.

Lemma send_Inv_step w w' : step w w' -> Inv w -> Inv w'.
Proof.
  intros [j w1 w2 Hs | r w1 w2 Hs | w1 w2 Hs] HI; [by eapply Inv_send | |].
  - destruct (callback_step_ok r _ _ _ Hs (inv_own _ HI)) as (H1 & H2 & H3 & H4 & H5 & H6).
    eapply Inv_others; [| by left | exact H1 | done]. split_and!; try done. by rewrite H6.
  - destruct (outside_step_ok _ _ _ Hs (inv_own _ HI)) as (H1 & H2 & H3). by eapply Inv_others.
Qed.

Lemma send_Inv_reachable w : reachable w -> Inv w.
Proof.
  intros (w0 & Hi & Hs). apply Inv_initial in Hi. induction Hs; [done |]. eauto using send_Inv_step.
Qed.
End Whole.

(** ** What each sendmsg carries *)
Section Said.
Context `{A : Arch} `{AK : !ArchOk A}.

(** In the calls [l], the kernel refused the message of send [j] with
    EADDRNOTAVAIL, and the status query after that found the association
    ended. *)
Definition given_up (ex : bool) (l : list event) (j : nat) (d : SndInfo * PrInfo) (a : arguments) : Prop :=
  exists l1 l2 r, l = l1 ++ [Sendmsg j d (asked ex a d.1 d.2 false) (inr EADDRNOTAVAIL); Ended j r] ++ l2 /\ assocEnded r = true.

(** [m] is what send [j] was called with, completed with the defaults [d]:
    with its destination, or without it after the kernel gave that up. *)
Definition own_message (ex : bool) (l : list event) (j : nat) (d : SndInfo * PrInfo) (a : arguments) (m : message) : Prop :=
  m = asked ex a d.1 d.2 false \/ (m = asked ex a d.1 d.2 true /\ given_up ex l j d a).

(** The message is in the storage and may still be sent. *)
Definition filled (p : pc) : bool :=
  match p with Prepare | Attempt | Park _ | Register _ | Wait => true | _ => false end.

Record Said (w : world) : Prop := {
  said_defaults : (defSnd (send w), defPR (send w)) = chosen (hst w);
  said_stored : forall j a p, threads w !! j = Some (a, p) -> filled p = true ->
    own_message (explicit (send w)) (log (hst w)) j (chosen (hst w)) a (message_of (st (send w)));
  said_log : forall l1 j d m r l2, log (hst w) = l1 ++ Sendmsg j d m r :: l2 ->
    exists a p, threads w !! j = Some (a, p) /\ own_message (explicit (send w)) l1 j d a m;
}.

Lemma own_message_app ex l l' j d a m : own_message ex l j d a m -> own_message ex (l ++ l') j d a m.
Proof.
  intros [H | (H & l1 & l2 & r & -> & Hr)]; [by left | right]. split; [done |]. exists l1, (l2 ++ l'), r. by rewrite <- !app_assoc.
Qed.

(** What the storage and the calls of a step are, and what it leaves. *)
Definition says (s : sendState) (h : host) (j : nat) (a : arguments) (s' : sendState) (h' : host) : Prop :=
  (defSnd s', defPR s') = (defSnd s, defPR s) /\ explicit s' = explicit s /\ chosen h' = chosen h /\
  exists l, log h' = log h ++ l /\
    (own_message (explicit s) (log h) j (chosen h) a (message_of (st s)) ->
     own_message (explicit s) (log h') j (chosen h) a (message_of (st s')) /\
     forall l1 i d m r l2, l = l1 ++ Sendmsg i d m r :: l2 ->
       i = j /\ d = chosen h /\ own_message (explicit s) (log h ++ l1) j d a m).

Lemma sendmsg_log j x h ans h' k e :
  sendmsg j x h ans = (h', k, e) ->
  h' = set_log h (log h ++ [Sendmsg j (chosen h) (message_of x) ans]) /\
  (forall n, err_is e (Errno n) = true -> ans = inr n).
Proof.
  unfold sendmsg. destruct ans as [n | n]; intros [= <- <- <-]; (split; [done |]); [done |].
  intros n'. cbn. intros [= ->]%bool_decide_eq_true. done.
Qed.

(** A single call with the message stored. *)
Lemma says_one s h j a s' h' l ans :
  (defSnd s', defPR s') = (defSnd s, defPR s) -> explicit s' = explicit s -> chosen h' = chosen h -> st s' = st s ->
  log h' = log h ++ Sendmsg j (chosen h) (message_of (st s)) ans :: l -> (forall e, e ∈ l -> exists r, e = Ended j r) ->
  says s h j a s' h'.
Proof.
  intros E1 E2 E3 E4 E5 Hl. split_and!; try done. eexists. split; [exact E5 |]. intros Hm.
  rewrite E4, E5. split; [by apply own_message_app |]. intros l1 i d m r l2 Heq.
  destruct l1 as [| e l1]; cbn in Heq; [injection Heq as <- <- <- _ _; by rewrite app_nil_r |].
  injection Heq as _ ->. destruct (Hl (Sendmsg i d m r)) as [r' ?]; [apply elem_of_app; right; by left | done].
Qed.

Lemma asked_dropped ex a i p b x :
  message_of x = asked ex a i p b -> message_of (set_name x None) = asked ex a i p true.
Proof. unfold asked, message_of. cbn. by intros [= -> -> _ ->]. Qed.

(** The call made again without its destination. *)
Lemma says_again s h j a s' h' r ans :
  (defSnd s', defPR s') = (defSnd s, defPR s) -> explicit s' = explicit s -> chosen h' = chosen h ->
  st s' = set_name (st s) None -> name (st s) <> None -> assocEnded r = true ->
  log h' = log h ++ [Sendmsg j (chosen h) (message_of (st s)) (inr EADDRNOTAVAIL); Ended j r;
                     Sendmsg j (chosen h) (message_of (st s')) ans] ->
  says s h j a s' h'.
Proof.
  intros E1 E2 E3 E4 Hn Hr E5. split_and!; try done. eexists. split; [exact E5 |]. intros Hm.
  destruct Hm as [Hm | [Hm _]]; [| by apply (f_equal m_name) in Hm].
  assert (Hm' : message_of (st s') = asked (explicit s) a (chosen h).1 (chosen h).2 true) by (rewrite E4; by eapply asked_dropped).
  assert (Hg : forall l, own_message (explicit s)
    (log h ++ [Sendmsg j (chosen h) (message_of (st s)) (inr EADDRNOTAVAIL); Ended j r] ++ l) j (chosen h) a (message_of (st s'))).
  { intros l. right. split; [done |]. exists (log h), l, r. by rewrite Hm. }
  split; [rewrite E5; apply (Hg [_]) |]. intros l1 i d m r' l2 Heq.
  destruct l1 as [| e1 [| e2 [| e3 l1]]]; cbn in Heq; simplify_eq.
  - rewrite app_nil_r. by split_and!; [| | left].
  - split_and!; try done. apply (Hg []).
  - by destruct l1.
Qed.

Lemma sendOnce_says j s h i a s' h' k e : sendOnce j s h i = (s', h', k, e) -> says s h j a s' h'.
Proof.
  unfold sendOnce.
  assert (Hnone : says s h j a s h).
  { split_and!; try done. exists []. rewrite app_nil_r. split; [done |]. intros Hm. split; [done |]. intros []; done. }
  destruct (term s) as [t |].
  2: { destruct (sendmsg j (st s) h (in_send i)) as [[h1 k1] e1] eqn:Hs. intros [= <- <- <- <-].
       apply sendmsg_log in Hs as [-> _]. eapply says_one; [done.. | by intros ? ?%not_elem_of_nil]. }
  destruct (t_err t); [by intros [= <- <- <- <-] |].
  destruct (sendmsg j (st s) h (in_send i)) as [[h1 k1] e1] eqn:Hs. apply sendmsg_log in Hs as [-> Hans].
  set (h1 := set_log h _). intros Hx.
  assert (Hlatch : forall s2 h2 k2 e2, says s h j a s2 h2 ->
    match e2 with Some _ => let '(t, e) := sendErrorLocked t e2 in (set_latch s2 (Some t), h2, k2, e) | None => (s2, h2, k2, e2) end = (s', h', k, e) ->
    says s h j a s' h').
  { intros s2 h2 k2 [e2 |] Hsay; [| by intros [= <- <- <- <-]]. destruct (sendErrorLocked t (Some e2)). by intros [= <- <- <- <-]. }
  destruct (err_is e1 (Errno EADDRNOTAVAIL) && _) eqn:Hr.
  - apply andb_prop in Hr as [Hr Hn%bool_decide_eq_true]. specialize (Hans _ Hr). destruct (assocEnded (in_status i)) eqn:Ha.
    + cbn [st set_st] in Hx. destruct (sendmsg j (set_name (st s) None) _ (in_resend i)) as [[h3 k3] e3] eqn:Hs3.
      apply sendmsg_log in Hs3 as [-> _]. eapply Hlatch, Hx.
      eapply (says_again s h j a _ _ (in_status i) (in_resend i)); try done. cbn. by rewrite Hans, <- !app_assoc.
    + eapply Hlatch, Hx. eapply (says_one s h j a s _ [Ended j (in_status i)]); try done; [cbn; by rewrite <- app_assoc |].
      intros e' ->%list_elem_of_singleton. by eexists.
  - eapply Hlatch, Hx. eapply (says_one s h j a s _ []); try done. by intros ? ?%not_elem_of_nil.
Qed.

Lemma attempt_says j a s h i s' h' p' :
  exec j a s h Attempt i = Some (s', h', p') -> says s h j a s' h'.
Proof.
  cbn [exec exec_attempt]. destruct (sendOnce j s h i) as [[[s1 h1] k] e] eqn:Hs. apply (sendOnce_says j s h i a) in Hs.
  destruct (err_is e (Errno EINTR)); [| destruct (err_is e (Errno EAGAIN))]; by intros [= <- <- <-].
Qed.

(** Every other step makes no such call, and but for Fill leaves a message
    that may still be sent as it was. *)
Definition silent (s : sendState) (h : host) (p : pc) (s' : sendState) (h' : host) (p' : pc) : Prop :=
  (defSnd s', defPR s') = (defSnd s, defPR s) /\ explicit s' = explicit s /\ chosen h' = chosen h /\ log h' = log h /\
  (filled p' = true -> p <> Fill -> filled p = true /\ message_of (st s') = message_of (st s)).

Lemma setWriteDeadline_log h t : log (fst (setWriteDeadline h t)) = log h /\ chosen (fst (setWriteDeadline h t)) = chosen h.
Proof. unfold setWriteDeadline. by destruct (file_open h). Qed.

Lemma exec_silent j a s h p i s' h' p' : p <> Attempt -> exec j a s h p i = Some (s', h', p') -> silent s h p s' h' p'.
Proof.
  intros Hp. destruct p; cbn [exec exec_begin exec_poll exec_attempt exec_end]; try done; intros Hx.
  - destruct (lock_step _ _ _ _ _ _ _ _ Hx) as [(-> & -> & e & _ & ->) | (_ & -> & -> & Hp')]; [done |].
    by destruct Hp' as [-> | [-> _]].
  - destruct (ctx_Err h (a_ctx a)); by injection Hx as <- <- <-.
  - by injection Hx as <- <- <-.
  - destruct (fill s a); [| done..]. by injection Hx as <- <- <-.
  - destruct (negb _); [| destruct (expired _ _)]; by injection Hx as <- <- <-.
  - destruct (term s); [| by injection Hx as <- <- <-]. destruct (wait (st s)).
    + destruct (negb (slow s) && _), (assocShuttingDown _); by injection Hx as <- <- <-.
    + destruct (assocShuttingDown _); by injection Hx as <- <- <-.
  - destruct (negb _); [by injection Hx as <- <- <- |]. destruct (stop s), (s_ctx s); by injection Hx as <- <- <-.
  - destruct (in_ready i); [by injection Hx as <- <- <- |]. destruct (negb _); [by injection Hx as <- <- <- |].
    destruct (expired _ _); [by injection Hx as <- <- <- | done].
  - destruct (slow s || _); [| by injection Hx as <- <- <-]. destruct (stop s) as [r |]; [| by injection Hx as <- <- <-].
    destruct (regs h !! r) as [[] |]; by injection Hx as <- <- <-.
  - destruct (interruptDone s); [done |]. destruct (stop s); [by injection Hx as <- <- <- | done].
  - unfold restore in Hx. destruct (is_woken (dl s)); injection Hx as <- <- <-; [| done].
    destruct (setWriteDeadline_log h (callerDeadline (dl s))). by split_and!.
  - injection Hx as <- <- <-. split_and!; try done. cbn. by destruct e, (err (st s)), (n (st s) =? len (a_b a)).
Qed.

(** Where an element of two lists in a row is. *)
Lemma app_cons_split {B} (l l' l1 l2 : list B) x :
  l ++ l' = l1 ++ x :: l2 -> (exists l3, l = l1 ++ x :: l3) \/ (exists l3, l1 = l ++ l3 /\ l' = l3 ++ x :: l2).
Proof.
  revert l1. induction l as [| y l IH]; intros l1 Heq; [right; by exists l1 |].
  destruct l1 as [| z l1]; cbn in Heq; injection Heq as -> Heq; [left; by exists l |].
  destruct (IH l1 Heq) as [[l3 ->] | (l3 & -> & ->)]; [left; by exists l3 | right; by exists l3].
Qed.

(** A send whose message may still be sent holds the lock. *)
Lemma filled_owner w j a p k b q :
  Inv w -> threads w !! j = Some (a, p) -> holds p = true -> threads w !! k = Some (b, q) -> filled q = true -> k = j.
Proof.
  intros HI Hj Hp Hk Hq. apply (inv_lock _ HI j a p Hj) in Hp.
  assert (Hq' : holds q = true) by by destruct q. apply (inv_lock _ HI k b q Hk) in Hq'. congruence.
Qed.

Lemma insert_kept (ts : list (arguments * pc)) j a p p' k b q :
  ts !! j = Some (a, p) -> ts !! k = Some (b, q) -> exists q', <[j := (a, p')]> ts !! k = Some (b, q').
Proof.
  intros Hj Hk. destruct (decide (k = j)) as [-> | Hne].
  - rewrite list_lookup_insert_eq by (by eapply lookup_lt_Some). exists p'. congruence.
  - rewrite list_lookup_insert_ne by done. eauto.
Qed.

Lemma Said_attempt s h ts j a i s' h' p' :
  Inv {| send := s; hst := h; threads := ts |} -> Said {| send := s; hst := h; threads := ts |} ->
  ts !! j = Some (a, Attempt) -> exec j a s h Attempt i = Some (s', h', p') ->
  Said {| send := s'; hst := h'; threads := <[j := (a, p')]> ts |}.
Proof.
  intros HI [Hd Hst Hlog] Ht Hx. cbn in *. pose proof (lookup_lt_Some _ _ _ Ht) as Hlt.
  destruct (attempt_says j a s h i s' h' p' Hx) as (E1 & E2 & E3 & l & E4 & Hl).
  destruct (Hl (Hst j a Attempt Ht eq_refl)) as [Hm Hc]. split; cbn; [congruence | |]; rewrite ?E2, ?E3.
  - intros k b q Hk Hq. destruct (decide (k = j)) as [-> | Hne].
    + rewrite list_lookup_insert_eq in Hk by done. by injection Hk as <- <-.
    + rewrite list_lookup_insert_ne in Hk by done. by destruct Hne; eapply (filled_owner _ j a Attempt k b q HI).
  - intros l1 k d m r l2. rewrite E4. intros [[l3 Heq] | (l3 & -> & Heq)]%app_cons_split.
    + destruct (Hlog _ _ _ _ _ _ Heq) as (b & q & Hk & Ho). destruct (insert_kept ts j a Attempt p' k b q Ht Hk) as [q' Hq']. eauto.
    + destruct (Hc _ _ _ _ _ _ Heq) as (-> & -> & Ho). exists a, p'. split; [by apply list_lookup_insert_eq | done].
Qed.

(** What another send has stored is not touched. *)
Lemma exec_lock_st j a s h p i s' h' p' : holds p = false -> exec j a s h p i = Some (s', h', p') -> st s' = st s.
Proof.
  intros Hp Hx. destruct p; try done. by destruct (lock_step _ _ _ _ _ _ _ _ Hx) as [(-> & _) | (_ & -> & _)].
Qed.

Lemma Said_silent s h ts j a p i s' h' p' :
  Inv {| send := s; hst := h; threads := ts |} -> Said {| send := s; hst := h; threads := ts |} ->
  ts !! j = Some (a, p) -> p <> Attempt -> exec j a s h p i = Some (s', h', p') ->
  Said {| send := s'; hst := h'; threads := <[j := (a, p')]> ts |}.
Proof.
  intros HI [Hd Hst Hlog] Ht Hp Hx. cbn in *. pose proof (lookup_lt_Some _ _ _ Ht) as Hlt.
  destruct (exec_silent j a s h p i s' h' p' Hp Hx) as (E1 & E2 & E3 & E4 & Hm). split; cbn; [congruence | |]; rewrite ?E2, ?E3, ?E4.
  - intros k b q Hk Hq. destruct (decide (k = j)) as [-> | Hne].
    + rewrite list_lookup_insert_eq in Hk by done. injection Hk as <- <-.
      assert (Hf : p = Fill \/ p <> Fill) by (destruct p; auto). destruct Hf as [-> | Hf].
      * destruct (fill_message s a) as (x & Hfx & Hmx & _); [apply (inv_own _ HI) |]. cbn in Hx. rewrite Hfx in Hx.
        injection Hx as <- _ _. left. cbn. by rewrite Hmx, <- Hd.
      * destruct (Hm Hq Hf) as [Hpf ->]. eauto.
    + rewrite list_lookup_insert_ne in Hk by done. destruct (holds p) eqn:Hh.
      * destruct Hne. eapply (filled_owner _ j a p k b q HI); done.
      * rewrite (exec_lock_st j a s h p i s' h' p' Hh Hx). eauto.
  - intros l1 k d m r l2 Heq. destruct (Hlog _ _ _ _ _ _ Heq) as (b & q & Hk & Ho).
    destruct (insert_kept ts j a p p' k b q Ht Hk) as [q' Hq']. eauto.
Qed.

Lemma Said_send j w w' : send_step j w w' -> Inv w -> Said w -> Said w'.
Proof.
  intros [s h ts a p i s' h' p' Ht _ Hx] HI HS.
  assert (Hp : p = Attempt \/ p <> Attempt) by (destruct p; auto). destruct Hp as [-> | Hp].
  - by eapply Said_attempt.
  - by eapply Said_silent.
Qed.

(** A step that leaves the message, the calls and the defaults alone. *)
Lemma Said_frame w w' :
  st (send w') = st (send w) -> defSnd (send w') = defSnd (send w) -> defPR (send w') = defPR (send w) ->
  explicit (send w') = explicit (send w) -> log (hst w') = log (hst w) -> chosen (hst w') = chosen (hst w) ->
  threads w' = threads w -> Said w -> Said w'.
Proof.
  intros E1 E2 E3 E4 E5 E6 E7 [Hd Hst Hlog]. split; rewrite ?E1, ?E2, ?E3, ?E4, ?E5, ?E6, ?E7; done.
Qed.

Lemma interrupt_log d h d' h' : interrupt d h = (d', h') -> log h' = log h /\ chosen h' = chosen h.
Proof. unfold interrupt. destruct (negb _); intros [= _ <-]; [apply setWriteDeadline_log | done]. Qed.

Lemma wakeShutdown_log d h d' h' : wakeShutdown d h = (d', h') -> log h' = log h /\ chosen h' = chosen h.
Proof. unfold wakeShutdown. destruct (_ && _ && _); intros [= _ <-]; [apply setWriteDeadline_log | done]. Qed.

Lemma setDeadline_log d h t m d' h' e : setDeadline d h t m = (d', h', e) -> log h' = log h /\ chosen h' = chosen h.
Proof.
  unfold setDeadline, setReadDeadline, setWriteDeadline, setBothDeadlines.
  destruct m, (file_open h); cbn; try destruct (_ || _); by intros [= _ <- _].
Qed.

Lemma Said_others w w' : (exists r, callback_step r w w') \/ outside w w' -> Inv w -> Said w -> Said w'.
Proof.
  intros [[r Hs] | Hs] HI.
  - destruct Hs as [s h ts c _ _ | s h ts c d h' _ Hi | s h ts c _ _]; [by apply Said_frame | | by apply Said_frame].
    apply interrupt_log in Hi as [? ?]. by apply Said_frame.
  - destruct Hs as [| | s h ts t m d h' e Hs | | s h ts d h' _ Hw | | | s h ts t o _ | s h ts i p Ho | s h ts a]; try by apply Said_frame.
    + apply setDeadline_log in Hs as [? ?]. by apply Said_frame.
    + apply wakeShutdown_log in Hw as [? ?]. by apply Said_frame.
    + intros [Hd Hst Hlog]. split; cbn in *; [done | | done]. intros j a q Hj Hq. exfalso.
      assert (Hh : holds q = true) by by destruct q. apply (inv_lock _ HI j a q Hj) in Hh. cbn in Hh. congruence.
    + intros [Hd Hst Hlog]. split; cbn in *; [done | |].
      * intros j b q Hj Hq. apply lookup_app_Some in Hj as [Hj | [_ Hj]]; [eauto |].
        apply list_lookup_singleton_Some in Hj as [_ [= _ <-]]. done.
      * intros l1 j d m r l2 Heq. destruct (Hlog _ _ _ _ _ _ Heq) as (b & q & Hj & Ho). exists b, q. split; [by apply lookup_app_l_Some | done].
Qed.

Lemma Said_step w w' : step w w' -> Inv w -> Said w -> Said w'.
Proof. intros [j w1 w2 Hs | r w1 w2 Hs | w1 w2 Hs]; [by eapply Said_send | |]; apply Said_others; eauto. Qed.

Lemma Said_reachable w : reachable w -> Said w.
Proof.
  intros (w0 & Hi & Hs). assert (HS : Said w0) by (destruct Hi; split; [done.. | by intros []]). apply Inv_initial in Hi.
  induction Hs; [done |]. eauto using send_Inv_step, Said_step.
Qed.
End Said.

(** ** Theorems *)
Section Theorems.
Context `{A : Arch} `{AK : !ArchOk A}.

Lemma current_phase w j a p :
  Inv w -> threads w !! j = Some (a, p) -> holds p = true ->
  owner (send w) = Some j /\ dl_ok (send w) (hst w) /\ reg_ok (send w) (hst w) /\ phase (send w) (hst w) j a p.
Proof.
  intros HI Ht Hp. assert (Ho : owner (send w) = Some j) by by apply (inv_lock _ HI j a p).
  destruct (inv_own _ HI) as (Hd & Hr & _ & _ & Hh). by rewrite (current_at w j a p Ho Ht) in Hh.
Qed.

(** A write deadline the caller did not set is in force only inside the
    raw.Write of a send. *)
Lemma woken_in_write w : Inv w -> is_woken (dl (send w)) = true -> exists j a p, threads w !! j = Some (a, p) /\ in_write p = true.
Proof.
  intros HI Hw. destruct (inv_own _ HI) as (Hd & Hr & _ & _ & Hh). unfold current in Hh.
  destruct (owner (send w)) as [j |] eqn:Ho; [| destruct Hh as [[H _] _]; congruence].
  cbn in Hh. destruct (threads w !! j) as [[a p] |] eqn:Ht; [| destruct Hh as [[H _] _]; congruence].
  exists j, a, p. split; [done |]. cbn in Hh. destruct p; try done; try (destruct Hh as [[H _] _]; congruence).
  destruct Hh as (_ & _ & H & _). congruence.
Qed.

Definition sets_deadline (w w' : world) (t : option Z) : Prop :=
  exists m d h e, m <> mode_r /\ setDeadline (dl (send w)) (hst w) t m = (d, h, e) /\ send w' = set_dl (send w) d /\ hst w' = h.

Lemma sendOnce_dl j s h i : dl (sendOnce j s h i).1.1.1 = dl s.
Proof.
  unfold sendOnce. destruct (term s) as [t |]; [| by destruct (sendmsg j (st s) h (in_send i)) as [[? ?] ?]].
  destruct (t_err t); [done |]. destruct (sendmsg j (st s) h (in_send i)) as [[h1 k1] e1].
  destruct (err_is e1 _ && _); [destruct (assocEnded _) |]; cbn.
  - destruct (sendmsg j _ _ (in_resend i)) as [[h2 k2] e2]. destruct e2; [| done]. by destruct (sendErrorLocked t _).
  - destruct e1; [| done]. by destruct (sendErrorLocked t _).
  - destruct e1; [| done]. by destruct (sendErrorLocked t _).
Qed.

Lemma exec_callerDeadline j a s h p i s' h' p' :
  exec j a s h p i = Some (s', h', p') -> callerDeadline (dl s') = callerDeadline (dl s).
Proof.
  destruct p; cbn [exec exec_begin exec_poll exec_attempt exec_end]; intros Hx.
  - destruct (lock_step _ _ _ _ _ _ _ _ Hx) as [(-> & _) | (_ & -> & _)]; done.
  - destruct (ctx_Err h (a_ctx a)); by injection Hx as <- <- <-.
  - by injection Hx as <- <- <-.
  - destruct (fill s a); [| done..]. by injection Hx as <- <- <-.
  - destruct (negb _); [| destruct (expired _ _)]; by injection Hx as <- <- <-.
  - pose proof (sendOnce_dl j s h i) as Hd. destruct (sendOnce j s h i) as [[[s1 h1] k1] e1]. cbn in Hd.
    destruct (err_is e1 (Errno EINTR)); [| destruct (err_is e1 (Errno EAGAIN))]; injection Hx as <- <- <-; cbn; by rewrite Hd.
  - destruct (term s); [| by injection Hx as <- <- <-]. destruct (wait (st s)).
    + destruct (negb (slow s) && _), (assocShuttingDown _); by injection Hx as <- <- <-.
    + destruct (assocShuttingDown _); by injection Hx as <- <- <-.
  - destruct (negb _); [by injection Hx as <- <- <- |]. destruct (stop s), (s_ctx s); by injection Hx as <- <- <-.
  - destruct (in_ready i); [by injection Hx as <- <- <- |]. destruct (negb _); [by injection Hx as <- <- <- |].
    destruct (expired _ _); [by injection Hx as <- <- <- | done].
  - destruct (slow s || _); [| by injection Hx as <- <- <-]. destruct (stop s) as [r |]; [| by injection Hx as <- <- <-].
    destruct (regs h !! r) as [[] |]; by injection Hx as <- <- <-.
  - destruct (interruptDone s); [done |]. destruct (stop s); [by injection Hx as <- <- <- | done].
  - unfold restore in Hx. destruct (is_woken (dl s)); by injection Hx as <- <- <-.
  - by injection Hx as <- <- <-.
  - done.
Qed.

Lemma callerDeadline_step w w' :
  step w w' -> callerDeadline (dl (send w')) = callerDeadline (dl (send w)) \/ sets_deadline w w' (callerDeadline (dl (send w'))).
Proof.
  intros [j w1 w2 Hs | r w1 w2 Hs | w1 w2 Hs].
  - left. destruct Hs as [s h ts a p i s' h' p' _ _ Hx]. cbn. by eapply exec_callerDeadline.
  - left. destruct Hs as [s h ts c _ _ | s h ts c d h' _ Hi | s h ts c _ _]; cbn; [done | | done].
    unfold interrupt in Hi. destruct (negb _); by injection Hi as <- <-.
  - destruct Hs as [| | s h ts t m d h' e Hs | | s h ts d h' _ Hw | | | | |]; cbn; try by left.
    + assert (Hm : m = mode_r \/ m <> mode_r /\ callerDeadline d = t).
      { destruct m; [by left | |]; right; (split; [done |]); unfold setDeadline in Hs;
          repeat (match type of Hs with context [let '(_, _) := ?x in _] => destruct x as [? ?] end); by injection Hs as <- _ _. }
      destruct Hm as [-> | [Hm <-]]; [| right; by exists m, d, h', e].
      left. cbn in Hs. destruct (setReadDeadline h t). by injection Hs as <- _ _.
    + left. unfold wakeShutdown in Hw. destruct (_ && _ && _); by injection Hw as <- <-.
Qed.


(** The messages of one send on the wire: none, or one of its own. *)
Lemma wire_one w j : Inv w ->
  wire_of (hst w) j = [] \/ exists a p m k, threads w !! j = Some (a, p) /\ wire_of (hst w) j = [(m, k)] /\ carries (explicit (send w)) a m.
Proof.
  intros HI. destruct (threads w !! j) as [[a p] |] eqn:Ht; [| left; by apply inv_wire].
  assert (Hfrom : forall k e, told (explicit (send w)) a (wire_of (hst w) j) k e ->
    wire_of (hst w) j = [] \/ exists a' p' m k', Some (a, p) = Some (a', p') /\ wire_of (hst w) j = [(m, k')] /\ carries (explicit (send w)) a' m).
  { intros k e [(_ & m & Hw & Hc) | (_ & Hw & _)]; [right; eauto 10 | by left]. }
  destruct (holds p) eqn:Hp.
  - destruct (current_phase w j a p HI Ht Hp) as (_ & _ & _ & Hph).
    destruct p; cbn in Hph; try done; try (left; apply Hph); destruct Hph as (_ & _ & Hov).
    + destruct e; [left; apply Hov | eapply Hfrom, Hov].
    + destruct e; [left; apply Hov | eapply Hfrom, Hov].
    + destruct e; [left; apply Hov | eapply Hfrom, Hov].
    + destruct e; [left; apply Hov | eapply Hfrom, Hov].
  - pose proof (inv_out _ HI j a p Ht Hp) as Ho. destruct p; cbn in Ho; try done; [by left |].
    destruct Ho as [_ [(m & Hw & Hc & _) | (Hw & _)]]; [right; eauto 10 | by left].
Qed.

(** C6 Concurrent sends never exchange their message, stream, PPID, policy,
    key or destination.  Every sendmsg(2) call made, whether the kernel took
    the message or refused it, carries what its own send was called with,
    completed where the caller asked for nothing with the defaults the
    descriptor had at that time, which are those it was made with or last
    set to.  It names the destination asked for, unless the kernel had
    refused that very message of that send with EADDRNOTAVAIL and the status
    query right after it had found the association ended.  And the kernel
    accepts no send twice. *)
Theorem send_exclusive w (Hr : reachable w) :
  (forall l1 j d m r l2, log (hst w) = l1 ++ Sendmsg j d m r :: l2 ->
     exists a p, threads w !! j = Some (a, p) /\
       (m = asked (explicit (send w)) a d.1 d.2 false \/
        m = asked (explicit (send w)) a d.1 d.2 true /\ given_up (explicit (send w)) l1 j d a)) /\
  NoDup ((fun e => e.1.1) <$> wire (hst w)).
Proof.
  split; [exact (said_log w (Said_reachable w Hr)) |].
  apply send_Inv_reachable in Hr as HI. pose proof (fun j => wire_one w j HI) as H1. clear HI Hr. revert H1.
  unfold wire_of. generalize (wire (hst w)). intros l H1.
  assert (Hl : forall j, (length (filter (fun e : nat * message * Z => e.1.1 = j) l) <= 1)%nat).
  { intros j. specialize (H1 j). rewrite <- (length_fmap (fun e : nat * message * Z => (e.1.2, e.2))).
    destruct H1 as [-> | (a & p & m & k & _ & -> & _)]; cbn; lia. }
  clear H1. induction l as [| [[j m] k] l IH]; cbn; [constructor |]. constructor.
  - intros ([[j' m'] k'] & -> & Hin)%list_elem_of_fmap. specialize (Hl j'). rewrite filter_cons_True in Hl by done.
    cbn in Hl. assert (Hne : filter (fun e : nat * message * Z => e.1.1 = j') l = []) by (apply length_zero_iff_nil; lia).
    assert (Hin' : (j', m', k') ∈ filter (fun e : nat * message * Z => e.1.1 = j') l) by by apply list_elem_of_filter.
    rewrite Hne in Hin'. by apply not_elem_of_nil in Hin'.
  - apply IH. intros j'. specialize (Hl j'). rewrite filter_cons in Hl. destruct (decide _); cbn in Hl; lia.
Qed.
End Theorems.

(** *** What a send returns *)
Section Results.
Context `{A : Arch} `{AK : !ArchOk A}.

(** C12 What a send returns says what became of its message: without an
    error the kernel has queued the whole of it, once; with io.ErrShortWrite
    it took a different count; and after any other error nothing of it was
    queued, whatever interrupted the send. *)
Theorem send_result w j a k e first (Hr : reachable w) (Ht : threads w !! j = Some (a, Returned k e first)) :
  match e with
  | None => k = len (a_b a) /\ exists m, wire_of (hst w) j = [(m, k)] /\ carries (explicit (send w)) a m
  | Some e =>
      (e = Plain ErrShortWrite /\ k <> len (a_b a) /\ exists m, wire_of (hst w) j = [(m, k)]) \/
      (k = 0 /\ wire_of (hst w) j = [])
  end.
Proof.
  apply send_Inv_reachable in Hr as HI.
  destruct (inv_out _ HI j a _ Ht eq_refl) as [_ [(m & Hw & Hc & ->) | (Hw & -> & He)]].
  - destruct (Z.eqb_spec k (len (a_b a))) as [-> | Hne]; [eauto | left; eauto].
  - destruct e; [by right | done].
Qed.

(** C14 The reason of a failed send: a context error is the error of the
    call's own context, and then no write deadline of the caller had passed
    when the send was woken; os.ErrDeadlineExceeded means that one had,
    before the context or the shutdown ended the wait or with nothing else
    to end it. *)
Theorem send_cause w j a k e first (Hr : reachable w) (Ht : threads w !! j = Some (a, Returned k (Some e) first)) :
  (context_error e -> ctx_Err (hst w) (a_ctx a) = Some e /\ first = false) /\
  (e = Plain ErrDeadlineExceeded -> first = true).
Proof.
  apply send_Inv_reachable in Hr as HI.
  destruct (inv_out _ HI j a _ Ht eq_refl) as [Hc _]. destruct (Hc e eq_refl) as [H1 H2]. split; [| exact H2].
  intros Hx. destruct (H1 Hx). auto.
Qed.

(** *** No wake-up is lost *)

(** What the environment answers while the descriptor is not writable: the
    poller does not report it ready, and the kernel takes no message. *)
Definition unwritable (i : input) : Prop :=
  in_ready i = false /\ in_send i = inr EAGAIN /\ in_resend i = inr EAGAIN.

(** The steps of a send and of its callback alone, the descriptor never
    being writable. *)
Inductive own_step (j : nat) : world -> world -> Prop :=
| OwnSend s h ts a p i s' h' p' :
    unwritable i -> ts !! j = Some (a, p) -> answers h i -> exec j a s h p i = Some (s', h', p') ->
    own_step j {| send := s; hst := h; threads := ts |} {| send := s'; hst := h'; threads := <[j := (a, p')]> ts |}
| OwnCallback r w w' : callback_step r w w' -> own_step j w w'.

(** The send returns after such steps. *)
Definition returns (j : nat) (a : arguments) (w : world) : Prop :=
  exists w' k e first, rtc (own_step j) w w' /\ threads w' !! j = Some (a, Returned k e first).

Definition shutting_status : status_answer := inl (zeros statusStateOff ++ bytes_of NativeEndian 4 StateShutdownPending).

Lemma shutting_status_ok : assocShuttingDown shutting_status = true.
Proof.
  unfold shutting_status, assocShuttingDown, state_in.
  assert (Hz : len (zeros statusStateOff) = statusStateOff) by by apply len_zeros.
  rewrite sub_app_r, Hz, Z.sub_diag, sub_full, uint_of_4 by (rewrite ?Hz, ?len_bytes_of; done). done.
Qed.

(** Inputs that never let the descriptor become writable. *)
Definition no_input : input := {|
  in_send := inr EAGAIN; in_resend := inr EAGAIN; in_status := shutting_status; in_ready := false; in_cancel := false |}.

Lemma no_input_answers h : answers h no_input.
Proof. intros _ _. apply shutting_status_ok. Qed.

Lemma own_exec w j a p s' h' p' :
  threads w !! j = Some (a, p) -> exec j a (send w) (hst w) p no_input = Some (s', h', p') ->
  own_step j w {| send := s'; hst := h'; threads := <[j := (a, p')]> (threads w) |} /\
  <[j := (a, p')]> (threads w) !! j = Some (a, p').
Proof.
  intros Ht Hx. split; [| apply list_lookup_insert_eq; by eapply lookup_lt_Some]. destruct w as [s h ts]. cbn in *.
  by eapply OwnSend; [| | apply no_input_answers |].
Qed.

Lemma own_Inv j w w' : own_step j w w' -> Inv w -> Inv w'.
Proof.
  intros [s h ts a p i s' h' p' _ Ht Ha Hx | r w1 w2 Hs] HI; (eapply send_Inv_step; [| done]).
  - by eapply StepSend, SendStep.
  - by eapply StepCallback.
Qed.

Lemma returns_step j a w w' : own_step j w w' -> returns j a w' -> returns j a w.
Proof. intros Hs (w2 & k & e & first & Hp & Ht). exists w2, k, e, first. split; [by eapply rtc_l | done]. Qed.

Lemma finish_returns w j a e first : threads w !! j = Some (a, Finish e first) -> returns j a w.
Proof.
  intros Ht.
  assert (Hx : exists s' k e', exec j a (send w) (hst w) (Finish e first) no_input = Some (s', hst w, Returned k e' first)).
  { cbn [exec exec_end]. destruct e as [e |]; [by repeat eexists |]. destruct (err (st (send w))); [by repeat eexists |].
    destruct (_ =? _); by repeat eexists. }
  destruct Hx as (s' & k & e' & Hx). destruct (own_exec _ _ _ _ _ _ _ Ht Hx) as [H1 H2].
  eapply returns_step; [exact H1 |]. by eexists _, k, e', first.
Qed.

Lemma restore_returns w j a e : threads w !! j = Some (a, Restore e) -> returns j a w.
Proof.
  intros Ht. destruct (exec j a (send w) (hst w) (Restore e) no_input) as [[[s' h'] p'] |] eqn:Hx;
    cbn [exec exec_end] in Hx; destruct (restore a (send w) (hst w) e) as [[s1 h1] e1] eqn:Hr; [| done].
  injection Hx as <- <- <-. edestruct own_exec as [H1 H2]; [exact Ht | cbn [exec exec_end]; by rewrite Hr |].
  eapply returns_step; [exact H1 |]. by eapply finish_returns.
Qed.

(** The callback reports, and the send that waits for it goes on. *)
Lemma join_returns w j a e : Inv w -> threads w !! j = Some (a, Join e) -> returns j a w.
Proof.
  assert (Hsent : forall w c, Inv w -> threads w !! j = Some (a, Join e) -> callback (send w) (hst w) = Some (Sent c) -> returns j a w).
  { clear w. intros w c HI Ht Hc. destruct (current_phase w j a _ HI Ht eq_refl) as (_ & _ & (_ & _ & _ & R4 & _) & _). rewrite Hc in R4.
    unfold callback in Hc. destruct (stop (send w)) as [r |] eqn:Hs; [| done].
    edestruct own_exec as [H1 H2]; [exact Ht | cbn [exec exec_end]; by rewrite R4, Hs |].
    eapply returns_step; [exact H1 |]. by eapply restore_returns. }
  assert (Hsending : forall w c, Inv w -> threads w !! j = Some (a, Join e) -> callback (send w) (hst w) = Some (Sending c) -> returns j a w).
  { clear w. intros w c HI Ht Hc. destruct (current_phase w j a _ HI Ht eq_refl) as (_ & _ & (_ & _ & _ & R4 & _) & _). rewrite Hc in R4.
    destruct w as [s h ts]. cbn in *. pose proof Hc as Hc'. unfold callback in Hc. destruct (stop s) as [r |] eqn:Hs; [| done]. cbn in Hc.
    pose proof (CallbackReport r s h ts c Hc R4) as Hstep. eapply returns_step; [by eapply OwnCallback |].
    eapply (Hsent _ c); [eapply send_Inv_step; [by eapply StepCallback | done] | done |].
    eapply (callback_after s h); [exact Hs | done | done | congruence]. }
  intros HI Ht. destruct (current_phase w j a _ HI Ht eq_refl) as (_ & _ & _ & ((x & Hx & Hsx) & _)).
  destruct x as [c | c | c | c |]; try done; [| by eapply Hsending | by eapply Hsent].
  destruct w as [s h ts]. cbn in *. pose proof Hx as Hx'. unfold callback in Hx. destruct (stop s) as [r |] eqn:Hs; [| done]. cbn in Hx.
  destruct (interrupt (dl s) h) as [d h'] eqn:Hi.
  pose proof (CallbackSection r s h ts c d h' Hx Hi) as Hstep. eapply returns_step; [by eapply OwnCallback |].
  assert (Hrg : regs h' = regs h).
  { unfold interrupt, setWriteDeadline in Hi. destruct (negb _); injection Hi as <- <-; [by destruct (file_open h) | done]. }
  eapply (Hsending _ c); [eapply send_Inv_step; [by eapply StepCallback | done] | done |].
  eapply (callback_after s h); [exact Hs | done | cbn; by rewrite Hrg | congruence].
Qed.

Lemma stop_returns w j a e : Inv w -> threads w !! j = Some (a, Stop e) -> returns j a w.
Proof.
  intros HI Ht.
  assert (Hx : exists h' p', exec j a (send w) (hst w) (Stop e) no_input = Some (send w, h', p') /\
    (p' = Restore e \/ p' = Join e \/ exists f, p' = Finish e f)).
  { cbn [exec exec_end]. destruct (slow (send w) || _); [| by repeat eexists; eauto].
    destruct (stop (send w)) as [r |]; [| by repeat eexists; eauto].
    destruct (regs (hst w) !! r) as [[] |]; by repeat eexists; eauto. }
  destruct Hx as (h' & p' & Hx & Hp). destruct (own_exec _ _ _ _ _ _ _ Ht Hx) as [H1 H2].
  eapply returns_step; [exact H1 |]. destruct Hp as [-> | [-> | [f ->]]].
  - by eapply restore_returns.
  - eapply join_returns; [by eapply own_Inv | done].
  - by eapply finish_returns.
Qed.

Lemma expired_returns w j a :
  Inv w -> threads w !! j = Some (a, Wait) -> file_open (hst w) = true -> expired (fdWrite (hst w)) (now (hst w)) = true -> returns j a w.
Proof.
  intros HI Ht Hf Hx. edestruct own_exec as [H1 H2]; [exact Ht | cbn [exec exec_poll no_input in_ready]; by rewrite Hf, Hx |].
  eapply returns_step; [exact H1 |]. eapply stop_returns; [by eapply own_Inv | done].
Qed.

(** A callback that has started ends its send's wait. *)
Lemma running_returns w j a c :
  Inv w -> threads w !! j = Some (a, Wait) -> file_open (hst w) = true -> is_woken (dl (send w)) = false ->
  callback (send w) (hst w) = Some (Running c) -> returns j a w.
Proof.
  intros HI Ht Hf Hk Hc. destruct (current_phase w j a _ HI Ht eq_refl) as (_ & Hd & _). pose proof Hd as (_ & _ & _ & _ & D5 & _).
  destruct w as [s h ts]. cbn in *. unfold callback in Hc. destruct (stop s) as [r |] eqn:Hs; [| done]. cbn in Hc.
  destruct (woken_false _ Hk) as [_ Hsw].
  destruct (interrupt (dl s) h) as [d h'] eqn:Hi. pose proof (CallbackSection r s h ts c d h' Hc Hi) as Hstep.
  eapply returns_step; [by eapply OwnCallback |].
  unfold interrupt, setWriteDeadline in Hi. rewrite Hsw, Hf in Hi. cbn in Hi. injection Hi as <- <-.
  eapply expired_returns; [eapply send_Inv_step; [by eapply StepCallback | done] | done | done |]. cbn. by apply Z.leb_le.
Qed.

Lemma waiting_returns w j a :
  Inv w -> threads w !! j = Some (a, Wait) -> file_open (hst w) = true ->
  (term (send w) <> None /\ woken (hst w) = true /\ gone (hst w) = false) \/
  ctx_Err (hst w) (a_ctx a) <> None \/
  expired (callerDeadline (dl (send w))) (now (hst w)) = true -> returns j a w.
Proof.
  intros HI Ht Hf Hw. destruct (current_phase w j a _ HI Ht eq_refl) as (_ & Hd & Hrg & Hph).
  destruct Hph as (Hc & Hs & _ & _ & Hwk & Hpk & Hst). pose proof Hd as (_ & D2 & _ & _ & D5 & _).
  assert (Hgo : is_woken (dl (send w)) = true \/ expired (callerDeadline (dl (send w))) (now (hst w)) = true -> returns j a w).
  { intros Hx. apply expired_returns; try done. rewrite (D2 Hf). destruct (is_woken (dl (send w))); [by apply Z.leb_le | by destruct Hx]. }
  destruct Hw as [(Hn & Hw & Hg) | [Hx | Hx]]; [apply Hgo; left; apply (proj1 Hwk); auto | | by apply Hgo; right].
  destruct (is_woken (dl (send w))) eqn:Hk; [by apply Hgo; left |].
  destruct (a_ctx a) as [| | c] eqn:Hac; [done.. |]. cbn in Hx.
  pose proof Hrg as (_ & R2 & R3 & _). specialize (Hst c eq_refl). specialize (R2 Hst).
  destruct (callback (send w) (hst w)) as [x |] eqn:Hcb; [| done].
  assert (Hxc : ctx_of x = Some c).
  { destruct (ctx_of x) as [c' |] eqn:E; [| by destruct x]. destruct (R3 x c' eq_refl E) as [Hsc _]. congruence. }
  destruct Hwk as [_ Hwk]. destruct x as [c' | c' | c' | c' |]; try done; injection Hxc as ->.
  - destruct w as [s h ts]. cbn in *. pose proof Hcb as Hcb'. unfold callback in Hcb. destruct (stop s) as [r |] eqn:Hs'; [| done]. cbn in Hcb.
    pose proof (CallbackStart r s h ts c Hcb Hx) as Hstep. eapply returns_step; [by eapply OwnCallback |].
    eapply running_returns; [eapply send_Inv_step; [by eapply StepCallback | done] | done | done | done |].
    eapply (callback_after s h); [exact Hs' | done | done | congruence].
  - by eapply running_returns.
  - specialize (Hwk _ Hcb eq_refl). congruence.
  - specialize (Hwk _ Hcb eq_refl). congruence.
Qed.

(** A send that nothing has woken waits. *)
Lemma waiting_waits w j a :
  Inv w -> threads w !! j = Some (a, Wait) -> file_open (hst w) = true -> ctx_Err (hst w) (a_ctx a) = None ->
  is_woken (dl (send w)) = false -> expired (callerDeadline (dl (send w))) (now (hst w)) = false ->
  forall w', ~ own_step j w w'.
Proof.
  intros HI Ht Hf Hc Hk Hx w' Hs. destruct (current_phase w j a _ HI Ht eq_refl) as (_ & Hd & Hrg & Hph).
  destruct Hph as (_ & Hctx & _). destruct Hd as (_ & D2 & _). specialize (D2 Hf). rewrite Hk in D2.
  assert (Hcb : forall r x, regs (hst w) !! r = Some x -> x = Over \/ exists c, x = Registered c /\ ctx_err (hst w) !! c = None).
  { intros r x Hx'. pose proof Hrg as (R1 & _ & R3 & _). destruct (R1 r x Hx') as [-> | Hst]; [by left |].
    assert (Hcb : callback (send w) (hst w) = Some x) by (unfold callback; by rewrite Hst).
    destruct (ctx_of x) as [c |] eqn:Ec; [| left; by destruct x]. right. destruct (R3 x c Hcb Ec) as [Hsc Hst'].
    rewrite <- Hctx, Hsc in Hc. cbn in Hc. exists c. split; [| done].
    destruct x; cbn in *; try congruence; by destruct (Hst' eq_refl). }
  destruct Hs as [s h ts b p i s' h' p' (Hi & _) Hb _ He | r w1 w2 Hs].
  - cbn in *. rewrite Ht in Hb. injection Hb as <- <-. cbn in He. by rewrite Hi, Hf, D2, Hx in He.
  - destruct Hs as [s h ts c Hg Hn | s h ts c d h' Hg _ | s h ts c Hg _]; cbn in *; apply Hcb in Hg as [? | (c' & [= ->] & ?)]; done.
Qed.

End Results.

(** ** The checks of SendMsg *)
Section SendMsgChecks.
Context `{A : Arch} `{AK : !ArchOk A} `{ZE : ZoneEnv} `{CS : ClosingSentinel}.

Lemma opError_Some op nw src adr e : exists e', opError op nw src adr (Some e) = Some e'.
Proof. unfold opError. repeat case_match; eauto. Qed.

(** What checkSend refuses with. *)
Definition send_refused (pagesize : Z) (b : bytes) (e : error) : Prop :=
  errors_Is e (Errno EINVAL) = true \/ (e = Plain (Errno EMSGSIZE) /\ maxSendSize pagesize < len b).

Lemma validatePrInfo_EINVAL field pr e : validatePrInfo field pr = Some e -> errors_Is e (Errno EINVAL) = true.
Proof. unfold validatePrInfo. repeat case_match; intros; by simplify_eq. Qed.

Lemma validateSendOptions_EINVAL opts e : validateSendOptions opts = Some e -> errors_Is e (Errno EINVAL) = true.
Proof.
  unfold validateSendOptions. destruct (so_Info opts) as [info |]; [destruct (negb _); [by intros [= <-] |] |];
    (destruct (so_PR opts) as [pr |]; [| done]); intros H; by apply validatePrInfo_EINVAL in H.
Qed.

Lemma checkSend_spec pagesize kind c b opts :
  addr_wf (so_Path opts) ->
  match checkSend pagesize kind c b opts with
  | Ret name => 1 <= len b <= maxSendSize pagesize /\ validateSendOptions opts = None /\ len name <= sizeSockaddrIn6 /\
      (name <> [] -> IsValid (so_Path opts) = true /\ kind <> kindPeeled /\ assoc c <> 0)
  | Err e => send_refused pagesize b e
  | Panic => False
  end.
Proof.
  intros Hw. unfold checkSend, checkSendSize.
  destruct (Z.leb_spec (len b) 0); [by left |]. destruct (Z.ltb_spec (maxSendSize pagesize) (len b)); [by right |].
  destruct (validateSendOptions opts) as [e |] eqn:Hv; [left; by eapply validateSendOptions_EINVAL |].
  assert (Hnil : 1 <= len b <= maxSendSize pagesize /\ (None : option error) = None /\ len (@nil byte) <= sizeSockaddrIn6 /\
      ((@nil byte) <> [] -> IsValid (so_Path opts) = true /\ kind <> kindPeeled /\ assoc c <> 0)) by (split_and!; done || lia).
  destruct (IsValid (so_Path opts)) eqn:Hi; cbn [negb]; [| done].
  case_bool_decide; [by left |].
  pose proof (fine_encodePathAddr (zeros sizeSockaddrIn6) (family c) (so_Path opts) (peerPort c) (pathScope c) Hw) as Hf.
  destruct (encodePathAddr _ _ _ _ _) as [[name k] | e |]; cbn in Hf; [| by left | by apply Hf].
  destruct Hf as [Hl Hk]; [by rewrite len_zeros |]. destruct (Z.eqb_spec (assoc c) 0); [done |].
  rewrite len_zeros in Hl by done. rewrite slice_ok by lia. split_and!; try done; [lia |]. rewrite len_sub by lia. lia.
Qed.

(** C35 SendMsg's checks, before any lock or system call: it never panics;
    it goes on only on an open connection whose latch is empty, with a
    message of 1 to MAX_RW_COUNT bytes and valid options, and with a
    destination only when a Path was given, on a connection that is not
    peeled off and has an association; and it refuses everything else with
    one "write" error, whose cause is EINVAL, EMSGSIZE for a message that is
    too long, net.ErrClosed, or the error in the latch. *)
Theorem sendMsg_spec pagesize kind c t ctx b opts (Hp : addr_wf (so_Path opts)) :
  match sendMsg pagesize kind c t ctx b opts with
  | Ret a =>
      c_opened c = true /\ latched t = None /\ 1 <= len b <= maxSendSize pagesize /\ validateSendOptions opts = None /\
      a_ctx a = ctx /\ a_b a = b /\ a_opts a = opts /\ a_assoc a = 0 /\ len (a_name a) <= sizeSockaddrIn6 /\
      (a_name a <> [] -> IsValid (so_Path opts) = true /\ kind <> kindPeeled /\ assoc c <> 0)
  | Err e => exists cause, writeError c cause = Some e /\
      ((cause = Plain NetErrClosed /\ c_opened c = false) \/ send_refused pagesize b cause \/ latched t = Some cause)
  | Panic => False
  end.
Proof.
  unfold sendMsg. assert (Hr : forall cause, exists e, writeError c cause = Some e) by (intros; apply opError_Some).
  assert (Hgo : forall cause : error, (cause = Plain NetErrClosed /\ c_opened c = false) \/ send_refused pagesize b cause \/ latched t = Some cause ->
    exists e, writeError c cause = Some e /\ exists cause, writeError c cause = Some e /\
        ((cause = Plain NetErrClosed /\ c_opened c = false) \/ send_refused pagesize b cause \/ latched t = Some cause)).
  { intros cause Hc. destruct (Hr cause) as [e He]. exists e. eauto. }
  destruct (c_opened c) eqn:Ho; cbn [negb].
  2: { destruct (Hgo (Plain NetErrClosed)) as (e & -> & H); [by left | exact H]. }
  pose proof (checkSend_spec pagesize kind c b opts Hp) as Hc. destruct (checkSend pagesize kind c b opts) as [name | e |]; [| | done].
  2: { destruct (Hgo e) as (e' & -> & H); [by right; left | exact H]. }
  destruct (latched t) as [e |] eqn:Hl; [destruct (Hgo e) as (e' & -> & H); [by right; right | exact H] |].
  destruct Hc as (H1 & H2 & H3 & H4).
  exact (conj eq_refl (conj eq_refl (conj H1 (conj H2 (conj eq_refl (conj eq_refl (conj eq_refl (conj eq_refl (conj H3 H4))))))))).
Qed.
End SendMsgChecks.

(** ** Witnesses *)
Section Advance.
Context `{A : Arch}.

(** The next step of send [j], when it has one. *)
Definition advance (j : nat) (i : input) (w : world) : world :=
  match threads w !! j with
  | Some (a, p) =>
      match exec j a (send w) (hst w) p i with
      | Some (s, h, p') => {| send := s; hst := h; threads := <[j := (a, p')]> (threads w) |}
      | None => w
      end
  | None => w
  end.

Lemma reachable_step w w' : reachable w -> step w w' -> reachable w'.
Proof. intros (w0 & Hi & Hs) Hst. exists w0. split; [done | by eapply rtc_r]. Qed.

Lemma advance_reachable j i w : reachable w -> moved (hst w) = false -> reachable (advance j i w).
Proof.
  intros Hr Hm. unfold advance. destruct (threads w !! j) as [[a p] |] eqn:Ht; [| done].
  destruct (exec j a (send w) (hst w) p i) as [[[s h] p'] |] eqn:Hx; [| done].
  eapply reachable_step; [exact Hr |]. eapply StepSend. destruct w. eapply SendStep; [done | | done]. unfold answers. cbn in *. congruence.
Qed.
End Advance.

#[local] Instance amd64_send : Arch := amd64.

Definition plain_options : SendOptions := {|
  so_Info := Some {| snd_Stream := 3; snd_Flags := 0; snd_PPID := 7; snd_Context := 0 |}; so_PR := None; so_AuthKey := None;
  so_Path := AddrZero; so_More := false; so_NoWait := false |}.

Definition call_of_ctx (c : context) : arguments := {|
  a_ctx := c; a_b := [Byte.x68; Byte.x69]; a_opts := plain_options; a_name := []; a_assoc := 0 |}.

Definition no_snd : SndInfo := {| snd_Stream := 0; snd_Flags := 0; snd_PPID := 0; snd_Context := 0 |}.
Definition no_pr : PrInfo := {| pr_Policy := 0; pr_TTL := 0; pr_Value := 0 |}.

(** One call on a fresh connection. *)
Definition called (c : context) : world := {|
  send := new_sendState no_snd no_pr false; hst := new_host (no_snd, no_pr) aLongTimeAgo; threads := [(call_of_ctx c, Lock)] |}.

Definition answer (r : Z + Z) : input := {|
  in_send := r; in_resend := r; in_status := inr EINVAL; in_ready := false; in_cancel := false |}.

Lemma called_reachable c : reachable (called c).
Proof.
  exists {| send := new_sendState no_snd no_pr false; hst := new_host (no_snd, no_pr) aLongTimeAgo; threads := [] |}. split; [by constructor |].
  apply rtc_once, StepOutside. exact (OutCall _ _ [] (call_of_ctx c)).
Qed.

(** The call is sent: Lock, Fill, Prepare, Attempt, Stop, Finish. *)
Definition sent_world : world := Nat.iter 6 (advance 0 (answer (inl 2))) (called noContext).

Lemma iter_reachable k i w :
  reachable w -> (forall m, (m < k)%nat -> moved (hst (Nat.iter m (advance 0 i) w)) = false) -> reachable (Nat.iter k (advance 0 i) w).
Proof.
  intros Hr. induction k as [| k IH]; intros Hm; [done |]. cbn. apply advance_reachable; [apply IH; auto | apply Hm; lia].
Qed.

Lemma sent_reachable : reachable sent_world.
Proof.
  apply iter_reachable; [apply called_reachable |]. intros m Hm. do 6 (destruct m as [| m]; [reflexivity |]). lia.
Qed.

Lemma send_result_witness :
  threads sent_world !! 0%nat = Some (call_of_ctx noContext, Returned 2 None false) /\
  exists m, wire_of (hst sent_world) 0 = [(m, 2)] /\ carries false (call_of_ctx noContext) m.
Proof.
  assert (Ht : threads sent_world !! 0%nat = Some (call_of_ctx noContext, Returned 2 None false)) by (vm_compute; reflexivity).
  split; [exact Ht |]. exact (proj2 (send_result sent_world 0 _ 2 None false sent_reachable Ht)).
Defined.


(** A call with a destination, and with the defaults of the descriptor for
    its stream: the kernel refuses the destination, the association has
    ended, and the call goes again without it. *)
Definition named_call : arguments := {|
  a_ctx := noContext; a_b := [Byte.x68; Byte.x69];
  a_opts := {| so_Info := None; so_PR := Some {| pr_Policy := PRTTL; pr_TTL := 0; pr_Value := 9 |}; so_AuthKey := None;
               so_Path := AddrZero; so_More := false; so_NoWait := false |};
  a_name := zeros 16; a_assoc := 0 |}.

Definition five_snd : SndInfo := {| snd_Stream := 5; snd_Flags := 0; snd_PPID := 6; snd_Context := 0 |}.

Definition refuse_name : input := {|
  in_send := inr EADDRNOTAVAIL; in_resend := inl 2; in_status := inr EINVAL; in_ready := false; in_cancel := false |}.

Definition named_world : world := Nat.iter 4 (advance 0 refuse_name) {|
  send := new_sendState five_snd no_pr false; hst := new_host (five_snd, no_pr) aLongTimeAgo; threads := [(named_call, Lock)] |}.

Lemma named_reachable : reachable named_world.
Proof.
  apply iter_reachable.
  - exists {| send := new_sendState five_snd no_pr false; hst := new_host (five_snd, no_pr) aLongTimeAgo; threads := [] |}.
    split; [by constructor |]. apply rtc_once, StepOutside. exact (OutCall _ _ [] named_call).
  - intros m Hm. do 4 (destruct m as [| m]; [reflexivity |]). lia.
Qed.

Lemma send_exclusive_witness :
  reachable named_world /\
  (exists l1, log (hst named_world) = l1 ++ [Sendmsg 0 (five_snd, no_pr) (asked false named_call five_snd no_pr true) (inl 2)] /\
     given_up false l1 0 (five_snd, no_pr) named_call) /\
  NoDup ((fun e => e.1.1) <$> wire (hst named_world)).
Proof.
  split; [apply named_reachable |]. destruct (send_exclusive named_world named_reachable) as [Hl Hn]. split; [| exact Hn].
  exists (take 2 (log (hst named_world))).
  assert (Hlog : log (hst named_world) = take 2 (log (hst named_world)) ++
    [Sendmsg 0 (five_snd, no_pr) (asked false named_call five_snd no_pr true) (inl 2)]) by (vm_compute; reflexivity).
  split; [exact Hlog |]. destruct (Hl _ _ _ _ _ [] Hlog) as (a & p & Ht & Hm).
  assert (Ha : a = named_call) by (vm_compute in Ht; by injection Ht as <- _). subst a.
  destruct Hm as [Hm | [_ Hm]]; [apply (f_equal m_name) in Hm; vm_compute in Hm; discriminate | exact Hm].
Defined.

(** The call's context ends before it gets the lock. *)
Definition canceled_world : world :=
  advance 0 {| in_send := inl 2; in_resend := inl 2; in_status := inr EINVAL; in_ready := false; in_cancel := true |}
    {| send := send (called (Ctx 0)); hst := end_ctx (hst (called (Ctx 0))) 0 (Plain Canceled); threads := threads (called (Ctx 0)) |}.

Lemma send_cause_witness :
  threads canceled_world !! 0%nat = Some (call_of_ctx (Ctx 0), Returned 0 (Some (Plain Canceled)) false) /\
  ctx_Err (hst canceled_world) (Ctx 0) = Some (Plain Canceled).
Proof.
  assert (Ht : threads canceled_world !! 0%nat = Some (call_of_ctx (Ctx 0), Returned 0 (Some (Plain Canceled)) false))
    by (vm_compute; reflexivity).
  split; [exact Ht |].
  assert (Hr : reachable canceled_world).
  { apply advance_reachable; [| reflexivity]. eapply reachable_step; [apply (called_reachable (Ctx 0)) |].
    apply StepOutside, OutCtx; [by left | reflexivity]. }
  exact (proj1 (proj1 (send_cause canceled_world 0 _ 0 (Plain Canceled) false Hr Ht) (or_introl eq_refl))).
Defined.

(** The buffer is full: Lock, Fill, Prepare, Attempt, Park, Register; then a
    local shutdown. *)
Definition waiting_world : world := Nat.iter 6 (advance 0 (answer (inr EAGAIN))) (called noContext).

Definition shut_world : world :=
  let w := waiting_world in
  let '(d, h) := wakeShutdown (dl (send w)) (set_assoc (hst w) true (woken (hst w)) (gone (hst w))) in
  {| send := set_dl (send w) d; hst := set_assoc h true true (gone h); threads := threads w |}.

Lemma waiting_reachable : reachable waiting_world.
Proof.
  apply iter_reachable; [apply called_reachable |]. intros m Hm. do 6 (destruct m as [| m]; [reflexivity |]). lia.
Qed.

Lemma shut_reachable : reachable shut_world.
Proof.
  assert (Hm : reachable {| send := send waiting_world; hst := set_assoc (hst waiting_world) true (woken (hst waiting_world)) (gone (hst waiting_world));
      threads := threads waiting_world |}).
  { eapply reachable_step; [exact waiting_reachable |]. apply StepOutside. destruct waiting_world. apply OutMove. }
  eapply reachable_step; [exact Hm |]. apply StepOutside. unfold shut_world.
  destruct (wakeShutdown _ _) as [d h] eqn:Hk. by eapply OutWake.
Qed.


#[local] Instance go_send_runtime : ClosingSentinel := { captured := true; strerror := fun _ => "errno" }.

Lemma sendMsg_spec_witness :
  exists a, sendMsg (ZE := host_zones) 4096 kindDialed open_conn zero_termState noContext [Byte.x68] plain_options = Ret a /\ a_b a = [Byte.x68].
Proof.
  pose proof (sendMsg_spec (ZE := host_zones) 4096 kindDialed open_conn zero_termState noContext [Byte.x68] plain_options I) as H.
  destruct (sendMsg _ _ _ _ _ _ _) as [a | e |] eqn:Hx; [| vm_compute in Hx; discriminate | done].
  exists a. split; [reflexivity |]. apply H.
Defined.
