(* ===== verification/Sockets.v ===== *)
(** * Descriptors (src/socket_linux.go)

    The file that owns descriptors: it opens sockets, wraps each in an
    *os.File, adopts the descriptor of a file of the caller, and runs the
    part of opening a socket that every constructor shares.

    [Host] is the operating system and the Go runtime as the package sees
    them: every system call is answered by it, on the descriptor it names,
    and so are the waits of the runtime poller, the deadlines of a file, the
    context of a Dial, and whether another goroutine has closed a file in
    the meantime.  Its answers may depend on everything that happened before.

    A function that opens or closes descriptors is a value of [io]: it runs
    in a [process], which knows the files that are closed, and logs every
    system call.  A function of Sys.v, which makes calls on one descriptor,
    runs in it with [on].

    [ledger] goes through such a log with the descriptors that are owned: a
    call on a descriptor that is not owned, or a second close of one, has no
    ledger.  [runs] is the weakest precondition of a function with respect
    to the ledger and the files; the theorems of CloseOps.v, Dial.v,
    Listeners.v and Endpoints.v are about it.  The lemmas here give its
    rules, and show that opening, wrapping and adopting a descriptor closes
    it once when it fails, and hands over exactly one otherwise. *)
From Stdlib Require Import ZArith Lia Bool.
From stdpp Require Import base list option strings.
From coqutil Require Import Byte.
From S2P Require Import Prelude Close Abi Errors Enums Netip Sockaddr Options OptionCodecs MsgInfo Config Addr Sys Apply.

Definition EAFNOSUPPORT : Z := 97.

(** ** The operating system *)

(** A message of sendmsg(2): the payload, the control data, msg_flags. *)
Record outgoing := { o_iov : bytes; o_control : bytes; o_flags : Z }.

(** The system calls other than getsockopt and setsockopt: fcntl with
    F_DUPFD_CLOEXEC is [c_dup], syscall.SetNonblock [c_setnonblock]. *)
Inductive fdcall :=
| c_socket (family typ proto : Z)
| c_accept4 (fd flags : Z)
| c_dup (fd : Z)
| c_close (fd : Z)
| c_setnonblock (fd : Z)
| c_listen (fd backlog : Z)
| c_shutdown (fd how : Z)
| c_sendmsg (fd : Z) (m : outgoing)
| c_recvmsg (fd size flags : Z).

(** An *os.File that owns a descriptor; files are never the same one twice,
    descriptors are reused. *)
Record file := { f_id : nat; f_fd : Z }.

(** A call is answered with an errno, a value (a descriptor, or msg_flags)
    and bytes (what recvmsg read).  [os_released]: another goroutine has
    closed the file.  [os_prepare]: the poller lets a wait on the file begin;
    [os_wait]: it finds the file ready, or fails.
    [os_ctx_err] is Err() of the context of a Dial, [os_stop] what the stop
    function of its context.AfterFunc returns; [os_elapsed] the time a step
    takes; [os_order] the order of a range over eventTypeNames;
    [os_somaxconn]: the text of /proc/sys/net/core/somaxconn, if it can be
    read; [os_interfaces]: net.Interfaces, each interface with its index and its
    Addrs, the IP of a *net.IPNet. *)
Class Host := {
  host_numbers :: Numbers;
  os : Type;
  os_setsockopt : os -> Z -> Z -> Z -> bytes -> os * Z;
  os_getsockopt : os -> Z -> Z -> Z -> bytes -> os * (Z * (bytes * Z));
  os_call : os -> fdcall -> os * (Z * (Z * bytes));
  os_released : os -> file -> os * bool;
  os_prepare : os -> file -> os * option error;
  os_wait : os -> file -> os * option error;
  os_deadline : os -> file -> option Z -> os * option error;
  os_ctx_err : os -> os * option error;
  os_stop : os -> os * bool;
  os_elapsed : os -> os * Z;
  os_order : os -> os * list Z;
  os_somaxconn : os -> os * option string;
  os_interfaces : os -> os * option (list (Z * option (list (option bytes))));
}.

(** ** The process *)
Record process `{H : Host} := {
  p_os : os;
  p_closed : list nat;
  p_next : nat;
  p_cache : storageLayoutChoice;
  p_ipv6Unavailable : option bool;
}.

(** What happened: an option call on a descriptor, another call with its
    answer, a deadline set on a file. *)
Inductive action :=
| AOpt (fd : Z) (d : done)
| ACall (c : fdcall) (errno value : Z) (data : bytes)
| ADeadline (f : nat) (t : option Z).

Abbreviation io := (logged process action).

Record socket := { s_file : file; s_family : Z; s_network : string }.
Definition s_fd (s : socket) : Z := f_fd (s_file s).

Section IO.
Context `{H : Host}.

Definition set_os (s : process) (o : os) : process := {|
  p_os := o; p_closed := p_closed s; p_next := p_next s; p_cache := p_cache s; p_ipv6Unavailable := p_ipv6Unavailable s |}.

(** A question to the runtime. *)
Definition ask {X} (q : os -> os * X) : io X := fun s =>
  let '(o, x) := q (p_os s) in (set_os s o, [], Ret x).

Definition sys_call (c : fdcall) : io (Z * bytes) := fun s =>
  let '(o, (errno, (v, d))) := os_call (p_os s) c in
  (set_os s o, [ACall c errno v d], if errno =? 0 then Ret (v, d) else Err (errno_error errno)).

(** Option calls on a descriptor: in the callback of a raw.Control, and
    through the raw.Control of a file, which fails once it is closed. *)
Definition at_fd (fd : Z) : Kernel := {|
  numbers := host_numbers;
  world := os * list nat;
  k_control w := (w, true);
  k_setsockopt w level opt b := let '(o, e) := os_setsockopt (fst w) fd level opt b in ((o, snd w), e);
  k_getsockopt w level opt b := let '(o, r) := os_getsockopt (fst w) fd level opt b in ((o, snd w), r) |}.

Definition at_file (f : file) : Kernel := {|
  numbers := host_numbers;
  world := os * list nat;
  k_control w :=
    if bool_decide (f_id f ∈ snd w) then (w, false)
    else let '(o, gone) := os_released (fst w) f in ((o, snd w), negb gone);
  k_setsockopt := k_setsockopt (Kernel := at_fd (f_fd f));
  k_getsockopt := k_getsockopt (Kernel := at_fd (f_fd f)) |}.

Definition on_fd {X} (fd : Z) (m : logged (@proc (at_fd fd)) done X) : io X := fun s =>
  let '(p, l, r) := m {| kern := (p_os s, p_closed s) : @world (at_fd fd); storageLayoutCache := p_cache s |} in
  ({| p_os := fst (kern p); p_closed := p_closed s; p_next := p_next s; p_cache := storageLayoutCache p;
      p_ipv6Unavailable := p_ipv6Unavailable s |}, AOpt fd <$> l, r).

Definition on {X} (s : socket) (m : logged (@proc (at_file (s_file s))) done X) : io X := fun st =>
  let '(p, l, r) := m {| kern := (p_os st, p_closed st) : @world (at_file (s_file s)); storageLayoutCache := p_cache st |} in
  ({| p_os := fst (kern p); p_closed := p_closed st; p_next := p_next st; p_cache := storageLayoutCache p;
      p_ipv6Unavailable := p_ipv6Unavailable st |}, AOpt (s_fd s) <$> l, r).

(** ** Files (package os) *)

(** os.NewFile refuses a negative descriptor. *)
Definition NewFile (fd : Z) : io (option file) := fun s =>
  if fd <? 0 then (s, [], Ret None) else
  ({| p_os := p_os s; p_closed := p_closed s; p_next := S (p_next s); p_cache := p_cache s;
      p_ipv6Unavailable := p_ipv6Unavailable s |}, [], Ret (Some {| f_id := p_next s; f_fd := fd |})).

Definition is_closed (s : process) (f : file) : bool := bool_decide (f_id f ∈ p_closed s).

Definition File_SetDeadline (f : file) (t : option Z) : io unit := fun s =>
  if is_closed s f then (s, [], Err (Plain ErrFileClosing)) else
  let '(o, e) := os_deadline (p_os s) f t in
  (set_os s o, [ADeadline (f_id f) t], match e with Some e => Err e | None => Ret tt end).

(** The one close(2) of the descriptor; an error is a *fs.PathError. *)
Definition File_Close (f : file) : io unit := fun s =>
  if is_closed s f then (s, [], Err (Wrapf "close sctp: %w" (Plain OsErrClosed))) else
  let s := {| p_os := p_os s; p_closed := f_id f :: p_closed s; p_next := p_next s; p_cache := p_cache s;
              p_ipv6Unavailable := p_ipv6Unavailable s |} in
  wrapped (fun e => Some (Wrapf "close sctp: %w" e)) (_ ← sys_call (c_close (f_fd f)); mret tt) s.

(** raw.Control of a file, and socket.control, which reports a file that is
    closed as net.ErrClosed. *)
Definition File_Control {X} (f : file) (fn : io X) : io X := fun s =>
  if is_closed s f then (s, [], Err (Plain ErrFileClosing)) else
  let '(o, gone) := os_released (p_os s) f in
  if (gone : bool) then (set_os s o, [], Err (Plain ErrFileClosing)) else fn (set_os s o).

Definition control {X} (s : socket) (fn : io X) : io X :=
  r ← caught (File_Control (s_file s) (caught fn));
  match r with
  | inr _ => fails (Some (Plain NetErrClosed))
  | inl (inr e) => fails (Some e)
  | inl (inl x) => mret x
  end.

(** raw.Read and raw.Write: the callback runs until it returns true, with a
    wait after each false; [fn] has [Some] with what the callback left in
    its variables when it returns true.  [None] when it is still waiting
    after [wakes] wake-ups. *)
Fixpoint raw_loop {X} (wakes : nat) (f : file) (fn : io (option X)) : io (option X) :=
  match wakes with
  | O => mret None
  | S wakes =>
      ok ← fn;
      match ok with
      | Some x => mret (Some x)
      | None =>
          err ← ask (fun o => os_wait o f);
          match err with Some e => fails (Some e) | None => raw_loop wakes f fn end
      end
  end.

Definition raw_Read {X} (wakes : nat) (f : file) (fn : io (option X)) : io (option X) := fun s =>
  if is_closed s f then (s, [], Err (Plain ErrFileClosing)) else
  (err ← ask (fun o => os_prepare o f);
   match err with Some e => fails (Some e) | None => raw_loop wakes f fn end) s.

(** ** Opening a socket *)
Definition socketError (err : error) : option error :=
  match errors_As err with
  | Some errno =>
      if (errno =? EPROTONOSUPPORT) || (errno =? ESOCKTNOSUPPORT) then Some (UnsupportedErr errno)
      else NewSyscallError "socket" (Some err)
  | None => NewSyscallError "socket" (Some err)
  end.

(** [_ = m] *)
Definition ignore {X} (m : io X) : io unit := _ ← err_of m; mret tt.

(** f.SyscallConn fails only for a nil file. *)
Definition wrapSocketFile (fd family : Z) (network : string) : io socket :=
  f ← NewFile fd;
  match f with
  | None => fails (NewSyscallError "socket" (Some (Plain (Errno EBADF))))
  | Some f =>
      err ← err_of (File_SetDeadline f None);
      match err with
      | Some e =>
          _ ← ignore (File_Close f);
          fails (Some (Wrapf "sctp: registering socket with the runtime poller: %w" e))
      | None => mret {| s_file := f; s_family := family; s_network := network |}
      end
  end.

Definition openSocket (family typ : Z) (network : string) : io socket :=
  '(fd, _) ← wrapped socketError (sys_call (c_socket family (Z.lor (Z.lor typ SOCK_NONBLOCK) SOCK_CLOEXEC) ipprotoSCTP));
  wrapSocketFile fd family network.

Definition newSocket (family : Z) (network : string) : io socket := openSocket family SOCK_STREAM network.

(** ** The family of a socket *)

(** A sync.OnceValue. *)
Definition ipv6Unavailable : io bool := fun s =>
  match p_ipv6Unavailable s with
  | Some v => (s, [], Ret v)
  | None =>
      let '(s, l, r) :=
        (r ← caught (sys_call (c_socket afInet6 (Z.lor SOCK_STREAM SOCK_CLOEXEC) ipprotoSCTP));
         match r with
         | inr err => mret (errors_Is err (Errno EAFNOSUPPORT))
         | inl (fd, _) => _ ← ignore (sys_call (c_close fd)); mret false
         end : io bool) s in
      ({| p_os := p_os s; p_closed := p_closed s; p_next := p_next s; p_cache := p_cache s;
          p_ipv6Unavailable := match r with Ret v => Some v | _ => None end |}, l, r)
  end.

Definition socketFamily (network : string) (laddr raddr : option SctpAddr) : io Z :=
  family ← pure (canonicalNetwork network (list_IPs laddr ++ list_IPs raddr));
  if (bool_decide (network = "") || bool_decide (network = "sctp")) && isWildcard laddr then
    unavailable ← ipv6Unavailable;
    mret (if negb unavailable then afInet6 else family)
  else mret family.
End IO.

(** os.NewSyscallError(call, err), for an error that is not nil. *)
Definition in_call (call : string) (e : error) : option error := NewSyscallError call (Some e).

Section Check.
Context `{A : Arch} `{K : Kernel}.

(** ** Checking a descriptor *)

(** syscall.GetsockoptInt *)
Definition GetsockoptInt (level opt : Z) : sys Z :=
  '(b, _) ← rawGetsockopt level opt (zeros sizeInt);
  v ← pure (get_at NativeEndian 4 b 0);
  mret (i32 v).

Definition checkAdoptable (listening : bool) : sys Z :=
  proto ← wrapped (in_call "getsockopt") (GetsockoptInt SOL_SOCKET SO_PROTOCOL);
  if negb (proto =? ipprotoSCTP) then
    fails (Some (invalidArg "the descriptor is not an SCTP socket (SO_PROTOCOL %d, not IPPROTO_SCTP)")) else
  typ ← wrapped (in_call "getsockopt") (GetsockoptInt SOL_SOCKET SO_TYPE);
  if negb (typ =? SOCK_STREAM) then
    fails (Some (invalidArg "the descriptor is not a one-to-one SCTP socket (SO_TYPE %d, not SOCK_STREAM)")) else
  family ← wrapped (in_call "getsockopt") (GetsockoptInt SOL_SOCKET SO_DOMAIN);
  if listening then
    acc ← wrapped (in_call "getsockopt") (GetsockoptInt SOL_SOCKET SO_ACCEPTCONN);
    if acc =? 0 then fails (Some (invalidArg "the descriptor is not a listening socket (SO_ACCEPTCONN is 0)"))
    else mret family
  else
    r ← caught ('(st, _) ← rawGetsockopt ipprotoSCTP optStatus (zeros sizeStatus);
                v ← pure (get_at NativeEndian 4 st statusStateOff);
                mret (i32 v));
    let none := invalidArg "the descriptor holds no established association (SCTP_STATUS finds none)" in
    match r with
    | inl state => if negb (state =? StateClosed) then mret family else fails (Some none)
    | inr err => if errors_Is err (Errno EINVAL) then fails (Some none) else fails (in_call "getsockopt" err)
    end.
End Check.

(** ** Setting a socket up *)

(** Config.Control, called with the network, the address and the socket; it
    returns an error, or none. *)
Definition hook `{H : Host} : Type := string -> string -> socket -> io unit.

Section Setup.
Context `{A : Arch} `{H : Host}.

(** What Control gets: Control reaches the descriptor, Read and Write are
    refused. *)
Definition setupRawConn_Control {X} (s : socket) (f : io X) : io X := File_Control (s_file s) f.
Definition setupRawConn_Read : out error unit := Err (Plain (Errno EINVAL)).
Definition setupRawConn_Write : out error unit := Err (Plain (Errno EINVAL)).

Definition setupSocket (s : socket) (address : string) (ctl : option hook) (ops : list configOp) : io unit :=
  _ ← (if s_family s =? afInet6
       then wrapped (in_call "setsockopt") (on s (sock_control (setIntOpt IPPROTO_IPV6 IPV6_V6ONLY 0)))
       else mret tt);
  _ ← match ctl with Some h => h (s_network s) address s | None => mret tt end;
  on s (applyConfig ops).

(** ** Adopting a descriptor *)
Definition adoptFile (f : option file) (listening : bool) : io socket :=
  match f with
  | None => fails (Some (invalidArg "the *os.File is nil"))
  | Some f =>
      r ← caught (File_Control f (caught (sys_call (c_dup (f_fd f)))));
      match r with
      | inr _ => fails (in_call "fcntl" (Plain (Errno EBADF)))
      | inl (inr derr) => fails (in_call "fcntl" derr)
      | inl (inl (fd, _)) =>
          r ← caught (family ← on_fd fd (checkAdoptable listening);
                      _ ← wrapped (in_call "fcntl") (sys_call (c_setnonblock fd));
                      mret family);
          match r with
          | inr err => _ ← ignore (sys_call (c_close fd)); fails (Some err)
          | inl family => wrapSocketFile fd family "sctp"
          end
      end
  end.
End Setup.

(** ** The ledger

    The descriptor a successful SCTP_SOCKOPT_PEELOFF_FLAGS wrote into its
    argument. *)
Section Ledger.
Context `{A : Arch}.

Definition peeled_fd (d : done) : option Z :=
  match d with
  | Did (Getsockopt level opt _) 0 reply =>
      if (level =? ipprotoSCTP) && (opt =? optSockoptPeeloffFlags)
      then Some (i32 (uint_of NativeEndian (sub reply peeloffFlagsArgSDOff 4))) else None
  | _ => None
  end.

(** The descriptor a call is made on. *)
Definition call_fd (c : fdcall) : option Z :=
  match c with
  | c_socket _ _ _ => None
  | c_accept4 fd _ | c_dup fd | c_close fd | c_setnonblock fd | c_listen fd _ | c_shutdown fd _ | c_sendmsg fd _ | c_recvmsg fd _ _ => Some fd
  end.

Definition acquires (c : fdcall) : bool :=
  match c with c_socket _ _ _ | c_accept4 _ _ | c_dup _ => true | _ => false end.

Definition acquire (fd : Z) (ow : list Z) : list Z := if 0 <=? fd then fd :: ow else ow.

Definition owned_fd (ow : list Z) (fd : option Z) : bool :=
  match fd with Some fd => bool_decide (fd ∈ ow) | None => true end.

Fixpoint release_fd (fd : Z) (ow : list Z) : option (list Z) :=
  match ow with
  | [] => None
  | fd' :: ow => if fd =? fd' then Some ow else cons fd' <$> release_fd fd ow
  end.

(** The descriptors that are owned after one action. *)
Definition entry (ow : list Z) (a : action) : option (list Z) :=
  match a with
  | AOpt fd d =>
      if bool_decide (fd ∈ ow) then Some (match peeled_fd d with Some p => acquire p ow | None => ow end) else None
  | ACall (c_close fd) _ _ _ => release_fd fd ow
  | ACall c errno v _ =>
      if owned_fd ow (call_fd c) then Some (if (errno =? 0) && acquires c then acquire v ow else ow) else None
  | ADeadline _ _ => Some ow
  end.

Fixpoint ledger (ow : list Z) (l : list action) : option (list Z) :=
  match l with
  | [] => Some ow
  | a :: l => match entry ow a with Some ow => ledger ow l | None => None end
  end.

Lemma ledger_app ow l1 l2 : ledger ow (l1 ++ l2) = match ledger ow l1 with Some ow => ledger ow l2 | None => None end.
Proof. revert ow. induction l1 as [| a l1 IH]; intros ow; [done |]. cbn. by destruct (entry ow a). Qed.
End Ledger.

(** ** Reasoning about descriptors

    [held] is what is owned, and the files that are closed.  [keeps g g']:
    the same descriptors are owned, and no file that existed was closed. *)
Record held := { owned : list Z; closed : list nat; next : nat }.

Definition held_wf (g : held) : Prop := forall i, i ∈ closed g -> (i < next g)%nat.

Definition keeps (g g' : held) : Prop :=
  owned g' = owned g /\ (next g <= next g')%nat /\ (forall i, (i < next g)%nat -> (i ∈ closed g' <-> i ∈ closed g)) /\ held_wf g'.

(** [has g s]: the socket's descriptor is owned and its file open. *)
Definition has (g : held) (s : socket) : Prop :=
  s_fd s ∈ owned g /\ (f_id (s_file s) ∉ closed g) /\ (f_id (s_file s) < next g)%nat.

(** [hands g s g']: one descriptor more than in [g], and it is [s]'s. *)
Definition hands (g : held) (s : socket) (g' : held) : Prop :=
  owned g' = s_fd s :: owned g /\ has g' s /\ (next g <= f_id (s_file s))%nat /\ (next g <= next g')%nat /\
  (forall i, (i < next g)%nat -> (i ∈ closed g' <-> i ∈ closed g)) /\ held_wf g'.

Section Runs.
Context `{A : Arch} `{H : Host}.

Definition holding (s : process) (ow : list Z) : held := {| owned := ow; closed := p_closed s; next := p_next s |}.

Definition runs {X} (g : held) (m : io X) (Q : out error X -> held -> Prop) : Prop :=
  forall s, p_closed s = closed g -> p_next s = next g ->
  let '(s', l, r) := m s in exists ow, ledger (owned g) l = Some ow /\ Q r (holding s' ow).

Lemma runs_mono {X} g (m : io X) (Q Q' : out error X -> held -> Prop) :
  runs g m Q -> (forall r g', Q r g' -> Q' r g') -> runs g m Q'.
Proof.
  intros Hm HQ s Hc Hn. specialize (Hm s Hc Hn). destruct (m s) as [[s' l] r]. destruct Hm as (ow & Hl & Hr). eauto.
Qed.

Lemma runs_ret {X} g (x : X) Q : Q (Ret x) g -> runs g (mret x) Q.
Proof. intros HQ s Hc Hn. exists (owned g). split; [done |]. unfold holding. rewrite Hc, Hn. by destruct g. Qed.

Lemma runs_pure {X} g (r : out error X) Q : Q r g -> runs g (pure r) Q.
Proof. intros HQ s Hc Hn. exists (owned g). split; [done |]. unfold holding. rewrite Hc, Hn. by destruct g. Qed.

Lemma runs_fails {X} g e (Q : out error X -> held -> Prop) : Q (Err e) g -> runs g (fails (Some e)) Q.
Proof. apply runs_pure. Qed.

Definition next_runs {X Y} (k : X -> io Y) (Q : out error Y -> held -> Prop) (r : out error X) (g : held) : Prop :=
  match r with Ret x => runs g (k x) Q | Err e => Q (Err e) g | Panic => Q Panic g end.

Lemma runs_bind {X Y} g (m : io X) (k : X -> io Y) Q : runs g m (next_runs k Q) -> runs g (m ≫= k) Q.
Proof.
  intros Hm s Hc Hn. specialize (Hm s Hc Hn). unfold mbind, sys_bind.
  destruct (m s) as [[s1 l1] [x | e |]]; destruct Hm as (ow & Hl & Hr); cbn [next_runs] in Hr; [| by eauto..].
  specialize (Hr s1 eq_refl eq_refl). destruct (k x s1) as [[s2 l2] r]. destruct Hr as (ow' & Hl' & HQ).
  exists ow'. by rewrite ledger_app, Hl.
Qed.

Lemma runs_caught {X} g (m : io X) Q :
  runs g m (fun r => match r with Ret x => Q (Ret (inl x)) | Err e => Q (Ret (inr e)) | Panic => Q Panic end) ->
  runs g (caught m) Q.
Proof.
  intros Hm s Hc Hn. specialize (Hm s Hc Hn). unfold caught. by destruct (m s) as [[s1 l1] [x | e |]].
Qed.

Lemma runs_err_of {X} g (m : io X) Q :
  runs g m (fun r => match r with Ret _ => Q (Ret None) | Err e => Q (Ret (Some e)) | Panic => Q Panic end) ->
  runs g (err_of m) Q.
Proof.
  intros Hm. apply runs_bind, runs_caught. eapply runs_mono; [exact Hm |]. intros [x | e |] g' HQ; cbn [next_runs]; [by apply runs_ret.. | done].
Qed.

Lemma runs_ignore {X} g (m : io X) Q :
  runs g m (fun r => match r with Panic => Q Panic | _ => Q (Ret tt) end) -> runs g (ignore m) Q.
Proof.
  intros Hm. apply runs_bind, runs_err_of. eapply runs_mono; [exact Hm |]. intros [x | e |] g' HQ; cbn [next_runs]; [by apply runs_ret.. | done].
Qed.

Lemma runs_wrapped {X} g wrap (m : io X) Q :
  (forall e, wrap e <> None) ->
  runs g m (fun r g' => match r with
                        | Err e => forall e', wrap e = Some e' -> Q (Err e') g'
                        | r => Q r g'
                        end) ->
  runs g (wrapped wrap m) Q.
Proof.
  intros Hw Hm. apply runs_bind, runs_caught. eapply runs_mono; [exact Hm |]. intros [x | e |] g' HQ; cbn [next_runs]; [by apply runs_ret | | done].
  destruct (wrap e) as [e' |] eqn:He; [apply runs_fails; auto | by destruct (Hw e)].
Qed.

Lemma runs_ask {X} g (q : os -> os * X) Q : (forall x, Q (Ret x) g) -> runs g (ask q) Q.
Proof.
  intros HQ s Hc Hn. unfold ask. destruct (q (p_os s)) as [o x]. exists (owned g). split; [done |].
  unfold holding. cbn. rewrite Hc, Hn. destruct g. apply HQ.
Qed.

(** A call that neither opens nor closes. *)
Lemma runs_call g c Q :
  acquires c = false -> (forall fd, c <> c_close fd) -> owned_fd (owned g) (call_fd c) = true ->
  (forall r, r <> Panic -> Q r g) -> runs g (sys_call c) Q.
Proof.
  intros Ha Hcl Ho HQ s Hc Hn. unfold sys_call. destruct (os_call (p_os s) c) as [o [errno [v d]]].
  exists (owned g). split.
  - cbn [ledger]. destruct c; cbn [entry]; try (by destruct (Hcl fd)); cbn [acquires call_fd] in *; try done;
      rewrite Ho, andb_false_r; done.
  - unfold holding. cbn. rewrite Hc, Hn. destruct g. apply HQ. by destruct (errno =? 0).
Qed.

(** A call that opens a descriptor. *)
Definition with_fd (g : held) (fd : Z) : held := {| owned := fd :: owned g; closed := closed g; next := next g |}.

(** socket(2), accept(2) and fcntl(2): the descriptor is not negative; and
    SOL_SOCKET is not IPPROTO_SCTP's number. *)
Class HostOk := {
  fd_nonneg : forall o o' c v d, acquires c = true -> os_call o c = (o', (0, (v, d))) -> 0 <= v;
  sol_socket_ne : SOL_SOCKET <> ipprotoSCTP;
}.

Lemma runs_open `{HO : HostOk} g c Q :
  acquires c = true -> owned_fd (owned g) (call_fd c) = true ->
  (forall v d, 0 <= v -> Q (Ret (v, d)) (with_fd g v)) -> (forall e, Q (Err e) g) -> runs g (sys_call c) Q.
Proof.
  intros Ha Ho HQ He s Hc Hn. unfold sys_call. destruct (os_call (p_os s) c) as [o [errno [v d]]] eqn:Hos.
  destruct (Z.eqb_spec errno 0) as [-> | Hne].
  - pose proof (fd_nonneg _ _ _ _ _ Ha Hos) as Hv. exists (v :: owned g). split.
    + cbn [ledger]. destruct c; try done; cbn [entry call_fd acquires] in *; rewrite Ho; cbn; unfold acquire;
        rewrite (proj2 (Z.leb_le 0 v) Hv); done.
    + unfold holding. cbn. rewrite Hc, Hn. by apply HQ.
  - exists (owned g). split.
    + cbn [ledger]. destruct c; try done; cbn [entry call_fd acquires] in *; rewrite Ho;
        rewrite (proj2 (Z.eqb_neq _ _) Hne); done.
    + unfold holding. cbn. rewrite Hc, Hn. destruct g. apply He.
Qed.

(** close(2) of the last descriptor opened. *)
Lemma runs_close g fd Q :
  (forall r, r <> Panic -> Q r g) -> runs (with_fd g fd) (sys_call (c_close fd)) Q.
Proof.
  intros HQ s Hc Hn. unfold sys_call. destruct (os_call (p_os s) _) as [o [errno [v d]]]. exists (owned g). split.
  - cbn. by rewrite Z.eqb_refl.
  - unfold holding. cbn. cbn in Hc, Hn. rewrite Hc, Hn. destruct g. apply HQ. by destruct (errno =? 0).
Qed.

(** Option calls that peel nothing off leave the ledger as it is. *)
Definition no_peel (d : done) : Prop := peeled_fd d = None.

Lemma ledger_opts ow fd (l : list done) :
  fd ∈ ow -> Forall no_peel l -> ledger ow (AOpt fd <$> l) = Some ow.
Proof.
  intros Ho. induction 1 as [| d l Hd Hl IH]; [done |]. cbn [fmap list_fmap ledger entry].
  rewrite bool_decide_eq_true_2 by done. unfold no_peel in Hd. by rewrite Hd.
Qed.

Lemma runs_on {X} g (s : socket) (m : logged (@proc (at_file (s_file s))) done X) (R : out error X -> Prop) (Q : out error X -> held -> Prop) :
  s_fd s ∈ owned g -> emits m (fun l r => Forall no_peel l /\ R r) -> (forall r, R r -> Q r g) -> runs g (on s m) Q.
Proof.
  intros Ho Hm HQ st Hc Hn. unfold on.
  specialize (Hm {| kern := (p_os st, p_closed st) : @world (at_file (s_file s)); storageLayoutCache := p_cache st |}).
  destruct (m _) as [[p l] r]. destruct Hm as [Hl Hr]. exists (owned g). split; [by apply ledger_opts |].
  unfold holding. cbn. rewrite Hc, Hn. destruct g. by apply HQ.
Qed.

Lemma runs_on_fd {X} g fd (m : logged (@proc (at_fd fd)) done X) (R : out error X -> Prop) (Q : out error X -> held -> Prop) :
  fd ∈ owned g -> emits m (fun l r => Forall no_peel l /\ R r) -> (forall r, R r -> Q r g) -> runs g (on_fd fd m) Q.
Proof.
  intros Ho Hm HQ st Hc Hn. unfold on_fd.
  specialize (Hm {| kern := (p_os st, p_closed st) : @world (at_fd fd); storageLayoutCache := p_cache st |}).
  destruct (m _) as [[p l] r]. destruct Hm as [Hl Hr]. exists (owned g). split; [by apply ledger_opts |].
  unfold holding. cbn. rewrite Hc, Hn. destruct g. by apply HQ.
Qed.

Definition no_panic {X} (r : out error X) : Prop := r <> Panic.

(** ** Files *)
Lemma held_eta s g ow : p_closed s = closed g -> p_next s = next g -> holding s ow = {| owned := ow; closed := closed g; next := next g |}.
Proof. intros Hc Hn. unfold holding. by rewrite Hc, Hn. Qed.

Lemma runs_NewFile g fd Q :
  (fd < 0 -> Q (Ret None) g) ->
  (0 <= fd -> Q (Ret (Some {| f_id := next g; f_fd := fd |})) {| owned := owned g; closed := closed g; next := S (next g) |}) ->
  runs g (NewFile fd) Q.
Proof.
  intros Hneg Hpos s Hc Hn. unfold NewFile. destruct (Z.ltb_spec fd 0); exists (owned g); (split; [done |]); unfold holding; cbn; rewrite Hc, Hn.
  - destruct g. auto.
  - auto.
Qed.

Lemma runs_SetDeadline g f t Q : (forall r, r <> Panic -> Q r g) -> runs g (File_SetDeadline f t) Q.
Proof.
  intros HQ s Hc Hn. unfold File_SetDeadline. destruct (is_closed s f).
  - exists (owned g). split; [done |]. rewrite (held_eta s g _ Hc Hn). destruct g. by apply HQ.
  - destruct (os_deadline (p_os s) f t) as [o e]. exists (owned g). split; [done |]. unfold holding. cbn. rewrite Hc, Hn.
    destruct g. apply HQ. by destruct e.
Qed.

(** Closing the file of the descriptor opened last. *)
Definition closing_file (g : held) (f : file) : held := {| owned := owned g; closed := f_id f :: closed g; next := next g |}.

Lemma runs_File_Close g f ow Q :
  f_id f ∉ closed g -> owned g = f_fd f :: ow ->
  (forall r, r <> Panic -> Q r {| owned := ow; closed := f_id f :: closed g; next := next g |}) -> runs g (File_Close f) Q.
Proof.
  intros Hf Ho HQ s Hc Hn. unfold File_Close, is_closed. rewrite Hc, bool_decide_eq_false_2 by done.
  set (s1 := {| p_os := _ |}).
  pose proof (runs_wrapped (closing_file g f) (fun e => Some (Wrapf "close sctp: %w" e)) (_ ← sys_call (c_close (f_fd f)); mret tt)
    (fun r g' => r <> Panic /\ g' = {| owned := ow; closed := f_id f :: closed g; next := next g |})) as Hr.
  assert (Hw : closing_file g f = with_fd {| owned := ow; closed := f_id f :: closed g; next := next g |} (f_fd f)).
  { unfold closing_file, with_fd. cbn. by rewrite Ho. }
  specialize (Hr ltac:(done)). rewrite Hw in Hr.
  assert (Hclose : runs (with_fd {| owned := ow; closed := f_id f :: closed g; next := next g |} (f_fd f))
    (wrapped (fun e => Some (Wrapf "close sctp: %w" e)) (_ ← sys_call (c_close (f_fd f)); mret tt))
    (fun r g' => r <> Panic /\ g' = {| owned := ow; closed := f_id f :: closed g; next := next g |})).
  { apply Hr. apply runs_bind, runs_close. intros [x | e |] Hp; cbn [next_runs]; [by apply runs_ret | by intros | done]. }
  specialize (Hclose s1 eq_refl Hn). rewrite Ho. destruct (wrapped _ _ s1) as [[s2 l] r].
  destruct Hclose as (ow' & Hl & Hp & Hg). exists ow'. split; [exact Hl |]. rewrite Hg. by apply HQ.
Qed.

Lemma runs_File_Control {X} g f (fn : io X) Q :
  runs g fn Q -> Q (Err (Plain ErrFileClosing)) g -> runs g (File_Control f fn) Q.
Proof.
  intros Hfn HQ s Hc Hn. unfold File_Control. destruct (is_closed s f).
  - exists (owned g). split; [done |]. rewrite (held_eta s g _ Hc Hn). by destruct g.
  - destruct (os_released (p_os s) f) as [o []]; [| by apply Hfn].
    exists (owned g). split; [done |]. unfold holding. cbn. rewrite Hc, Hn. by destruct g.
Qed.

Lemma runs_control {X} g s (fn : io X) Q :
  runs g fn Q -> Q (Err (Plain NetErrClosed)) g -> runs g (control s fn) Q.
Proof.
  intros Hfn HQ. apply runs_bind, runs_caught, runs_File_Control.
  - apply runs_caught. eapply runs_mono; [exact Hfn |]. intros [x | e |] g' Hq; cbn [next_runs]; [by apply runs_ret | by apply runs_fails | done].
  - cbn [next_runs]. by apply runs_fails.
Qed.

(** A callback that keeps what is held while it waits. *)
Lemma runs_raw_loop {X} g wakes f (fn : io (option X)) Q :
  runs g fn (fun r g' => match r with
                         | Ret (Some x) => Q (Ret (Some x)) g'
                         | Ret None => g' = g
                         | Err e => Q (Err e) g'
                         | Panic => Q Panic g'
                         end) ->
  Q (Ret None) g -> (forall e, Q (Err e) g) -> runs g (raw_loop wakes f fn) Q.
Proof.
  intros Hfn HN He. induction wakes as [| wakes IH]; cbn [raw_loop]; [by apply runs_ret |].
  apply runs_bind. eapply runs_mono; [exact Hfn |]. intros [[x |] | e |] g' Hr; cbn [next_runs]; [by apply runs_ret | | done | done].
  subst g'. apply runs_bind, runs_ask. intros [e |]; cbn [next_runs]; [by apply runs_fails | done].
Qed.

Lemma runs_raw_Read {X} g wakes f (fn : io (option X)) Q :
  runs g fn (fun r g' => match r with
                         | Ret (Some x) => Q (Ret (Some x)) g'
                         | Ret None => g' = g
                         | Err e => Q (Err e) g'
                         | Panic => Q Panic g'
                         end) ->
  Q (Ret None) g -> (forall e, Q (Err e) g) -> runs g (raw_Read wakes f fn) Q.
Proof.
  intros Hfn HN He s Hc Hn. unfold raw_Read. destruct (is_closed s f).
  - exists (owned g). split; [done |]. rewrite (held_eta s g _ Hc Hn). destruct g. by apply He.
  - assert (Hr : runs g (err ← ask (fun o => os_prepare o f); match err with Some e => fails (Some e) | None => raw_loop wakes f fn end) Q).
    { apply runs_bind, runs_ask. intros [e |]; cbn [next_runs]; [by apply runs_fails | by apply runs_raw_loop]. }
    by apply Hr.
Qed.

(** ** Frames *)
Lemma keeps_refl g : held_wf g -> keeps g g.
Proof. intros Hg. split_and!; [done | lia | done | done]. Qed.

Lemma keeps_trans g1 g2 g3 : keeps g1 g2 -> keeps g2 g3 -> keeps g1 g3.
Proof.
  intros (Ho & Hn & Hc & _) (Ho' & Hn' & Hc' & Hw). split_and!; [congruence | lia | | done].
  intros i Hi. rewrite Hc', Hc by lia. done.
Qed.

Lemma hands_keeps g s g1 g2 : hands g s g1 -> keeps g1 g2 -> hands g s g2.
Proof.
  intros (Ho & (Hs & Hf & Hlt) & Hge & Hn & Hc & Hw) (Ho' & Hn' & Hc' & Hw').
  split_and!; [congruence | | done | lia | | done].
  - split_and!; [by rewrite Ho' | rewrite Hc' by done; done | lia].
  - intros i Hi. rewrite Hc' by lia. by apply Hc.
Qed.

Lemma keeps_hands g g1 s g2 : keeps g g1 -> hands g1 s g2 -> hands g s g2.
Proof.
  intros (Ho & Hn & Hc & Hw) (Ho' & Hh & Hge & Hn' & Hc' & Hw'). split_and!; [congruence | done | lia | lia | | done].
  intros i Hi. rewrite Hc' by lia. by apply Hc.
Qed.

Lemma hands_has g s g' : hands g s g' -> has g' s.
Proof. by intros (_ & Hh & _). Qed.

Lemma hands_wf g s g' : hands g s g' -> held_wf g'.
Proof. intros H0. apply H0. Qed.

(** Giving the descriptor back. *)
Lemma runs_give_back g s g' Q :
  held_wf g -> hands g s g' -> (forall r g'', r <> Panic -> keeps g g'' -> Q r g'') -> runs g' (File_Close (s_file s)) Q.
Proof.
  intros Hw (Ho & (Hs & Hf & Hlt) & Hge & Hn & Hc & Hw') HQ. apply (runs_File_Close g' (s_file s) (owned g)); [done | exact Ho |].
  intros r Hr. apply HQ; [done |]. split_and!; cbn; [done | lia | |].
  - intros i Hi. rewrite elem_of_cons, Hc by done. split; [intros [-> | ?]; [lia | done] | by right].
  - intros i [-> | Hi]%elem_of_cons; [done | by apply Hw'].
Qed.

(** ** Opening and wrapping *)
Definition opened_or (g : held) (r : out error socket) (g' : held) : Prop :=
  match r with Ret s => hands g s g' | Err _ => keeps g g' | Panic => False end.

Lemma runs_wrapSocketFile g fd family network Q :
  held_wf g -> (forall r g', opened_or g r g' -> Q r g') -> 
  runs (if 0 <=? fd then with_fd g fd else g) (wrapSocketFile fd family network) Q.
Proof.
  intros Hw HQ. apply runs_bind, runs_NewFile; intros Hfd.
  - rewrite (proj2 (Z.leb_gt 0 fd)) by lia. cbn [next_runs]. apply runs_fails, HQ. by apply keeps_refl.
  - rewrite (proj2 (Z.leb_le 0 fd)) by lia. cbn [next_runs with_fd owned closed next]. set (f := {| f_id := next g |}).
    assert (Hfresh : next g ∉ closed g) by (intros Hin; specialize (Hw _ Hin); lia).
    assert (Hh : hands g {| s_file := f; s_family := family; s_network := network |}
      {| owned := fd :: owned g; closed := closed g; next := S (next g) |}).
    { split_and!; cbn; [done | | lia | lia | done |].
      - split_and!; cbn; [by left | done | lia].
      - intros i Hi. cbn in *. specialize (Hw i Hi). lia. }
    apply runs_bind, runs_err_of, runs_SetDeadline. intros [u | e |] Hp; cbn [next_runs]; [| | done].
    + by apply runs_ret, HQ.
    + apply runs_bind, runs_ignore. apply (runs_give_back g {| s_file := f; s_family := family; s_network := network |} _ _ Hw Hh).
      intros r g'' Hr Hk. assert (Herr : runs g'' (fails (Some (Wrapf "sctp: registering socket with the runtime poller: %w" e))) Q).
      { by apply runs_fails, HQ. }
      by destruct r.
Qed.

Lemma runs_wrap_opened g fd family network Q :
  held_wf g -> 0 <= fd -> (forall r g', opened_or g r g' -> Q r g') ->
  runs (with_fd g fd) (wrapSocketFile fd family network) Q.
Proof.
  intros Hw Hfd HQ. pose proof (runs_wrapSocketFile g fd family network Q Hw HQ) as Hr.
  by rewrite (proj2 (Z.leb_le 0 fd)) in Hr by lia.
Qed.

Lemma socketError_some e : socketError e <> None.
Proof. unfold socketError. destruct (errors_As e); [| done]. by destruct (_ || _). Qed.

Context `{HO : !HostOk}.

Lemma runs_openSocket g family typ network Q :
  held_wf g -> (forall r g', opened_or g r g' -> Q r g') -> runs g (openSocket family typ network) Q.
Proof.
  intros Hw HQ. apply runs_bind, runs_wrapped; [apply socketError_some |]. apply runs_open; [done | done | |].
  - intros v d Hv. cbn [next_runs]. by apply runs_wrap_opened.
  - intros e e' _. cbn [next_runs]. apply HQ. by apply keeps_refl.
Qed.
End Runs.

(** ** Calls that open nothing

    [quiet m]: no call of [m] peels an association off. *)
Section Quiet.
Context `{A : Arch} `{ZE : ZoneEnv} `{K : Kernel}.

Definition quiet {X} (m : sys X) : Prop := emits m (fun l _ => Forall no_peel l).

Lemma quiet_pure {X} (r : out error X) : quiet (pure r).
Proof. apply emits_pure. constructor. Qed.

Lemma quiet_ret {X} (x : X) : quiet (mret x).
Proof. apply emits_ret. constructor. Qed.

Lemma quiet_fails {X} e : quiet (fails (X := X) e).
Proof. destruct e; apply quiet_pure. Qed.

Lemma quiet_bind {X Y} (m : sys X) (k : X -> sys Y) : quiet m -> (forall x, quiet (k x)) -> quiet (m ≫= k).
Proof.
  intros Hm Hk. apply emits_bind. eapply emits_mono; [exact Hm |]. intros l [x | e |] Hl; cbn [then_]; [| done..].
  eapply emits_mono; [apply Hk |]. intros l' r Hl'. by apply Forall_app_2.
Qed.

Lemma quiet_caught {X} (m : sys X) : quiet m -> quiet (caught m).
Proof. intros Hm. apply emits_caught. eapply emits_mono; [exact Hm |]. by intros l [x | e |]. Qed.

Lemma quiet_wrapped {X} wrap (m : sys X) : quiet m -> quiet (wrapped wrap m).
Proof. intros Hm. apply quiet_bind; [by apply quiet_caught |]. intros [x | e]; [apply quiet_ret | apply quiet_fails]. Qed.

Lemma quiet_err_of {X} (m : sys X) : quiet m -> quiet (err_of m).
Proof. intros Hm. apply quiet_bind; [by apply quiet_caught |]. intros x. apply quiet_ret. Qed.

Lemma quiet_control {X} (m : sys X) : quiet m -> quiet (sock_control m).
Proof. intros Hm. apply emits_control; [done |]. constructor. Qed.

Lemma quiet_set level opt b : quiet (rawSetsockopt level opt b).
Proof.
  intros s. unfold rawSetsockopt. destruct (len b =? 0); [constructor |].
  destruct (k_setsockopt (kern s) level opt b) as [w errno]. by repeat constructor.
Qed.

Lemma quiet_get level opt b :
  (level =? ipprotoSCTP) && (opt =? optSockoptPeeloffFlags) = false -> quiet (rawGetsockopt level opt b).
Proof.
  intros Hp s. unfold rawGetsockopt. destruct (len b =? 0); [constructor |].
  destruct (k_getsockopt (kern s) level opt b) as [w [errno [r n]]]. cbn [fst snd]. constructor; [| constructor].
  unfold no_peel. cbn [peeled_fd]. rewrite Hp. by destruct errno.
Qed.

Lemma quiet_cache c : quiet (set_cache c).
Proof. intros s. constructor. Qed.

Lemma quiet_get_cache : quiet get_cache.
Proof. intros s. constructor. Qed.
End Quiet.

Create HintDb quiet discriminated.
#[export] Hint Constants Opaque : quiet.
#[export] Hint Resolve quiet_pure quiet_ret quiet_fails quiet_caught quiet_wrapped quiet_err_of quiet_control
  quiet_set quiet_cache quiet_get_cache : quiet.
#[export] Hint Extern 1 (quiet (rawGetsockopt _ _ _)) => apply quiet_get; reflexivity : quiet.

(** [hush] goes through a computation made of quiet parts. *)
Ltac hush := cbv zeta; repeat
  match goal with
  | |- quiet (_ ≫= _) => apply quiet_bind; [| intros ?]
  | |- quiet (if ?b then _ else _) => destruct b
  | |- quiet (match ?x with _ => _ end) => destruct x
  | |- quiet _ => solve [auto 6 with quiet]
  | |- quiet (caught _) => apply quiet_caught
  | |- quiet (wrapped _ _) => apply quiet_wrapped
  | |- quiet (err_of _) => apply quiet_err_of
  | |- quiet (sock_control _) => apply quiet_control
  end.

Section QuietParts.
Context `{A : Arch} `{ZE : ZoneEnv} `{K : Kernel}.

Lemma quiet_setIntOpt level opt v : quiet (setIntOpt level opt v).
Proof. unfold setIntOpt. hush. Qed.

Lemma quiet_setAssocValue opt v : quiet (setAssocValue opt v).
Proof. unfold setAssocValue. hush. Qed.

Lemma quiet_setEvent t on : quiet (setEvent t on).
Proof. unfold setEvent. hush. Qed.

#[local] Hint Resolve quiet_setIntOpt quiet_setAssocValue quiet_setEvent : quiet.

Lemma quiet_getEvent t : quiet (getEvent t).
Proof. unfold getEvent. hush. Qed.

Lemma quiet_kernelSubscriptions types : quiet (kernelSubscriptions types).
Proof.
  apply quiet_control. generalize 0. induction types as [| t types IH]; intros set; cbn [subscriptions_loop]; [apply quiet_ret |].
  destruct (_ || _); [done |]. apply quiet_bind; [apply quiet_caught, quiet_getEvent |]. intros got. apply IH.
Qed.

Lemma quiet_applyOp op : quiet (applyOp op).
Proof.
  destruct op; cbn [applyOp]; unfold setDefaultPrInfo, setDefaultSndInfo; hush; unfold setDefaultPrInfo; hush.
Qed.

Lemma quiet_applyConfig ops : quiet (applyConfig ops).
Proof.
  apply quiet_control. induction ops as [| op ops IH]; cbn [apply_ops]; [apply quiet_ret |].
  apply quiet_bind; [apply quiet_wrapped, quiet_applyOp | done].
Qed.

Lemma quiet_getAddrs opt assoc : opt <> optSockoptPeeloffFlags -> quiet (getAddrs opt assoc).
Proof.
  intros Ho. unfold getAddrs. generalize 4096. generalize 4%nat. intros n. induction n as [| n IH]; intros size; cbn [getAddrs_loop]; [apply quiet_pure |].
  apply quiet_bind; [| intros []; [apply quiet_ret | apply IH]].
  unfold getAddrs_turn, getsockopt, getsockoptAt. hush. apply quiet_get. by rewrite (proj2 (Z.eqb_neq _ _) Ho), andb_false_r.
Qed.

Lemma quiet_status : quiet status.
Proof. unfold status, getsockopt, getsockoptAt. hush. Qed.

Lemma quiet_GetsockoptInt level opt :
  (level =? ipprotoSCTP) && (opt =? optSockoptPeeloffFlags) = false -> quiet (GetsockoptInt level opt).
Proof. intros Hp. unfold GetsockoptInt. hush. by apply quiet_get. Qed.
End QuietParts.

(** [calm m R]: [m] is quiet, and its outcome is in [R]. *)
Definition calm `{A : Arch} `{K : Kernel} {X} (m : sys X) (R : out error X -> Prop) : Prop :=
  emits m (fun l r => Forall no_peel l /\ R r).

Lemma calm_quiet `{A : Arch} `{K : Kernel} {X} (m : sys X) (R : out error X -> Prop) :
  quiet m -> emits m (fun _ r => R r) -> calm m R.
Proof. intros Hq Hr s. split; [apply Hq | apply Hr]. Qed.

(** ** Parts that do not panic *)
Section NoPanic.
Context `{A : Arch} `{ZE : ZoneEnv} `{K : Kernel}.

Lemma fine_applyConfig ops : emits (applyConfig ops) (fun _ r => no_panic r).
Proof.
  apply emits_control; [| done]. eapply emits_mono; [apply apply_ops_applied |].
  intros l r Hr. induction Hr as [| op ops l l' r _ _ IH | op ops l errno _]; try done.
Qed.

Lemma fine_get {X} level opt b (k : bytes * Z -> sys X) (R : out error X -> Prop) :
  len b <> 0 -> (forall e, R (Err e)) -> (forall b' n, len b' = len b -> emits (k (b', n)) (fun _ r => R r)) ->
  emits (rawGetsockopt level opt b ≫= k) (fun _ r => R r).
Proof.
  intros Hb He Hk. apply emits_bind, emits_get; [done |]. intros errno b' n Hlen. destruct (errno =? 0); cbn [then_]; [| apply He].
  by apply Hk.
Qed.

Lemma fine_getsockopt {X} opt b (k : bytes * Z -> sys X) (R : out error X -> Prop) :
  len b <> 0 -> (forall e, R (Err e)) -> (forall b' n, len b' = len b -> emits (k (b', n)) (fun _ r => R r)) ->
  emits (getsockopt opt b ≫= k) (fun _ r => R r).
Proof.
  intros Hb He Hk. apply emits_bind, emits_control; [| apply He]. apply emits_get; [done |]. intros errno b' n Hlen.
  destruct (errno =? 0); cbn [then_]; [| apply He]. by apply Hk.
Qed.

Lemma fine_status : emits status (fun _ r => no_panic r).
Proof.
  apply fine_getsockopt; [rewrite len_zeros; abi; lia | done |]. intros b n Hb. rewrite len_zeros in Hb by (abi; lia).
  apply emits_pure_bind. rewrite get4_ok by (abi; lia). apply emits_pure_bind. rewrite get4_ok by (abi; lia). by apply emits_ret.
Qed.

Lemma fine_getAddrs opt assoc : emits (getAddrs opt assoc) (fun _ r => no_panic r).
Proof.
  unfold getAddrs. eapply emits_mono; [by apply (getAddrs_loop_spec opt assoc 3 4096) |]. by intros l r (? & ? & _ & _ & _ & Hp).
Qed.

Lemma fine_GetsockoptInt level opt : emits (GetsockoptInt level opt) (fun _ r => no_panic r).
Proof.
  apply fine_get; [rewrite len_zeros; abi; lia | done |]. intros b n Hb. rewrite len_zeros in Hb by (abi; lia).
  apply emits_pure_bind. rewrite get4_ok by (abi; lia). by apply emits_ret.
Qed.

Lemma fine_getEvent t : emits (getEvent t) (fun _ r => no_panic r).
Proof.
  unfold getEvent. apply emits_pure_bind. abi. rewrite put_first by lia. set (q := (zeros _ ++ _) ++ _).
  assert (Hq : len q = 8) by (unfold q; rewrite !len_app, len_bytes_of, !len_zeros by lia; lia).
  apply fine_get; [lia | done |]. intros b n Hb. apply emits_pure_bind. rewrite get_at_ok by (cbn; lia). by apply emits_ret.
Qed.

Lemma fine_kernelSubscriptions types : emits (kernelSubscriptions types) (fun _ r => no_panic r).
Proof.
  apply emits_control; [| done]. generalize 0. induction types as [| t types IH]; intros set; cbn [subscriptions_loop]; [by apply emits_ret |].
  destruct (_ || _); [done |]. apply emits_bind, emits_caught. eapply emits_mono; [apply fine_getEvent |].
  intros l [x | e |] Hp; cbn [then_]; [apply IH.. | done].
Qed.

Lemma fine_wrapped {X Y} call (m : sys X) (k : X -> sys Y) :
  emits m (fun _ r => no_panic r) -> (forall x, emits (k x) (fun _ r => no_panic r)) ->
  emits (wrapped (in_call call) m ≫= k) (fun _ r => no_panic r).
Proof.
  intros Hm Hk. apply emits_bind, emits_wrapped. eapply emits_mono; [exact Hm |]. intros l [x | e |] Hp; cbn; [apply Hk | done | done].
Qed.

Lemma fine_checkAdoptable listening : emits (checkAdoptable listening) (fun _ r => no_panic r).
Proof.
  unfold checkAdoptable. apply fine_wrapped; [apply fine_GetsockoptInt |]. intros proto.
  destruct (negb _); [by apply emits_fails |]. apply fine_wrapped; [apply fine_GetsockoptInt |]. intros typ.
  destruct (negb _); [by apply emits_fails |]. apply fine_wrapped; [apply fine_GetsockoptInt |]. intros family.
  destruct listening.
  - apply fine_wrapped; [apply fine_GetsockoptInt |]. intros acc. destruct (acc =? 0); [by apply emits_fails | by apply emits_ret].
  - apply emits_bind, emits_caught. eapply (emits_mono _ (fun _ r => no_panic r)).
    + apply fine_get; [rewrite len_zeros; abi; lia | done |]. intros b n Hb. rewrite len_zeros in Hb by (abi; lia).
      apply emits_pure_bind. rewrite get4_ok by (abi; lia). by apply emits_ret.
    + intros l [state | e |] Hp; cbn [then_]; [| | done].
      * destruct (negb _); [by apply emits_ret | by apply emits_fails].
      * destruct (errors_Is _ _); by apply emits_fails.
Qed.
End NoPanic.

(** ** Setting up and adopting *)
Section Constructors.
Context `{A : Arch} `{ZE : ZoneEnv} `{H : Host} `{HO : !HostOk}.

(** A function that leaves what is owned as it is. *)
Definition kept_by {X} (g : held) (r : out error X) (g' : held) : Prop := no_panic r /\ keeps g g'.

(** Config.Control may make any call on the socket, and open and close what
    it likes, as long as it leaves with what it found. *)
Definition hook_ok (ctl : option hook) : Prop :=
  forall h network address s g, ctl = Some h -> held_wf g -> has g s -> runs g (h network address s) (kept_by g).

Lemma runs_applyConfig g s ops Q :
  has g s -> (forall r, no_panic r -> Q r g) -> runs g (on s (applyConfig ops)) Q.
Proof.
  intros (Ho & _) HQ. eapply runs_on; [done | | exact HQ]. apply calm_quiet; [apply quiet_applyConfig | apply fine_applyConfig].
Qed.

Lemma has_keeps g g' s : has g s -> keeps g g' -> has g' s.
Proof.
  intros (Ho & Hf & Hlt) (Ho' & Hn & Hc & _). split_and!; [by rewrite Ho' | | lia]. by rewrite Hc.
Qed.

Lemma runs_setupSocket g s address ctl ops Q :
  held_wf g -> has g s -> hook_ok ctl -> (forall r g', kept_by g r g' -> Q r g') -> runs g (setupSocket s address ctl ops) Q.
Proof.
  intros Hw Hs Hh HQ. apply runs_bind.
  assert (H6 : runs g (if s_family s =? afInet6
       then wrapped (in_call "setsockopt") (on s (sock_control (setIntOpt IPPROTO_IPV6 IPV6_V6ONLY 0))) else mret tt) (kept_by g)).
  { destruct (_ =? _); [| apply runs_ret; split; [done | by apply keeps_refl]]. apply runs_wrapped; [done |].
    eapply (runs_on _ _ _ no_panic); [apply Hs | |].
    - apply calm_quiet; [apply quiet_control, quiet_setIntOpt |]. apply emits_control; [| done].
      eapply emits_mono; [apply setIntOpt_made |]. intros l r [[-> ->] | (? & ? & ? & ? & _ & _ & _ & ->)]; done.
    - intros [u | e |] Hp; [| | done]; [| intros e' _]; (split; [done | by apply keeps_refl]). }
  eapply runs_mono; [exact H6 |]. intros [u | e |] g1 [Hp Hk1]; cbn [next_runs]; [| by apply HQ | done].
  pose proof (has_keeps _ _ _ Hs Hk1) as Hs1. apply runs_bind.
  assert (Hctl : runs g1 (match ctl with Some h => h (s_network s) address s | None => mret tt end) (kept_by g1)).
  { destruct ctl as [h |]; [apply Hh; [done | apply Hk1 | done] | apply runs_ret; split; [done | apply keeps_refl; apply Hk1]]. }
  eapply runs_mono; [exact Hctl |]. intros [v | e |] g2 [Hp2 Hk2]; cbn [next_runs]; [| | done].
  - apply runs_applyConfig; [by eapply has_keeps |]. intros r Hr. apply HQ. split; [done | by eapply keeps_trans].
  - apply HQ. split; [done | by eapply keeps_trans].
Qed.

Lemma quiet_checkAdoptable fd listening : quiet (K := at_fd fd) (checkAdoptable (K := at_fd fd) listening).
Proof.
  assert (Hs : forall opt, (SOL_SOCKET =? ipprotoSCTP) && (opt =? optSockoptPeeloffFlags) = false).
  { intros opt. pose proof sol_socket_ne as Hn. by rewrite (proj2 (Z.eqb_neq _ _) Hn). }
  unfold checkAdoptable. hush; try (apply quiet_GetsockoptInt, Hs).
Qed.

Lemma runs_adoptFile g f listening Q :
  held_wf g -> (forall f', f = Some f' -> f_fd f' ∈ owned g) ->
  (forall r g', opened_or g r g' -> Q r g') -> runs g (adoptFile f listening) Q.
Proof.
  intros Hw Hf HQ. destruct f as [f |]; [| by apply runs_fails, HQ, keeps_refl]. specialize (Hf f eq_refl).
  assert (Herr : forall e, Q (Err e) g) by (intros e; by apply HQ, keeps_refl).
  apply runs_bind, runs_caught, runs_File_Control; [| by apply runs_fails].
  apply runs_caught, runs_open; [done | by apply bool_decide_eq_true_2 | | intros e; by apply runs_fails].
  intros fd d Hfd. cbn [next_runs]. apply runs_bind, runs_caught, runs_bind.
  assert (Hclose : forall err, runs (with_fd g fd) (_ ← ignore (sys_call (c_close fd)); fails (Some err)) Q).
  { intros err. apply runs_bind, runs_ignore, runs_close. intros [x | e |] Hp; cbn [next_runs]; [by apply runs_fails.. | done]. }
  eapply (runs_on_fd _ _ _ no_panic); [by left | apply calm_quiet; [apply quiet_checkAdoptable | apply fine_checkAdoptable] |].
  intros [family | e |] Hp; cbn [next_runs]; [| apply Hclose | done].
  apply runs_bind, runs_wrapped; [done |]. apply runs_call; [done | done | by apply bool_decide_eq_true_2; left |].
  intros [x | e |] Hp'; cbn [next_runs]; [| intros e' _; cbn [next_runs]; apply Hclose | done].
  apply runs_ret. cbn [next_runs]. by apply runs_wrap_opened.
Qed.

Lemma runs_ipv6Unavailable g Q : (forall b : bool, Q (Ret b) g) -> runs g ipv6Unavailable Q.
Proof.
  intros HQ s Hc Hn. unfold ipv6Unavailable. destruct (p_ipv6Unavailable s) as [v |].
  - exists (owned g). split; [done |]. rewrite (held_eta s g _ Hc Hn). destruct g. apply HQ.
  - set (m := (r ← caught (sys_call (c_socket _ _ _)); _) : io bool).
    assert (Hm : runs g m (fun r g' => (exists b : bool, r = Ret b) /\ g' = g)).
    { apply runs_bind, runs_caught, runs_open; [done | done | |].
      - intros v d Hv. cbn [next_runs]. apply runs_bind, runs_ignore, runs_close. intros [x | e |] Hp; cbn [next_runs]; [by apply runs_ret; eauto.. | done].
      - intros e. cbn [next_runs]. apply runs_ret; eauto. }
    specialize (Hm s Hc Hn). destruct (m s) as [[s1 l] r]. destruct Hm as (ow & Hl & (b & ->) & Hg).
    exists ow. split; [done |]. unfold holding in *. cbn. rewrite Hg. apply HQ.
Qed.

Lemma runs_socketFamily g network laddr raddr Q :
  (forall r, no_panic r -> Q r g) -> runs g (socketFamily network laddr raddr) Q.
Proof.
  intros HQ. apply runs_bind, runs_pure.
  assert (Hcn : canonicalNetwork network (list_IPs laddr ++ list_IPs raddr) <> Panic).
  { unfold canonicalNetwork. repeat case_match; done. }
  destruct (canonicalNetwork _ _) as [family | e |]; cbn [next_runs]; [| by apply HQ | done].
  destruct (_ && _); [| by apply runs_ret, HQ]. apply runs_bind, runs_ipv6Unavailable. intros b. cbn [next_runs]. by apply runs_ret, HQ.
Qed.
End Constructors.
