(* ===== verification/CloseOps.v ===== *)
(** * The system-call half of close (src/close_linux.go)

    closeOps is the interface between the close state machine (Close.v) and
    the system calls of a descriptor: here a class of four operations over a
    state, with [CloseOpsOk], what an implementation promises: a look at the
    association and the start of a shutdown leave the descriptor alone, and
    abortive and release each release it, whatever fails.  [drive] is a call
    of Close, Abort or Shutdown: the machine's steps, with the operation
    each of them names.

    sockCloseOps is the implementation for one socket.  Its theorems: it
    keeps the promise, the calls each operation makes, and, through the
    interface, that a Close or an Abort returns and closes the descriptor
    exactly once. *)
From Stdlib Require Import ZArith Lia Bool.
From stdpp Require Import base list option strings.
From coqutil Require Import Byte.
From S2P Require Import Prelude Abi Errors Enums Netip Sockaddr Options MsgInfo Config Addr Term Sys Apply ConnOptions Send Close Sockets.

Definition SHUT_RD : Z := 0.
Definition SHUT_WR : Z := 1.

(** ** The interface *)
Class CloseOps `{H : Host} (T : Type) := {
  op_assocGone : T -> io (T * (bool + error));
  op_startShutdown : T -> io (T * option error);
  op_abortive : T -> io (T * option error);
  op_release : T -> io (T * option error);
}.

Section Drive.
Context `{H : Host} {T : Type} `{CO : !CloseOps T}.

Definition with_err (e : option error) : Close.input := {| Close.in_err := e; in_gone := false; in_abort := false |}.

(** The operation a step of the machine calls, with its answer. *)
Definition perform (st : T) (p : Close.pc) : io (T * Close.input) :=
  match p with
  | CloseStart _ | ShutdownStart => '(st, e) ← op_startShutdown st; mret (st, with_err e)
  | ClosePoll _ =>
      '(st, r) ← op_assocGone st;
      mret (st, match r with
                | inl gone => {| Close.in_err := None; in_gone := gone; in_abort := false |}
                | inr e => with_err (Some e)
                end)
  | CloseAbortive _ | AbortiveNow => '(st, e) ← op_abortive st; mret (st, with_err e)
  | CloseRelease => '(st, e) ← op_release st; mret (st, with_err e)
  | _ => mret (st, with_err None)
  end.

(** Time passes; a select with no abort under way waits for its timer. *)
Definition passes (l : lifecycle) (p : Close.pc) (d : Z) : Z :=
  match p with
  | CloseSelect _ fire => Z.max (fire - clock l) (Z.max 0 d)
  | _ => Z.max 0 d
  end.

(** A call while no other call on the same lifecycle is running: its result,
    or none yet. *)
Fixpoint drive (fuel : nat) (st : T) (l : lifecycle) (p : Close.pc) : io (T * lifecycle * option (option error)) :=
  match fuel with
  | O => mret (st, l, None)
  | S fuel =>
      match p with
      | Close.Returned _ r => mret (st, l, Some r)
      | _ =>
          '(st, i) ← perform st p;
          d ← ask os_elapsed;
          match Close.exec (tick l (passes l p d)) p i with
          | Some (l, p) => drive fuel st l p
          | None => mret (st, l, None)
          end
      end
  end.
End Drive.

(** ** sockCloseOps *)

(** [k_term] is the latch, nil for a socket that has none; [k_send] whether
    there is a send state to wake, [k_wakes] how often it was. *)
Record sockCloseOps := {
  k_sock : socket;
  k_kind : connKind;
  k_send : bool;
  k_wakes : nat;
  k_term : option termState;
}.

Definition set_kterm (o : sockCloseOps) (t : option termState) : sockCloseOps := {|
  k_sock := k_sock o; k_kind := k_kind o; k_send := k_send o; k_wakes := k_wakes o; k_term := t |}.

(** o.send.wakeShutdown() *)
Definition wake (o : sockCloseOps) : sockCloseOps := {|
  k_sock := k_sock o; k_kind := k_kind o; k_send := k_send o; k_wakes := S (k_wakes o); k_term := k_term o |}.

Section Ops.
Context `{A : Arch} `{H : Host}.

Definition assocGone (s : socket) : io (bool + error) :=
  r ← caught (on s status);
  match r with
  | inl (_, state) => mret (inl (state =? StateClosed))
  | inr err =>
      if errors_Is err (Errno EINVAL) || errors_Is err (Errno ENOTCONN) then mret (inl true)
      else mret (inr (SyscallErr "getsockopt" err))
  end.

Definition eofSendError (err : option error) : option error := NewSyscallError "sendmsg" err.

(** One SCTP_SNDINFO record with the flag and the association, and the
    cause as the payload. *)
Definition rawSendEnd (fd flag assoc : Z) (cause : bytes) : io unit :=
  '(cbuf, n) ← pure (appendSendCmsgs 0 (zeros sndCmsgSpace)
      (Some {| snd_Stream := 0; snd_Flags := flag; snd_PPID := 0; snd_Context := 0 |}) assoc None None);
  _ ← sys_call (c_sendmsg fd {| o_iov := cause; o_control := take (Z.to_nat n) cbuf; o_flags := Z.lor MSG_DONTWAIT MSG_NOSIGNAL |});
  mret tt.

Definition rawSendEOF (fd : Z) : io unit := rawSendEnd fd sndFlagEOF 0 [].

(** Under the latch mutex. *)
Definition sendEOF (o : sockCloseOps) (fd : Z) : io (sockCloseOps * option error) :=
  match k_term o with
  | None => err ← err_of (rawSendEOF fd); mret (o, eofSendError err)
  | Some t =>
      match t_err t with
      | Some err => mret (o, eofSendError (Some err))
      | None =>
          err ← err_of (rawSendEOF fd);
          let '(t, err) := match err with Some _ => sendErrorLocked t err | None => (t, None) end in
          mret (set_kterm o (Some t), eofSendError err)
      end
  end.

Definition startShutdown (o : sockCloseOps) : io (sockCloseOps * option error) :=
  let s := k_sock o in
  '(o, err) ←
    (if bool_decide (k_kind o = kindPeeled) then
       r ← caught (control s (sendEOF o (s_fd s)));
       mret (match r with inl r => r | inr closed => (o, Some closed) end)
     else
       err ← err_of (control s (sys_call (c_shutdown (s_fd s) SHUT_WR)));
       mret (o, match err with
                | Some e => if errors_Is e NetErrClosed then Some e else in_call "shutdown" e
                | None => None
                end));
  mret (if k_send o && bool_decide (err = None) then wake o else o, err).

(** struct linger: l_onoff 1, l_linger 0. *)
Definition linger_abort : bytes := bytes_of NativeEndian 4 1 ++ bytes_of NativeEndian 4 0.

Definition release (s : socket) : io unit := File_Close (s_file s).

(** The result of errors.Join, or nil. *)
Definition abortive (s : socket) : io (option error) :=
  lerr ← err_of (on s (sock_control (rawSetsockopt SOL_SOCKET SO_LINGER linger_abort)));
  let lerr := match lerr with
              | Some e => if errors_Is e NetErrClosed then Some e else in_call "setsockopt" e
              | None => None
              end in
  _ ← ignore (control s (sys_call (c_shutdown (s_fd s) SHUT_RD)));
  rerr ← err_of (release s);
  mret (errors_Join [lerr; rerr]).

#[global] Instance sock_CloseOps : CloseOps sockCloseOps := {
  op_assocGone o := r ← assocGone (k_sock o); mret (o, r);
  op_startShutdown o := startShutdown o;
  op_abortive o := e ← abortive (k_sock o); mret (o, e);
  op_release o := e ← err_of (release (k_sock o)); mret (o, e);
}.
End Ops.

(** ** What an implementation promises *)
Section Promise.
Context `{A : Arch} `{H : Host} {T : Type} `{CO : !CloseOps T} (sock_of : T -> socket).

Definition same_sock {X} (st : T) (r : out error (T * X)) : Prop :=
  match r with Ret (st', _) => sock_of st' = sock_of st | _ => False end.

Class CloseOpsOk := {
  gone_keeps : forall g st, held_wf g -> has g (sock_of st) ->
    runs g (op_assocGone st) (fun r g' => same_sock st r /\ keeps g g');
  start_keeps : forall g st, held_wf g -> has g (sock_of st) ->
    runs g (op_startShutdown st) (fun r g' => same_sock st r /\ keeps g g');
  abortive_releases : forall g st g', held_wf g -> hands g (sock_of st) g' ->
    runs g' (op_abortive st) (fun r g'' => same_sock st r /\ keeps g g'');
  release_releases : forall g st g', held_wf g -> hands g (sock_of st) g' ->
    runs g' (op_release st) (fun r g'' => same_sock st r /\ keeps g g'');
}.

Context `{OK : !CloseOpsOk}.

(** The steps that release the descriptor. *)
Definition releases (p : Close.pc) : bool :=
  match p with CloseAbortive _ | AbortiveNow | CloseRelease => true | _ => false end.

(** What is owned says how often the machine released the descriptor. *)
Definition agrees (g0 : held) (s : socket) (n : nat) (g : held) : Prop :=
  match n with O => hands g0 s g | S O => keeps g0 g | _ => False end.

(** The steps that use the descriptor come before its release. *)
Definition uses (p : Close.pc) : bool :=
  releases p || match p with CloseStart _ | ShutdownStart | ClosePoll _ => true | _ => false end.

Lemma runs_perform g0 st n g p :
  held_wf g0 -> agrees g0 (sock_of st) n g -> (uses p = true -> n = 0%nat) ->
  runs g (perform st p) (fun r g' => same_sock st r /\ agrees g0 (sock_of st) ((if releases p then 1 else 0) + n) g').
Proof.
  intros Hw Hag Hu.
  destruct p; cbn [perform releases uses orb] in *; try (apply runs_ret; by split).
  all: specialize (Hu eq_refl); subst n; cbn in Hag; assert (Hg : held_wf g) by apply Hag; pose proof (hands_has _ _ _ Hag) as Hs.
  all: apply runs_bind; eapply runs_mono; [first
    [ by apply start_keeps | by apply gone_keeps | by apply (abortive_releases g0) | by apply (release_releases g0) ] |].
  all: intros [[st' x] | e |] g' [Hst Hk]; cbn [next_runs same_sock] in *; [apply runs_ret; (split; [exact Hst |]) | done | done]; try exact Hk.
  all: by eapply hands_keeps.
Qed.

(** What a step does to the count. *)
Lemma exec_released l p i l' p' :
  Close.exec l p i = Some (l', p') -> released l' = ((if releases p then 1 else 0) + released l)%nat.
Proof.
  intros He. destruct p; cbn in He; repeat case_match; simplify_eq; done.
Qed.

(** A shutdown runs only while the lifecycle is open. *)
Definition shut_open (l : lifecycle) (p : Close.pc) : Prop :=
  match p with ShutdownLoad | ShutdownClaim | ShutdownStart => state l = lifeOpen | _ => True end.

Lemma released_before l p :
  Inv {| life := l; threads := [p] |} -> shut_open l p -> uses p = true -> released l = 0%nat.
Proof.
  intros [(Hr & Hs & _) _] Ho Hp. unfold total in *. cbn in *. destruct p; try done; cbn in *; destruct (state l); try done; lia.
Qed.

(** A call that runs by itself can always go on. *)
Lemma alone_progress l p d i :
  Inv {| life := l; threads := [p] |} -> (forall k r, p <> Close.Returned k r) ->
  is_Some (Close.exec (tick l (passes l p d)) p i).
Proof.
  intros [(Hr & Hs & Ha) Ht] Hp. unfold total in *. cbn in *.
  destruct p; cbn -[Z.max]; try (by eexists).
  all: repeat match goal with
       | |- is_Some (if ?b then _ else _) => destruct b eqn:?
       | |- is_Some (match ?x with _ => _ end) => destruct x eqn:?
       end; try (by eexists).
  - match goal with E : (fire <=? _) = false |- _ => apply Z.leb_gt in E end. cbn -[Z.max] in *. lia.
  - apply Forall_cons in Ht as [[E | E] _]; cbn in E; rewrite E in Hs; cbn in Hs; destruct (done l); done || lia.
  - by destruct (Hp graceful_or_abort result).
Qed.

Lemma alone_step l p d i l' p' :
  Inv {| life := l; threads := [p] |} -> Close.exec (tick l (passes l p d)) p i = Some (l', p') ->
  Inv {| life := l'; threads := [p'] |} /\ (steps_left l' p' < steps_left l p)%nat.
Proof.
  intros Hi He. assert (Hd : 0 <= passes l p d) by (destruct p; cbn; lia).
  destruct (Inv_step _ _ (StepTick l [p] _ Hd) Hi) as [Hi' _].
  assert (Hs : thread_step 0 {| life := tick l (passes l p d); threads := [p] |} {| life := l'; threads := [p'] |}).
  { by apply (ThreadStep 0 _ [p] p i l' p'). }
  split; [by apply (Inv_thread 0 _ _ Hs) |].
  destruct Hi' as [_ Ht]. apply Forall_cons in Ht as [Ht _].
  pose proof (steps_left_exec _ _ _ _ _ Ht He). replace (steps_left l p) with (steps_left (tick l (passes l p d)) p); [done |].
  by destruct p.
Qed.

(** What a call passes through: a Close or an Abort until the lifecycle is
    closed, a Shutdown while it is open. *)
Definition closes (l : lifecycle) (p : Close.pc) : Prop :=
  initialised l = true /\
  match p with
  | CloseEnter _ | AbortLoad | AbortFromOpen => state l = lifeOpen
  | AbortFromClosing | AbortSignal | AbortWait | ShutdownLoad | ShutdownClaim | ShutdownStart => False
  | FinishDone _ | AbortiveNow | AbortiveDone _ => state l = lifeClosed
  | Close.Returned _ _ => state l = lifeClosed /\ done l = 1%nat
  | _ => True
  end.

Definition shuts (l : lifecycle) (p : Close.pc) : Prop :=
  initialised l = true /\ state l = lifeOpen /\
  match p with ShutdownLoad | ShutdownClaim | ShutdownStart | Close.Returned _ _ => True | _ => False end.

Definition during (c : call) (l : lifecycle) (p : Close.pc) : Prop :=
  match c with CallShutdown => shuts l p | _ => closes l p end.

Lemma during_enter c t : during c (init (zero_lifecycle t)) (enter c).
Proof. by destruct c. Qed.

Lemma during_shut c l p : during c l p -> shut_open l p.
Proof. intros Hc. destruct c, p; cbn in *; unfold closes, shuts in *; tauto. Qed.

Lemma closes_step l p i l' p' d :
  Inv {| life := l; threads := [p] |} -> closes l p -> Close.exec (tick l d) p i = Some (l', p') -> closes l' p'.
Proof.
  intros [(_ & Hs & _) _] [Hin Hc] He. unfold total in Hs. cbn in Hs. unfold closes.
  destruct p; cbn in *; try done; repeat case_match; simplify_eq; cbn in *; try done; try (rewrite Hc in *; by cbn);
    split_and!; try done; try lia; by rewrite Hin in *.
Qed.

Lemma shuts_step l p i l' p' d : shuts l p -> Close.exec (tick l d) p i = Some (l', p') -> shuts l' p'.
Proof.
  intros (Hin & Ho & Hc) He. unfold shuts. destruct p; cbn in *; try done; repeat case_match; simplify_eq; cbn in *; split_and!; try done;
    rewrite Ho in *; done.
Qed.

Lemma during_step c l p i l' p' d :
  Inv {| life := l; threads := [p] |} -> during c l p -> Close.exec (tick l d) p i = Some (l', p') -> during c l' p'.
Proof. intros Hi Hc. destruct c; [by eapply closes_step.. | by eapply shuts_step]. Qed.

(** How such a call ends. *)
Definition ends (c : call) (g0 : held) (st : T) (r : out error (T * lifecycle * option (option error))) (g : held) : Prop :=
  exists st' l' res k, r = Ret (st', l', Some res) /\ sock_of st' = sock_of st /\
    Inv {| life := l'; threads := [Close.Returned k res] |} /\ during c l' (Close.Returned k res) /\
    agrees g0 (sock_of st) (released l') g.

Lemma runs_drive c g0 fuel st l p g :
  held_wf g0 -> Inv {| life := l; threads := [p] |} -> during c l p -> agrees g0 (sock_of st) (released l) g ->
  (steps_left l p < fuel)%nat -> runs g (drive fuel st l p) (ends c g0 st).
Proof.
  intros Hw. revert st l p g. induction fuel as [| fuel IH]; intros st l p g Hi Ho Hag Hf; [lia |]. cbn [drive].
  destruct (Close.returned p) eqn:Hret.
  { destruct p as [ | | | | | | | | | | | | | | | | | | | | | k r]; try done. apply runs_ret. by exists st, l, r, k. }
  assert (Hp : forall k r, p <> Close.Returned k r) by (by intros k r ->).
  assert (Hstep : runs g ('(st, i) ← perform st p; d ← ask os_elapsed;
      match Close.exec (tick l (passes l p d)) p i with Some (l, p) => drive fuel st l p | None => mret (st, l, None) end) (ends c g0 st)).
  { apply runs_bind. eapply runs_mono; [apply (runs_perform g0 st (released l) g p Hw Hag), released_before; [done | by eapply during_shut] |].
    intros [[st1 i] | e |] g1 [Hst Hg1]; cbn [next_runs same_sock] in *; [| done..].
    apply runs_bind, runs_ask. intros d. cbn [next_runs].
    destruct (alone_progress l p d i Hi Hp) as [[l' p'] He]. rewrite He.
    destruct (alone_step l p d i l' p' Hi He) as [Hi' Hlt]. pose proof (exec_released _ _ _ _ _ He) as Hr. cbn in Hr.
    eapply runs_mono; [apply IH; [done | exact (during_step c l p i l' p' _ Hi Ho He) | by rewrite Hst, Hr | lia] |].
    intros r g2 (st2 & l2 & res & k & -> & Hs2 & Hi2 & Hd2 & Ha2). exists st2, l2, res, k. rewrite Hst in *. done. }
  destruct p; try exact Hstep. by destruct (Hp graceful_or_abort result).
Qed.

(** How a call on an open connection ends. *)
Definition call_ended (c : call) (st : T) (g0 : held) (r : out error (T * lifecycle * option (option error))) (g' : held) : Prop :=
  exists st' l' res, r = Ret (st', l', Some res) /\ sock_of st' = sock_of st /\
    match c with
    | CallShutdown => state l' = lifeOpen /\ hands g0 (sock_of st) g'
    | _ => state l' = lifeClosed /\ keeps g0 g'
    end.

Lemma runs_drive_call c t st g0 g fuel :
  held_wf g0 -> hands g0 (sock_of st) g -> (steps_left (init (zero_lifecycle t)) (enter c) < fuel)%nat ->
  runs g (drive fuel st (init (zero_lifecycle t)) (enter c)) (call_ended c st g0).
Proof.
  intros Hw Hh Hf.
  assert (Hi : Inv {| life := init (zero_lifecycle t); threads := [enter c] |}).
  { apply (Inv_step _ _ (StepCall (init (zero_lifecycle t)) [] c)). apply Inv_reachable. exists {| life := init (zero_lifecycle t); threads := [] |}.
    split; [constructor | done]. }
  eapply runs_mono; [by apply (runs_drive c g0 fuel st _ _ g Hw Hi (during_enter c t)) |].
  intros r g' (st' & l' & res & k & -> & Hsk & [(Hr & Hs & _) _] & Hd & Ha). exists st', l', res. split; [done |]. split; [done |].
  unfold total in *. cbn in *. destruct c; cbn in Hd.
  - destruct Hd as (_ & Hst & Hdn). rewrite Hst, Hdn in *. rewrite Hr in Ha. done.
  - destruct Hd as (_ & Hst & Hdn). rewrite Hst, Hdn in *. rewrite Hr in Ha. done.
  - destruct Hd as (_ & Hst & _). rewrite Hst in *. destruct Hs as (_ & _ & Hd0). rewrite Hr, Hd0 in Ha. done.
Qed.

(** C3 Closing through the interface: whatever implements closeOps as it
    promises, a Close or an Abort on an open connection, with no other close
    call running, returns, whatever the kernel answers and however long the
    peer takes, within the steps its grace period allows; by then the
    descriptor has been closed exactly once, every other descriptor is as
    it was, and the lifecycle is closed.  A Shutdown returns and leaves the
    descriptor open. *)
Theorem close_releases c t st g0 g fuel
    (Hw : held_wf g0) (Hh : hands g0 (sock_of st) g) (Hf : (steps_left (init (zero_lifecycle t)) (enter c) < fuel)%nat) :
  runs g (drive fuel st (init (zero_lifecycle t)) (enter c)) (call_ended c st g0).
Proof. by apply runs_drive_call. Qed.
End Promise.

(** ** sockCloseOps keeps the promise *)
Section SockOk.
Context `{A : Arch} `{AK : !ArchOk A} `{ZE : ZoneEnv} `{H : Host}.

Lemma runs_status g s Q : s_fd s ∈ owned g -> (forall r, no_panic r -> Q r g) -> runs g (on s status) Q.
Proof. intros Ho HQ. eapply runs_on; [done | apply calm_quiet; [apply quiet_status | apply fine_status] | exact HQ]. Qed.

Lemma runs_rawSendEnd g fd flag assoc cause Q :
  fd ∈ owned g -> (forall r, no_panic r -> Q r g) -> runs g (rawSendEnd fd flag assoc cause) Q.
Proof.
  intros Ho HQ. unfold rawSendEnd. apply runs_bind, runs_pure. set (snd := Some _).
  assert (Hz : sndCmsgSpace <= len (zeros sndCmsgSpace)).
  { assert (0 <= sndCmsgSpace) by (arch_cases A; done). rewrite len_zeros; lia. }
  destruct (appendSendCmsgs_writes (zeros sndCmsgSpace) snd assoc None None Hz) as (-> & _).
  cbn [next_runs]. apply runs_bind, runs_call; [done | done | by apply bool_decide_eq_true_2 |].
  intros [x | e |] Hp; cbn [next_runs]; [by apply runs_ret, HQ | by apply HQ | done].
Qed.

Lemma runs_sendEOF g o fd :
  fd ∈ owned g -> runs g (sendEOF o fd) (fun r g' => (exists o' e, r = Ret (o', e) /\ k_sock o' = k_sock o) /\ g' = g).
Proof.
  intros Ho. unfold sendEOF. destruct (k_term o) as [t |].
  - destruct (t_err t); [apply runs_ret; eauto 6 |]. apply runs_bind, runs_err_of, runs_rawSendEnd; [done |].
    intros [x | e |] Hp; cbn [next_runs]; [by apply runs_ret; eauto 6 | | done]. destruct (sendErrorLocked t (Some e)). apply runs_ret; eauto 6.
  - apply runs_bind, runs_err_of, runs_rawSendEnd; [done |]. intros [x | e |] Hp; cbn [next_runs]; [apply runs_ret; eauto 6.. | done].
Qed.

Lemma runs_shutdown g s how Q :
  s_fd s ∈ owned g -> (forall r, no_panic r -> Q r g) -> runs g (control s (sys_call (c_shutdown (s_fd s) how))) Q.
Proof.
  intros Ho HQ. apply runs_control; [| by apply HQ]. apply runs_call; [done | done | by apply bool_decide_eq_true_2 | exact HQ].
Qed.

Lemma runs_startShutdown g o :
  held_wf g -> has g (k_sock o) ->
  runs g (startShutdown o) (fun r g' => same_sock k_sock o r /\ keeps g g').
Proof.
  intros Hw (Ho & _). apply runs_bind. eapply (runs_mono _ _ (fun r g' => (exists o' e, r = Ret (o', e) /\ k_sock o' = k_sock o) /\ g' = g)).
  - destruct (bool_decide _).
    + apply runs_bind, runs_caught, runs_control; [| cbn [next_runs]; apply runs_ret; eauto 6]. eapply runs_mono; [by apply runs_sendEOF |].
      intros r g' ((o' & e & -> & Hs) & ->). cbn [next_runs]. apply runs_ret; eauto 6.
    + apply runs_bind, runs_err_of, runs_shutdown; [done |]. intros [x | e |] Hp; cbn [next_runs]; [apply runs_ret; eauto 6.. | done].
  - intros r g' ((o' & e & -> & Hs) & ->). cbn [next_runs]. apply runs_ret. split; [| by apply keeps_refl]. cbn. by destruct (_ && _).
Qed.

Lemma runs_abortive g s g' Q :
  held_wf g -> hands g s g' -> (forall e g'', keeps g g'' -> Q (Ret e) g'') -> runs g' (abortive s) Q.
Proof.
  intros Hw Hh HQ. pose proof (hands_has _ _ _ Hh) as (Ho & _). apply runs_bind, runs_err_of.
  assert (Hrest : forall e : option error, runs g'
    (_ ← ignore (control s (sys_call (c_shutdown (s_fd s) SHUT_RD))); rerr ← err_of (release s); mret (errors_Join [e; rerr])) Q).
  { intros e. apply runs_bind, runs_ignore, runs_shutdown; [done |].
    assert (Hrel : runs g' (rerr ← err_of (release s); mret (errors_Join [e; rerr])) Q).
    { apply runs_bind, runs_err_of. apply (runs_give_back g s g' _ Hw Hh). intros [x | e' |] g'' Hp Hk; cbn [next_runs]; [by apply runs_ret, HQ.. | done]. }
    intros [x | e' |] Hp; cbn [next_runs]; [exact Hrel.. | done]. }
  eapply (runs_on _ _ _ no_panic); [done | |].
  - apply calm_quiet; [apply quiet_control, quiet_set |]. apply emits_control; [| done]. apply emits_set.
    + unfold linger_abort. rewrite len_app, !len_bytes_of. lia.
    + intros errno. unfold set_outcome. by destruct (errno =? 0).
  - intros [x | e |] Hp; cbn [next_runs]; [apply Hrest.. | done].
Qed.

#[global] Instance sock_CloseOpsOk : CloseOpsOk k_sock.
Proof.
  split.
  - intros g o Hw (Ho & _). cbn. apply runs_bind, runs_bind, runs_caught, runs_status; [done |].
    assert (Hr : forall x : bool + error, runs g (r ← mret x; mret (o, r)) (fun r g' => same_sock k_sock o r /\ keeps g g')).
    { intros x. apply runs_bind, runs_ret. cbn [next_runs]. apply runs_ret. split; [done | by apply keeps_refl]. }
    intros [[id state] | e |] Hp; cbn [next_runs]; [apply runs_ret | destruct (_ || _); apply runs_ret | done];
      cbn [next_runs]; apply runs_ret; (split; [done | by apply keeps_refl]).
  - apply runs_startShutdown.
  - intros g o g' Hw Hh. cbn. apply runs_bind, (runs_abortive g); [done | done |]. intros e g'' Hk. cbn [next_runs]. by apply runs_ret.
  - intros g o g' Hw Hh. cbn. apply runs_bind, runs_err_of, (runs_give_back g (k_sock o)); [done | done |].
    intros [x | e |] g'' Hp Hk; cbn [next_runs]; [by apply runs_ret.. | done].
Qed.
End SockOk.
