(* ===== verification/Conns.v ===== *)
(** * Connections (src/conn_linux.go, the methods of src/close_linux.go)

    newConn, which builds a Conn around a connected socket and takes the
    socket over on every path; the addresses of a Conn and BindAdd and
    BindRemove; deadlines and raw access; Close, Abort and Shutdown, which
    drive the close state machine with sockCloseOps; and FileConn.

    A Conn is a [connection]; a method returns it with the fields it
    changes.  bindMu makes each bindx with its refresh one step; what other
    goroutines do to the kernel in between is up to the [Host].

    The theorems: newConn and FileConn neither leak nor double-close a
    descriptor; what newConn finds out about an association, the one that
    has ended included; when removing addresses is refused, and what a bindx
    asks of the kernel. *)
From Stdlib Require Import ZArith Lia Bool.
From stdpp Require Import base list option strings.
From coqutil Require Import Byte.
From S2P Require Import Prelude Abi Errors Enums Netip Sockaddr Options MsgInfo Config Term Recv Addr Sys Apply Send ConnOptions Close Sockets CloseOps.

(** ** The state *)

(** [cn_sock] is [None] for a Conn the package never opened; the latch is
    the one sends and reads share. *)
Record connection := {
  cn_sock : option socket;
  cn_kind : connKind;
  cn_handler : option funcval;
  cn_closeWait : Z;
  cn_assoc : Z;
  cn_peerPort : Z;
  cn_laddr : option SctpAddr;
  cn_raddr : option SctpAddr;
  cn_pathScope : Z;
  cn_subs : Z;
  cn_interleaved : bool;
  cn_life : lifecycle;
  cn_send : sendState;
  cn_term : termState;
}.

Section Setters.
Definition set_subs (c : connection) (v : Z) : connection := {|
  cn_sock := cn_sock c; cn_kind := cn_kind c; cn_handler := cn_handler c; cn_closeWait := cn_closeWait c; cn_assoc := cn_assoc c;
  cn_peerPort := cn_peerPort c; cn_laddr := cn_laddr c; cn_raddr := cn_raddr c; cn_pathScope := cn_pathScope c; cn_subs := v;
  cn_interleaved := cn_interleaved c; cn_life := cn_life c; cn_send := cn_send c; cn_term := cn_term c |}.
Definition set_assoc_id (c : connection) (v : Z) : connection := {|
  cn_sock := cn_sock c; cn_kind := cn_kind c; cn_handler := cn_handler c; cn_closeWait := cn_closeWait c; cn_assoc := v;
  cn_peerPort := cn_peerPort c; cn_laddr := cn_laddr c; cn_raddr := cn_raddr c; cn_pathScope := cn_pathScope c; cn_subs := cn_subs c;
  cn_interleaved := cn_interleaved c; cn_life := cn_life c; cn_send := cn_send c; cn_term := cn_term c |}.
Definition set_addrs (c : connection) (l r : option SctpAddr) : connection := {|
  cn_sock := cn_sock c; cn_kind := cn_kind c; cn_handler := cn_handler c; cn_closeWait := cn_closeWait c; cn_assoc := cn_assoc c;
  cn_peerPort := cn_peerPort c; cn_laddr := l; cn_raddr := r; cn_pathScope := cn_pathScope c; cn_subs := cn_subs c;
  cn_interleaved := cn_interleaved c; cn_life := cn_life c; cn_send := cn_send c; cn_term := cn_term c |}.
Definition set_scope (c : connection) (v : Z) : connection := {|
  cn_sock := cn_sock c; cn_kind := cn_kind c; cn_handler := cn_handler c; cn_closeWait := cn_closeWait c; cn_assoc := cn_assoc c;
  cn_peerPort := cn_peerPort c; cn_laddr := cn_laddr c; cn_raddr := cn_raddr c; cn_pathScope := v; cn_subs := cn_subs c;
  cn_interleaved := cn_interleaved c; cn_life := cn_life c; cn_send := cn_send c; cn_term := cn_term c |}.
Definition set_peerPort (c : connection) (v : Z) : connection := {|
  cn_sock := cn_sock c; cn_kind := cn_kind c; cn_handler := cn_handler c; cn_closeWait := cn_closeWait c; cn_assoc := cn_assoc c;
  cn_peerPort := v; cn_laddr := cn_laddr c; cn_raddr := cn_raddr c; cn_pathScope := cn_pathScope c; cn_subs := cn_subs c;
  cn_interleaved := cn_interleaved c; cn_life := cn_life c; cn_send := cn_send c; cn_term := cn_term c |}.
Definition set_interleaved (c : connection) (v : bool) : connection := {|
  cn_sock := cn_sock c; cn_kind := cn_kind c; cn_handler := cn_handler c; cn_closeWait := cn_closeWait c; cn_assoc := cn_assoc c;
  cn_peerPort := cn_peerPort c; cn_laddr := cn_laddr c; cn_raddr := cn_raddr c; cn_pathScope := cn_pathScope c; cn_subs := cn_subs c;
  cn_interleaved := v; cn_life := cn_life c; cn_send := cn_send c; cn_term := cn_term c |}.
Definition set_send (c : connection) (v : sendState) : connection := {|
  cn_sock := cn_sock c; cn_kind := cn_kind c; cn_handler := cn_handler c; cn_closeWait := cn_closeWait c; cn_assoc := cn_assoc c;
  cn_peerPort := cn_peerPort c; cn_laddr := cn_laddr c; cn_raddr := cn_raddr c; cn_pathScope := cn_pathScope c; cn_subs := cn_subs c;
  cn_interleaved := cn_interleaved c; cn_life := cn_life c; cn_send := v; cn_term := cn_term c |}.
Definition set_life (c : connection) (l : lifecycle) (t : termState) : connection := {|
  cn_sock := cn_sock c; cn_kind := cn_kind c; cn_handler := cn_handler c; cn_closeWait := cn_closeWait c; cn_assoc := cn_assoc c;
  cn_peerPort := cn_peerPort c; cn_laddr := cn_laddr c; cn_raddr := cn_raddr c; cn_pathScope := cn_pathScope c; cn_subs := cn_subs c;
  cn_interleaved := cn_interleaved c; cn_life := l; cn_send := cn_send c; cn_term := t |}.
End Setters.

Definition zero_socket : socket := {| s_file := {| f_id := 0; f_fd := -1 |}; s_family := 0; s_network := "" |}.
Definition sock (c : connection) : socket := default zero_socket (cn_sock c).

Definition emptyAddr : SctpAddr := {| IPs := []; Port := 0 |}.

Section Conns.
Context `{A : Arch} `{ZE : ZoneEnv} `{CS : ClosingSentinel} `{IT : IPText} `{H : Host}.

(** ** Errors *)
Definition is_opened (c : connection) : bool :=
  bool_decide (cn_sock c <> None) && negb (bool_decide (state (cn_life c) = lifeClosed)).

Definition conn_network (c : connection) : string :=
  if bool_decide (s_network (sock c) = "") then "sctp" else s_network (sock c).

Definition AssocID (c : option connection) : Z := match c with Some c => cn_assoc c | None => 0 end.

(** A net.Addr in an error is its text. *)
Definition net_Addr (a : option SctpAddr) : option string := (fun a => SctpAddr_String (Some a)) <$> netAddr a.
Definition LocalAddr (c : connection) : option string := net_Addr (cn_laddr c).
Definition RemoteAddr (c : connection) : option string := net_Addr (cn_raddr c).

(** The parts of the Conn its option methods read. *)
Definition view (c : connection) : Conn := {|
  base := {| handler := None; c_sock := bool_decide (cn_sock c <> None); c_life := state (cn_life c); abort_result := None;
             c_network := conn_network c; c_local := LocalAddr c; c_remote := RemoteAddr c |};
  assoc := cn_assoc c; family := s_family (sock c); peerPort := cn_peerPort c; pathScope := cn_pathScope c; laddr := cn_laddr c |}.

(** ** Address snapshots *)

(** The map of interfaceHolders, read on its first use: the indexes of the
    interfaces that hold an address. *)
Definition held_addr (ip : option bytes) : option Addr :=
  match ip with Some b => Unmap <$> AddrFromSlice b | None => None end.

Definition interfaceHolders (table : option (list (Z * option (list (option bytes))))) (ip : Addr) : list Z :=
  match table with
  | None => []
  | Some ifs =>
      concat (map (fun '(index, addrs) =>
        concat (map (fun a => if bool_decide (held_addr a = Some (WithZone ip "")) then [u32 index] else []) (default [] addrs))) ifs)
  end.

(** [if a, err := ...; err == nil { p.Store(a) } else if p.Load() == nil { p.Store(&Addr{}) }] *)
Definition snapshot_of (r : SctpAddr + error) (old : option SctpAddr) : SctpAddr :=
  match r with inl a => a | inr _ => default emptyAddr old end.

Definition refreshSnapshots (c : connection) : io connection :=
  l ← caught (on (sock c) (getAddrs optGetLocalAddrs (cn_assoc c)));
  let la := snapshot_of l (cn_laddr c) in
  r ← caught (on (sock c) (getAddrs optGetPeerAddrs (cn_assoc c)));
  let ra := snapshot_of r (cn_raddr c) in
  let c := set_addrs c (Some la) (Some ra) in
  if s_family (sock c) =? afInet6 then
    table ← ask os_interfaces;
    mret (set_scope c (linkLocalPathScope (IPs la) (IPs ra) (interfaceHolders table)))
  else mret c.

(** ** newConn *)
Definition Conn_init (c : connection) (p : prepared) : io connection :=
  let s := sock c in
  subs ← (if p_adopted p then order ← ask os_order; on s (kernelSubscriptions order) else mret (p_subscribed p));
  let c := set_subs c subs in
  _ ← (if bool_decide (cn_kind c = kindAccepted \/ cn_kind c = kindAdopted \/ cn_kind c = kindPeeled) then
         wrapped (in_call "setsockopt")
           (on s (sock_control (_ ← setEvent EventAssocChange true; setEvent EventPartialDelivery true)))
       else mret tt);
  st ← caught (on s status);
  '(c, ended) ←
    match st with
    | inl (id, state) =>
        if negb (state =? StateClosed) then mret (set_assoc_id c id, false)
        else mret (set_addrs c (Some emptyAddr) (Some emptyAddr), true)
    | inr err =>
        if errors_Is err (Errno EINVAL) then mret (set_addrs c (Some emptyAddr) (Some emptyAddr), true)
        else fails (in_call "getsockopt" err)
    end;
  i ← caught (on s (InterleavingSupported (view c)));
  interleaved ← match i with
                | inl b => mret b
                | inr err => if negb ended then fails (Some err) else mret false
                end;
  let c := set_interleaved c interleaved in
  c ← (if negb ended then
         c ← refreshSnapshots c;
         mret (match cn_raddr c with Some ra => set_peerPort c (Port ra) | None => c end)
       else mret c);
  snd ← on s (Send.init (cn_send c));
  mret (set_send c snd).

Definition fresh_conn (s : socket) (kind : connKind) (p : prepared) (t : Z) : connection := {|
  cn_sock := Some s; cn_kind := kind; cn_handler := p_handler p; cn_closeWait := p_closeTimeout p; cn_assoc := 0;
  cn_peerPort := 0; cn_laddr := None; cn_raddr := None; cn_pathScope := 0; cn_subs := 0; cn_interleaved := false;
  cn_life := Close.init (zero_lifecycle t); cn_send := zero_sendState; cn_term := zero_termState |}.

Definition newCloseOps (c : connection) : sockCloseOps := {|
  k_sock := sock c; k_kind := cn_kind c; k_send := true; k_wakes := 0; k_term := Some (cn_term c) |}.

Definition newConn (s : socket) (kind : connKind) (p : prepared) : io connection :=
  r ← caught (Conn_init (fresh_conn s kind p 0) p);
  match r with
  | inl c => mret c
  | inr err =>
      _ ← (if bool_decide (kind = kindAdopted) then ignore (File_Close (s_file s)) else ignore (abortive s));
      fails (Some err)
  end.

(** ** FileConn *)
Definition fileConn (c : option Config) (f : option file) : io connection :=
  p ← pure (prepare c styleFile);
  s ← adoptFile f false;
  err ← err_of (on s (applyConfig (p_ops p)));
  match err with
  | Some e => _ ← ignore (File_Close (s_file s)); fails (Some e)
  | None => newConn s kindAdopted p
  end.

Definition FileConn (c : option Config) (f : option file) : io connection :=
  wrapped (fun e => opError "file" "sctp" None None (Some e)) (fileConn c f).

(** ** Addresses *)
(** The function of the package: a nil Config. *)
Definition sctp_FileConn (f : option file) : io connection := FileConn None f.

Definition liveAddrs (c : connection) (opt : Z) : io SctpAddr :=
  if negb (is_opened c) then fails (opError "get" (conn_network c) None (LocalAddr c) (Some (Plain NetErrClosed))) else
  if cn_assoc c =? 0 then fails (optError "get" "getsockopt" (conn_network c) None (LocalAddr c) (Some (Plain (Errno EINVAL)))) else
  r ← caught (on (sock c) (getAddrs opt (cn_assoc c)));
  match r with
  | inl a => mret a
  | inr err =>
      match errors_As err with
      | Some errno => fails (optError "get" "getsockopt" (conn_network c) None (LocalAddr c) (Some (Plain (Errno errno))))
      | None => fails (opError "get" (conn_network c) None (LocalAddr c) (Some err))
      end
  end.

Definition LocalAddrs (c : connection) : io SctpAddr := liveAddrs c optGetLocalAddrs.
Definition PeerAddrs (c : connection) : io SctpAddr := liveAddrs c optGetPeerAddrs.

Definition bindxAddrs (family : Z) (name : string) (ips : list Addr) : out error bytes :=
  if len ips =? 0 then Err (invalidArg (name +:+ " needs at least one address")) else
  _ ← fail_on (validateLocalIPs family ips);
  encodeAddrs family ips 0.

Definition removesEveryAddress (bound remove : list Addr) : bool :=
  existsb IsUnspecified remove ||
  (negb (len bound =? 0) && forallb (fun b => existsb (fun r => bool_decide (Unmap b = Unmap r)) remove) bound).

(** The part of bindx a Conn, a Listener and an Endpoint share: [wrap] is
    opError with the object's own names, [wrap_call] optError, [refresh]
    what follows a bindx that succeeded. *)
Definition bindx_on {X} (s : socket) (wrap wrap_call : error -> option error) (opt : Z) (name : string) (ips : list Addr)
    (refresh : io X) : io X :=
  buf ← wrapped wrap (pure (bindxAddrs (s_family s) name ips));
  _ ← (if opt =? optSockoptBindxRemove then
         bound ← caught (on s (getAddrs optGetLocalAddrs 0));
         match bound with
         | inl bound =>
             if removesEveryAddress (IPs bound) ips
             then fails (wrap (invalidArg (name +:+ " would remove every local address, which RFC 6458 §9.1 forbids")))
             else mret tt
         | inr _ => mret tt
         end
       else mret tt);
  _ ← wrapped wrap_call (on s (Sys.bindx opt buf));
  refresh.

Definition Conn_bindx (c : connection) (opt : Z) (name : string) (ips : list Addr) : io connection :=
  let wrap e := opError "bindx" (conn_network c) None (LocalAddr c) (Some e) in
  if negb (is_opened c) then fails (wrap (Plain NetErrClosed)) else
  bindx_on (sock c) wrap (fun e => optError "bindx" "setsockopt" (conn_network c) None (LocalAddr c) (Some e)) opt name ips
    (if negb (cn_assoc c =? 0) then refreshSnapshots c else mret c).

Definition BindAdd (c : connection) (ips : list Addr) : io connection := Conn_bindx c optSockoptBindxAdd "BindAdd" ips.
Definition BindRemove (c : connection) (ips : list Addr) : io connection := Conn_bindx c optSockoptBindxRemove "BindRemove" ips.

(** ** Deadlines and raw access *)

(** [c] is nil, or a Conn; the result of send.setDeadline on the state of
    the send path and the descriptor's deadlines. *)
Definition Conn_setDeadline (c : option connection) (d : deadlines) (h : host) (t : option Z) (m : mode)
    : deadlines * host * option error :=
  match c with
  | None => (d, h, opError "set" "sctp" None None (Some (Plain NetErrClosed)))
  | Some c =>
      if bool_decide (cn_sock c = None) then (d, h, opError "set" (conn_network c) None None (Some (Plain NetErrClosed))) else
      if negb (is_opened c) then (d, h, opError "set" (conn_network c) None (LocalAddr c) (Some (Plain NetErrClosed))) else
      let '(d, h, err) := setDeadline d h t m in
      (d, h, match err with Some _ => opError "set" (conn_network c) None (LocalAddr c) err | None => None end)
  end.

Definition Conn_SetDeadline (c : option connection) (d : deadlines) (h : host) (t : option Z) := Conn_setDeadline c d h t mode_b.
Definition Conn_SetReadDeadline (c : option connection) (d : deadlines) (h : host) (t : option Z) := Conn_setDeadline c d h t mode_r.
Definition Conn_SetWriteDeadline (c : option connection) (d : deadlines) (h : host) (t : option Z) := Conn_setDeadline c d h t mode_w.

Definition SyscallConn (c : connection) : out error unit :=
  if negb (is_opened c)
  then match opError "syscallconn" (conn_network c) None (LocalAddr c) (Some (Plain NetErrClosed)) with Some e => Err e | None => Panic end
  else Ret tt.

Definition connRawConn_Control {X} (c : connection) (f : io X) : io X :=
  r ← caught (File_Control (s_file (sock c)) (caught f));
  match r with
  | inr e => fails (opError "raw-control" (conn_network c) None (LocalAddr c) (Some e))
  | inl (inr e) => fails (Some e)
  | inl (inl x) => mret x
  end.

(** With the receive lock, and with the send lock. *)
Definition connRawConn_Read (wakes : nat) (c : connection) (f : io (option unit)) : io (option unit) :=
  wrapped (fun e => opError "raw-read" (conn_network c) (LocalAddr c) (RemoteAddr c) (Some e)) (raw_Read wakes (s_file (sock c)) f).
Definition connRawConn_Write (wakes : nat) (c : connection) (f : io (option unit)) : io (option unit) :=
  wrapped (fun e => opError "raw-write" (conn_network c) (LocalAddr c) (RemoteAddr c) (Some e)) (raw_Read wakes (s_file (sock c)) f).

(** ** Close, CloseWithTimeout, Abort and Shutdown *)
Definition closeError (c : connection) (err : option error) : option error :=
  match err with
  | None => None
  | Some _ => opError "close" (conn_network c) (LocalAddr c) (RemoteAddr c) err
  end.

(** A call, with no other close call running: the Conn after it and its
    result, or [None] when it is still waiting after [fuel] steps. *)
Definition Conn_close (fuel : nat) (c : connection) (k : call) : io (connection * option (option error)) :=
  '(o, l, res) ← drive fuel (newCloseOps c) (cn_life c) (enter k);
  mret (set_life c l (default (cn_term c) (k_term o)), closeError c <$> res).

Definition nil_close : option error := opError "close" "sctp" None None (Some (Plain NetErrClosed)).

Definition on_conn (fuel : nat) (c : option connection) (k : connection -> call) : io (option connection * option (option error)) :=
  match c with
  | None => mret (None, Some nil_close)
  | Some c => '(c, r) ← Conn_close fuel c (k c); mret (Some c, r)
  end.

Definition Close (fuel : nat) (c : option connection) := on_conn fuel c (fun c => CallClose (cn_closeWait c)).
Definition CloseWithTimeout (fuel : nat) (c : option connection) (d : Z) := on_conn fuel c (fun _ => CallClose d).
Definition Abort (fuel : nat) (c : option connection) := on_conn fuel c (fun _ => CallAbort).
Definition Shutdown (fuel : nat) (c : option connection) := on_conn fuel c (fun _ => CallShutdown).
End Conns.

(** ** newConn and the descriptor *)
Section NewConn.
Context `{A : Arch} `{AK : !ArchOk A} `{ZE : ZoneEnv} `{CS : ClosingSentinel} `{IT : IPText}.

Lemma calm_interleaving `{K : Kernel} c : calm (InterleavingSupported c) no_panic.
Proof.
  apply calm_quiet.
  - unfold InterleavingSupported, negotiated, assocValueOption, getOpt, if_open, getsockopt, getsockoptAt. hush.
  - unfold InterleavingSupported, negotiated. eapply emits_mono.
    + apply (good_assocValue c (shape_of mInterleavingSupported) false optInterleavingSupported);
        [reflexivity | reflexivity | constructor | reflexivity | constructor | intros v; apply good_ret].
    + intros l [b | e |] [_ Hr]; done.
Qed.

Lemma quiet_getDefaults `{K : Kernel} : quiet getDefaultSndInfo /\ quiet getDefaultPrInfo.
Proof. unfold getDefaultSndInfo, getDefaultPrInfo. split; hush. Qed.

Lemma calm_send_init `{K : Kernel} : calm (Send.init zero_sendState) (fun r => exists snd pr, r = Ret (new_sendState snd pr false)).
Proof.
  apply calm_quiet; [| apply init_new]. unfold Send.init, readDefaults. destruct quiet_getDefaults.
  apply quiet_bind; [apply quiet_caught, quiet_control | intros; apply quiet_ret].
  apply quiet_bind; [done |]. intros snd. apply quiet_bind; [done |]. intros pr. apply quiet_ret.
Qed.

Context `{H : Host}.

Lemma runs_getAddrs g s opt assoc Q :
  opt <> optSockoptPeeloffFlags -> s_fd s ∈ owned g -> (forall r, no_panic r -> Q r g) -> runs g (on s (getAddrs opt assoc)) Q.
Proof.
  intros Hopt Ho HQ. eapply runs_on; [done | apply calm_quiet; [by apply quiet_getAddrs | apply fine_getAddrs] | exact HQ].
Qed.

Lemma runs_refreshSnapshots g c Q :
  s_fd (sock c) ∈ owned g -> (forall l r z, Q (Ret (set_scope (set_addrs c (Some l) (Some r)) z)) g) -> (forall l r, Q (Ret (set_addrs c (Some l) (Some r))) g) ->
  runs g (refreshSnapshots c) Q.
Proof.
  intros Ho HQ1 HQ2. apply runs_bind, runs_caught, runs_getAddrs; [done | done |].
  assert (Hrest : forall x, runs g (r ← caught (on (sock c) (getAddrs optGetPeerAddrs (cn_assoc c)));
     let ra := snapshot_of r (cn_raddr c) in let c := set_addrs c (Some (snapshot_of x (cn_laddr c))) (Some ra) in
     if s_family (sock c) =? afInet6 then table ← ask os_interfaces;
       mret (set_scope c (linkLocalPathScope (IPs (snapshot_of x (cn_laddr c))) (IPs ra) (interfaceHolders table))) else mret c) Q).
  { intros x. apply runs_bind, runs_caught, runs_getAddrs; [done | done |].
    intros [a | e |] Hp; cbn [next_runs]; [| | done]; cbv zeta; (destruct (_ =? _); [apply runs_bind, runs_ask; intros t; cbn [next_runs] |]);
      first [apply runs_ret, HQ1 | apply runs_ret, HQ2]. }
  intros [a | e |] Hp; cbn [next_runs]; [apply (Hrest (inl a)) | apply (Hrest (inr e)) | done].
Qed.

(** What init leaves alone. *)
Definition same_conn (c : connection) (r : out error connection) : Prop :=
  match r with Ret c' => cn_sock c' = cn_sock c /\ cn_kind c' = cn_kind c /\ cn_life c' = cn_life c | Err _ => True | Panic => False end.

Lemma runs_init_end g c0 s c : cn_send c = zero_sendState -> s_fd s ∈ owned g -> same_conn c0 (Ret c) ->
  runs g (snd ← on s (Send.init (cn_send c)); mret (set_send c snd)) (fun r g' => same_conn c0 r /\ g' = g).
Proof.
  intros Hs Ho Hc. rewrite Hs. apply runs_bind. eapply runs_on; [done | apply calm_send_init |].
  intros r (snd & pr & ->). cbn [next_runs]. by apply runs_ret.
Qed.

Lemma runs_init_assoc g c0 s c ended :
  cn_send c = zero_sendState -> s_fd s ∈ owned g -> s_fd (sock c) ∈ owned g -> same_conn c0 (Ret c) ->
  runs g (i ← caught (on s (InterleavingSupported (view c)));
          interleaved ← match i with inl b => mret b | inr err => if negb ended then fails (Some err) else mret false end;
          let c := set_interleaved c interleaved in
          c ← (if negb ended then
                 c ← refreshSnapshots c; mret (match cn_raddr c with Some ra => set_peerPort c (Port ra) | None => c end)
               else mret c);
          snd ← on s (Send.init (cn_send c)); mret (set_send c snd)) (fun r g' => same_conn c0 r /\ g' = g).
Proof.
  intros Hs Ho Ho' Hc. apply runs_bind, runs_caught. eapply runs_on; [done | apply calm_interleaving |].
  assert (Hrest : forall b, runs g (let c := set_interleaved c b in
    c ← (if negb ended then c ← refreshSnapshots c; mret (match cn_raddr c with Some ra => set_peerPort c (Port ra) | None => c end) else mret c);
    snd ← on s (Send.init (cn_send c)); mret (set_send c snd)) (fun r g' => same_conn c0 r /\ g' = g)).
  { intros b. cbv zeta. apply runs_bind. destruct ended; cbn [negb].
    - apply runs_ret. cbn [next_runs]. by apply runs_init_end.
    - apply runs_bind, runs_refreshSnapshots; [done | |]; intros; cbn [next_runs]; apply runs_ret; cbn [next_runs]; by apply runs_init_end. }
  intros [b | e |] Hp; cbn [next_runs]; [| | done]; apply runs_bind.
  - apply runs_ret. cbn [next_runs]. apply Hrest.
  - destruct ended; cbn [negb]; [apply runs_ret; cbn [next_runs]; apply Hrest | by apply runs_fails].
Qed.

Lemma calm_own_events `{K : Kernel} :
  calm (sock_control (_ ← setEvent EventAssocChange true; setEvent EventPartialDelivery true)) no_panic.
Proof.
  apply calm_quiet.
  - apply quiet_control, quiet_bind; [apply quiet_setEvent |]. intros; apply quiet_setEvent.
  - apply emits_control; [| done]. eapply emits_mono; [apply (made_app [set_event EventAssocChange true] [set_event EventPartialDelivery true]); apply setEvent_made |].
    intros l r [[-> ->] | (? & ? & ? & ? & _ & _ & _ & ->)]; done.
Qed.

Lemma runs_Conn_init g c p :
  cn_send c = zero_sendState -> s_fd (sock c) ∈ owned g ->
  runs g (Conn_init c p) (fun r g' => same_conn c r /\ g' = g).
Proof.
  intros Hs Ho. assert (Herr : forall e, same_conn c (Err e) /\ g = g) by done. apply runs_bind.
  assert (Hsubs : runs g (if p_adopted p then order ← ask os_order; on (sock c) (kernelSubscriptions order) else mret (p_subscribed p))
    (fun r g' => no_panic r /\ g' = g)).
  { destruct (p_adopted p); [| by apply runs_ret]. apply runs_bind, runs_ask. intros order. cbn [next_runs].
    eapply (runs_on _ _ _ no_panic); [done | apply calm_quiet; [apply quiet_kernelSubscriptions | apply fine_kernelSubscriptions] | done]. }
  eapply runs_mono; [exact Hsubs |]. intros [subs | e |] g' [Hp ->]; cbn [next_runs]; [| done | done]. cbv zeta. apply runs_bind.
  set (c1 := set_subs c subs). assert (Hev : runs g
    (if bool_decide (cn_kind c1 = kindAccepted \/ cn_kind c1 = kindAdopted \/ cn_kind c1 = kindPeeled) then
         wrapped (in_call "setsockopt") (on (sock c) (sock_control (_ ← setEvent EventAssocChange true; setEvent EventPartialDelivery true)))
       else mret tt) (fun r g' => no_panic r /\ g' = g)).
  { destruct (bool_decide _); [| by apply runs_ret]. apply runs_wrapped; [done |].
    eapply (runs_on _ _ _ no_panic); [done | apply calm_own_events |]. by intros [u | e |] Hp'. }
  eapply runs_mono; [exact Hev |]. intros [u | e |] g' [Hp' ->]; cbn [next_runs]; [| done | done].
  apply runs_bind, runs_caught, runs_status; [done |].
  intros [[id state] | e |] Hp''; cbn [next_runs]; [| | done]; apply runs_bind.
  - destruct (negb _); apply runs_ret; cbn [next_runs].
    + exact (runs_init_assoc g c (sock c) (set_assoc_id c1 id) false Hs Ho Ho (conj eq_refl (conj eq_refl eq_refl))).
    + exact (runs_init_assoc g c (sock c) (set_addrs c1 (Some emptyAddr) (Some emptyAddr)) true Hs Ho Ho (conj eq_refl (conj eq_refl eq_refl))).
  - destruct (errors_Is _ _); [apply runs_ret; cbn [next_runs] | by apply runs_fails].
    exact (runs_init_assoc g c (sock c) (set_addrs c1 (Some emptyAddr) (Some emptyAddr)) true Hs Ho Ho (conj eq_refl (conj eq_refl eq_refl))).
Qed.

(** newConn takes the socket over: the Conn has it, or it has been closed. *)
Definition conn_or (g : held) (r : out error connection) (g' : held) : Prop :=
  match r with
  | Ret c => cn_sock c <> None /\ hands g (sock c) g' /\ cn_life c = Close.init (zero_lifecycle 0)
  | Err _ => keeps g g'
  | Panic => False
  end.

Lemma runs_newConn g s kind p g' Q :
  held_wf g -> hands g s g' -> (forall r g'', conn_or g r g'' -> Q r g'') -> runs g' (newConn s kind p) Q.
Proof.
  intros Hw Hh HQ. pose proof (hands_has _ _ _ Hh) as (Ho & _). apply runs_bind, runs_caught.
  eapply runs_mono; [by apply runs_Conn_init |]. intros [c | e |] g'' [Hc ->]; cbn [next_runs]; [| | done].
  - apply runs_ret, HQ. destruct Hc as (Hs & _ & Hl). cbn in Hs, Hl. cbn [conn_or]. rewrite Hl. unfold sock. rewrite Hs. done.
  - apply runs_bind. assert (Hrel : runs g' (if bool_decide (kind = kindAdopted) then ignore (File_Close (s_file s)) else ignore (abortive s))
      (fun r g'' => r = Ret tt /\ keeps g g'')).
    { destruct (bool_decide _); apply runs_ignore.
      - apply (runs_give_back g s); [done | done |]. by intros [x | e' |] g'' Hp Hk.
      - by apply (runs_abortive g). }
    eapply runs_mono; [exact Hrel |]. intros r g'' [-> Hk]. cbn [next_runs]. apply runs_fails. by apply HQ.
Qed.

Context `{HO : !HostOk}.

Lemma runs_fileConn g c f Q :
  held_wf g -> (forall f', f = Some f' -> f_fd f' ∈ owned g) -> (forall r g', conn_or g r g' -> Q r g') -> runs g (fileConn c f) Q.
Proof.
  intros Hw Hf HQ. apply runs_bind, runs_pure. pose proof (prepare_total c styleFile) as Hp.
  destruct (prepare c styleFile) as [p | e |]; cbn [next_runs]; [| by apply HQ, keeps_refl | done].
  apply runs_bind, (runs_adoptFile g f false); [done | done |]. intros [s | e |] g' Ho; cbn [next_runs opened_or] in *; [| by apply HQ | done].
  apply runs_bind, runs_err_of, runs_applyConfig; [by eapply hands_has |].
  intros [u | e |] Hnp; cbn [next_runs]; [by apply (runs_newConn g) | | done].
  apply runs_bind, runs_ignore, (runs_give_back g s); [done | done |].
  intros [x | e' |] g'' Hp' Hk; cbn [next_runs]; [by apply runs_fails, HQ.. | done].
Qed.
End NewConn.

(** ** What newConn finds out *)
Section Fields.
Context `{A : Arch} `{AK : !ArchOk A} `{ZE : ZoneEnv} `{CS : ClosingSentinel} `{IT : IPText} `{H : Host}.

Lemma caught_inv {X} (m : io X) s s' l r :
  caught m s = (s', l, Ret r) -> m s = (s', l, match r with inl x => Ret x | inr e => Err e end).
Proof. unfold caught. destruct (m s) as [[s1 l1] [x | e |]]; [| | done]; intros [= <- <- <-]; done. Qed.

Lemma on_inv {X} s (m : logged (@proc (at_file (s_file s))) Sys.done X) st st' l r :
  on s m st = (st', l, r) -> exists p l0, m {| kern := (p_os st, p_closed st) : @Sys.world (at_file (s_file s)); storageLayoutCache := p_cache st |} = (p, l0, r) /\ l = AOpt (s_fd s) <$> l0.
Proof. unfold on. destruct (m _) as [[p l0] r0]. intros [= _ <- <-]. by exists p, l0. Qed.

(** The status query, its reply, and what it says. *)
Definition status_query : syscall := Getsockopt ipprotoSCTP optStatus (zeros sizeStatus).
Definition status_id (b : bytes) : Z := i32 (uint_of NativeEndian (sub b statusAssocIDOff 4)).

Lemma status_inv `{K : Kernel} p p' l r :
  status p = (p', l, r) ->
  match r with
  | Ret (id, st) => exists b, l = [Did status_query 0 b] /\ id = status_id b /\ st = state_in b
  | Err e => (l = [] /\ e = Plain NetErrClosed) \/ exists errno, errno <> 0 /\ l = [Did status_query errno []] /\ e = errno_error errno
  | Panic => False
  end.
Proof.
  intros Hr. assert (He : emits status (fun l r =>
    match r with
    | Ret (id, st) => exists b, l = [Did status_query 0 b] /\ id = status_id b /\ st = state_in b
    | Err e => (l = [] /\ e = Plain NetErrClosed) \/ exists errno, errno <> 0 /\ l = [Did status_query errno []] /\ e = errno_error errno
    | Panic => False
    end)).
  { apply emits_bind, emits_control; [| by left]. apply emits_get; [rewrite len_zeros; abi; lia |]. intros errno b n Hb.
    rewrite len_zeros in Hb by (abi; lia). destruct (Z.eqb_spec errno 0) as [-> | Hn]; cbn [then_]; [| by right; exists errno].
    apply emits_pure_bind. rewrite get4_ok by (abi; lia). apply emits_pure_bind. rewrite get4_ok by (abi; lia).
    apply emits_ret. by exists b. }
  specialize (He p). by rewrite Hr in He.
Qed.

(** How init takes the answer: the association, or its end. *)
Definition takes (c c' : connection) (errno : Z) (reply : bytes) (ended : bool) : Prop :=
  if ended
  then c' = set_addrs c (Some emptyAddr) (Some emptyAddr) /\ ((errno = 0 /\ state_in reply = StateClosed) \/ errno = EINVAL)
  else c' = set_assoc_id c (status_id reply) /\ errno = 0 /\ state_in reply <> StateClosed.

Lemma errno_EINVAL n : errors_Is (errno_error n) (Errno EINVAL) = (n =? EINVAL).
Proof.
  cbn. unfold plain_Is. rewrite orb_false_r. destruct (Z.eqb_spec n EINVAL) as [-> | Hn].
  - by apply bool_decide_eq_true_2.
  - apply bool_decide_eq_false_2. congruence.
Qed.

Lemma refresh_inv c st st' l c' :
  refreshSnapshots c st = (st', l, Ret c') -> exists la ra z, c' = set_addrs (set_scope c z) (Some la) (Some ra).
Proof.
  intros (s1 & l1 & x & l2 & _ & Hk & _)%bind_ret_inv. cbv zeta in Hk.
  apply bind_ret_inv in Hk as (s2 & l3 & y & l4 & _ & Hk & _). cbv zeta in Hk.
  destruct (s_family _ =? afInet6).
  - apply bind_ret_inv in Hk as (s3 & l5 & t & l6 & _ & Hk & _). injection Hk as _ _ <-. by eexists _, _, _.
  - injection Hk as _ _ <-. eexists _, _, (cn_pathScope c). by destruct c.
Qed.

Lemma newConn_init s kind p st st' l c :
  newConn s kind p st = (st', l, Ret c) -> Conn_init (fresh_conn s kind p 0) p st = (st', l, Ret c).
Proof.
  intros (s1 & l1 & r & l2 & Hc & Hk & ->)%bind_ret_inv. apply caught_inv in Hc. destruct r as [c' | e].
  - injection Hk as <- <- <-. by rewrite app_nil_r.
  - apply bind_ret_inv in Hk as (s2 & l3 & u & l4 & _ & Hk & _). done.
Qed.

(** The first part of init: the subscriptions and the events. *)
Lemma own_events_made `{K : Kernel} :
  emits (sock_control (_ ← setEvent EventAssocChange true; setEvent EventPartialDelivery true))
    (fun l r => forall u, r = Ret u -> l = [ok (set_event EventAssocChange true); ok (set_event EventPartialDelivery true)]).
Proof.
  apply emits_control; [| done]. eapply emits_mono;
    [apply (made_app [set_event EventAssocChange true] [set_event EventPartialDelivery true]); apply setEvent_made |].
  intros l r [[-> ->] | (? & ? & ? & ? & _ & _ & _ & ->)] ? ?; done.
Qed.

Lemma events_inv s st st' l u :
  wrapped (in_call "setsockopt") (on s (sock_control (_ ← setEvent EventAssocChange true; setEvent EventPartialDelivery true))) st = (st', l, Ret u) ->
  l = AOpt (s_fd s) <$> [ok (set_event EventAssocChange true); ok (set_event EventPartialDelivery true)].
Proof.
  intros Hw%wrapped_ret_inv. apply on_inv in Hw as (q & l0 & Hw & ->). f_equal.
  pose proof (own_events_made (K := at_file (s_file s)) {| kern := (p_os st, p_closed st) : @Sys.world (at_file (s_file s)); storageLayoutCache := p_cache st |}) as He.
  rewrite Hw in He. by apply (He u).
Qed.

(** The last part: everything after the status query. *)
Lemma init_rest_inv s c ended st st' l c' :
  (i ← caught (on s (InterleavingSupported (view c)));
   interleaved ← match i with inl b => mret b | inr err => if negb ended then fails (Some err) else mret false end;
   let c := set_interleaved c interleaved in
   c ← (if negb ended then
          c ← refreshSnapshots c; mret (match cn_raddr c with Some ra => set_peerPort c (Port ra) | None => c end)
        else mret c);
   snd ← on s (Send.init (cn_send c)); mret (set_send c snd)) st = (st', l, Ret c') ->
  cn_sock c' = cn_sock c /\ cn_kind c' = cn_kind c /\ cn_handler c' = cn_handler c /\ cn_closeWait c' = cn_closeWait c /\
  cn_subs c' = cn_subs c /\ cn_life c' = cn_life c /\ cn_assoc c' = cn_assoc c /\
  if ended then cn_peerPort c' = cn_peerPort c /\ cn_laddr c' = cn_laddr c /\ cn_raddr c' = cn_raddr c
  else exists la ra, cn_laddr c' = Some la /\ cn_raddr c' = Some ra /\ cn_peerPort c' = Port ra.
Proof.
  intros (s1 & l1 & i & l2 & _ & Hk & _)%bind_ret_inv. apply bind_ret_inv in Hk as (s2 & l3 & b & l4 & _ & Hk & _). cbv zeta in Hk.
  apply bind_ret_inv in Hk as (s3 & l5 & c2 & l6 & Hc & Hk & _). apply bind_ret_inv in Hk as (s4 & l7 & sn & l8 & _ & Hk & _).
  injection Hk as _ _ <-. destruct ended; cbn [negb] in Hc.
  - injection Hc as _ _ <-. done.
  - apply bind_ret_inv in Hc as (s5 & l9 & c3 & l10 & Hc & Hk & _). apply refresh_inv in Hc as (la & ra & z & ->).
    injection Hk as _ _ <-. split_and!; try done. by exists la, ra.
Qed.

(** What newConn makes of the association: a Conn that newConn returns
    has asked SCTP_STATUS once and taken its answer.  An association that
    the kernel reports, in any state but CLOSED, gives the Conn its id, for
    good, its address snapshots, and its peer port; one that has ended, by
    EINVAL or in state CLOSED, gives id 0, port 0 and snapshots without
    addresses, and no address query.  On an accepted, adopted or peeled
    socket the two subscriptions the package depends on have been made
    before.  The handler, the grace period and, unless the descriptor was
    adopted, the subscriptions are the Config's. *)
Theorem newConn_fields s kind p st st' l c (Hr : newConn s kind p st = (st', l, Ret c)) :
  cn_sock c = Some s /\ cn_kind c = kind /\ cn_handler c = p_handler p /\ cn_closeWait c = p_closeTimeout p /\
  (p_adopted p = false -> cn_subs c = p_subscribed p) /\ state (cn_life c) = lifeOpen /\
  exists before after errno reply,
    l = before ++ AOpt (s_fd s) (Did status_query errno reply) :: after /\
    (kind = kindAccepted \/ kind = kindAdopted \/ kind = kindPeeled ->
       exists more, before = more ++ (AOpt (s_fd s) <$> [ok (set_event EventAssocChange true); ok (set_event EventPartialDelivery true)])) /\
    ((errno = 0 /\ state_in reply <> StateClosed /\ cn_assoc c = status_id reply /\
        exists la ra, cn_laddr c = Some la /\ cn_raddr c = Some ra /\ cn_peerPort c = Port ra) \/
     (((errno = 0 /\ state_in reply = StateClosed) \/ errno = EINVAL) /\ cn_assoc c = 0 /\ cn_peerPort c = 0 /\
        cn_laddr c = Some emptyAddr /\ cn_raddr c = Some emptyAddr)).
Proof.
  apply newConn_init in Hr. apply bind_ret_inv in Hr as (s1 & l1 & subs & l2 & Hsubs & Hr & ->). cbv zeta in Hr.
  set (c1 := set_subs (fresh_conn s kind p 0) subs) in Hr.
  apply bind_ret_inv in Hr as (s2 & l3 & u & l4 & Hev & Hr & ->). apply bind_ret_inv in Hr as (s3 & l5 & a & l6 & Hst & Hr & ->).
  apply caught_inv, on_inv in Hst as (q & l0 & Hst & ->). apply status_inv in Hst.
  apply bind_ret_inv in Hr as (s4 & l7 & [c2 ended] & l8 & Ha & Hr & ->). apply init_rest_inv in Hr as (E1 & E2 & E3 & E4 & E5 & E6 & E7 & E8).
  assert (Ht : exists errno reply, l0 = [Did status_query errno reply] /\ takes c1 c2 errno reply ended).
  { destruct a as [[id state] | e].
    - destruct Hst as (b & -> & -> & ->). exists 0, b. split; [done |]. destruct (Z.eqb_spec (state_in b) StateClosed) as [E | E];
        cbn [negb] in Ha; injection Ha as _ _ <- <-; (split; [done |]); auto.
    - destruct Hst as [[-> ->] | (errno & Hn & -> & ->)]; [done |]. exists errno, []. split; [done |].
      rewrite errno_EINVAL in Ha. destruct (Z.eqb_spec errno EINVAL); [| done]. injection Ha as _ _ <- <-. split; auto. }
  destruct Ht as (errno & reply & -> & Ht).
  assert (Hf : cn_sock c2 = Some s /\ cn_kind c2 = kind /\ cn_handler c2 = p_handler p /\ cn_closeWait c2 = p_closeTimeout p /\
    cn_subs c2 = subs /\ state (cn_life c2) = lifeOpen) by (unfold takes in Ht; destruct ended, Ht as [-> _]; done).
  destruct Hf as (F1 & F2 & F3 & F4 & F5 & F6).
  split_and!; try congruence.
  - intros Hnp. rewrite Hnp in Hsubs. injection Hsubs as _ _ <-. congruence.
  - exists (l1 ++ l3), (l7 ++ l8), errno, reply. split_and!.
    + by rewrite <- !app_assoc.
    + intros Hk. exists l1. f_equal. cbn [cn_kind c1 set_subs fresh_conn] in Hev. rewrite bool_decide_eq_true_2 in Hev by done.
      by apply events_inv in Hev.
    + destruct ended; destruct Ht as [-> Ht]; [right | left]; cbn in *.
      * destruct E8 as (-> & -> & ->). by rewrite E7.
      * destruct Ht as [-> Ht]. rewrite E7. done.
Qed.
End Fields.

(** ** Adding and removing addresses *)
Section Bindx.
Context `{A : Arch} `{AK : !ArchOk A} `{ZE : ZoneEnv} `{CS : ClosingSentinel} `{IT : IPText} `{H : Host}.

(** Removing [remove] from [bound] leaves nothing: it names every bound
    address, in plain form and with the same zone, or the unspecified one. *)
Definition leaves_none (bound remove : list Addr) : Prop :=
  (exists r, r ∈ remove /\ IsUnspecified r = true) \/
  (bound <> [] /\ forall b, b ∈ bound -> exists r, r ∈ remove /\ Unmap b = Unmap r).

Lemma removesEveryAddress_iff bound remove : removesEveryAddress bound remove = true <-> leaves_none bound remove.
Proof.
  unfold removesEveryAddress, leaves_none. rewrite orb_true_iff, andb_true_iff, existsb_exists, forallb_forall, negb_true_iff, Z.eqb_neq.
  setoid_rewrite <- list_elem_of_In. setoid_rewrite existsb_exists. setoid_rewrite <- list_elem_of_In. setoid_rewrite bool_decide_eq_true.
  assert (Hlen : len bound <> 0 <-> bound <> []).
  { destruct bound; [done |]. rewrite len_cons. pose proof (len_nonneg bound). split; [done | lia]. }
  rewrite Hlen. done.
Qed.

Lemma bindxAddrs_outcome fam name ips :
  Forall addr_wf ips ->
  match bindxAddrs fam name ips with
  | Ret buf => encodeAddrs fam ips 0 = Ret buf /\ 0 < len buf /\ validateLocalIPs fam ips = None
  | Err e => errors_Is e (Errno EINVAL) = true
  | Panic => False
  end.
Proof.
  intros Hwf. unfold bindxAddrs. destruct (Z.eqb_spec (len ips) 0) as [E | E]; [done |].
  destruct (validateLocalIPs fam ips) as [e |] eqn:Hv; cbn.
  - unfold validateLocalIPs in Hv. revert Hv. generalize (@nil Addr). induction ips as [| ip ips IH]; intros seen; [done |]. cbn.
    apply Forall_cons in Hwf as [_ Hwf]. case_bool_decide; [by intros [= <-] |].
    destruct ips as [| ip' ips]; [done |]. apply IH; [done |]. rewrite len_cons. pose proof (len_nonneg ips). lia.
  - pose proof (encodeAddrs_outcome fam ips 0 Hwf) as Ho. destruct (encodeAddrs fam ips 0) as [buf | e |]; [| by destruct Ho as [m ->] | done].
    destruct Ho as (_ & _ & Hl & Hs). pose proof (len_nonneg ips). split_and!; [done | nia | done].
Qed.

(** How a bindx of an object with errors [wrap] and [wrap_call] went: the
    calls [l] and the outcome [r], from the state [st]. *)
Definition bindx_set (s : socket) (opt : Z) (buf : bytes) (errno : Z) : action :=
  AOpt (s_fd s) (Did (Setsockopt ipprotoSCTP opt buf) errno []).

Inductive bindx_went {X} (s : socket) (wrap wrap_call : error -> option error) (opt : Z) (ips : list Addr) (refresh : io X)
    (st st' : process) : list action -> out error X -> Prop :=
| bindx_refused e e' : errors_Is e (Errno EINVAL) = true -> wrap e = Some e' -> bindx_went s wrap wrap_call opt ips refresh st st' [] (Err e')
| bindx_all st1 l1 bound e e' :
    opt = optSockoptBindxRemove -> on s (getAddrs optGetLocalAddrs 0) st = (st1, l1, Ret bound) ->
    leaves_none (IPs bound) ips -> errors_Is e (Errno EINVAL) = true -> wrap e = Some e' ->
    bindx_went s wrap wrap_call opt ips refresh st st' l1 (Err e')
| bindx_tried buf st1 l1 l2 r :
    encodeAddrs (s_family s) ips 0 = Ret buf -> validateLocalIPs (s_family s) ips = None -> 0 < len buf ->
    (if opt =? optSockoptBindxRemove
     then exists b, on s (getAddrs optGetLocalAddrs 0) st = (st1, l1, b) /\ forall bound, b = Ret bound -> ~ leaves_none (IPs bound) ips
     else st1 = st /\ l1 = []) ->
    ((exists e, l2 = [] /\ wrap_call (Plain NetErrClosed) = Some e /\ r = Err e) \/
     (exists errno e, errno <> 0 /\ l2 = [bindx_set s opt buf errno] /\ wrap_call (errno_error errno) = Some e /\ r = Err e) \/
     (exists st2 l3, l2 = bindx_set s opt buf 0 :: l3 /\ refresh st2 = (st', l3, r))) ->
    bindx_went s wrap wrap_call opt ips refresh st st' (l1 ++ l2) r.

(** The call itself. *)
Lemma bindx_emits `{K : Kernel} opt buf :
  0 < len buf -> emits (Sys.bindx opt buf) (fun l r =>
    l = [] /\ r = Err (Plain NetErrClosed) \/ exists errno, l = [Did (Setsockopt ipprotoSCTP opt buf) errno []] /\ r = set_outcome errno).
Proof.
  intros Hb. apply emits_control; [| by left]. apply emits_set; [lia |]. intros errno. right. by exists errno.
Qed.

Lemma bindx_call_run {X} s opt buf wrap_call (refresh : io X) st :
  0 < len buf -> (forall e, wrap_call e <> None) ->
  let '(st', l2, r) := (_ ← wrapped wrap_call (on s (Sys.bindx opt buf)); refresh) st in
  (exists e, l2 = [] /\ wrap_call (Plain NetErrClosed) = Some e /\ r = Err e) \/
  (exists errno e, errno <> 0 /\ l2 = [bindx_set s opt buf errno] /\ wrap_call (errno_error errno) = Some e /\ r = Err e) \/
  (exists st2 l3, l2 = bindx_set s opt buf 0 :: l3 /\ refresh st2 = (st', l3, r)).
Proof.
  intros Hb Hw. pose proof (Hw (Plain NetErrClosed)) as Hc.
  assert (Hon : exists st1 l r, on s (Sys.bindx opt buf) st = (st1, l, r) /\
    (l = [] /\ r = Err (Plain NetErrClosed) \/ exists errno, l = [bindx_set s opt buf errno] /\ r = set_outcome errno)).
  { unfold on. set (p := {| kern := _; storageLayoutCache := _ |}).
    pose proof (bindx_emits (K := at_file (s_file s)) opt buf Hb p) as He. destruct (Sys.bindx opt buf p) as [[q l0] r0].
    cbn in He. eexists _, _, _. split; [done |]. destruct He as [[-> ->] | (errno & -> & ->)]; [by left | right; by exists errno]. }
  destruct Hon as (st1 & l & r & Hon & Hcase). unfold wrapped, mbind, sys_bind, caught, mret, sys_ret. rewrite Hon.
  destruct Hcase as [[-> ->] | (errno & -> & ->)].
  - cbn. destruct (wrap_call (Plain NetErrClosed)) as [e |] eqn:E; [| done]. cbn. left. by exists e.
  - unfold set_outcome. destruct (Z.eqb_spec errno 0) as [-> | Hn]; cbn.
    + destruct (refresh st1) as [[st2 l3] r] eqn:Hr. cbn. right. right. by exists st1, l3.
    + destruct (wrap_call (errno_error errno)) as [e |] eqn:E; [| by destruct (Hw _ E)]. cbn. right. left. by exists errno, e.
Qed.

(** A BindAdd or BindRemove, of a Conn, a Listener or an Endpoint,
    whatever the kernel answers: a list that is empty, repeats an address,
    or holds one the socket's family cannot carry makes no call and fails
    with EINVAL; a removal asks for the bound addresses first, and is
    refused, with no further call, when they are all named or the
    unspecified address is; otherwise one setsockopt carries exactly the
    packed addresses with port 0, its failure is reported, and the
    snapshots are refreshed after a success only. *)
Theorem bindx_spec {X} s wrap wrap_call opt name ips (refresh : io X) st
    (Hwf : Forall addr_wf ips) (Hw : forall e, wrap e <> None) (Hc : forall e, wrap_call e <> None) :
  let '(st', l, r) := bindx_on s wrap wrap_call opt name ips refresh st in
  bindx_went s wrap wrap_call opt ips refresh st st' l r.
Proof.
  unfold bindx_on. pose proof (bindxAddrs_outcome (s_family s) name ips Hwf) as Ho.
  destruct (bindxAddrs (s_family s) name ips) as [buf | e |]; [| | done].
  2: { run_sys. unfold wrapped, mbind, sys_bind, caught, pure. cbn. destruct (wrap e) as [e' |] eqn:E; [| by destruct (Hw e)]. cbn. by econstructor. }
  destruct Ho as (He & Hb & Hv). set (k := fun buf => _).
  assert (Hk : (wrapped wrap (pure (Ret buf)) ≫= k) st = k buf st).
  { unfold wrapped, mbind, sys_bind, caught, pure. cbn. by destruct (k buf st) as [[? ?] ?]. }
  rewrite Hk. unfold k. clear k Hk. pose proof (bindx_tried s wrap wrap_call opt ips refresh st) as Htried.
  destruct (Z.eqb_spec opt optSockoptBindxRemove) as [Hrem | Hrem].
  - unfold mbind at 1, sys_bind at 1. destruct (on s (getAddrs optGetLocalAddrs 0) st) as [[st1 l1] b] eqn:Hg.
    assert (Hq : exists r, (bound ← caught (on s (getAddrs optGetLocalAddrs 0));
        match bound with
        | inl bound => if removesEveryAddress (IPs bound) ips
            then fails (wrap (invalidArg (name +:+ " would remove every local address, which RFC 6458 §9.1 forbids"))) else mret tt
        | inr _ => mret tt
        end) st = (st1, l1, r) /\
      ((exists bound e, b = Ret bound /\ leaves_none (IPs bound) ips /\
          wrap (invalidArg (name +:+ " would remove every local address, which RFC 6458 §9.1 forbids")) = Some e /\ r = Err e) \/
       (r = Ret tt /\ forall bound, b = Ret bound -> ~ leaves_none (IPs bound) ips))).
    { pose proof (fine_getAddrs (K := at_file (s_file s)) optGetLocalAddrs 0) as Hf.
      unfold mbind, sys_bind, caught. rewrite Hg. destruct b as [bound | e |].
      - destruct (removesEveryAddress (IPs bound) ips) eqn:Hr.
        + destruct (wrap (invalidArg _)) as [e |] eqn:E; [| by destruct (Hw _ E)]. cbn. eexists. rewrite app_nil_r. split; [done |].
          left. exists bound, e. split_and!; [done | by apply removesEveryAddress_iff | done | done].
        + cbn. eexists. rewrite app_nil_r. split; [done |]. right. split; [done |]. intros ? [= <-]. by rewrite <- removesEveryAddress_iff, Hr.
      - cbn. eexists. rewrite app_nil_r. split; [done |]. by right.
      - exfalso. unfold on in Hg. specialize (Hf {| kern := (p_os st, p_closed st) : @Sys.world (at_file (s_file s)); storageLayoutCache := p_cache st |}).
        destruct (getAddrs _ _ _) as [[? ?] ?]. injection Hg as _ _ ->. by apply Hf. }
    destruct Hq as (r & -> & [(bound & e & -> & Hl & Hwr & ->) | [-> Hn]]).
    + exact (bindx_all s wrap wrap_call opt ips refresh st st1 st1 l1 bound (invalidArg _) e Hrem Hg Hl eq_refl Hwr).
    + pose proof (bindx_call_run s opt buf wrap_call refresh st1 Hb Hc) as Hrun.
      destruct ((_ ← wrapped wrap_call (on s (Sys.bindx opt buf)); refresh) st1) as [[st2 l2] r].
      apply (Htried st2 buf st1 l1 l2 r He Hv Hb); [| done]. eauto.
  - pose proof (bindx_call_run s opt buf wrap_call refresh st Hb Hc) as Hrun. unfold mbind at 1, sys_bind at 1. cbn [mret sys_ret].
    destruct ((_ ← wrapped wrap_call (on s (Sys.bindx opt buf)); refresh) st) as [[st2 l2] r].
    by apply (Htried st2 buf st [] l2 r He Hv Hb).
Qed.
End Bindx.
