(* ===== verification/ConnLocks.v ===== *)
(** * The subscription lock and the bind lock (src/recv_linux.go, src/conn_linux.go)

    Subscribe changes the kernel's subscription and then the Conn's set,
    under subMu; BindAdd and BindRemove check what is bound, call bindx and
    read the addresses back into the Conn's snapshots, under bindMu.  The
    set and the snapshots are variables of the Conn beside the kernel.  The
    theorems: concurrent calls are the methods of ConnOptions.v and Conns.v
    one after the other, each on the variable the one before has left, so
    that an older change never replaces a newer one. *)
From Stdlib Require Import ZArith Lia Bool.
From stdpp Require Import base list option strings relations.
From coqutil Require Import Byte.
From S2P Require Import Prelude Close Abi Errors Enums Netip Sockaddr Options OptionCodecs MsgInfo Config Term Recv Addr Sys Apply Send ConnOptions Mutex Sockets CloseOps Conns.

Section Subscriptions.
Context `{A : Arch} `{ZE : ZoneEnv} `{K : Kernel} `{CS : ClosingSentinel}.

(** Subscribe between c.subMu.Lock() and its Unlock; the variable is
    c.subs. *)
Definition Subscribe_locked (c : Conn) (t : Z) (on : bool) : critical (proc * Z) done unit :=
  _ ← (if negb (t =? EventAssocChange) && negb (t =? EventPartialDelivery)
       then with_error (optionError c "set") (call (lift (sock_control (setEvent t on)))) else Leave (Ret tt));
  call (change (fun subs => if on then Z.lor subs (eventBit t) else Z.land subs (Z.lxor (eventBit t) MaxUint32))).

Definition subscribe_section (c : Conn) (p : critical (proc * Z) done unit) : Prop :=
  c_opened c = true /\ exists t on, known_type t = true /\ p = Subscribe_locked c t on.

Lemma Subscribe_performs c t on s subs :
  c_opened c = true -> known_type t = true ->
  run (Subscribe_locked c t on) (s, subs) = method (fun subs => Subscribe c subs t on) (s, subs).
Proof.
  intros Ho Ht. unfold Subscribe_locked, method, Subscribe, if_open. rewrite Ho, Ht. cbn [negb refuse_if].
  rewrite run_sequence. destruct (negb (t =? EventAssocChange) && negb (t =? EventPartialDelivery)).
  - unfold mbind at 1, sys_bind at 1. rewrite run_with_error. unfold wrapped at 1, caught at 1, mbind, sys_bind.
    rewrite run_call. unfold lift. unfold checked, wrapped, caught, mbind, sys_bind, pure. cbn.
    destruct (sock_control (setEvent t on) s) as [[s1 l] [x | e |]]; cbn; rewrite ?app_nil_r; [done | | done].
    destruct (optionError c "set" e); cbn; by rewrite ?app_nil_r.
  - done.
Qed.

(** Concurrent Subscribe calls on one Conn are the method one after the
    other: each changes the set the one before has left, together with the
    kernel's subscription, so that the two never end in different orders. *)
Theorem subscribe_serial c s subs w (Hw : rtc (scene_step (subscribe_section c)) (scene_start (s, subs)) w) :
  (exists s1, in_turn (s, subs) (history w) s1 /\ (mutex w = None -> store w = s1)) /\
  (forall m, m ∈ history w -> exists t on, forall s, run (cm_whole m) s = method (fun subs => Subscribe c subs t on) s).
Proof.
  destruct (scene_ok_reachable _ _ w Hw) as (s1 & Ht & Hs & _ & _ & _ & _ & Hh). split; [by exists s1 |].
  intros m Hm. destruct (Hh m Hm) as (Ho & t & on & Hk & ->). exists t, on. intros [p v]. by apply Subscribe_performs.
Qed.
End Subscriptions.

Section Binding.
Context `{A : Arch} `{AK : !ArchOk A} `{ZE : ZoneEnv} `{CS : ClosingSentinel} `{IT : IPText} `{H : Host}.
#[local] Abbreviation guarded := (critical (process * connection) action).

(** [return opError(...)], with the snapshot of the moment. *)
Definition fails_with (f : connection -> option error) : guarded unit :=
  c ← call load;
  Leave (match f c with Some e => Err e | None => Panic end).

(** refreshSnapshots, one step at a time. *)
Definition refreshSnapshots_locked (s : socket) (a : Z) : guarded unit :=
  l ← call (lift (caught (on s (getAddrs optGetLocalAddrs a))));
  _ ← call (change (fun c => set_addrs c (Some (snapshot_of l (cn_laddr c))) (cn_raddr c)));
  r ← call (lift (caught (on s (getAddrs optGetPeerAddrs a))));
  _ ← call (change (fun c => set_addrs c (cn_laddr c) (Some (snapshot_of r (cn_raddr c)))));
  if s_family s =? afInet6 then
    table ← call (lift (ask os_interfaces));
    call (change (fun c => set_scope c (linkLocalPathScope (list_IPs (cn_laddr c)) (list_IPs (cn_raddr c)) (interfaceHolders table))))
  else Leave (Ret tt).

Definition bindxError (e : error) (c : connection) : option error :=
  opError "bindx" (conn_network c) None (LocalAddr c) (Some e).
Definition bindxCallError (e : error) (c : connection) : option error :=
  optError "bindx" "setsockopt" (conn_network c) None (LocalAddr c) (Some e).

(** The call and the refresh. *)
Definition bindx_call (s : socket) (a opt : Z) (buf : bytes) : guarded unit :=
  r ← call (lift (caught (on s (Sys.bindx opt buf))));
  match r with
  | inr e => fails_with (bindxCallError e)
  | inl _ => if negb (a =? 0) then refreshSnapshots_locked s a else Leave (Ret tt)
  end.

(** bindx between c.bindMu.Lock() and its Unlock. *)
Definition bindx_locked (s : socket) (a opt : Z) (name : string) (ips : list Addr) (buf : bytes) : guarded unit :=
  if opt =? optSockoptBindxRemove then
    bound ← call (lift (caught (on s (getAddrs optGetLocalAddrs 0))));
    match bound with
    | inl bound =>
        if removesEveryAddress (IPs bound) ips
        then fails_with (bindxError (invalidArg (name +:+ " would remove every local address, which RFC 6458 §9.1 forbids")))
        else bindx_call s a opt buf
    | inr _ => bindx_call s a opt buf
    end
  else bindx_call s a opt buf.

(** One step and the rest. *)
Lemma run_lift_next {X Y} (m : io X) (k : X -> guarded Y) p c :
  run (call (lift m) ≫= k) (p, c) =
  let '(p, l, r) := m p in
  match r with
  | Ret x => let '(s, l2, r) := run (k x) (p, c) in (s, l ++ l2, r)
  | Err e => ((p, c), l, Err e)
  | Panic => ((p, c), l, Panic)
  end.
Proof.
  rewrite run_sequence. unfold mbind, sys_bind. rewrite run_call. unfold lift. by destruct (m p) as [[p' l] [x | e |]].
Qed.

Lemma run_change_next {Y} f (k : unit -> guarded Y) p c : run (call (change f) ≫= k) (p, c) = run (k tt) (p, f c).
Proof.
  rewrite run_sequence. unfold mbind, sys_bind. rewrite run_call. cbn. by destruct (run (k tt) (p, f c)) as [[? ?] ?].
Qed.

Lemma run_fails_with f p c :
  run (fails_with f) (p, c) = ((p, c), [], match f c with Some e => Err e | None => Panic end).
Proof. done. Qed.

(** The queries of a refresh return. *)
Lemma getAddrs_caught s opt a p :
  exists p' l r, caught (on s (getAddrs opt a)) p = (p', l, Ret r).
Proof.
  pose proof (fine_getAddrs (K := at_file (s_file s)) opt a) as Hf. unfold caught, on.
  specialize (Hf {| kern := (p_os p, p_closed p) : @Sys.world (at_file (s_file s)); storageLayoutCache := p_cache p |}).
  destruct (getAddrs opt a _) as [[st l] [x | e |]]; [by do 3 eexists | by do 3 eexists | done].
Qed.

Lemma io_next {X Y} (m : io X) (k : X -> io Y) p :
  (m ≫= k) p =
  let '(p, l, r) := m p in
  match r with
  | Ret x => let '(p, l2, r) := k x p in (p, l ++ l2, r)
  | Err e => (p, l, Err e)
  | Panic => (p, l, Panic)
  end.
Proof. done. Qed.

Lemma run_refreshSnapshots s a p c :
  sock c = s -> cn_assoc c = a ->
  run (refreshSnapshots_locked s a) (p, c) = method refreshSnapshots (p, c).
Proof.
  intros <- <-. unfold refreshSnapshots_locked, method, refreshSnapshots. rewrite run_lift_next, io_next.
  destruct (getAddrs_caught (sock c) optGetLocalAddrs (cn_assoc c) p) as (p1 & l1 & l & ->).
  rewrite run_change_next, run_lift_next, io_next.
  destruct (getAddrs_caught (sock c) optGetPeerAddrs (cn_assoc c) p1) as (p2 & l2 & r & ->).
  rewrite run_change_next. change (sock (set_addrs c _ _)) with (sock c).
  destruct (s_family (sock c) =? afInet6); [| done].
  rewrite run_lift_next, io_next. unfold ask. destruct (os_interfaces (p_os p2)) as [o table]. cbn. done.
Qed.

Lemma run_bindx_call s a opt buf p c :
  sock c = s -> cn_assoc c = a ->
  run (bindx_call s a opt buf) (p, c) =
  method (fun c => _ ← wrapped (fun e => bindxCallError e c) (on s (Sys.bindx opt buf));
                   if negb (a =? 0) then refreshSnapshots c else mret c) (p, c).
Proof.
  intros Hs Ha. unfold bindx_call. rewrite run_lift_next. unfold method. rewrite io_next. unfold wrapped. rewrite io_next.
  unfold caught. destruct (on s (Sys.bindx opt buf) p) as [[p1 l1] [x | e |]]; cbn [mret sys_ret].
  - destruct (negb (a =? 0)).
    + rewrite run_refreshSnapshots by done. unfold method. destruct (refreshSnapshots c p1) as [[p2 l2] [c' | e |]]; by rewrite app_nil_r.
    + cbn. by rewrite !app_nil_r.
  - rewrite run_fails_with. unfold fails. destruct (bindxCallError e c); cbn; by rewrite !app_nil_r.
  - done.
Qed.

(** What holds the bind lock is the method. *)
Lemma bindx_performs s a opt name ips buf p c :
  sock c = s -> cn_assoc c = a -> is_opened c = true -> bindxAddrs (s_family s) name ips = Ret buf ->
  run (bindx_locked s a opt name ips buf) (p, c) = method (fun c => Conn_bindx c opt name ips) (p, c).
Proof.
  intros Hs Ha Ho Hb. unfold bindx_locked, method, Conn_bindx, bindx_on. rewrite Ho, Hs, Hb, Ha. cbn [negb].
  rewrite io_next. unfold wrapped at 1. rewrite io_next. cbn [caught pure mret sys_ret app].
  pose proof (fun p => run_bindx_call s a opt buf p c Hs Ha) as Hcall. unfold method in Hcall.
  set (body := _ ← wrapped (fun e => bindxCallError e c) _; _) in Hcall.
  rewrite io_next. change (_ ← wrapped _ (on s (Sys.bindx opt buf)); _) with body.
  assert (Hrest : forall p l, (let '(s, l2, r) := run (bindx_call s a opt buf) (p, c) in (s, l ++ l2, r)) =
    match (let '(p, l2, r) := body p in (p, (l ++ []) ++ l2, r)) with
    | (s, l, Ret t) => ((s, t), l, Ret tt) | (s, l, Err e) => ((s, c), l, Err e) | (s, l, Panic) => ((s, c), l, Panic)
    end).
  { intros p' l. rewrite Hcall, app_nil_r. by destruct (body p') as [[p2 l2] [c' | e |]]. }
  destruct (opt =? optSockoptBindxRemove).
  - rewrite run_lift_next, io_next. destruct (getAddrs_caught s optGetLocalAddrs 0 p) as (p1 & l1 & [bound | e] & ->).
    + destruct (removesEveryAddress (IPs bound) ips).
      * rewrite run_fails_with. unfold fails, bindxError. destruct (opError _ _ _ _ _); done.
      * cbn [mret sys_ret]. rewrite Hrest. by destruct (body p1) as [[p2 l2] r2].
    + cbn [mret sys_ret]. rewrite Hrest. by destruct (body p1) as [[p2 l2] r2].
  - specialize (Hrest p []). cbn [mret sys_ret app] in *.
    destruct (run (bindx_call s a opt buf) (p, c)) as [[? ?] ?]. rewrite Hrest. by destruct (body p) as [[p2 l2] r2].
Qed.

(** ** The calls at the same time *)

(** The same connection, with other snapshots. *)
Definition same_conn (c c' : connection) : Prop :=
  cn_sock c' = cn_sock c /\ cn_assoc c' = cn_assoc c /\ cn_life c' = cn_life c.

Lemma refreshSnapshots_same c p p' l c' : refreshSnapshots c p = (p', l, Ret c') -> same_conn c c'.
Proof.
  unfold refreshSnapshots. rewrite io_next.
  destruct (getAddrs_caught (sock c) optGetLocalAddrs (cn_assoc c) p) as (p1 & l1 & a & ->). rewrite io_next.
  destruct (getAddrs_caught (sock c) optGetPeerAddrs (cn_assoc c) p1) as (p2 & l2 & b & ->).
  change (sock (set_addrs c _ _)) with (sock c). destruct (s_family (sock c) =? afInet6).
  - rewrite io_next. unfold ask. destruct (os_interfaces (p_os p2)) as [o table]. cbn. by intros [= _ _ <-].
  - cbn. by intros [= _ _ <-].
Qed.

Lemma Conn_bindx_same c opt name ips p p' l c' : Conn_bindx c opt name ips p = (p', l, Ret c') -> same_conn c c'.
Proof.
  unfold Conn_bindx. destruct (is_opened c); cbn [negb]; [| by unfold fails; case_match].
  unfold bindx_on. intros Hx. do 3 apply bind_ret_inv in Hx as (? & ? & ? & ? & _ & Hx & _).
  destruct (negb (cn_assoc c =? 0)); [by eapply refreshSnapshots_same | by injection Hx as _ _ <-].
Qed.

Definition bind_section (c : connection) (p : guarded unit) : Prop :=
  exists opt name ips buf, bindxAddrs (s_family (sock c)) name ips = Ret buf /\
    p = bindx_locked (sock c) (cn_assoc c) opt name ips buf.

Lemma bind_performs c p0 c' p :
  is_opened c = true -> bind_section c p -> same_conn c c' ->
  exists opt name ips, run p (p0, c') = method (fun c => Conn_bindx c opt name ips) (p0, c').
Proof.
  intros Ho (opt & name & ips & buf & Hb & ->) (E1 & E2 & E3). exists opt, name, ips.
  apply bindx_performs; [unfold sock; by rewrite E1 | done | | done].
  unfold is_opened in *. by rewrite E1, E3.
Qed.

Lemma method_same c opt name ips s s' l r :
  method (fun c => Conn_bindx c opt name ips) s = (s', l, r) -> same_conn c s.2 -> same_conn c s'.2.
Proof.
  destruct s as [p c1]. unfold method. destruct (Conn_bindx c1 opt name ips p) as [[p2 l2] [c2 | e |]] eqn:E;
    intros [= <- _ _]; [| done..]. intros (E1 & E2 & E3). apply Conn_bindx_same in E as (F1 & F2 & F3).
  unfold same_conn. cbn in *. by rewrite F1, F2, F3.
Qed.

(** BindAdd and BindRemove one after the other, each on the connection the
    one before has left. *)
Inductive binds_in_turn (s : process * connection) :
  list (commit (S := process * connection) (L := action) (X := unit)) -> process * connection -> Prop :=
| BindsNil : binds_in_turn s [] s
| BindsSnoc h s1 m s2 opt name ips :
    binds_in_turn s h s1 ->
    method (fun c => Conn_bindx c opt name ips) s1 = (s2, cm_made m, cm_result m) ->
    binds_in_turn s (h ++ [m]) s2.

Lemma in_turn_binds c p h s1 :
  is_opened c = true -> (forall m, m ∈ h -> bind_section c (cm_whole m)) -> in_turn (p, c) h s1 ->
  binds_in_turn (p, c) h s1 /\ same_conn c s1.2.
Proof.
  intros Ho Hh Ht. induction Ht as [| h s1 m s2 _ IH Hr]; [by split; [constructor |] |].
  destruct IH as [IH H1]; [intros; apply Hh, elem_of_app; by left |].
  destruct s1 as [p1 c1]. destruct (bind_performs c p1 c1 (cm_whole m) Ho) as (opt & name & ips & E); [| done |].
  { apply Hh, elem_of_app. right. constructor. }
  rewrite E in Hr. split; [by eapply BindsSnoc | by eapply method_same].
Qed.

(** Concurrent BindAdd and BindRemove calls on one Conn are the methods one
    after the other: the check of a removal, the bindx and the snapshots
    read after it are never mixed with another call's, so an older refresh
    never replaces the snapshot a newer one stored. *)
Theorem bind_serial c p w (Ho : is_opened c = true)
    (Hw : rtc (scene_step (bind_section c)) (scene_start (p, c)) w) :
  exists s1, binds_in_turn (p, c) (history w) s1 /\ same_conn c s1.2 /\ (mutex w = None -> store w = s1).
Proof.
  destruct (scene_ok_reachable _ _ w Hw) as (s1 & Ht & Hs & _ & _ & _ & _ & Hh). exists s1.
  destruct (in_turn_binds c p (history w) s1 Ho Hh Ht). by split_and!.
Qed.
End Binding.
