(* ===== verification/Dial.v ===== *)
(** * Dialing (src/dial_linux.go)

    Dial: the checks, one attempt (a new socket, set up, bound, connected and
    waited for), and the loop that undoes a connection of the socket to
    itself.

    The wait for the association goes through the runtime poller and can
    last; [wakes] bounds how many of its wake-ups are looked at, and [None]
    is a Dial that is still waiting then.  The callback of context.AfterFunc
    moves the read deadline into the past; that it has done so by the time
    the wait is over is what [os_stop] reports.  The test hooks are nil.

    The theorems: Dial neither leaks nor double-closes a descriptor, with
    none left after an error and exactly one after a success; it makes at
    most three attempts, and never returns a connection to itself when the
    kernel chose the port; and what a wait concludes from the socket. *)
From Stdlib Require Import ZArith Lia Bool.
From stdpp Require Import base list option strings.
From coqutil Require Import Byte.
From S2P Require Import Prelude Abi Errors Enums Netip Sockaddr Options MsgInfo Config Term Recv Addr Sys Apply Send ConnOptions Close Sockets CloseOps Conns.

Definition EINPROGRESS : Z := 115.
Definition EALREADY : Z := 114.
Definition ECONNREFUSED : Z := 111.
Definition MSG_PEEK : Z := 0x2.

(** ** connectx *)
Definition connectxLength (n : Z) : out error Z :=
  if (n <=? 0) || (MaxInt32 <? n) then Err (invalidArg "packed connectx address length %d is outside 1-%d") else Ret n.

Section Connectx.
Context `{A : Arch} `{K : Kernel}.

(** struct sctp_getaddrs_old: the id, the length in bytes, and a pointer,
    which stands here for the addresses it points to. *)
Definition connectx3Arg (addrs : bytes) (n : Z) : bytes := bytes_of NativeEndian 4 0 ++ bytes_of NativeEndian 4 (u32 n) ++ addrs.

(** A getsockopt whose buffer is looked at whatever the errno. *)
Definition getsockopt_arg (opt : Z) (b : bytes) : sys (Z * bytes) := sock_control (fun s =>
  let '(w, (errno, (r, l))) := k_getsockopt (kern s) ipprotoSCTP opt b in
  ({| kern := w; storageLayoutCache := storageLayoutCache s |},
   [Did (Getsockopt ipprotoSCTP opt b) errno (if errno =? 0 then reply_into b r else [])], Ret (errno, reply_into b r))).

(** The id, and the error. *)
Definition connectxID (addrs : bytes) : sys (Z * option error) :=
  match connectxLength (len addrs) with
  | Err e => mret (0, Some e)
  | Panic => pure Panic
  | Ret n =>
      r ← caught (getsockopt_arg optSockoptConnectx3 (connectx3Arg addrs n));
      match r with
      | inr closed => mret (0, Some closed)
      | inl (errno, arg) =>
          if negb (errno =? 0) && negb (errno =? EINPROGRESS) then mret (0, Some (errno_error errno)) else
          id ← pure (get_at NativeEndian 4 arg 0);
          mret (i32 id, if errno =? 0 then None else Some (errno_error errno))
      end
  end.

Definition connectx (addrs : bytes) : sys (option error) := '(_, err) ← connectxID addrs; mret err.

Definition setDialRTOInitial (initialMS : Z) (what : string) : sys unit :=
  b ← pure (put_at NativeEndian 4 (zeros sizeRTOInfo) rtoInfoInitialOff initialMS);
  wrapped (fun e => Some (Wrapf ("sctp: " +:+ what +:+ " Config.SetupRTOInitial: %w") (SyscallErr "setsockopt" e)))
    (setsockopt optRTOInfo b).

Definition readRTOInitial : sys Z :=
  '(b, _) ← wrapped (fun e => Some (Wrapf "sctp: reading RTO.Initial for Config.SetupRTOInitial: %w" (SyscallErr "getsockopt" e)))
              (getsockopt optRTOInfo (zeros sizeRTOInfo));
  pure (get_at NativeEndian 4 b rtoInfoInitialOff).
End Connectx.

(** ** Waiting for the association *)
Section Await.
Context `{A : Arch} `{H : Host}.

Definition u16_at (b : bytes) (off : Z) : Z := uint_of NativeEndian (sub b off 2).

(** The slices of the condition are in range once len(b) >= 12. *)
Definition setupFailedNotification (b : bytes) (flags : Z) : bool :=
  (12 <=? len b) && negb (Z.land flags msgNotification =? 0) &&
  (u16_at b assocChangeTypeOff =? EventAssocChange) && (u16_at b assocChangeStateOff =? AssocCantStart).

Definition failedSetupError (fd : Z) : io error :=
  r ← caught (on_fd fd (GetsockoptInt SOL_SOCKET SO_ERROR));
  match r with
  | inr err => mret (SyscallErr "getsockopt" err)
  | inl soerr => mret (SyscallErr "sctp_connectx" (Plain (Errno (if soerr =? 0 then ECONNREFUSED else soerr))))
  end.

(** What a look at the socket finds: nothing yet ([None]), established
    ([Some None]), or failed. *)
Definition verdict : Type := option (option error).

Definition check (fd : Z) : io verdict :=
  r ← caught (on_fd fd (GetsockoptInt SOL_SOCKET SO_ERROR));
  match r with
  | inr err => mret (Some (Some (SyscallErr "getsockopt" err)))
  | inl soerr =>
      if negb (soerr =? 0) then mret (Some (Some (SyscallErr "sctp_connectx" (Plain (Errno soerr))))) else
      r ← caught (on_fd fd (rawGetsockopt ipprotoSCTP optStatus (zeros sizeStatus)));
      match r with
      | inl _ => mret (Some None)
      | inr (Plain (Errno errno)) =>
          if negb (errno =? EINVAL) then mret (Some (Some (SyscallErr "getsockopt" (Plain (Errno errno))))) else
          r ← caught (sys_call (c_recvmsg fd 12 (Z.lor MSG_PEEK MSG_DONTWAIT)));
          match r with
          | inr _ => mret None
          | inl (flags, data) =>
              let b := take 12 data in
              if (0 <? len b) || negb (Z.land flags msgNotification =? 0) then
                if setupFailedNotification b flags then err ← failedSetupError fd; mret (Some (Some err))
                else mret (Some None)
              else mret None
          end
      | inr err => mret (Some (Some (SyscallErr "getsockopt" err)))
      end
  end.

(** [cancellable]: ctx.Done() != nil.  The callback of AfterFunc, when it
    has started, has moved the deadline before the wait goes on. *)
Definition stop_interrupt (cancellable : bool) (f : file) : io unit :=
  if cancellable then
    stopped ← ask os_stop;
    if (stopped : bool) then mret tt else ignore (File_SetDeadline f (Some aLongTimeAgo))
  else mret tt.

Definition awaitEstablished (wakes : nat) (cancellable : bool) (s : socket) : io (option unit) :=
  r ← caught (raw_Read wakes (s_file s) (check (s_fd s)));
  match r with
  | inl None => mret None
  | inl (Some v) =>
      _ ← stop_interrupt cancellable (s_file s);
      match v with
      | Some failed => fails (Some failed)
      | None => _ ← File_SetDeadline (s_file s) None; mret (Some tt)
      end
  | inr err =>
      _ ← stop_interrupt cancellable (s_file s);
      v ← caught (control s (check (s_fd s)));
      match v with
      | inl (Some (Some failed)) => fails (Some failed)
      | inl (Some None) => _ ← File_SetDeadline (s_file s) None; mret (Some tt)
      | _ =>
          if errors_Is err ErrDeadlineExceeded then
            cerr ← ask os_ctx_err;
            fails (Some (default err cerr))
          else fails (Some err)
      end
  end.

Definition connectSocket (wakes : nat) (cancellable : bool) (s : socket) (bind : option bytes) (peer : bytes) : io (option unit) :=
  _ ← match bind with
      | Some b => wrapped (in_call "sctp_bindx") (on s (Sys.bindx optSockoptBindxAdd b))
      | None => mret tt
      end;
  err ← on s (connectx peer);
  match err with
  | Some e =>
      if match e with Plain (Errno n) => (n =? EINPROGRESS) || (n =? EALREADY) | _ => false end
      then awaitEstablished wakes cancellable s
      else fails (in_call "sctp_connectx" e)
  | None => awaitEstablished wakes cancellable s
  end.
End Await.

(** ** Self-connection *)
Definition peerIsLocal (peer local : Addr) : bool :=
  bool_decide (peer = local) ||
  (bool_decide (Zone peer = "") && IsLinkLocalUnicast peer && bool_decide (peer = WithZone local "")).

Definition selfConnected (c : connection) : bool :=
  match cn_laddr c, cn_raddr c with
  | Some l, Some r =>
      if (Port l =? 0) || negb (Port l =? Port r) || (len (IPs r) =? 0) then false
      else forallb (fun peer => existsb (peerIsLocal peer) (IPs l)) (IPs r)
  | _, _ => false
  end.

(** ** Attempts *)
Definition maxSelfConnectRetries : nat := 2.

Section Dial.
Context `{A : Arch} `{ZE : ZoneEnv} `{CS : ClosingSentinel} `{IT : IPText} `{H : Host}.

Record dialAttempt := {
  d_network : string;
  d_family : Z;
  d_address : string;
  d_control : option hook;
  d_p : prepared;
  d_bind : option bytes;
  d_peer : bytes;
}.

Definition dial_setup (d : dialAttempt) (s : socket) : io Z :=
  _ ← setupSocket s (d_address d) (d_control d) (p_ops (d_p d));
  if p_setupRTOInitialMS (d_p d) =? 0 then mret 0 else
  lasting ← on s readRTOInitial;
  _ ← on s (setDialRTOInitial (p_setupRTOInitialMS (d_p d)) "applying");
  mret lasting.

Definition abandonDial (s : socket) (policy : Z) : io unit :=
  if policy =? AbandonQuiet then release s else
  err ← abortive s;
  match err with Some e => fails (Some e) | None => mret tt end.

Definition dial_run (wakes : nat) (cancellable : bool) (d : dialAttempt) : io (option connection) :=
  cerr ← ask os_ctx_err;
  match cerr with
  | Some e => fails (Some e)
  | None =>
      s ← newSocket (d_family d) (d_network d);
      r ← caught (lasting ← dial_setup d s;
                  w ← connectSocket wakes cancellable s (d_bind d) (d_peer d);
                  mret (lasting, w));
      match r with
      | inr err => _ ← ignore (abandonDial s (p_abandon (d_p d))); fails (Some err)
      | inl (_, None) => mret None
      | inl (lasting, Some _) =>
          err ← (if negb (p_setupRTOInitialMS (d_p d) =? 0)
                 then err_of (on s (setDialRTOInitial lasting "restoring RTO.Initial after")) else mret None);
          match err with
          | Some e => _ ← ignore (abortive s); fails (Some e)
          | None => c ← newConn s kindDialed (d_p d); mret (Some c)
          end
      end
  end.

(** An Abort of a Conn nobody else has takes 13 steps. *)
Definition abort_fuel : nat := 20.

Fixpoint dial_loop (retries : nat) (wakes : nat) (cancellable guard : bool) (d : dialAttempt) : io (option connection) :=
  r ← dial_run wakes cancellable d;
  match r with
  | None => mret None
  | Some c =>
      if negb guard || negb (selfConnected c) then mret (Some c) else
      _ ← ignore (Abort abort_fuel (Some c));
      match retries with
      | O => fails (in_call "sctp_connectx" (Plain (Errno ECONNREFUSED)))
      | S retries => dial_loop retries wakes cancellable guard d
      end
  end.

(** [ctx] is nil, or says whether it can be done.  [control_of] is the
    function a Config's Control is. *)
Definition dial (control_of : funcval -> hook) (wakes : nat) (ctx : option bool) (c : option Config) (network : string)
    (laddr raddr : option SctpAddr) : io (option connection) :=
  match ctx with
  | None => fails (Some (invalidArg "Dial needs a non-nil context"))
  | Some cancellable =>
      match raddr with
      | None => fails (Some (invalidArg "Dial needs a remote address with at least one IP"))
      | Some ra =>
          if len (IPs ra) =? 0 then fails (Some (invalidArg "Dial needs a remote address with at least one IP")) else
          if Port ra =? 0 then fails (Some (invalidArg "Dial needs a non-zero remote port (RFC 9260 §3.1)")) else
          family ← socketFamily network laddr raddr;
          p ← pure (prepare c styleDial);
          bind ← pure (match laddr with Some la => b ← localBindAddrs family la; Ret (Some b) | None => Ret None end);
          peer ← pure (encodeAddrs family (IPs ra) (Port ra));
          let ctl := match c with Some c => control_of <$> cfg_Control c | None => None end in
          let d := {| d_network := canonicalName network; d_family := family; d_address := SctpAddr_String raddr; d_control := ctl;
                      d_p := p; d_bind := bind; d_peer := peer |} in
          let guard := match laddr with None => true | Some la => Port la =? 0 end in
          dial_loop maxSelfConnectRetries wakes cancellable guard d
      end
  end.

Definition Dial (control_of : funcval -> hook) (wakes : nat) (ctx : option bool) (c : option Config) (network : string)
    (laddr raddr : option SctpAddr) : io (option connection) :=
  wrapped (fun e => opError "dial" (canonicalName network) (net_Addr laddr) (net_Addr raddr) (Some e))
    (dial control_of wakes ctx c network laddr raddr).

(** The function of the package: a nil Config. *)
Definition sctp_Dial (control_of : funcval -> hook) (wakes : nat) (ctx : option bool) (network : string) (laddr raddr : option SctpAddr)
    : io (option connection) := Dial control_of wakes ctx None network laddr raddr.
End Dial.

(** ** The descriptor of a Dial *)
Section Parts.
Context `{A : Arch} `{AK : !ArchOk A} `{ZE : ZoneEnv}.

Lemma emits_getsockopt_arg `{K : Kernel} opt b Q :
  (forall errno b', len b' = len b -> Q [Did (Getsockopt ipprotoSCTP opt b) errno (if errno =? 0 then b' else [])] (Ret (errno, b'))) ->
  Q [] (Err (Plain NetErrClosed)) -> emits (getsockopt_arg opt b) Q.
Proof.
  intros HQ Hc. apply emits_control; [| done]. intros s. destruct (k_getsockopt (kern s) ipprotoSCTP opt b) as [w [errno [r n]]].
  apply HQ, len_reply_into.
Qed.

Lemma fine_connectxID `{K : Kernel} addrs : emits (connectxID addrs) (fun l r => Forall no_peel l /\ exists id e, r = Ret (id, e)).
Proof.
  unfold connectxID, connectxLength. destruct (_ || _); [apply emits_ret; by eauto |].
  apply emits_bind, emits_caught, emits_getsockopt_arg; [| apply emits_ret; by eauto].
  intros errno arg Harg. set (l := [_]). assert (Hl : Forall no_peel l) by (constructor; [by destruct errno | constructor]). cbn [then_].
  destruct (_ && _); [apply emits_ret; by rewrite app_nil_r; eauto |].
  assert (Ha : 8 <= len arg).
  { rewrite Harg. unfold connectx3Arg. rewrite !len_app, !len_bytes_of. pose proof (len_nonneg addrs). lia. }
  apply emits_pure_bind. rewrite get_at_ok by (cbn; lia). apply emits_ret. rewrite app_nil_r. by eauto.
Qed.

Lemma calm_connectx `{K : Kernel} addrs : calm (connectx addrs) no_panic.
Proof.
  apply emits_bind. eapply emits_mono; [apply fine_connectxID |]. intros l r (Hl & id & e & ->). apply emits_ret. by rewrite app_nil_r.
Qed.

Lemma calm_setDialRTO `{K : Kernel} v what : calm (setDialRTOInitial v what) no_panic.
Proof.
  apply calm_quiet; [unfold setDialRTOInitial, setsockopt, setsockoptAt; hush |]. apply emits_pure_bind. abi. rewrite put_first by lia.
  apply emits_wrapped, emits_control; [| done]. apply emits_set; [rewrite !len_app, len_bytes_of, !len_zeros by lia; lia |].
  intros errno. unfold set_outcome. by destruct (errno =? 0).
Qed.

Lemma calm_readRTO `{K : Kernel} : calm readRTOInitial no_panic.
Proof.
  apply calm_quiet; [unfold readRTOInitial, getsockopt, getsockoptAt; hush |].
  apply emits_bind, emits_wrapped, emits_control; [| done]. apply emits_get; [rewrite len_zeros; abi; lia |]. intros errno b n Hb.
  rewrite len_zeros in Hb by (abi; lia). destruct (errno =? 0); cbn [then_]; [| done]. rewrite get4_ok by (abi; lia). by apply emits_pure.
Qed.

Context `{H : Host} `{HO : !HostOk}.

(** A function that makes calls on the descriptors it has. *)
Definition stays {X} (g : held) (r : out error X) (g' : held) : Prop := no_panic r /\ g' = g.

Lemma runs_SO_ERROR g fd Q :
  fd ∈ owned g -> (forall r, no_panic r -> Q r g) -> runs g (on_fd fd (GetsockoptInt SOL_SOCKET SO_ERROR)) Q.
Proof.
  intros Ho HQ. eapply runs_on_fd; [done | | exact HQ]. apply calm_quiet; [| apply fine_GetsockoptInt].
  apply quiet_GetsockoptInt. pose proof sol_socket_ne as Hn. by rewrite (proj2 (Z.eqb_neq _ _) Hn).
Qed.

Lemma runs_check g fd :
  fd ∈ owned g -> runs g (check fd) (fun r g' => (exists v, r = Ret v) /\ g' = g).
Proof.
  intros Ho. apply runs_bind, runs_caught, runs_SO_ERROR; [done |]. intros [soerr | e |] Hp; cbn [next_runs]; [| apply runs_ret; eauto | done].
  destruct (negb _); [apply runs_ret; eauto |]. apply runs_bind, runs_caught.
  eapply (runs_on_fd _ _ _ no_panic); [done | |].
  { apply calm_quiet; [by apply quiet_get |]. apply emits_get; [rewrite len_zeros; abi; lia |]. intros errno b n Hb. by destruct (errno =? 0). }
  intros [x | e |] Hp'; cbn [next_runs]; [apply runs_ret; eauto | | done].
  destruct e as [[n | n] | | | | | | |]; try (apply runs_ret; by eauto).
  destruct (negb _); [apply runs_ret; by eauto |]. apply runs_bind, runs_caught, runs_call; [done | done | by apply bool_decide_eq_true_2 |].
  intros [[flags data] | e |] Hp''; cbn [next_runs]; [| apply runs_ret; by eauto | done].
  destruct (_ || _); [| apply runs_ret; by eauto]. destruct (setupFailedNotification _ _); [| apply runs_ret; by eauto].
  apply runs_bind, runs_bind, runs_caught, runs_SO_ERROR; [done |].
  intros [v | e |] Hq; cbn [next_runs]; [apply runs_ret; cbn [next_runs]; apply runs_ret; by eauto.. | done].
Qed.
End Parts.

Section Ownership.
Context `{A : Arch} `{AK : !ArchOk A} `{ZE : ZoneEnv} `{CS : ClosingSentinel} `{IT : IPText} `{H : Host} `{HO : !HostOk}.

Lemma runs_deadline_stays {X} g f t (x : X) : runs g (_ ← File_SetDeadline f t; mret x) (stays g).
Proof. apply runs_bind, runs_SetDeadline. intros [u | e |] Hp; cbn [next_runs]; [by apply runs_ret | done | done]. Qed.

Lemma runs_stop {X} g cancellable f (k : io X) : runs g k (stays g) -> runs g (_ ← stop_interrupt cancellable f; k) (stays g).
Proof.
  intros Hk. apply runs_bind. unfold stop_interrupt. destruct cancellable; [| by apply runs_ret]. apply runs_bind, runs_ask.
  intros []; cbn [next_runs]; [by apply runs_ret |]. apply runs_ignore, runs_SetDeadline. by intros [u | e |] Hp; cbn [next_runs].
Qed.

Lemma runs_awaitEstablished g wakes cancellable s :
  s_fd s ∈ owned g -> runs g (awaitEstablished wakes cancellable s) (stays g).
Proof.
  intros Ho. pose proof (runs_check g (s_fd s) Ho) as Hcheck.
  assert (Hfail : forall e, runs g (fails (X := option unit) (Some e)) (stays g)) by (intros e; by apply runs_fails).
  apply runs_bind, runs_caught, runs_raw_Read.
  - eapply runs_mono; [exact Hcheck |]. intros r g' [[[v |] ->] ->]; cbn [next_runs]; [| done].
    apply runs_stop. destruct v; [apply Hfail | apply runs_deadline_stays].
  - cbn [next_runs]. by apply runs_ret.
  - intros err. cbn [next_runs]. apply runs_stop, runs_bind, runs_caught, runs_control.
    + eapply runs_mono; [exact Hcheck |]. intros r g' [[[[failed |] |] ->] ->]; cbn [next_runs]; [apply Hfail | apply runs_deadline_stays |].
      destruct (errors_Is _ _); [apply runs_bind, runs_ask; intros c; apply Hfail | apply Hfail].
    + cbn [next_runs]. destruct (errors_Is _ _); [apply runs_bind, runs_ask; intros c; apply Hfail | apply Hfail].
Qed.

Lemma runs_connectSocket g wakes cancellable s bind peer :
  s_fd s ∈ owned g -> (forall b, bind = Some b -> 0 < len b) -> runs g (connectSocket wakes cancellable s bind peer) (stays g).
Proof.
  intros Ho Hb. apply runs_bind.
  assert (Hbind : runs g match bind with Some b => wrapped (in_call "sctp_bindx") (on s (Sys.bindx optSockoptBindxAdd b)) | None => mret tt end (stays g)).
  { destruct bind as [b |]; [| by apply runs_ret]. apply runs_wrapped; [done |]. eapply (runs_on _ _ _ no_panic); [done | |].
    - apply calm_quiet; [apply quiet_control, quiet_set |]. eapply emits_mono; [apply bindx_emits; by apply Hb |].
      intros l r [[-> ->] | (errno & -> & ->)]; [done |]. unfold set_outcome. by destruct (errno =? 0).
    - intros [u | e |] Hp; [done | | done]. by intros e' _. }
  eapply runs_mono; [exact Hbind |]. intros [u | e |] g' [Hp ->]; cbn [next_runs]; [| done | done].
  apply runs_bind. eapply (runs_on _ _ _ no_panic); [done | apply calm_connectx |]. intros [err | e |] Hp'; cbn [next_runs]; [| done | done].
  pose proof (runs_awaitEstablished g wakes cancellable s Ho) as Hwait.
  destruct err as [e |]; [| exact Hwait]. destruct (match e with Plain (Errno n) => _ | _ => _ end); [exact Hwait | by apply runs_fails].
Qed.

(** ** Attempts *)
Lemma runs_dial_setup g d s Q :
  held_wf g -> has g s -> hook_ok (d_control d) -> (forall r g', kept_by g r g' -> Q r g') -> runs g (dial_setup d s) Q.
Proof.
  intros Hw Hs Hh HQ. apply runs_bind, runs_setupSocket; [done | done | done |].
  intros [u | e |] g1 [Hp Hk]; cbn [next_runs]; [| by apply HQ | done].
  destruct (_ =? 0); [by apply runs_ret, HQ |]. pose proof (has_keeps _ _ _ Hs Hk) as (Ho & _).
  apply runs_bind. eapply (runs_on _ _ _ no_panic); [done | apply calm_readRTO |]. intros [v | e |] Hp'; cbn [next_runs]; [| by apply HQ | done].
  apply runs_bind. eapply (runs_on _ _ _ no_panic); [done | apply calm_setDialRTO |].
  intros [u' | e |] Hp''; cbn [next_runs]; [by apply runs_ret, HQ | by apply HQ | done].
Qed.

(** What an attempt, and a Dial, leaves: the Conn with its descriptor, the
    descriptor of a setup that is still under way, or nothing. *)
Definition dialed_or (g : held) (r : out error (option connection)) (g' : held) : Prop :=
  match r with
  | Ret (Some c) => conn_or g (Ret c) g'
  | Ret None => exists s, hands g s g'
  | Err _ => keeps g g'
  | Panic => False
  end.

Lemma runs_abandon g s policy g' Q :
  held_wf g -> hands g s g' -> (forall g'', keeps g g'' -> Q (Ret tt) g'') -> runs g' (ignore (abandonDial s policy)) Q.
Proof.
  intros Hw Hh HQ. apply runs_ignore. unfold abandonDial. destruct (_ =? _).
  - apply (runs_give_back g s); [done | done |]. intros [x | e |] g'' Hp Hk; [by apply HQ.. | done].
  - apply runs_bind, (runs_abortive g); [done | done |]. intros [e |] g'' Hk; cbn [next_runs]; [by apply runs_fails, HQ | by apply runs_ret, HQ].
Qed.

Lemma runs_dial_run g wakes cancellable d Q :
  held_wf g -> hook_ok (d_control d) -> (forall b, d_bind d = Some b -> 0 < len b) ->
  (forall r g', dialed_or g r g' -> Q r g') -> runs g (dial_run wakes cancellable d) Q.
Proof.
  intros Hw Hh Hb HQ. apply runs_bind, runs_ask. intros [e |]; cbn [next_runs]; [by apply runs_fails, HQ, keeps_refl |].
  apply runs_bind, runs_openSocket; [done |]. intros [s | e |] g1 Ho; cbn [next_runs opened_or] in *; [| by apply HQ | done].
  assert (Hfail : forall e g2, hands g s g2 -> runs g2 (_ ← ignore (abandonDial s (p_abandon (d_p d))); fails (Some e)) Q).
  { intros e g2 H2. apply runs_bind, (runs_abandon g); [done | done |]. intros g3 Hk. cbn [next_runs]. by apply runs_fails, HQ. }
  apply runs_bind, runs_caught, runs_bind, runs_dial_setup; [by apply Ho | by eapply hands_has | done |].
  intros [lasting | e |] g2 [Hp Hk]; cbn [next_runs]; [| by apply Hfail; eapply hands_keeps | done].
  pose proof (hands_keeps _ _ _ _ Ho Hk) as H2. pose proof (hands_has _ _ _ H2) as (Hs & _).
  apply runs_bind. eapply runs_mono; [by apply runs_connectSocket |].
  intros [[u |] | e |] g3 [Hp' ->]; cbn [next_runs]; [| apply runs_ret; cbn [next_runs]; apply runs_ret, HQ; by exists s | by apply Hfail | done].
  apply runs_ret. cbn [next_runs]. apply runs_bind.
  assert (Hnew : runs g2 (c ← newConn s kindDialed (d_p d); mret (Some c)) Q).
  { apply runs_bind, (runs_newConn g); [done | done |]. intros [c | e |] g4 Hc; cbn [next_runs]; [by apply runs_ret, HQ | by apply HQ | done]. }
  destruct (negb _); [| apply runs_ret; exact Hnew]. apply runs_err_of. eapply (runs_on _ _ _ no_panic); [done | apply calm_setDialRTO |].
  intros [u' | e |] Hp''; cbn [next_runs]; [exact Hnew | | done].
  apply runs_bind, runs_ignore, (runs_abortive g); [done | done |]. intros e' g4 Hk'. cbn [next_runs]. by apply runs_fails, HQ.
Qed.

Lemma runs_Abort g g' c Q :
  held_wf g -> conn_or g (Ret c) g' -> (forall r g'', no_panic r -> keeps g g'' -> Q r g'') -> runs g' (Abort abort_fuel (Some c)) Q.
Proof.
  intros Hw (_ & Hh & Hl) HQ. apply runs_bind, runs_bind. rewrite Hl.
  eapply runs_mono; [apply (runs_drive_call k_sock CallAbort 0 (newCloseOps c) g g' abort_fuel Hw Hh); by apply Nat.ltb_lt |].
  intros r g'' (st' & l' & res & -> & _ & _ & Hk). cbn [next_runs]. apply runs_ret. cbn [next_runs]. by apply runs_ret, HQ.
Qed.

Lemma runs_dial_loop retries g wakes cancellable guard d Q :
  held_wf g -> hook_ok (d_control d) -> (forall b, d_bind d = Some b -> 0 < len b) ->
  (forall r g', dialed_or g r g' -> (forall c, r = Ret (Some c) -> guard = true -> selfConnected c = false) -> Q r g') ->
  runs g (dial_loop retries wakes cancellable guard d) Q.
Proof.
  intros Hw Hh Hb. revert g Hw. induction retries as [| retries IH]; intros g Hw HQ; cbn [dial_loop];
    (apply runs_bind, runs_dial_run; [done | done | done |]); (intros [[c |] | e |] g1 Hr; cbn [next_runs]; [| by apply runs_ret, HQ | by apply HQ | done]).
  all: destruct (negb guard || negb (selfConnected c)) eqn:Hg; [apply runs_ret, HQ; [done |]; intros ? [= <-] ->; by destruct (selfConnected c) |].
  all: apply runs_bind, runs_ignore, (runs_Abort g); [done | done |].
  - intros [x | e |] g2 Hp Hk; cbn [next_runs]; [by apply runs_fails, HQ.. | done].
  - intros [x | e |] g2 Hp Hk; cbn [next_runs]; [| | done]; (apply IH; [by apply Hk |]; intros r g3 Hr3 Hs; apply HQ; [| done]);
      (destruct r as [[c' |] | e' |]; [| | | done]; cbn in *; [destruct Hr3 as (? & ? & ?); split_and!; [done | by eapply keeps_hands | done] |
        destruct Hr3 as [s Hs']; exists s; by eapply keeps_hands | by eapply keeps_trans]).
Qed.
End Ownership.

(** ** What Dial leaves *)
Section Theorems.
Context `{A : Arch} `{AK : !ArchOk A} `{ZE : ZoneEnv} `{CS : ClosingSentinel} `{IT : IPText} `{H : Host}.

Lemma localBindAddrs_ok family la :
  Forall addr_wf (IPs la) -> match localBindAddrs family la with Ret b => 0 < len b | Err _ => True | Panic => False end.
Proof.
  intros Hwf. unfold localBindAddrs.
  assert (He : forall ips, Forall addr_wf ips -> ips <> [] ->
    match encodeAddrs family ips (Port la) with Ret b => 0 < len b | Err _ => True | Panic => False end).
  { intros ips Hips Hne. pose proof (encodeAddrs_outcome family ips (Port la) Hips) as Ho.
    destruct (encodeAddrs family ips (Port la)) as [b | e |]; [| done | done]. destruct Ho as (_ & _ & Hl & Hs).
    destruct ips as [| ip ips]; [done |]. rewrite len_cons in Hl. pose proof (len_nonneg ips). nia. }
  destruct (Z.eqb_spec (len (IPs la)) 0) as [E | E]; cbn [negb].
  - apply He; [| done]. constructor; [| constructor]. by destruct (_ =? _).
  - assert (Hne : IPs la <> []) by (by destruct (IPs la)). destruct (validateLocalIPs _ _); [done |]. cbn. by apply He.
Qed.

Definition wf_addr (a : option SctpAddr) : Prop := Forall addr_wf (list_IPs a).

Definition kernel_port (laddr : option SctpAddr) : bool := match laddr with None => true | Some la => Port la =? 0 end.

Lemma runs_dial `{HO : !HostOk} control_of wakes ctx c network laddr raddr g Q :
  held_wf g -> (forall f, hook_ok (Some (control_of f))) -> wf_addr laddr -> wf_addr raddr ->
  (forall r g', dialed_or g r g' -> (forall cn, r = Ret (Some cn) -> kernel_port laddr = true -> selfConnected cn = false) -> Q r g') ->
  runs g (dial control_of wakes ctx c network laddr raddr) Q.
Proof.
  intros Hw Hh Hl Hr HQ. assert (Herr : forall e, Q (Err e) g) by (intros e; by apply HQ; [apply keeps_refl |]).
  unfold dial. destruct ctx as [cancellable |]; [| by apply runs_fails]. destruct raddr as [ra |]; [| by apply runs_fails].
  destruct (_ =? 0); [by apply runs_fails |]. destruct (Port ra =? 0); [by apply runs_fails |].
  apply runs_bind, runs_socketFamily. intros [family | e |] Hp; cbn [next_runs]; [| apply Herr | done].
  apply runs_bind, runs_pure. pose proof (prepare_total c styleDial) as Hp'. destruct (prepare c styleDial) as [p | e |]; cbn [next_runs]; [| apply Herr | done].
  apply runs_bind, runs_pure. set (bind := match laddr with Some la => b ← localBindAddrs family la; Ret (Some b) | None => Ret None end).
  assert (Hbind : match bind with Ret b => forall b', b = Some b' -> 0 < len b' | Err _ => True | Panic => False end).
  { unfold bind. clear bind. destruct laddr as [la |]; [| done]. pose proof (localBindAddrs_ok family la Hl) as Ho.
    destruct (localBindAddrs family la) as [b | e |]; [by intros b' [= <-] | done | done]. }
  destruct bind as [bind | e |]; cbn [next_runs]; [| apply Herr | done].
  apply runs_bind, runs_pure. pose proof (encodeAddrs_outcome family (IPs ra) (Port ra) Hr) as Ho.
  destruct (encodeAddrs family (IPs ra) (Port ra)) as [peer | e |]; cbn [next_runs]; [| apply Herr | done]. cbv zeta.
  apply runs_dial_loop; [done | | exact Hbind | exact HQ]. cbn. destruct c as [c |]; [| by intros h].
  destruct (cfg_Control c) as [f |]; [apply Hh | by intros h].
Qed.

(** C4 The descriptors of a Dial.  Whatever the kernel, the poller, the
    context and Config.Control do (Control leaving the descriptors as it
    found them): a Dial that fails has closed every descriptor it opened,
    each exactly once, on each of up to three attempts; one that succeeds
    leaves exactly one more, which is its Conn's, with the lifecycle open;
    one still waiting holds one.  It never panics, and never makes a call on
    a descriptor it does not hold.  When the kernel chose the local port,
    the Conn is not connected to itself. *)
Theorem dial_owns `{HO : !HostOk} control_of wakes ctx c network laddr raddr g
    (Hw : held_wf g) (Hh : forall f, hook_ok (Some (control_of f))) (Hl : wf_addr laddr) (Hr : wf_addr raddr) :
  runs g (Dial control_of wakes ctx c network laddr raddr) (fun r g' =>
    dialed_or g r g' /\ forall cn, r = Ret (Some cn) -> kernel_port laddr = true -> selfConnected cn = false).
Proof.
  apply runs_wrapped; [intros e; apply opError_some |]. apply runs_dial; [exact Hw | exact Hh | exact Hl | exact Hr |]. intros [cn | e |] g' Hd Hs; [by split | | done]. by intros e' _.
Qed.

(** ** The evidence a Dial returns on *)
Definition so_error_query : syscall := Getsockopt SOL_SOCKET SO_ERROR (zeros sizeInt).

(** One look at the socket: no socket error, and either SCTP_STATUS answers,
    or it answers EINVAL and a record other than CANT_STR_ASSOC is queued. *)
Inductive saw_established (fd : Z) : list action -> Prop :=
| saw_status so st : i32 (uint_of NativeEndian (sub so 0 4)) = 0 ->
    saw_established fd [AOpt fd (Did so_error_query 0 so); AOpt fd (Did status_query 0 st)]
| saw_record so flags data : i32 (uint_of NativeEndian (sub so 0 4)) = 0 ->
    take 12 data <> [] \/ Z.land flags msgNotification <> 0 -> setupFailedNotification (take 12 data) flags = false ->
    saw_established fd [AOpt fd (Did so_error_query 0 so); AOpt fd (Did status_query EINVAL []);
                        ACall (c_recvmsg fd 12 (Z.lor MSG_PEEK MSG_DONTWAIT)) 0 flags data].

Lemma on_fd_inv {X} fd (m : logged (@proc (at_fd fd)) Sys.done X) st st' l r :
  on_fd fd m st = (st', l, r) -> exists p p' l0, m p = (p', l0, r) /\ l = AOpt fd <$> l0.
Proof. unfold on_fd. destruct (m _) as [[p l0] r0] eqn:E. intros [= _ <- <-]. by eexists _, _, _. Qed.

Lemma GetsockoptInt_inv `{K : Kernel} level opt p p' l r :
  GetsockoptInt level opt p = (p', l, r) ->
  match r with
  | Ret v => exists b, l = [Did (Getsockopt level opt (zeros sizeInt)) 0 b] /\ v = i32 (uint_of NativeEndian (sub b 0 4))
  | Err e => exists errno, l = [Did (Getsockopt level opt (zeros sizeInt)) errno []] /\ e = errno_error errno
  | Panic => False
  end.
Proof.
  intros Hr. assert (He : emits (GetsockoptInt level opt) (fun l r =>
    match r with
    | Ret v => exists b, l = [Did (Getsockopt level opt (zeros sizeInt)) 0 b] /\ v = i32 (uint_of NativeEndian (sub b 0 4))
    | Err e => exists errno, l = [Did (Getsockopt level opt (zeros sizeInt)) errno []] /\ e = errno_error errno
    | Panic => False
    end)).
  { apply emits_bind, emits_get; [rewrite len_zeros; abi; lia |]. intros errno b n Hb. rewrite len_zeros in Hb by (abi; lia).
    destruct (Z.eqb_spec errno 0) as [-> | Hn]; cbn [then_]; [| by exists errno]. apply emits_pure_bind. rewrite get4_ok by (abi; lia).
    apply emits_ret. by exists b. }
  specialize (He p). by rewrite Hr in He.
Qed.

Lemma raw_status_inv `{K : Kernel} p p' l r :
  rawGetsockopt ipprotoSCTP optStatus (zeros sizeStatus) p = (p', l, r) ->
  match r with
  | Ret _ => exists b, l = [Did status_query 0 b]
  | Err e => exists errno, l = [Did status_query errno []] /\ e = errno_error errno
  | Panic => False
  end.
Proof.
  intros Hr. assert (He : emits (rawGetsockopt ipprotoSCTP optStatus (zeros sizeStatus)) (fun l r =>
    match r with
    | Ret _ => exists b, l = [Did status_query 0 b]
    | Err e => exists errno, l = [Did status_query errno []] /\ e = errno_error errno
    | Panic => False
    end)).
  { apply emits_get; [rewrite len_zeros; abi; lia |]. intros errno b n Hb. destruct (Z.eqb_spec errno 0) as [-> | Hn]; [by exists b | by exists errno]. }
  specialize (He p). by rewrite Hr in He.
Qed.

Lemma check_established fd st st' l : check fd st = (st', l, Ret (Some None)) -> saw_established fd l.
Proof.
  intros (s1 & l1 & r & l2 & Hso & Hk & ->)%bind_ret_inv. apply caught_inv in Hso. apply on_fd_inv in Hso as (p & p' & l0 & Hso & ->).
  apply GetsockoptInt_inv in Hso. destruct r as [soerr | e]; [| done]. destruct Hso as (so & -> & ->).
  destruct (Z.eqb_spec (i32 (uint_of NativeEndian (sub so 0 4))) 0) as [Hz | Hz]; cbn [negb] in Hk; [| done].
  apply bind_ret_inv in Hk as (s2 & l3 & r & l4 & Hst & Hk & ->). apply caught_inv in Hst. apply on_fd_inv in Hst as (q & q' & l5 & Hst & ->).
  apply raw_status_inv in Hst.
  destruct r as [x | e].
  - destruct Hst as [b ->]. injection Hk as _ <-. by apply saw_status.
  - destruct Hst as (e0 & -> & ->). change (errno_error e0) with (Plain (Errno e0)) in Hk. cbv beta iota in Hk.
    destruct (Z.eqb_spec e0 EINVAL) as [E | Hn]; cbn [negb] in Hk; [| done]. rewrite E. clear E.
    apply bind_ret_inv in Hk as (s3 & l6 & r & l7 & Hrecv & Hk & ->). apply caught_inv in Hrecv.
    unfold sys_call in Hrecv. destruct (os_call _ _) as [o [errno [v d]]]. destruct r as [[flags data] | e]; [| done].
    destruct (Z.eqb_spec errno 0) as [-> | Hn]; [| done]. injection Hrecv as _ <- <- <-. cbv zeta in Hk.
    destruct ((0 <? len (take 12 d)) || _) eqn:Hrec; [| done].
    destruct (setupFailedNotification (take 12 d) v) eqn:Hfail.
    { apply bind_ret_inv in Hk as (? & ? & ? & ? & _ & Hk & _). done. }
    injection Hk as _ <-. apply saw_record; [done | | done]. apply orb_true_iff in Hrec as [Hlt | Hnot].
    + left. intros E. by rewrite E in Hlt.
    + right. apply negb_true_iff, Z.eqb_neq in Hnot. done.
Qed.

Lemma raw_Read_inv {X} wakes f (fn : io (option X)) st st' l x :
  raw_Read wakes f fn st = (st', l, Ret (Some x)) -> exists before look st1, l = before ++ look /\ fn st1 = (st', look, Ret (Some x)).
Proof.
  unfold raw_Read. destruct (is_closed st f); [done |]. intros (s1 & l1 & e & l2 & _ & Hk & ->)%bind_ret_inv. destruct e as [e |]; [done |].
  assert (Hl : exists before look st1, l2 = before ++ look /\ fn st1 = (st', look, Ret (Some x))).
  { clear -Hk. revert s1 l2 Hk. induction wakes as [| wakes IH]; intros s1 l2; cbn [raw_loop]; [done |].
    intros (s2 & l3 & ok & l4 & Hfn & Hk & ->)%bind_ret_inv. destruct ok as [y |].
    - injection Hk as <- <- <-. exists [], l3, s1. by rewrite app_nil_r.
    - apply bind_ret_inv in Hk as (s3 & l5 & e & l6 & _ & Hk & ->). destruct e as [e |]; [done |].
      apply IH in Hk as (b & lk & s4 & -> & Hlk). exists (l3 ++ l5 ++ b), lk, s4. by rewrite <- !app_assoc. }
  destruct Hl as (b & lk & s2 & -> & Hlk). exists (l1 ++ b), lk, s2. by rewrite <- app_assoc.
Qed.

Lemma control_inv {X} s (fn : io X) st st' l x : control s fn st = (st', l, Ret x) -> exists st1, fn st1 = (st', l, Ret x).
Proof.
  intros (s1 & l1 & r & l2 & Hc & Hk & ->)%bind_ret_inv. apply caught_inv in Hc. destruct r as [[y | e] | e]; [| done..].
  injection Hk as <- <- <-. rewrite app_nil_r. unfold File_Control in Hc. destruct (is_closed st _); [done |].
  destruct (os_released _ _) as [o []]; [done |]. apply caught_inv in Hc. eauto.
Qed.

Lemma SetDeadline_inv f t st st' l u : File_SetDeadline f t st = (st', l, Ret u) -> l = [ADeadline (f_id f) t].
Proof. unfold File_SetDeadline. destruct (is_closed st f); [done |]. destruct (os_deadline _ _ _) as [o [e |]]; [done |]. by intros [= _ <- _]. Qed.

(** Nothing but deadlines set on the file. *)
Definition deadlines_of (f : file) (l : list action) : Prop := Forall (fun a => exists t, a = ADeadline (f_id f) t) l.

Lemma stop_inv cancellable f st st' l u : stop_interrupt cancellable f st = (st', l, Ret u) -> deadlines_of f l.
Proof.
  unfold stop_interrupt. destruct cancellable; [| intros [= _ <- _]; constructor].
  intros (s1 & l1 & b & l2 & Ha & Hk & ->)%bind_ret_inv. unfold ask in Ha. destruct (os_stop _) as [o b0]. injection Ha as _ <- _.
  destruct b; [injection Hk as _ <-; constructor |]. apply bind_ret_inv in Hk as (s2 & l3 & e & l4 & He & Hk & ->). injection Hk as _ <-.
  apply bind_ret_inv in He as (s3 & l5 & r & l6 & Hd & He & ->). injection He as _ <-. apply caught_inv in Hd.
  rewrite !app_nil_r. cbn. unfold File_SetDeadline in Hd. destruct (is_closed _ _); [by injection Hd as _ <-; constructor |].
  destruct (os_deadline _ _ _) as [o1 e1]. injection Hd as _ <- _. constructor; eauto.
Qed.

Lemma cleared_inv f st st' l u : (_ ← File_SetDeadline f None; mret (Some tt) : io (option unit)) st = (st', l, Ret u) -> l = [ADeadline (f_id f) None].
Proof. intros (s1 & l1 & v & l2 & Hd & Hk & ->)%bind_ret_inv. apply SetDeadline_inv in Hd as ->. by injection Hk as _ <-. Qed.

(** C26 When a wait succeeds: awaitEstablished reports an association only
    after a look at the socket that found no socket error and either an
    answer to SCTP_STATUS or, when SCTP_STATUS finds no association, a
    queued record that is not SCTP_CANT_STR_ASSOC; it makes no call on the
    socket after that look, and the read deadline a done context has moved
    is cleared last. *)
Theorem await_evidence wakes cancellable s st st' l (Hr : awaitEstablished wakes cancellable s st = (st', l, Ret (Some tt))) :
  exists before look between, l = before ++ look ++ between ++ [ADeadline (f_id (s_file s)) None] /\
    saw_established (s_fd s) look /\ deadlines_of (s_file s) between.
Proof.
  apply bind_ret_inv in Hr as (s1 & l1 & r & l2 & Hread & Hk & ->). apply caught_inv in Hread. destruct r as [[v |] | err]; [| done |].
  - apply raw_Read_inv in Hread as (before & look & s2 & -> & Hlook). apply bind_ret_inv in Hk as (s3 & l3 & u & l4 & Hstop & Hk & ->).
    destruct v as [e |]; [done |]. apply cleared_inv in Hk as ->. exists before, look, l3. rewrite <- app_assoc.
    split_and!; [done | by eapply check_established | by eapply stop_inv].
  - apply bind_ret_inv in Hk as (s2 & l3 & u & l4 & Hstop & Hk & ->). apply bind_ret_inv in Hk as (s3 & l5 & v & l6 & Hc & Hk & ->).
    apply caught_inv in Hc. destruct v as [[[e |] |] | e].
    + done.
    + apply cleared_inv in Hk as ->. apply control_inv in Hc as (s4 & Hc). exists (l1 ++ l3), l5, []. rewrite <- !app_assoc.
      split_and!; [done | by eapply check_established | constructor].
    + destruct (errors_Is _ _); [| done]. by apply bind_ret_inv in Hk as (? & ? & ? & ? & _ & Hk & _).
    + destruct (errors_Is _ _); [| done]. by apply bind_ret_inv in Hk as (? & ? & ? & ? & _ & Hk & _).
Qed.
End Theorems.
