(* ===== verification/Listeners.v ===== *)
(** * Listeners (src/listener_linux.go)

    Listen, which opens a socket, sets it up, binds it and listens; Accept,
    which waits for a connection, passing over the ones that are gone again,
    and hands the accepted descriptor to newConn; the Listener's addresses,
    deadline, raw access and close; and FileListener.

    A Listener the package never opened is a nil one, or one without a
    socket.  [tries] bounds the connections one run of Accept's callback
    passes over, [wakes] the wake-ups of its wait; an Accept that is still
    at it after that is [None].  The test hook is nil.

    The theorems: no constructor of a Listener, and no Accept, leaks or
    double-closes a descriptor; a Listener listens only once every setting
    has been applied and its addresses are bound, with a backlog of at least
    SOMAXCONN; and which answers of accept4 an Accept returns on. *)
From Stdlib Require Import ZArith Lia Bool.
From stdpp Require Import base list option strings.
From coqutil Require Import Byte.
From S2P Require Import Prelude Abi Errors Enums Netip Sockaddr Options MsgInfo Config Term Recv Addr Sys Apply Send ConnOptions Close Sockets CloseOps Conns Dial.

Definition SOMAXCONN : Z := 128.
Definition ECONNABORTED : Z := 103.

(** ** The state *)
Record listener := {
  ls_sock : option socket;
  ls_prep : prepared;
  ls_addr : option SctpAddr;
}.

Definition set_ls_addr (l : listener) (a : option SctpAddr) : listener := {|
  ls_sock := ls_sock l; ls_prep := ls_prep l; ls_addr := a |}.

Definition ls_socket (l : listener) : socket := default zero_socket (ls_sock l).

(** What [l.network()] gives, for a nil Listener too. *)
Definition listener_network (l : option listener) : string :=
  match l with
  | Some l => if bool_decide (s_network (ls_socket l) = "") then "sctp" else s_network (ls_socket l)
  | None => "sctp"
  end.

Section Listeners.
Context `{A : Arch} `{ZE : ZoneEnv} `{CS : ClosingSentinel} `{IT : IPText} `{H : Host}.

Definition Listener_Addr (l : option listener) : option string :=
  match l with Some l => net_Addr (ls_addr l) | None => None end.

(** ** Listen *)

(** [None] when the file cannot be read or is not a number. *)
Definition readSomaxconn : io (option Z) :=
  text ← ask os_somaxconn;
  mret (b ← text; Atoi (TrimSpace b) (8 * wordSize)).

Definition setupListener (s : socket) (address : string) (ctl : option hook) (ops : list configOp) (bind : option bytes) : io unit :=
  _ ← setupSocket s address ctl ops;
  _ ← match bind with
      | Some b => wrapped (in_call "sctp_bindx") (on s (Sys.bindx optSockoptBindxAdd b))
      | None => mret tt
      end;
  n ← readSomaxconn;
  let backlog := match n with Some n => if SOMAXCONN <? n then n else SOMAXCONN | None => SOMAXCONN end in
  wrapped (in_call "listen") (control s (_ ← sys_call (c_listen (s_fd s) backlog); mret tt)).

Definition refreshAddr (l : listener) (s : socket) : io listener :=
  r ← caught (on s (getAddrs optGetLocalAddrs 0));
  mret (set_ls_addr l (Some (snapshot_of r (ls_addr l)))).

Definition newListener (s : socket) (p : prepared) : io listener :=
  refreshAddr {| ls_sock := Some s; ls_prep := p; ls_addr := None |} s.

Definition listen (control_of : funcval -> hook) (c : option Config) (network : string) (laddr : option SctpAddr) : io listener :=
  family ← socketFamily network laddr None;
  p ← pure (prepare c styleListen);
  '(bind, address) ← pure (match laddr with
                           | Some la => b ← localBindAddrs family la; Ret (Some b, SctpAddr_String laddr)
                           | None => Ret (None, "")
                           end);
  s ← newSocket family (canonicalName network);
  let ctl := match c with Some c => control_of <$> cfg_Control c | None => None end in
  err ← err_of (setupListener s address ctl (p_ops p) bind);
  match err with
  | Some e => _ ← ignore (File_Close (s_file s)); fails (Some e)
  | None => newListener s p
  end.

Definition Listen (control_of : funcval -> hook) (c : option Config) (network : string) (laddr : option SctpAddr) : io listener :=
  wrapped (fun e => opError "listen" (canonicalName network) None (net_Addr laddr) (Some e)) (listen control_of c network laddr).

(** ** Accept *)

(** The callback of the wait: the descriptor or the error accept4 left, or
    [None] inside when it is still passing over connections. *)
Fixpoint accept_turn (tries : nat) (fd : Z) : io (option (option (Z + error))) :=
  match tries with
  | O => mret (Some None)
  | S tries =>
      r ← caught (sys_call (c_accept4 fd (Z.lor SOCK_NONBLOCK SOCK_CLOEXEC)));
      match r with
      | inl (nfd, _) => mret (Some (Some (inl nfd)))
      | inr (Plain (Errno e) as err) =>
          if (e =? EINTR) || (e =? ECONNABORTED) then accept_turn tries fd
          else if e =? EAGAIN then mret None
          else mret (Some (Some (inr err)))
      | inr err => mret (Some (Some (inr err)))
      end
  end.

Definition accept (tries wakes : nat) (l : option listener) : io (option connection) :=
  match l with
  | None => fails (Some (Plain NetErrClosed))
  | Some l =>
      match ls_sock l with
      | None => fails (Some (Plain NetErrClosed))
      | Some ls =>
          r ← raw_Read wakes (s_file ls) (accept_turn tries (s_fd ls));
          match r with
          | None | Some None => mret None
          | Some (Some (inr aerr)) => fails (in_call "accept4" aerr)
          | Some (Some (inl nfd)) =>
              s ← wrapSocketFile nfd (s_family ls) (s_network ls);
              c ← newConn s kindAccepted (ls_prep l);
              mret (Some c)
          end
      end
  end.

Definition AcceptSCTP (tries wakes : nat) (l : option listener) : io (option connection) :=
  wrapped (fun e => opError "accept" (listener_network l) None (Listener_Addr l) (Some e)) (accept tries wakes l).

(** ** The other methods *)

(** As a net.Conn, which is nil exactly when there is an error. *)
Definition Accept (tries wakes : nat) (l : option listener) : io (option connection) := AcceptSCTP tries wakes l.

Definition Listener_Close (l : option listener) : io unit :=
  match l with
  | Some {| ls_sock := Some s |} => wrapped (fun e => opError "close" (listener_network l) None (Listener_Addr l) (Some e)) (File_Close (s_file s))
  | _ => fails (opError "close" (listener_network l) None None (Some (Plain NetErrClosed)))
  end.

Definition Listener_SetDeadline (l : option listener) (t : option Z) : io unit :=
  match l with
  | Some {| ls_sock := Some s |} => wrapped (fun e => opError "set" (listener_network l) None (Listener_Addr l) (Some e)) (File_SetDeadline (s_file s) t)
  | _ => fails (opError "set" (listener_network l) None None (Some (Plain NetErrClosed)))
  end.

Definition Listener_bindx (l : option listener) (opt : Z) (name : string) (ips : list Addr) : io listener :=
  match l with
  | Some ({| ls_sock := Some s |} as l') =>
      bindx_on s (fun e => opError "bindx" (listener_network l) None (Listener_Addr l) (Some e))
        (fun e => optError "bindx" "setsockopt" (listener_network l) None (Listener_Addr l) (Some e)) opt name ips (refreshAddr l' s)
  | _ => fails (opError "bindx" (listener_network l) None None (Some (Plain NetErrClosed)))
  end.

Definition Listener_BindAdd (l : option listener) (ips : list Addr) : io listener := Listener_bindx l optSockoptBindxAdd "BindAdd" ips.
Definition Listener_BindRemove (l : option listener) (ips : list Addr) : io listener := Listener_bindx l optSockoptBindxRemove "BindRemove" ips.

Definition Listener_SyscallConn (l : option listener) : io socket :=
  match l with
  | Some {| ls_sock := Some s |} => mret s
  | _ => fails (opError "syscallconn" (listener_network l) None None (Some (Plain NetErrClosed)))
  end.

Definition listenerRawConn_Control {X} (l : listener) (s : socket) (f : io X) : io X :=
  r ← caught (File_Control (s_file s) (caught f));
  match r with
  | inr e => fails (opError "raw-control" (listener_network (Some l)) None (Listener_Addr (Some l)) (Some e))
  | inl (inr e) => fails (Some e)
  | inl (inl x) => mret x
  end.
Definition listenerRawConn_Read : out error unit := Err (Plain (Errno EINVAL)).
Definition listenerRawConn_Write : out error unit := Err (Plain (Errno EINVAL)).

(** ** FileListener *)
Definition fileListener (c : option Config) (f : option file) : io listener :=
  p ← pure (prepare c styleFile);
  s ← adoptFile f true;
  err ← err_of (on s (applyConfig (p_ops p)));
  match err with
  | Some e => _ ← ignore (File_Close (s_file s)); fails (Some e)
  | None => newListener s p
  end.

Definition FileListener (c : option Config) (f : option file) : io listener :=
  wrapped (fun e => opError "file" "sctp" None None (Some e)) (fileListener c f).

(** The functions of the package: a nil Config. *)
Definition sctp_Listen (control_of : funcval -> hook) (network : string) (laddr : option SctpAddr) : io listener := Listen control_of None network laddr.
Definition sctp_FileListener (f : option file) : io listener := FileListener None f.
End Listeners.

(** ** The descriptors of a Listener *)
Section Ownership.
Context `{A : Arch} `{AK : !ArchOk A} `{ZE : ZoneEnv} `{CS : ClosingSentinel} `{IT : IPText} `{H : Host} `{HO : !HostOk}.

Lemma runs_bindx_add g s bind Q :
  s_fd s ∈ owned g -> (forall b, bind = Some b -> 0 < len b) -> (forall r, no_panic r -> Q r g) ->
  runs g match bind with Some b => wrapped (in_call "sctp_bindx") (on s (Sys.bindx optSockoptBindxAdd b)) | None => mret tt end Q.
Proof.
  intros Ho Hb HQ. destruct bind as [b |]; [| by apply runs_ret, HQ]. apply runs_wrapped; [done |]. eapply (runs_on _ _ _ no_panic); [done | |].
  - apply calm_quiet; [apply quiet_control, quiet_set |]. eapply emits_mono; [apply bindx_emits; by apply Hb |].
    intros l r [[-> ->] | (errno & -> & ->)]; [done |]. unfold set_outcome. by destruct (errno =? 0).
  - intros [u | e |] Hp; [by apply HQ | | done]. intros e' _. by apply HQ.
Qed.

Lemma runs_setupListener g s address ctl ops bind Q :
  held_wf g -> has g s -> hook_ok ctl -> (forall b, bind = Some b -> 0 < len b) ->
  (forall r g', kept_by g r g' -> Q r g') -> runs g (setupListener s address ctl ops bind) Q.
Proof.
  intros Hw Hs Hh Hb HQ. apply runs_bind, runs_setupSocket; [done | done | done |].
  intros [u | e |] g1 [Hp Hk]; cbn [next_runs]; [| by apply HQ | done]. pose proof (has_keeps _ _ _ Hs Hk) as (Ho & _).
  apply runs_bind, runs_bindx_add; [done | done |]. intros [u' | e |] Hp'; cbn [next_runs]; [| by apply HQ | done].
  apply runs_bind. apply runs_bind, runs_ask. intros text. cbn [next_runs]. apply runs_ret. cbn [next_runs]. cbv zeta.
  apply runs_wrapped; [done |]. apply runs_control.
  - apply runs_bind, runs_call; [done | done | by apply bool_decide_eq_true_2 |].
    intros [x | e |] Hp''; cbn [next_runs]; [by apply runs_ret, HQ | intros e' _; by apply HQ | done].
  - intros e' _. by apply HQ.
Qed.

(** A Listener has its descriptor, or it has been closed. *)
Definition listener_or (g : held) (r : out error listener) (g' : held) : Prop :=
  match r with
  | Ret l => exists s, ls_sock l = Some s /\ hands g s g'
  | Err _ => keeps g g'
  | Panic => False
  end.

Lemma runs_newListener g s p g' Q :
  hands g s g' -> (forall r, listener_or g r g' -> Q r g') -> runs g' (newListener s p) Q.
Proof.
  intros Hh HQ. pose proof (hands_has _ _ _ Hh) as (Ho & _). apply runs_bind, runs_caught, runs_getAddrs; [done | done |].
  intros [a | e |] Hp; cbn [next_runs]; [| | done]; apply runs_ret, HQ; by exists s.
Qed.

Lemma runs_close_fail {X} g s g' e (Q : out error X -> held -> Prop) :
  held_wf g -> hands g s g' -> (forall g'', keeps g g'' -> Q (Err e) g'') ->
  runs g' (_ ← ignore (File_Close (s_file s)); fails (Some e)) Q.
Proof.
  intros Hw Hh HQ. apply runs_bind, runs_ignore, (runs_give_back g s); [done | done |].
  intros [x | e' |] g'' Hp Hk; cbn [next_runs]; [by apply runs_fails, HQ.. | done].
Qed.

Lemma runs_listen control_of c network laddr g Q :
  held_wf g -> (forall f, hook_ok (Some (control_of f))) -> wf_addr laddr ->
  (forall r g', listener_or g r g' -> Q r g') -> runs g (listen control_of c network laddr) Q.
Proof.
  intros Hw Hh Hl HQ. assert (Herr : forall e, Q (Err e) g) by (intros e; by apply HQ, keeps_refl).
  apply runs_bind, runs_socketFamily. intros [family | e |] Hp; cbn [next_runs]; [| apply Herr | done].
  apply runs_bind, runs_pure. pose proof (prepare_total c styleListen) as Hp'. destruct (prepare c styleListen) as [p | e |]; cbn [next_runs]; [| apply Herr | done].
  apply runs_bind, runs_pure.
  match goal with |- next_runs _ _ ?r _ =>
    assert (Hbind : match r with Ret (b, _) => forall b', b = Some b' -> 0 < len b' | Err _ => True | Panic => False end);
    [| destruct r as [[bind address] | e |]; cbn [next_runs]; [| apply Herr | done]]
  end.
  { destruct laddr as [la |]; [| done]. pose proof (localBindAddrs_ok family la Hl) as Ho.
    destruct (localBindAddrs family la) as [b | e |]; [by intros b' [= <-] | done | done]. }
  apply runs_bind, runs_openSocket; [done |]. intros [s | e |] g1 Ho; cbn [next_runs opened_or] in *; [| by apply HQ | done].
  apply runs_bind, runs_err_of, runs_setupListener; [by apply Ho | by eapply hands_has | | exact Hbind |].
  - destruct c as [c |]; [| by intros h]. destruct (cfg_Control c) as [f |]; [apply Hh | by intros h].
  - intros [u | e |] g2 [Hp2 Hk]; cbn [next_runs]; [| | done]; pose proof (hands_keeps _ _ _ _ Ho Hk) as H2.
    + apply (runs_newListener g); [done |]. intros r Hr. by apply HQ.
    + apply (runs_close_fail g); [done | done |]. intros g3 Hk3. by apply HQ.
Qed.

Lemma runs_fileListener g c f Q :
  held_wf g -> (forall f', f = Some f' -> f_fd f' ∈ owned g) -> (forall r g', listener_or g r g' -> Q r g') -> runs g (fileListener c f) Q.
Proof.
  intros Hw Hf HQ. apply runs_bind, runs_pure. pose proof (prepare_total c styleFile) as Hp.
  destruct (prepare c styleFile) as [p | e |]; cbn [next_runs]; [| by apply HQ, keeps_refl | done].
  apply runs_bind, (runs_adoptFile g f true); [done | done |]. intros [s | e |] g' Ho; cbn [next_runs opened_or] in *; [| by apply HQ | done].
  apply runs_bind, runs_err_of, runs_applyConfig; [by eapply hands_has |].
  intros [u | e |] Hnp; cbn [next_runs]; [| | done].
  - apply (runs_newListener g); [done |]. intros r Hr. by apply HQ.
  - apply (runs_close_fail g); [done | done |]. intros g3 Hk3. by apply HQ.
Qed.

(** The callback of an Accept ends with a descriptor more, or with none. *)
Definition accepted_fd (g : held) (r : out error (option (option (Z + error)))) (g' : held) : Prop :=
  match r with
  | Ret (Some (Some (inl nfd))) => 0 <= nfd /\ g' = with_fd g nfd
  | Ret _ => g' = g
  | Err _ | Panic => False
  end.

Lemma runs_accept_turn g tries fd : fd ∈ owned g -> runs g (accept_turn tries fd) (accepted_fd g).
Proof.
  intros Ho. induction tries as [| tries IH]; cbn [accept_turn]; [by apply runs_ret |].
  apply runs_bind, runs_caught, runs_open; [done | by apply bool_decide_eq_true_2 | |].
  - intros nfd d Hn. cbn [next_runs]. by apply runs_ret.
  - intros e. cbn [next_runs]. destruct e as [[n | n] | | | | | | |]; try by apply runs_ret.
    destruct (_ || _); [exact IH |]. destruct (_ =? EAGAIN); by apply runs_ret.
Qed.

(** An Accept that is still waiting has no descriptor of its own. *)
Definition accepted_or (g : held) (r : out error (option connection)) (g' : held) : Prop :=
  match r with
  | Ret (Some c) => conn_or g (Ret c) g'
  | Ret None | Err _ => keeps g g'
  | Panic => False
  end.

Lemma runs_accept g tries wakes l Q :
  held_wf g -> (forall l' s, l = Some l' -> ls_sock l' = Some s -> s_fd s ∈ owned g) ->
  (forall r g', accepted_or g r g' -> Q r g') -> runs g (accept tries wakes l) Q.
Proof.
  intros Hw Hl HQ. assert (Hsame : Q (Ret None) g /\ forall e, Q (Err e) g) by (split; intros; by apply HQ, keeps_refl). destruct Hsame as [HN He].
  destruct l as [l |]; [| by apply runs_fails]. cbn [accept]. destruct (ls_sock l) as [ls |] eqn:Els; [| by apply runs_fails].
  specialize (Hl l ls eq_refl Els). apply runs_bind, runs_raw_Read.
  - eapply runs_mono; [by apply runs_accept_turn |]. intros [[[[nfd | aerr] |] |] | e |] g' Hr; cbn [accepted_fd next_runs] in *; try done.
    + destruct Hr as [Hn ->]. apply runs_bind, runs_wrap_opened; [done | done |].
      intros [s | e |] g1 Ho; cbn [next_runs opened_or] in *; [| by apply HQ | done].
      apply runs_bind, (runs_newConn g); [done | done |]. intros [c | e |] g2 Hc; cbn [next_runs]; [by apply runs_ret, HQ | by apply HQ | done].
    + subst g'. by apply runs_fails.
    + subst g'. by apply runs_ret.
  - cbn [next_runs]. by apply runs_ret.
  - intros e. cbn [next_runs]. apply He.
Qed.
End Ownership.

(** ** When a Listener listens *)
Section Ready.
Context `{A : Arch} `{AK : !ArchOk A} `{ZE : ZoneEnv} `{CS : ClosingSentinel} `{IT : IPText} `{H : Host}.

Lemma on_emits {X} s (m : logged (@proc (at_file (s_file s))) Sys.done X) st st' l r Q :
  on s m st = (st', l, r) -> emits m Q -> exists l0, l = AOpt (s_fd s) <$> l0 /\ Q l0 r.
Proof. intros (p & l0 & Hm & ->)%on_inv He. specialize (He {| kern := (p_os st, p_closed st) : @Sys.world (at_file (s_file s)); storageLayoutCache := p_cache st |}). rewrite Hm in He. eauto. Qed.

Lemma applyConfig_ok `{K : Kernel} ops : emits (applyConfig ops) (fun l r => r = Ret tt -> applied ops l (Ret tt)).
Proof. apply emits_control; [| done]. eapply emits_mono; [apply apply_ops_applied |]. intros l r Ha ->. done. Qed.

Lemma bindx_ok `{K : Kernel} b :
  emits (Sys.bindx optSockoptBindxAdd b) (fun l r => r = Ret tt -> 0 < len b -> l = [Did (Setsockopt ipprotoSCTP optSockoptBindxAdd b) 0 []]).
Proof.
  destruct (Z.ltb_spec 0 (len b)) as [Hb | Hb]; [| intros s; lia].
  eapply emits_mono; [by apply bindx_emits |]. intros l r [[_ ->] | (errno & -> & ->)]; [done |]. unfold set_outcome.
  by destruct (Z.eqb_spec errno 0) as [-> | Hn].
Qed.

Lemma control_call_inv s c st st' l u :
  control s (_ ← sys_call c; mret tt) st = (st', l, Ret u) -> exists v d, l = [ACall c 0 v d].
Proof.
  intros (s1 & Hc)%control_inv. apply bind_ret_inv in Hc as (s2 & l1 & x & l2 & Hc & Hk & ->). injection Hk as _ <-. rewrite app_nil_r.
  unfold sys_call in Hc. destruct (os_call _ _) as [o [errno [v d]]]. destruct (Z.eqb_spec errno 0) as [-> | Hn]; [| done].
  injection Hc as _ <- _. eauto.
Qed.

Lemma err_of_none {X} (m : io X) st st' l : err_of m st = (st', l, Ret None) -> exists x, m st = (st', l, Ret x).
Proof.
  intros (s1 & l1 & r & l2 & Hm & Hk & ->)%bind_ret_inv. apply caught_inv in Hm. destruct r as [x | e]; [| done].
  injection Hk as <- <-. rewrite app_nil_r. eauto.
Qed.

Lemma setupSocket_inv s address ctl ops st st' l u :
  setupSocket s address ctl ops st = (st', l, Ret u) ->
  exists before config, l = before ++ (AOpt (s_fd s) <$> config) /\ applied (K := at_file (s_file s)) ops config (Ret tt).
Proof.
  intros (s1 & l1 & x & l2 & _ & Hk & ->)%bind_ret_inv. apply bind_ret_inv in Hk as (s2 & l3 & y & l4 & _ & Hk & ->).
  eapply on_emits in Hk as (config & -> & Ha); [| apply applyConfig_ok]. destruct u. exists (l1 ++ l3), config. rewrite <- app_assoc. auto.
Qed.

(** The bindx of a Listener's local address. *)
Definition bound_as (s : socket) (bind : option bytes) (l : list action) : Prop :=
  match bind with Some b => l = [bindx_set s optSockoptBindxAdd b 0] | None => l = [] end.

Lemma setupListener_inv s address ctl ops bind st st' l u :
  (forall b, bind = Some b -> 0 < len b) -> setupListener s address ctl ops bind st = (st', l, Ret u) ->
  exists before config binds backlog v d, l = before ++ (AOpt (s_fd s) <$> config) ++ binds ++ [ACall (c_listen (s_fd s) backlog) 0 v d] /\
    applied (K := at_file (s_file s)) ops config (Ret tt) /\ bound_as s bind binds /\ SOMAXCONN <= backlog.
Proof.
  intros Hb (s1 & l1 & x & l2 & Hs & Hk & ->)%bind_ret_inv. apply setupSocket_inv in Hs as (before & config & -> & Ha).
  apply bind_ret_inv in Hk as (s2 & binds & [] & l4 & Hbind & Hk & ->). apply bind_ret_inv in Hk as (s3 & l5 & n & l6 & Hn & Hk & ->).
  apply bind_ret_inv in Hn as (s4 & l7 & text & l8 & Hn & Hm & ->). injection Hm as _ <- _.
  unfold ask in Hn. destruct (os_somaxconn _) as [o n0]. injection Hn as _ <- _. cbv zeta in Hk.
  apply wrapped_ret_inv, control_call_inv in Hk as (v & d & ->). eexists before, config, binds, _, v, d.
  split_and!; [by rewrite <- app_assoc | done | |].
  - destruct bind as [b |]; [| by injection Hbind as _ <-]. apply wrapped_ret_inv in Hbind.
    eapply on_emits in Hbind as (l0 & -> & Hl0); [| apply bindx_ok]. by rewrite (Hl0 eq_refl (Hb b eq_refl)).
  - destruct n as [n |]; [| done]. destruct (Z.ltb_spec SOMAXCONN n); [lia | done].
Qed.

(** C30 A Listener that Listen returns is ready in the right order: every
    setting of the Config has been applied to its socket, then its local
    addresses, when there are any, were bound with one bindx that carries
    exactly their packed form, and only then does the socket listen, with a
    backlog of at least SOMAXCONN; all that follows is the query for the
    addresses Addr reports. *)
Theorem listen_ready control_of c network laddr st st' log l
    (Hl : wf_addr laddr) (Hr : listen control_of c network laddr st = (st', log, Ret l)) :
  exists s before config binds backlog v d after st1 r,
    ls_sock l = Some s /\ prepare c styleListen = Ret (ls_prep l) /\
    log = before ++ (AOpt (s_fd s) <$> config) ++ binds ++ ACall (c_listen (s_fd s) backlog) 0 v d :: after /\
    applied (K := at_file (s_file s)) (p_ops (ls_prep l)) config (Ret tt) /\
    match laddr with
    | Some la => exists b, localBindAddrs (s_family s) la = Ret b /\ bound_as s (Some b) binds
    | None => bound_as s None binds
    end /\
    SOMAXCONN <= backlog /\ on s (getAddrs optGetLocalAddrs 0) st1 = (st', after, r).
Proof.
  apply bind_ret_inv in Hr as (s1 & l1 & family & l2 & _ & Hr & ->). apply bind_ret_inv in Hr as (s2 & l3 & p & l4 & Hp & Hr & ->).
  apply pure_ret_inv in Hp as (-> & -> & Hp). apply bind_ret_inv in Hr as (s3 & l5 & [bind address] & l6 & Hbind & Hr & ->).
  apply pure_ret_inv in Hbind as (-> & -> & Hbind). apply bind_ret_inv in Hr as (s4 & l7 & s & l8 & Hs & Hr & ->). cbv zeta in Hr.
  apply bind_ret_inv in Hr as (s5 & l9 & e & l10 & Hset & Hr & ->). destruct e as [e |].
  { by apply bind_ret_inv in Hr as (? & ? & ? & ? & _ & Hr & _). }
  apply err_of_none in Hset as [u Hset].
  assert (Hfam : s_family s = family).
  { apply bind_ret_inv in Hs as (t1 & m1 & [fd d] & m2 & _ & Hs & _). apply bind_ret_inv in Hs as (t2 & m3 & [f |] & m4 & _ & Hs & _); [| done].
    apply bind_ret_inv in Hs as (t3 & m5 & [e |] & m6 & _ & Hs & _); [by apply bind_ret_inv in Hs as (? & ? & ? & ? & _ & Hs & _) |].
    by injection Hs as _ _ <-. }
  assert (Hb : (forall b, bind = Some b -> 0 < len b) /\
    match laddr with Some la => exists b, bind = Some b /\ localBindAddrs family la = Ret b | None => bind = None end).
  { destruct laddr as [la |]; [| by injection Hbind as <- <-]. pose proof (localBindAddrs_ok family la Hl) as Ho.
    destruct (localBindAddrs family la) as [b | e |]; [| done | done]. injection Hbind as <- <-. split; [by intros ? [= <-] | eauto]. }
  destruct Hb as [Hb Hlb]. apply setupListener_inv in Hset as (before & config & binds & backlog & v & d & -> & Ha & Hbs & Hlog); [| done].
  apply bind_ret_inv in Hr as (s6 & after & r & l11 & Hg & Hr & ->). apply caught_inv in Hg. injection Hr as <- <- <-. cbn.
  exists s, (l1 ++ l7 ++ before), config, binds, backlog, v, d, after, s5. eexists. split_and!; try done.
  - cbn. rewrite app_nil_r, <- !app_assoc. cbn. done.
  - rewrite Hfam. destruct laddr as [la |]; [| by subst bind]. destruct Hlb as (b & -> & E). eauto.
Qed.
End Ready.
