(* ===== verification/Endpoints.v ===== *)
(** * Endpoints (src/endpoint_linux.go)

    One-to-many sockets: ListenEndpoint and OpenEndpoint; Connect,
    CloseAssoc and AbortAssoc, which start and end single associations; the
    queries for associations and their addresses; AutoClose, BindAdd and
    BindRemove; PeelOff, which turns an association into a Conn with a
    descriptor of its own; the checks of SendMsg; and closing, for which the
    Endpoint is a second implementation of closeOps (CloseOps.v): it shuts
    every association down and waits until none is left.  Reads are in
    EndpointRecv.v, what follows the checks of a send in Send.v.

    An Endpoint is an [endpoint]; a method returns it with the fields it
    changes.  recordMu and bindMu make the calls they guard one step; what
    other goroutines do to the kernel in between is up to the [Host].

    The theorems: opening an Endpoint and peeling off leak and double-close
    nothing; the query for the associations ends, asks for at most 2^20 ids,
    and gets all of them from a kernel that has no more; closing an Endpoint
    returns and closes its descriptor once, and asks each association to
    shut down once; what ending an association puts on the wire. *)
From Stdlib Require Import ZArith Lia Bool Sorting.Sorted.
From stdpp Require Import base list option strings gmap.
From coqutil Require Import Byte.
From S2P Require Import Prelude Abi Errors Enums Netip Sockaddr Options MsgInfo Config Term Recv Addr Sys Apply Send ConnOptions Close Endpoint Sockets CloseOps Conns Dial Listeners.

(** ** The state *)
Record endpoint := {
  en_sock : option socket;
  en_peel : prepared;
  en_handler : option funcval;
  en_closeWait : Z;
  en_subs : Z;
  en_addr : option SctpAddr;
  en_life : lifecycle;
  en_send : sendState;
}.

Definition set_en_addr (e : endpoint) (a : option SctpAddr) : endpoint := {|
  en_sock := en_sock e; en_peel := en_peel e; en_handler := en_handler e; en_closeWait := en_closeWait e;
  en_subs := en_subs e; en_addr := a; en_life := en_life e; en_send := en_send e |}.
Definition set_en_life (e : endpoint) (l : lifecycle) : endpoint := {|
  en_sock := en_sock e; en_peel := en_peel e; en_handler := en_handler e; en_closeWait := en_closeWait e;
  en_subs := en_subs e; en_addr := en_addr e; en_life := l; en_send := en_send e |}.
Definition set_en_send (e : endpoint) (s : sendState) : endpoint := {|
  en_sock := en_sock e; en_peel := en_peel e; en_handler := en_handler e; en_closeWait := en_closeWait e;
  en_subs := en_subs e; en_addr := en_addr e; en_life := en_life e; en_send := s |}.

Definition en_socket (e : endpoint) : socket := default zero_socket (en_sock e).

(** A nil Endpoint, or one without a socket, is not open. *)
Definition en_opened (e : option endpoint) : bool :=
  match e with
  | Some e => bool_decide (en_sock e <> None) && negb (bool_decide (state (en_life e) = lifeClosed))
  | None => false
  end.

Definition en_network (e : option endpoint) : string :=
  match e with
  | Some e => if bool_decide (s_network (en_socket e) = "") then "sctp" else s_network (en_socket e)
  | None => "sctp"
  end.

Definition Endpoint_Network (e : option endpoint) : string := match e with Some e => s_network (en_socket e) | None => "" end.

Section Errors.
Context `{CS : ClosingSentinel} `{IT : IPText}.

Definition Endpoint_Addr (e : option endpoint) : option string :=
  match e with Some e => net_Addr (en_addr e) | None => None end.

Definition en_ioError (e : option endpoint) (op : string) (err : option error) : option error :=
  ioOpError op (en_network e) (Endpoint_Addr e) None err.
Definition en_optionError (e : option endpoint) (op : string) (err : error) : option error :=
  let call := if bool_decide (op = "set") then "setsockopt" else "getsockopt" in
  optError op call (en_network e) None (Endpoint_Addr e) (Some err).
Definition en_argError (e : option endpoint) (op : string) (err : error) : option error :=
  opError op (en_network e) None (Endpoint_Addr e) (Some err).
Definition en_getError (e : option endpoint) (err : error) : option error :=
  match errors_As err with
  | Some errno => en_optionError e "get" (Plain (Errno errno))
  | None => en_argError e "get" err
  end.
Definition dialError (e : option endpoint) (raddr : option SctpAddr) (err : error) : option error :=
  opError "dial" (en_network e) (Endpoint_Addr e) (net_Addr raddr) (Some err).
Definition peelError (e : option endpoint) (err : error) : option error :=
  opError "peeloff" (en_network e) None (Endpoint_Addr e) (Some err).
Definition en_closeError (e : option endpoint) (err : option error) : option error :=
  match err with
  | None => None
  | Some _ => opError "close" (en_network e) (Endpoint_Addr e) None err
  end.
End Errors.

(** ** The association list *)
Definition assocIDsFirstBuffer : Z := 16.

Section AssocIDs.
Context `{A : Arch} `{K : Kernel}.

(** One turn of the loop, with a buffer for [room] ids: [None] to double
    it.  The guard compares int(l), which a length of 2^31 and more makes
    negative on a 32-bit target; the slice takes the uint32. *)
Definition assocIDs_turn (room : Z) : sys (option (list Z)) :=
  r ← caught (getsockopt optGetAssocIDList (zeros (sizeAssocIDs + room * sizeAssocID)));
  match r with
  | inr (Plain (Errno e) as err) =>
      if e =? EINVAL then
        if room <? assocIDListLimit then mret None
        else fails (Some (Wrapf "%w: more than %d ids" (Plain ErrAssocListTooLarge)))
      else fails (Some err)
  | inr err => fails (Some err)
  | inl (buf, l) =>
      if len buf <? to_int l then fails (Some (Wrapf "%w: the kernel reported %d bytes of a %d-byte buffer" (Plain ErrInvalidAssocList))) else
      b ← pure (slice buf 0 l);
      ids ← pure (decodeAssocIDs b);
      mret (Some ids)
  end.

Fixpoint assocIDs_loop (fuel : nat) (room : Z) : sys (list Z) :=
  match fuel with
  | O => pure Panic
  | S fuel =>
      got ← assocIDs_turn room;
      match got with
      | Some ids => mret ids
      | None => assocIDs_loop fuel (room * 2)
      end
  end.

(** From 16 to 2^20 ids there are 17 buffers. *)
Definition assocIDs : sys (list Z) := assocIDs_loop 17 assocIDsFirstBuffer.

Definition get_uint32 (opt : Z) : sys Z :=
  '(b, _) ← getsockopt opt (zeros sizeInt);
  pure (get_at NativeEndian 4 b 0).
End AssocIDs.

Section Endpoints.
Context `{A : Arch} `{ZE : ZoneEnv} `{CS : ClosingSentinel} `{IT : IPText} `{H : Host}.

(** ** Opening *)
Definition setupEndpoint (s : socket) (address : string) (ctl : option hook) (ops : list configOp) (bind : option bytes)
    (listening : bool) : io unit :=
  if listening then setupListener s address ctl ops bind else
  _ ← setupSocket s address ctl ops;
  match bind with
  | Some b => wrapped (in_call "sctp_bindx") (on s (Sys.bindx optSockoptBindxAdd b))
  | None => mret tt
  end.

Definition ownSubscriptions (c : option Config) : Z :=
  match c with
  | Some c => foldl (fun set t => Z.lor set (eventBit t)) 0 (default [] (cfg_Notifications c))
  | None => 0
  end.

Definition en_refreshAddr (e : endpoint) (s : socket) : io endpoint :=
  r ← caught (on s (getAddrs optGetLocalAddrs 0));
  mret (set_en_addr e (Some (snapshot_of r (en_addr e)))).

Definition peel_prepared (p : prepared) (own : Z) : prepared := {|
  p_ops := p_ops p; p_handler := p_handler p; p_closeTimeout := p_closeTimeout p; p_abandon := p_abandon p;
  p_setupRTOInitialMS := p_setupRTOInitialMS p; p_subscribed := own; p_fragLevel := p_fragLevel p; p_adopted := p_adopted p |}.

(** A send state that is bound, with no latch, and explicit. *)
Definition endpoint_send : sendState :=
  let s := bind zero_sendState None in {|
  owner := owner s; defSnd := defSnd s; defPR := defPR s; explicit := true; st := st s; dl := dl s; slow := slow s;
  s_ctx := s_ctx s; stop := stop s; interruptDone := interruptDone s; term := term s |}.

Definition newEndpoint (s : socket) (p : prepared) (own : Z) : io endpoint :=
  let e := {| en_sock := Some s; en_peel := peel_prepared p own; en_handler := p_handler p; en_closeWait := p_closeTimeout p;
              en_subs := p_subscribed p; en_addr := None; en_life := Close.init (zero_lifecycle 0); en_send := endpoint_send |} in
  snd ← on s (readDefaults (en_send e));
  en_refreshAddr (set_en_send e snd) s.

Definition openEndpoint (control_of : funcval -> hook) (c : option Config) (style : socketStyle) (network : string)
    (laddr : option SctpAddr) : io endpoint :=
  family ← socketFamily network laddr None;
  p ← pure (prepare c style);
  '(bind, address) ← pure (match laddr with
                           | Some la => b ← localBindAddrs family la; Ret (Some b, SctpAddr_String laddr)
                           | None => Ret (None, "")
                           end);
  s ← openSocket family SOCK_SEQPACKET (canonicalName network);
  let ctl := match c with Some c => control_of <$> cfg_Control c | None => None end in
  err ← err_of (setupEndpoint s address ctl (p_ops p) bind (bool_decide (style = styleListenEndpoint)));
  match err with
  | Some e => _ ← ignore (abortive s); fails (Some e)
  | None => newEndpoint s p (ownSubscriptions c)
  end.

Definition named_open (control_of : funcval -> hook) (c : option Config) (style : socketStyle) (network : string)
    (laddr : option SctpAddr) : io endpoint :=
  wrapped (fun e => opError "listen" (canonicalName network) None (net_Addr laddr) (Some e)) (openEndpoint control_of c style network laddr).
Definition ListenEndpoint control_of c network laddr := named_open control_of c styleListenEndpoint network laddr.
Definition OpenEndpoint control_of c network laddr := named_open control_of c styleOpenEndpoint network laddr.

(** The functions of the package: a nil Config. *)
Definition sctp_ListenEndpoint control_of network laddr := ListenEndpoint control_of None network laddr.
Definition sctp_OpenEndpoint control_of network laddr := OpenEndpoint control_of None network laddr.

(** ** Associations *)
Definition Connect (e : option endpoint) (raddr : option SctpAddr) : io (endpoint * Z) :=
  match e with
  | Some e' =>
      if negb (en_opened e) then fails (dialError e raddr (Plain NetErrClosed)) else
      match raddr with
      | None => fails (dialError e raddr (invalidArg "Connect needs a remote address with at least one IP"))
      | Some ra =>
          if len (IPs ra) =? 0 then fails (dialError e raddr (invalidArg "Connect needs a remote address with at least one IP")) else
          if Port ra =? 0 then fails (dialError e raddr (invalidArg "Connect needs a non-zero remote port (RFC 9260 §3.1)")) else
          let s := en_socket e' in
          peer ← wrapped (dialError e raddr) (pure (encodeAddrs (s_family s) (IPs ra) (Port ra)));
          '(id, err) ← on s (connectxID peer);
          _ ← match err with
              | Some (Plain (Errno n) as err) =>
                  if n =? EINPROGRESS then mret tt else fails (dialError e raddr (SyscallErr "sctp_connectx" err))
              | Some err => fails (dialError e raddr (SyscallErr "sctp_connectx" err))
              | None => mret tt
              end;
          e' ← (if match en_addr e' with None => true | Some a => Port a =? 0 end then en_refreshAddr e' s else mret e');
          mret (e', id)
      end
  | None => fails (dialError e raddr (Plain NetErrClosed))
  end.

Definition maxAbortCause : Z := 65532 - 8.

Definition endAssoc (e : option endpoint) (method : string) (id flag : Z) (cause : bytes) : io unit :=
  if negb (en_opened e) then fails (en_closeError e (Some (Plain NetErrClosed))) else
  match assocIDArg method id with
  | Err err => fails (en_closeError e (Some err))
  | Panic => pure Panic
  | Ret _ =>
      if maxAbortCause <? len cause then
        fails (en_closeError e (Some (invalidArg (method +:+ ": a cause of %d bytes is longer than the %d bytes one ABORT chunk carries (RFC 9260 §3.3.10.12; net/sctp/sm_make_chunk.c: _sctp_make_chunk)")))) else
      let s := default zero_socket (match e with Some e => en_sock e | None => None end) in
      wrapped (fun err => en_closeError e (Some err))
        (control s (wrapped (fun err => eofSendError (Some err)) (rawSendEnd (s_fd s) flag id cause)))
  end.

Definition CloseAssoc (e : option endpoint) (id : Z) : io unit := endAssoc e "CloseAssoc" id sndFlagEOF [].
Definition AbortAssoc (e : option endpoint) (id : Z) (cause : bytes) : io unit := endAssoc e "AbortAssoc" id sndFlagAbort cause.

(** ** Queries and settings

    [asking]: what follows the check that the Endpoint is open. *)
Definition asking {X} (e : option endpoint) (op : string) (k : socket -> io X) : io X :=
  match e with
  | Some e' => if negb (en_opened e) then fails (en_optionError e op (Plain NetErrClosed)) else k (en_socket e')
  | None => fails (en_optionError e op (Plain NetErrClosed))
  end.

Definition AssocIDs (e : option endpoint) : io (list Z) :=
  asking e "get" (fun s => wrapped (en_getError e) (on s assocIDs)).

Definition AssocCount (e : option endpoint) : io Z :=
  asking e "get" (fun s => wrapped (en_optionError e "get") (on s (get_uint32 optGetAssocNumber))).

Definition assocAddrs (e : option endpoint) (method : string) (opt id : Z) : io SctpAddr :=
  asking e "get" (fun s =>
    _ ← wrapped (en_argError e "get") (pure (assocIDArg method id));
    wrapped (en_getError e) (on s (getAddrs opt id))).
Definition Endpoint_LocalAddrs (e : option endpoint) (id : Z) : io SctpAddr := assocAddrs e "LocalAddrs" optGetLocalAddrs id.
Definition Endpoint_PeerAddrs (e : option endpoint) (id : Z) : io SctpAddr := assocAddrs e "PeerAddrs" optGetPeerAddrs id.

(** In nanoseconds; below 2^62, so the int64 does not overflow. *)
Definition AutoClose (e : option endpoint) : io Z :=
  asking e "get" (fun s =>
    v ← wrapped (en_optionError e "get") (on s (get_uint32 optAutoClose));
    mret (v * Second)).

Definition SetAutoClose (e : option endpoint) (d : Z) : io unit :=
  asking e "set" (fun s =>
    secs ← wrapped (en_argError e "set") (pure (durationToSeconds "SetAutoClose" d MaxUint32));
    wrapped (en_optionError e "set") (on s (setsockopt optAutoClose (bytes_of NativeEndian 4 secs)))).

Definition Endpoint_bindx (e : option endpoint) (opt : Z) (name : string) (ips : list Addr) : io endpoint :=
  let wrap err := opError "bindx" (en_network e) None (Endpoint_Addr e) (Some err) in
  match e with
  | Some e' =>
      if negb (en_opened e) then fails (wrap (Plain NetErrClosed)) else
      bindx_on (en_socket e') wrap (fun err => optError "bindx" "setsockopt" (en_network e) None (Endpoint_Addr e) (Some err))
        opt name ips (en_refreshAddr e' (en_socket e'))
  | None => fails (wrap (Plain NetErrClosed))
  end.
Definition Endpoint_BindAdd (e : option endpoint) (ips : list Addr) : io endpoint := Endpoint_bindx e optSockoptBindxAdd "BindAdd" ips.
Definition Endpoint_BindRemove (e : option endpoint) (ips : list Addr) : io endpoint := Endpoint_bindx e optSockoptBindxRemove "BindRemove" ips.

(** ** Peeling off *)
Definition checkPeelOffState (state : Z) : option error :=
  if (state =? StateCookieWait) || (state =? StateCookieEchoed)
  then Some (Wrapf "sctp: PeelOff: wait for AssocCommUp before peeling off an association in %v: %w" (Plain (Errno EINPROGRESS)))
  else None.

Definition peelOff (fd id : Z) : io Z :=
  q ← pure (put_at NativeEndian 4 (zeros sizeStatus) statusAssocIDOff (u32 id));
  '(b, _) ← wrapped (in_call "getsockopt") (on_fd fd (rawGetsockopt ipprotoSCTP optStatus q));
  v ← pure (get_at NativeEndian 4 b statusStateOff);
  _ ← pure (fail_on (checkPeelOffState (i32 v)));
  '(spare, _) ← wrapped (fun err => Some (Wrapf "sctp: no descriptor to spare for the peeled-off association: %w" (SyscallErr "fcntl" err)))
                  (sys_call (c_dup fd));
  _ ← ignore (sys_call (c_close spare));
  arg ← pure (put_at NativeEndian 4 (zeros sizePeeloffFlagsArg) peeloffFlagsArgAssocIDOff (u32 id));
  arg ← pure (put_at NativeEndian 4 arg peeloffFlagsArgFlagsOff (u32 (Z.lor SOCK_CLOEXEC SOCK_NONBLOCK)));
  '(arg, _) ← wrapped (in_call "getsockopt") (on_fd fd (rawGetsockopt ipprotoSCTP optSockoptPeeloffFlags arg));
  sd ← pure (get_at NativeEndian 4 arg peeloffFlagsArgSDOff);
  mret (i32 sd).

Definition PeelOff (e : option endpoint) (id : Z) : io connection :=
  match e with
  | Some e' =>
      if negb (en_opened e) then fails (peelError e (Plain NetErrClosed)) else
      wrapped (peelError e)
        (let s := en_socket e' in
         _ ← pure (assocIDArg "PeelOff" id);
         fd ← control s (peelOff (s_fd s) id);
         ns ← wrapSocketFile fd (s_family s) (s_network s);
         newConn ns kindPeeled (en_peel e'))
  | None => fails (peelError e (Plain NetErrClosed))
  end.

(** ** SendMsg *)
Definition checkEndpointSend (pagesize id : Z) (b : bytes) (opts : SendOptions) : out error unit :=
  _ ← assocIDArg "SendMsg" id;
  _ ← fail_on (checkSendSize pagesize (len b));
  _ ← fail_on (validateSendOptions opts);
  if IsValid (so_Path opts)
  then Err (invalidArg "SendOptions.Path is set on an Endpoint, where Linux would find the association by the address rather than by the id given (net/sctp/socket.c: sctp_sendmsg)")
  else Ret tt.

(** sendMsg up to the call of send: the arguments it passes, or the error. *)
Definition Endpoint_sendMsg (pagesize : Z) (e : option endpoint) (ctx : context) (id : Z) (b : bytes) (opts : SendOptions)
    : out error arguments :=
  let refuse err := match en_ioError e "write" (Some err) with Some e => Err e | None => Panic end in
  if negb (en_opened e) then refuse (Plain NetErrClosed) else
  match checkEndpointSend pagesize id b opts with
  | Err err => refuse err
  | Panic => Panic
  | Ret _ => Ret {| a_ctx := ctx; a_b := b; a_opts := opts; a_name := []; a_assoc := id |}
  end.

Definition Endpoint_SendMsg (pagesize : Z) (e : option endpoint) (id : Z) (b : bytes) (opts : SendOptions) :=
  Endpoint_sendMsg pagesize e noContext id b opts.

Definition Endpoint_SendMsgContext (pagesize : Z) (e : option endpoint) (ctx : option (context * option error)) (id : Z)
    (b : bytes) (opts : SendOptions) : out error arguments :=
  let refuse err := match en_ioError e "write" (Some err) with Some e => Err e | None => Panic end in
  match ctx with
  | None => refuse (invalidArg "SendMsgContext needs a non-nil context")
  | Some (_, Some err) => refuse err
  | Some (ctx, None) => Endpoint_sendMsg pagesize e ctx id b opts
  end.

(** sendMsg's results from send's. *)
Definition Endpoint_sendMsg_result (e : option endpoint) (n : Z) (err : option error) : Z * option error :=
  (n, match err with Some _ => en_ioError e "write" err | None => None end).

(** ** Deadlines and raw access *)
Definition Endpoint_setDeadline (e : option endpoint) (d : deadlines) (h : host) (t : option Z) (m : mode)
    : deadlines * host * option error :=
  match e with
  | Some {| en_sock := Some _ |} =>
      if negb (en_opened e) then (d, h, opError "set" (en_network e) None (Endpoint_Addr e) (Some (Plain NetErrClosed))) else
      let '(d, h, err) := setDeadline d h t m in
      (d, h, match err with Some _ => opError "set" (en_network e) None (Endpoint_Addr e) err | None => None end)
  | _ => (d, h, opError "set" (en_network e) None None (Some (Plain NetErrClosed)))
  end.

Definition Endpoint_SetDeadline (e : option endpoint) (d : deadlines) (h : host) (t : option Z) := Endpoint_setDeadline e d h t mode_b.
Definition Endpoint_SetReadDeadline (e : option endpoint) (d : deadlines) (h : host) (t : option Z) := Endpoint_setDeadline e d h t mode_r.
Definition Endpoint_SetWriteDeadline (e : option endpoint) (d : deadlines) (h : host) (t : option Z) := Endpoint_setDeadline e d h t mode_w.

Definition Endpoint_SyscallConn (e : option endpoint) : out error unit :=
  if negb (en_opened e)
  then match opError "syscallconn" (en_network e) None (Endpoint_Addr e) (Some (Plain NetErrClosed)) with Some e => Err e | None => Panic end
  else Ret tt.

Definition endpointRawConn_Control {X} (e : endpoint) (f : io X) : io X :=
  r ← caught (File_Control (s_file (en_socket e)) (caught f));
  match r with
  | inr err => fails (opError "raw-control" (en_network (Some e)) None (Endpoint_Addr (Some e)) (Some err))
  | inl (inr err) => fails (Some err)
  | inl (inl x) => mret x
  end.
Definition endpointRawConn_Read (wakes : nat) (e : endpoint) (f : io (option unit)) : io (option unit) :=
  wrapped (fun err => opError "raw-read" (en_network (Some e)) (Endpoint_Addr (Some e)) None (Some err)) (raw_Read wakes (s_file (en_socket e)) f).
Definition endpointRawConn_Write (wakes : nat) (e : endpoint) (f : io (option unit)) : io (option unit) :=
  wrapped (fun err => opError "raw-write" (en_network (Some e)) (Endpoint_Addr (Some e)) None (Some err)) (raw_Read wakes (s_file (en_socket e)) f).

(** ** endpointCloseOps

    [ec_shut] is the map of the ids that have been asked to shut down. *)
Record endpointCloseOps := { ec_ops : sockCloseOps; ec_shut : gset Z }.

Definition ec_sock (o : endpointCloseOps) : socket := k_sock (ec_ops o).

Definition en_newCloseOps (e : endpoint) : endpointCloseOps := {|
  ec_ops := {| k_sock := en_socket e; k_kind := kindZero; k_send := false; k_wakes := 0; k_term := None |}; ec_shut := ∅ |}.

Fixpoint shutdown_loop (s : socket) (shut : gset Z) (ids : list Z) : io unit :=
  match ids with
  | [] => mret tt
  | id :: ids =>
      _ ← (if bool_decide (id ∈ shut) then mret tt else ignore (control s (rawSendEnd (s_fd s) sndFlagEOF id [])));
      shutdown_loop s shut ids
  end.

Definition shutdownEach (o : endpointCloseOps) (ids : list Z) : io endpointCloseOps :=
  _ ← shutdown_loop (ec_sock o) (ec_shut o) ids;
  mret {| ec_ops := ec_ops o; ec_shut := list_to_set ids |}.

Definition en_startShutdown (o : endpointCloseOps) : io (endpointCloseOps * option error) :=
  r ← caught (on (ec_sock o) assocIDs);
  match r with
  | inr err => mret (o, Some err)
  | inl ids => o ← shutdownEach o ids; mret (o, None)
  end.

Definition en_assocGone (o : endpointCloseOps) : io (endpointCloseOps * (bool + error)) :=
  r ← caught (on (ec_sock o) assocIDs);
  match r with
  | inr err => mret (o, inr err)
  | inl ids => if len ids =? 0 then mret (o, inl true) else o ← shutdownEach o ids; mret (o, inl false)
  end.

#[global] Instance endpoint_CloseOps : CloseOps endpointCloseOps := {
  op_assocGone o := en_assocGone o;
  op_startShutdown o := en_startShutdown o;
  op_abortive o := e ← abortive (ec_sock o); mret (o, e);
  op_release o := e ← err_of (release (ec_sock o)); mret (o, e);
}.

(** ** Close and Abort *)
Definition Endpoint_close (fuel : nat) (e : option endpoint) (k : endpoint -> call) : io (option endpoint * option (option error)) :=
  match e with
  | None => mret (None, Some nil_close)
  | Some e' =>
      '(_, l, res) ← drive fuel (en_newCloseOps e') (en_life e') (enter (k e'));
      mret (Some (set_en_life e' l), en_closeError e <$> res)
  end.

Definition Endpoint_Close (fuel : nat) (e : option endpoint) := Endpoint_close fuel e (fun e => CallClose (en_closeWait e)).
Definition Endpoint_Abort (fuel : nat) (e : option endpoint) := Endpoint_close fuel e (fun _ => CallAbort).
End Endpoints.

(** ** The query for the associations *)
Section Query.
Context `{A : Arch} `{AK : !ArchOk A} `{K : Kernel}.

(** A query with room for [room] ids. *)
Definition ids_query (room : Z) : syscall := Getsockopt ipprotoSCTP optGetAssocIDList (zeros (sizeAssocIDs + room * sizeAssocID)).

(** What a turn gets out of the reply. *)
Definition ids_of (room : Z) (l : calls) (r : out error (option (list Z))) : Prop :=
  match r with
  | Ret None => l = [Did (ids_query room) EINVAL []] /\ room < assocIDListLimit
  | Ret (Some ids) => StronglySorted Z.lt ids /\ Forall real_id ids /\ len ids <= assocIDListLimit /\
      exists reply raw, l = [Did (ids_query room) 0 reply] /\ ids ≡ₚ raw /\ take (length (assocIDs_bytes raw)) reply = assocIDs_bytes raw
  | Err _ => l = [] \/ exists errno reply, l = [Did (ids_query room) errno reply]
  | Panic => wordSize = 4 /\ exists w w' reply n, l = [Did (ids_query room) 0 (reply_into (zeros (sizeAssocIDs + room * sizeAssocID)) reply)] /\
      k_getsockopt w ipprotoSCTP optGetAssocIDList (zeros (sizeAssocIDs + room * sizeAssocID)) = (w', (0, (reply, n))) /\ 2 ^ 31 <= u32 n
  end.

(** getsockopt(2) never reports a value longer than the buffer it was
    given. *)
Definition lengths_within : Prop :=
  forall w level opt b w' reply n, k_getsockopt w level opt b = (w', (0, (reply, n))) -> u32 n <= len b.

Lemma emits_getk level opt b Q :
  len b <> 0 ->
  (forall w w' errno r n, k_getsockopt w level opt b = (w', (errno, (r, n))) ->
     Q [Did (Getsockopt level opt b) errno (if errno =? 0 then reply_into b r else [])]
       (if errno =? 0 then Ret (reply_into b r, u32 n) else Err (errno_error errno))) ->
  emits (rawGetsockopt level opt b) Q.
Proof.
  intros Hb HQ s. unfold rawGetsockopt. rewrite (proj2 (Z.eqb_neq _ _) Hb).
  destruct (k_getsockopt (kern s) level opt b) as [w [errno [r n]]] eqn:E. exact (HQ _ _ _ _ _ E).
Qed.

(** The guard holds what the slice needs, but for a length that is negative
    as an int. *)
Lemma to_int_fits n : is_u32 n -> (to_int n = n /\ (wordSize = 8 \/ n < 2 ^ 31)) \/ (wordSize = 4 /\ 2 ^ 31 <= n).
Proof.
  intros Hn. unfold to_int. destruct wordSize_cases as [E | E]; rewrite E; [| left; auto]. change (4 =? 8) with false. cbv iota.
  destruct (Z.lt_ge_cases n (2 ^ 31)); [left | by right]. split; [| by right].
  unfold i32. rewrite u32_small by done. by rewrite (proj2 (Z.ltb_lt _ _)).
Qed.

Lemma assocIDs_turn_ids room : 0 <= room -> emits (assocIDs_turn room) (ids_of room).
Proof.
  intros Hroom. assert (Hlen : len (zeros (sizeAssocIDs + room * sizeAssocID)) = sizeAssocIDs + room * sizeAssocID) by (rewrite len_zeros; abi; lia).
  apply emits_bind, emits_caught, emits_control; [| by apply emits_fails; left].
  apply emits_getk; [rewrite Hlen; abi; lia |]. intros w w' errno r n Hk. fold (ids_query room).
  destruct (Z.eqb_spec errno 0) as [-> | Hn]; cbn [then_].
  - set (buf := reply_into _ r). assert (Hb : len buf = sizeAssocIDs + room * sizeAssocID) by (unfold buf; by rewrite len_reply_into).
    pose proof (Z.mod_pos_bound n (2 ^ 32) ltac:(done) : is_u32 (u32 n)) as Hu.
    destruct (Z.ltb_spec (len buf) (to_int (u32 n))) as [| Hl]; [apply emits_fails; right; by eexists _, _ |].
    apply emits_pure_bind. unfold slice. change (0 <=? 0) with true. rewrite (proj2 (Z.leb_le 0 (u32 n))) by apply Hu. cbn [andb].
    destruct (Z.leb_spec (u32 n) (len buf)) as [Hfit | Hover].
    2:{ destruct (to_int_fits (u32 n) Hu) as [[E _] | [Hws Hbig]]; [lia |]. split; [done |]. by exists w, w', r, n. }
    apply emits_pure_bind. destruct (decodeAssocIDs_spec (sub buf 0 (u32 n - 0))) as [Hd _].
    destruct (decodeAssocIDs (sub buf 0 (u32 n - 0))) as [ids | e |]; [| right; by eexists _, _ | done].
    apply emits_ret. destruct Hd as (Hs & Hf & Hlim & raw & Hp & Hraw). split_and!; [done.. |]. exists buf, raw.
    split_and!; [done | done |]. rewrite <- Hraw. unfold sub. rewrite drop_0. rewrite length_take. f_equal. unfold len in Hfit. lia.
  - change (errno_error errno) with (Plain (Errno errno)). cbv beta iota. destruct (Z.eqb_spec errno EINVAL) as [E | E]; [destruct (Z.ltb_spec room assocIDListLimit) |].
    + apply emits_ret. subst. done.
    + apply emits_fails. right. by eexists _, _.
    + apply emits_fails. right. by eexists _, _.
Qed.

(** The queries that were answered EINVAL, from room [room] on. *)
Fixpoint doubled (k : nat) (room : Z) : calls :=
  match k with
  | O => []
  | S k => Did (ids_query room) EINVAL [] :: doubled k (room * 2)
  end.

Lemma doubled_len k room : length (doubled k room) = k.
Proof. revert room. induction k as [| k IH]; intros room; cbn; [done |]. by rewrite IH. Qed.

Definition last_answer (r : out error (list Z)) : out error (option (list Z)) :=
  match r with Ret ids => Ret (Some ids) | Err e => Err e | Panic => Panic end.

Lemma assocIDs_loop_ids n room :
  0 <= room -> room * 2 ^ Z.of_nat n = assocIDListLimit ->
  emits (assocIDs_loop (S n) room) (fun l r =>
    exists k l', (k <= n)%nat /\ l = doubled k room ++ l' /\ ids_of (room * 2 ^ Z.of_nat k) l' (last_answer r)).
Proof.
  revert room. induction n as [| n IH]; intros room Hr Hn; cbn [assocIDs_loop]; apply emits_bind;
    (eapply emits_mono; [by apply assocIDs_turn_ids |]); intros l [[ids |] | e |] Hi; cbn [then_]; try done.
  all: try (apply emits_ret; exists 0%nat, (l ++ []); rewrite Z.mul_1_r, app_nil_r; split_and!; [lia | done | done]).
  all: try (exists 0%nat, l; rewrite Z.mul_1_r; split_and!; [lia | done | done]).
  - destruct Hi as [_ Hi]. change (2 ^ Z.of_nat 0) with 1 in Hn. lia.
  - destruct Hi as [-> Hi]. rewrite Nat2Z.inj_succ, Z.pow_succ_r, Z.mul_assoc in Hn by lia.
    eapply emits_mono; [by apply IH; [lia |] |]. intros l' r (k & l2 & Hk & -> & Hl2). exists (S k), l2. split_and!; [lia | done |].
    by rewrite Nat2Z.inj_succ, Z.pow_succ_r, Z.mul_assoc by lia.
Qed.

(** No buffer the query uses is as long as 2^31 bytes. *)
Lemma ids_of_returns k l : lengths_within -> (k <= 16)%nat -> ~ ids_of (16 * 2 ^ Z.of_nat k) l Panic.
Proof.
  intros Hw Hk (_ & w & w' & reply & n & _ & Hg & Hn). apply Hw in Hg.
  assert (1 <= 2 ^ Z.of_nat k <= 2 ^ 16).
  { split; [apply (Z.pow_le_mono_r 2 0); lia | apply Z.pow_le_mono_r; lia]. }
  rewrite len_zeros in Hg by (abi; lia). revert Hg. abi. lia.
Qed.

(** A kernel with the associations [ids], which answers as Linux does:
    EINVAL when the buffer is too small for the list, and otherwise the list
    and its length. *)
Definition knows_assocs (ids : list Z) : Prop :=
  (forall w, k_control w = (w, true)) /\
  forall w b, k_getsockopt w ipprotoSCTP optGetAssocIDList b =
    (w, if len b <? len (assocIDs_bytes ids) then (EINVAL, ([], 0)) else (0, (assocIDs_bytes ids, len (assocIDs_bytes ids)))).

Lemma len_assocIDs_bytes ids : len (assocIDs_bytes ids) = 4 + len ids * 4.
Proof. unfold assocIDs_bytes. rewrite len_app, len_bytes_of, len_bytes_of_list. unfold len. rewrite length_fmap. lia. Qed.

Definition all_ids (ids : list Z) : out error (list Z) :=
  if len ids <=? assocIDListLimit then Ret (slices_Sort ids) else Err (Wrapf "%w: more than %d ids" (Plain ErrAssocListTooLarge)).

Lemma assocIDs_turn_known ids room p :
  knows_assocs ids -> NoDup ids -> Forall real_id ids -> 0 <= room <= assocIDListLimit ->
  (assocIDs_turn room p).2 =
    if len ids <=? room then Ret (Some (slices_Sort ids)) else
    if room <? assocIDListLimit then Ret None else Err (Wrapf "%w: more than %d ids" (Plain ErrAssocListTooLarge)).
Proof.
  intros [Hc Hk] Hnd Hf Hroom. assert (Hlim : assocIDListLimit = 1048576) by done.
  set (b := zeros (sizeAssocIDs + room * sizeAssocID)). assert (Hb : len b = 4 + room * 4) by (unfold b; rewrite len_zeros; abi; lia).
  unfold assocIDs_turn, getsockopt, getsockoptAt, sock_control, rawGetsockopt. fold b. run_sys. rewrite Hc. cbn. rewrite (proj2 (Z.eqb_neq (len b) 0)) by lia.
  rewrite Hk, Hb, len_assocIDs_bytes. pose proof (len_nonneg ids). destruct (Z.leb_spec (len ids) room) as [Hle | Hgt].
  - rewrite (proj2 (Z.ltb_ge _ _)) by lia. cbn. rewrite len_reply_into, Hb, u32_small by (unfold is_u32; lia).
    destruct (to_int_fits (4 + len ids * 4)) as [[-> _] | [_ ?]]; [unfold is_u32; lia | | lia].
    rewrite (proj2 (Z.ltb_ge _ _)) by lia. rewrite slice_ok by (rewrite ?len_reply_into; lia). cbn.
    assert (Hsub : sub (reply_into b (assocIDs_bytes ids)) 0 (4 + len ids * 4 - 0) = assocIDs_bytes ids).
    { unfold sub, reply_into. rewrite drop_0. pose proof (len_assocIDs_bytes ids) as Hl. unfold len in *.
      rewrite (take_ge (assocIDs_bytes ids)) by lia. rewrite take_app_le by lia. apply take_ge. lia. }
    rewrite Hsub. rewrite (proj2 (decodeAssocIDs_spec []) ids Hnd Hf) by lia. done.
  - rewrite (proj2 (Z.ltb_lt _ _)) by lia. cbn. destruct (Z.ltb_spec room assocIDListLimit); done.
Qed.

Lemma assocIDs_loop_S fuel room p :
  (assocIDs_loop (S fuel) room p).2 =
    match assocIDs_turn room p with
    | (p1, _, Ret None) => (assocIDs_loop fuel (room * 2) p1).2
    | (_, _, Ret (Some ids)) => Ret ids
    | (_, _, Err e) => Err e
    | (_, _, Panic) => Panic
    end.
Proof.
  cbn [assocIDs_loop]. unfold mbind, sys_bind. destruct (assocIDs_turn room p) as [[p1 l] [[ids |] | e |]]; try done.
  by destruct (assocIDs_loop fuel (room * 2) p1) as [[p2 l2] r].
Qed.

Lemma assocIDs_loop_known ids n room p :
  knows_assocs ids -> NoDup ids -> Forall real_id ids -> 0 <= room -> room * 2 ^ Z.of_nat n = assocIDListLimit ->
  (assocIDs_loop (S n) room p).2 = all_ids ids.
Proof.
  intros Hk Hnd Hf. revert room p. induction n as [| n IH]; intros room p Hr Hn.
  all: rewrite assocIDs_loop_S.
  all: assert (Hlim : room <= assocIDListLimit) by (match type of Hn with _ * 2 ^ ?k = _ => pose proof (Z.pow_pos_nonneg 2 k) end; nia).
  all: pose proof (assocIDs_turn_known ids room p Hk Hnd Hf (conj Hr Hlim)) as Ht; destruct (assocIDs_turn room p) as [[p1 l] r]; cbn in Ht; subst r.
  all: unfold all_ids; destruct (Z.leb_spec (len ids) room); [rewrite (proj2 (Z.leb_le _ _)) by lia; done |].
  - assert (room = assocIDListLimit) by (change (2 ^ Z.of_nat 0) with 1 in Hn; lia). rewrite (proj2 (Z.ltb_ge _ _)) by lia.
    rewrite (proj2 (Z.leb_gt _ _)) by lia. done.
  - rewrite Nat2Z.inj_succ, Z.pow_succ_r, Z.mul_assoc in Hn by lia. pose proof (Z.pow_pos_nonneg 2 (Z.of_nat n)).
    assert (0 < room) by (assert (assocIDListLimit = 1048576) by done; nia). rewrite (proj2 (Z.ltb_lt _ _)) by nia.
    apply IH; [lia | exact Hn].
Qed.

(** C27 The query for the associations of an Endpoint.  For every kernel it
    ends after at most 17 calls, with a buffer for at most 2^20 ids; a list
    it returns is in increasing order, without repetition or a scope
    selector, of at most 2^20 ids, and is exactly the list in the kernel's
    last answer.  It panics only on a 32-bit target, and only when the
    kernel's last answer reports a length of 2^31 or more, which the guard
    on int(l) lets through: never with a kernel that reports at most the
    length it was given, as getsockopt(2) does.  From a kernel that answers
    as Linux does it gets every association, or ErrAssocListTooLarge when
    there are more than 2^20. *)
Theorem assocIDs_spec p :
  let '(_, l, r) := assocIDs p in
  (exists k l', (k <= 16)%nat /\ l = doubled k 16 ++ l' /\ ids_of (16 * 2 ^ Z.of_nat k) l' (last_answer r)) /\
  (lengths_within -> r <> Panic) /\
  forall ids, knows_assocs ids -> NoDup ids -> Forall real_id ids -> r = all_ids ids.
Proof.
  pose proof (assocIDs_loop_ids 16 16 ltac:(lia) eq_refl p) as Hl.
  pose proof (fun ids Hk Hnd Hf => assocIDs_loop_known ids 16 16 p Hk Hnd Hf ltac:(lia) eq_refl) as Hk.
  unfold assocIDs, assocIDsFirstBuffer. destruct (assocIDs_loop 17 16 p) as [[p' l] r]. split_and!; [exact Hl | | exact Hk].
  intros Hw ->. destruct Hl as (k & l' & Hk16 & _ & Hp). by eapply ids_of_returns in Hp.
Qed.

Lemma calm_assocIDs : lengths_within -> calm assocIDs no_panic.
Proof.
  intros Hw. eapply emits_mono; [by apply (assocIDs_loop_ids 16 16) |]. intros l r (k & l' & Hk & -> & Hi).
  destruct r as [ids | e |]; [| | exfalso; by eapply ids_of_returns in Hi].
  all: split; [| done]; apply Forall_app; split; [clear; generalize 16; induction k as [| k IH]; intros z; constructor; [done | apply IH] |]; cbn in Hi.
  - destruct Hi as (_ & _ & _ & reply & raw & -> & _). by repeat constructor.
  - destruct Hi as [-> | (errno & reply & ->)]; [constructor |]. constructor; [| constructor]. by destruct errno.
Qed.
End Query.

(** ** The descriptors of an Endpoint *)
Section Ownership.
Context `{A : Arch} `{AK : !ArchOk A} `{ZE : ZoneEnv} `{CS : ClosingSentinel} `{IT : IPText} `{H : Host} `{HO : !HostOk}.

Lemma runs_setupEndpoint g s address ctl ops bind listening Q :
  held_wf g -> has g s -> hook_ok ctl -> (forall b, bind = Some b -> 0 < len b) ->
  (forall r g', kept_by g r g' -> Q r g') -> runs g (setupEndpoint s address ctl ops bind listening) Q.
Proof.
  intros Hw Hs Hh Hb HQ. unfold setupEndpoint. destruct listening; [by apply runs_setupListener |].
  apply runs_bind, runs_setupSocket; [done | done | done |].
  intros [u | e |] g1 [Hp Hk]; cbn [next_runs]; [| by apply HQ | done]. pose proof (has_keeps _ _ _ Hs Hk) as (Ho & _).
  apply runs_bindx_add; [done | done |]. intros r Hr. by apply HQ.
Qed.

(** An Endpoint has its descriptor and its lifecycle is open, or the
    descriptor has been closed. *)
Definition endpoint_or (g : held) (r : out error endpoint) (g' : held) : Prop :=
  match r with
  | Ret e => exists s, en_sock e = Some s /\ hands g s g' /\ en_life e = Close.init (zero_lifecycle 0)
  | Err _ => keeps g g'
  | Panic => False
  end.

Lemma calm_readDefaults `{K : Kernel} s : calm (readDefaults s) (fun r => exists s', r = Ret s').
Proof.
  apply calm_quiet.
  - unfold readDefaults. destruct quiet_getDefaults. apply quiet_bind; [apply quiet_caught, quiet_control | intros; apply quiet_ret].
    apply quiet_bind; [done |]. intros snd. apply quiet_bind; [done |]. intros pr. apply quiet_ret.
  - unfold readDefaults. apply emits_bind, emits_caught, emits_control; [| apply emits_ret; eauto].
    apply emits_bind. eapply emits_mono; [apply getDefaultSndInfo_fine |]. intros l [snd | e |] Hp; cbn [then_]; [| apply emits_ret; eauto | done].
    apply emits_bind. eapply emits_mono; [apply getDefaultPrInfo_fine |]. intros l2 [pr | e |] Hp2; cbn [then_]; [| apply emits_ret; eauto | done].
    apply emits_ret. cbn [then_]. apply emits_ret. eauto.
Qed.

Lemma runs_newEndpoint g s p own g' Q :
  hands g s g' -> (forall r, endpoint_or g r g' -> Q r g') -> runs g' (newEndpoint s p own) Q.
Proof.
  intros Hh HQ. pose proof (hands_has _ _ _ Hh) as (Ho & _). apply runs_bind.
  eapply runs_on; [done | apply calm_readDefaults |]. intros r [snd ->]. cbn [next_runs].
  apply runs_bind, runs_caught, runs_getAddrs; [done | done |].
  intros [a | e |] Hp; cbn [next_runs]; [| | done]; apply runs_ret, HQ; by exists s.
Qed.

Lemma runs_openEndpoint control_of c style network laddr g Q :
  held_wf g -> (forall f, hook_ok (Some (control_of f))) -> wf_addr laddr ->
  (forall r g', endpoint_or g r g' -> Q r g') -> runs g (openEndpoint control_of c style network laddr) Q.
Proof.
  intros Hw Hh Hl HQ. assert (Herr : forall e, Q (Err e) g) by (intros e; by apply HQ, keeps_refl).
  apply runs_bind, runs_socketFamily. intros [family | e |] Hp; cbn [next_runs]; [| apply Herr | done].
  apply runs_bind, runs_pure. pose proof (prepare_total c style) as Hp'. destruct (prepare c style) as [p | e |]; cbn [next_runs]; [| apply Herr | done].
  apply runs_bind, runs_pure.
  match goal with |- next_runs _ _ ?r _ =>
    assert (Hbind : match r with Ret (b, _) => forall b', b = Some b' -> 0 < len b' | Err _ => True | Panic => False end);
    [| destruct r as [[bind address] | e |]; cbn [next_runs]; [| apply Herr | done]]
  end.
  { destruct laddr as [la |]; [| done]. pose proof (localBindAddrs_ok family la Hl) as Ho.
    destruct (localBindAddrs family la) as [b | e |]; [by intros b' [= <-] | done | done]. }
  apply runs_bind, runs_openSocket; [done |]. intros [s | e |] g1 Ho; cbn [next_runs opened_or] in *; [| by apply HQ | done].
  apply runs_bind, runs_err_of, runs_setupEndpoint; [by apply Ho | by eapply hands_has | | exact Hbind |].
  - destruct c as [c |]; [| by intros h]. destruct (cfg_Control c) as [f |]; [apply Hh | by intros h].
  - intros [u | e |] g2 [Hp2 Hk]; cbn [next_runs]; [| | done]; pose proof (hands_keeps _ _ _ _ Ho Hk) as H2.
    + apply (runs_newEndpoint g); [done |]. intros r Hr. by apply HQ.
    + apply runs_bind, runs_ignore, (runs_abortive g); [done | done |]. intros e' g3 Hk3. cbn [next_runs]. by apply runs_fails, HQ.
Qed.

(** ** PeelOff *)

(** A call that peels: the ledger takes the descriptor in the reply. *)
Lemma runs_peel g fd arg Q :
  fd ∈ owned g -> len arg = sizePeeloffFlagsArg ->
  (forall reply n, len reply = len arg -> let v := i32 (uint_of NativeEndian (sub reply peeloffFlagsArgSDOff 4)) in
     Q (Ret (reply, n)) (if 0 <=? v then with_fd g v else g)) ->
  (forall e, Q (Err e) g) -> runs g (on_fd fd (rawGetsockopt ipprotoSCTP optSockoptPeeloffFlags arg)) Q.
Proof.
  intros Ho Ha HQ He s Hc Hn. unfold on_fd, rawGetsockopt. rewrite Ha. cbn -[peeloffFlagsArgSDOff].
  destruct (os_getsockopt _ _ _ _ _) as [o [errno [r n]]]. cbn -[peeloffFlagsArgSDOff entry].
  destruct (Z.eqb_spec errno 0) as [-> | Hne]; cbn -[peeloffFlagsArgSDOff]; rewrite bool_decide_eq_true_2 by done.
  - specialize (HQ (reply_into arg r) (u32 n) (len_reply_into _ _)). cbv zeta in HQ. unfold acquire, holding. cbn.
    destruct (0 <=? _); (eexists; split; [done |]); cbn; rewrite Hc, Hn; [exact HQ | by destruct g].
  - exists (owned g). split; [by destruct errno |]. unfold holding. cbn. rewrite Hc, Hn. destruct g. apply He.
Qed.

Lemma runs_peelOff g fd id Q :
  held_wf g -> fd ∈ owned g -> (forall e, Q (Err e) g) -> (forall v, Q (Ret v) (if 0 <=? v then with_fd g v else g)) -> runs g (peelOff fd id) Q.
Proof.
  intros Hw Ho He HQ. apply runs_bind, runs_pure. rewrite (put_at_ok NativeEndian 4 (zeros sizeStatus)) by (rewrite ?len_zeros; abi; lia).
  cbn [next_runs]. set (q := splice (zeros sizeStatus) _ _).
  assert (Hq : len q = sizeStatus) by (unfold q; rewrite len_splice; rewrite ?len_bytes_of, ?len_zeros; abi; lia).
  apply runs_bind, runs_wrapped; [done |]. eapply (runs_on_fd _ _ _ (fun r => match r with Ret (b, _) => len b = sizeStatus | Err _ => True | Panic => False end)); [done | |].
  { apply calm_quiet; [by apply quiet_get |]. apply emits_get; [rewrite Hq; abi; lia |]. intros errno b n Hb. rewrite <- Hq. by destruct (errno =? 0). }
  intros [[b n] | e |] Hb; cbn [next_runs]; [| intros e' _; apply He | done].
  apply runs_bind, runs_pure. rewrite get4_ok by (abi; lia). cbn [next_runs]. apply runs_bind, runs_pure.
  destruct (checkPeelOffState _) as [err |]; cbn [fail_on next_runs]; [apply He |].
  apply runs_bind, runs_wrapped; [done |]. apply runs_open; [done | by apply bool_decide_eq_true_2 | | intros e e' _; cbn [next_runs]; apply He].
  intros spare d Hspare. cbn [next_runs]. apply runs_bind, runs_ignore, runs_close. intros r Hr.
  assert (Hrest : runs g (arg ← pure (put_at NativeEndian 4 (zeros sizePeeloffFlagsArg) peeloffFlagsArgAssocIDOff (u32 id));
     arg ← pure (put_at NativeEndian 4 arg peeloffFlagsArgFlagsOff (u32 (Z.lor SOCK_CLOEXEC SOCK_NONBLOCK)));
     '(arg, _) ← wrapped (in_call "getsockopt") (on_fd fd (rawGetsockopt ipprotoSCTP optSockoptPeeloffFlags arg));
     sd ← pure (get_at NativeEndian 4 arg peeloffFlagsArgSDOff); mret (i32 sd)) Q).
  { apply runs_bind, runs_pure. rewrite put_at_ok by (rewrite ?len_zeros; abi; lia). cbn [next_runs]. set (arg1 := splice _ _ _).
    assert (H1 : len arg1 = sizePeeloffFlagsArg) by (unfold arg1; rewrite len_splice; rewrite ?len_bytes_of, ?len_zeros; abi; lia).
    apply runs_bind, runs_pure. rewrite put_at_ok by (rewrite ?H1; abi; lia). cbn [next_runs]. set (arg2 := splice _ _ _).
    assert (H2 : len arg2 = sizePeeloffFlagsArg) by (unfold arg2; rewrite len_splice; rewrite ?len_bytes_of, ?H1; abi; lia).
    apply runs_bind, runs_wrapped; [done |]. apply runs_peel; [done | done | | intros e e' _; cbn [next_runs]; apply He].
    intros reply n' Hrep. cbv zeta. cbn [next_runs]. apply runs_bind, runs_pure. rewrite get4_ok by (rewrite ?Hrep, ?H2; abi; lia). cbn [next_runs].
    apply runs_ret, HQ. }
  by destruct r.
Qed.

Lemma runs_PeelOff g e id Q :
  held_wf g -> (forall e' s, e = Some e' -> en_sock e' = Some s -> s_fd s ∈ owned g) ->
  (forall r g', conn_or g r g' -> Q r g') -> runs g (PeelOff e id) Q.
Proof.
  intros Hw Hs HQ. assert (Herr : forall err, Q (Err err) g) by (intros err; by apply HQ, keeps_refl).
  assert (Hpe : forall err, runs g (fails (peelError e err)) Q).
  { intros err. unfold peelError. destruct (opError_Some "peeloff" (en_network e) None (Endpoint_Addr e) err) as [e' ->]. by apply runs_fails. }
  destruct e as [e |]; [| apply Hpe]. cbn [PeelOff]. destruct (en_opened (Some e)) eqn:Hop; cbn [negb]; [| apply Hpe].
  assert (Hsock : exists s, en_sock e = Some s) by (unfold en_opened in Hop; destruct (en_sock e); [eauto | done]).
  destruct Hsock as [s Es]. specialize (Hs e s eq_refl Es). unfold en_socket. rewrite Es. cbn [default].
  apply runs_wrapped; [intros err; apply opError_some |].
  apply runs_bind, runs_pure. destruct (assocIDArg "PeelOff" id) as [u | err |] eqn:Ea; cbn [next_runs].
  2: { intros err' _. apply Herr. }
  2: { unfold assocIDArg in Ea. by repeat case_match. }
  apply runs_bind, runs_control; [| cbn [next_runs]; intros e' _; apply Herr].
  apply runs_peelOff; [done | done | intros err e' _; apply Herr |]. intros v. cbn [next_runs].
  apply runs_bind, runs_wrapSocketFile; [done |]. intros [ns | err |] g1 Ho; cbn [next_runs opened_or] in *; [| intros e' _; by apply HQ | done].
  apply (runs_newConn g); [done | done |]. intros [c | err |] g2 Hc; [by apply HQ | | done]. intros e' _. by apply HQ.
Qed.
End Ownership.

(** ** Ending associations *)
Section Ending.
Context `{A : Arch} `{AK : !ArchOk A} `{ZE : ZoneEnv} `{CS : ClosingSentinel} `{IT : IPText} `{H : Host}.

(** The message that ends association [id]: one SCTP_SNDINFO record with
    the flag and the id, and the cause as the payload. *)
Definition end_message (flag id : Z) (cause : bytes) : outgoing := {|
  o_iov := cause;
  o_control := concat (map cmsg_bytes (send_records (Some {| snd_Stream := 0; snd_Flags := flag; snd_PPID := 0; snd_Context := 0 |}) id None None));
  o_flags := Z.lor MSG_DONTWAIT MSG_NOSIGNAL |}.

Lemma rawSendEnd_call fd flag id cause st :
  exists st' errno v d, rawSendEnd fd flag id cause st =
    (st', [ACall (c_sendmsg fd (end_message flag id cause)) errno v d], if errno =? 0 then Ret tt else Err (errno_error errno)).
Proof.
  unfold rawSendEnd. set (snd := Some _).
  assert (Hz : sndCmsgSpace <= len (zeros sndCmsgSpace)).
  { assert (0 <= sndCmsgSpace) by (arch_cases A; done). rewrite len_zeros; lia. }
  destruct (appendSendCmsgs_writes (zeros sndCmsgSpace) snd id None None Hz) as (-> & _). unfold end_message. fold snd.
  generalize (concat (map cmsg_bytes (send_records snd id None None))). intros recs. unfold mbind, sys_bind, pure. cbv iota.
  assert (Ht : forall more, take (Z.to_nat (len recs)) (recs ++ more) = recs).
  { intros more. unfold len. rewrite Nat2Z.id, take_app_le by lia. by apply take_ge. }
  rewrite Ht. unfold sys_call. destruct (os_call _ _) as [o [errno [v d]]].
  eexists _, errno, v, d. destruct (errno =? 0); done.
Qed.

(** What control makes of such a send. *)
Lemma control_send s flag id cause st :
  exists st' l r, control s (rawSendEnd (s_fd s) flag id cause) st = (st', l, r) /\
    ((l = [] /\ r = Err (Plain NetErrClosed)) \/
     exists errno v d, l = [ACall (c_sendmsg (s_fd s) (end_message flag id cause)) errno v d] /\ r = if errno =? 0 then Ret tt else Err (errno_error errno)) /\
    (is_closed st (s_file s) = false -> (forall o, exists o', os_released o (s_file s) = (o', false)) -> l <> [] /\ p_closed st' = p_closed st).
Proof.
  unfold control, File_Control, mbind, sys_bind, caught. destruct (is_closed st (s_file s)) eqn:Hcl.
  { cbn. eexists _, _, _. split; [done |]. split; [by left | done]. }
  destruct (os_released (p_os st) (s_file s)) as [o gone] eqn:Hrel. destruct gone.
  { cbn. eexists _, _, _. split; [done |]. split; [by left |]. intros _ Hall. destruct (Hall (p_os st)) as [o' Ho]. congruence. }
  pose proof (rawSendEnd_call (s_fd s) flag id cause (set_os st o)) as (st' & errno & v & d & He).
  assert (Hpc : p_closed st' = p_closed st).
  { unfold rawSendEnd in He. destruct (appendSendCmsgs _ _ _ _ _ _) as [[cb k] | e |]; [| done..]. revert He. run_sys.
    unfold sys_call. destruct (os_call _ _) as [o1 [errno' [v' d']]]. destruct (errno' =? 0); intros E; injection E as <- _ _; done. }
  rewrite He. destruct (Z.eqb_spec errno 0) as [-> | Hn]; cbn; eexists _, _, _; (split; [done |]); (split; [right; eexists _, v, d | intros; by split]).
  - by split.
  - rewrite (proj2 (Z.eqb_neq _ _) Hn). by split.
Qed.

Lemma assocIDArg_EINVAL method id :
  match assocIDArg method id with Ret _ => assocScopeAll < id | Err e => errors_Is e (Errno EINVAL) = true /\ id <= assocScopeAll | Panic => False end.
Proof.
  unfold assocIDArg. destruct (realAssocID id) eqn:Hr; [by apply realAssocID_spec |].
  assert (id <= assocScopeAll) by (unfold realAssocID in Hr; by apply Z.ltb_ge).
  repeat (destruct (id =? _); [by split |]). by split.
Qed.

Lemma wrapped_run {X} wrap (m : io X) st st' l r :
  m st = (st', l, r) ->
  wrapped wrap m st = (st', l, match r with Err e => match wrap e with Some e => Err e | None => Panic end | r => r end).
Proof.
  intros Hm. unfold wrapped, mbind, sys_bind, caught. rewrite Hm. destruct r as [x | e |]; cbn; [by rewrite app_nil_r | | done].
  destruct (wrap e); cbn; by rewrite app_nil_r.
Qed.

(** How a call that ends association [id] of an open Endpoint goes. *)
Definition ends_assoc (e : endpoint) (s : socket) (id flag : Z) (cause : bytes) (st : process) (res : process * list action * out error unit) : Prop :=
  let '(_, l, r) := res in
  if (id <=? assocScopeAll) || (maxAbortCause <? len cause)
  then l = [] /\ exists err e', errors_Is err (Errno EINVAL) = true /\ en_closeError (Some e) (Some err) = Some e' /\ r = Err e'
  else (l = [] /\ (is_closed st (s_file s) = true \/ snd (os_released (p_os st) (s_file s)) = true) /\
        exists e', en_closeError (Some e) (Some (Plain NetErrClosed)) = Some e' /\ r = Err e') \/
    exists errno v d, l = [ACall (c_sendmsg (s_fd s) (end_message flag id cause)) errno v d] /\
      if errno =? 0 then r = Ret tt else exists e', en_closeError (Some e) (Some (SyscallErr "sendmsg" (errno_error errno))) = Some e' /\ r = Err e'.

Lemma endAssoc_ends e s method id flag cause st :
  en_opened (Some e) = true -> en_sock e = Some s ->
  ends_assoc e s id flag cause st (endAssoc (Some e) method id flag cause st).
Proof.
  intros Ho Hs. assert (Hce : forall err, exists e', en_closeError (Some e) (Some err) = Some e').
  { intros err. apply opError_Some. }
  unfold ends_assoc, endAssoc. rewrite Ho, Hs. cbn [negb default]. pose proof (assocIDArg_EINVAL method id) as Ha.
  destruct (assocIDArg method id) as [u | err |]; [| | done].
  2: { destruct Ha as [He Hid]. destruct (Hce err) as [e' E]. rewrite E. rewrite (proj2 (Z.leb_le _ _) Hid). cbn. split; [done |]. by exists err, e'. }
  rewrite (proj2 (Z.leb_gt _ _) Ha). cbn [orb].
  destruct (Z.ltb_spec maxAbortCause (len cause)) as [Hlong | Hlen].
  { match goal with |- context [en_closeError _ (Some (invalidArg ?m))] => destruct (Hce (invalidArg m)) as [e' E]; rewrite E; cbn; split; [done |];
      exists (invalidArg m), e'; done end. }
  cbv zeta. set (w := fun err => eofSendError (Some err)).
  assert (Hcs : exists st' l r, control s (wrapped w (rawSendEnd (s_fd s) flag id cause)) st = (st', l, r) /\
    ((l = [] /\ (is_closed st (s_file s) = true \/ snd (os_released (p_os st) (s_file s)) = true) /\ r = Err (Plain NetErrClosed)) \/
     exists errno v d, l = [ACall (c_sendmsg (s_fd s) (end_message flag id cause)) errno v d] /\
       r = if errno =? 0 then Ret tt else Err (SyscallErr "sendmsg" (errno_error errno)))).
  { unfold control, File_Control, mbind, sys_bind, caught. destruct (is_closed st (s_file s)); [cbn; eexists _, _, _; split; [done | left; auto] |].
    destruct (os_released (p_os st) (s_file s)) as [o []]; [cbn; eexists _, _, _; split; [done | left; auto] |].
    unfold wrapped, mbind, sys_bind, caught. pose proof (rawSendEnd_call (s_fd s) flag id cause (set_os st o)) as (st' & errno & v & d & ->).
    destruct (Z.eqb_spec errno 0) as [-> | Hn]; cbn; eexists _, _, _; (split; [done |]); right; eexists _, v, d; [by split |].
    rewrite (proj2 (Z.eqb_neq _ _) Hn). by split. }
  destruct Hcs as (st' & l & r & Hc & Hcase). rewrite (wrapped_run _ _ _ _ _ _ Hc).
  destruct Hcase as [(-> & Hgone & ->) | (errno & v & d & -> & ->)].
  - destruct (Hce (Plain NetErrClosed)) as [e' E]. rewrite E. left. split_and!; [done | done |]. by exists e'.
  - right. exists errno, v, d. destruct (Z.eqb_spec errno 0) as [-> | Hn]; [done |].
    destruct (Hce (SyscallErr "sendmsg" (errno_error errno))) as [e' E]. rewrite E. split; [done |]. by exists e'.
Qed.

(** C28 CloseAssoc and AbortAssoc, on an open Endpoint: an id that is a
    scope selector or negative, or a cause longer than one ABORT chunk
    carries, is refused with EINVAL before any system call; otherwise one
    non-blocking sendmsg, or none when the descriptor has gone, carries
    exactly one SCTP_SNDINFO record that names that id, and the call
    succeeds exactly when it does.  The record's flag is SCTP_EOF, and the
    message empty, for CloseAssoc; it is SCTP_ABORT, and the message the
    cause given, for AbortAssoc.  No other association is named. *)
Theorem endAssoc_spec e s id cause st (Ho : en_opened (Some e) = true) (Hs : en_sock e = Some s) :
  ends_assoc e s id 0x200 [] st (CloseAssoc (Some e) id st) /\
  ends_assoc e s id 0x4 cause st (AbortAssoc (Some e) id cause st).
Proof. split; by apply endAssoc_ends. Qed.
End Ending.

(** ** Closing an Endpoint *)
Section Closing.
Context `{A : Arch} `{AK : !ArchOk A} `{ZE : ZoneEnv} `{CS : ClosingSentinel} `{IT : IPText} `{H : Host}.

(** getsockopt(2) reports at most the length of the buffer. *)
Class RepliesWithin : Prop := replies_within :
  forall o fd level opt b o' reply n, os_getsockopt o fd level opt b = (o', (0, (reply, n))) -> u32 n <= len b.

Lemma replies_lengths `{RW : !RepliesWithin} f : lengths_within (K := at_file f).
Proof.
  intros [o ids] level opt b w' reply n. cbn. destruct (os_getsockopt o (f_fd f) level opt b) as [o' r] eqn:E. intros [= _ ->].
  by apply replies_within in E.
Qed.

Lemma runs_shutdownEach g o ids :
  s_fd (ec_sock o) ∈ owned g -> runs g (shutdownEach o ids) (fun r g' => (exists o', r = Ret o' /\ ec_sock o' = ec_sock o) /\ g' = g).
Proof.
  intros Ho. apply runs_bind.
  assert (Hl : runs g (shutdown_loop (ec_sock o) (ec_shut o) ids) (fun r g' => r = Ret tt /\ g' = g)).
  { induction ids as [| id ids IH]; cbn [shutdown_loop]; [by apply runs_ret |]. apply runs_bind. destruct (bool_decide _); [apply runs_ret; exact IH |].
    apply runs_ignore, runs_control; [| exact IH]. apply runs_rawSendEnd; [done |]. intros [x | e |] Hp; cbn [next_runs]; [exact IH.. | done]. }
  eapply runs_mono; [exact Hl |]. intros r g' [-> ->]. cbn [next_runs]. apply runs_ret. split; [by eexists | done].
Qed.

Lemma runs_assocIDs `{RW : !RepliesWithin} g s Q : s_fd s ∈ owned g -> (forall r, no_panic r -> Q r g) -> runs g (on s assocIDs) Q.
Proof. intros Ho HQ. eapply runs_on; [done | apply calm_assocIDs, replies_lengths | exact HQ]. Qed.

#[global] Instance endpoint_CloseOpsOk `{RW : !RepliesWithin} : CloseOpsOk ec_sock.
Proof.
  split.
  - intros g o Hw (Ho & _). cbn. apply runs_bind, runs_caught, runs_assocIDs; [done |].
    assert (Hself : forall x : bool + error, runs g (mret (o, x)) (fun r g' => same_sock ec_sock o r /\ keeps g g')).
    { intros x. apply runs_ret. split; [done | by apply keeps_refl]. }
    intros [ids | e |] Hp; cbn [next_runs]; [| apply Hself | done]. destruct (len ids =? 0); [apply Hself |].
    apply runs_bind. eapply runs_mono; [by apply runs_shutdownEach |]. intros r g' ((o' & -> & Hs) & ->). cbn [next_runs].
    apply runs_ret. split; [done | by apply keeps_refl].
  - intros g o Hw (Ho & _). cbn. apply runs_bind, runs_caught, runs_assocIDs; [done |].
    intros [ids | e |] Hp; cbn [next_runs]; [| apply runs_ret; split; [done | by apply keeps_refl] | done].
    apply runs_bind. eapply runs_mono; [by apply runs_shutdownEach |]. intros r g' ((o' & -> & Hs) & ->). cbn [next_runs].
    apply runs_ret. split; [done | by apply keeps_refl].
  - intros g o g' Hw Hh. cbn. apply runs_bind, (runs_abortive g); [done | done |]. intros e g'' Hk. cbn [next_runs]. by apply runs_ret.
  - intros g o g' Hw Hh. cbn. apply runs_bind, runs_err_of, (runs_give_back g (ec_sock o)); [done | done |].
    intros [x | e |] g'' Hp Hk; cbn [next_runs]; [by apply runs_ret.. | done].
Qed.

(** The request to shut association [id] down, however it was answered. *)
Definition asks (s : socket) (id : Z) (a : action) : Prop :=
  exists errno v d, a = ACall (c_sendmsg (s_fd s) (end_message sndFlagEOF id [])) errno v d.

Definition reachable_file (s : socket) (st : process) : Prop :=
  is_closed st (s_file s) = false /\ forall o, exists o', os_released o (s_file s) = (o', false).

Lemma ignore_send s id st :
  exists st' l, ignore (control s (rawSendEnd (s_fd s) sndFlagEOF id [])) st = (st', l, Ret tt) /\
    (l = [] \/ exists a, l = [a] /\ asks s id a) /\
    (reachable_file s st -> l <> [] /\ reachable_file s st').
Proof.
  destruct (control_send s sndFlagEOF id [] st) as (st' & l & r & Hc & Hcase & Hall).
  exists st', l. split.
  - unfold ignore, err_of, mbind, sys_bind, caught. rewrite Hc. destruct Hcase as [[-> ->] | (errno & v & d & -> & ->)]; [done |].
    by destruct (errno =? 0).
  - split.
    + destruct Hcase as [[-> _] | (errno & v & d & -> & _)]; [by left | right]. eexists. split; [done |]. by exists errno, v, d.
    + intros [Hcl Hrel]. destruct (Hall Hcl Hrel) as [Hne Hpc]. split; [done |]. split; [| done]. unfold is_closed in *. by rewrite Hpc.
Qed.

Lemma shutdown_loop_asks s shut ids st :
  exists st' l sent, shutdown_loop s shut ids st = (st', l, Ret tt) /\ Forall2 (asks s) sent l /\
    sent `sublist_of` filter (fun id => id ∉ shut) ids /\
    (reachable_file s st -> sent = filter (fun id => id ∉ shut) ids).
Proof.
  revert st. induction ids as [| id ids IH]; intros st; cbn [shutdown_loop].
  { exists st, [], []. by repeat split. }
  rewrite filter_cons. unfold mbind, sys_bind, mret, sys_ret. case_bool_decide as Hin; cbv beta iota.
  - destruct (IH st) as (st' & l & sent & -> & Hl & Hsub & Hall). rewrite decide_False by tauto. by exists st', l, sent.
  - destruct (ignore_send s id st) as (st1 & l1 & -> & Hl1 & Hr1). destruct (IH st1) as (st' & l & sent & -> & Hl & Hsub & Hall).
    rewrite decide_True by done. destruct Hl1 as [-> | (a & -> & Ha)].
    + exists st', l, sent. split_and!; [done | done | by apply sublist_cons |]. intros Hr. by destruct (Hr1 Hr).
    + exists st', (a :: l), (id :: sent). split_and!; [done | by constructor | by apply sublist_skip |].
      intros Hr. destruct (Hr1 Hr) as [_ Hr']. by rewrite Hall.
Qed.

(** C29 Shutting the associations of an Endpoint down: one round of a Close
    asks only associations the kernel has just listed, in its order, and
    never one the round before has asked and that was listed then too, so
    that an association is asked once for as long as it lasts; every new
    one is asked, while the descriptor can be reached; a request that fails
    does not stop the others; and the next round remembers exactly the
    associations of this one. *)
Theorem shutdown_once o ids st :
  exists st' l o' sent, shutdownEach o ids st = (st', l, Ret o') /\
    ec_sock o' = ec_sock o /\ (forall id, id ∈ ec_shut o' <-> id ∈ ids) /\
    Forall2 (asks (ec_sock o)) sent l /\
    sent `sublist_of` filter (fun id => id ∉ ec_shut o) ids /\
    (reachable_file (ec_sock o) st -> sent = filter (fun id => id ∉ ec_shut o) ids).
Proof.
  unfold shutdownEach, mbind, sys_bind. destruct (shutdown_loop_asks (ec_sock o) (ec_shut o) ids st) as (st' & l & sent & -> & Hl & Hsub & Hall).
  exists st', l, {| ec_ops := ec_ops o; ec_shut := list_to_set ids |}, sent.
  split_and!; [unfold mret, sys_ret; by rewrite app_nil_r | done | | done | done | done]. intros id. apply elem_of_list_to_set.
Qed.
End Closing.

(** ** No constructor leaks *)
Section Constructors.
Context `{A : Arch} `{AK : !ArchOk A} `{ZE : ZoneEnv} `{CS : ClosingSentinel} `{IT : IPText} `{H : Host} `{HO : !HostOk}.

(** C5 The descriptors of everything else the package opens: Listen,
    ListenEndpoint and OpenEndpoint, FileListener and FileConn, Accept and
    PeelOff.  Whatever the kernel, the poller and Config.Control do, on
    every path: a call that fails has closed each descriptor it opened
    exactly once, one that succeeds leaves exactly one more, which is that
    of the object it returns, and every other descriptor is as it was; no
    call is made on a descriptor that is not held, and none panics. *)
Theorem constructors_own control_of g (Hw : held_wf g) (Hh : forall f, hook_ok (Some (control_of f))) :
  (forall c network laddr, wf_addr laddr -> runs g (Listen control_of c network laddr) (listener_or g)) /\
  (forall c style network laddr, wf_addr laddr -> runs g (named_open control_of c style network laddr) (endpoint_or g)) /\
  (forall c f, (forall f', f = Some f' -> f_fd f' ∈ owned g) -> runs g (FileListener c f) (listener_or g) /\ runs g (FileConn c f) (conn_or g)) /\
  (forall tries wakes l, (forall l' s, l = Some l' -> ls_sock l' = Some s -> s_fd s ∈ owned g) ->
     runs g (AcceptSCTP tries wakes l) (accepted_or g)) /\
  (forall e id, (forall e' s, e = Some e' -> en_sock e' = Some s -> s_fd s ∈ owned g) -> runs g (PeelOff e id) (conn_or g)).
Proof.
  split_and!.
  - intros c network laddr Hl. apply runs_wrapped; [intros e; apply opError_some |]. apply runs_listen; [exact Hw | exact Hh | exact Hl |].
    intros [l | e |] g' Hr; [exact Hr | intros e' _; exact Hr | done].
  - intros c style network laddr Hl. apply runs_wrapped; [intros e; apply opError_some |]. apply runs_openEndpoint; [exact Hw | exact Hh | exact Hl |].
    intros [l | e |] g' Hr; [exact Hr | intros e' _; exact Hr | done].
  - intros c f Hf. split; (apply runs_wrapped; [intros e; apply opError_some |]); [apply runs_fileListener | apply runs_fileConn]; try done;
      intros [l | e |] g' Hr; [exact Hr | intros e' _; exact Hr | done | exact Hr | intros e' _; exact Hr | done].
  - intros tries wakes l Hl. apply runs_wrapped; [intros e; apply opError_some |]. apply runs_accept; [exact Hw | exact Hl |].
    intros [[c |] | e |] g' Hr; [exact Hr | exact Hr | intros e' _; exact Hr | done].
  - intros e id He. apply runs_PeelOff; [exact Hw | exact He |]. done.
Qed.
End Constructors.
