(* ===== verification/EndpointRecv.v ===== *)
(** * The reads of an Endpoint (src/endpoint_linux.go)

    RecvMsg of an Endpoint, with recvNext, readEnded and
    abortInterruptedNotification: the receive path of Recv.v with no latch,
    for messages of several associations.  Every data message must name its
    association in exactly one SCTP_RCVINFO record (Endpoint.v).

    The kernel and the poller are a script, as in Recv.v, and the fuel of
    each loop is the length of the script plus one.  What the read takes
    from the Endpoint is a [conn] without a remote address.

    The theorem: RecvMsg is safe whatever the kernel and the poller answer,
    and a message it returns without an error is the bytes of one recvmsg
    whose control data names a real association in exactly one record. *)
From Stdlib Require Import ZArith Lia Bool.
From stdpp Require Import base list option strings.
From coqutil Require Import Byte.
From S2P Require Import Prelude Close Abi Errors Enums Netip Sockaddr MsgInfo Notification Term Accumulator Config Recv Addr Endpoint.

Section Reads.
Context `{A : Arch} `{ZE : ZoneEnv} `{G : SliceGrowth} `{CS : ClosingSentinel}.

Definition ep_readEnded (c : conn) (err : option error) : option error :=
  if negb (bool_decide (c_life c = lifeOpen)) then Some (Plain NetErrClosed) else closedCause err.

(** [abort_result c] is what Endpoint.Abort returns. *)
Definition ep_abortInterruptedNotification (c : conn) (s : recvState) (cause : option error) : option error * recvState :=
  let err := errors_Join [Some (interrupted (notes s)); closedCause cause] in
  (joinAbortCause err (abort_result c), set_notes s (reset (notes s))).

(** A whole notification record: [None] to go on reading. *)
Definition ep_record (c : conn) (s : recvState) (flags blen : Z) : out error (option read * recvState) :=
  if negb (kept s) then
    let '(err, s) := dropRecord s in
    match err with
    | Some _ => Ret (Some (read_fails err), s)
    | None => Ret (None, s)
    end
  else
    match finish (notes s) with
    | Panic => Panic
    | Err ferr => Ret (Some (read_fails (Some ferr)), set_notes s (reset (notes s)))
    | Ret d =>
        if bool_decide (is_Some (handler c)) then
          match ParseNotification d with
          | Panic => Panic
          | Err perr => Ret (Some (read_fails (Some perr)), set_notes s (reset (notes s)))
          | Ret note => Ret (Some (read_notes note None), set_notes s (reset (notes s)))
          end
        else
          '(info, _) ← parseRecvCmsgs (control s) flags;
          '(piece, info, s) ← servePiece (set_serving s true 0 info) blen;
          Ret (Some (got_bytes piece info None), s)
    end.

(** One pass of recvNext's loop after raw.Read: [perr] is its error. *)
Definition ep_pass (c : conn) (s : recvState) (perr : option error) (blen : Z) : out error (option read * recvState) :=
  let '(r, s) := take_result s in
  if notnil perr then Ret (Some (read_fails (ep_readEnded c perr)), s) else
  if ar_cut r then let '(err, s) := ep_abortInterruptedNotification c s (ar_err r) in
                   Ret (Some (read_aborts err), s) else
  if notnil (ar_err r) then Ret (Some (read_fails (ep_readEnded c (ar_err r))), s) else
  if ar_record r then ep_record c s (ar_flags r) blen else
  '(info, err) ← parseEndpointRecvCmsgs (control s) (ar_flags r);
  Ret (Some (got_bytes (ar_data r) info err), s).

Fixpoint ep_recvNext (fuel : nat) (c : conn) (script : list event) (blen : Z) (s : recvState)
    : out error (waiting (list event * recvState * read)) :=
  match fuel with
  | O => Panic
  | S fuel =>
      if serving s then
        '(piece, info, s) ← servePiece s blen;
        Ret (Done (script, s, got_bytes piece info None))
      else
        polled ← raw_Read script blen (set_keepNotes s true);
        match polled with
        | Parked s => Ret (Parked s)
        | Done (script, s, perr) =>
            '(res, s) ← ep_pass c s perr blen;
            match res with
            | Some rd => Ret (Done (script, s, rd))
            | None => ep_recvNext fuel c script blen s
            end
        end
  end.

(** The loop of RecvMsg: [done] are the notifications the handler has got. *)
Fixpoint ep_read_loop (fuel : nat) (c : conn) (script : list event) (blen : Z) (done : list Notification) (s : recvState)
    : out error (waiting (list event * recvState * returned)) :=
  match fuel with
  | O => Panic
  | S fuel =>
      got ← ep_recvNext (S (length script)) c script blen s;
      match got with
      | Parked s => Ret (Parked s)
      | Done (script, s, rd) =>
          match rd_note rd with
          | Some note =>
              match run_handler c note with
              | Some err => Ret (Done (script, s, {| r_data := []; r_info := zeroMsgInfo; r_err := readError c (Some err);
                                                     r_notes := done ++ [note]; r_abort := rd_abort rd |}))
              | None => ep_read_loop fuel c script blen (done ++ [note]) s
              end
          | None => Ret (Done (script, s, {| r_data := rd_data rd; r_info := rd_info rd; r_err := readError c (rd_err rd);
                                             r_notes := done; r_abort := rd_abort rd |}))
          end
      end
  end.

Definition ep_RecvMsg (c : conn) (script : list event) (blen : Z) (s : recvState)
    : out error (waiting (list event * recvState * returned)) :=
  if negb (opened c) then Ret (Done (script, s, at_once (readError c (Some (Plain NetErrClosed)))))
  else if blen =? 0 then Ret (Done (script, s, at_once None))
  else ep_read_loop (S (length script)) c script blen [] s.
End Reads.

(** ** Every read *)
Section Safe.
Context `{Aok : ArchOk} `{ZE : ZoneEnv} `{G : SliceGrowth} `{CS : ClosingSentinel}.

(** ** Where the bytes of a message come from *)

(** The last answer of the script used is the recvmsg that gave the data,
    the flags and the control data. *)
Definition read_from (script rest : list event) (blen : Z) (s : recvState) : Prop :=
  exists before p fl o, script = before ++ Recv (ROk p fl o) :: rest /\ has_bits fl msgNotification = false /\
    ar_data (result s) = take (Z.to_nat blen) p /\ ar_flags (result s) = fl /\ control s = take (Z.to_nat rcvCmsgSpace) o.

Definition plain_data (r : attempt_result) : Prop := ar_err r = None /\ ar_cut r = false /\ ar_record r = false.

Lemma readErrorLocked_err t e : snd (readErrorLocked t (Some e)) <> None.
Proof.
  destruct (readErrorLocked_cases t (Some e)) as [(e' & t1 & -> & _) | (_ & -> & _)]; [done |]. cbn. by destruct (_ && _).
Qed.

(** A result with an error never ends in plain data. *)
Lemma not_piece_err s data fl e s' : not_piece s data fl (Some e) = Stop s' -> ~ plain_data (result s').
Proof.
  unfold not_piece, plain_data. destruct (noting s); [intros [= <-]; by intros (_ & ? & _) |]. cbn [notnil].
  assert (Hp : match (match term s with Some t => let '(t, err) := readErrorLocked t (Some e) in (set_term s (Some t), err) | None => (s, Some e) end)
               with (_, err) => err <> None end).
  { destruct (term s) as [t |]; [| done]. pose proof (readErrorLocked_err t e) as H. by destruct (readErrorLocked t (Some e)). }
  destruct (match term s with Some t => _ | None => _ end) as [s1 err].
  destruct (err_is err (Errno EAGAIN)); [done |]. intros [= <-]. by intros (? & _).
Qed.

Lemma not_piece_data s data fl s' : not_piece s data fl None = Stop s' -> plain_data (result s') ->
  noting s = false /\ ar_data (result s') = data /\ ar_flags (result s') = fl /\ control s' = control s.
Proof.
  unfold not_piece, plain_data. destruct (noting s); [intros [= <-]; by intros (_ & ? & _) |]. cbn [notnil].
  destruct (len data =? 0) eqn:Hl; cbn [notnil].
  - intros H Hd. exfalso. revert H Hd. cbn. destruct (term s) as [t |]; cbn.
    + pose proof (readErrorLocked_err t EOF) as Hne. destruct (readErrorLocked t _) as [t' err]. cbn in Hne.
      destruct (err_is err (Errno EAGAIN)); [done |]. intros [= <-]. by intros (? & _).
    + intros [= <-]. by intros (? & _).
  - destruct (term s); intros [= <-] _; done.
Qed.

Lemma attempt_source script : forall blen s rest s',
  attempt script blen s = Ret (rest, s', true) -> plain_data (result s') -> read_from script rest blen s'.
Proof.
  assert (Hidle : forall blen s s', attempt_turn s blen (RErr EAGAIN) = Ret (Stop s') -> ~ plain_data (result s')).
  { intros blen s s'. unfold attempt_turn. destruct (blen =? 0); [done |]. change (EAGAIN =? EINTR) with false. intros [= H]. by eapply not_piece_err. }
  induction script as [| [r | e] script IH]; intros blen s rest s' E Hd; cbn [attempt] in E; apply bind_Ret_inv in E as (t & Ht & E).
  - destruct t as [s1 | s1 | s1]; injection E as <- <-; try done. by apply Hidle in Ht.
  - destruct t as [s1 | s1 | s1]; [| | done].
    + destruct (IH _ _ _ _ E Hd) as (before & p & fl & o & -> & H). by exists (Recv r :: before), p, fl, o.
    + injection E as <- <-. revert Ht. unfold attempt_turn. destruct (_ =? 0); [done |]. destruct r as [e | data fl o].
      { destruct (e =? EINTR); [done |]. intros [= Ht]. by apply not_piece_err in Ht. }
      destruct (has_bits fl msgNotification) eqn:Hn.
      { intros (s2 & _ & (s3 & _ & H)%bind_Ret_inv)%bind_Ret_inv. destruct (noting s3); [done |]. injection H as <-. by destruct Hd as (_ & _ & ?). }
      intros [= Ht]. destruct (not_piece_data _ _ _ _ Ht Hd) as (Hno & Hdata & Hfl & Hc). cbn [noting set_control] in Hno. rewrite Hno in Hdata.
      by exists [], data, fl, o.
  - destruct t as [s1 | s1 | s1]; injection E as <- <-; try done. by apply Hidle in Ht.
Qed.

Lemma attempt_suffix script : forall blen s rest s' ok, attempt script blen s = Ret (rest, s', ok) -> exists used, script = used ++ rest.
Proof.
  induction script as [| [r | e] script IH]; intros blen s rest s' ok E; cbn [attempt] in E; apply bind_Ret_inv in E as (t & _ & E).
  - exists []. by destruct t; injection E as <- _ _.
  - destruct t as [s1 | s1 | s1]; [destruct (IH _ _ _ _ _ E) as [used ->]; by exists (Recv r :: used) | ..]; injection E as <- _ _; by exists [Recv r].
  - exists []. by destruct t; injection E as <- _ _.
Qed.

Lemma raw_Read_source script blen s rest s' :
  raw_Read script blen s = Ret (Done (rest, s', None)) -> plain_data (result s') -> read_from script rest blen s'.
Proof.
  assert (Hloop : forall fuel script s, poll_loop fuel script blen s = Ret (Done (rest, s', None)) -> plain_data (result s') -> read_from script rest blen s').
  { induction fuel as [| fuel IH]; intros script0 s0 E Hd; [done |]. cbn [poll_loop] in E. apply bind_Ret_inv in E as ([[script1 s1] ok] & Ha & E).
    destruct ok; [injection E as <- <-; by eapply attempt_source |].
    destruct (attempt_suffix _ _ _ _ _ _ Ha) as [used ->]. destruct script1 as [| [r | e] script1]; [done | | done].
    destruct (IH _ _ E Hd) as (before & p & fl & o & -> & H). exists (used ++ before), p, fl, o. by rewrite <- app_assoc. }
  unfold raw_Read. destruct script as [| [r | e] script]; [apply Hloop | apply Hloop | done].
Qed.

(** ** Every read *)

(** A message and its one record, of a real association: the bytes are
    those of one recvmsg of the script, the last one used, cut at the
    buffer, and Rcv is what the one SCTP_RCVINFO record of its control data
    says. *)
Definition named (oob : bytes) (info : MsgInfo) : Prop :=
  exists m, rcvinfos oob = [m] /\ whole_rcvinfo m /\ mi_Rcv info = rcvinfo_of (cm_payload m) /\
    assocScopeAll < rcv_AssocID (mi_Rcv info).

Definition message_read (script rest : list event) (blen : Z) (data : bytes) (info : MsgInfo) : Prop :=
  exists before p fl o, script = before ++ Recv (ROk p fl o) :: rest /\ has_bits fl msgNotification = false /\
    data = take (Z.to_nat blen) p /\ named (take (Z.to_nat rcvCmsgSpace) o) info.

(** A read without an error is a piece of a notification, or a message. *)
Definition routed (script rest : list event) (blen : Z) (data : bytes) (info : MsgInfo) (err : option error) : Prop :=
  err = None -> mi_Notification info = true \/ message_read script rest blen data info.

Lemma routed_app used script rest blen data info err :
  routed script rest blen data info err -> routed (used ++ script) rest blen data info err.
Proof.
  intros H E. destruct (H E) as [? | (before & p & fl & o & -> & Hm)]; [by left | right].
  exists (used ++ before), p, fl, o. by rewrite <- app_assoc.
Qed.

(** One pass: the same of the result that raw.Read left. *)
Definition pass_routed (s : recvState) (perr : option error) (rd : read) : Prop :=
  rd_err rd = None -> mi_Notification (rd_info rd) = true \/
    (perr = None /\ plain_data (result s) /\ rd_data rd = ar_data (result s) /\ named (control s) (rd_info rd)).

Definition ep_passed (blen : Z) (s s' : recvState) (perr : option error) (res : option read) : Prop :=
  ready s' /\ term s' = term s /\
  match res with
  | Some rd => len (rd_data rd) <= blen /\ (rd_note rd = None -> pass_routed s perr rd)
  | None => serving s' = serving s
  end.

Lemma ep_record_ok c s flags blen :
  0 <= blen -> ready s -> serving s = false ->
  exists res s', ep_record c s flags blen = Ret (res, s') /\ ready s' /\ term s' = term s /\
    match res with
    | Some rd => len (rd_data rd) <= blen /\ (rd_note rd = None -> rd_err rd = None -> mi_Notification (rd_info rd) = true)
    | None => serving s' = serving s
    end.
Proof.
  intros Hb (Hn & Hr & Hi & _) Hsv. unfold ep_record. assert (H0 : len (@nil byte) <= blen) by (change (0 <= blen); lia).
  assert (Hq : ready (set_notes s (reset (notes s))) /\ term (set_notes s (reset (notes s))) = term s) by (split; [by apply ready_quiet | done]).
  destruct Hq as [Hq1 Hq2].
  destruct (kept s); cbn [negb].
  - destruct (finish (notes s)) as [d | e |] eqn:Hf; [| do 2 eexists; (split; [done |]); by split_and! |].
    2:{ unfold finish in Hf. repeat case_match; done. }
    destruct (bool_decide (is_Some (handler c))).
    + pose proof (ParseNotification_returns d) as Hp. destruct (ParseNotification d); [| | done]; do 2 eexists; (split; [done |]); by split_and!.
    + rewrite parse_total. next. set (info := foldl _ _ _).
      destruct (servePiece_ok (set_serving s true 0 info) blen Hb) as [Hl E].
      { cbn. pose proof (len_nonneg (data (notes s))). lia. }
      rewrite E. next. do 2 eexists. split; [reflexivity |]. split; [| split].
      * cbn [served set_serving] in *. destruct (_ =? _) eqn:Heor; [by apply ready_quiet |].
        unfold ready. cbn in *. split_and!; auto; intros _; rewrite Hl; pose proof (len_nonneg (data (notes s))); lia.
      * by destruct (_ =? _).
      * cbn [rd_data rd_note rd_info rd_err got_bytes]. split; [lia | done].
  - unfold dropRecord. destruct (match finish (notes s) with Err e => Some e | _ => None end);
      do 2 eexists; (split; [reflexivity |]); by split_and!.
Qed.

Lemma parse_routed oob flags : exists info err, parseEndpointRecvCmsgs oob flags = Ret (info, err) /\
  (err = None -> mi_Notification info = true \/ named oob info).
Proof.
  destruct (endpoint_routing oob flags) as (info & err & He & Hr & Hinfo). exists info, err. split; [done |]. intros Hnone.
  destruct (has_bits flags msgNotification) eqn:Hb.
  - left. rewrite Hinfo. change (mi_Notification (foldl absorb (init_info flags) (cmsgs oob)) = true).
    by rewrite absorb_all_notification.
  - right. destruct Hr as [[_ [e E]] | Hm]; [congruence | exact Hm].
Qed.

Lemma ep_pass_ok c s perr blen :
  0 <= blen -> noting s = false -> latch_inv (term s) -> serving s = false -> len (ar_data (result s)) <= blen ->
  exists res s', ep_pass c s perr blen = Ret (res, s') /\ ep_passed blen s s' perr res /\
    (ar_record (result s) = false -> exists rd, res = Some rd /\ rd_note rd = None).
Proof.
  intros Hb Hn Hi Hsv Hl. unfold ep_pass, take_result. cbn [ar_cut]. set (s1 := set_result s no_result).
  assert (H0 : len (@nil byte) <= blen) by (change (0 <= blen); lia).
  assert (Hq : forall a e, e <> None -> ep_passed blen s (set_notes s1 a) perr (Some (read_fails e)) /\ ep_passed blen s (set_notes s1 a) perr (Some (read_aborts e))).
  { intros a e He. split; (split; [by apply ready_quiet |]); (split; [done |]); (split; [exact H0 |]); by intros _ E. }
  assert (Hre : forall e : option error, notnil e = true -> ep_readEnded c e <> None).
  { intros [e |]; [| done]. intros _. unfold ep_readEnded, closedCause. destruct (negb _); [done |]. by destruct (closed_cause e). }
  destruct (notnil perr) eqn:Hp.
  { do 2 eexists. split; [reflexivity |]. split; [| by eexists]. by apply (Hq (notes s1)), Hre. }
  destruct (ar_cut (result s)) eqn:Hcut.
  { do 2 eexists. split; [reflexivity |]. split; [| by eexists]. apply (Hq (reset (notes s1))).
    unfold joinAbortCause. repeat case_match; done. }
  destruct (notnil (ar_err (result s))) eqn:He.
  { do 2 eexists. split; [reflexivity |]. split; [| by eexists]. by apply (Hq (notes s1)), Hre. }
  destruct (ar_record (result s)) eqn:Hrec.
  { destruct (ep_record_ok c s1 (ar_flags (result s)) blen Hb) as (res & s2 & E & R & T & P); [by apply ready_quiet | done |].
    rewrite E. do 2 eexists. split; [reflexivity |]. split; [| done]. split; [done |]. split; [done |].
    destruct res as [rd |]; [| done]. destruct P as [Hlen Hno]. split; [done |]. intros Hnote Herr. left. by apply Hno. }
  destruct (parse_routed (control s1) (ar_flags (result s))) as (info & err & E & Hrt). rewrite E. next.
  do 2 eexists. split; [reflexivity |]. split; [| by eexists]. split; [by apply ready_quiet |]. split; [done |]. split; [done |].
  intros _ Herr. destruct (Hrt Herr) as [? | Hm]; [by left | right]. split; [by destruct perr |]. split; [| by split].
  split; [by destruct (ar_err (result s)) | by split].
Qed.
End Safe.

Section Calls.
Context `{Aok : ArchOk} `{ZE : ZoneEnv} `{G : SliceGrowth} `{CS : ClosingSentinel}.

Lemma ep_recvNext_ok c blen : 1 <= blen -> forall fuel script s,
  (length script < fuel)%nat -> ready s ->
  match ep_recvNext fuel c script blen s with
  | Ret (Parked s') => ready s'
  | Ret (Done (rest, s', rd)) => left_over s s' script rest /\ len (rd_data rd) <= blen /\
      (rd_note rd = None -> routed script rest blen (rd_data rd) (rd_info rd) (rd_err rd)) /\ (rd_note rd <> None -> (length rest < length script)%nat)
  | _ => False
  end.
Proof.
  intros Hb. induction fuel as [| fuel IH]; intros script s Hf Hs; [lia |].
  pose proof Hs as (Hn & Hr & Hi & Hsv). cbn [ep_recvNext]. destruct (serving s) eqn:Hse.
  { destruct (servePiece_ok s blen ltac:(lia) (Hsv eq_refl)) as [_ E].
    destruct (servePiece s blen) as [[[piece info] s'] | |] eqn:E'; [| done | done]. next.
    destruct (serve_ready s blen piece info s' ltac:(lia) Hs Hse E') as (R & T & L).
    split; [by apply left_over_here |]. split; [done |]. split; [| done]. intros _ _. left. cbn [rd_info got_bytes]. by injection E as _ -> _. }
  set (s2 := set_keepNotes s true). pose proof (raw_Read_ok script blen s2 Hb Hi Hn Hr) as Hraw.
  destruct (raw_Read script blen s2) as [[s3 | [[rest s3] perr]] | |] eqn:Hread; [| | done | done]; next.
  { destruct Hraw as (F & N3 & E3 & W). assert (K : latch_kept (term s) (term s3)) by apply F.
    assert (V3 : serving s3 = false) by (rewrite <- Hse; apply F). apply ready_quiet; auto. by eapply latch_kept_inv. }
  destruct Hraw as (F & N3 & L3 & P3 & used & -> & U3). assert (K : latch_kept (term s) (term s3)) by apply F.
  assert (V3 : serving s3 = false) by (rewrite <- Hse; apply F). assert (I3 : latch_inv (term s3)) by (by eapply latch_kept_inv).
  destruct (ep_pass_ok c s3 perr blen ltac:(lia) N3 I3 V3 L3) as (res & s4 & E4 & (R4 & T4 & P4) & Hres).
  rewrite E4. next. assert (Hleft : left_over s s4 (used ++ rest) rest).
  { split; [done |]. rewrite T4. split; [done |]. by exists used. }
  destruct res as [rd |].
  { destruct P4 as [Hl Hrt]. split; [done |]. split; [done |]. split.
    { intros Hnote Herr. destruct (Hrt Hnote Herr) as [? | (-> & Hd & Hdata & Hm)]; [by left | right].
      destruct (raw_Read_source _ _ _ _ _ Hread Hd) as (before & p & fl & o & -> & Hnf & Hp & _ & Hc). rewrite Hc in Hm.
      exists before, p, fl, o. by rewrite Hdata. }
    intros Hnote. rewrite length_app.
    destruct (ar_record (result s3)); [specialize (U3 eq_refl); destruct used; [done | simpl; lia] |].
    destruct (Hres eq_refl) as (rd' & [= ->] & ?). congruence. }
  destruct (ar_record (result s3)) eqn:Hrec; [| by destruct (Hres eq_refl) as (? & ? & _)]. specialize (U3 eq_refl).
  rewrite length_app in Hf. destruct used as [| ev used]; [done |]. simpl in Hf.
  specialize (IH rest s4 ltac:(lia) R4).
  destruct (ep_recvNext fuel c rest blen s4) as [[s5 | [[rest5 s5] rd]] | |]; [done | | done | done].
  destruct IH as (L5 & B5 & Rt5 & N5). split; [eauto using left_over_trans |]. split; [done |]. split; [intros Hnote; by apply routed_app, Rt5 |].
  intros Hnote. specialize (N5 Hnote). cbn. rewrite length_app. lia.
Qed.

Lemma readError_none c err : readError c err = None -> err = None.
Proof. destruct err as [e |]; [| done]. unfold readError, ioOpError. intros He. exfalso. revert He. repeat case_match; try done; apply opError_some. Qed.

Lemma ep_read_loop_ok c blen : 1 <= blen -> forall fuel script notes s,
  (length script < fuel)%nat -> ready s ->
  match ep_read_loop fuel c script blen notes s with
  | Ret (Parked s') => ready s'
  | Ret (Done (rest, s', r)) => left_over s s' script rest /\ len (r_data r) <= blen /\ routed script rest blen (r_data r) (r_info r) (r_err r)
  | _ => False
  end.
Proof.
  intros Hb. assert (H0 : len (@nil byte) <= blen) by (change (0 <= blen); lia).
  induction fuel as [| fuel IH]; intros script notes s Hf Hs; [lia |]. cbn [ep_read_loop].
  pose proof (ep_recvNext_ok c blen Hb (S (length script)) script s ltac:(lia) Hs) as H.
  destruct (ep_recvNext _ c script blen s) as [[s1 | [[rest s1] rd]] | |]; [exact H | | done | done]. next.
  destruct H as (L1 & B1 & Rt1 & N1). destruct (rd_note rd) as [note |].
  - destruct (run_handler c note) as [err |].
    { split; [done |]. split; [exact H0 |]. intros E. cbn [r_err at_once] in E. by apply readError_none in E. }
    specialize (N1 ltac:(done)). specialize (IH rest (notes ++ [note]) s1 ltac:(lia) ltac:(apply L1)).
    destruct (ep_read_loop fuel c rest blen (notes ++ [note]) s1) as [[s2 | [[rest2 s2] r]] | |]; [done | | done | done].
    destruct IH as (L & B & Rt). split; [eauto using left_over_trans |]. split; [done |].
    destruct L1 as (_ & _ & used & ->). by apply routed_app.
  - split; [done |]. split; [done |]. intros E. cbn [r_err] in E. apply readError_none in E. by apply Rt1.
Qed.

(** C15 RecvMsg of an Endpoint, whatever the kernel and the poller answer: no
    index is out of range and no loop runs past the answers; the bytes it
    returns fit the buffer; no record is left half read between two calls;
    and what it returns without an error, from a read with room for at
    least one byte, is a piece of a notification or a message: exactly the
    bytes of the last recvmsg made, which was not of a notification, cut at
    the buffer, whose control data holds exactly one SCTP_RCVINFO record, a
    whole one, that is reported as Rcv and names a real association.  So no
    message is handed to the application without its sender, or with
    another's. *)
Theorem endpoint_recv c script blen s (Hb : 0 <= blen) (Hs : ready s) :
  match ep_RecvMsg c script blen s with
  | Ret (Parked s') => ready s'
  | Ret (Done (rest, s', r)) => ready s' /\ (exists used, script = used ++ rest) /\ len (r_data r) <= blen /\
      (0 < blen -> r_err r = None -> mi_Notification (r_info r) = true \/ message_read script rest blen (r_data r) (r_info r))
  | _ => False
  end.
Proof.
  unfold ep_RecvMsg. destruct (opened c); cbn [negb].
  2: { split; [done |]. split; [by exists [] |]. split; [exact Hb |]. intros _ E. cbn [r_err at_once] in E. by apply readError_none in E. }
  destruct (Z.eqb_spec blen 0) as [-> | Hne].
  { split; [done |]. split; [by exists [] |]. split; [done | lia]. }
  pose proof (ep_read_loop_ok c blen ltac:(lia) (S (length script)) script [] s ltac:(lia) Hs) as H.
  destruct (ep_read_loop _ c script blen [] s) as [[s1 | [[rest s1] r]] | |]; [done | | done | done].
  destruct H as ((R & _ & U) & B & Rt). split_and!; [done | done | done |]. intros _. exact Rt.
Qed.
End Calls.

(** ** Witness *)
Definition endpoint_storage : recvState := set_term fresh None.

Lemma endpoint_storage_ready : ready endpoint_storage.
Proof. by apply ready_quiet. Qed.

(** A message with its SCTP_RCVINFO record, and one without. *)
Definition named_message : list event :=
  [Recv (ROk [Byte.x61; Byte.x62] msgEOR (@cmsg_bytes amd64 (@rcv_record amd64 sample_rcv)))].

Example named_read :
  match @ep_RecvMsg amd64 host_zones grow_exact go_runtime plain_conn named_message 5 endpoint_storage with
  | Ret (Done ([], _, r)) => r_data r = [Byte.x61; Byte.x62] /\ r_err r = None /\ mi_Rcv (r_info r) = sample_rcv
  | _ => False
  end.
Proof. vm_compute. done. Qed.

Example unnamed_read :
  match @ep_RecvMsg amd64 host_zones grow_exact go_runtime plain_conn message_after 5 endpoint_storage with
  | Ret (Done ([], _, r)) => is_Some (r_err r)
  | _ => False
  end.
Proof. vm_compute. eauto. Qed.

Lemma endpoint_recv_witness :
  exists s' r, @ep_RecvMsg amd64 host_zones grow_exact go_runtime plain_conn named_message 5 endpoint_storage = Ret (Done ([], s', r)) /\
    @message_read amd64 named_message [] 5 (r_data r) (r_info r).
Proof.
  pose proof (@endpoint_recv amd64 amd64_ok host_zones grow_exact go_runtime plain_conn named_message 5 endpoint_storage
    ltac:(lia) endpoint_storage_ready) as H.
  destruct (@ep_RecvMsg amd64 host_zones grow_exact go_runtime plain_conn named_message 5 endpoint_storage) as [[s1 | [[rest s1] r]] | |] eqn:E;
    vm_compute in E; try discriminate E. injection E as Er Es Hr. subst rest s1 r. do 2 eexists. split; [reflexivity |].
  destruct H as (_ & _ & _ & H). destruct (H ltac:(lia) eq_refl) as [Hn | Hm]; [discriminate Hn | exact Hm].
Defined.
