(* ===== verification/EndpointLocks.v ===== *)
(** * The locks of an Endpoint (src/endpoint_linux.go)

    Any number of concurrent RecvMsg and PeelOff calls on one Endpoint,
    with its two mutexes: recv.mu, held through recvNext, waits included,
    and recordMu, held for one receive callback (recvAttempt) and for the
    system calls of PeelOff.  A thread is one call of recvNext, or one
    PeelOff from its Lock to its Unlock; a step is one Lock, Unlock, wait or
    system call, whose answer the environment chooses.

    The atomic functions these calls were modelled by elsewhere are
    justified here: in every interleaving the recvNext calls are
    [ep_recvNext] one after the other, in the order they release recv.mu;
    PeelOff's system calls are those of [peelOff] and never come between
    two pieces of a notification; and PeelOff does not wait behind a reader
    that waits for a message. *)
From Stdlib Require Import ZArith Lia Bool.
From stdpp Require Import base list option strings relations.
From coqutil Require Import Byte.
From S2P Require Import Prelude Close Abi Errors Enums Netip Sockaddr OptionCodecs MsgInfo Notification Term Accumulator Config Recv Addr Sys Sockets Endpoint Endpoints EndpointRecv.

Section Threads.
Context `{A : Arch} `{ZE : ZoneEnv} `{G : SliceGrowth} `{CS : ClosingSentinel}.

(** ** One call of recvNext *)

(** Where it is.  [before] are the answers of the passes of its loop that
    are over, [now] those of the raw.Read in progress. *)
Inductive rpc :=
| RdLock                                               (* s.mu.Lock() *)
| RdLoop (before : list event)                         (* the head of the loop *)
| RdPrepare (before : list event)                      (* raw.Read before the first callback *)
| RdAttempt (before now : list event)                  (* e.recordMu.Lock() *)
| RdTurn (before now : list event)                     (* one recvmsg of attempt *)
| RdRelease (before now : list event) (ok : bool)      (* e.recordMu.Unlock() *)
| RdWait (before now : list event)                     (* raw.Read waits for the poller *)
| RdPass (before now : list event) (perr : option error)  (* take and the switch *)
| RdUnlock (before : list event) (rd : read)           (* s.mu.Unlock() *)
| RdReturned (rd : read)
| RdPanicked.

(** What one step of the call is given: the poller's error, if any, and the
    answer of recvmsg. *)
Record given := { g_poll : option error; g_recv : recv_result }.

Definition locked : Type := option nat.

(** The mutexes and the receive state they guard. *)
Record shared := { recvMu : locked; recordMu : locked; rs : recvState }.

Definition lock_recv (v : shared) (n : nat) : shared := {| recvMu := Some n; recordMu := recordMu v; rs := rs v |}.
Definition unlock_recv (v : shared) : shared := {| recvMu := None; recordMu := recordMu v; rs := rs v |}.
Definition lock_record (v : shared) (n : nat) : shared := {| recvMu := recvMu v; recordMu := Some n; rs := rs v |}.
Definition unlock_record (v : shared) : shared := {| recvMu := recvMu v; recordMu := None; rs := rs v |}.
Definition set_rs (v : shared) (s : recvState) : shared := {| recvMu := recvMu v; recordMu := recordMu v; rs := s |}.

(** recvAttempt: one step of the callback. *)
Definition recvAttempt_step (n : nat) (blen : Z) (v : shared) (p : rpc) (g : given) : option (shared * rpc) :=
  match p with
  | RdAttempt es us =>
      match recordMu v with
      | Some _ => None
      | None => Some (lock_record v n, RdTurn es us)
      end
  | RdTurn es us =>
      let us := us ++ [Recv (g_recv g)] in
      match attempt_turn (rs v) (if noting (rs v) then NotificationMaxSize else blen) (g_recv g) with
      | Ret (Again s) => Some (set_rs v s, RdTurn es us)
      | Ret (Stop s) => Some (set_rs v s, RdRelease es us true)
      | Ret (Wait s) => Some (set_rs v s, RdRelease es us false)
      | _ => Some (v, RdPanicked)
      end
  | RdRelease es us ok => Some (unlock_record v, if ok then RdPass es us None else RdWait es us)
  | _ => None
  end.

(** recvNext, with the poller's part of raw.Read. *)
Definition recvNext_step (n : nat) (c : conn) (blen : Z) (v : shared) (p : rpc) (g : given) : option (shared * rpc) :=
  match p with
  | RdLock =>
      match recvMu v with
      | Some _ => None
      | None => Some (lock_recv v n, RdLoop [])
      end
  | RdLoop es =>
      if serving (rs v) then
        match servePiece (rs v) blen with
        | Ret (piece, info, s) => Some (set_rs v s, RdUnlock es (got_bytes piece info None))
        | _ => Some (v, RdPanicked)
        end
      else Some (set_rs v (set_keepNotes (rs v) true), RdPrepare es)
  | RdPrepare es =>
      match g_poll g with
      | Some e => Some (v, RdPass es [PollErr e] (Some e))
      | None => Some (v, RdAttempt es [])
      end
  | RdWait es us =>
      match g_poll g with
      | Some e => Some (v, RdPass es (us ++ [PollErr e]) (Some e))
      | None => Some (v, RdAttempt es us)
      end
  | RdPass es us perr =>
      match ep_pass c (rs v) perr blen with
      | Ret (Some rd, s) => Some (set_rs v s, RdUnlock (es ++ us) rd)
      | Ret (None, s) => Some (set_rs v s, RdLoop (es ++ us))
      | _ => Some (v, RdPanicked)
      end
  | RdUnlock es rd => Some (unlock_recv v, RdReturned rd)
  | _ => recvAttempt_step n blen v p g
  end.

(** ** One PeelOff *)
Inductive ppc :=
| PeelLock                                (* e.recordMu.Lock() *)
| PeelControl                             (* raw.Control finds the descriptor, or not *)
| PeelStatus                              (* getsockopt SCTP_STATUS *)
| PeelDup                                 (* fcntl F_DUPFD_CLOEXEC *)
| PeelClose (spare : Z)                   (* close of the duplicate *)
| PeelFlags                               (* getsockopt SCTP_SOCKOPT_PEELOFF_FLAGS *)
| PeelUnlock (r : out error Z)            (* e.recordMu.Unlock() *)
| PeelReturned (r : out error Z).

(** The answer of a system call: errno, value, bytes written. *)
Record answer := { an_errno : Z; an_value : Z; an_bytes : bytes }.

Definition peel_fails (e : option error) : ppc :=
  PeelUnlock (match e with Some e => Err e | None => Panic end).

(** After SCTP_STATUS has written [b]. *)
Definition peel_checked (b : bytes) : ppc :=
  match get_at NativeEndian 4 b statusStateOff with
  | Ret v => match checkPeelOffState (i32 v) with Some e => peel_fails (Some e) | None => PeelDup end
  | Err e => peel_fails (Some e)
  | Panic => peel_fails None
  end.

(** The step after the system call of [p] is answered. *)
Definition peelOff_next (p : ppc) (a : answer) : ppc :=
  let failed := negb (an_errno a =? 0) in
  match p with
  | PeelControl => if failed then peel_fails (Some (Plain NetErrClosed)) else PeelStatus
  | PeelStatus =>
      if failed then peel_fails (in_call "getsockopt" (errno_error (an_errno a)))
      else peel_checked (an_bytes a)
  | PeelDup =>
      if failed
      then peel_fails (Some (Wrapf "sctp: no descriptor to spare for the peeled-off association: %w"
                               (SyscallErr "fcntl" (errno_error (an_errno a)))))
      else PeelClose (an_value a)
  | PeelClose _ => PeelFlags
  | PeelFlags =>
      if failed then peel_fails (in_call "getsockopt" (errno_error (an_errno a)))
      else PeelUnlock (v ← get_at NativeEndian 4 (an_bytes a) peeloffFlagsArgSDOff; Ret (i32 v))
  | p => p
  end.

(** PeelOff between Lock and Unlock. *)
Definition PeelOff_step (n : nat) (v : shared) (p : ppc) (a : answer) : option (shared * ppc) :=
  match p with
  | PeelLock =>
      match recordMu v with
      | Some _ => None
      | None => Some (lock_record v n, PeelControl)
      end
  | PeelUnlock r => Some (unlock_record v, PeelReturned r)
  | PeelReturned _ => None
  | p => Some (v, peelOff_next p a)
  end.

(** ** Executions *)
Inductive thread :=
| Reader (c : conn) (blen : Z) (p : rpc)
| Peeler (p : ppc).

(** A recvNext that has released recv.mu: its thread, what it was called
    with, the answers it got and what it returns. *)
Record commit := { cm_thread : nat; cm_conn : conn; cm_len : Z; cm_events : list event; cm_read : read }.

Record endpoint_world := { sh : shared; ths : list thread; log : list commit }.

Definition committed (n : nat) (c : conn) (blen : Z) (p : rpc) : list commit :=
  match p with
  | RdUnlock es rd => [{| cm_thread := n; cm_conn := c; cm_len := blen; cm_events := es; cm_read := rd |}]
  | _ => []
  end.

Inductive endpoint_step : endpoint_world -> endpoint_world -> Prop :=
| StepReader n v ts h c blen p g v' p' :
    ts !! n = Some (Reader c blen p) -> recvNext_step n c blen v p g = Some (v', p') ->
    endpoint_step {| sh := v; ths := ts; log := h |}
                  {| sh := v'; ths := <[n := Reader c blen p']> ts; log := h ++ committed n c blen p |}
| StepPeeler n v ts h p a v' p' :
    ts !! n = Some (Peeler p) -> PeelOff_step n v p a = Some (v', p') ->
    endpoint_step {| sh := v; ths := ts; log := h |} {| sh := v'; ths := <[n := Peeler p']> ts; log := h |}
| StepRecv v ts h c blen :
    1 <= blen ->
    endpoint_step {| sh := v; ths := ts; log := h |} {| sh := v; ths := ts ++ [Reader c blen RdLock]; log := h |}
| StepPeel v ts h :
    endpoint_step {| sh := v; ths := ts; log := h |} {| sh := v; ths := ts ++ [Peeler PeelLock]; log := h |}.

Definition fresh_world (s : recvState) : endpoint_world := {|
  sh := {| recvMu := None; recordMu := None; rs := s |}; ths := []; log := [] |}.

Definition endpoint_reachable (s : recvState) (w : endpoint_world) : Prop :=
  rtc endpoint_step (fresh_world s) w.

(** The same calls one after the other. *)
Inductive serial (s : recvState) : list commit -> recvState -> Prop :=
| SerialNil : serial s [] s
| SerialSnoc h s1 m s2 :
    serial s h s1 ->
    ep_recvNext (S (length (cm_events m))) (cm_conn m) (cm_events m) (cm_len m) s1 = Ret (Done ([], s2, cm_read m)) ->
    serial s (h ++ [m]) s2.

(** ** Who holds a mutex *)
Definition holds_recv (t : thread) : bool :=
  match t with
  | Reader _ _ (RdLock | RdReturned _) => false
  | Reader _ _ _ => true
  | Peeler _ => false
  end.

Definition holds_record (t : thread) : bool :=
  match t with
  | Reader _ _ (RdTurn _ _ | RdRelease _ _ _) => true
  | Reader _ _ _ => false
  | Peeler (PeelLock | PeelReturned _) => false
  | Peeler _ => true
  end.

(** A PeelOff between its Lock and its Unlock. *)
Definition peeling (t : thread) : bool := match t with Peeler _ => holds_record t | Reader _ _ _ => false end.
End Threads.

(** ** More fuel changes nothing *)
Section Fuel.
Context `{Aok : ArchOk} `{ZE : ZoneEnv} `{G : SliceGrowth} `{CS : ClosingSentinel}.

Lemma attempt_shorter script : forall blen s rest s' ok,
  attempt script blen s = Ret (rest, s', ok) ->
  rest = script /\ waits_next script \/ (length rest < length script)%nat.
Proof.
  induction script as [| [r | e] script IH]; intros blen s rest s' ok; cbn [attempt].
  - destruct (attempt_turn _ _ _) as [[] | |]; next; try done; intros [= <- _ _]; by left.
  - destruct (attempt_turn _ _ r) as [[s1 | s1 | s1] | |]; next; try done.
    + intros E. right. destruct (IH _ _ _ _ _ E) as [[-> _] | H]; simpl; lia.
    + intros [= <- _ _]. right. simpl. lia.
    + intros [= <- _ _]. right. simpl. lia.
  - destruct (attempt_turn _ _ _) as [[] | |]; next; try done; intros [= <- _ _]; by left.
Qed.

Lemma poll_loop_fuel f : forall f' script blen s,
  (length script < f)%nat -> (length script < f')%nat -> poll_loop f script blen s = poll_loop f' script blen s.
Proof.
  induction f as [| f IH]; intros [| f'] script blen s Hf Hf'; try lia. cbn [poll_loop].
  destruct (attempt script blen s) as [[[rest s'] ok] | |] eqn:E; next; try done.
  destruct ok; [done |]. destruct rest as [| [r | e] rest]; try done.
  apply attempt_shorter in E as [[<- []] | Hl]. apply IH; lia.
Qed.

Lemma ep_recvNext_fuel c blen : 1 <= blen -> forall f f' script s,
  (length script < f)%nat -> (length script < f')%nat -> ready s ->
  ep_recvNext f c script blen s = ep_recvNext f' c script blen s.
Proof.
  intros Hb. induction f as [| f IH]; intros [| f'] script s Hf Hf' Hs; try lia.
  pose proof Hs as (Hn & Hr & Hi & Hsv). cbn [ep_recvNext]. destruct (serving s) eqn:Hse; [done |].
  pose proof (raw_Read_ok script blen (set_keepNotes s true) Hb Hi Hn Hr) as Hraw.
  destruct (Recv.raw_Read script blen (set_keepNotes s true)) as [[s3 | [[rest s3] perr]] | |]; [done | | done | done].
  next. destruct Hraw as (F & N3 & L3 & P3 & used & -> & U3).
  assert (K : latch_kept (term s) (term s3)) by apply F.
  assert (V3 : serving s3 = false) by (rewrite <- Hse; apply F).
  destruct (ep_pass_ok c s3 perr blen ltac:(lia) N3 (latch_kept_inv _ _ K) V3 L3)
    as (res & s4 & -> & (R4 & _) & Hres). next.
  destruct res as [rd |]; [done |].
  destruct (ar_record (result s3)); [| by destruct (Hres eq_refl) as (? & ? & _)]. specialize (U3 eq_refl).
  rewrite length_app in Hf, Hf'. destruct used; [done |]. simpl in *. apply IH; [lia | lia | done].
Qed.

(** recvNext and raw.Read with fuel enough for their script. *)
Definition atomic_recvNext (c : conn) (blen : Z) (script : list event) (s : recvState) :=
  ep_recvNext (S (length script)) c script blen s.
Definition polls_of (blen : Z) (script : list event) (s : recvState) :=
  poll_loop (S (length script)) script blen s.

(** What raw.Read does with the outcome of a callback. *)
Definition after_attempt (blen : Z) (r : out error (list event * recvState * bool))
    : out error (waiting (list event * recvState * option error)) :=
  '(script, s, ok) ← r;
  if (ok : bool) then Ret (Done (script, s, None))
  else match script with
       | PollErr e :: rest => Ret (Done (rest, s, Some e))
       | Recv _ :: _ => polls_of blen script s
       | [] => Ret (Parked s)
       end.

(** What recvNext does with the outcome of raw.Read. *)
Definition after_read (c : conn) (blen : Z) (r : out error (waiting (list event * recvState * option error)))
    : out error (waiting (list event * recvState * read)) :=
  polled ← r;
  match polled with
  | Parked s => Ret (Parked s)
  | Done (script, s, perr) =>
      '(res, s) ← ep_pass c s perr blen;
      match res with
      | Some rd => Ret (Done (script, s, rd))
      | None => atomic_recvNext c blen script s
      end
  end.

Lemma polls_of_eq blen script s : polls_of blen script s = after_attempt blen (attempt script blen s).
Proof.
  unfold polls_of at 1. cbn [poll_loop]. unfold after_attempt.
  destruct (attempt script blen s) as [[[rest s'] ok] | |] eqn:E; next; try done.
  destruct ok; [done |]. destruct rest as [| [r | e] rest]; try done.
  apply attempt_shorter in E as [[<- []] | Hl]. apply poll_loop_fuel; lia.
Qed.

Lemma atomic_recvNext_eq c blen script s :
  1 <= blen -> ready s -> serving s = false ->
  atomic_recvNext c blen script s = after_read c blen (Recv.raw_Read script blen (set_keepNotes s true)).
Proof.
  intros Hb Hs Hse. pose proof Hs as (Hn & Hr & Hi & _). unfold atomic_recvNext at 1. cbn [ep_recvNext]. rewrite Hse.
  pose proof (raw_Read_ok script blen (set_keepNotes s true) Hb Hi Hn Hr) as Hraw. unfold after_read.
  destruct (Recv.raw_Read script blen (set_keepNotes s true)) as [[s3 | [[rest s3] perr]] | |]; [done | | done | done].
  next. destruct Hraw as (F & N3 & L3 & P3 & used & -> & U3).
  assert (K : latch_kept (term s) (term s3)) by apply F.
  assert (V3 : serving s3 = false) by (rewrite <- Hse; apply F).
  destruct (ep_pass_ok c s3 perr blen ltac:(lia) N3 (latch_kept_inv _ _ K) V3 L3)
    as (res & s4 & -> & (R4 & _) & Hres). next.
  destruct res as [rd |]; [done |].
  destruct (ar_record (result s3)); [| by destruct (Hres eq_refl) as (? & ? & _)]. specialize (U3 eq_refl).
  unfold atomic_recvNext. apply ep_recvNext_fuel; [done | | lia | done].
  rewrite length_app. destruct used; [done |]. simpl. lia.
Qed.

Lemma atomic_recvNext_serves c blen script s :
  serving s = true ->
  atomic_recvNext c blen script s =
    ('(piece, info, s) ← servePiece s blen; Ret (Done (script, s, got_bytes piece info None))).
Proof. intros Hs. unfold atomic_recvNext. cbn [ep_recvNext]. by rewrite Hs. Qed.
End Fuel.

(** ** The mutexes *)
Definition owns {T} (h : T -> bool) (l : locked) (ts : list T) : Prop :=
  forall n, l = Some n <-> exists t, ts !! n = Some t /\ h t = true.

(** A step of thread [n] that keeps, takes or gives back a mutex. *)
Inductive lock_moves (n : nat) (l : locked) : bool -> locked -> bool -> Prop :=
| LockKept b : lock_moves n l b l b
| LockTaken : l = None -> lock_moves n l false (Some n) true
| LockGiven : lock_moves n l true None false.

Lemma owns_insert {T} (h : T -> bool) l l' ts n t t' :
  owns h l ts -> ts !! n = Some t -> lock_moves n l (h t) l' (h t') -> owns h l' (<[n := t']> ts).
Proof.
  intros Ho Hn Hm m. pose proof (lookup_lt_Some _ _ _ Hn) as Hl.
  remember (h t) as b eqn:Eb. remember (h t') as b' eqn:Eb'.
  assert (Hh : b = true -> l = Some n) by (intros ->; apply Ho; eauto).
  destruct (decide (m = n)) as [-> | Hmn].
  - rewrite list_lookup_insert_eq by done. destruct Hm as [b | Hl0 |].
    + rewrite (Ho n), Hn. split; intros (? & [= <-] & E); eexists; (split; [done | congruence]).
    + split; [intros _; eauto | done].
    + split; [done |]. intros (? & [= <-] & E). congruence.
  - rewrite list_lookup_insert_ne by done. pose proof (Ho m) as Hom. destruct Hm as [b | Hl0 |].
    + done.
    + split; [congruence |]. intros Ht. apply Hom in Ht. congruence.
    + split; [done |]. intros Ht. apply Hom in Ht. rewrite Hh in Ht by done. congruence.
Qed.

Lemma owns_snoc {T} (h : T -> bool) l ts t : owns h l ts -> h t = false -> owns h l (ts ++ [t]).
Proof.
  intros Ho Ht n. rewrite (Ho n). split; intros (u & Hu & Hh).
  - exists u. split; [by apply lookup_app_l_Some | done].
  - apply lookup_app_Some in Hu as [Hu | [_ Hu]]; [by exists u |].
    apply list_lookup_singleton_Some in Hu as [_ <-]. congruence.
Qed.

Lemma owns_same {T} (h : T -> bool) l ts n m t u :
  owns h l ts -> ts !! n = Some t -> ts !! m = Some u -> h t = true -> h u = true -> n = m.
Proof.
  intros Ho Hn Hm Ht Hu.
  assert (l = Some n) by (apply Ho; eauto). assert (l = Some m) by (apply Ho; eauto). congruence.
Qed.

Lemma owns_free {T} (h : T -> bool) ts n t : owns h None ts -> ts !! n = Some t -> h t = false.
Proof. intros Ho Hn. destruct (h t) eqn:E; [| done]. assert (None = Some n) by (apply Ho; eauto). done. Qed.

Section Discipline.
Context `{A : Arch} `{ZE : ZoneEnv} `{G : SliceGrowth} `{CS : ClosingSentinel}.

(** Split [H : step = Some (v', p')] into its cases. *)
Ltac step_cases H :=
  repeat match type of H with
  | context [match ?x with _ => _ end] => destruct x eqn:?
  | context [if ?x then _ else _] => destruct x eqn:?
  end; first [discriminate H | injection H as <- <-].

Lemma reader_moves n c blen v p g v' p' :
  recvNext_step n c blen v p g = Some (v', p') ->
  p' = RdPanicked \/
  lock_moves n (recvMu v) (holds_recv (Reader c blen p)) (recvMu v') (holds_recv (Reader c blen p')) /\
  lock_moves n (recordMu v) (holds_record (Reader c blen p)) (recordMu v') (holds_record (Reader c blen p')).
Proof.
  intros H. destruct p; cbn [recvNext_step recvAttempt_step] in H; step_cases H; try (by left); right;
    split; cbn; try (by constructor).
Qed.

Lemma peel_checked_holds b : holds_record (Peeler (peel_checked b)) = true.
Proof. unfold peel_checked. by repeat case_match. Qed.

Lemma peeler_moves n v p a v' p' :
  PeelOff_step n v p a = Some (v', p') ->
  recvMu v' = recvMu v /\ rs v' = rs v /\
  lock_moves n (recordMu v) (holds_record (Peeler p)) (recordMu v') (holds_record (Peeler p')).
Proof.
  intros H. destruct p; cbn [PeelOff_step] in H; step_cases H; split_and!; try done; try (by constructor).
  all: destruct (negb _); try (by constructor).
  rewrite peel_checked_holds. constructor.
Qed.

(** A turn that ends the callback leaves no record half read. *)
Definition quiet (t : turn) : Prop :=
  match t with Again _ => True | Stop s | Wait s => noting s = false end.

Lemma not_piece_quiet s d flags err : quiet (not_piece s d flags err).
Proof.
  unfold not_piece. destruct (noting s) eqn:E; [done |].
  destruct (term s) as [t |]; [destruct (notnil _); [destruct (readErrorLocked t _) |] |]; by destruct (err_is _ _).
Qed.

Lemma turn_quiet s dst r t : attempt_turn s dst r = Ret t -> quiet t.
Proof.
  unfold attempt_turn. destruct (dst =? 0); [done |]. destruct r as [e | d flags oob].
  - destruct (e =? EINTR); intros [= <-]; [done | apply not_piece_quiet].
  - destruct (has_bits flags msgNotification); [| intros [= <-]; apply not_piece_quiet].
    destruct (addPiece _ _) as [s1 | |]; next; try done.
    destruct (if has_bits flags msgEOR then _ else _) as [s2 | |]; next; try done.
    destruct (noting s2) eqn:E; by intros [= <-].
Qed.
End Discipline.

(** ** What a reader has done so far *)
Section Progress.
Context `{Aok : ArchOk} `{ZE : ZoneEnv} `{G : SliceGrowth} `{CS : ClosingSentinel}.

(** The next answer is recvmsg's. *)
Definition receives (rest : list event) : Prop := match rest with Recv _ :: _ => True | _ => False end.

(** What raw.Read, started at the head of the loop, has left to do. *)
Definition resume (blen : Z) (p : rpc) (s : recvState) (rest : list event) :=
  match p with
  | RdAttempt _ _ => polls_of blen rest s
  | RdTurn _ _ => after_attempt blen (attempt rest blen s)
  | RdRelease _ _ ok => after_attempt blen (Ret (rest, s, ok))
  | RdWait _ _ => after_attempt blen (Ret (rest, s, false))
  | RdPass _ _ perr => Ret (Done (rest, s, perr))
  | _ => Recv.raw_Read rest blen s
  end.

(** The answers that can come next. *)
Definition allowed (p : rpc) (rest : list event) : Prop :=
  match p with RdAttempt _ _ | RdTurn _ _ => receives rest | _ => True end.

(** Inside raw.Read: the passes before were those of [ep_recvNext], which
    has come to the state [sl], and raw.Read so far was [Recv.raw_Read]. *)
Definition in_read (s0 : recvState) (c : conn) (blen : Z) (es us : list event) (p : rpc) (s : recvState) : Prop :=
  exists sl, ready sl /\ serving sl = false /\
    (forall rest, atomic_recvNext c blen (es ++ rest) s0 = atomic_recvNext c blen rest sl) /\
    (forall rest, allowed p rest -> Recv.raw_Read (us ++ rest) blen (set_keepNotes sl true) = resume blen p s rest).

(** A call that locked recv.mu in the state [s0] has done what
    [ep_recvNext] does from there on the answers it got. *)
Definition reader_ok (s0 : recvState) (c : conn) (blen : Z) (p : rpc) (s : recvState) : Prop :=
  match p with
  | RdLock | RdReturned _ => True
  | RdPanicked => False
  | RdLoop es => ready s /\ forall rest, atomic_recvNext c blen (es ++ rest) s0 = atomic_recvNext c blen rest s
  | RdUnlock es rd => ready s /\ forall rest, atomic_recvNext c blen (es ++ rest) s0 = Ret (Done (rest, s, rd))
  | RdPrepare es => in_read s0 c blen es [] p s
  | RdAttempt es us | RdTurn es us | RdRelease es us _ | RdWait es us | RdPass es us _ => in_read s0 c blen es us p s
  end.

(** Only a turn leaves a record half read. *)
Definition quiet_at (p : rpc) (s : recvState) : Prop :=
  match p with RdTurn _ _ => True | _ => noting s = false end.

Lemma in_read_app s0 c blen es us ev p q s s' :
  in_read s0 c blen es us p s ->
  (forall rest, allowed q rest -> allowed p (ev ++ rest) /\ resume blen p s (ev ++ rest) = resume blen q s' rest) ->
  in_read s0 c blen es (us ++ ev) q s'.
Proof.
  intros (sl & Hr & Hv & H1 & H2) Hq. exists sl. do 3 (split; [done |]). intros rest Ha.
  destruct (Hq rest Ha) as [Ha' Hres]. rewrite <- app_assoc. by rewrite (H2 _ Ha'), Hres.
Qed.

Lemma in_read_same s0 c blen es us p q s s' :
  in_read s0 c blen es us p s ->
  (forall rest, allowed q rest -> allowed p rest /\ resume blen p s rest = resume blen q s' rest) ->
  in_read s0 c blen es us q s'.
Proof. intros H Hq. rewrite <- (app_nil_r us). by apply (in_read_app _ _ _ _ _ [] p q s). Qed.

(** raw.Read never fails to return. *)
Lemma in_read_returns s0 c blen es us p s rest :
  1 <= blen -> in_read s0 c blen es us p s -> allowed p rest -> exists x, resume blen p s rest = Ret x.
Proof.
  intros Hb (sl & (Hn & Hr & Hi & _) & _ & _ & H2) Ha. rewrite <- (H2 rest Ha).
  pose proof (raw_Read_ok (us ++ rest) blen (set_keepNotes sl true) Hb Hi Hn Hr) as H.
  destruct (Recv.raw_Read _ _ _) as [x | |]; [by exists x | done | done].
Qed.

(** One recvmsg. *)
Lemma turn_ok n s0 c blen v es us g v' p' :
  1 <= blen -> in_read s0 c blen es us (RdTurn es us) (rs v) ->
  recvAttempt_step n blen v (RdTurn es us) g = Some (v', p') ->
  reader_ok s0 c blen p' (rs v') /\ quiet_at p' (rs v').
Proof.
  intros Hb Hin Hx. cbn [recvAttempt_step] in Hx.
  pose proof (in_read_returns _ _ _ _ _ _ _ [Recv (g_recv g)] Hb Hin I) as [x Hret]. cbn [resume attempt] in Hret.
  destruct (attempt_turn (rs v) _ (g_recv g)) as [t | |] eqn:Et; [| discriminate Hret | discriminate Hret].
  assert (Hres : forall rest, resume blen (RdTurn es us) (rs v) ([Recv (g_recv g)] ++ rest) =
    match t with
    | Again s => after_attempt blen (attempt rest blen s)
    | Stop s => after_attempt blen (Ret (rest, s, true))
    | Wait s => after_attempt blen (Ret (rest, s, false))
    end) by (intros rest; cbn [resume attempt app]; rewrite Et; by destruct t).
  pose proof (turn_quiet _ _ _ _ Et) as Hq.
  destruct t as [s | s | s]; injection Hx as <- <-; (split; [| exact Hq]);
    eapply in_read_app; try exact Hin; intros rest _; (split; [exact I |]); apply Hres.
Qed.

(** The switch of recvNext. *)
Lemma pass_ok n s0 c blen v es us perr g v' p' :
  1 <= blen -> in_read s0 c blen es us (RdPass es us perr) (rs v) ->
  recvNext_step n c blen v (RdPass es us perr) g = Some (v', p') ->
  reader_ok s0 c blen p' (rs v') /\ quiet_at p' (rs v').
Proof.
  intros Hb (sl & Hs & Hse & H1 & H2) Hx. pose proof Hs as (Hn & Hr & Hi & _).
  pose proof (raw_Read_ok (us ++ []) blen (set_keepNotes sl true) Hb Hi Hn Hr) as Hraw.
  rewrite (H2 [] I) in Hraw. cbn [resume] in Hraw. destruct Hraw as (F & N3 & L3 & _).
  assert (K : latch_kept (term sl) (term (rs v))) by apply F.
  assert (V3 : serving (rs v) = false) by (rewrite <- Hse; apply F).
  destruct (ep_pass_ok c (rs v) perr blen ltac:(lia) N3 (latch_kept_inv _ _ K) V3 L3)
    as (res & s4 & E & (R4 & _) & _).
  assert (Heq : forall rest, atomic_recvNext c blen ((es ++ us) ++ rest) s0 =
    match res with Some rd => Ret (Done (rest, s4, rd)) | None => atomic_recvNext c blen rest s4 end).
  { intros rest. rewrite <- app_assoc, H1, (atomic_recvNext_eq c blen _ sl Hb Hs Hse), (H2 rest I).
    cbn [resume]. unfold after_read. next. by rewrite E. }
  cbn [recvNext_step] in Hx. rewrite E in Hx.
  destruct res as [rd |]; injection Hx as <- <-; (split; [by split | apply R4]).
Qed.

(** The head of the loop. *)
Lemma loop_ok n s0 c blen v es g v' p' :
  1 <= blen -> reader_ok s0 c blen (RdLoop es) (rs v) ->
  recvNext_step n c blen v (RdLoop es) g = Some (v', p') ->
  reader_ok s0 c blen p' (rs v') /\ quiet_at p' (rs v').
Proof.
  intros Hb [Hs H1] Hx. pose proof Hs as (Hn & Hr & Hi & Hsv). cbn [recvNext_step] in Hx.
  destruct (serving (rs v)) eqn:Hse.
  - destruct (servePiece_ok (rs v) blen ltac:(lia) (Hsv eq_refl)) as [_ E].
    destruct (servePiece (rs v) blen) as [[[piece info] s'] | |] eqn:E'; [| done | done]. clear E.
    destruct (serve_ready (rs v) blen piece info s' ltac:(lia) Hs Hse E') as (R & _).
    injection Hx as <- <-. split; [| apply R]. split; [done |]. intros rest.
    rewrite H1, (atomic_recvNext_serves _ _ _ _ Hse), E'. done.
  - injection Hx as <- <-. split; [| done]. exists (rs v). split_and!; done.
Qed.

Lemma receives_read blen rest s : receives rest -> Recv.raw_Read rest blen s = polls_of blen rest s.
Proof. by destruct rest as [| [] rest]. Qed.

Lemma receives_wait blen rest s : receives rest -> after_attempt blen (Ret (rest, s, false)) = polls_of blen rest s.
Proof. by destruct rest as [| [] rest]. Qed.

(** Every step of a reader keeps it on the way of [ep_recvNext]. *)
Lemma reader_step_ok n s0 c blen v p g v' p' :
  1 <= blen -> ready s0 -> (p = RdLock -> rs v = s0) -> reader_ok s0 c blen p (rs v) -> quiet_at p (rs v) ->
  recvNext_step n c blen v p g = Some (v', p') ->
  reader_ok s0 c blen p' (rs v') /\ quiet_at p' (rs v').
Proof.
  intros Hb Hs0 Hl Hok Hq Hx. destruct p; try done.
  - cbn in Hx. destruct (recvMu v); [done |]. injection Hx as <- <-. cbn [rs lock_recv].
    rewrite (Hl eq_refl). split; [by split | apply Hs0].
  - by apply (loop_ok n s0 c blen v before g).
  - cbn in Hx. destruct (g_poll g) as [e |]; injection Hx as <- <-; (split; [| exact Hq]).
    + eapply (in_read_app _ _ _ _ [] [PollErr e]); [exact Hok |]. done.
    + eapply in_read_same; [exact Hok |]. intros rest Ha. split; [done | by apply receives_read].
  - cbn in Hx. destruct (recordMu v); [done |]. injection Hx as <- <-. split; [| done].
    eapply in_read_same; [exact Hok |]. intros rest Ha. split; [done | apply polls_of_eq].
  - by apply (turn_ok n s0 c blen v before now g).
  - cbn in Hx. destruct ok; injection Hx as <- <-; (split; [| exact Hq]); (eapply in_read_same; [exact Hok | done]).
  - cbn in Hx. destruct (g_poll g) as [e |]; injection Hx as <- <-; (split; [| exact Hq]).
    + eapply in_read_app; [exact Hok |]. done.
    + eapply in_read_same; [exact Hok |]. intros rest Ha. split; [done | by apply receives_wait].
  - by apply (pass_ok n s0 c blen v before now perr g).
  - cbn in Hx. injection Hx as <- <-. done.
Qed.
End Progress.

(** ** All the threads together *)
Section Together.
Context `{Aok : ArchOk} `{ZE : ZoneEnv} `{G : SliceGrowth} `{CS : ClosingSentinel}.

Definition logged_as (h : list commit) (n : nat) (c : conn) (blen : Z) (rd : read) : Prop :=
  exists es, {| cm_thread := n; cm_conn := c; cm_len := blen; cm_events := es; cm_read := rd |} ∈ h.

(** What holds of one reader, [s1] being the state when recv.mu was last
    released. *)
Definition thread_fine (s1 : recvState) (w : endpoint_world) (n : nat) (t : thread) : Prop :=
  match t with
  | Reader c blen p =>
      1 <= blen /\ reader_ok s1 c blen p (rs (sh w)) /\ (holds_recv t = true -> quiet_at p (rs (sh w))) /\
      (forall rd, p = RdReturned rd -> logged_as (log w) n c blen rd)
  | Peeler _ => True
  end.

Definition fine (s : recvState) (w : endpoint_world) : Prop :=
  exists s1, serial s (log w) s1 /\ ready s1 /\ (recvMu (sh w) = None -> rs (sh w) = s1) /\
    owns holds_recv (recvMu (sh w)) (ths w) /\ owns holds_record (recordMu (sh w)) (ths w) /\
    (forall n t, ths w !! n = Some t -> thread_fine s1 w n t).

Lemma logged_as_app h m n c blen rd : logged_as h n c blen rd -> logged_as (h ++ m) n c blen rd.
Proof. intros [es H]. exists es. apply elem_of_app. by left. Qed.

(** A thread that does not hold recv.mu is not affected by what happens to
    the receive state. *)
Lemma thread_fine_idle s1 s1' w v' ts h n t :
  holds_recv t = false -> thread_fine s1 w n t ->
  thread_fine s1' {| sh := v'; ths := ts; log := log w ++ h |} n t.
Proof.
  destruct t as [c blen p | p]; [| done]. intros Hh (Hb & Hok & _ & Hl). cbn [thread_fine].
  split; [done |]. split; [destruct p; try done; by cbn in Hh |]. split; [by rewrite Hh |].
  intros rd Hp. apply logged_as_app. by apply Hl.
Qed.

(** A call that does not return keeps recv.mu. *)
Lemma reader_keeps n c blen v p g v' p' :
  recvNext_step n c blen v p g = Some (v', p') ->
  holds_recv (Reader c blen p') = true \/ exists es rd, p = RdUnlock es rd /\ p' = RdReturned rd /\ v' = unlock_recv v.
Proof.
  intros H. destruct p; cbn [recvNext_step recvAttempt_step] in H; try (by left);
    try (by left; repeat case_match; simplify_eq).
  injection H as <- <-. right. eauto.
Qed.

Lemma reader_starts n c blen v p g v' p' :
  recvNext_step n c blen v p g = Some (v', p') ->
  holds_recv (Reader c blen p) = true \/ p = RdLock /\ recvMu v = None.
Proof. intros H. destruct p; try (by left); cbn in H. right. by destruct (recvMu v). Qed.

(** The others do not hold recv.mu while thread [n] uses it. *)
Lemma others_idle n m c blen v ts p g v' p' u :
  owns holds_recv (recvMu v) ts -> ts !! n = Some (Reader c blen p) ->
  recvNext_step n c blen v p g = Some (v', p') -> ts !! m = Some u -> m <> n -> holds_recv u = false.
Proof.
  intros Ho Hn Hx Hm Hmn. destruct (reader_starts _ _ _ _ _ _ _ _ Hx) as [Hh | [_ Hl]].
  - destruct (holds_recv u) eqn:E; [| done]. by destruct Hmn; eapply (owns_same holds_recv).
  - rewrite Hl in Ho. by eapply (owns_free holds_recv).
Qed.

Lemma fine_reader s n v ts h c blen p g v' p' :
  ts !! n = Some (Reader c blen p) -> recvNext_step n c blen v p g = Some (v', p') ->
  fine s {| sh := v; ths := ts; log := h |} ->
  fine s {| sh := v'; ths := <[n := Reader c blen p']> ts; log := h ++ committed n c blen p |}.
Proof.
  intros Hn Hx (s1 & Hser & Hr & Hfree & Ho1 & Ho2 & Ht). cbn in *.
  destruct (Ht n _ Hn) as (Hb & Hok & Hq & _). cbn in Hok, Hq.
  assert (Hl : p = RdLock -> rs v = s1).
  { intros ->. destruct (reader_starts _ _ _ _ _ _ _ _ Hx) as [? | [_ ?]]; [done | auto]. }
  assert (Hq' : quiet_at p (rs v)).
  { destruct (reader_starts _ _ _ _ _ _ _ _ Hx) as [? | [-> _]]; [by apply Hq |]. rewrite (Hl eq_refl). apply Hr. }
  destruct (reader_step_ok n s1 c blen v p g v' p' Hb Hr Hl Hok Hq' Hx) as [Hok' Hqp].
  destruct (reader_moves _ _ _ _ _ _ _ _ Hx) as [-> | [M1 M2]]; [done |].
  pose proof (owns_insert _ _ _ _ _ _ (Reader c blen p') Ho1 Hn M1) as Ho1'.
  pose proof (owns_insert _ _ _ _ _ _ (Reader c blen p') Ho2 Hn M2) as Ho2'.
  assert (Hothers : forall s1' m u, m <> n -> ts !! m = Some u ->
    thread_fine s1' {| sh := v'; ths := <[n := Reader c blen p']> ts; log := h ++ committed n c blen p |} m u).
  { intros s1' m u Hmn Hm. apply (thread_fine_idle s1 s1' {| sh := v; ths := ts; log := h |}); [| by apply Ht].
    exact (others_idle n m c blen v ts p g v' p' u Ho1 Hn Hx Hm Hmn). }
  destruct (reader_keeps _ _ _ _ _ _ _ _ Hx) as [Hh | (es & rd & -> & -> & ->)].
  - exists s1. cbn. split_and!; try done.
    + destruct p; try (by rewrite app_nil_r). cbn in Hx. by injection Hx as <- <-.
    + intros E. assert (Hs : recvMu v' = Some n); [| congruence]. apply Ho1'. eexists.
      split; [apply list_lookup_insert_eq; by eapply lookup_lt_Some | done].
    + intros m u [(<- & <- & _) | [Hmn Hm]]%list_lookup_insert_Some; [| by apply Hothers].
      split; [done |]. split; [done |]. split; [done |]. by intros rd ->.
  - destruct Hok as [Hr' Heq]. exists (rs v). cbn. split_and!; try done.
    + eapply SerialSnoc; [exact Hser |]. specialize (Heq []). by rewrite app_nil_r in Heq.
    + intros m u [(<- & <- & _) | [Hmn Hm]]%list_lookup_insert_Some; [| by apply Hothers].
      split; [done |]. split; [done |]. split; [done |]. intros rd' [= <-]. exists es. apply elem_of_app. right. constructor.
Qed.

Lemma fine_peeler s n v ts h p a v' p' :
  ts !! n = Some (Peeler p) -> PeelOff_step n v p a = Some (v', p') ->
  fine s {| sh := v; ths := ts; log := h |} ->
  fine s {| sh := v'; ths := <[n := Peeler p']> ts; log := h |}.
Proof.
  intros Hn Hx (s1 & Hser & Hr & Hfree & Ho1 & Ho2 & Ht). cbn in *.
  destruct (peeler_moves _ _ _ _ _ _ Hx) as (E1 & E2 & M). exists s1. cbn. rewrite E1, E2.
  split_and!; try done.
  - eapply owns_insert; [exact Ho1 | exact Hn | constructor].
  - by eapply owns_insert.
  - intros m u [(<- & <- & _) | [Hmn Hm]]%list_lookup_insert_Some; [done |].
    specialize (Ht m u Hm). destruct u as [c blen q | q]; [| done]. cbn in *. by rewrite E2.
Qed.

Lemma fine_call s v ts h t :
  fine s {| sh := v; ths := ts; log := h |} -> holds_recv t = false -> holds_record t = false ->
  (forall s1 w n, thread_fine s1 w n t) ->
  fine s {| sh := v; ths := ts ++ [t]; log := h |}.
Proof.
  intros (s1 & Hser & Hr & Hfree & Ho1 & Ho2 & Ht) H1 H2 Hf. exists s1. cbn in *.
  split_and!; try done; try (by apply owns_snoc).
  intros n u [Hn | [_ Hn]]%lookup_app_Some; [by apply (Ht n u) |].
  by apply list_lookup_singleton_Some in Hn as [_ <-].
Qed.

Lemma fine_step s w w' : endpoint_step w w' -> fine s w -> fine s w'.
Proof.
  intros [n v ts h c blen p g v' p' Hn Hx | n v ts h p a v' p' Hn Hx | v ts h c blen Hb | v ts h].
  - by apply fine_reader with (g := g).
  - by apply fine_peeler with (p := p) (a := a).
  - intros Hf. by apply fine_call.
  - intros Hf. by apply fine_call.
Qed.

Lemma fine_fresh s : ready s -> fine s (fresh_world s).
Proof.
  intros Hs. exists s. cbn. split_and!; try done; try constructor; intros H; try done; by destruct H as (? & ? & _).
Qed.

Lemma fine_reachable s w : ready s -> endpoint_reachable s w -> fine s w.
Proof.
  intros Hs Hw. unfold endpoint_reachable in Hw. pose proof (fine_fresh s Hs) as H0.
  induction Hw as [| w0 w1 w2 Hst _ IH]; [done |]. by apply IH, (fine_step s w0).
Qed.

(** ** The log *)
Definition returned_as (ts : list thread) (m : commit) : Prop :=
  ts !! cm_thread m = Some (Reader (cm_conn m) (cm_len m) (RdReturned (cm_read m))).

Definition log_fine (w : endpoint_world) : Prop :=
  NoDup (cm_thread <$> log w) /\ forall m, m ∈ log w -> returned_as (ths w) m.

(** A call that has returned stays as it is. *)
Lemma returned_insert ts n t u m :
  ts !! n = Some t -> (forall c blen rd, t <> Reader c blen (RdReturned rd)) ->
  returned_as ts m -> returned_as (<[n := u]> ts) m.
Proof.
  unfold returned_as. intros Hn Ht Hm. destruct (decide (cm_thread m = n)) as [E | Hne].
  - rewrite E in Hm. rewrite Hn in Hm. injection Hm as ->. by edestruct Ht.
  - by rewrite list_lookup_insert_ne.
Qed.

Lemma log_fine_reader n v ts h c blen p g v' p' :
  ts !! n = Some (Reader c blen p) -> recvNext_step n c blen v p g = Some (v', p') ->
  log_fine {| sh := v; ths := ts; log := h |} ->
  log_fine {| sh := v'; ths := <[n := Reader c blen p']> ts; log := h ++ committed n c blen p |}.
Proof.
  intros Hn Hx [Hd Hr]. unfold log_fine. cbn in *.
  assert (Hold : forall m, m ∈ h -> returned_as (<[n := Reader c blen p']> ts) m).
  { intros m Hm. eapply returned_insert; [exact Hn | intros ??? [= _ _ ->]; done | by apply Hr]. }
  destruct p; cbn [committed]; rewrite ?app_nil_r; try done. injection Hx as <- <-.
  rewrite fmap_app. cbn. split.
  - apply NoDup_app. split; [done |]. split; [| apply NoDup_singleton].
    intros k (m & -> & Hm)%list_elem_of_fmap E. apply list_elem_of_singleton in E.
    specialize (Hr m Hm). unfold returned_as in Hr. rewrite E, Hn in Hr. done.
  - intros m [Hm | ->%list_elem_of_singleton]%elem_of_app; [by apply Hold |].
    apply list_lookup_insert_eq. by eapply lookup_lt_Some.
Qed.

Lemma log_fine_step w w' : endpoint_step w w' -> log_fine w -> log_fine w'.
Proof.
  intros [n v ts h c blen p g v' p' Hn Hx | n v ts h p a v' p' Hn Hx | v ts h c blen Hb | v ts h];
    [by apply (log_fine_reader n v ts h c blen p g) | ..]; intros [Hd Hr]; unfold log_fine; cbn in *;
    (split; [done |]); intros m Hm.
  - eapply returned_insert; [exact Hn | done | by apply Hr].
  - apply lookup_app_l_Some, Hr, Hm.
  - apply lookup_app_l_Some, Hr, Hm.
Qed.

Lemma log_fine_reachable s w : endpoint_reachable s w -> log_fine w.
Proof.
  unfold endpoint_reachable. intros Hw. assert (H0 : log_fine (fresh_world s)) by (split; [constructor | intros m; by intros ?%elem_of_nil]).
  induction Hw as [| w0 w1 w2 Hst _ IH]; [done |]. by apply IH, (log_fine_step w0).
Qed.

(** ** PeelOff and the readers *)

(** While a PeelOff makes its system calls no record is half read. *)
Lemma peeling_quiet s w n t :
  fine s w -> ths w !! n = Some t -> peeling t = true -> noting (rs (sh w)) = false.
Proof.
  intros (s1 & _ & Hr & Hfree & Ho1 & Ho2 & Ht) Hn Hp.
  destruct (recvMu (sh w)) as [m |] eqn:Em; [| rewrite (Hfree eq_refl); apply Hr].
  destruct (proj1 (Ho1 m) eq_refl) as (u & Hm & Hu). pose proof (Ht m u Hm) as Hf.
  destruct u as [c blen q | q]; [| done]. destruct Hf as (_ & _ & Hq & _). specialize (Hq Hu).
  destruct q; try done. destruct t as [| q']; [done |]. cbn [peeling] in Hp.
  assert (n = m) by (by eapply (owns_same holds_record)). congruence.
Qed.

(** The holder of recordMu can go on, whatever it is answered. *)
Lemma holder_steps w n t g a :
  ths w !! n = Some t -> holds_record t = true -> exists w', endpoint_step w w' /\
    match t with
    | Reader c blen p => exists p', recvNext_step n c blen (sh w) p g = Some (sh w', p')
    | Peeler p => exists p', PeelOff_step n (sh w) p a = Some (sh w', p')
    end.
Proof.
  intros Hn Hh. destruct w as [v ts h]. cbn in *. destruct t as [c blen p | p].
  - assert (Hx : exists v' p', recvNext_step n c blen v p g = Some (v', p')).
    { destruct p; try done; cbn; [| by do 2 eexists].
      destruct (attempt_turn _ _ _) as [[] | |]; by do 2 eexists. }
    destruct Hx as (v' & p' & Hx). eexists. split; [by eapply StepReader | by eexists].
  - assert (Hx : exists v' p', PeelOff_step n v p a = Some (v', p')) by (destruct p; try done; by do 2 eexists).
    destruct Hx as (v' & p' & Hx). eexists. split; [by eapply StepPeeler | by eexists].
Qed.
End Together.

(** ** The system calls of PeelOff *)
Section Calls.
Context `{A : Arch} `{AK : !ArchOk A} `{H : Host}.

(** The argument of SCTP_STATUS, and of SCTP_SOCKOPT_PEELOFF_FLAGS. *)
Definition status_arg (id : Z) : bytes := splice (zeros sizeStatus) statusAssocIDOff (bytes_of NativeEndian 4 (u32 id)).
Definition flags_arg (id : Z) : bytes :=
  splice (splice (zeros sizePeeloffFlagsArg) peeloffFlagsArgAssocIDOff (bytes_of NativeEndian 4 (u32 id)))
    peeloffFlagsArgFlagsOff (bytes_of NativeEndian 4 (u32 (Z.lor SOCK_CLOEXEC SOCK_NONBLOCK))).

Lemma len_status_arg id : len (status_arg id) = sizeStatus.
Proof. unfold status_arg. rewrite len_splice; rewrite ?len_bytes_of, ?len_zeros; abi; lia. Qed.

Lemma len_flags_arg id : len (flags_arg id) = sizePeeloffFlagsArg.
Proof. unfold flags_arg. rewrite !len_splice; rewrite ?len_splice, ?len_bytes_of, ?len_zeros; rewrite ?len_bytes_of, ?len_zeros; abi; lia. Qed.

Definition asked_opt (st : process) (fd opt : Z) (b : bytes) : process * answer :=
  let '(o, (errno, (r, _))) := os_getsockopt (p_os st) fd ipprotoSCTP opt b in
  (set_os st o, {| an_errno := errno; an_value := 0; an_bytes := reply_into b r |}).

Definition asked_call (st : process) (c : fdcall) : process * answer :=
  let '(o, (errno, (v, d))) := os_call (p_os st) c in
  (set_os st o, {| an_errno := errno; an_value := v; an_bytes := d |}).

(** What the host answers the system call of each step. *)
Definition host_answers (s : socket) (id : Z) (p : ppc) (st : process) : process * answer :=
  match p with
  | PeelControl =>
      let yes b := {| an_errno := if (b : bool) then 0 else EBADF; an_value := 0; an_bytes := [] |} in
      if is_closed st (s_file s) then (st, yes false)
      else let '(o, gone) := os_released (p_os st) (s_file s) in (set_os st o, yes (negb gone))
  | PeelStatus => asked_opt st (s_fd s) optStatus (status_arg id)
  | PeelDup => asked_call st (c_dup (s_fd s))
  | PeelClose spare => asked_call st (c_close spare)
  | _ => asked_opt st (s_fd s) optSockoptPeeloffFlags (flags_arg id)
  end.

(** The steps between Lock and Unlock, on one host. *)
Fixpoint peel_steps (k : nat) (s : socket) (id : Z) (p : ppc) (st : process) : process * ppc :=
  match k, p with
  | _, PeelUnlock _ => (st, p)
  | O, _ => (st, p)
  | S k, _ => let '(st, a) := host_answers s id p st in peel_steps k s id (peelOff_next p a) st
  end.

(** The rest of [peelOff] from each system call on. *)
Definition flags_part (fd id : Z) : io Z :=
  arg ← pure (put_at NativeEndian 4 (zeros sizePeeloffFlagsArg) peeloffFlagsArgAssocIDOff (u32 id));
  arg ← pure (put_at NativeEndian 4 arg peeloffFlagsArgFlagsOff (u32 (Z.lor SOCK_CLOEXEC SOCK_NONBLOCK)));
  '(arg, _) ← wrapped (in_call "getsockopt") (on_fd fd (rawGetsockopt ipprotoSCTP optSockoptPeeloffFlags arg));
  sd ← pure (get_at NativeEndian 4 arg peeloffFlagsArgSDOff);
  mret (i32 sd).

Definition spare_part (fd id : Z) : io Z :=
  '(spare, _) ← wrapped (fun err => Some (Wrapf "sctp: no descriptor to spare for the peeled-off association: %w" (SyscallErr "fcntl" err)))
                  (sys_call (c_dup fd));
  _ ← ignore (sys_call (c_close spare));
  flags_part fd id.


Definition outcome_of {X} (m : io X) (st : process) : process * out error X := ((m st).1.1, (m st).2).

Definition ends_as (k : nat) (s : socket) (id : Z) (p : ppc) (m : io Z) : Prop :=
  forall st, peel_steps k s id p st = ((outcome_of m st).1, PeelUnlock (outcome_of m st).2).

(** A getsockopt in the section, and what the code does next. *)
Lemma getsockopt_next {Y} fd opt b (k : bytes * Z -> io Y) st :
  0 < len b ->
  outcome_of (r ← wrapped (in_call "getsockopt") (on_fd fd (rawGetsockopt ipprotoSCTP opt b)); k r) st =
  let '(o, (errno, (r, n))) := os_getsockopt (p_os st) fd ipprotoSCTP opt b in
  if errno =? 0 then outcome_of (k (reply_into b r, u32 n)) (set_os st o)
  else (set_os st o, Err (SyscallErr "getsockopt" (errno_error errno))).
Proof.
  intros Hb. unfold outcome_of, wrapped, caught, on_fd, rawGetsockopt, mbind, sys_bind. rewrite (proj2 (Z.eqb_neq _ _)) by lia.
  cbn. destruct (os_getsockopt _ _ _ _ _) as [o [errno [r n]]]. cbn. destruct (errno =? 0); cbn; [| done].
  change {| p_os := o; p_closed := p_closed st; p_next := p_next st; p_cache := p_cache st;
            p_ipv6Unavailable := p_ipv6Unavailable st |} with (set_os st o).
  by destruct (k _ (set_os st o)) as [[? ?] ?].
Qed.

Lemma pure_next {X Y} (r : out error X) (k : X -> io Y) st :
  outcome_of (x ← pure r; k x) st =
  match r with Ret x => outcome_of (k x) st | Err e => (st, Err e) | Panic => (st, Panic) end.
Proof. unfold outcome_of, mbind, sys_bind, pure. destruct r as [x | |]; cbn; [| done..]. by destruct (k x st) as [[? ?] ?]. Qed.

Lemma sys_call_next {Y} (wrap : error -> error) c (k : Z * bytes -> io Y) st :
  outcome_of (r ← wrapped (fun e => Some (wrap e)) (sys_call c); k r) st =
  let '(o, (errno, (v, d))) := os_call (p_os st) c in
  if errno =? 0 then outcome_of (k (v, d)) (set_os st o) else (set_os st o, Err (wrap (errno_error errno))).
Proof.
  unfold outcome_of, wrapped, caught, sys_call, mbind, sys_bind. destruct (os_call _ _) as [o [errno [v d]]]. cbn.
  destruct (errno =? 0); cbn; [| done]. by destruct (k _ (set_os st o)) as [[? ?] ?].
Qed.

Lemma ignore_next {Y} c (k : io Y) st :
  outcome_of (_ ← ignore (sys_call c); k) st = outcome_of k (set_os st (os_call (p_os st) c).1).
Proof.
  unfold outcome_of, ignore, err_of, caught, sys_call, mbind, sys_bind. destruct (os_call _ _) as [o [errno [v d]]]. cbn.
  destruct (errno =? 0); cbn; by destruct (k (set_os st o)) as [[? ?] ?].
Qed.

Lemma flags_ends s id k : ends_as (S k) s id PeelFlags (flags_part (s_fd s) id).
Proof.
  intros st. unfold flags_part. rewrite !pure_next, put_at_ok by (rewrite ?len_zeros; abi; lia).
  rewrite pure_next, put_at_ok by (try rewrite len_splice; rewrite ?len_bytes_of, ?len_zeros; abi; lia).
  fold (flags_arg id). rewrite getsockopt_next by (rewrite len_flags_arg; done).
  cbn [peel_steps host_answers]. unfold asked_opt. destruct (os_getsockopt _ _ _ _ _) as [o [errno [r n]]].
  cbn [peelOff_next an_errno an_bytes]. destruct (errno =? 0); cbn [negb]; [| by destruct k]. rewrite pure_next.
  destruct (get_at _ _ _ _); by destruct k.
Qed.

Lemma spare_ends s id k : ends_as (S (S (S k))) s id PeelDup (spare_part (s_fd s) id).
Proof.
  intros st. unfold spare_part. rewrite sys_call_next.
  cbn [peel_steps host_answers]. unfold asked_call at 1. destruct (os_call _ _) as [o [errno [v d]]].
  cbn [peelOff_next an_errno an_value]. destruct (errno =? 0); cbn [negb]; [| by destruct k]. rewrite ignore_next.
  cbn [peel_steps host_answers]. unfold asked_call at 1. destruct (os_call _ _) as [o2 [errno2 [v2 d2]]].
  cbn [peelOff_next fst]. apply flags_ends.
Qed.

Lemma status_ends s id k : ends_as (S (S (S (S k)))) s id PeelStatus (peelOff (s_fd s) id).
Proof.
  intros st. unfold peelOff. rewrite pure_next, put_at_ok by (rewrite ?len_zeros; abi; lia). fold (status_arg id).
  rewrite getsockopt_next by (rewrite len_status_arg; done).
  cbn [peel_steps host_answers]. unfold asked_opt at 1. destruct (os_getsockopt _ _ _ _ _) as [o [errno [r n]]].
  cbn [peelOff_next an_errno an_bytes]. destruct (errno =? 0); cbn [negb]; [| done]. rewrite pure_next. unfold peel_checked.
  destruct (get_at _ _ _ _) as [v | |]; [| done..]. rewrite pure_next.
  destruct (checkPeelOffState (i32 v)); cbn [fail_on]; [done |]. apply spare_ends.
Qed.

Lemma control_ends s id k st :
  ends_as k s id PeelStatus (peelOff (s_fd s) id) ->
  let '(st', _, r) := control s (peelOff (s_fd s) id) st in
  peel_steps (S k) s id PeelControl st = (st', PeelUnlock r).
Proof.
  unfold ends_as, outcome_of. intros Ho.
  unfold control, caught, File_Control, mbind, sys_bind. cbn [peel_steps host_answers].
  destruct (is_closed st (s_file s)); [by destruct k |].
  destruct (os_released (p_os st) (s_file s)) as [o [|]]; [by destruct k |].
  cbn [peelOff_next an_errno negb Z.eqb]. rewrite Ho.
  by destruct (peelOff (s_fd s) id (set_os st o)) as [[st' l] [v | e |]].
Qed.

(** The system calls PeelOff makes between locking and unlocking
    recordMu are those of peelOff under raw.Control: answered by any host,
    the five steps leave it in the same state with the same result, the
    descriptor or the error of whichever step failed. *)
Theorem peelOff_section s id st :
  let '(st', _, r) := control s (peelOff (s_fd s) id) st in
  peel_steps 5 s id PeelControl st = (st', PeelUnlock r).
Proof.
  apply control_ends, (status_ends s id 0).
Qed.
End Calls.

(** ** Theorems *)
Section Theorems.
Context `{Aok : ArchOk} `{ZE : ZoneEnv} `{G : SliceGrowth} `{CS : ClosingSentinel}.

(** C8 The concurrent reads of an Endpoint are the atomic ones: in every
    interleaving of any number of recvNext and PeelOff calls, with every
    recvmsg, wait and mutex operation a step of its own and every answer
    arbitrary, the recvNext calls that have returned, in the order they
    released recv.mu, are ep_recvNext one after the other on the answers
    each of them got, each with its own result; while recv.mu is free the
    receive state is the one they leave; each call is counted once, and
    none panics. *)
Theorem recv_serial s w (Hs : ready s) (Hw : endpoint_reachable s w) :
  (exists s1, serial s (log w) s1 /\ ready s1 /\ (recvMu (sh w) = None -> rs (sh w) = s1)) /\
  NoDup (cm_thread <$> log w) /\
  (forall n c blen rd, ths w !! n = Some (Reader c blen (RdReturned rd)) <->
     exists es, {| cm_thread := n; cm_conn := c; cm_len := blen; cm_events := es; cm_read := rd |} ∈ log w) /\
  (forall n c blen, ths w !! n <> Some (Reader c blen RdPanicked)).
Proof.
  destruct (log_fine_reachable s w Hw) as [Hd Hret].
  destruct (fine_reachable s w Hs Hw) as (s1 & Hser & Hr & Hfree & _ & _ & Ht).
  split; [by exists s1 |]. split; [done |]. split.
  - intros n c blen rd. split.
    + intros Hn. destruct (Ht n _ Hn) as (_ & _ & _ & Hl). by apply Hl.
    + intros [es Hm]. exact (Hret _ Hm).
  - intros n c blen Hn. by destruct (Ht n _ Hn) as (_ & Hok & _).
Qed.

(** C16 recordMu keeps PeelOff out of the middle of a notification without
    making it wait for an idle reader: whenever a PeelOff is between its
    Lock and its Unlock, no notification record is half read, no reader is
    inside a callback and no other PeelOff is between its own; a reader that
    waits for the poller does not hold recordMu; and whoever holds it can
    take its next step at once, whatever the system call answers. *)
Theorem peeloff_excluded s w (Hs : ready s) (Hw : endpoint_reachable s w) :
  (forall n t, ths w !! n = Some t -> peeling t = true ->
     noting (rs (sh w)) = false /\ forall m u, ths w !! m = Some u -> m <> n -> holds_record u = false) /\
  (forall n c blen es us, ths w !! n = Some (Reader c blen (RdWait es us)) -> recordMu (sh w) <> Some n) /\
  (forall n, recordMu (sh w) = Some n -> exists t, ths w !! n = Some t /\ forall g a,
     exists w', endpoint_step w w' /\
       match t with
       | Reader c blen p => exists p', recvNext_step n c blen (sh w) p g = Some (sh w', p')
       | Peeler p => exists p', PeelOff_step n (sh w) p a = Some (sh w', p')
       end).
Proof.
  pose proof (fine_reachable s w Hs Hw) as Hf. pose proof Hf as (s1 & _ & _ & _ & _ & Ho & _). split; [| split].
  - intros n t Hn Hp. split; [by eapply peeling_quiet |]. intros m u Hm Hmn.
    destruct (holds_record u) eqn:E; [| done]. destruct t as [| q]; [done |].
    destruct Hmn. by eapply (owns_same holds_record).
  - intros n c blen es us Hn E. apply Ho in E as (t & Ht & Hh). rewrite Hn in Ht. by injection Ht as <-.
  - intros n E. apply Ho in E as (t & Ht & Hh). exists t. split; [done |]. intros g a. by apply holder_steps.
Qed.
End Theorems.

(** ** An execution: a PeelOff while a reader waits *)
Section Play.
Context `{A : Arch} `{ZE : ZoneEnv} `{G : SliceGrowth} `{CS : ClosingSentinel}.

Inductive move := MoveReader (n : nat) (g : given) | MovePeeler (n : nat) (a : answer) | MoveRecv (c : conn) (blen : Z) | MovePeel.

Definition play_move (w : endpoint_world) (m : move) : option endpoint_world :=
  match m with
  | MoveReader n g =>
      match ths w !! n with
      | Some (Reader c blen p) =>
          '(v, p') ← recvNext_step n c blen (sh w) p g;
          Some {| sh := v; ths := <[n := Reader c blen p']> (ths w); log := log w ++ committed n c blen p |}
      | _ => None
      end
  | MovePeeler n a =>
      match ths w !! n with
      | Some (Peeler p) =>
          '(v, p') ← PeelOff_step n (sh w) p a;
          Some {| sh := v; ths := <[n := Peeler p']> (ths w); log := log w |}
      | _ => None
      end
  | MoveRecv c blen =>
      if 1 <=? blen then Some {| sh := sh w; ths := ths w ++ [Reader c blen RdLock]; log := log w |} else None
  | MovePeel => Some {| sh := sh w; ths := ths w ++ [Peeler PeelLock]; log := log w |}
  end.

Fixpoint play (w : endpoint_world) (ms : list move) : option endpoint_world :=
  match ms with
  | [] => Some w
  | m :: ms => w ← play_move w m; play w ms
  end.

Lemma play_move_step w m w' : play_move w m = Some w' -> endpoint_step w w'.
Proof.
  destruct w as [v ts h], m as [n g | n a | c blen |]; cbn.
  - destruct (ts !! n) as [[c blen p | p] |] eqn:Hn; try done.
    destruct (recvNext_step n c blen v p g) as [[v' p'] |] eqn:Hx; [| done]. intros [= <-]. by eapply StepReader.
  - destruct (ts !! n) as [[c blen p | p] |] eqn:Hn; try done.
    destruct (PeelOff_step n v p a) as [[v' p'] |] eqn:Hx; [| done]. intros [= <-]. by eapply StepPeeler.
  - destruct (Z.leb_spec 1 blen); [| done]. intros [= <-]. by constructor.
  - intros [= <-]. constructor.
Qed.

Lemma play_reachable s ms w : play (fresh_world s) ms = Some w -> endpoint_reachable s w.
Proof.
  unfold endpoint_reachable. generalize (fresh_world s). induction ms as [| m ms IH]; intros w0; cbn.
  - intros [= <-]. constructor.
  - destruct (play_move w0 m) as [w1 |] eqn:Hm; [| done]. cbn. intros Hp.
    eapply rtc_l; [by apply (play_move_step w0 m) | by apply IH].
Qed.

Definition played (s : recvState) (ms : list move) : endpoint_world := default (fresh_world s) (play (fresh_world s) ms).

Lemma played_reachable s ms : endpoint_reachable s (played s ms).
Proof.
  unfold played. destruct (play (fresh_world s) ms) as [w |] eqn:E; [by apply (play_reachable s ms) |]. constructor.
Qed.
End Play.

Definition answered (r : recv_result) : given := {| g_poll := None; g_recv := r |}.
Definition empty_queue : given := answered (RErr EAGAIN).
Definition found : answer := {| an_errno := 0; an_value := 0; an_bytes := [] |}.
Definition unknown : answer := {| an_errno := EINVAL; an_value := 0; an_bytes := [] |}.

(** The reader finds the queue empty and waits; the PeelOff locks recordMu. *)
Definition peeloff_moves : list move :=
  [MoveRecv plain_conn 5; MovePeel] ++ replicate 6 (MoveReader 0 empty_queue) ++ replicate 2 (MovePeeler 1 found).

(** The id is unknown; a message arrives and the reader returns it. *)
Definition message_moves : list move :=
  peeloff_moves ++ replicate 2 (MovePeeler 1 unknown) ++
  replicate 6 (MoveReader 0 (answered (ROk [Byte.x61; Byte.x62] msgEOR (@cmsg_bytes amd64 (@rcv_record amd64 sample_rcv))))).

Definition peeloff_world : endpoint_world := @played amd64 host_zones grow_exact go_runtime endpoint_storage peeloff_moves.
Definition message_world : endpoint_world := @played amd64 host_zones grow_exact go_runtime endpoint_storage message_moves.

Example peeloff_world_threads :
  match ths peeloff_world with
  | [Reader _ _ (RdWait [] [Recv (RErr EAGAIN)]); Peeler PeelStatus] => True
  | _ => False
  end.
Proof. vm_compute. done. Qed.

Example message_world_threads :
  match ths message_world with
  | [Reader _ _ (RdReturned rd); Peeler (PeelReturned (Err _))] => rd_data rd = [Byte.x61; Byte.x62] /\ rd_err rd = None
  | _ => False
  end.
Proof. vm_compute. done. Qed.

Lemma recv_serial_witness :
  ready endpoint_storage /\ NoDup (cm_thread <$> log message_world) /\ length (log message_world) = 1%nat.
Proof.
  split; [exact endpoint_storage_ready |].
  split; [| vm_compute; reflexivity].
  apply (@recv_serial amd64 amd64_ok host_zones grow_exact go_runtime endpoint_storage message_world endpoint_storage_ready
           (played_reachable endpoint_storage message_moves)).
Defined.

Lemma peeloff_excluded_witness :
  ready endpoint_storage /\ recordMu (sh peeloff_world) = Some 1%nat /\ noting (rs (sh peeloff_world)) = false.
Proof.
  split; [exact endpoint_storage_ready |]. split; [vm_compute; reflexivity |].
  apply (@peeloff_excluded amd64 amd64_ok host_zones grow_exact go_runtime endpoint_storage peeloff_world endpoint_storage_ready
           (played_reachable endpoint_storage peeloff_moves)) with (n := 1%nat) (t := Peeler PeelStatus); vm_compute; reflexivity.
Defined.
