(* ===== verification/Stubs.v ===== *)
(** * The methods on other platforms (src/unsupported.go)

    On every platform but Linux the methods of a Listener, a Conn and an
    Endpoint, and the two functions that install authentication keys, take
    any receiver and any arguments: an accessor of a value returns its zero
    value, and every other one the zero values of its results and
    ErrUnsupported, as it is.  The constructors, which check their Config
    first, and what is to prove about them are in Unsupported.v. *)
From Stdlib Require Import ZArith Bool.
From stdpp Require Import base list option.
From coqutil Require Import Byte.
From S2P Require Import Prelude Errors Netip Sockaddr Options MsgInfo Recv Addr Send Conns Listeners Endpoints.

Definition unsupported : option error := Some (Plain ErrUnsupported).

Section Methods.
Context {RawConn : Type}.

(** ** Authentication keys *)
Definition other_InstallAuthKey (a1 : option RawConn) (a2 : Z) (a3 : bytes) : option error := unsupported.
Definition other_ActivateAuthKey (a1 : option RawConn) (a2 : Z) : option error := unsupported.

(** ** Listener *)
Definition other_Listener_Accept (l : option listener) : option connection * option error := (None, unsupported).
Definition other_Listener_AcceptSCTP (l : option listener) : option connection * option error := (None, unsupported).
Definition other_Listener_Addr (l : option listener) : option SctpAddr := None.
Definition other_Listener_Close (l : option listener) : option error := unsupported.
Definition other_Listener_SetDeadline (l : option listener) (a1 : option Z) : option error := unsupported.
Definition other_Listener_BindAdd (l : option listener) (a1 : list Addr) : option error := unsupported.
Definition other_Listener_BindRemove (l : option listener) (a1 : list Addr) : option error := unsupported.
Definition other_Listener_SyscallConn (l : option listener) : option RawConn * option error := (None, unsupported).

(** ** Conn *)
Definition other_Conn_AssocID (c : option connection) : Z := 0.
Definition other_Conn_LocalAddr (c : option connection) : option SctpAddr := None.
Definition other_Conn_RemoteAddr (c : option connection) : option SctpAddr := None.
Definition other_Conn_LocalAddrs (c : option connection) : option SctpAddr * option error := (None, unsupported).
Definition other_Conn_PeerAddrs (c : option connection) : option SctpAddr * option error := (None, unsupported).
Definition other_Conn_BindAdd (c : option connection) (a1 : list Addr) : option error := unsupported.
Definition other_Conn_BindRemove (c : option connection) (a1 : list Addr) : option error := unsupported.
Definition other_Conn_SetDeadline (c : option connection) (a1 : option Z) : option error := unsupported.
Definition other_Conn_SetReadDeadline (c : option connection) (a1 : option Z) : option error := unsupported.
Definition other_Conn_SetWriteDeadline (c : option connection) (a1 : option Z) : option error := unsupported.
Definition other_Conn_SyscallConn (c : option connection) : option RawConn * option error := (None, unsupported).
Definition other_Conn_Close (c : option connection) : option error := unsupported.
Definition other_Conn_CloseWithTimeout (c : option connection) (a1 : Z) : option error := unsupported.
Definition other_Conn_Shutdown (c : option connection) : option error := unsupported.
Definition other_Conn_Abort (c : option connection) : option error := unsupported.
Definition other_Conn_SendMsg (c : option connection) (a1 : bytes) (a2 : SendOptions) : Z * option error := (0, unsupported).
Definition other_Conn_SendMsgContext (c : option connection) (a1 : context) (a2 : bytes) (a3 : SendOptions) : Z * option error := (0, unsupported).
Definition other_Conn_Write (c : option connection) (a1 : bytes) : Z * option error := (0, unsupported).
Definition other_Conn_DefaultSndInfo (c : option connection) : option SndInfo * option error := (None, unsupported).
Definition other_Conn_SetDefaultSndInfo (c : option connection) (a1 : option SndInfo) : option error := unsupported.
Definition other_Conn_DefaultPrInfo (c : option connection) : option PrInfo * option error := (None, unsupported).
Definition other_Conn_SetDefaultPrInfo (c : option connection) (a1 : option PrInfo) : option error := unsupported.
Definition other_Conn_Read (c : option connection) (a1 : bytes) : Z * option error := (0, unsupported).
Definition other_Conn_RecvMsg (c : option connection) (a1 : bytes) : Z * MsgInfo * option error := (0, zeroMsgInfo, unsupported).
Definition other_Conn_ReadMsg (c : option connection) (a1 : Z) : bytes * RcvInfo * option error := ([], zeroRcvInfo, unsupported).
Definition other_Conn_Subscribe (c : option connection) (a1 : Z) (a2 : bool) : option error := unsupported.
Definition other_Conn_Subscribed (c : option connection) (a1 : Z) : bool * option error := (false, unsupported).
Definition other_Conn_ReadBuffer (c : option connection) : Z * option error := (0, unsupported).
Definition other_Conn_SetReadBuffer (c : option connection) (a1 : Z) : option error := unsupported.
Definition other_Conn_WriteBuffer (c : option connection) : Z * option error := (0, unsupported).
Definition other_Conn_SetWriteBuffer (c : option connection) (a1 : Z) : option error := unsupported.
Definition other_Conn_PrimaryAddr (c : option connection) : Addr * option error := (AddrZero, unsupported).
Definition other_Conn_SetPrimaryAddr (c : option connection) (a1 : Addr) : option error := unsupported.
Definition other_Conn_RequestPeerPrimary (c : option connection) (a1 : Addr) : option error := unsupported.
Definition other_Conn_PathInfo (c : option connection) (a1 : Addr) : option PathInfo * option error := (None, unsupported).
Definition other_Conn_PathParams (c : option connection) (a1 : Addr) : option PathParams * option error := (None, unsupported).
Definition other_Conn_SetPathParams (c : option connection) (a1 : Addr) (a2 : option PathParams) : option error := unsupported.
Definition other_Conn_RequestHeartbeat (c : option connection) (a1 : Addr) : option error := unsupported.
Definition other_Conn_PathThresholds (c : option connection) (a1 : Addr) : option PathThresholds * option error := (None, unsupported).
Definition other_Conn_SetPathThresholds (c : option connection) (a1 : Addr) (a2 : option PathThresholds) : option error := unsupported.
Definition other_Conn_PFExposure (c : option connection) : Z * option error := (0, unsupported).
Definition other_Conn_SetPFExposure (c : option connection) (a1 : Z) : option error := unsupported.
Definition other_Conn_AutoASCONF (c : option connection) : bool * option error := (false, unsupported).
Definition other_Conn_SetAutoASCONF (c : option connection) (a1 : bool) : option error := unsupported.
Definition other_Conn_RemoteUDPEncapsPort (c : option connection) (a1 : Addr) : Z * option error := (0, unsupported).
Definition other_Conn_SetRemoteUDPEncapsPort (c : option connection) (a1 : Addr) (a2 : Z) : option error := unsupported.
Definition other_Conn_PLPMTUDProbeInterval (c : option connection) (a1 : Addr) : Z * option error := (0, unsupported).
Definition other_Conn_SetPLPMTUDProbeInterval (c : option connection) (a1 : Addr) (a2 : Z) : option error := unsupported.
Definition other_Conn_Status (c : option connection) : option Status * option error := (None, unsupported).
Definition other_Conn_Stats (c : option connection) : option AssocStats * option error := (None, unsupported).
Definition other_Conn_AssocInfo (c : option connection) : option AssocInfo * option error := (None, unsupported).
Definition other_Conn_SetAssocInfo (c : option connection) (a1 : option AssocInfo) : option error := unsupported.
Definition other_Conn_RTOInfo (c : option connection) : option RTOInfo * option error := (None, unsupported).
Definition other_Conn_SetRTOInfo (c : option connection) (a1 : option RTOInfo) : option error := unsupported.
Definition other_Conn_InitMsg (c : option connection) : option InitMsg * option error := (None, unsupported).
Definition other_Conn_DelayedSACK (c : option connection) : option DelayedSACK * option error := (None, unsupported).
Definition other_Conn_SetDelayedSACK (c : option connection) (a1 : option DelayedSACK) : option error := unsupported.
Definition other_Conn_AdaptationLayer (c : option connection) : Z * option error := (0, unsupported).
Definition other_Conn_NoDelay (c : option connection) : bool * option error := (false, unsupported).
Definition other_Conn_SetNoDelay (c : option connection) (a1 : bool) : option error := unsupported.
Definition other_Conn_MaxSeg (c : option connection) : Z * option error := (0, unsupported).
Definition other_Conn_SetMaxSeg (c : option connection) (a1 : Z) : option error := unsupported.
Definition other_Conn_MaxBurst (c : option connection) : Z * option error := (0, unsupported).
Definition other_Conn_SetMaxBurst (c : option connection) (a1 : Z) : option error := unsupported.
Definition other_Conn_FragmentsDisabled (c : option connection) : bool * option error := (false, unsupported).
Definition other_Conn_SetFragmentsDisabled (c : option connection) (a1 : bool) : option error := unsupported.
Definition other_Conn_FragmentInterleave (c : option connection) : Z * option error := (0, unsupported).
Definition other_Conn_SetFragmentInterleave (c : option connection) (a1 : Z) : option error := unsupported.
Definition other_Conn_PartialDeliveryPoint (c : option connection) : Z * option error := (0, unsupported).
Definition other_Conn_SetPartialDeliveryPoint (c : option connection) (a1 : Z) : option error := unsupported.
Definition other_Conn_ReceiveNxtInfo (c : option connection) : bool * option error := (false, unsupported).
Definition other_Conn_SetReceiveNxtInfo (c : option connection) (a1 : bool) : option error := unsupported.
Definition other_Conn_DefaultContext (c : option connection) : Z * option error := (0, unsupported).
Definition other_Conn_SetDefaultContext (c : option connection) (a1 : Z) : option error := unsupported.
Definition other_Conn_PRSupported (c : option connection) : bool * option error := (false, unsupported).
Definition other_Conn_ReconfigSupported (c : option connection) : bool * option error := (false, unsupported).
Definition other_Conn_ASCONFSupported (c : option connection) : bool * option error := (false, unsupported).
Definition other_Conn_AuthSupported (c : option connection) : bool * option error := (false, unsupported).
Definition other_Conn_InterleavingSupported (c : option connection) : bool * option error := (false, unsupported).
Definition other_Conn_ECNSupported (c : option connection) : bool * option error := (false, unsupported).
Definition other_Conn_SetAuthKey (c : option connection) (a1 : Z) (a2 : bytes) : option error := unsupported.
Definition other_Conn_ActiveAuthKey (c : option connection) : Z * option error := (0, unsupported).
Definition other_Conn_SetActiveAuthKey (c : option connection) (a1 : Z) : option error := unsupported.
Definition other_Conn_DeactivateAuthKey (c : option connection) (a1 : Z) : option error := unsupported.
Definition other_Conn_DeleteAuthKey (c : option connection) (a1 : Z) : option error := unsupported.
Definition other_Conn_HMACIdentifiers (c : option connection) : list Z * option error := ([], unsupported).
Definition other_Conn_LocalAuthChunks (c : option connection) : list Z * option error := ([], unsupported).
Definition other_Conn_PeerAuthChunks (c : option connection) : list Z * option error := ([], unsupported).
Definition other_Conn_StreamResetMask (c : option connection) : Z * option error := (0, unsupported).
Definition other_Conn_SetStreamResetMask (c : option connection) (a1 : Z) : option error := unsupported.
Definition other_Conn_ResetStreams (c : option connection) (a1 : Z) (a2 : list Z) : option error := unsupported.
Definition other_Conn_ResetAssoc (c : option connection) : option error := unsupported.
Definition other_Conn_AddStreams (c : option connection) (a1 : Z) (a2 : Z) : option error := unsupported.
Definition other_Conn_StreamScheduler (c : option connection) : Z * option error := (0, unsupported).
Definition other_Conn_SetStreamScheduler (c : option connection) (a1 : Z) : option error := unsupported.
Definition other_Conn_StreamSchedulerValue (c : option connection) (a1 : Z) : Z * option error := (0, unsupported).
Definition other_Conn_SetStreamSchedulerValue (c : option connection) (a1 : Z) (a2 : Z) : option error := unsupported.
Definition other_Conn_PRStreamStatus (c : option connection) (a1 : Z) (a2 : Z) : option PRStatus * option error := (None, unsupported).
Definition other_Conn_PRAssocStatus (c : option connection) (a1 : Z) : option PRStatus * option error := (None, unsupported).

(** ** Endpoint *)
Definition other_Endpoint_Connect (e : option endpoint) (a1 : option SctpAddr) : Z * option error := (0, unsupported).
Definition other_Endpoint_SendMsg (e : option endpoint) (a1 : Z) (a2 : bytes) (a3 : SendOptions) : Z * option error := (0, unsupported).
Definition other_Endpoint_SendMsgContext (e : option endpoint) (a1 : context) (a2 : Z) (a3 : bytes) (a4 : SendOptions) : Z * option error :=
  (0, unsupported).
Definition other_Endpoint_RecvMsg (e : option endpoint) (a1 : bytes) : Z * MsgInfo * option error := (0, zeroMsgInfo, unsupported).
Definition other_Endpoint_PeelOff (e : option endpoint) (a1 : Z) : option connection * option error := (None, unsupported).
Definition other_Endpoint_CloseAssoc (e : option endpoint) (a1 : Z) : option error := unsupported.
Definition other_Endpoint_AbortAssoc (e : option endpoint) (a1 : Z) (a2 : bytes) : option error := unsupported.
Definition other_Endpoint_AssocIDs (e : option endpoint) : list Z * option error := ([], unsupported).
Definition other_Endpoint_AssocCount (e : option endpoint) : Z * option error := (0, unsupported).
Definition other_Endpoint_LocalAddrs (e : option endpoint) (a1 : Z) : option SctpAddr * option error := (None, unsupported).
Definition other_Endpoint_PeerAddrs (e : option endpoint) (a1 : Z) : option SctpAddr * option error := (None, unsupported).
Definition other_Endpoint_AutoClose (e : option endpoint) : Z * option error := (0, unsupported).
Definition other_Endpoint_SetAutoClose (e : option endpoint) (a1 : Z) : option error := unsupported.
Definition other_Endpoint_Addr (e : option endpoint) : option SctpAddr := None.
Definition other_Endpoint_BindAdd (e : option endpoint) (a1 : list Addr) : option error := unsupported.
Definition other_Endpoint_BindRemove (e : option endpoint) (a1 : list Addr) : option error := unsupported.
Definition other_Endpoint_SetDeadline (e : option endpoint) (a1 : option Z) : option error := unsupported.
Definition other_Endpoint_SetReadDeadline (e : option endpoint) (a1 : option Z) : option error := unsupported.
Definition other_Endpoint_SetWriteDeadline (e : option endpoint) (a1 : option Z) : option error := unsupported.
Definition other_Endpoint_Close (e : option endpoint) : option error := unsupported.
Definition other_Endpoint_Abort (e : option endpoint) : option error := unsupported.
Definition other_Endpoint_SyscallConn (e : option endpoint) : option RawConn * option error := (None, unsupported).
End Methods.
