(* ===== verification/Unsupported.v ===== *)
(** * Other platforms (src/unsupported.go)

    On every platform but Linux the constructors check their Config as on
    Linux and then fail with ErrUnsupported, in the *net.OpError Linux
    builds.  The methods are in Stubs.v.

    The theorem: a Config that Linux refuses is refused with the same error
    on every platform, and one that Linux accepts fails with ErrUnsupported. *)
From Stdlib Require Import ZArith Lia Bool.
From stdpp Require Import base list option strings.
From coqutil Require Import Byte.
From S2P Require Import Prelude Abi Errors Netip Sockaddr Config Term Addr Sys Close Sockets CloseOps Conns Dial Listeners Endpoints.

Section Stubs.
Context `{A : Arch} `{ZE : ZoneEnv} `{CS : ClosingSentinel} `{IT : IPText}.

(** [return nil, err]. *)
Definition failed {X} (err : option error) : out error X := match err with Some e => Err e | None => Panic end.

(** What each constructor does with its Config. *)
Definition other_check {X} (c : option Config) (style : socketStyle) (wrap : error -> option error) : out error X :=
  match prepare c style with
  | Err e => failed (wrap e)
  | Ret _ => failed (wrap (Plain ErrUnsupported))
  | Panic => Panic
  end.

Definition other_Dial (c : option Config) (network : string) (laddr raddr : option SctpAddr) : out error (option connection) :=
  other_check c styleDial (fun e => opError "dial" (canonicalName network) (net_Addr laddr) (net_Addr raddr) (Some e)).
Definition other_Listen (c : option Config) (network : string) (laddr : option SctpAddr) : out error listener :=
  other_check c styleListen (fun e => opError "listen" (canonicalName network) None (net_Addr laddr) (Some e)).
Definition other_FileConn (c : option Config) : out error connection :=
  other_check c styleFile (fun e => opError "file" "sctp" None None (Some e)).
Definition other_FileListener (c : option Config) : out error listener :=
  other_check c styleFile (fun e => opError "file" "sctp" None None (Some e)).
Definition other_ListenEndpoint (c : option Config) (network : string) (laddr : option SctpAddr) : out error endpoint :=
  other_check c styleListenEndpoint (fun e => opError "listen" (canonicalName network) None (net_Addr laddr) (Some e)).
Definition other_OpenEndpoint (c : option Config) (network : string) (laddr : option SctpAddr) : out error endpoint :=
  other_check c styleOpenEndpoint (fun e => opError "listen" (canonicalName network) None (net_Addr laddr) (Some e)).

Definition other_sctp_Dial := other_Dial None.
Definition other_sctp_Listen := other_Listen None.
Definition other_sctp_FileConn := other_FileConn None.
Definition other_sctp_FileListener := other_FileListener None.
Definition other_sctp_ListenEndpoint := other_ListenEndpoint None.
Definition other_sctp_OpenEndpoint := other_OpenEndpoint None.
End Stubs.

(** ** The same error everywhere *)
Section Agree.
Context `{A : Arch} `{ZE : ZoneEnv} `{CS : ClosingSentinel} `{IT : IPText} `{H : Host}.

(** A constructor that has failed with [e] before it opened anything. *)
Lemma wrapped_failed {X} (wrap : error -> option error) (m : io X) st st' l e :
  m st = (st', l, Err e) -> wrapped wrap m st = (st', l, failed (wrap e)).
Proof.
  intros Hm. unfold wrapped, caught, mbind, sys_bind. rewrite Hm. unfold fails, failed. destruct (wrap e); cbn; by rewrite app_nil_r.
Qed.

Lemma bind_failed {X Y} (m : io X) (k : X -> io Y) st st1 l1 x e st2 l2 :
  m st = (st1, l1, Ret x) -> k x st1 = (st2, l2, Err e) -> (m ≫= k) st = (st2, l1 ++ l2, Err e).
Proof. intros Hm Hk. unfold mbind, sys_bind. by rewrite Hm, Hk. Qed.

Lemma bind_prepare_failed {Y} c style (k : prepared -> io Y) st e : prepare c style = Err e -> (pure (prepare c style) ≫= k) st = (st, [], Err e).
Proof. intros He. unfold mbind, sys_bind, pure. by rewrite He. Qed.

(** The family of the socket, and then the Config. *)
Lemma family_prepare_failed {Y} network laddr raddr c style (k : Z -> prepared -> io Y) st st1 l family e :
  socketFamily network laddr raddr st = (st1, l, Ret family) -> prepare c style = Err e ->
  (family ← socketFamily network laddr raddr; p ← pure (prepare c style); k family p) st = (st1, l, Err e).
Proof. intros Hf He. rewrite <- (app_nil_r l). eapply bind_failed; [exact Hf |]. by apply bind_prepare_failed. Qed.

(** The result of a constructor on the other platforms, [r], is the one of
    Linux, [linux], when the Config is refused; otherwise ErrUnsupported. *)
Definition agrees {X} (c : option Config) (style : socketStyle) (linux r : out error X) : Prop :=
  match prepare c style with
  | Err _ => linux = r
  | Ret _ => exists e, r = Err e /\ errors_Is e ErrUnsupported = true
  | Panic => False
  end.

Lemma agrees_check {X} c style wrap (linux : out error X) :
  (exists e, wrap (Plain ErrUnsupported) = Some e /\ errors_Is e ErrUnsupported = true) ->
  (forall e, prepare c style = Err e -> linux = failed (wrap e)) -> agrees c style linux (other_check c style wrap).
Proof.
  pose proof (prepare_total c style) as Hp. intros (e & He & Hi) Hl. unfold agrees, other_check. destruct (prepare c style) as [p | e' |]; [| by apply Hl | done].
  rewrite He. by exists e.
Qed.

Lemma unsupported_wrapped op network source addr :
  exists e, opError op network source addr (Some (Plain ErrUnsupported)) = Some e /\ errors_Is e ErrUnsupported = true.
Proof.
  assert (E : closed_cause (Plain ErrUnsupported) = false) by (unfold closed_cause, isFileClosingErr; by destruct captured).
  unfold opError. rewrite E. by eexists.
Qed.

Lemma Listen_agrees control_of c network laddr st st1 l family :
  socketFamily network laddr None st = (st1, l, Ret family) ->
  agrees c styleListen (Listen control_of c network laddr st).2 (other_Listen c network laddr).
Proof.
  intros Hf. apply agrees_check; [apply unsupported_wrapped |]. intros e He. unfold Listen.
  assert (Hd : listen control_of c network laddr st = (st1, l, Err e)) by exact (family_prepare_failed _ _ _ _ _ _ _ _ _ _ _ Hf He).
  by rewrite (wrapped_failed _ _ _ _ _ _ Hd).
Qed.

Lemma named_open_agrees control_of c style network laddr st st1 l family :
  socketFamily network laddr None st = (st1, l, Ret family) ->
  agrees c style (named_open control_of c style network laddr st).2
    (other_check c style (fun e => opError "listen" (canonicalName network) None (net_Addr laddr) (Some e))).
Proof.
  intros Hf. apply agrees_check; [apply unsupported_wrapped |]. intros e He. unfold named_open.
  assert (Hd : openEndpoint control_of c style network laddr st = (st1, l, Err e)) by exact (family_prepare_failed _ _ _ _ _ _ _ _ _ _ _ Hf He).
  by rewrite (wrapped_failed _ _ _ _ _ _ Hd).
Qed.

Lemma Dial_agrees control_of wakes cancellable c network laddr ra st st1 l family :
  IPs ra <> [] -> Port ra <> 0 -> socketFamily network laddr (Some ra) st = (st1, l, Ret family) ->
  agrees c styleDial (Dial control_of wakes (Some cancellable) c network laddr (Some ra) st).2 (other_Dial c network laddr (Some ra)).
Proof.
  intros Hi Hport Hf. apply agrees_check; [apply unsupported_wrapped |]. intros e He. unfold Dial.
  assert (Hd : dial control_of wakes (Some cancellable) c network laddr (Some ra) st = (st1, l, Err e)).
  { unfold dial. rewrite (proj2 (Z.eqb_neq (Port ra) 0)) by done. destruct (Z.eqb_spec (len (IPs ra)) 0) as [E |]; [by destruct (IPs ra) |].
    exact (family_prepare_failed _ _ _ _ _ _ _ _ _ _ _ Hf He). }
  by rewrite (wrapped_failed _ _ _ _ _ _ Hd).
Qed.

Lemma file_agrees {X} c (k : prepared -> io X) st :
  agrees c styleFile (wrapped (fun e => opError "file" "sctp" None None (Some e)) (p ← pure (prepare c styleFile); k p) st).2
    (other_check c styleFile (fun e => opError "file" "sctp" None None (Some e))).
Proof.
  apply agrees_check; [apply unsupported_wrapped |]. intros e He. by rewrite (wrapped_failed _ _ _ _ _ _ (bind_prepare_failed _ _ _ _ _ He)).
Qed.

(** A constructor on another platform reports what Linux reports: given
    arguments that pass the checks Linux makes before it looks at the
    Config (the network and its addresses, and for Dial a remote address
    with a port), a Config that Linux refuses is refused with the very same
    error; any other one fails with an error that matches ErrUnsupported.
    FileConn and FileListener look at the Config first. *)
Theorem platforms_agree control_of c st :
  (forall network laddr st1 l family, socketFamily network laddr None st = (st1, l, Ret family) ->
     agrees c styleListen (Listen control_of c network laddr st).2 (other_Listen c network laddr) /\
     agrees c styleListenEndpoint (ListenEndpoint control_of c network laddr st).2 (other_ListenEndpoint c network laddr) /\
     agrees c styleOpenEndpoint (OpenEndpoint control_of c network laddr st).2 (other_OpenEndpoint c network laddr)) /\
  (forall wakes cancellable network laddr ra st1 l family, IPs ra <> [] -> Port ra <> 0 ->
     socketFamily network laddr (Some ra) st = (st1, l, Ret family) ->
     agrees c styleDial (Dial control_of wakes (Some cancellable) c network laddr (Some ra) st).2 (other_Dial c network laddr (Some ra))) /\
  (forall f, agrees c styleFile (FileConn c f st).2 (other_FileConn c) /\ agrees c styleFile (FileListener c f st).2 (other_FileListener c)).
Proof.
  split_and!.
  - intros network laddr st1 l family Hf. split_and!; [by eapply Listen_agrees | by eapply named_open_agrees | by eapply named_open_agrees].
  - intros. by eapply Dial_agrees.
  - intros f. split; apply file_agrees.
Qed.
End Agree.
