(* ===== verification/Hosts.v ===== *)
(** * A host that answers

    A concrete [Host], on amd64: every system call succeeds, a getsockopt
    leaves its buffer as it is, and nothing makes anybody wait.  The theorems
    about constructors, closing and associations are applied on it here. *)
From Stdlib Require Import ZArith Lia Bool.
From stdpp Require Import base list option strings gmap.
From coqutil Require Import Byte.
From S2P Require Import Prelude Abi Errors Enums Netip Sockaddr Options MsgInfo Notification Accumulator Config Term Recv Addr Sys Apply Send ConnOptions Close Endpoint Sockets CloseOps Conns Dial Listeners Endpoints EndpointRecv EndpointLocks NetipText Resolve Unsupported.

Section Demo.
#[local] Existing Instance amd64.
#[local] Existing Instance amd64_ok.
#[local] Instance demo_runtime : ClosingSentinel := { captured := true; strerror := fun _ => "errno" }.
#[local] Instance demo_zones : ZoneEnv := host_zones.

#[local] Instance demo_host : Host := {
  host_numbers := amd64_numbers;
  os := unit;
  os_setsockopt o _ _ _ _ := (o, 0);
  os_getsockopt o _ _ _ b := (o, (0, (b, len b)));
  os_call o _ := (o, (0, (5, [])));
  os_released o _ := (o, false);
  os_prepare o _ := (o, None);
  os_wait o _ := (o, None);
  os_deadline o _ _ := (o, None);
  os_ctx_err o := (o, None);
  os_stop o := (o, true);
  os_elapsed o := (o, 1000);
  os_order o := (o, []);
  os_somaxconn o := (o, Some ("4096" +:+ String (Ascii.ascii_of_nat 10) ""));
  os_interfaces o := (o, None);
}.

#[local] Instance demo_host_ok : HostOk.
Proof. split; [| done]. intros o o' c v d _ [= _ <- _]. lia. Defined.

Definition demo_process : process := {| p_os := tt; p_closed := []; p_next := 1; p_cache := storageLayoutUnknown; p_ipv6Unavailable := None |}.

(** Nothing is owned; and the socket 7 is, with file 0. *)
Definition nothing_held : held := {| owned := []; closed := []; next := 0 |}.
Definition demo_socket : socket := {| s_file := {| f_id := 0; f_fd := 7 |}; s_family := afInet; s_network := "sctp4" |}.
Definition socket_held : held := {| owned := [7]; closed := []; next := 1 |}.

Lemma nothing_wf : held_wf nothing_held.
Proof. intros i Hi. by apply not_elem_of_nil in Hi. Qed.

Lemma demo_hands : hands nothing_held demo_socket socket_held.
Proof.
  split_and!; cbn; [done | | lia | lia | done | intros i Hi; by apply not_elem_of_nil in Hi].
  split_and!; cbn; [by left | apply not_elem_of_nil | lia].
Qed.

(** Config.Control that does nothing. *)
Definition no_control : funcval -> hook := fun _ _ _ _ => mret tt.

Lemma no_control_ok f : hook_ok (Some (no_control f)).
Proof. intros h network address s g [= <-] Hw _. apply runs_ret. split; [done | by apply keeps_refl]. Qed.

Definition demo_addr : SctpAddr := {| IPs := [IPv4Unspecified]; Port := 3868 |}.

Lemma demo_addr_wf : wf_addr (Some demo_addr).
Proof. by repeat constructor. Qed.

Definition demo_prepared : prepared := match prepare None styleFile with Ret p => p | _ =>
  {| p_ops := []; p_handler := None; p_closeTimeout := 0; p_abandon := 0; p_setupRTOInitialMS := 0; p_subscribed := 0; p_fragLevel := 0; p_adopted := true |} end.

Definition demo_ops : sockCloseOps := {| k_sock := demo_socket; k_kind := kindDialed; k_send := true; k_wakes := 0; k_term := Some zero_termState |}.

Lemma close_releases_witness :
  runs socket_held (drive 100 demo_ops (Close.init (zero_lifecycle 0)) (enter CallAbort)) (call_ended k_sock CallAbort demo_ops nothing_held).
Proof.
  apply (close_releases k_sock CallAbort 0 demo_ops nothing_held socket_held 100);
    [exact nothing_wf | exact demo_hands | by apply Nat.ltb_lt].
Defined.

Lemma newConn_fields_witness :
  exists c, (newConn demo_socket kindAccepted demo_prepared demo_process).2 = Ret c /\ cn_sock c = Some demo_socket.
Proof.
  destruct (newConn demo_socket kindAccepted demo_prepared demo_process) as [[st l] r] eqn:E.
  assert (Hr : exists c, r = Ret c).
  { replace r with (newConn demo_socket kindAccepted demo_prepared demo_process).2 by (by rewrite E). vm_compute. by eexists. }
  destruct Hr as [c ->]. exists c. split; [reflexivity |]. exact (proj1 (newConn_fields demo_socket kindAccepted demo_prepared demo_process st l c E)).
Defined.

Lemma bindx_spec_witness :
  let '(st', l, r) := bindx_on demo_socket (fun e => Some e) (fun e => Some e) optSockoptBindxAdd "BindAdd" [IPv4Unspecified] (mret tt) demo_process in
  bindx_went demo_socket (fun e => Some e) (fun e => Some e) optSockoptBindxAdd [IPv4Unspecified] (mret tt : io unit) demo_process st' l r.
Proof.
  apply (bindx_spec demo_socket (fun e => Some e) (fun e => Some e) optSockoptBindxAdd "BindAdd" [IPv4Unspecified] (mret tt : io unit) demo_process);
    [by repeat constructor | done | done].
Defined.

Lemma dial_owns_witness :
  runs nothing_held (Dial no_control 3 (Some true) None "sctp4" None (Some demo_addr)) (fun r g' =>
    dialed_or nothing_held r g' /\ forall cn, r = Ret (Some cn) -> kernel_port None = true -> selfConnected cn = false).
Proof.
  apply (dial_owns no_control 3 (Some true) None "sctp4" None (Some demo_addr) nothing_held);
    [exact nothing_wf | exact no_control_ok | by constructor | exact demo_addr_wf].
Defined.

Lemma await_evidence_witness :
  exists before look between,
    (awaitEstablished 3 true demo_socket demo_process).1.2 = before ++ look ++ between ++ [ADeadline 0 None] /\
    saw_established 7 look /\ deadlines_of (s_file demo_socket) between.
Proof.
  apply (await_evidence 3 true demo_socket demo_process (awaitEstablished 3 true demo_socket demo_process).1.1
    (awaitEstablished 3 true demo_socket demo_process).1.2). vm_compute. reflexivity.
Defined.

Lemma listen_ready_witness :
  exists l s, (listen no_control None "sctp4" (Some demo_addr) demo_process).2 = Ret l /\ ls_sock l = Some s.
Proof.
  destruct (listen no_control None "sctp4" (Some demo_addr) demo_process) as [[st log] r] eqn:E.
  assert (Hr : exists l, r = Ret l).
  { replace r with (listen no_control None "sctp4" (Some demo_addr) demo_process).2 by (by rewrite E). vm_compute. by eexists. }
  destruct Hr as [l ->]. exists l.
  destruct (listen_ready no_control None "sctp4" (Some demo_addr) demo_process st log l demo_addr_wf E) as (s & _ & _ & _ & _ & _ & _ & _ & _ & _ & Hs & _).
  exists s. split; [reflexivity | exact Hs].
Defined.

Definition demo_endpoint : endpoint := {|
  en_sock := Some demo_socket; en_peel := demo_prepared; en_handler := None; en_closeWait := 0; en_subs := 0; en_addr := None;
  en_life := Close.init (zero_lifecycle 0); en_send := endpoint_send |}.

(** Association 3 is asked to shut down, with one sendmsg. *)
Lemma endAssoc_spec_witness :
  exists v d, (CloseAssoc (Some demo_endpoint) 3 demo_process).1.2 =
    [ACall (c_sendmsg 7 (end_message sndFlagEOF 3 [])) 0 v d].
Proof.
  pose proof (proj1 (endAssoc_spec demo_endpoint demo_socket 3 [] demo_process eq_refl eq_refl)) as H.
  unfold ends_assoc in H. destruct (CloseAssoc (Some demo_endpoint) 3 demo_process) as [[st l] r] eqn:E. vm_compute in E.
  injection E as _ El _. destruct H as [[Hl _] | (errno & v & d & Hl & _)]; rewrite <- El in Hl; [discriminate Hl |].
  exists v, d. rewrite <- El. cbn [fst snd]. assert (He : errno = 0) by congruence. rewrite Hl, He. reflexivity.
Defined.

(** A Close that has asked association 4 asks 3 and 5. *)
Definition demo_shut : endpointCloseOps := {| ec_ops := demo_ops; ec_shut := {[ 4 ]} |}.

Lemma shutdown_once_witness :
  exists st' l o', shutdownEach demo_shut [3; 4; 5] demo_process = (st', l, Ret o') /\ Forall2 (asks demo_socket) [3; 5] l.
Proof.
  destruct (shutdown_once demo_shut [3; 4; 5] demo_process) as (st' & l & o' & sent & He & _ & _ & Hl & _ & Hall).
  exists st', l, o'. split; [exact He |]. rewrite Hall in Hl; [exact Hl |]. split; [reflexivity |]. intros o. exists o. reflexivity.
Defined.

Lemma constructors_own_witness :
  runs nothing_held (Listen no_control None "sctp4" (Some demo_addr)) (listener_or nothing_held).
Proof. exact (proj1 (constructors_own no_control nothing_held nothing_wf no_control_ok) None "sctp4" (Some demo_addr) demo_addr_wf). Defined.

(** A Config with an AbandonPolicy that does not exist. *)
Definition bad_config : Config := {|
  cfg_Control := None; cfg_NotificationHandler := None; cfg_CloseTimeout := 0;
  cfg_AbandonPolicy := 99; cfg_SetupRTOInitial := 0; cfg_InitMsg := zeroInitMsg;
  cfg_AdaptationLayer := None; cfg_HMACIdentifiers := None; cfg_AuthChunks := None;
  cfg_PartialReliability := None; cfg_StreamReconfiguration := None;
  cfg_DynamicAddressReconfiguration := None; cfg_Authentication := None;
  cfg_ExperimentalECN := None; cfg_MessageInterleaving := false; cfg_ReadBuffer := None;
  cfg_WriteBuffer := None; cfg_NoDelay := None; cfg_DefaultSndInfo := None;
  cfg_DefaultPrInfo := None; cfg_ReusePort := None; cfg_FragmentsDisabled := None;
  cfg_FragmentInterleave := None; cfg_ReceiveNxtInfo := None; cfg_StreamResetMask := None;
  cfg_RTOInfo := None; cfg_DelayedSACK := None; cfg_Notifications := None |}.

Lemma platforms_agree_witness :
  (Listen no_control (Some bad_config) "sctp4" (Some demo_addr) demo_process).2 = other_Listen (Some bad_config) "sctp4" (Some demo_addr).
Proof.
  destruct (platforms_agree no_control (Some bad_config) demo_process) as (Hl & _ & _).
  exact (proj1 (Hl "sctp4" (Some demo_addr) demo_process [] afInet eq_refl)).
Defined.
Lemma peelOff_section_witness :
  exists st r, peel_steps 5 demo_socket 3 PeelControl demo_process = (st, PeelUnlock (Ret r)).
Proof.
  pose proof (peelOff_section demo_socket 3 demo_process) as Hp.
  remember (control demo_socket (peelOff (s_fd demo_socket) 3) demo_process) as m eqn:E.
  vm_compute in E. subst m. exists demo_process, 0. exact Hp.
Defined.
End Demo.

(** ** Kernels that list associations *)

(** A kernel with the associations 22, 21, ..., 3, on a 32-bit target: the
    buffer for 16 ids is too small, the one for 32 is not. *)
Definition listed_ids : list Z := (fun n => 22 - Z.of_nat n) <$> seq 0 20.

Definition listing_kernel : Kernel := {|
  numbers := amd64_numbers; Sys.world := unit;
  k_control w := (w, true);
  k_setsockopt w _ _ _ := (w, 0);
  k_getsockopt w _ _ b := (w, if len b <? len (assocIDs_bytes (A := i386) listed_ids) then (EINVAL, ([], 0))
    else (0, (assocIDs_bytes (A := i386) listed_ids, len (assocIDs_bytes (A := i386) listed_ids)))) |}.

Lemma assocIDs_spec_witness :
  knows_assocs (A := i386) (K := listing_kernel) listed_ids /\ lengths_within (K := listing_kernel) /\
  (assocIDs (A := i386) (K := listing_kernel)
     {| kern := tt : @Sys.world listing_kernel; storageLayoutCache := storageLayoutUnknown |}).2 = Ret (seqZ 3 20).
Proof.
  assert (Hk : knows_assocs (A := i386) (K := listing_kernel) listed_ids) by (split; [intros w | intros w b]; reflexivity).
  assert (Hw : lengths_within (K := listing_kernel)).
  { intros w level opt b w' reply n. unfold k_getsockopt, listing_kernel.
    case (Z.ltb_spec (len b) (len (assocIDs_bytes (A := i386) listed_ids))); [intros _ E; discriminate E |].
    intros Hlen E. injection E as _ _ <-. exact Hlen. }
  split; [exact Hk |]. split; [exact Hw |].
  assert (Hnd : NoDup listed_ids) by (apply (bool_decide_unpack _); vm_compute; exact I).
  assert (Hreal : Forall real_id listed_ids).
  { eapply Forall_impl with (P := fun id => (3 <=? id) && (id <=? 22) = true); [by vm_compute; repeat constructor |].
    intros id [H1%Z.leb_le H2%Z.leb_le]%andb_true_iff. split; [unfold assocScopeAll; lia | unfold is_i32; lia]. }
  pose proof (assocIDs_spec (A := i386) (K := listing_kernel)
    {| kern := tt : @Sys.world listing_kernel; storageLayoutCache := storageLayoutUnknown |}) as H.
  destruct (assocIDs (A := i386) (K := listing_kernel) _) as [[p l] r]. cbn [snd].
  rewrite (proj2 (proj2 H) listed_ids Hk Hnd Hreal). vm_compute. reflexivity.
Defined.

(** What the comparison of int(l) lets through: on a 32-bit target a
    reported length of 2^31 panics, where a 64-bit one refuses the list. *)
Definition lying_kernel : Kernel := {|
  numbers := amd64_numbers; Sys.world := unit;
  k_control w := (w, true);
  k_setsockopt w _ _ _ := (w, 0);
  k_getsockopt w _ _ b := (w, (0, (b, 2 ^ 31))) |}.

Lemma assocIDs_oversized :
  let p := {| kern := tt : @Sys.world lying_kernel; storageLayoutCache := storageLayoutUnknown |} in
  (assocIDs (A := i386) (K := lying_kernel) p).2 = Panic /\
  exists e, (assocIDs (A := amd64) (K := lying_kernel) p).2 = Err e /\ errors_Is e ErrInvalidAssocList = true.
Proof. split; [vm_compute; reflexivity |]. eexists. split; [vm_compute; reflexivity | reflexivity]. Qed.
